(* ===== verification/_CoqProject ===== *)
-Q . S2P
Prelude.v
StateMachine.v
TaskEnums.v
TaskTransitions.v
ProjectTransitions.v
PlanTransitions.v
Kanban.v
Graphs.v
PlanUnits.v
Dag.v
DecompTree.v
Waves.v
Rollup.v
PlanItems.v
PlanTree.v
Sprint.v
SlidingWindow.v
Inflight.v
TaskModel.v
TaskEngine.v
TaskEngineProofs.v
ConditionEval.v
WorkflowModel.v
WorkflowGraph.v
WorkflowRuns.v
WorkflowBindings.v
WorkflowWalk.v
WorkflowActivation.v
SubworkflowChecks.v
SubworkflowNesting.v
Autonomy.v
SecurityModel.v
SecurityRules.v
DenialTracker.v
AuditLog.v
OutputScan.v
SecOps.v
SecOpsProofs.v
ToolPermissions.v
ToolInvoker.v
ToolBatch.v
EngineQueue.v
EngineQueueProofs.v
EngineQueueDrain.v
EngineQueueEvents.v
EngineQueueSpec.v
EngineApi.v
Capability.v
Hierarchy.v
Routing.v
Assignment.v
AssignmentSpec.v
AssignmentService.v
