(* ===== verification/Prelude.v ===== *)
(** * A verification of the core rules of synthorg

    synthorg runs a synthetic organisation: an objective becomes a plan, a plan
    is decomposed into a tree of subtasks, the tree is dispatched to agents in
    waves, and tasks, plans and projects move through lifecycles that gate what
    may happen to them. Around that core sit a web API, model providers, tools
    and storage. This development models the core rules, the pure and stateful
    code that decides what is legal, in which order work runs and how much of it
    may run at once, and proves what those rules promise. Paths below are
    relative to [src/src/synthorg].

    ** The parts and the files that model them

    - [StateMachine]: [core/state_machine.py], the generic lifecycle machine:
      construction, ordered successors, validation, breadth-first [path_to]
      around no-transit states, exit reachability.
    - [TaskEnums], [TaskTransitions]: [core/task_enums.py] and
      [core/task_transitions.py]; [ProjectTransitions]:
      [core/project_enums.py], [core/project_transitions.py];
      [PlanTransitions]: [core/plan_enums.py], [core/plan_transitions.py]. Each
      declares its table with the source's members and builds its machine.
    - [Kanban]: [engine/workflow/kanban_columns.py], [kanban_board.py]: board
      columns as a view of the task lifecycle, and work-in-progress limits.
    - [Sprint]: [engine/workflow/sprint_lifecycle.py], [sprint_backlog.py],
      [_sprint_ops.py]: the sprint record, its invariants and operations.
    - [Graphs]: acyclicity, orders and cycle certificates, shared by all below.
    - [PlanUnits]: option and deliverable rules, [SubtaskDefinition],
      [DecompositionPlan] and the dependency closure ([core/plan.py],
      [core/plan_validation.py], [engine/decomposition/models.py]).
    - [Dag]: [engine/decomposition/dag.py]: reference check, depth-first cycle
      check, Kahn's order on a heap, parallel groups.
    - [DecompTree]: [DecompositionResult] of [engine/decomposition/models.py]:
      the tree, its validators, its flattened views and the dispatch graph.
    - [Waves]: [engine/coordination/group_builder.py]: the execution groups.
    - [Rollup]: [engine/decomposition/rollup.py], [status_rollup.py] and
      [engine/coordination/_dependency_gate.py].
    - [PlanItems]: [Plan] and [PlanItem] of [core/plan.py] with the ordering,
      cycle and containment rules of [core/plan_validation.py].
    - [PlanTree]: [core/plan_tree.py]: parents, depths, addresses, subtrees and
      the deepest-first order of a durable plan.
    - [SlidingWindow]: [api/rate_limits/in_memory.py] (Module [Store]) and
      [core/resilience/sliding_window.py] (Module [Events]).
    - [Inflight]: [api/rate_limits/in_memory_inflight.py], permits and keyed
      locks under interleaved tasks.
    - [TaskModel]: [Task] of [core/task.py] with its validators, parsing from a
      payload and dumping, [with_transition].
    - [TaskEngine], [TaskEngineProofs]: [engine/task_engine_apply.py], the
      single writer of tasks: versions, the five mutations, one turn of the
      processing loop.
    - [EngineQueue]: [engine/task_engine.py], [task_engine_loops.py],
      [task_engine_config.py] and [task_engine_events.py]: admission, the two
      background loops, [start] and [stop] with their rollbacks and drains.
      [EngineQueueProofs] shows who holds what and in which order,
      [EngineQueueDrain] that a drain leaves nobody behind, [EngineQueueEvents]
      where events come from, [EngineQueueSpec] what the queue promises.
    - [EngineApi]: the engine's calls with their typed errors, its reads and the
      filing of pre-built tasks ([engine/task_engine.py]).
    - [ConditionEval]: [engine/workflow/condition_eval.py], the condition
      language: tokens, precedence, negation, comparison and truth values.
    - [WorkflowModel], [WorkflowGraph]: [engine/workflow/definition.py] and
      [enums.py]; [graph_utils.py], [validate_reachability.py],
      [validate_edges.py], [validate_configs.py], [validation.py].
    - [WorkflowRuns]: [execution_models.py], [execution_lifecycle.py] and the
      versioned rows of [persistence/sqlite/workflow_execution_repo.py]:
      cancellations, completions, failures and task events that interleave.
    - [WorkflowBindings]: [subworkflow_binding.py], the values that pass into
      and out of a call.
    - [WorkflowWalk], [WorkflowActivation]: [execution_walk_state.py],
      [execution_activation_helpers.py], [execution_node_dispatch.py] and
      [execution_service.py]: the walk that turns a workflow into tasks.
    - [SubworkflowChecks], [SubworkflowNesting]: [validate_subworkflow.py], the
      checks of calls at save time, and what they guarantee of an activation.
    - [Autonomy]: [core/autonomy_enums.py], [security/action_types.py] and
      [security/autonomy/]: levels, action types, presets and their resolution.
    - [SecurityModel], [SecurityRules]: [security/models.py],
      [security/config/], [security/risk_map.py] and [security/rules/]: verdicts,
      the validated configuration, the detectors the code spells out, custom
      policies, and the engine [engine/_security_factory.py] assembles.
    - [DenialTracker], [AuditLog], [OutputScan]: [security/denial_tracker.py],
      [security/audit.py], and the output scanner with its policies.
    - [SecOps], [SecOpsProofs]: [security/service.py] with its mixins and the
      evaluator: the gate in front of every tool call.
    - [ToolPermissions]: [core/tool_constraints.py], [tools/permissions.py] and
      [tools/sub_constraint_enforcer.py]: what an access level allows.
    - [ToolInvoker], [ToolBatch]: [tools/invoker.py] with its validation mixin
      and recording bridge: one call through every check, and a turn's calls,
      staged and interleaved.

    - [Capability]: the rungs of [core/types.py], the bands of
      [core/capability_fit.py], the policy of [engine/routing_policy/] and the
      gate of a run in [engine/_agent_engine_run.py].
    - [Hierarchy]: [core/company_departments.py] and
      [communication/hierarchy.py], who reports to whom.
    - [Routing]: the scorer, the topology selection and the router of
      [engine/routing/], with the agents of [core/agent.py].
    - [Assignment]: [engine/assignment/], requests, pool filters, rankers,
      strategies, registry and service, and the pick of
      [engine/pipeline/_solo_selection.py]. [AssignmentSpec] says who is
      eligible and preferred, [AssignmentService] that the service obeys.

    They interact as in the code. [TaskTransitions], [ProjectTransitions],
    [PlanTransitions], [Kanban] and [Sprint] instantiate [StateMachine] through
    the class [StateEnum]. [PlanItems] and [PlanUnits] share their rules through
    the class [PlanUnit], whose instances are subtasks and plan items. [Waves]
    calls [Dag] on the dispatch graph of [DecompTree], whose construction calls
    [PlanUnits] and [Dag]. [TaskEngine] applies its mutations with the machine
    of [TaskTransitions] to the tasks of [TaskModel]; [EngineQueue] runs it turn
    by turn, so that the invariants of [TaskEngineProofs] hold behind the queue,
    and [EngineApi] turns its answers into errors. [WorkflowWalk] evaluates
    conditions with [ConditionEval], orders nodes with [WorkflowGraph], binds
    with [WorkflowBindings], and produces the executions whose life
    [WorkflowRuns] follows. In it the task engine is a parameter: the id a
    creation returns is a function of the tasks created before. [SecOps]
    evaluates with the engine of [SecurityRules], reserves what [Autonomy]
    reserves, counts in [DenialTracker], writes to [AuditLog] and scans with
    [OutputScan]. [ToolInvoker] knows it only as the class
    [SecurityInterceptionStrategy], of which the service is an instance, and
    relies on the law of [ParksEscalations], which the service satisfies;
    [ToolBatch] runs the invoker's calls as processes. [Routing] and
    [Assignment] ask the one policy of [Capability] that the gate of a run asks;
    the decisions of [Routing] are what [Waves] reads ([wave_view]), so that its
    theorem goes from a roster to execution groups; the pool filter of
    [Assignment] asks a hierarchy that may fail, of which the resolver of
    [Hierarchy] is the one the registry is given.

    ** How code becomes definitions

    - A function that raises returns [result]; the error type of a component has
      one constructor per raise site, with the values its message quotes. Log
      calls and message texts are omitted.
    - A pydantic model is a record and its validators are functions into
      [result]; a value the code could have built is one whose validators
      return [Ok].
    - A dict is a [gmap], or an association list where insertion order is read;
      a frozenset whose iteration order could matter is a list, with a theorem
      that the order does not.
    - A loop without a bound in the code takes fuel. The fuel is computed from
      the input, and a lemma shows that it is enough: every claim about such a
      function states that it returns. The bounds: one turn per item and edge
      for the worklists ([closure_fuel], [dfs_fuel], [subtree_fuel],
      [below_fuel]), one per id for Kahn's rounds, one per state for [path_to],
      one per item for the climbs to a root, one per published version for the
      visits of the reference graph ([visit_fuel]), one per allowed level of
      nesting for the walk of frames, which the code itself bounds.
      A walk up the hierarchy has one turn per link and two more ([walk_fuel]).
    - Strings are [string], compared by code point; [sorted] is a stable merge
      sort. Python integers are [Z] or [nat]. Times, budgets in seconds and story
      points, scores, costs and bids, floats in the code, are exact rationals: rounding is not modelled.
    - Asynchronous code is modelled by steps: a section under the store's
      meta-lock holds no await and is one step, and any other task may move
      between two steps. The lifecycle of an execution is a program over its
      store whose reads and writes are the steps. A tool call in a batch is a
      process cut at its awaits; a schedule is any sequence of resumptions. The
      task engine is a step relation whose actions are what one of its tasks
      does between two awaits; there is no clock, so a wait may time out
      whenever it is still waiting, and a cancellation may cut a turn at any
      call, before or after its effect. What the loops and drains have left to
      do is a number ([remaining]) that each of their actions lowers.
    - Collaborators outside the model answer through records ([World],
      [CallWorld]) that the definitions take as arguments: model calls, stores,
      schema validators, tools. Any answer may be an exception; exceptions are
      ordinary, critical ([MemoryError], [RecursionError]), or a group that
      nests a critical one.
    - Recursion over arguments stops twenty levels down, as in the code
      ([_MAX_RECURSION_DEPTH]), and the depth is the fuel.
    - A Python [object] is a type with a class [PyObject]: what the code asks of
      it (its class, truth value, [str]) are the fields.

    ** What the theorems show

    - Lifecycles: [path_to] returns a shortest route around the parks, and none
      exactly when there is none; machines do not depend on set iteration order;
      work completes only through review; plans are dispatched only once
      approved; projects are delivered only once integrated and evaluated; board
      moves replay as legal task transitions; limits on columns hold.
    - Decomposition: the three graph checks accept the same plans and the right
      ones; the topological order is correct, canonical and independent of the
      listing; groups are the earliest waves; the dispatch graph of a tree has
      no cycle and loses no declared edge; every unit below a split waits for
      what the split waited for; units without an agent and all that waits for
      them are left out, everything else is scheduled once and in order.
    - Plans: construction accepts exactly the well-formed plans, cycle reports
      are maximal, decisions resolve, the tree has unique addresses and is
      assembled deepest first.
    - Sprints: operations keep the sprint valid, with a counterexample for a bare
      transition.
    - Limits: the pruned stores answer as limiters that forget nothing, within
      their budgets; where the window of an operation is widened at run time,
      the request limiter has forgotten only hits as old as a minute and as
      their own window; permits are exclusive, bounded and never leaked, and no
      interleaving deadlocks; the deployed revalidation limiter, by contrast,
      never saturates.
    - Tasks: parsing accepts exactly the valid payloads and reads back what is
      dumped; each turn of the engine meets its contract, versions rule out lost
      updates, the stored tasks stay valid and their histories are legal. Behind
      the queue there is one writer, in the order of admission; answers are
      true, nobody is left waiting but where a critical error or an absorbed
      cancellation is in play, stops end, queues are bounded, observers hear
      only of changes that were made; runs that go wrong are exhibited. Callers
      get the error class of the refusal or the row now stored.
    - Workflows: a condition evaluates as its grammar says, and raises where it
      has no reading; validation reports exactly the broken rules, among them a
      missing branch of a conditional but not a repeated one; an activation ends, creates exactly the tasks of the
      nodes it reaches, with paths turned into dependencies; executions stay
      valid and serializable under interleaved requests, and terminal ones are
      final; bindings pass exactly the declared names; the save-time checks are
      exact, and checked calls never exceed the nesting limit.
    - Staffing: the hierarchy is a forest whose queries are exact; every unit of
      a tree goes to the best of those who may take it, by rung, score and
      roster, and only to somebody its run lets through; the assignment service
      selects exactly when somebody is eligible, and then the first nobody
      eligible is preferred to; delegated work goes down; unsplit work goes to
      the first ready agent whatever the strategy and the minimum score.
    - Security: with detectors that only object, the rule engine equals a
      first-match reference, and the service in active mode allows a call
      exactly when lists, detectors, policies, the model where it is asked and
      autonomy allow it; in every mode an evaluation is audited with the verdict
      decided and an escalation queues exactly one approval, and only critical
      exceptions leave; presets grant by level; denials, audit queries
      and scanned outputs are what their histories and policies say.
    - Tools: a call runs exactly when every check clears it, a success was
      guarded and scanned, an escalation is backed by an approval; in a batch a
      call that may change something is in flight alone and in its place, what
      follows a park is withheld, no result is missing, the only exceptions
      are those named, and every schedule ends.

    ** What is not modelled

    The API layer, persistence, model providers, prompts and parsing of model
    output, tool implementations, the detectors made of regular expressions
    (arguments of the engine), the policy engine, approval timeouts, workspaces,
    memory, messaging, settings, telemetry and the asynchronous drivers around
    the rules above: they are I/O, calls into libraries, or glue. The model
    catalogue behind the capability policy is an argument. The date and identifier formats are not parsed. One
    evaluation or one scan by the security service is a single step of a batch,
    and cancellation from outside a batch is left out. In the task engine a
    cancellation of [start] while its rollback awaits is left out, and so are
    the spans, the logs and the count of failures in a row, which only changes
    the level of a log line. The storage of workflow definitions, the approval
    gate's timeouts and escalation chains and the recovery path of a sprint are
    not modelled: they sit behind stores and services that are left out here.

    ** This file

    Results of functions that may raise, shared tactics, orders on strings,
    counts, dictionaries, flattened lists, whitespace, finite enumerations, the weight that
    bounds a worklist, and the hint database [py]. *)

From stdpp Require Import gmap strings list sorting relations.
From Stdlib Require Import OrdersEx Lia.

(** ** Python results

    A Python function that may raise is a function into [result]: [Ok] holds
    the returned value, [Err] the exception (an inductive type per component,
    with the values the message is formatted from). *)

Inductive result (E A : Type) : Type :=
| Ok (a : A)
| Err (e : E).
Arguments Ok {E A} a.
Arguments Err {E A} e.

Declare Scope py_scope.
Delimit Scope py_scope with py.

Definition rbind {E A B} (r : result E A) (k : A -> result E B) : result E B :=
  match r with
  | Ok a => k a
  | Err e => Err e
  end.

Notation "'let*' x ':=' r 'in' k" := (rbind r (fun x => k))
  (at level 200, x name, r at level 100, k at level 200) : py_scope.
Notation "'ensure' b 'else' e 'in' k" := (if b then k else Err e)
  (at level 200, b at level 100, e at level 99, k at level 200) : py_scope.

Definition is_ok {E A} (r : result E A) : bool :=
  match r with Ok _ => true | Err _ => false end.

Lemma rbind_ok {E A B} (r : result E A) (k : A -> result E B) b :
  rbind r k = Ok b <-> exists a, r = Ok a /\ k a = Ok b.
Proof. destruct r; simpl; naive_solver. Qed.

Lemma rbind_unit {E} (r k : result E unit) :
  rbind r (fun _ => k) = Ok tt <-> r = Ok tt /\ k = Ok tt.
Proof. destruct r as [[]|]; naive_solver. Qed.

(** A guard that passes. *)
Lemma ensure_ok {E A} (b : bool) (e : E) (k : result E A) a :
  (if b then k else Err e) = Ok a <-> b = true /\ k = Ok a.
Proof. destruct b; naive_solver. Qed.

Lemma nonblocking (P : Prop) `{Decision P} : negb (bool_decide P) = true <-> ~ P.
Proof. by rewrite negb_true_iff, bool_decide_eq_false. Qed.

#[export] Instance result_eq_dec {E A} `{EqDecision E, EqDecision A} : EqDecision (result E A).
Proof. solve_decision. Defined.

(** The value of a computation that was checked not to raise: a module-level
    constant of the program, built at import time. *)
Definition unwrap {E A} (r : result E A) : is_ok r = true -> A :=
  match r with
  | Ok a => fun _ => a
  | Err _ => fun H => match Bool.diff_false_true H with end
  end.

Lemma unwrap_ok {E A} (r : result E A) H : r = Ok (unwrap r H).
Proof. by destruct r. Qed.

(** ** Tactics *)

(** Split every [match]/[if] on a hypothesis equation with [Ok] or [Some]. *)
Ltac inv_result :=
  repeat match goal with
  | H : Ok _ = Ok _ |- _ => injection H as H; subst
  | H : Err _ = Err _ |- _ => injection H as H; subst
  | H : Some _ = Some _ |- _ => injection H as H; subst
  | H : (_, _) = (_, _) |- _ => injection H as H; subst
  | H : Ok _ = Err _ |- _ => discriminate H
  | H : Err _ = Ok _ |- _ => discriminate H
  | H : None = Some _ |- _ => discriminate H
  | H : Some _ = None |- _ => discriminate H
  end.

(** Case-split the head [match]/[if] of a hypothesis, discharging the
    contradictory branches. *)
Ltac split_hyp H :=
  repeat (match type of H with
  | context [match ?x with _ => _ end] => destruct x eqn:?
  end; try discriminate H; inv_result).

(** Booleans of the standard library and stdpp turned into propositions. *)
Ltac bool_to_prop :=
  repeat match goal with
  | H : (_ && _) = true |- _ => apply andb_prop in H; destruct H
  | H : (_ || _) = false |- _ => apply orb_false_elim in H; destruct H
  | H : (_ || _) = true |- _ => apply orb_prop in H
  | H : (_ && _) = false |- _ => apply andb_false_iff in H
  | H : negb _ = true |- _ => apply negb_true_iff in H
  | H : negb _ = false |- _ => apply negb_false_iff in H
  | H : bool_decide _ = true |- _ => apply bool_decide_eq_true in H
  | H : bool_decide _ = false |- _ => apply bool_decide_eq_false in H
  | H : (_ <? _)%Z = true |- _ => apply Z.ltb_lt in H
  | H : (_ <? _)%Z = false |- _ => apply Z.ltb_ge in H
  | H : (_ <=? _)%Z = true |- _ => apply Z.leb_le in H
  | H : (_ <=? _)%Z = false |- _ => apply Z.leb_gt in H
  | H : (_ =? _)%Z = true |- _ => apply Z.eqb_eq in H
  | H : (_ =? _)%Z = false |- _ => apply Z.eqb_neq in H
  | H : (_ <? _) = true |- _ => apply Nat.ltb_lt in H
  | H : (_ <? _) = false |- _ => apply Nat.ltb_ge in H
  | H : (_ <=? _) = true |- _ => apply Nat.leb_le in H
  | H : (_ <=? _) = false |- _ => apply Nat.leb_gt in H
  | H : (_ =? _) = true |- _ => apply Nat.eqb_eq in H
  | H : (_ =? _) = false |- _ => apply Nat.eqb_neq in H
  end.

(** Prove a statement over every member of finite enumerations by
    computation. *)
Ltac by_cases := repeat match goal with
  | |- forall x, _ => intros x; destruct x
  end; vm_compute; try done; try congruence.

(** ** Orders on strings

    Python compares [str] by code point, lexicographically; [String.compare]
    compares the same way. *)

Definition str_le (a b : string) : Prop := String.leb a b = true.
#[export] Instance str_le_dec : RelDecision str_le.
Proof. intros a b. unfold str_le. apply _. Defined.

Lemma str_compare_spec a b :
  CompareSpec (a = b) (String_as_OT.lt a b) (String_as_OT.lt b a) (String.compare a b).
Proof. apply String_as_OT.compare_spec. Qed.

Lemma str_le_lt_or_eq a b : str_le a b <-> String_as_OT.lt a b \/ a = b.
Proof.
  unfold str_le, String.leb.
  destruct (str_compare_spec a b) as [->|Hlt|Hgt]; split; auto; intros H; try done.
  destruct H as [H| ->].
  - destruct (StrictOrder_Irreflexive (R:=String_as_OT.lt) a).
    by transitivity b.
  - by destruct (StrictOrder_Irreflexive (R:=String_as_OT.lt) b).
Qed.

#[export] Instance str_le_total_order : TotalOrder str_le.
Proof.
  repeat split.
  - intros a. apply str_le_lt_or_eq. auto.
  - intros a b c H1 H2. rewrite str_le_lt_or_eq in *.
    destruct H1 as [H1| ->]; [|done].
    destruct H2 as [H2| <-]; [|auto].
    left. by transitivity b.
  - intros a b H1 H2. by apply String.leb_antisym.
  - intros a b. unfold trichotomy, strict.
    destruct (str_compare_spec a b) as [->|Hlt|Hgt]; [auto|left|right; right].
    all: split; [apply str_le_lt_or_eq; auto|].
    all: intros [H| ->]%str_le_lt_or_eq.
    all: eapply (StrictOrder_Irreflexive (R:=String_as_OT.lt)); try done.
    all: by etransitivity.
Qed.

(** [sorted(xs)] on strings. *)
Definition sort_str : list string -> list string := merge_sort str_le.

Lemma sort_str_perm l : sort_str l ≡ₚ l.
Proof. apply merge_sort_Permutation. Qed.

Lemma sort_str_sorted l : Sorted str_le (sort_str l).
Proof. apply Sorted_merge_sort, _. Qed.

Lemma sort_str_unique l1 l2 : l1 ≡ₚ l2 -> sort_str l1 = sort_str l2.
Proof.
  intros H. apply (Sorted_unique str_le); auto using sort_str_sorted.
  by rewrite !sort_str_perm.
Qed.

(** ** Lists *)

Lemma elem_of_concat {A} (x : A) (ls : list (list A)) :
  x ∈ concat ls <-> exists l, l ∈ ls /\ x ∈ l.
Proof.
  rewrite list_elem_of_In, in_concat. setoid_rewrite list_elem_of_In. done.
Qed.

Lemma filter_nil_iff {A} (P : A -> Prop) `{!forall x, Decision (P x)} (l : list A) :
  filter P l = [] <-> forall x, x ∈ l -> ~ P x.
Proof.
  split.
  - intros Hf x Hx HP. apply (not_elem_of_nil x). rewrite <-Hf. by apply list_elem_of_filter.
  - induction l as [|y l IH]; intros Hl; [done|]. rewrite filter_cons, decide_False.
    + apply IH. intros x Hx. apply Hl. by right.
    + apply Hl. left.
Qed.

Lemma fmap_nil_iff {A B} (f : A -> B) (l : list A) : f <$> l = [] <-> l = [].
Proof. by destruct l. Qed.

(** Position of the first occurrence, [length l] when there is none. *)
Fixpoint index_of {A} `{EqDecision A} (x : A) (l : list A) : nat :=
  match l with
  | [] => 0
  | y :: l => if decide (x = y) then 0 else S (index_of x l)
  end.

(** [l.count(x)]. *)
Definition count {A} `{EqDecision A} (x : A) (l : list A) : nat :=
  length (filter (fun y => y = x) l).

Section Count.
Context {A : Type} `{EqDecision A}.
Implicit Types (x y : A) (l : list A).

Lemma count_nil x : count x [] = 0.
Proof. done. Qed.

Lemma count_cons x y l : count x (y :: l) = (if decide (y = x) then 1 else 0) + count x l.
Proof. unfold count. rewrite filter_cons. by case_decide. Qed.

Lemma count_app x l1 l2 : count x (l1 ++ l2) = count x l1 + count x l2.
Proof. unfold count. by rewrite filter_app, length_app. Qed.

Lemma count_pos x l : 0 < count x l <-> x ∈ l.
Proof.
  induction l as [|y l IH]; [rewrite count_nil; set_solver by lia|].
  rewrite count_cons, elem_of_cons. case_decide; naive_solver lia.
Qed.

Lemma count_zero x l : count x l = 0 <-> x ∉ l.
Proof. rewrite <-count_pos. lia. Qed.

Lemma count_le x l : count x l <= length l.
Proof. apply length_filter. Qed.
End Count.

(** [dict[k]] updates and lookups on an insertion-ordered dictionary: an
    existing key keeps its place, a new one goes to the end. *)
Fixpoint dict_get {K V} `{EqDecision K} (k : K) (d : list (K * V)) : option V :=
  match d with
  | [] => None
  | (k', v) :: d => if decide (k' = k) then Some v else dict_get k d
  end.

Fixpoint dict_set {K V} `{EqDecision K} (k : K) (v : V) (d : list (K * V)) : list (K * V) :=
  match d with
  | [] => [(k, v)]
  | (k', v') :: d => if decide (k' = k) then (k, v) :: d else (k', v') :: dict_set k v d
  end.

Definition dict_del {K V} `{EqDecision K} (k : K) (d : list (K * V)) : list (K * V) :=
  filter (fun e => e.1 <> k) d.

Section Dict.
Context {K V : Type} `{EqDecision K}.
Implicit Types (k : K) (v : V) (d : list (K * V)).

Lemma dict_get_set_eq k v d : dict_get k (dict_set k v d) = Some v.
Proof. induction d as [|[k' v'] d IH]; simpl; repeat (case_decide; simpl); naive_solver. Qed.

Lemma dict_get_set_ne k k' v d : k <> k' -> dict_get k' (dict_set k v d) = dict_get k' d.
Proof.
  intros Hne. induction d as [|[k'' v'] d IH]; simpl; repeat (case_decide; simpl); naive_solver.
Qed.

Lemma dict_get_del_eq k d : dict_get k (dict_del k d) = None.
Proof.
  induction d as [|[k' v'] d IH]; [done|]. unfold dict_del in *. rewrite filter_cons.
  simpl. case_decide; simpl; [by case_decide|done].
Qed.

Lemma dict_get_del_ne k k' d : k <> k' -> dict_get k' (dict_del k d) = dict_get k' d.
Proof.
  intros Hne. induction d as [|[k'' v'] d IH]; [done|]. unfold dict_del in *.
  rewrite filter_cons. simpl. repeat (case_decide; simpl); naive_solver.
Qed.

Lemma dict_set_keys_fresh k v d : k ∉ d.*1 -> dict_set k v d = d ++ [(k, v)].
Proof.
  induction d as [|[k' v'] d IH]; simpl; [done|]. rewrite not_elem_of_cons. intros [? ?].
  case_decide; [done|]. by rewrite IH.
Qed.

Lemma dict_set_keys_old k v d : k ∈ d.*1 -> (dict_set k v d).*1 = d.*1.
Proof.
  induction d as [|[k' v'] d IH]; simpl; [by intros ?%not_elem_of_nil|].
  intros Hk. case_decide; simpl; [by subst|]. f_equal. apply IH. set_solver.
Qed.

Lemma dict_get_None k d : dict_get k d = None <-> k ∉ d.*1.
Proof.
  induction d as [|[k' v'] d IH]; simpl; [set_solver|].
  rewrite not_elem_of_cons. case_decide; naive_solver.
Qed.

Lemma dict_get_elem k v d : dict_get k d = Some v -> (k, v) ∈ d.
Proof.
  induction d as [|[k' v'] d IH]; simpl; [done|].
  case_decide; intros ?; simplify_eq; set_solver.
Qed.

Lemma dict_elem_get k v d : NoDup d.*1 -> (k, v) ∈ d -> dict_get k d = Some v.
Proof.
  induction d as [|[k' v'] d IH]; simpl; [by intros _ ?%not_elem_of_nil|].
  intros [Hn Hd]%NoDup_cons [[= -> ->]|Hin]%elem_of_cons; [by rewrite decide_True|].
  rewrite decide_False; [by apply IH|]. intros ->. apply Hn.
  by apply (list_elem_of_fmap_2 fst) in Hin.
Qed.

Lemma dict_set_NoDup k v d : NoDup d.*1 -> NoDup (dict_set k v d).*1.
Proof.
  intros Hd. destruct (decide (k ∈ d.*1)).
  - by rewrite dict_set_keys_old.
  - rewrite dict_set_keys_fresh, fmap_app by done. apply NoDup_app. simpl.
    split_and!; [done|set_solver|apply NoDup_singleton].
Qed.
End Dict.

(** [s.replace(a, b)] for one-character strings. *)
Fixpoint str_replace (a b : Ascii.ascii) (s : string) : string :=
  match s with
  | EmptyString => EmptyString
  | String c s =>
      String (if Ascii.eqb c a then b else c) (str_replace a b s)
  end.

(** ** Flat maps *)

Lemma elem_of_flat_map {A B} (f : A -> list B) l y : y ∈ flat_map f l <-> exists x, x ∈ l /\ y ∈ f x.
Proof. rewrite list_elem_of_In, in_flat_map. by setoid_rewrite list_elem_of_In. Qed.

Lemma flat_map_fmap {A B C} (g : B -> C) (f : A -> list B) l :
  g <$> flat_map f l = flat_map (fun x => g <$> f x) l.
Proof. induction l as [|x l IH]; [done|]. simpl. by rewrite fmap_app, IH. Qed.

Lemma flat_map_ext_elem {A B} (f g : A -> list B) l :
  (forall x, x ∈ l -> f x = g x) -> flat_map f l = flat_map g l.
Proof.
  induction l as [|x l IH]; intros Hfg; [done|]. simpl. rewrite Hfg, IH; [done| |left].
  intros y Hy. apply Hfg. by right.
Qed.

Lemma flat_map_nil {A B} (f : A -> list B) l :
  flat_map f l = [] <-> forall x, x ∈ l -> f x = [].
Proof.
  induction l as [|y l IH]; simpl; [split; [set_solver|done]|].
  setoid_rewrite elem_of_cons. rewrite app_nil, IH. naive_solver.
Qed.

#[export] Instance flat_map_perm {A B} (f : A -> list B) : Proper ((≡ₚ) ==> (≡ₚ)) (flat_map f).
Proof. intros l l' Hl. by apply Permutation_flat_map. Qed.

Lemma flat_map_app_perm {A B} (f g : A -> list B) l :
  flat_map (fun x => f x ++ g x) l ≡ₚ flat_map f l ++ flat_map g l.
Proof.
  induction l as [|x l IH]; [done|]. simpl. rewrite IH. rewrite <-!app_assoc. f_equiv.
  rewrite !app_assoc. f_equiv. apply Permutation_app_comm.
Qed.

Lemma flat_map_single {A} (l : list A) : flat_map (fun x => [x]) l = l.
Proof. induction l as [|x l IH]; [done|]. simpl. by rewrite IH. Qed.

Lemma flat_map_perm_ext {A B} (f g : A -> list B) l :
  (forall x, x ∈ l -> f x ≡ₚ g x) -> flat_map f l ≡ₚ flat_map g l.
Proof.
  induction l as [|x l IH]; intros Hfg; [done|]. simpl. rewrite Hfg by left. f_equiv.
  apply IH. intros y Hy. apply Hfg. by right.
Qed.

Lemma nodup_flat_map {A B} (f : A -> list B) l x : NoDup (flat_map f l) -> x ∈ l -> NoDup (f x).
Proof.
  intros Hnd (l1 & l2 & ->)%list_elem_of_split. rewrite flat_map_app in Hnd. simpl in Hnd.
  apply NoDup_app in Hnd as (_ & _ & Hnd). by apply NoDup_app in Hnd as (Hnd & _).
Qed.

Lemma nodup_flat_map_same {A B} (f : A -> list B) l a b x :
  NoDup (flat_map f l) -> a ∈ l -> b ∈ l -> x ∈ f a -> x ∈ f b -> a = b.
Proof.
  induction l as [|c l IH]; [by intros _ ?%not_elem_of_nil|].
  simpl. intros (_ & Hdis & Hnd)%NoDup_app [->|Ha]%elem_of_cons [->|Hb]%elem_of_cons Hxa Hxb;
    [done| | |by apply IH].
  - destruct (Hdis x Hxa). apply elem_of_flat_map. by exists b.
  - destruct (Hdis x Hxb). apply elem_of_flat_map. by exists a.
Qed.

Lemma nodup_split {A} (x : A) l1 l2 l1' l2' :
  NoDup (l1 ++ x :: l2) -> l1 ++ x :: l2 = l1' ++ x :: l2' -> l1 = l1'.
Proof.
  revert l1'. induction l1 as [|a l1 IH]; intros [|a' l1'] Hnd Heq; simplify_list_eq; try done.
  - apply NoDup_cons in Hnd as [Hn _]. exfalso. apply Hn. set_solver.
  - apply NoDup_cons in Hnd as [Hn _]. exfalso. apply Hn. set_solver.
  - f_equal. apply NoDup_cons in Hnd as [_ Hnd]. by apply IH.
Qed.

(** ** Stable sorting

    [sorted(xs, key=...)] keeps the order of equal elements, and so does
    [sorted(xs, key=..., reverse=True)]: both are an insertion sort by the
    comparison of the keys. *)

Fixpoint insert_by {A} (le : A -> A -> bool) (x : A) (l : list A) : list A :=
  match l with
  | [] => [x]
  | y :: l => if le x y then x :: y :: l else y :: insert_by le x l
  end.

Definition sort_by {A} (le : A -> A -> bool) (l : list A) : list A := foldr (insert_by le) [] l.

Section SortBy.
Context {A : Type} (le : A -> A -> bool).
Implicit Types (x y : A) (l : list A).

Lemma insert_by_perm x l : insert_by le x l ≡ₚ x :: l.
Proof.
  induction l as [|y l IH]; simpl; [done|]. case_match; [done|]. rewrite IH. constructor.
Qed.

Lemma sort_by_perm l : sort_by le l ≡ₚ l.
Proof. induction l as [|x l IH]; simpl; [done|]. by rewrite insert_by_perm, IH. Qed.

Lemma sort_by_elem l x : x ∈ sort_by le l <-> x ∈ l.
Proof. by rewrite sort_by_perm. Qed.

Lemma sort_by_nil l : sort_by le l = [] <-> l = [].
Proof.
  split; [|by intros ->]. intros Hs. apply Permutation_nil_r. by rewrite <-(sort_by_perm l), Hs.
Qed.

Context (le_total : forall x y, le x y = true \/ le y x = true)
  (le_trans : forall x y z, le x y = true -> le y z = true -> le x z = true).

(** The first of the sorted list is the earliest of the least elements, and the
    rest is what the others are when sorted. *)
Lemma sort_by_cons l x r :
  sort_by le l = x :: r -> exists l1 l2, l = l1 ++ x :: l2 /\ r = sort_by le (l1 ++ l2) /\
    (forall y, y ∈ l1 -> le y x = false) /\ (forall y, y ∈ l -> le x y = true).
Proof.
  assert (Hrefl : forall x, le x x = true) by (intros z; by destruct (le_total z z)).
  revert x r. induction l as [|a l IH]; intros x r; simpl; [done|].
  destruct (sort_by le l) as [|y s] eqn:Hs; simpl.
  - intros [= <- <-]. apply sort_by_nil in Hs as ->. exists [], []. split_and!; try done.
    + by intros y ?%not_elem_of_nil.
    + intros y ->%list_elem_of_singleton. apply Hrefl.
  - destruct (IH y s eq_refl) as (l1 & l2 & Hl & Hr & Hb & Hm). destruct (le a y) eqn:Hay; intros [= <- <-].
    + exists [], l. split_and!; [done|done|by intros z ?%not_elem_of_nil|].
      intros z [->|Hz]%elem_of_cons; [apply Hrefl|]. eapply le_trans; [done|by apply Hm].
    + exists (a :: l1), l2. split_and!.
      * by rewrite Hl.
      * simpl. by rewrite Hr.
      * intros z [->|Hz]%elem_of_cons; [done|by apply Hb].
      * intros z [->|Hz]%elem_of_cons; [|by apply Hm]. by destruct (le_total a y); [congruence|].
Qed.

Lemma sort_by_sorted l : StronglySorted (fun x y => le x y = true) (sort_by le l).
Proof.
  remember (length l) as n eqn:Hn. revert l Hn. induction n as [|n IH]; intros l Hn.
  - by destruct l; [constructor|].
  - destruct (sort_by le l) as [|x r] eqn:Hs; [constructor|].
    destruct (sort_by_cons l x r Hs) as (l1 & l2 & -> & -> & _ & Hm). constructor.
    + apply IH. rewrite length_app in *. simpl in Hn. lia.
    + apply Forall_forall. intros y Hy. rewrite sort_by_elem, elem_of_app in Hy. apply Hm.
      rewrite elem_of_app, elem_of_cons. tauto.
Qed.
End SortBy.

(** ** Finite sets *)

Lemma size_union_singleton {A} `{Countable A} (X : gset A) (x : A) :
  size (X ∪ {[x]}) <= S (size X).
Proof.
  rewrite union_comm_L. destruct (decide (x ∈ X)).
  - rewrite subseteq_union_1_L by set_solver. lia.
  - rewrite size_union, size_singleton by set_solver. lia.
Qed.

(** ** Enumerations

    A [StrEnum] is finite: it is countable by the position of its members in
    declaration order. *)

Lemma index_of_lookup {A} `{EqDecision A} (x : A) l : x ∈ l -> l !! index_of x l = Some x.
Proof.
  induction l as [|y l IH]; intros Hx; [by apply not_elem_of_nil in Hx|].
  simpl. case_decide; [by subst|]. apply elem_of_cons in Hx as [?|?]; [done|]. by apply IH.
Qed.

Definition enum_countable {A} `{EqDecision A} (members : list A)
    (Hall : forall x, x ∈ members) : Countable A :=
  inj_countable (fun x => index_of x members) (fun n => members !! n)
    (fun x => index_of_lookup x members (Hall x)).

(** Membership in a literal list of constructors. *)
(** Values that are listed without repetition tell members apart. *)
Lemma members_value_inj {A B} `{EqDecision B} (f : A -> B) (members : list A) :
  (forall x, x ∈ members) -> NoDup (f <$> members) -> Inj (=) (=) f.
Proof.
  intros Hall Hnd x y Hxy. destruct (list_elem_of_lookup_1 _ _ (Hall x)) as [i Hi].
  destruct (list_elem_of_lookup_1 _ _ (Hall y)) as [j Hj].
  assert (i = j) as ->; [|congruence].
  apply (NoDup_lookup (f <$> members) i j (f x)); [done|by rewrite list_lookup_fmap, Hi|].
  by rewrite list_lookup_fmap, Hj, Hxy.
Qed.

Ltac enum_elem := let x := fresh in intros x; destruct x; repeat constructor.

(** ** Worklists

    The weight of the keys not yet seen, which bounds what a worklist that
    expands every key at most once can still push. *)
Definition unseen {K V} `{Countable K} (w : V -> nat) (l : list (K * V)) (seen : gset K) : nat :=
  sum_list_with (fun kv => w kv.2) (filter (fun kv => kv.1 ∉ seen) l).

Section Unseen.
Context {K V : Type} `{Countable K} (w : V -> nat).
Implicit Types (l : list (K * V)) (seen : gset K).

Lemma unseen_le l seen : unseen w l seen <= sum_list_with (fun kv => w kv.2) l.
Proof.
  unfold unseen. induction l as [|kv l IH]; [done|].
  rewrite filter_cons. case_decide; simpl; lia.
Qed.

Lemma unseen_mono l seen x : unseen w l ({[x]} ∪ seen) <= unseen w l seen.
Proof.
  unfold unseen. induction l as [|[k v] l IH]; [done|].
  rewrite !filter_cons. simpl. repeat case_decide; simpl; try lia. set_solver.
Qed.

(** Expanding a fresh key spends its weight. *)
Lemma unseen_expand l seen x v :
  (x, v) ∈ l -> x ∉ seen -> unseen w l ({[x]} ∪ seen) + w v <= unseen w l seen.
Proof.
  induction l as [|[k v'] l IH]; [by intros ?%not_elem_of_nil|].
  intros [[= <- <-]|Hin]%elem_of_cons Hx; unfold unseen in *; rewrite !filter_cons; simpl.
  - rewrite decide_False, decide_True by set_solver. simpl.
    pose proof (unseen_mono l seen x). unfold unseen in *. lia.
  - pose proof (IH Hin Hx). repeat case_decide; simpl; try lia. set_solver.
Qed.
End Unseen.

(** [{f(x): g(x) for x in xs}]: the last entry of a key stays. *)
Definition dict_of {V} (l : list (string * V)) : gmap string V := list_to_map (reverse l).

Lemma dict_of_lookup {V} (l : list (string * V)) k v :
  NoDup l.*1 -> (k, v) ∈ l -> dict_of l !! k = Some v.
Proof.
  intros Hnd Hin. unfold dict_of. apply elem_of_list_to_map_1.
  - by rewrite fmap_reverse, reverse_Permutation.
  - by rewrite elem_of_reverse.
Qed.

Lemma dict_of_fresh {V} (l : list (string * V)) k : k ∉ l.*1 -> dict_of l !! k = None.
Proof.
  intros Hk. unfold dict_of. apply not_elem_of_list_to_map_1.
  by rewrite fmap_reverse, elem_of_reverse.
Qed.

Lemma dict_of_fmap {A V} (f : A -> string) (g : A -> V) (l : list A) x :
  NoDup (f <$> l) -> x ∈ l -> dict_of ((fun a => (f a, g a)) <$> l) !! f x = Some (g x).
Proof.
  intros Hnd Hx. apply dict_of_lookup.
  - by rewrite <-list_fmap_compose.
  - apply list_elem_of_fmap. by exists x.
Qed.

Lemma dict_of_is_Some {V} (l : list (string * V)) k : is_Some (dict_of l !! k) <-> k ∈ l.*1.
Proof.
  unfold dict_of. rewrite <-not_eq_None_Some, <-elem_of_reverse, <-fmap_reverse.
  split; intros H.
  - apply dec_stable. intros Hn. by apply H, not_elem_of_list_to_map_1.
  - intros Hn. by apply not_elem_of_list_to_map_2 in Hn.
Qed.

(** [dict.fromkeys(l, c)]. *)
Lemma fromkeys_lookup {K V} `{Countable K} (l : list K) (c : V) (k : K) :
  (list_to_map ((fun i => (i, c)) <$> l) : gmap K V) !! k = if decide (k ∈ l) then Some c else None.
Proof.
  induction l as [|i l IH]; [done|]. rewrite fmap_cons, list_to_map_cons.
  destruct (decide (i = k)) as [->|Hne].
  - rewrite lookup_insert_eq, decide_True by set_solver. done.
  - rewrite lookup_insert_ne by done. rewrite IH.
    destruct (decide (k ∈ l)), (decide (k ∈ i :: l)); try done; set_solver.
Qed.

Lemma count_replicate {A} `{EqDecision A} (x y : A) n :
  count x (replicate n y) = if decide (y = x) then n else 0.
Proof.
  induction n as [|n IH]; simpl; [by case_decide|].
  rewrite count_cons, IH. case_decide; lia.
Qed.

(** ** Whitespace

    [str.isspace] and [str.strip] on code points below 256: tab to carriage
    return, the four separators, space, next line and no-break space. *)

Definition is_space (c : Ascii.ascii) : bool :=
  let n := Ascii.nat_of_ascii c in
  ((9 <=? n) && (n <=? 13)) || ((28 <=? n) && (n <=? 32)) || (n =? 133) || (n =? 160).

Fixpoint lstrip (s : string) : string :=
  match s with
  | String c rest => if is_space c then lstrip rest else s
  | EmptyString => EmptyString
  end.

Fixpoint rstrip (s : string) : string :=
  match s with
  | String c rest =>
      match rstrip rest with
      | EmptyString => if is_space c then EmptyString else String c EmptyString
      | r => String c r
      end
  | EmptyString => EmptyString
  end.

Definition strip (s : string) : string := rstrip (lstrip s).

(** [not s.strip()]. *)
Definition is_blank (s : string) : bool := bool_decide (strip s = EmptyString).

(** ** Text

    [str.split] at a character, prefixes, joins and counts. *)

(** [s.split(c)]. *)
Fixpoint split_on (c : Ascii.ascii) (s : string) : list string :=
  match s with
  | EmptyString => [EmptyString]
  | String a s =>
      if Ascii.eqb a c then EmptyString :: split_on c s
      else match split_on c s with
           | part :: parts => String a part :: parts
           | [] => [String a EmptyString]
           end
  end.

(** The text after a prefix. *)
Fixpoint after_prefix (p s : string) : option string :=
  match p, s with
  | EmptyString, _ => Some s
  | String a p, String b s => if Ascii.eqb a b then after_prefix p s else None
  | String _ _, EmptyString => None
  end.

(** [s.startswith(p)]. *)
Definition startswith (p s : string) : bool := bool_decide (is_Some (after_prefix p s)).

(** [s.count(c)]. *)
Fixpoint occurrences (c : Ascii.ascii) (s : string) : nat :=
  match s with
  | EmptyString => 0
  | String a s => (if Ascii.eqb a c then 1 else 0) + occurrences c s
  end.

(** [c.join(parts)]. *)
Fixpoint join_with (c : Ascii.ascii) (parts : list string) : string :=
  match parts with
  | [] => EmptyString
  | [part] => part
  | part :: parts => String.append part (String c (join_with c parts))
  end.

Fixpoint mentions (c : Ascii.ascii) (s : string) : bool :=
  match s with
  | EmptyString => false
  | String a s => Ascii.eqb a c || mentions c s
  end.

Lemma split_on_plain c s : mentions c s = false -> split_on c s = [s].
Proof.
  induction s as [|a s IH]; [done|]. simpl. intros [-> Hs]%orb_false_iff. by rewrite IH.
Qed.

Lemma split_on_app c part s :
  mentions c part = false -> split_on c (String.append part (String c s)) = part :: split_on c s.
Proof.
  induction part as [|a part IH]; simpl; [by rewrite Ascii.eqb_refl|].
  intros [-> Hp]%orb_false_iff. by rewrite IH.
Qed.

Lemma split_join c parts :
  parts <> [] -> Forall (fun p => mentions c p = false) parts -> split_on c (join_with c parts) = parts.
Proof.
  intros Hne Hall. induction Hall as [|p [|q parts] Hp Hall IH]; [done|by apply split_on_plain|].
  change (join_with c (p :: q :: parts)) with (String.append p (String c (join_with c (q :: parts)))).
  by rewrite split_on_app, IH.
Qed.

Lemma after_prefix_app p s : after_prefix p (String.append p s) = Some s.
Proof. induction p as [|a p IH]; simpl; [done|]. by rewrite Ascii.eqb_refl. Qed.

Lemma after_prefix_head c p s : after_prefix (String c EmptyString) s = None -> after_prefix (String c p) s = None.
Proof. destruct s as [|a s]; [done|]. cbn [after_prefix]. by destruct (Ascii.eqb c a). Qed.

(** ** Automation

    [eauto with py] discharges the side conditions that recur across the
    components: membership under [fmap] and in the order a sort returns, the
    empty sets and lists, and what a component exports about its well-formed
    values. [autorewrite with py] computes counts, dictionary reads and
    membership in flattened lists. *)

Create HintDb py.
#[export] Hint Resolve list_elem_of_fmap_2 sort_str_sorted sort_str_perm
  NoDup_singleton dict_set_NoDup : py.
#[export] Hint Rewrite @count_nil @count_cons @count_app @elem_of_concat @elem_of_flat_map
  @dict_get_set_eq @dict_get_del_eq @length_fmap : py.
