(* ===== verification/StateMachine.v ===== *)
(** * StateMachine

    The generic lifecycle machine of [core/state_machine.py]: construction
    with its completeness check, the ordered successor view, validation, exit
    reachability and the breadth-first [path_to]. Every lifecycle table of the
    program is an instance of this one machine. *)

From stdpp Require Import gmap strings list sorting relations.
From Stdlib Require Import Ascii Lia.
From S2P Require Import Prelude.
Local Open Scope py_scope.

(** What an enumeration of states offers the machine: decidable equality,
    countability, and the wire value ([HasStateValue.value]), which is
    injective because a [StrEnum] has one member per value. *)
Class StateEnum (S : Type) {eq : EqDecision S} {cnt : Countable S} := {
  value : S -> string;
  value_inj : Inj (=) (=) value;
  all_members : list S;
  all_members_spec : forall s, s ∈ all_members;
}.
#[export] Existing Instance value_inj.

Section Machine.
Context {S : Type} `{Heq : EqDecision S} `{Hcnt : !Countable S} `{Henum : !StateEnum S}.
Implicit Types (s x y z current target state nxt : S).

(** ** Data *)

Record HopRules := {
  unconditional_targets : list S;
  no_transit_states : list S;
}.

Definition no_rules : HopRules :=
  {| unconditional_targets := []; no_transit_states := [] |}.

(** [_transitions] is the frozen table, [_ordered] the second view of the same
    edges whose successor tuples have a declared order. *)
Record StateMachine := {
  _transitions : gmap S (gset S);
  _ordered : gmap S (list S);
  _name : string;
  _display_label : string;
  _unconditional_targets : gset S;
  _no_transit_states : gset S;
}.

(** A transition table as the caller writes it: the keys in declaration order,
    each with its frozenset of targets in whatever order the set iterates. *)
Abbreviation table := (list (S * list S)).

(** Python compares the key tuples [(rank, value)] lexicographically. *)
Definition order_le (keys : list S) x y : Prop :=
  index_of x keys < index_of y keys \/
  (index_of x keys = index_of y keys /\ str_le (value x) (value y)).
#[export] Instance order_le_dec keys : RelDecision (order_le keys).
Proof. intros x y. unfold order_le. apply _. Defined.

Definition order_targets (keys targets : list S) : list S :=
  merge_sort (order_le keys) targets.

(** ** Construction *)

(** [StateMachine.__init__]: the [ValueError] carries the machine's name and
    the sorted values of the members the table misses. *)
Definition new_machine (transitions : table) (name : string)
    (all_states : option (list S)) (display_label : option string)
    (hops : option HopRules) : result (string * list string) StateMachine :=
  let rules := default no_rules hops in
  let keys := transitions.*1 in
  let missing : gset S := match all_states with
    | Some all => list_to_set all ∖ list_to_set keys
    | None => ∅
    end in
  ensure bool_decide (missing = ∅)
    else (name, sort_str (value <$> elements missing)) in
  Ok {|
    _transitions := list_to_map (prod_map id list_to_set <$> transitions);
    _ordered := list_to_map (prod_map id (order_targets keys) <$> transitions);
    _name := name;
    _display_label := match display_label with
      | Some l => if bool_decide (l = ""%string) then str_replace "_"%char " "%char name else l
      | None => str_replace "_"%char " "%char name
      end;
    _unconditional_targets := list_to_set (unconditional_targets rules);
    _no_transit_states := list_to_set (no_transit_states rules);
  |}.

(** ** Views *)

Definition states (m : StateMachine) : gset S := dom (_transitions m).

Definition successors (m : StateMachine) current : list S :=
  default [] (_ordered m !! current).

(** [allowed] raises [KeyError] on a state with no entry. *)
Definition allowed (m : StateMachine) current : result S (gset S) :=
  match _transitions m !! current with
  | Some ts => Ok ts
  | None => Err current
  end.

Definition is_terminal (m : StateMachine) state : bool :=
  match _transitions m !! state with
  | None => false
  | Some ts => bool_decide (ts = ∅)
  end.

(** ** Validation *)

(** The two [ValueError]s of [validate], with what their messages quote: the
    display label, the states involved and the sorted allowed values (empty
    for a final state). *)
Inductive transition_error :=
| ConfigurationError (display : string) (current : S)
| InvalidTransition (display : string) (current target : S) (allowed_values : list string).

Definition validate (m : StateMachine) current target : result transition_error unit :=
  match _transitions m !! current with
  | None => Err (ConfigurationError (_display_label m) current)
  | Some ts =>
      if decide (target ∈ ts) then Ok tt
      else Err (InvalidTransition (_display_label m) current target
                  (sort_str (value <$> elements ts)))
  end.

(** ** Walks *)

(** The states a table names, as keys or as targets: every walk stays in it. *)
Definition universe (m : StateMachine) : gset S :=
  states m ∪ ⋃ (list_to_set <$> (map_to_list (_ordered m)).*2).

Fixpoint exit_scan (m : StateMachine) (succs queue : list S) (seen : gset S)
    : list S * gset S :=
  match succs with
  | [] => (queue, seen)
  | nxt :: rest =>
      if decide (nxt ∈ seen \/ nxt ∉ _unconditional_targets m)
      then exit_scan m rest queue seen
      else exit_scan m rest (queue ++ [nxt]) ({[nxt]} ∪ seen)
  end.

(** The [while queue] loop; [None] when the fuel runs out. *)
Fixpoint exit_loop (fuel : nat) (m : StateMachine) (queue : list S) (seen : gset S)
    : option bool :=
  match fuel with
  | 0 => None
  | Datatypes.S fuel =>
      match queue with
      | [] => Some false
      | state :: queue =>
          if decide (state ∉ states m) then Some false
          else if decide (successors m state = []) then Some true
          else let '(queue, seen) := exit_scan m (successors m state) queue seen in
               exit_loop fuel m queue seen
      end
  end.

Definition walk_fuel (m : StateMachine) : nat := 3 + size (universe m).

Definition unconditional_exit_reachable (m : StateMachine) current : bool :=
  if decide (current ∉ states m) then false
  else default false (exit_loop (walk_fuel m) m [current] {[current]}).

(** One pass over the successors of a dequeued state of [path_to]: [inl] when
    the target was discovered. *)
Fixpoint path_scan (m : StateMachine) target state (succs : list S)
    (came_from : gmap S S) (queue : list S) (seen : gset S)
    : gmap S S + (gmap S S * list S * gset S) :=
  match succs with
  | [] => inr (came_from, queue, seen)
  | nxt :: rest =>
      if decide (nxt ∈ seen) then path_scan m target state rest came_from queue seen
      else
        let came_from := <[nxt:=state]> came_from in
        if decide (nxt = target) then inl came_from
        else
          let seen := {[nxt]} ∪ seen in
          if decide (nxt ∈ _no_transit_states m)
          then path_scan m target state rest came_from queue seen
          else path_scan m target state rest came_from (queue ++ [nxt]) seen
  end.

(** The reconstruction loop: [hops] is the list under construction, in append
    order; [None] is a [KeyError] or exhausted fuel. *)
Fixpoint rebuild (fuel : nat) (came_from : gmap S S) current cursor (hops : list S)
    : option (list S) :=
  match fuel with
  | 0 => None
  | Datatypes.S fuel =>
      match came_from !! cursor with
      | None => None
      | Some prev =>
          if decide (prev = current) then Some hops
          else rebuild fuel came_from current prev (hops ++ [prev])
      end
  end.

(** The [while queue] loop of [path_to]: the outer [None] is exhausted fuel. *)
Fixpoint path_loop (fuel : nat) (m : StateMachine) current target
    (came_from : gmap S S) (queue : list S) (seen : gset S) : option (option (list S)) :=
  match fuel with
  | 0 => None
  | Datatypes.S fuel =>
      match queue with
      | [] => Some None
      | state :: queue =>
          match path_scan m target state (successors m state) came_from queue seen with
          | inl came_from =>
              hops ← rebuild (walk_fuel m) came_from current target [target];
              Some (Some (reverse hops))
          | inr (came_from, queue, seen) =>
              path_loop fuel m current target came_from queue seen
          end
      end
  end.

Definition path_to (m : StateMachine) current target : option (list S) :=
  if decide (current = target) then Some []
  else if decide (current ∉ states m) then None
  else default None (path_loop (walk_fuel m) m current target ∅ [current] {[current]}).

(** ** Well-formed machines *)

(** The two views of a machine describe the same edges. *)
Definition machine_wf (m : StateMachine) : Prop :=
  _transitions m = list_to_set <$> _ordered m.

Lemma order_targets_perm keys ts : order_targets keys ts ≡ₚ ts.
Proof. apply merge_sort_Permutation. Qed.

Lemma order_targets_elem keys ts : list_to_set (order_targets keys ts) =@{gset S} list_to_set ts.
Proof. by rewrite order_targets_perm. Qed.

#[local] Instance order_le_total keys : Total (order_le keys).
Proof.
  intros x y. unfold order_le.
  destruct (Nat.lt_trichotomy (index_of x keys) (index_of y keys)) as [?|[?|?]]; auto.
  destruct (total str_le (value x) (value y)); auto.
Qed.

#[local] Instance order_le_trans keys : Transitive (order_le keys).
Proof.
  intros x y z [Hxy|[Hxy ?]] [Hyz|[Hyz ?]]; unfold order_le; rewrite <-?Hyz, ?Hxy in *; auto.
  - left. lia.
  - right. split; [done|]. by etrans.
Qed.

#[local] Instance order_le_antisymm keys : AntiSymm (=) (order_le keys).
Proof.
  intros x y [Hxy|[Hxy ?]] [Hyx|[Hyx ?]]; try lia.
  apply (inj value), (anti_symm str_le); done.
Qed.

(** The ordered view of a target set is the same whatever order the set
    iterates in. *)
Lemma order_targets_unique keys ts1 ts2 :
  ts1 ≡ₚ ts2 -> order_targets keys ts1 = order_targets keys ts2.
Proof.
  intros Hp. apply (Sorted_unique (order_le keys)); try apply Sorted_merge_sort, _.
  by rewrite !order_targets_perm.
Qed.

Lemma new_machine_wf t n all lbl hops m :
  new_machine t n all lbl hops = Ok m -> machine_wf m.
Proof.
  unfold new_machine. case_bool_decide; intros ?; inv_result.
  unfold machine_wf; simpl. rewrite !list_to_map_fmap, <-map_fmap_compose.
  apply map_fmap_ext. intros s ts _. simpl. by rewrite order_targets_elem.
Qed.

(** One valid hop of the table. *)
Definition hop (m : StateMachine) x y : Prop := y ∈ successors m x.

Lemma hop_transitions m x y :
  machine_wf m -> hop m x y <-> exists ts, _transitions m !! x = Some ts /\ y ∈ ts.
Proof.
  intros ->. unfold hop, successors. rewrite lookup_fmap.
  destruct (_ordered m !! x) as [l|]; simpl; [|set_solver].
  split; [intros; eexists; split; [done|set_solver]|].
  intros (ts & [= <-] & Hy). set_solver.
Qed.

Lemma hop_source m x y : machine_wf m -> hop m x y -> x ∈ states m.
Proof. intros Hwf (ts & Hts & _)%hop_transitions; [|done]. by apply elem_of_dom. Qed.

Lemma hop_universe m x y : hop m x y -> y ∈ universe m.
Proof.
  unfold hop, successors, universe. intros Hy.
  destruct (_ordered m !! x) as [l|] eqn:Hx; simpl in Hy; [|set_solver].
  apply elem_of_union_r, elem_of_union_list. exists (list_to_set l).
  split; [|set_solver]. apply list_elem_of_fmap_2, list_elem_of_fmap.
  exists (x, l). split; [done|]. by apply elem_of_map_to_list.
Qed.

(** [is_terminal] says exactly that a state is known and has no hop out. *)
Lemma is_terminal_spec m x :
  machine_wf m ->
  is_terminal m x = true <-> x ∈ states m /\ forall y, ~ hop m x y.
Proof.
  intros Hwf. unfold is_terminal, states. rewrite elem_of_dom.
  setoid_rewrite hop_transitions; [|done].
  destruct (_transitions m !! x) as [ts|]; [|by split; [|intros [[? ?] _]]].
  rewrite bool_decide_eq_true. split.
  - intros ->. split; [by eexists|]. intros y (ts & [= <-] & Hy). set_solver.
  - intros [_ Hno]. apply set_eq. intros y. split; [|set_solver].
    intros Hy. destruct (Hno y). by eexists.
Qed.

Lemma validate_ok_hop m x y :
  machine_wf m -> validate m x y = Ok tt <-> hop m x y.
Proof.
  intros Hwf. rewrite hop_transitions by done. unfold validate.
  destruct (_transitions m !! x) as [ts|]; [|naive_solver].
  case_decide; naive_solver.
Qed.

End Machine.

(** ** Correctness of [path_to]

    A route is a hop sequence that no park interrupts; a walk counts hops.
    The search keeps a ghost depth for every discovered state: the came-from
    chain realises it, the queue is sorted by it, and whatever was dequeued has
    all its successors discovered. *)
Section PathTo.
Context {S : Type} `{Heq : EqDecision S} `{Hcnt : !Countable S} `{Henum : !StateEnum S}.
Implicit Types (s x y z : S) (m : @StateMachine S _ _).

(** [route m x p z]: every hop of [x :: p] is valid, [p] ends in [z], and no
    state strictly between is a no-transit state. *)
Inductive route m : S -> list S -> S -> Prop :=
| route_nil x : route m x [] x
| route_cons x y p z :
    hop m x y -> (p = [] \/ y ∉ _no_transit_states m) -> route m y p z ->
    route m x (y :: p) z.

(** [walk m x n z]: [n] hops lead from [x] to [z], expanding only [x] itself
    and transit states. *)
Inductive walk m x : nat -> S -> Prop :=
| walk_0 : walk m x 0 x
| walk_S n y z :
    walk m x n y -> (y = x \/ y ∉ _no_transit_states m) -> hop m y z ->
    walk m x (Datatypes.S n) z.

Lemma walk_route m x n y p z :
  walk m x n y -> (p = [] \/ y = x \/ y ∉ _no_transit_states m) ->
  route m y p z -> walk m x (n + length p) z.
Proof.
  intros Hw Hy Hr. revert n Hw Hy. induction Hr as [y|y y' p z Hhop Hp Hr IH]; intros n Hw Hy; simpl.
  - by rewrite Nat.add_0_r.
  - rewrite Nat.add_succ_r, <-Nat.add_succ_l. apply IH.
    + eapply walk_S; eauto. naive_solver.
    + naive_solver.
Qed.

Lemma route_walk m x p z : route m x p z -> walk m x (length p) z.
Proof. intros Hr. eapply (walk_route m x 0); eauto using walk_0. Qed.

Section Search.
Context m (current target : S).

Notation nt := (_no_transit_states m).
Definition opens x : Prop := x = current \/ x ∉ nt.

(** The came-from chain realises the depths. *)
Definition chain_ok (cf : gmap S S) (dep : gmap S nat) : Prop :=
  forall x k, dep !! x = Some k ->
    (x = current /\ k = 0) \/
    (exists y j, cf !! x = Some y /\ dep !! y = Some j /\ k = Datatypes.S j /\
                 hop m y x /\ opens y).

(** The search state between two successors of the state [s] being expanded at
    depth [d]: [done] are the successors already looked at. *)
Record scanning s d (done : list S) (cf : gmap S S) (q1 q2 : list S) (seen : gset S)
    (dep : gmap S nat) : Prop := {
  sc_dom : dom dep = seen;
  sc_cur : dep !! current = Some 0;
  sc_s : dep !! s = Some d;
  sc_chain : chain_ok cf dep;
  sc_size : forall x k, dep !! x = Some k -> k < size seen;
  sc_target : target ∉ seen;
  sc_universe : seen ⊆ {[current]} ∪ universe m;
  sc_bound : forall x k, dep !! x = Some k -> k <= Datatypes.S d;
  sc_now : forall x, x ∈ q1 -> dep !! x = Some d;
  sc_next : forall x, x ∈ q2 -> dep !! x = Some (Datatypes.S d);
  sc_open : forall x, x ∈ q1 ++ q2 -> opens x;
  sc_done : forall y, y ∈ done -> exists j, dep !! y = Some j /\ j <= Datatypes.S d;
  sc_closed : forall x k, dep !! x = Some k -> opens x -> x ∈ q1 ++ q2 \/ x = s \/
    (forall y, hop m x y -> exists j, dep !! y = Some j /\ j <= Datatypes.S k);
}.

Lemma rebuild_ok cf dep fuel cursor hops k :
  chain_ok cf dep -> dep !! current = Some 0 ->
  (exists y, cf !! cursor = Some y /\ dep !! y = Some k /\ hop m y cursor /\ opens y) ->
  k < fuel ->
  (exists tl, reverse hops = cursor :: tl /\ route m cursor tl target /\ (tl = [] \/ cursor ∉ nt)) ->
  exists res, rebuild fuel cf current cursor hops = Some res /\
    route m current (reverse res) target /\ length res = length hops + k.
Proof.
  intros Hcf Hcur. revert cursor hops k.
  induction fuel as [|fuel IH]; intros cursor hops k (y & Hy & Hk & Hhop & Hop) Hf (tl & Hrev & Hr & Htl);
    [lia|].
  simpl. rewrite Hy. case_decide as Hyc.
  - subst y. assert (k = 0) as -> by congruence. exists hops.
    split; [done|]. split; [rewrite Hrev; by constructor|lia].
  - destruct (Hcf y k Hk) as [[? _]|(y' & j & Hy' & Hj & -> & Hhop' & Hop')]; [done|].
    destruct (IH y (hops ++ [y]) j) as (res & Hres & Hroute & Hlen); [eauto 10|lia| |].
    + exists (cursor :: tl). rewrite reverse_snoc, Hrev. split_and!; [done|by constructor|].
      right. by destruct Hop.
    + exists res. split_and!; auto. rewrite length_app in Hlen. simpl in Hlen. lia.
Qed.

(** The frontier argument: a state some walk reaches is discovered at no
    greater depth, or an earlier walk state still waits in the queue. *)
Lemma frontier (queue : list S) (dep : gmap S nat) n x :
  dep !! current = Some 0 ->
  (forall x k, dep !! x = Some k -> opens x -> x ∈ queue \/
     (forall y, hop m x y -> exists j, dep !! y = Some j /\ j <= Datatypes.S k)) ->
  walk m current n x ->
  (exists j, dep !! x = Some j /\ j <= n) \/
  (exists y j, y ∈ queue /\ dep !! y = Some j /\ j < n).
Proof.
  intros Hcur Hcl. induction 1 as [|n y z Hw IH Hop Hhop]; [left; eauto|].
  destruct IH as [(j & Hj & Hle)|(y' & j & ? & ? & ?)].
  - destruct (Hcl y j Hj Hop) as [Hq|Hall].
    + right. exists y, j. split_and!; auto; lia.
    + destruct (Hall z Hhop) as (j' & ? & ?). left. exists j'. split; [done|lia].
  - right. exists y', j. split_and!; auto; lia.
Qed.

(** A successor seen for the first time, queued unless it is no-transit. *)
Lemma scan_discover s d done cf q1 q2 seen dep nxt q2' :
  opens s -> hop m s nxt -> nxt ∉ seen -> nxt <> target ->
  scanning s d done cf q1 q2 seen dep ->
  (q2' = [] /\ nxt ∈ nt) \/ (q2' = [nxt] /\ nxt ∉ nt) ->
  scanning s d (done ++ [nxt]) (<[nxt:=s]> cf) q1 (q2 ++ q2') ({[nxt]} ∪ seen)
    (<[nxt:=Datatypes.S d]> dep).
Proof.
  intros Hops Hhop Hseen Htgt Hsc Hq2'. set (dep' := <[nxt:=Datatypes.S d]> dep).
  assert (dep !! nxt = None) as Hnone.
  { apply not_elem_of_dom. by rewrite (sc_dom _ _ _ _ _ _ _ _ Hsc). }
  assert (d < size seen) as Hd by apply (sc_size _ _ _ _ _ _ _ _ Hsc s), Hsc.
  assert (forall x k, dep !! x = Some k -> dep' !! x = Some k) as Hmono.
  { intros x k Hx. unfold dep'. rewrite lookup_insert_ne; naive_solver. }
  assert (size ({[nxt]} ∪ seen) = Datatypes.S (size seen)) as Hsize.
  { rewrite size_union, size_singleton; [lia|set_solver]. }
  destruct Hsc. split; auto.
  - unfold dep'. rewrite dom_insert_L. set_solver.
  - intros x k Hx. unfold dep' in Hx. apply lookup_insert_Some in Hx as [[<- <-]|[? Hx]].
    + right. exists s, d. rewrite lookup_insert_eq. auto.
    + destruct (sc_chain0 x k Hx) as [?|(y & j & ? & ? & ?)]; [auto|].
      right. exists y, j. rewrite lookup_insert_ne by done. naive_solver.
  - intros x k Hx. rewrite Hsize. unfold dep' in Hx.
    apply lookup_insert_Some in Hx as [[<- <-]|[? Hx]]; [lia|].
    specialize (sc_size0 x k Hx). lia.
  - set_solver.
  - pose proof (hop_universe m s nxt Hhop). set_solver.
  - intros x k Hx. unfold dep' in Hx.
    apply lookup_insert_Some in Hx as [[<- <-]|[? Hx]]; eauto.
  - intros x [?|Hx]%elem_of_app; [auto|]. unfold dep'.
    destruct Hq2' as [[-> _]|[-> _]]; [set_solver|].
    apply list_elem_of_singleton in Hx as ->. by rewrite lookup_insert_eq.
  - intros x. rewrite app_assoc, elem_of_app. intros [?|Hx]; [auto|].
    destruct Hq2' as [[-> _]|[-> ?]]; [set_solver|].
    apply list_elem_of_singleton in Hx as ->. by right.
  - intros y [Hy| ->%list_elem_of_singleton]%elem_of_app.
    + destruct (sc_done0 y Hy) as (j & ? & ?). eauto.
    + exists (Datatypes.S d). unfold dep'. by rewrite lookup_insert_eq.
  - intros x k Hx Hop. unfold dep' in Hx.
    apply lookup_insert_Some in Hx as [[<- <-]|[? Hx]].
    + left. destruct Hq2' as [[-> ?]|[-> _]]; [|set_solver].
      destruct Hop as [Hc|?]; [|done]. congruence.
    + destruct (sc_closed0 x k Hx Hop) as [?|[?|Hall]]; [set_solver|auto|].
      right; right. intros y Hy. destruct (Hall y Hy) as (j & ? & ?). eauto.
Qed.

(** What one pass over the remaining successors does. *)
Lemma path_scan_ok s d done rest cf q1 q2 seen dep :
  current <> target -> opens s ->
  (forall y, y ∈ done ++ rest <-> hop m s y) ->
  scanning s d done cf q1 q2 seen dep ->
  match path_scan m target s rest cf (q1 ++ q2) seen with
  | inl cf' => exists dep', chain_ok cf' dep' /\ dep' !! current = Some 0 /\
      cf' !! target = Some s /\ dep' !! s = Some d /\ hop m s target /\
      d <= size (universe m)
  | inr (cf', q', seen') => exists q2' dep', q' = q1 ++ q2 ++ q2' /\
      length q2' + size seen <= size seen' /\
      scanning s d (done ++ rest) cf' q1 (q2 ++ q2') seen' dep'
  end.
Proof.
  intros Hne Hops. revert done cf q2 seen dep.
  induction rest as [|nxt rest IH]; intros done cf q2 seen dep Hsucc Hsc; simpl.
  { exists [], dep. rewrite !app_nil_r. split_and!; [done|simpl; lia|done]. }
  assert (hop m s nxt) as Hhop by (apply Hsucc; set_solver).
  assert (forall y, y ∈ (done ++ [nxt]) ++ rest <-> hop m s y) as Hsucc'.
  { intros y. rewrite <-Hsucc, <-app_assoc. done. }
  case_decide as Hseen.
  - (* already discovered *)
    change (done ++ nxt :: rest) with (done ++ [nxt] ++ rest). rewrite app_assoc.
    apply (IH (done ++ [nxt]) _ _ _ dep); [done|].
    destruct Hsc; split; auto.
    intros y [?| ->%list_elem_of_singleton]%elem_of_app; [auto|].
    rewrite <-sc_dom0 in Hseen. apply elem_of_dom in Hseen as [j Hj]. eauto.
  - assert (dep !! nxt = None) as Hnone.
    { apply not_elem_of_dom. by rewrite (sc_dom _ _ _ _ _ _ _ _ Hsc). }
    assert (forall x k, dep !! x = Some k -> x <> nxt) as Hfresh by congruence.
    assert (d < size seen) as Hd by apply (sc_size _ _ _ _ _ _ _ _ Hsc s), Hsc.
    case_decide as Htgt.
    + (* the target *)
      subst nxt. exists dep.
      assert (seen ⊆ universe m ∪ {[current]}) by (rewrite union_comm_L; apply Hsc).
      split_and!; try apply Hsc; auto.
      * intros x k Hx. destruct (sc_chain _ _ _ _ _ _ _ _ Hsc x k Hx) as [?|(y & j & ? & ?)]; [auto|].
        right. exists y, j. rewrite lookup_insert_ne; naive_solver.
      * by rewrite lookup_insert_eq.
      * assert (size seen <= size (universe m ∪ {[current]})) by (by apply subseteq_size).
        pose proof (size_union_singleton (universe m) current).
        lia.
    + (* a fresh state *)
      set (dep' := <[nxt:=Datatypes.S d]> dep).
      assert (size ({[nxt]} ∪ seen) = Datatypes.S (size seen)) as Hsize.
      { rewrite size_union, size_singleton; [lia|set_solver]. }
      assert (forall q2', (q2' = [] /\ nxt ∈ nt) \/ (q2' = [nxt] /\ nxt ∉ nt) ->
        scanning s d (done ++ [nxt]) (<[nxt:=s]> cf) q1 (q2 ++ q2') ({[nxt]} ∪ seen) dep') as Hnew
        by (intros; by apply scan_discover).
      case_decide as Hpark.
      * specialize (IH (done ++ [nxt]) (<[nxt:=s]> cf) q2 ({[nxt]} ∪ seen) dep' Hsucc').
        rewrite <-app_assoc in IH. simpl in IH.
        specialize (IH ltac:(rewrite <-(app_nil_r q2); apply Hnew; auto)).
        destruct (path_scan _ _ _ _ _ _ _) as [?|[[? ?] ?]]; [done|].
        destruct IH as (q2' & dep'' & -> & ? & ?). exists q2', dep''.
        split_and!; [done|lia|done].
      * specialize (IH (done ++ [nxt]) (<[nxt:=s]> cf) (q2 ++ [nxt]) ({[nxt]} ∪ seen) dep' Hsucc').
        rewrite <-!app_assoc in IH. simpl in IH. rewrite <-app_assoc.
        specialize (IH ltac:(apply Hnew; auto)).
        destruct (path_scan _ _ _ _ _ _ _) as [?|[[? ?] ?]]; [done|].
        destruct IH as (q2' & dep'' & -> & ? & ?). exists (nxt :: q2'), dep''.
        rewrite <-!app_assoc in *. simpl in *. split_and!; [done|lia|done].
Qed.

(** The search state at the head of the loop. *)
Definition ready d cf q1 q2 seen dep : Prop :=
  exists s, scanning s d [] cf q1 q2 seen dep /\
    (s ∈ q1 ++ q2 \/ forall y, hop m s y -> exists j, dep !! y = Some j /\ j <= Datatypes.S d).

Lemma ready_closed d cf q1 q2 seen dep :
  ready d cf q1 q2 seen dep -> forall x k, dep !! x = Some k -> opens x -> x ∈ q1 ++ q2 \/
    (forall y, hop m x y -> exists j, dep !! y = Some j /\ j <= Datatypes.S k).
Proof.
  intros (s & Hsc & Hs) x k Hx Hop.
  destruct (sc_closed _ _ _ _ _ _ _ _ Hsc x k Hx Hop) as [?|[->|?]]; [auto| |auto].
  rewrite (sc_s _ _ _ _ _ _ _ _ Hsc) in Hx. injection Hx as ->. auto.
Qed.

(** Dequeuing either stays on the level or moves to the next one. *)
Lemma ready_pop d cf q1 q2 seen dep x queue :
  ready d cf q1 q2 seen dep -> q1 ++ q2 = x :: queue ->
  exists d' q1' q2', queue = q1' ++ q2' /\ scanning x d' [] cf q1' q2' seen dep /\
    (forall y j, y ∈ q1 ++ q2 -> dep !! y = Some j -> d' <= j).
Proof.
  intros Hr Hq. pose proof (ready_closed _ _ _ _ _ _ Hr) as Hcl.
  destruct Hr as (s & Hsc & _). destruct q1 as [|x' q1].
  - simpl in Hq. subst q2. exists (Datatypes.S d), queue, [].
    rewrite app_nil_r. split; [done|]. split; [destruct Hsc; split; auto|].
    + apply sc_next0. set_solver.
    + intros z k Hz. specialize (sc_bound0 z k Hz). lia.
    + intros z Hz. apply sc_next0. set_solver.
    + set_solver.
    + intros z Hz. rewrite app_nil_r in Hz. apply sc_open0. set_solver.
    + set_solver.
    + intros z k Hz Hop. rewrite app_nil_r. destruct (Hcl z k Hz Hop) as [Hin|?]; [|auto].
      simpl in Hin. apply elem_of_cons in Hin as [->|?]; auto.
    + intros y j Hy Hj. simpl in Hy. rewrite (sc_next _ _ _ _ _ _ _ _ Hsc y Hy) in Hj.
      by injection Hj as <-.
  - simpl in Hq. injection Hq as -> <-. exists d, q1, q2.
    split; [done|]. split; [destruct Hsc; split; auto|].
    + apply sc_now0. set_solver.
    + intros z Hz. apply sc_now0. set_solver.
    + intros z Hz. apply sc_open0. set_solver.
    + intros z k Hz Hop. destruct (Hcl z k Hz Hop) as [Hin|?]; [|auto].
      simpl in Hin. apply elem_of_cons in Hin as [->|?]; auto.
    + intros y j [Hy|Hy]%elem_of_app Hj.
      * rewrite (sc_now _ _ _ _ _ _ _ _ Hsc y Hy) in Hj. by injection Hj as <-.
      * rewrite (sc_next _ _ _ _ _ _ _ _ Hsc y Hy) in Hj. injection Hj as <-. lia.
Qed.

Lemma path_loop_ok fuel d cf q1 q2 seen dep :
  current <> target -> ready d cf q1 q2 seen dep ->
  length (q1 ++ q2) + (size (universe m ∪ {[current]}) - size seen) < fuel ->
  exists r, path_loop fuel m current target cf (q1 ++ q2) seen = Some r /\
    match r with
    | Some p => route m current p target /\ forall n, walk m current n target -> length p <= n
    | None => forall n, ~ walk m current n target
    end.
Proof.
  intros Hne. revert d cf q1 q2 seen dep.
  induction fuel as [|fuel IH]; intros d cf q1 q2 seen dep Hr Hfuel; [lia|].
  pose proof (ready_closed _ _ _ _ _ _ Hr) as Hcl.
  assert (dep !! target = None /\ dep !! current = Some 0) as [Htgt Hcur].
  { destruct Hr as (s & [] & _). split; [|done]. apply not_elem_of_dom. congruence. }
  assert (forall n, walk m current n target ->
    exists y j, y ∈ q1 ++ q2 /\ dep !! y = Some j /\ j < n) as Hfront.
  { intros n Hw. destruct (frontier (q1 ++ q2) dep n target Hcur Hcl Hw)
      as [(? & ? & ?)|?]; [congruence|done]. }
  cbn [path_loop]. destruct (q1 ++ q2) as [|x queue] eqn:Hq.
  { exists None. split; [done|]. intros n Hw. destruct (Hfront n Hw) as (? & ? & ?%not_elem_of_nil & _). done. }
  destruct (ready_pop _ _ _ _ _ _ _ _ Hr Hq) as (d' & q1' & q2' & -> & Hsc & Hmin).
  assert (opens x) as Hopx.
  { destruct Hr as (s & Hs & _). apply (sc_open _ _ _ _ _ _ _ _ Hs). rewrite Hq. set_solver. }
  pose proof (path_scan_ok x d' [] (successors m x) cf q1' q2' seen dep Hne Hopx
    (fun y => iff_refl _) Hsc) as Hscan.
  destruct (path_scan _ _ _ _ _ _ _) as [cf'|[[cf' queue'] seen']].
  - destruct Hscan as (dep' & Hch & Hc0 & Hcf & Hdx & Hhop & Hle).
    destruct (rebuild_ok cf' dep' (walk_fuel m) target [target] d' Hch Hc0)
      as (res & -> & Hroute & Hlen).
    { eauto 10. } { unfold walk_fuel. lia. }
    { exists []. split_and!; [done|constructor|auto]. }
    exists (Some (reverse res)). split; [done|]. split; [done|]. intros n Hw.
    rewrite length_reverse, Hlen. simpl.
    destruct (Hfront n Hw) as (y & j & Hy & Hj & Hlt).
    rewrite Hq in Hmin. specialize (Hmin y j Hy Hj). lia.
  - destruct Hscan as (q3 & dep' & -> & Hsize & Hsc').
    rewrite app_nil_l in Hsc'. rewrite (app_assoc q1'). rewrite <-app_assoc.
    apply (IH d' cf' q1' (q2' ++ q3) seen' dep').
    + exists x. split; [destruct Hsc'; split; auto; set_solver|]. right. apply Hsc'.
    + rewrite app_assoc, length_app. simpl in Hfuel.
      assert (size seen' <= size (universe m ∪ {[current]})).
      { apply subseteq_size. rewrite union_comm_L. apply Hsc'. }
      lia.
Qed.

End Search.

(** Check a property of every hop by running over the table. *)
Definition check_hops m (f : S -> S -> bool) : bool :=
  forallb (fun x => forallb (f x) (successors m x)) all_members.

Lemma check_hops_ok m f : check_hops m f = true -> forall x y, hop m x y -> f x y = true.
Proof.
  intros Hc x y Hxy. unfold check_hops in Hc. rewrite forallb_forall in Hc.
  specialize (Hc x (proj1 (list_elem_of_In _ _) (all_members_spec x))).
  rewrite forallb_forall in Hc. by apply Hc, list_elem_of_In.
Qed.

(** Check a route by running over it. *)
Fixpoint check_route m x (p : list S) z : bool :=
  match p with
  | [] => bool_decide (x = z)
  | y :: p => bool_decide (y ∈ successors m x) &&
      (bool_decide (p = []) || bool_decide (y ∉ _no_transit_states m)) && check_route m y p z
  end.

Lemma check_route_ok m x p z : check_route m x p z = true -> route m x p z.
Proof.
  revert x. induction p as [|y p IH]; simpl; intros x Hc.
  - apply bool_decide_eq_true in Hc as ->. constructor.
  - bool_to_prop. constructor; [done| |auto].
    by destruct H1; bool_to_prop; [left|right].
Qed.

(** Chokepoints: if leaving the set [P] takes passing through [c], then every
    route from [P] to outside [P] that does not start at [c] contains [c]. *)
Lemma route_cut m (P : S -> Prop) c x p z :
  (forall y y', P y -> hop m y y' -> P y' \/ y' = c) ->
  P x -> ~ P z -> route m x p z -> c ∈ p.
Proof.
  intros Hcut Hx Hz Hr. induction Hr as [|x y p z Hhop Hp Hr IH]; [done|].
  destruct (Hcut x y Hx Hhop) as [Hy| ->]; [|set_solver].
  apply elem_of_cons. right. by apply IH.
Qed.

(** The state before the last one of a route. *)
Lemma route_last_hop m x p z :
  route m x p z -> p <> [] -> exists q y, x :: p = q ++ [y; z] /\ hop m y z.
Proof.
  intros Hr. induction Hr as [|x y p z Hhop Hp Hr IH]; intros Hne; [done|].
  destruct p as [|y' p].
  - inversion Hr; subst. by exists [], x.
  - destruct IH as (q & y'' & Hq & ?); [done|]. exists (x :: q), y''. by rewrite Hq.
Qed.

(** The decidable forms of the two, discharged by running over the table. *)
Definition confined_by m (P : S -> Prop) `{forall y, Decision (P y)} c : bool :=
  check_hops m (fun y y' => implb (bool_decide (P y)) (bool_decide (P y' \/ y' = c))).

Lemma route_through m (P : S -> Prop) `{forall y, Decision (P y)} c x p z :
  confined_by m P c = true -> P x -> ~ P z -> route m x p z -> c ∈ p.
Proof.
  intros Hc. apply route_cut. intros y y' Hy Hhop.
  apply (check_hops_ok m _ Hc) in Hhop. rewrite (bool_decide_true _ Hy) in Hhop.
  by apply bool_decide_eq_true in Hhop.
Qed.

Definition only_before m y z : bool :=
  check_hops m (fun x x' => implb (bool_decide (x' = z)) (bool_decide (x = y))).

Lemma route_ends_through m y z x p :
  only_before m y z = true -> route m x p z -> x <> z -> exists q, x :: p = q ++ [y; z].
Proof.
  intros Hc Hr Hne. destruct (route_last_hop _ _ _ _ Hr) as (q & y' & Hq & Hy).
  { intros ->. inversion Hr; congruence. }
  exists q. apply (check_hops_ok m _ Hc) in Hy. rewrite bool_decide_true in Hy by done.
  apply bool_decide_eq_true in Hy. congruence.
Qed.

Lemma route_interior m x p z y :
  route m x p z -> y ∈ p -> y <> z -> y ∉ _no_transit_states m.
Proof.
  intros Hr. induction Hr as [|x y' p z Hhop Hp Hr IH]; intros Hy Hne;
    [by apply not_elem_of_nil in Hy|].
  apply elem_of_cons in Hy as [->|?]; [|auto].
  destruct Hp as [->|?]; [|done]. inversion Hr; congruence.
Qed.

(** The specification of [path_to] on a pair of known states. *)
Lemma path_to_spec m x z :
  machine_wf m -> match path_to m x z with
  | Some p => route m x p z /\ forall q, route m x q z -> length p <= length q
  | None => forall q, ~ route m x q z
  end.
Proof.
  intros Hwf. unfold path_to. case_decide as Hxz.
  { subst z. split; [constructor|]. simpl. lia. }
  case_decide as Hdom.
  { intros q Hq. inversion Hq; subst; [done|]. by destruct Hdom; eapply hop_source. }
  destruct (path_loop_ok m x z (walk_fuel m) 0 ∅ [x] [] {[x]} {[x := 0]}) as (r & Hr & Hspec); [done| | |].
  - exists x. split; [|left; set_solver]. split.
    + by rewrite dom_singleton_L.
    + by rewrite lookup_singleton_eq.
    + by rewrite lookup_singleton_eq.
    + intros y k [<- <-]%lookup_singleton_Some. auto.
    + intros y k [<- <-]%lookup_singleton_Some. rewrite size_singleton. lia.
    + set_solver.
    + set_solver.
    + intros y k [<- <-]%lookup_singleton_Some. lia.
    + intros y ->%list_elem_of_singleton. by rewrite lookup_singleton_eq.
    + set_solver.
    + intros y ->%list_elem_of_singleton. by left.
    + set_solver.
    + intros y k [<- <-]%lookup_singleton_Some. set_solver.
  - pose proof (size_union_singleton (universe m) x). rewrite size_singleton.
    unfold walk_fuel. simpl. lia.
  - rewrite app_nil_r in Hr. rewrite Hr. simpl. destruct r as [p|].
    + destruct Hspec as [? Hmin]. split; [done|]. intros q Hq%route_walk. auto.
    + intros q Hq%route_walk. by eapply Hspec.
Qed.

End PathTo.

(** ** Correctness of [unconditional_exit_reachable] *)
Section ExitReachable.
Context {S : Type} `{Heq : EqDecision S} `{Hcnt : !Countable S} `{Henum : !StateEnum S}.
Implicit Types (s x y z : S) (m : @StateMachine S _ _).

(** A hop any writer can take. *)
Definition free_hop m x y : Prop := hop m x y /\ y ∈ _unconditional_targets m.

Definition terminal m x : Prop := x ∈ states m /\ forall y, ~ hop m x y.

Lemma exit_scan_ok m succs queue seen queue' seen' :
  exit_scan m succs queue seen = (queue', seen') ->
  exists new, queue' = queue ++ new /\
    seen' = list_to_set new ∪ seen /\ length new + size seen = size seen' /\
    (forall y, y ∈ new -> y ∈ succs /\ y ∈ _unconditional_targets m) /\
    (forall y, y ∈ succs -> y ∈ _unconditional_targets m -> y ∈ seen').
Proof.
  revert queue seen. induction succs as [|nxt rest IH]; intros queue seen; simpl.
  { intros ?; inv_result. exists []. rewrite app_nil_r. split_and!; [done|set_solver|done|set_solver|set_solver]. }
  case_decide as Hd; intros Hs.
  - destruct (IH _ _ Hs) as (new & ? & ? & ? & ? & ?). exists new. split_and!; auto; [set_solver|].
    intros y [->|?]%elem_of_cons Hy; [|auto]. destruct Hd; [set_solver|done].
  - destruct (IH _ _ Hs) as (new & -> & -> & Hsize & Hnew & Hall).
    assert (nxt ∉ seen /\ nxt ∈ _unconditional_targets m) as [Hfresh Hfree].
    { split; [|apply dec_stable]; tauto. }
    exists (nxt :: new). split_and!.
    + by rewrite <-app_assoc.
    + set_solver.
    + rewrite <-Hsize, size_union, size_singleton by set_solver. simpl. lia.
    + intros y [->|Hy]%elem_of_cons; [set_solver|]. destruct (Hnew y Hy). set_solver.
    + intros y [->|?]%elem_of_cons Hy; [set_solver|auto].
Qed.

Lemma successors_nil m x : successors m x = [] <-> forall y, ~ hop m x y.
Proof. unfold hop. destruct (successors m x); set_solver. Qed.

Lemma exit_loop_ok m x fuel queue seen :
  machine_wf m ->
  (forall y, y ∈ queue -> y ∈ seen) ->
  (forall y, y ∈ seen -> rtc (free_hop m) x y) ->
  (forall y, y ∈ seen -> y ∉ queue -> ~ terminal m y /\ forall z, free_hop m y z -> z ∈ seen) ->
  x ∈ seen -> seen ⊆ universe m ∪ {[x]} ->
  length queue + (size (universe m ∪ {[x]}) - size seen) < fuel ->
  exists b, exit_loop fuel m queue seen = Some b /\
    (b = true -> exists z, rtc (free_hop m) x z /\ terminal m z) /\
    (b = false -> _unconditional_targets m ⊆ states m -> x ∈ states m ->
       forall z, rtc (free_hop m) x z -> ~ terminal m z).
Proof.
  intros Hwf. revert queue seen. induction fuel as [|fuel IH];
    intros queue seen Hq Hreach Hcl Hx Hsub Hfuel; [lia|]. simpl.
  destruct queue as [|s queue].
  { exists false. split_and!; [done|done|]. intros _ _ _ z Hz.
    assert (z ∈ seen) as Hseen.
    { clear -Hz Hcl Hx. revert z Hz. apply rtc_ind_r; [done|]. intros y z _ Hyz IH.
      apply (Hcl y IH); [set_solver|done]. }
    apply Hcl; [done|set_solver]. }
  assert (rtc (free_hop m) x s) as Hs by (apply Hreach, Hq; set_solver).
  case_decide as Hst.
  { exists false. split_and!; [done|done|]. intros _ Hun Hxs. exfalso. apply Hst.
    apply rtc_inv_r in Hs as [<-|(? & _ & _ & ?)]; set_solver. }
  case_decide as Hterm.
  { exists true. split_and!; [done| |done]. intros _. exists s. split; [done|].
    split; [by destruct (decide (s ∈ states m))|]. by apply successors_nil. }
  destruct (exit_scan _ _ _ _) as [queue' seen'] eqn:Hscan.
  apply exit_scan_ok in Hscan as (new & -> & -> & Hsize & Hnew & Hall).
  apply IH.
  - set_solver.
  - intros y [Hy|?]%elem_of_union; [|auto]. eapply rtc_r; [done|].
    apply elem_of_list_to_set, Hnew in Hy as []. by split.
  - intros y Hy Hny. destruct (decide (y = s)) as [->|Hne].
    + split; [rewrite successors_nil in Hterm; by intros [_ ?]|]. intros z [Hz ?]. by apply Hall.
    + destruct (Hcl y) as [? Hz]; [set_solver|set_solver|]. split; [done|].
      intros z Hyz%Hz. set_solver.
  - set_solver.
  - intros y [Hy|?]%elem_of_union; [|set_solver].
    apply elem_of_list_to_set, Hnew in Hy as [Hy _]. apply hop_universe in Hy. set_solver.
  - rewrite length_app. simpl in Hfuel.
    assert (size (list_to_set new ∪ seen) <= size (universe m ∪ {[x]})); [|lia].
    apply subseteq_size. intros y [Hy|?]%elem_of_union; [|set_solver].
    apply elem_of_list_to_set, Hnew in Hy as [Hy _]. apply hop_universe in Hy. set_solver.
Qed.

Lemma exit_search_ok m x :
  machine_wf m ->
  exists b, exit_loop (walk_fuel m) m [x] {[x]} = Some b /\
    (b = true -> exists z, rtc (free_hop m) x z /\ terminal m z) /\
    (b = false -> _unconditional_targets m ⊆ states m -> x ∈ states m ->
       forall z, rtc (free_hop m) x z -> ~ terminal m z).
Proof.
  intros Hwf. apply exit_loop_ok; [done|set_solver| |set_solver..|].
  - intros y ->%elem_of_singleton. done.
  - pose proof (size_union_singleton (universe m) x). rewrite size_singleton.
    unfold walk_fuel. simpl. lia.
Qed.

Lemma exit_reachable_sound m x :
  machine_wf m -> unconditional_exit_reachable m x = true ->
  exists z, rtc (free_hop m) x z /\ terminal m z.
Proof.
  intros Hwf. unfold unconditional_exit_reachable. case_decide as Hx; [done|].
  destruct (exit_search_ok m x Hwf) as (b & -> & Ht & _). exact Ht.
Qed.

Lemma exit_reachable_complete m x z :
  machine_wf m -> _unconditional_targets m ⊆ states m -> x ∈ states m ->
  rtc (free_hop m) x z -> terminal m z -> unconditional_exit_reachable m x = true.
Proof.
  intros Hwf Hun Hx Hz Ht. unfold unconditional_exit_reachable.
  case_decide as Hn; [done|].
  destruct (exit_search_ok m x Hwf) as ([|] & -> & _ & Hf); [done|].
  destruct (Hf eq_refl Hun Hx z Hz Ht).
Qed.

End ExitReachable.

(** ** Claims *)
Section Claims.
Context {S : Type} `{Heq : EqDecision S} `{Hcnt : !Countable S} `{Henum : !StateEnum S}.

(** C19: [path_to] returns a shortest route: every hop is in the table, no
    state strictly between the ends is a no-transit state, no such route is
    shorter, and [None] means there is none at all. In particular the search
    and the reconstruction loop always finish within their fuel. *)
Theorem path_to_shortest_route (m : StateMachine) (current target : S) :
  machine_wf m ->
  match path_to m current target with
  | Some p => route m current p target /\
      (forall y, y ∈ p -> y <> target -> y ∉ _no_transit_states m) /\
      (forall q, route m current q target -> length p <= length q)
  | None => forall q, ~ route m current q target
  end.
Proof.
  intros Hwf. pose proof (path_to_spec m current target Hwf) as Hspec.
  destruct (path_to m current target); [|done]. destruct Hspec as [Hr ?].
  split_and!; [done| |done]. intros y. by apply (route_interior m current).
Qed.

(** The machine does not depend on the order its frozensets iterate in:
    two readings of one table (same keys, each target set enumerated in any
    order) give the same ordered successors, hence the same walks. *)
Theorem machine_hash_independent (t1 t2 : list (S * list S)) n all lbl hops m1 m2 :
  Forall2 (fun e1 e2 => e1.1 = e2.1 /\ e1.2 ≡ₚ e2.2) t1 t2 ->
  new_machine t1 n all lbl hops = Ok m1 -> new_machine t2 n all lbl hops = Ok m2 ->
  m1 = m2.
Proof.
  intros Hp. assert (t1.*1 = t2.*1) as Hkeys.
  { induction Hp as [|e1 e2 t1 t2 [He _] _ IH]; [done|]. rewrite !fmap_cons. by f_equal. }
  unfold new_machine. rewrite Hkeys. case_bool_decide; intros ? ?; inv_result.
  f_equal.
  - f_equal. clear -Hp. induction Hp as [|[k1 v1] [k2 v2] t1 t2 [He Hv] _ IH]; [done|].
    rewrite !fmap_cons, IH. simpl in *. subst. f_equal. unfold prod_map; simpl.
    f_equal. by rewrite Hv.
  - f_equal. generalize (t2.*1). intros keys. clear -Hp Henum.
    induction Hp as [|[k1 v1] [k2 v2] t1 t2 [He Hv] _ IH]; [done|].
    rewrite !fmap_cons, IH. simpl in *. subst. f_equal. unfold prod_map; simpl.
    f_equal. by apply order_targets_unique.
Qed.

(** [unconditional_exit_reachable] is exact on a table that defines its
    declared-unconditional targets: it answers [True] for a known state
    precisely when hops any writer can take lead to a terminal state. *)
Theorem unconditional_exit_exact (m : StateMachine) (current : S) :
  machine_wf m -> _unconditional_targets m ⊆ states m ->
  unconditional_exit_reachable m current = true <->
  current ∈ states m /\ exists z, rtc (free_hop m) current z /\ terminal m z.
Proof.
  intros Hwf Hun. split.
  - intros Ht. split; [|by apply exit_reachable_sound].
    unfold unconditional_exit_reachable in Ht. case_decide as Hd; [done|].
    by destruct (decide (current ∈ states m)).
  - intros [Hx (z & ? & ?)]. by eapply exit_reachable_complete.
Qed.

End Claims.
