(* ===== verification/TaskEnums.v ===== *)
(** * TaskEnums

    The task-family enumerations of [core/task_enums.py]: the lifecycle status,
    why a task is parked and who can end the park, the kinds of work, and the
    stakes order. *)

From stdpp Require Import gmap strings list sorting.
From Stdlib Require Import Lia ZArith.
From S2P Require Import Prelude StateMachine.

Module TaskStatus.

Inductive TaskStatus :=
| CREATED | ASSIGNED | IN_PROGRESS | IN_REVIEW | COMPLETED | BLOCKED | FAILED |
INTERRUPTED | SUSPENDED | CANCELLED | REJECTED | AUTH_REQUIRED | AWAITING_INPUT.

#[export] Instance task_status_eq_dec : EqDecision TaskStatus.
Proof. solve_decision. Defined.

Definition members : list TaskStatus :=
  [CREATED; ASSIGNED; IN_PROGRESS; IN_REVIEW; COMPLETED; BLOCKED; FAILED;
   INTERRUPTED; SUSPENDED; CANCELLED; REJECTED; AUTH_REQUIRED; AWAITING_INPUT].

Lemma task_status_members_all s : s ∈ members.
Proof. revert s. enum_elem. Qed.

#[export] Instance task_status_countable : Countable TaskStatus :=
  enum_countable members task_status_members_all.

Definition task_status_value (s : TaskStatus) : string :=
  match s with
  | CREATED => "created"
  | ASSIGNED => "assigned"
  | IN_PROGRESS => "in_progress"
  | IN_REVIEW => "in_review"
  | COMPLETED => "completed"
  | BLOCKED => "blocked"
  | FAILED => "failed"
  | INTERRUPTED => "interrupted"
  | SUSPENDED => "suspended"
  | CANCELLED => "cancelled"
  | REJECTED => "rejected"
  | AUTH_REQUIRED => "auth_required"
  | AWAITING_INPUT => "awaiting_input"
  end.

#[export] Instance task_status_value_inj : Inj (=) (=) task_status_value.
Proof. intros [] []; simpl; congruence. Qed.

#[export] Instance task_status_enum : StateEnum TaskStatus := {|
  value := task_status_value;
  all_members := members;
  all_members_spec := task_status_members_all;
|}.

End TaskStatus.
Export (hints) TaskStatus.

Module BlockedReason.

Inductive BlockedReason :=
| ORACLE_ESCALATED | WAVE_RELEASED | REVIEWER_UNSTAFFED | RED_TEAM_UNSTAFFED |
NO_CAPABLE_AGENT | DEPENDENCY_FAILED | RUN_STOPPED.

#[export] Instance blocked_reason_eq_dec : EqDecision BlockedReason.
Proof. solve_decision. Defined.

Definition members : list BlockedReason :=
  [ORACLE_ESCALATED; WAVE_RELEASED; REVIEWER_UNSTAFFED; RED_TEAM_UNSTAFFED;
   NO_CAPABLE_AGENT; DEPENDENCY_FAILED; RUN_STOPPED].

Lemma blocked_reason_members_all s : s ∈ members.
Proof. revert s. enum_elem. Qed.

#[export] Instance blocked_reason_countable : Countable BlockedReason :=
  enum_countable members blocked_reason_members_all.

Definition blocked_reason_value (s : BlockedReason) : string :=
  match s with
  | ORACLE_ESCALATED => "oracle_escalated"
  | WAVE_RELEASED => "wave_released"
  | REVIEWER_UNSTAFFED => "reviewer_unstaffed"
  | RED_TEAM_UNSTAFFED => "red_team_unstaffed"
  | NO_CAPABLE_AGENT => "no_capable_agent"
  | DEPENDENCY_FAILED => "dependency_failed"
  | RUN_STOPPED => "run_stopped"
  end.

#[export] Instance blocked_reason_value_inj : Inj (=) (=) blocked_reason_value.
Proof. intros [] []; simpl; congruence. Qed.

End BlockedReason.
Export (hints) BlockedReason.

Module ParkExit.

Inductive ParkExit :=
| OPERATOR | SWEEP | REPLAN.

#[export] Instance park_exit_eq_dec : EqDecision ParkExit.
Proof. solve_decision. Defined.

Definition members : list ParkExit :=
  [OPERATOR; SWEEP; REPLAN].

Lemma park_exit_members_all s : s ∈ members.
Proof. revert s. enum_elem. Qed.

#[export] Instance park_exit_countable : Countable ParkExit :=
  enum_countable members park_exit_members_all.

Definition park_exit_value (s : ParkExit) : string :=
  match s with
  | OPERATOR => "operator"
  | SWEEP => "sweep"
  | REPLAN => "replan"
  end.

#[export] Instance park_exit_value_inj : Inj (=) (=) park_exit_value.
Proof. intros [] []; simpl; congruence. Qed.

End ParkExit.
Export (hints) ParkExit.

Module Stakes.

Inductive Stakes :=
| LOW | NORMAL | HIGH | CRITICAL.

#[export] Instance stakes_eq_dec : EqDecision Stakes.
Proof. solve_decision. Defined.

Definition members : list Stakes :=
  [LOW; NORMAL; HIGH; CRITICAL].

Lemma stakes_members_all s : s ∈ members.
Proof. revert s. enum_elem. Qed.

#[export] Instance stakes_countable : Countable Stakes :=
  enum_countable members stakes_members_all.

Definition stakes_value (s : Stakes) : string :=
  match s with
  | LOW => "low"
  | NORMAL => "normal"
  | HIGH => "high"
  | CRITICAL => "critical"
  end.

#[export] Instance stakes_value_inj : Inj (=) (=) stakes_value.
Proof. intros [] []; simpl; congruence. Qed.

End Stakes.
Export (hints) Stakes.

Module TaskType.

Inductive TaskType :=
| DEVELOPMENT | DESIGN | RESEARCH | REVIEW | ADMIN | ANALYSIS.

#[export] Instance task_type_eq_dec : EqDecision TaskType.
Proof. solve_decision. Defined.

Definition members : list TaskType :=
  [DEVELOPMENT; DESIGN; RESEARCH; REVIEW; ADMIN; ANALYSIS].

Lemma task_type_members_all s : s ∈ members.
Proof. revert s. enum_elem. Qed.

#[export] Instance task_type_countable : Countable TaskType :=
  enum_countable members task_type_members_all.

Definition task_type_value (s : TaskType) : string :=
  match s with
  | DEVELOPMENT => "development"
  | DESIGN => "design"
  | RESEARCH => "research"
  | REVIEW => "review"
  | ADMIN => "admin"
  | ANALYSIS => "analysis"
  end.

#[export] Instance task_type_value_inj : Inj (=) (=) task_type_value.
Proof. intros [] []; simpl; congruence. Qed.

End TaskType.
Export (hints) TaskType.

Module Priority.

Inductive Priority :=
| CRITICAL | HIGH | MEDIUM | LOW.

#[export] Instance priority_eq_dec : EqDecision Priority.
Proof. solve_decision. Defined.

Definition members : list Priority :=
  [CRITICAL; HIGH; MEDIUM; LOW].

Lemma priority_members_all s : s ∈ members.
Proof. revert s. enum_elem. Qed.

#[export] Instance priority_countable : Countable Priority :=
  enum_countable members priority_members_all.

Definition priority_value (s : Priority) : string :=
  match s with
  | CRITICAL => "critical"
  | HIGH => "high"
  | MEDIUM => "medium"
  | LOW => "low"
  end.

#[export] Instance priority_value_inj : Inj (=) (=) priority_value.
Proof. intros [] []; simpl; congruence. Qed.

End Priority.
Export (hints) Priority.

Module TaskSource.

Inductive TaskSource :=
| INTERNAL | CLIENT | SIMULATION.

#[export] Instance task_source_eq_dec : EqDecision TaskSource.
Proof. solve_decision. Defined.

Definition members : list TaskSource :=
  [INTERNAL; CLIENT; SIMULATION].

Lemma task_source_members_all s : s ∈ members.
Proof. revert s. enum_elem. Qed.

#[export] Instance task_source_countable : Countable TaskSource :=
  enum_countable members task_source_members_all.

Definition task_source_value (s : TaskSource) : string :=
  match s with
  | INTERNAL => "internal"
  | CLIENT => "client"
  | SIMULATION => "simulation"
  end.

#[export] Instance task_source_value_inj : Inj (=) (=) task_source_value.
Proof. intros [] []; simpl; congruence. Qed.

End TaskSource.
Export (hints) TaskSource.

(** ** Who ends each park *)

Definition PARK_EXIT : gmap BlockedReason.BlockedReason ParkExit.ParkExit := list_to_map [
  (BlockedReason.ORACLE_ESCALATED, ParkExit.OPERATOR);
  (BlockedReason.NO_CAPABLE_AGENT, ParkExit.OPERATOR);
  (BlockedReason.REVIEWER_UNSTAFFED, ParkExit.SWEEP);
  (BlockedReason.RED_TEAM_UNSTAFFED, ParkExit.SWEEP);
  (BlockedReason.WAVE_RELEASED, ParkExit.REPLAN);
  (BlockedReason.DEPENDENCY_FAILED, ParkExit.REPLAN);
  (BlockedReason.RUN_STOPPED, ParkExit.REPLAN)].

(** The import-time guard: the reasons with no declared exit. *)
Definition undeclared_parks : gset BlockedReason.BlockedReason :=
  list_to_set BlockedReason.members ∖ dom PARK_EXIT.

Definition STAFFING_BLOCKED_REASONS : gset BlockedReason.BlockedReason :=
  dom (filter (fun '(_, e) => e = ParkExit.SWEEP) PARK_EXIT).

Definition ATTENDED_BLOCKED_REASONS : gset BlockedReason.BlockedReason :=
  dom (filter (fun '(_, e) => e <> ParkExit.REPLAN) PARK_EXIT).

Lemma undeclared_parks_empty : undeclared_parks = ∅.
Proof. by vm_compute. Qed.

(** A staffing park is attended, and no attended park waits for a replan. *)
Lemma staffing_attended : STAFFING_BLOCKED_REASONS ⊆ ATTENDED_BLOCKED_REASONS.
Proof. by apply (bool_decide_unpack _); vm_compute. Qed.

Lemma attended_iff r :
  r ∈ ATTENDED_BLOCKED_REASONS <-> PARK_EXIT !! r <> Some ParkExit.REPLAN.
Proof. split; destruct r; intros H; by apply (bool_decide_unpack _); vm_compute. Qed.

(** ** The stakes order *)

Definition STAKES_ORDER : list Stakes.Stakes :=
  [Stakes.LOW; Stakes.NORMAL; Stakes.HIGH; Stakes.CRITICAL].

(** [_STAKES_RANK[s]]: [STAKES_ORDER] names every member, so the position is
    the rank. *)
Definition STAKES_RANK (s : Stakes.Stakes) : Z := Z.of_nat (index_of s STAKES_ORDER).

Definition compare_stakes (a b : Stakes.Stakes) : Z := STAKES_RANK a - STAKES_RANK b.

Definition is_high_stakes (s : Stakes.Stakes) : bool :=
  (0 <=? compare_stakes s Stakes.HIGH)%Z.

Lemma compare_stakes_antisym a b : compare_stakes a b = (- compare_stakes b a)%Z.
Proof. unfold compare_stakes. lia. Qed.

Lemma compare_stakes_zero a b : compare_stakes a b = 0%Z <-> a = b.
Proof. destruct a, b; vm_compute; split; congruence. Qed.

Lemma compare_stakes_trans a b c :
  (compare_stakes a b <= 0)%Z -> (compare_stakes b c <= 0)%Z -> (compare_stakes a c <= 0)%Z.
Proof. unfold compare_stakes. lia. Qed.

Lemma is_high_stakes_spec s : is_high_stakes s = true <-> s = Stakes.HIGH \/ s = Stakes.CRITICAL.
Proof. destruct s; vm_compute; naive_solver. Qed.
