(* ===== verification/TaskTransitions.v ===== *)
(** * TaskTransitions

    The task lifecycle of [core/task_transitions.py]: its table, the machine
    built from it, and what the table promises about completion and parks. *)

From stdpp Require Import gmap strings list sorting relations.
From S2P Require Import Prelude StateMachine TaskEnums.
Import TaskStatus.

Definition VALID_TRANSITIONS : list (TaskStatus * list TaskStatus) := [
  (CREATED, [ASSIGNED; BLOCKED; REJECTED; FAILED]);
  (ASSIGNED, [IN_PROGRESS; AUTH_REQUIRED; BLOCKED; CANCELLED; FAILED; INTERRUPTED; SUSPENDED]);
  (IN_PROGRESS, [IN_REVIEW; AWAITING_INPUT; AUTH_REQUIRED; BLOCKED; CANCELLED; FAILED; INTERRUPTED; SUSPENDED]);
  (IN_REVIEW, [COMPLETED; IN_PROGRESS; BLOCKED; CANCELLED]);
  (AWAITING_INPUT, [IN_PROGRESS; CANCELLED]);
  (AUTH_REQUIRED, [ASSIGNED; CANCELLED]);
  (BLOCKED, [ASSIGNED; CANCELLED; IN_REVIEW]);
  (FAILED, [ASSIGNED; CANCELLED]);
  (INTERRUPTED, [ASSIGNED; CANCELLED]);
  (SUSPENDED, [ASSIGNED; CANCELLED]);
  (COMPLETED, []);
  (CANCELLED, []);
  (REJECTED, [])].

Definition _UNCONDITIONAL_TARGETS : list TaskStatus := [CANCELLED; REJECTED; FAILED].

Definition _NO_TRANSIT : list TaskStatus :=
  [BLOCKED; AWAITING_INPUT; AUTH_REQUIRED; SUSPENDED; INTERRUPTED].

Definition build_machine : result (string * list string) StateMachine :=
  new_machine VALID_TRANSITIONS "task_status" (Some members) (Some "task status"%string)
    (Some {| unconditional_targets := _UNCONDITIONAL_TARGETS;
             no_transit_states := _NO_TRANSIT |}).

Lemma task_build_machine_ok : is_ok build_machine = true.
Proof. by vm_compute. Qed.

Definition _MACHINE : StateMachine := unwrap build_machine task_build_machine_ok.

Definition validate_transition (current target : TaskStatus) : result transition_error unit :=
  validate _MACHINE current target.

Definition transition_path (current target : TaskStatus) : option (list TaskStatus) :=
  path_to _MACHINE current target.

Lemma task_machine_ok : machine_wf _MACHINE.
Proof. eapply new_machine_wf, (unwrap_ok build_machine task_build_machine_ok). Qed.

#[export] Instance task_hop_dec : RelDecision (hop _MACHINE).
Proof. intros x y. unfold hop. apply _. Defined.

(** Every status can be finished or abandoned by a writer that needs nothing
    the task may lack. *)
Lemma task_every_status_has_exit s : unconditional_exit_reachable _MACHINE s = true.
Proof. destruct s; by vm_compute. Qed.

(** ** Claims *)

(** No route of the task lifecycle reaches [COMPLETED] except through
    [IN_REVIEW]: the review gate is the last state before completion on every
    route, whatever the task went through before. *)
Theorem completion_only_through_review (x : TaskStatus) (p : list TaskStatus) :
  route _MACHINE x p COMPLETED -> x <> COMPLETED ->
  exists q, x :: p = q ++ [IN_REVIEW; COMPLETED].
Proof.
  intros Hr Hne. by eapply route_ends_through, Hne; [|done]; vm_compute.
Qed.

Lemma completion_only_through_review_witness :
  exists q, [CREATED; ASSIGNED; IN_PROGRESS; IN_REVIEW; COMPLETED] = q ++ [IN_REVIEW; COMPLETED].
Proof.
  apply (completion_only_through_review CREATED [ASSIGNED; IN_PROGRESS; IN_REVIEW; COMPLETED]);
    [|discriminate].
  apply check_route_ok. by vm_compute.
Defined.

(** The walk a rollup drives a parent along is a chain of valid hops that
    never passes through a park ([BLOCKED], [AWAITING_INPUT], [AUTH_REQUIRED],
    [SUSPENDED], [INTERRUPTED]); it exists exactly when the table has such a
    chain, and each of its hops is accepted by [validate_transition]. *)
Theorem transition_path_avoids_parks (current target : TaskStatus) :
  match transition_path current target with
  | Some p => route _MACHINE current p target /\
      Forall (fun y => y = target \/ y ∉ _NO_TRANSIT) p /\
      (forall i y z, (current :: p) !! i = Some y -> p !! i = Some z ->
         validate_transition y z = Ok tt)
  | None => forall p, ~ route _MACHINE current p target
  end.
Proof.
  unfold transition_path. pose proof (path_to_spec _MACHINE current target task_machine_ok) as H.
  destruct (path_to _MACHINE current target) as [p|]; [|done].
  destruct H as [Hr _]. split_and!; [done| |].
  - apply Forall_forall. intros y Hy. destruct (decide (y = target)); [by left|right].
    intros Hin. apply (route_interior _ _ _ _ y Hr); [done..|].
    by apply (elem_of_list_to_set (C:=gset TaskStatus)).
  - clear -Hr. induction Hr as [|x y' p t Hhop _ Hr IH]; intros i y z Hy Hz; [done|].
    destruct i as [|i]; [|by apply (IH i)].
    simpl in *. inv_result. by apply validate_ok_hop, Hhop; apply task_machine_ok.
Qed.

(** The generic claims of [StateMachine] at this machine. *)
Lemma path_to_shortest_route_witness :
  path_to _MACHINE CREATED COMPLETED = Some [ASSIGNED; IN_PROGRESS; IN_REVIEW; COMPLETED] /\
  route _MACHINE CREATED [ASSIGNED; IN_PROGRESS; IN_REVIEW; COMPLETED] COMPLETED.
Proof.
  pose proof (path_to_shortest_route _MACHINE CREATED COMPLETED task_machine_ok) as H.
  assert (path_to _MACHINE CREATED COMPLETED = Some [ASSIGNED; IN_PROGRESS; IN_REVIEW; COMPLETED])
    as E by (by vm_compute).
  rewrite E in H. split; [exact E|exact (proj1 H)].
Defined.

(** A second reading of the table, every target set enumerated backwards. *)
Definition REVERSED_TRANSITIONS : list (TaskStatus * list TaskStatus) :=
  prod_map id reverse <$> VALID_TRANSITIONS.

Definition reversed_machine : result (string * list string) StateMachine :=
  new_machine REVERSED_TRANSITIONS "task_status" (Some members) (Some "task status"%string)
    (Some {| unconditional_targets := _UNCONDITIONAL_TARGETS;
             no_transit_states := _NO_TRANSIT |}).

Lemma reversed_machine_ok : is_ok reversed_machine = true.
Proof. by vm_compute. Qed.

Lemma machine_hash_independent_witness : unwrap reversed_machine reversed_machine_ok = _MACHINE.
Proof.
  eapply (machine_hash_independent REVERSED_TRANSITIONS VALID_TRANSITIONS);
    [|apply (unwrap_ok reversed_machine)|apply (unwrap_ok build_machine)].
  repeat (constructor; [split; [reflexivity|apply reverse_Permutation]|]). constructor.
Defined.

Lemma unconditional_exit_exact_witness :
  exists z, rtc (free_hop _MACHINE) SUSPENDED z /\ terminal _MACHINE z.
Proof.
  apply (unconditional_exit_exact _MACHINE SUSPENDED task_machine_ok).
  - intros s _. destruct s; apply (bool_decide_unpack _); by vm_compute.
  - by vm_compute.
Defined.
