(* ===== verification/ProjectTransitions.v ===== *)
(** * ProjectTransitions

    The initiative lifecycle of [core/project_transitions.py] and
    [core/project_enums.py]. *)

From stdpp Require Import gmap strings list sorting relations.
From S2P Require Import Prelude StateMachine.

Module ProjectStatus.

Inductive ProjectStatus :=
| PLANNING | ACTIVE | INTEGRATING | EVALUATING | ON_HOLD | COMPLETED | CANCELLED
| FAILED.

#[export] Instance project_status_eq_dec : EqDecision ProjectStatus.
Proof. solve_decision. Defined.

Definition members : list ProjectStatus :=
  [PLANNING; ACTIVE; INTEGRATING; EVALUATING; ON_HOLD; COMPLETED; CANCELLED;
   FAILED].

Lemma project_status_members_all s : s ∈ members.
Proof. revert s. enum_elem. Qed.

#[export] Instance project_status_countable : Countable ProjectStatus :=
  enum_countable members project_status_members_all.

Definition project_status_value (s : ProjectStatus) : string :=
  match s with
  | PLANNING => "planning"
  | ACTIVE => "active"
  | INTEGRATING => "integrating"
  | EVALUATING => "evaluating"
  | ON_HOLD => "on_hold"
  | COMPLETED => "completed"
  | CANCELLED => "cancelled"
  | FAILED => "failed"
  end.

#[export] Instance project_status_value_inj : Inj (=) (=) project_status_value.
Proof. intros [] []; simpl; congruence. Qed.

#[export] Instance project_status_enum : StateEnum ProjectStatus := {|
  value := project_status_value;
  all_members := members;
  all_members_spec := project_status_members_all;
|}.

End ProjectStatus.
Export (hints) ProjectStatus.
Import ProjectStatus.

Definition VALID_TRANSITIONS : list (ProjectStatus * list ProjectStatus) := [
  (PLANNING, [ACTIVE; FAILED; CANCELLED]);
  (ACTIVE, [INTEGRATING; ON_HOLD; FAILED; CANCELLED]);
  (INTEGRATING, [EVALUATING; ACTIVE; ON_HOLD; FAILED; CANCELLED]);
  (EVALUATING, [COMPLETED; ACTIVE; ON_HOLD; FAILED; CANCELLED]);
  (ON_HOLD, [ACTIVE; CANCELLED]);
  (FAILED, [PLANNING; ACTIVE; CANCELLED]);
  (COMPLETED, []);
  (CANCELLED, [])].

Definition _UNCONDITIONAL_TARGETS : list ProjectStatus := [CANCELLED].

Definition build_machine : result (string * list string) StateMachine :=
  new_machine VALID_TRANSITIONS "project_status" (Some members) (Some "project status"%string)
    (Some {| unconditional_targets := _UNCONDITIONAL_TARGETS; no_transit_states := [] |}).

Lemma project_build_machine_ok : is_ok build_machine = true.
Proof. by vm_compute. Qed.

Definition _MACHINE : StateMachine := unwrap build_machine project_build_machine_ok.

Lemma project_machine_ok : machine_wf _MACHINE.
Proof. eapply new_machine_wf, (unwrap_ok build_machine project_build_machine_ok). Qed.

Definition validate_transition (current target : ProjectStatus) : result transition_error unit :=
  validate _MACHINE current target.

Definition transition_path (current target : ProjectStatus) : option (list ProjectStatus) :=
  path_to _MACHINE current target.

(** No status is a dead end an operator cannot leave. *)
Lemma project_every_status_has_exit s : unconditional_exit_reachable _MACHINE s = true.
Proof. destruct s; by vm_compute. Qed.

(** ** Claims *)

(** An initiative is delivered only by the evaluate stage: every route
    into [COMPLETED] ends with the hop [EVALUATING] to [COMPLETED], it has
    passed [INTEGRATING] unless it started in the tail, and a route that
    starts on hold resumes through [ACTIVE] first. *)
Theorem project_delivery_gated (x : ProjectStatus) (p : list ProjectStatus) :
  route _MACHINE x p COMPLETED -> x <> COMPLETED ->
  (exists q, x :: p = q ++ [EVALUATING; COMPLETED]) /\
  (x ∉ [INTEGRATING; EVALUATING] -> INTEGRATING ∈ p) /\
  (x = ON_HOLD -> ACTIVE ∈ p).
Proof.
  intros Hr Hne. split_and!.
  - by eapply route_ends_through, Hne; [|done]; vm_compute.
  - intros Hx. by eapply (route_through _MACHINE (fun y => y ∉ [INTEGRATING; EVALUATING; COMPLETED])),
      Hr; [vm_compute|set_solver|set_solver].
  - intros ->. by eapply (route_through _MACHINE (fun y => y ∈ [ON_HOLD; CANCELLED])),
      Hr; [vm_compute|set_solver|set_solver].
Qed.

Lemma project_delivery_gated_witness : ACTIVE ∈ [ACTIVE; INTEGRATING; EVALUATING; COMPLETED].
Proof.
  apply (project_delivery_gated ON_HOLD [ACTIVE; INTEGRATING; EVALUATING; COMPLETED]);
    [apply check_route_ok; by vm_compute|discriminate|reflexivity].
Defined.
