(* ===== verification/PlanTransitions.v ===== *)
(** * PlanTransitions

    The durable plan's lifecycle of [core/plan_transitions.py] and
    [core/plan_enums.py]. *)

From stdpp Require Import gmap strings list sorting relations.
From S2P Require Import Prelude StateMachine.

Module PlanStatus.

Inductive PlanStatus :=
| PLANNING | DRAFT | PENDING_REVIEW | APPROVED | SKELETON | EXECUTING |
INTEGRATING | EVALUATING | COMPLETED | REJECTED | SUPERSEDED | FAILED.

#[export] Instance plan_status_eq_dec : EqDecision PlanStatus.
Proof. solve_decision. Defined.

Definition members : list PlanStatus :=
  [PLANNING; DRAFT; PENDING_REVIEW; APPROVED; SKELETON; EXECUTING; INTEGRATING;
   EVALUATING; COMPLETED; REJECTED; SUPERSEDED; FAILED].

Lemma plan_status_members_all s : s ∈ members.
Proof. revert s. enum_elem. Qed.

#[export] Instance plan_status_countable : Countable PlanStatus :=
  enum_countable members plan_status_members_all.

Definition plan_status_value (s : PlanStatus) : string :=
  match s with
  | PLANNING => "planning"
  | DRAFT => "draft"
  | PENDING_REVIEW => "pending_review"
  | APPROVED => "approved"
  | SKELETON => "skeleton"
  | EXECUTING => "executing"
  | INTEGRATING => "integrating"
  | EVALUATING => "evaluating"
  | COMPLETED => "completed"
  | REJECTED => "rejected"
  | SUPERSEDED => "superseded"
  | FAILED => "failed"
  end.

#[export] Instance plan_status_value_inj : Inj (=) (=) plan_status_value.
Proof. intros [] []; simpl; congruence. Qed.

#[export] Instance plan_status_enum : StateEnum PlanStatus := {|
  value := plan_status_value;
  all_members := members;
  all_members_spec := plan_status_members_all;
|}.

End PlanStatus.
Export (hints) PlanStatus.
Import PlanStatus.

Definition REWORKABLE_STATUSES : gset PlanStatus := list_to_set [DRAFT; PENDING_REVIEW].

Definition TERMINAL_STATUSES : gset PlanStatus :=
  list_to_set [COMPLETED; REJECTED; SUPERSEDED; FAILED].

Definition TAIL_STATUSES : gset PlanStatus := list_to_set [INTEGRATING; EVALUATING].

Definition ITEMLESS_STATUSES : gset PlanStatus := list_to_set [PLANNING; FAILED].

Definition VALID_TRANSITIONS : list (PlanStatus * list PlanStatus) := [
  (PLANNING, [DRAFT; PENDING_REVIEW; SUPERSEDED; FAILED]);
  (DRAFT, [PENDING_REVIEW; SUPERSEDED; FAILED]);
  (PENDING_REVIEW, [DRAFT; APPROVED; REJECTED; SUPERSEDED; FAILED]);
  (APPROVED, [SKELETON; SUPERSEDED; FAILED]);
  (SKELETON, [EXECUTING; SUPERSEDED; FAILED]);
  (EXECUTING, [INTEGRATING; SUPERSEDED; FAILED]);
  (INTEGRATING, [EVALUATING; EXECUTING; SUPERSEDED; FAILED]);
  (EVALUATING, [COMPLETED; EXECUTING; SUPERSEDED; FAILED]);
  (COMPLETED, []);
  (REJECTED, []);
  (SUPERSEDED, []);
  (FAILED, [])].

Definition _UNCONDITIONAL_TARGETS : list PlanStatus := [FAILED; REJECTED].

Definition build_machine : result (string * list string) StateMachine :=
  new_machine VALID_TRANSITIONS "plan_status" (Some members) (Some "plan status"%string)
    (Some {| unconditional_targets := _UNCONDITIONAL_TARGETS; no_transit_states := [] |}).

Lemma plan_build_machine_ok : is_ok build_machine = true.
Proof. by vm_compute. Qed.

Definition _MACHINE : StateMachine := unwrap build_machine plan_build_machine_ok.

Lemma plan_machine_ok : machine_wf _MACHINE.
Proof. eapply new_machine_wf, (unwrap_ok build_machine plan_build_machine_ok). Qed.

Definition validate_transition (current target : PlanStatus) : result transition_error unit :=
  validate _MACHINE current target.

(** [COMPLETED] is never walked to: the evaluate stage writes it. *)
Definition transition_path (current target : PlanStatus) : option (list PlanStatus) :=
  if decide (target = COMPLETED) then None else path_to _MACHINE current target.

(** The table's terminal states are the declared ones, and every status can
    be failed or rejected out of. *)
Lemma terminal_statuses_spec s :
  is_terminal _MACHINE s = bool_decide (s ∈ TERMINAL_STATUSES).
Proof. destruct s; by vm_compute. Qed.

Lemma plan_every_status_has_exit s : unconditional_exit_reachable _MACHINE s = true.
Proof. destruct s; by vm_compute. Qed.

(** ** Claims *)

(** The statuses at or past dispatch. *)
Definition dispatched : list PlanStatus := [SKELETON; EXECUTING; INTEGRATING; EVALUATING; COMPLETED].

(** Nothing is built before the contract is code, and nothing is delivered
    before it is evaluated: a route from any status before dispatch into
    [EXECUTING] (or anything past it) passes [APPROVED] (unless it starts
    there) and [SKELETON], and a route into [COMPLETED] ends
    [EVALUATING], [COMPLETED]. *)
Theorem plan_dispatch_gated (x z : PlanStatus) (p : list PlanStatus) :
  route _MACHINE x p z ->
  (x ∉ dispatched -> z ∈ [EXECUTING; INTEGRATING; EVALUATING; COMPLETED] ->
     SKELETON ∈ p /\ (x = APPROVED \/ APPROVED ∈ p)) /\
  (z = COMPLETED -> x <> COMPLETED -> exists q, x :: p = q ++ [EVALUATING; COMPLETED]).
Proof.
  intros Hr. split.
  - intros Hx Hz. split.
    + by eapply (route_through _MACHINE (fun y => y ∉ dispatched)), Hr; [vm_compute|done|set_solver].
    + destruct (decide (x = APPROVED)) as [|Ha]; [by left|right].
      by eapply (route_through _MACHINE (fun y => y ∉ APPROVED :: dispatched)), Hr;
        [vm_compute|set_solver|set_solver].
  - intros -> Hne. by eapply route_ends_through, Hne; [|done]; vm_compute.
Qed.

Lemma plan_dispatch_gated_witness : SKELETON ∈ [PENDING_REVIEW; APPROVED; SKELETON; EXECUTING].
Proof.
  apply (plan_dispatch_gated DRAFT EXECUTING [PENDING_REVIEW; APPROVED; SKELETON; EXECUTING]);
    [apply check_route_ok; by vm_compute|by apply (bool_decide_unpack _)|repeat constructor].
Defined.
