(* ===== verification/Kanban.v ===== *)
(** * Kanban

    The Kanban board of [engine/workflow/kanban_columns.py] (columns, their
    transitions, the bridge to the task lifecycle) and
    [engine/workflow/kanban_board.py] (WIP limits). *)

From stdpp Require Import gmap strings list sorting relations.
From Stdlib Require Import ZArith Lia.
From S2P Require Import Prelude StateMachine TaskEnums TaskTransitions.

Module KanbanColumn.

Inductive KanbanColumn :=
| BACKLOG | READY | IN_PROGRESS | REVIEW | DONE.

#[export] Instance kanban_column_eq_dec : EqDecision KanbanColumn.
Proof. solve_decision. Defined.

Definition members : list KanbanColumn :=
  [BACKLOG; READY; IN_PROGRESS; REVIEW; DONE].

Lemma kanban_column_members_all s : s ∈ members.
Proof. revert s. enum_elem. Qed.

#[export] Instance kanban_column_countable : Countable KanbanColumn :=
  enum_countable members kanban_column_members_all.

Definition kanban_column_value (s : KanbanColumn) : string :=
  match s with
  | BACKLOG => "backlog"
  | READY => "ready"
  | IN_PROGRESS => "in_progress"
  | REVIEW => "review"
  | DONE => "done"
  end.

#[export] Instance kanban_column_value_inj : Inj (=) (=) kanban_column_value.
Proof. intros [] []; simpl; congruence. Qed.

#[export] Instance kanban_column_enum : StateEnum KanbanColumn := {|
  value := kanban_column_value;
  all_members := members;
  all_members_spec := kanban_column_members_all;
|}.

End KanbanColumn.
Export (hints) KanbanColumn.
Import KanbanColumn.
Local Open Scope py_scope.

(** ** The column/status bridge *)

Definition COLUMN_TO_STATUSES : gmap KanbanColumn (gset TaskStatus.TaskStatus) := list_to_map [
  (BACKLOG, {[TaskStatus.CREATED]});
  (READY, {[TaskStatus.ASSIGNED]});
  (IN_PROGRESS, {[TaskStatus.IN_PROGRESS]});
  (REVIEW, {[TaskStatus.IN_REVIEW]});
  (DONE, {[TaskStatus.COMPLETED]})].

Definition STATUS_TO_COLUMN : gmap TaskStatus.TaskStatus (option KanbanColumn) := list_to_map [
  (TaskStatus.CREATED, Some BACKLOG);
  (TaskStatus.ASSIGNED, Some READY);
  (TaskStatus.IN_PROGRESS, Some IN_PROGRESS);
  (TaskStatus.IN_REVIEW, Some REVIEW);
  (TaskStatus.COMPLETED, Some DONE);
  (TaskStatus.BLOCKED, None);
  (TaskStatus.FAILED, None);
  (TaskStatus.INTERRUPTED, None);
  (TaskStatus.SUSPENDED, None);
  (TaskStatus.CANCELLED, None);
  (TaskStatus.REJECTED, None);
  (TaskStatus.AUTH_REQUIRED, None);
  (TaskStatus.AWAITING_INPUT, None)].

(** The import-time guards: both tables cover their enumeration, and every
    on-board status is listed by the column it maps to. *)
Definition missing_columns : gset KanbanColumn := list_to_set members ∖ dom COLUMN_TO_STATUSES.

Definition missing_statuses : gset TaskStatus.TaskStatus :=
  list_to_set TaskStatus.members ∖ dom STATUS_TO_COLUMN.

Definition _validate_status_column_consistency : result (TaskStatus.TaskStatus * KanbanColumn) unit :=
  foldr (fun '(status, column) rest =>
    match column with
    | Some c =>
        if decide (status ∈ default ∅ (COLUMN_TO_STATUSES !! c)) then rest
        else Err (status, c)
    | None => rest
    end) (Ok tt) (map_to_list STATUS_TO_COLUMN).

(** ** Column transitions *)

Definition VALID_COLUMN_TRANSITIONS : list (KanbanColumn * list KanbanColumn) := [
  (BACKLOG, [READY; DONE]);
  (READY, [IN_PROGRESS; BACKLOG]);
  (IN_PROGRESS, [REVIEW; BACKLOG; READY]);
  (REVIEW, [DONE; IN_PROGRESS]);
  (DONE, [])].

Definition build_machine : result (string * list string) StateMachine :=
  new_machine VALID_COLUMN_TRANSITIONS "kanban_column" (Some members)
    (Some "Kanban column"%string) None.

Lemma column_build_machine_ok : is_ok build_machine = true.
Proof. by vm_compute. Qed.

Definition _COLUMN_MACHINE : StateMachine := unwrap build_machine column_build_machine_ok.

Lemma column_machine_ok : machine_wf _COLUMN_MACHINE.
Proof. eapply new_machine_wf, (unwrap_ok build_machine column_build_machine_ok). Qed.

(** The statuses a task passes through for each column move. *)
Definition _COLUMN_MOVE_STATUS_PATH :
    gmap (KanbanColumn * KanbanColumn) (list TaskStatus.TaskStatus) := list_to_map [
  ((BACKLOG, READY), [TaskStatus.ASSIGNED]);
  ((BACKLOG, DONE), [TaskStatus.ASSIGNED; TaskStatus.IN_PROGRESS; TaskStatus.IN_REVIEW;
                     TaskStatus.COMPLETED]);
  ((READY, IN_PROGRESS), [TaskStatus.IN_PROGRESS]);
  ((READY, BACKLOG), [TaskStatus.BLOCKED; TaskStatus.ASSIGNED; TaskStatus.BLOCKED]);
  ((IN_PROGRESS, REVIEW), [TaskStatus.IN_REVIEW]);
  ((IN_PROGRESS, BACKLOG), [TaskStatus.BLOCKED; TaskStatus.ASSIGNED; TaskStatus.BLOCKED]);
  ((IN_PROGRESS, READY), [TaskStatus.BLOCKED; TaskStatus.ASSIGNED]);
  ((REVIEW, DONE), [TaskStatus.COMPLETED]);
  ((REVIEW, IN_PROGRESS), [TaskStatus.IN_PROGRESS])].

(** The import-time guard: the first column move with no status path. *)
Definition _validate_status_path_coverage : result (KanbanColumn * KanbanColumn) unit :=
  foldr (fun '(from_col, targets) rest =>
    foldr (fun to_col rest =>
      match _COLUMN_MOVE_STATUS_PATH !! (from_col, to_col) with
      | Some _ => rest
      | None => Err (from_col, to_col)
      end) rest targets) (Ok tt) VALID_COLUMN_TRANSITIONS.

Definition validate_column_transition (current target : KanbanColumn)
    : result transition_error unit :=
  validate _COLUMN_MACHINE current target.

Definition resolve_task_transitions (from_column to_column : KanbanColumn)
    : result (KanbanColumn * KanbanColumn) (list TaskStatus.TaskStatus) :=
  match _COLUMN_MOVE_STATUS_PATH !! (from_column, to_column) with
  | Some path => Ok path
  | None => Err (from_column, to_column)
  end.

Lemma import_guards_hold :
  missing_columns = ∅ /\ missing_statuses = ∅ /\
  _validate_status_column_consistency = Ok tt /\ _validate_status_path_coverage = Ok tt.
Proof. split_and!; by vm_compute. Qed.

(** ** WIP limits *)

Record KanbanWipLimit := { wl_column : KanbanColumn; wl_limit : Z }.

Record WipCheckResult := {
  allowed : bool;
  wr_column : KanbanColumn;
  current_count : Z;
  wr_limit : option Z;
}.

Record KanbanConfig := { wip_limits : list KanbanWipLimit; enforce_wip : bool }.

Inductive config_error :=
| LimitOutOfRange (limit : Z)
| DuplicateColumns (dupes : list string)
| DoneLimit.

(** [Field(ge=1, le=100)] on each limit, then the two model validators in
    declaration order. *)
Definition validate_limit (wl : KanbanWipLimit) : bool :=
  ((1 <=? wl_limit wl) && (wl_limit wl <=? 100))%Z.

Definition _validate_no_duplicate_columns (c : KanbanConfig) : result config_error unit :=
  let columns := wl_column <$> wip_limits c in
  ensure bool_decide (length columns = size (list_to_set (C:=gset KanbanColumn) columns))
    else DuplicateColumns (sort_str (kanban_column_value <$>
           filter (fun col => 1 < length (filter (.= col) columns)) (remove_dups columns))) in
  Ok tt.

Fixpoint _validate_no_done_limit (wls : list KanbanWipLimit) : result config_error unit :=
  match wls with
  | [] => Ok tt
  | wl :: wls => if decide (wl_column wl = DONE) then Err DoneLimit else _validate_no_done_limit wls
  end.

Definition validate_config (c : KanbanConfig) : result config_error unit :=
  match filter (fun wl => validate_limit wl = false) (wip_limits c) with
  | wl :: _ => Err (LimitOutOfRange (wl_limit wl))
  | [] => let* _ := _validate_no_duplicate_columns c in _validate_no_done_limit (wip_limits c)
  end.

Definition default_config : KanbanConfig := {|
  wip_limits := [{| wl_column := IN_PROGRESS; wl_limit := 5 |};
                 {| wl_column := REVIEW; wl_limit := 3 |}];
  enforce_wip := true;
|}.

Fixpoint _find_column_limit (wls : list KanbanWipLimit) (column : KanbanColumn) : option Z :=
  match wls with
  | [] => None
  | wl :: wls =>
      if decide (wl_column wl = column) then Some (wl_limit wl) else _find_column_limit wls column
  end.

Definition check_wip_limit (config : KanbanConfig) (target_column : KanbanColumn)
    (current_counts : gmap KanbanColumn Z) : WipCheckResult :=
  let current := default 0%Z (current_counts !! target_column) in
  match _find_column_limit (wip_limits config) target_column with
  | None => {| allowed := true; wr_column := target_column;
               current_count := current; wr_limit := None |}
  | Some limit =>
      let new_count := (current + 1)%Z in
      if ((limit <? new_count)%Z && enforce_wip config)%bool
      then {| allowed := false; wr_column := target_column;
              current_count := current; wr_limit := Some limit |}
      else {| allowed := true; wr_column := target_column;
              current_count := current; wr_limit := Some limit |}
  end.

Lemma find_column_limit_in wls c l :
  _find_column_limit wls c = Some l -> exists wl, wl ∈ wls /\ wl_column wl = c /\ wl_limit wl = l.
Proof.
  induction wls as [|wl wls IH]; [done|]. simpl. case_decide as Hd; intros H; inv_result.
  - exists wl. set_solver.
  - destruct (IH H) as (wl' & ? & ?). exists wl'. set_solver.
Qed.

Lemma no_done_limit wls : _validate_no_done_limit wls = Ok tt -> _find_column_limit wls DONE = None.
Proof. induction wls as [|wl wls IH]; simpl; [done|]. case_decide; naive_solver. Qed.

(** A board and the moves the check lets through. *)
Definition move_into (config : KanbanConfig) (counts : gmap KanbanColumn Z) (c : KanbanColumn)
    : gmap KanbanColumn Z :=
  if allowed (check_wip_limit config c counts)
  then <[c := (default 0 (counts !! c) + 1)%Z]> counts else counts.

Definition within_limits (config : KanbanConfig) (counts : gmap KanbanColumn Z) : Prop :=
  forall c l, _find_column_limit (wip_limits config) c = Some l ->
    (default 0 (counts !! c) <= l)%Z.

(** ** Claims *)

(** The status a column move starts from. *)
Definition column_status (c : KanbanColumn) : TaskStatus.TaskStatus :=
  match c with
  | BACKLOG => TaskStatus.CREATED
  | READY => TaskStatus.ASSIGNED
  | IN_PROGRESS => TaskStatus.IN_PROGRESS
  | REVIEW => TaskStatus.IN_REVIEW
  | DONE => TaskStatus.COMPLETED
  end.

(** Every hop of a status path accepted in turn. *)
Fixpoint replay (s : TaskStatus.TaskStatus) (path : list TaskStatus.TaskStatus)
    : result transition_error TaskStatus.TaskStatus :=
  match path with
  | [] => Ok s
  | s' :: path => let* _ := validate_transition s s' in replay s' path
  end.

(** Every column move the board accepts resolves to a status path whose
    hops the task lifecycle accepts one after the other, starting from a status
    of the source column; the task lands on a status of the target column,
    except that a move to [BACKLOG] parks it off the board at [BLOCKED]. *)
Theorem column_moves_replay (from_column to_column : KanbanColumn) :
  validate_column_transition from_column to_column = Ok tt ->
  exists path final, resolve_task_transitions from_column to_column = Ok path /\
    column_status from_column ∈ default ∅ (COLUMN_TO_STATUSES !! from_column) /\
    replay (column_status from_column) path = Ok final /\
    (if decide (to_column = BACKLOG)
     then final = TaskStatus.BLOCKED /\ STATUS_TO_COLUMN !! final = Some None
     else STATUS_TO_COLUMN !! final = Some (Some to_column)).
Proof.
  intros Hv. destruct from_column, to_column; vm_compute in Hv; try discriminate Hv;
    eexists _, _; (split; [by vm_compute|]); (split; [by apply (bool_decide_unpack _)|]);
    (split; [by vm_compute|]); by vm_compute.
Qed.

Lemma column_moves_replay_witness :
  exists path final, resolve_task_transitions BACKLOG DONE = Ok path /\
    column_status BACKLOG ∈ default ∅ (COLUMN_TO_STATUSES !! BACKLOG) /\
    replay (column_status BACKLOG) path = Ok final /\
    (if decide (DONE = BACKLOG)
     then final = TaskStatus.BLOCKED /\ STATUS_TO_COLUMN !! final = Some None
     else STATUS_TO_COLUMN !! final = Some (Some DONE)).
Proof. apply (column_moves_replay BACKLOG DONE). by vm_compute. Defined.

(** Under enforcement the WIP check keeps every limited column within its
    limit whatever sequence of moves is attempted, an unlimited column is never
    refused, and a refusal happens exactly when the column is already full. *)
Theorem wip_limit_enforced (config : KanbanConfig) (counts : gmap KanbanColumn Z)
    (moves : list KanbanColumn) :
  enforce_wip config = true -> within_limits config counts ->
  within_limits config (foldl (move_into config) counts moves) /\
  forall c, allowed (check_wip_limit config c counts) = false <->
    exists l, _find_column_limit (wip_limits config) c = Some l /\
      (l <= default 0 (counts !! c))%Z.
Proof.
  intros Hen Hin. split.
  - revert counts Hin. induction moves as [|c moves IH]; intros counts Hin; [done|].
    simpl. apply IH. intros c' l Hl. specialize (Hin c' l Hl).
    unfold move_into, check_wip_limit. destruct (decide (c = c')) as [->|Hne].
    + rewrite Hl, Hen. destruct (Z.ltb_spec l (default 0%Z (counts !! c') + 1)%Z); simpl; [done|].
      rewrite lookup_insert_eq. simpl. lia.
    + case_match; [|done]. by rewrite lookup_insert_ne.
  - intros c. unfold check_wip_limit. rewrite Hen.
    destruct (_find_column_limit (wip_limits config) c) as [l|]; simpl; [|naive_solver].
    destruct (Z.ltb_spec l (default 0%Z (counts !! c) + 1)%Z); simpl.
    + split; [|done]. intros _. exists l. split; [done|lia].
    + split; [done|]. intros (l' & [= <-] & ?). lia.
Qed.

Lemma wip_limit_enforced_witness :
  within_limits default_config (foldl (move_into default_config) ∅ [REVIEW; REVIEW; REVIEW; REVIEW]).
Proof.
  apply (wip_limit_enforced default_config ∅); [reflexivity|].
  intros c l Hl. destruct c; vm_compute in Hl; try discriminate Hl; injection Hl as <-; by vm_compute.
Defined.
