(* ===== verification/Graphs.v ===== *)
(** * Graphs

    Acyclicity of a finite graph given by adjacency lists, and the two ways an
    algorithm witnesses it: an order that puts every target before its source,
    and a nonempty set every member of which has a target inside the set. The
    cycle checks of the decomposition graph, of a plan's dependency and
    containment graphs and of the workflow graphs are all judged against
    [acyclic]. *)

From stdpp Require Import gmap strings list sorting relations.
From Stdlib Require Import Lia.
From S2P Require Import Prelude.

Section Graph.
Context {A : Type} `{Countable A}.
Implicit Types (adj : A -> list A) (x y : A) (l : list A) (X : gset A).

Definition edge adj : relation A := fun x y => y ∈ adj x.

(** No node reaches itself through at least one edge. *)
Definition acyclic adj : Prop := forall x, ~ tc (edge adj) x x.

(** Every target of a listed node is listed before it. *)
Definition ordered adj l : Prop :=
  forall l1 x l2, l = l1 ++ x :: l2 -> forall y, y ∈ adj x -> y ∈ l1.

Lemma ordered_nil adj : ordered adj [].
Proof. intros [] ? ? ?; discriminate. Qed.

Lemma ordered_snoc adj l x :
  ordered adj (l ++ [x]) <-> ordered adj l /\ (forall y, y ∈ adj x -> y ∈ l).
Proof.
  split.
  - intros Ho. split; [|by apply (Ho l x [])].
    intros l1 y l2 -> z Hz. apply (Ho l1 y (l2 ++ [x])); [|done].
    by rewrite <-app_assoc.
  - intros [Ho Hx] l1 y l2 Heq z Hz.
    destruct l2 as [|w l2 _] using rev_ind.
    + apply app_inj_tail in Heq as [-> ->]. by apply Hx.
    + rewrite app_comm_cons, app_assoc in Heq. apply app_inj_tail in Heq as [-> ->].
      by apply (Ho l1 y l2).
Qed.

Lemma ordered_app_l adj l1 l2 : ordered adj (l1 ++ l2) -> ordered adj l1.
Proof.
  induction l2 as [|x l2 IH] using rev_ind; [by rewrite app_nil_r|].
  rewrite app_assoc, ordered_snoc. naive_solver.
Qed.

Lemma ordered_elem adj l x y : ordered adj l -> x ∈ l -> y ∈ adj x -> y ∈ l.
Proof. intros Ho (l1 & l2 & ->)%list_elem_of_split Hy. set_unfold. left. by eapply Ho. Qed.

(** The position of a node in an order decreases along its edges. *)
Lemma index_of_app_l x l1 l2 : x ∈ l1 -> index_of x (l1 ++ l2) = index_of x l1.
Proof.
  induction l1 as [|y l1 IH]; [by intros ?%not_elem_of_nil|].
  simpl. case_decide; [done|]. intros [?|?]%elem_of_cons; [done|]. by rewrite IH.
Qed.

Lemma index_of_lt x l : x ∈ l -> index_of x l < length l.
Proof.
  induction l as [|y l IH]; [by intros ?%not_elem_of_nil|].
  simpl. case_decide; [lia|]. intros [?|Hin]%elem_of_cons; [done|]. apply IH in Hin. lia.
Qed.

Lemma index_of_fresh x l1 l2 : x ∉ l1 -> index_of x (l1 ++ x :: l2) = length l1.
Proof.
  induction l1 as [|y l1 IH]; simpl; [by rewrite decide_True|].
  intros [? ?]%not_elem_of_cons. rewrite decide_False by done. by rewrite IH.
Qed.

Lemma ordered_index adj l x y :
  NoDup l -> ordered adj l -> x ∈ l -> y ∈ adj x -> index_of y l < index_of x l.
Proof.
  intros Hnd Ho (l1 & l2 & ->)%list_elem_of_split Hy.
  apply NoDup_app in Hnd as (_ & Hdis & _).
  rewrite index_of_fresh by (intros Hin; apply (Hdis x Hin); set_solver).
  assert (y ∈ l1) as Hin by by eapply Ho.
  rewrite index_of_app_l by done. by apply index_of_lt.
Qed.

(** A rank that decreases along the edges rules cycles out. *)
Lemma ranked_acyclic adj (rank : A -> nat) :
  (forall x y, y ∈ adj x -> rank y < rank x) -> acyclic adj.
Proof.
  intros Hr. enough (forall x y, tc (edge adj) x y -> rank y < rank x) as Ht.
  { intros x Hx. apply Ht in Hx. lia. }
  induction 1 as [x y Hxy|x y z Hxy _ IH]; [by apply Hr|].
  apply Hr in Hxy. lia.
Qed.

Lemma ordered_acyclic adj l :
  NoDup l -> ordered adj l -> (forall x y, y ∈ adj x -> x ∈ l) -> acyclic adj.
Proof.
  intros Hnd Ho Hsrc. apply (ranked_acyclic adj (fun x => index_of x l)).
  intros x y Hy. apply (ordered_index adj); eauto.
Qed.

(** A nonempty finite set whose members all have a target inside it holds a
    cycle. *)
Definition trap adj X : Prop := X <> ∅ /\ forall x, x ∈ X -> exists y, y ∈ X /\ y ∈ adj x.

Lemma acyclic_no_trap adj X : acyclic adj -> ~ trap adj X.
Proof.
  intros Hac [Hne Htrap].
  set (R := fun x y => y ∈ X /\ edge adj x y).
  assert (Irreflexive (tc R)) as Hirr.
  { intros x Hx. apply (Hac x). revert Hx. generalize x at 1 3.
    intros y. induction 1 as [? ? []|? ? ? []]; [by apply tc_once|by eapply tc_l]. }
  assert (forall x, pred_finite (tc R x)) as Hfin.
  { intros x. exists (elements X). intros y Hy. apply elem_of_elements.
    induction Hy as [? ? []|]; done. }
  assert (forall x, sn R x -> x ∉ X) as Hsn.
  { induction 1 as [x _ IH]. intros Hx.
    destruct (Htrap x Hx) as (y & Hy & Hxy).
    by apply (IH y). }
  apply set_choose_L in Hne as [x Hx].
  apply (Hsn x); [|done]. by apply tc_finite_sn.
Qed.

(** Cycles only depend on the edges. *)
Lemma acyclic_sub adj adj' :
  (forall x y, y ∈ adj x -> y ∈ adj' x) -> acyclic adj' -> acyclic adj.
Proof.
  intros Hsub Hac x Hx. apply (Hac x). revert Hx. generalize x at 1 3.
  intros y. induction 1; [by apply tc_once, Hsub|by eapply tc_l; [apply Hsub|]].
Qed.

(** Nor on the direction of the edges. *)
Lemma acyclic_flip adj adj' :
  acyclic adj -> (forall x y, y ∈ adj' x <-> x ∈ adj y) -> acyclic adj'.
Proof.
  intros Hac Hflip. enough (forall x y, tc (edge adj') x y -> tc (edge adj) y x) as Ht.
  { intros x Hx. by apply (Hac x), Ht. }
  induction 1 as [x y Hxy|x y z Hxy _ IH]; [by apply tc_once, Hflip|].
  eapply tc_r; [done|by apply Hflip].
Qed.
End Graph.

(** ** Kahn's reduction on sets

    Repeatedly drop whatever has no target left; what survives is the largest
    set every member of which has a target inside it. *)
Section Reduction.
Context {A : Type} `{Countable A}.
Variable adj : A -> list A.
Implicit Types (X Y : gset A).

Definition survivors X : gset A := filter (fun x => Exists (fun y => y ∈ X) (adj x)) X.

Definition self_feeding X : Prop := forall x, x ∈ X -> exists y, y ∈ X /\ y ∈ adj x.

Lemma survivors_elem X x : x ∈ survivors X <-> x ∈ X /\ exists y, y ∈ adj x /\ y ∈ X.
Proof. unfold survivors. rewrite elem_of_filter, Exists_exists. naive_solver. Qed.

Lemma survivors_sub X : survivors X ⊆ X.
Proof. intros x. rewrite survivors_elem. naive_solver. Qed.

Lemma survivors_fix X : survivors X = X -> self_feeding X.
Proof. intros Heq x Hx. rewrite <-Heq, survivors_elem in Hx. naive_solver. Qed.

Lemma self_feeding_survives X Y : self_feeding Y -> Y ⊆ X -> Y ⊆ survivors X.
Proof. intros Hf Hsub x Hx. apply survivors_elem. destruct (Hf x Hx). set_solver. Qed.

(** The rounds of a reduction: [shrinks X R] when repeated rounds lead from [X]
    to a set no round changes. *)
Inductive shrinks : gset A -> gset A -> Prop :=
| shrinks_fix X : survivors X = X -> shrinks X X
| shrinks_round X R : survivors X <> X -> shrinks (survivors X) R -> shrinks X R.

Lemma shrinks_spec X R :
  shrinks X R ->
  R ⊆ X /\ self_feeding R /\ forall Y, self_feeding Y -> Y ⊆ X -> Y ⊆ R.
Proof.
  induction 1 as [X Hfix|X R Hne _ (Hsub & Hf & Hmax)].
  - split_and!; [done|by apply survivors_fix|done].
  - split_and!; [etrans; [done|apply survivors_sub]|done|].
    intros Y HY HYX. apply Hmax; [done|]. by apply self_feeding_survives.
Qed.

Lemma sn_no_cycle (R : relation A) x : sn R x -> ~ tc R x x.
Proof.
  induction 1 as [x _ IH]. intros Hx.
  assert (exists y, R x y /\ rtc R y x) as (y & Hxy & Hyx).
  { inversion Hx; subst; [exists x; split; [done|apply rtc_refl]|].
    eexists. split; [done|]. by apply tc_rtc. }
  apply (IH y Hxy). eapply tc_rtc_l; [exact Hyx|by apply tc_once].
Qed.

Lemma shrinks_sn X R :
  shrinks X R -> (forall x, x ∉ X -> sn (edge adj) x) -> forall x, x ∉ R -> sn (edge adj) x.
Proof.
  induction 1 as [X _|X R _ _ IH]; intros Hout x Hx; [by apply Hout|].
  apply IH; [|done]. intros y Hy. destruct (decide (y ∈ X)) as [Hyx|]; [|by apply Hout].
  constructor. simpl. intros z Hz. apply Hout. intros HzX. apply Hy.
  apply survivors_elem. split; [done|]. by exists z.
Qed.

(** Nothing survives exactly when the graph has no cycle. *)
Lemma shrinks_acyclic X R :
  shrinks X R -> (forall x y, y ∈ adj x -> x ∈ X) -> R = ∅ <-> acyclic adj.
Proof.
  intros HR Hsrc. split.
  - intros -> x. apply sn_no_cycle. eapply shrinks_sn; [exact HR| |set_solver].
    intros y Hy. constructor. simpl. intros z Hz. by destruct Hy; eapply Hsrc.
  - intros Hac. destruct (decide (R = ∅)) as [|Hne]; [done|].
    exfalso. eapply (acyclic_no_trap adj R); [done|]. split; [done|].
    by apply (shrinks_spec X R HR).
Qed.

Lemma survivors_smaller X : survivors X <> X -> size (survivors X) < size X.
Proof.
  intros Hne. apply subset_size. split; [apply survivors_sub|]. intros Hsub. apply Hne.
  apply set_eq. pose proof (survivors_sub X). set_solver.
Qed.
End Reduction.

Lemma ordered_app {A} `{Countable A} (adj : A -> list A) l1 l2 :
  ordered adj l1 -> ordered adj l2 -> ordered adj (l1 ++ l2).
Proof.
  intros H1 H2. induction l2 as [|x l2 IH] using rev_ind; [by rewrite app_nil_r|].
  apply ordered_snoc in H2 as [H2 Hx]. rewrite app_assoc. apply ordered_snoc.
  split; [by apply IH|]. intros y Hy. apply elem_of_app. right. by apply Hx.
Qed.
