(* ===== verification/PlanUnits.v ===== *)
(** * PlanUnits

    The unit of a plan and the invariants every boundary enforces on it:
    [core/plan_enums.py] (item kind), [core/plan.py] (decision options),
    [core/plan_validation.py] (option, deliverable and ordering rules, the
    dependency closure) and the construction-time validators of
    [engine/decomposition/models.py] ([SubtaskDefinition] and
    [DecompositionPlan]). *)

From stdpp Require Import gmap strings list sorting relations.
From Stdlib Require Import Lia.
From S2P Require Import Prelude TaskEnums Graphs.

Module PlanItemKind.

Inductive PlanItemKind :=
| WORK | DECISION.

#[export] Instance plan_item_kind_eq_dec : EqDecision PlanItemKind.
Proof. solve_decision. Defined.

Definition members : list PlanItemKind :=
  [WORK; DECISION].

Lemma plan_item_kind_members_all s : s ∈ members.
Proof. revert s. enum_elem. Qed.

#[export] Instance plan_item_kind_countable : Countable PlanItemKind :=
  enum_countable members plan_item_kind_members_all.

Definition plan_item_kind_value (s : PlanItemKind) : string :=
  match s with
  | WORK => "work"
  | DECISION => "decision"
  end.

#[export] Instance plan_item_kind_value_inj : Inj (=) (=) plan_item_kind_value.
Proof. intros [] []; simpl; congruence. Qed.

End PlanItemKind.
Export (hints) PlanItemKind.

Module TaskStructure.

Inductive TaskStructure :=
| AUTO | SEQUENTIAL | PARALLEL | MIXED.

#[export] Instance task_structure_eq_dec : EqDecision TaskStructure.
Proof. solve_decision. Defined.

Definition members : list TaskStructure :=
  [AUTO; SEQUENTIAL; PARALLEL; MIXED].

Lemma task_structure_members_all s : s ∈ members.
Proof. revert s. enum_elem. Qed.

#[export] Instance task_structure_countable : Countable TaskStructure :=
  enum_countable members task_structure_members_all.

Definition task_structure_value (s : TaskStructure) : string :=
  match s with
  | AUTO => "auto"
  | SEQUENTIAL => "sequential"
  | PARALLEL => "parallel"
  | MIXED => "mixed"
  end.

#[export] Instance task_structure_value_inj : Inj (=) (=) task_structure_value.
Proof. intros [] []; simpl; congruence. Qed.

End TaskStructure.
Export (hints) TaskStructure.

Module Complexity.

Inductive Complexity :=
| SIMPLE | MEDIUM | COMPLEX | EPIC.

#[export] Instance complexity_eq_dec : EqDecision Complexity.
Proof. solve_decision. Defined.

Definition members : list Complexity :=
  [SIMPLE; MEDIUM; COMPLEX; EPIC].

Lemma complexity_members_all s : s ∈ members.
Proof. revert s. enum_elem. Qed.

#[export] Instance complexity_countable : Countable Complexity :=
  enum_countable members complexity_members_all.

Definition complexity_value (s : Complexity) : string :=
  match s with
  | SIMPLE => "simple"
  | MEDIUM => "medium"
  | COMPLEX => "complex"
  | EPIC => "epic"
  end.

#[export] Instance complexity_value_inj : Inj (=) (=) complexity_value.
Proof. intros [] []; simpl; congruence. Qed.

End Complexity.
Export (hints) Complexity.

Module CoordinationTopology.

Inductive CoordinationTopology :=
| SAS | CENTRALIZED | DECENTRALIZED | CONTEXT_DEPENDENT | AUTO.

#[export] Instance coordination_topology_eq_dec : EqDecision CoordinationTopology.
Proof. solve_decision. Defined.

Definition members : list CoordinationTopology :=
  [SAS; CENTRALIZED; DECENTRALIZED; CONTEXT_DEPENDENT; AUTO].

Lemma coordination_topology_members_all s : s ∈ members.
Proof. revert s. enum_elem. Qed.

#[export] Instance coordination_topology_countable : Countable CoordinationTopology :=
  enum_countable members coordination_topology_members_all.

Definition coordination_topology_value (s : CoordinationTopology) : string :=
  match s with
  | SAS => "sas"
  | CENTRALIZED => "centralized"
  | DECENTRALIZED => "decentralized"
  | CONTEXT_DEPENDENT => "context_dependent"
  | AUTO => "auto"
  end.

#[export] Instance coordination_topology_value_inj : Inj (=) (=) coordination_topology_value.
Proof. intros [] []; simpl; congruence. Qed.

End CoordinationTopology.
Export (hints) CoordinationTopology.

Import PlanItemKind TaskStructure.
Local Open Scope py_scope.

(** ** Decision options *)

(** What the option invariants read off one option ([DecisionOption]). *)
Class DecisionOption (O : Type) := {
  option_id : O -> string;
  option_recommended : O -> bool;
}.

Record PlanOption := {
  opt_id : string;
  opt_title : string;
  opt_summary : string;
  opt_recommended : bool;
}.

#[export] Instance plan_option_eq_dec : EqDecision PlanOption.
Proof. solve_decision. Defined.

#[export] Instance plan_option_decision : DecisionOption PlanOption := {|
  option_id := opt_id;
  option_recommended := opt_recommended;
|}.

(** The [ValueError]s of the unit rules, with what their messages name. *)
Inductive UnitError :=
| WorkCarriesOptions (entity_id : string)
| TooFewOptions (entity_id : string)
| DuplicateOptionIds (entity_id : string)
| NotOneRecommended (entity_id : string)
| UnknownChosenOption (entity_id : string)
| WorkWithoutArtifact (entity_id : string)
| DecisionWithArtifact (entity_id : string)
| NoResolvableOption (entity_id : string).

#[export] Instance unit_error_eq_dec : EqDecision UnitError.
Proof. solve_decision. Defined.

Definition _MIN_DECISION_OPTIONS : nat := 2.

(** [len(xs) != len(set(xs))], negated. *)
Definition no_dupes (xs : list string) : bool :=
  bool_decide (length xs = size (list_to_set xs : gset string)).

Definition validate_decision_options {O} `{DecisionOption O} (entity_id : string)
    (kind : PlanItemKind) (options : list O) (chosen_option_id : option string)
    : result UnitError unit :=
  match kind with
  | WORK =>
      match options, chosen_option_id with
      | [], None => Ok tt
      | _, _ => Err (WorkCarriesOptions entity_id)
      end
  | DECISION =>
      let option_ids := option_id <$> options in
      ensure negb (length options <? _MIN_DECISION_OPTIONS)
        else TooFewOptions entity_id in
      ensure no_dupes option_ids else DuplicateOptionIds entity_id in
      ensure (length (filter (fun o => option_recommended o = true) options) =? 1)
        else NotOneRecommended entity_id in
      match chosen_option_id with
      | Some c => ensure bool_decide (c ∈ option_ids) else UnknownChosenOption entity_id in Ok tt
      | None => Ok tt
      end
  end.

Definition validate_expected_artifacts (entity_id : string) (kind : PlanItemKind)
    (expected_artifacts : list string) : result UnitError unit :=
  match kind with
  | WORK =>
      match expected_artifacts with
      | [] => Err (WorkWithoutArtifact entity_id)
      | _ => Ok tt
      end
  | DECISION =>
      match expected_artifacts with
      | [] => Ok tt
      | _ => Err (DecisionWithArtifact entity_id)
      end
  end.

(** ** Units *)

(** What the graph invariants read off one unit ([PlanUnit]). *)
Class PlanUnit (U : Type) := {
  unit_id : U -> string;
  unit_dependencies : U -> list string;
}.

Definition _MIN_ORDERED_UNITS : nat := 2.

Definition ORDERED_STRUCTURES : gset TaskStructure := {[SEQUENTIAL; MIXED]}.

(** The message of [describe_structureless_graph] with the number it quotes. *)
Inductive StructurelessGraph := structureless (n_units : nat).

Definition describe_structureless_graph {U} `{PlanUnit U} (declared_sequential : bool)
    (units : list U) : option StructurelessGraph :=
  if negb declared_sequential || (length units <? _MIN_ORDERED_UNITS) then None
  else if existsb (fun u => match unit_dependencies u with [] => false | _ => true end) units
  then None
  else Some (structureless (length units)).

(** The [while pending] loop: [pending.pop()] takes the last element, so the
    list is kept reversed; [None] when the fuel runs out. *)
Fixpoint closure_loop {U} `{PlanUnit U} (fuel : nat) (self : string)
    (by_id : gmap string U) (seen : gset string) (pending : list string)
    : option (gset string) :=
  match fuel with
  | 0 => None
  | S fuel =>
      match pending with
      | [] => Some seen
      | current :: pending =>
          if decide (current ∈ seen \/ current = self)
          then closure_loop fuel self by_id seen pending
          else
            let pending := match by_id !! current with
                           | Some upstream => rev (unit_dependencies upstream) ++ pending
                           | None => pending
                           end in
            closure_loop fuel self by_id ({[current]} ∪ seen) pending
      end
  end.

(** Every dependency of the map is pushed at most once. *)
Definition closure_fuel {U} `{PlanUnit U} (u : U) (by_id : gmap string U) : nat :=
  S (length (unit_dependencies u)
     + sum_list_with (fun kv => length (unit_dependencies kv.2)) (map_to_list by_id)).

Definition _dependency_closure {U} `{PlanUnit U} (u : U) (by_id : gmap string U) : gset string :=
  default ∅ (closure_loop (closure_fuel u by_id) (unit_id u) by_id ∅
               (rev (unit_dependencies u))).

(** ** Subtasks and decomposition plans *)

Record SubtaskDefinition := {
  sub_id : string;
  sub_title : string;
  sub_description : string;
  sub_dependencies : list string;
  sub_required_skills : list string;
  sub_required_tags : list string;
  sub_required_role : option string;
  sub_expected_artifacts : list string;
  sub_acceptance_criteria : list string;
  sub_satisfies : list string;
  sub_estimated_complexity : Complexity.Complexity;
  sub_stakes : Stakes.Stakes;
  sub_kind : PlanItemKind;
  sub_options : list PlanOption;
  sub_unsplit_reason : option string;
}.

#[export] Instance subtask_definition_eq_dec : EqDecision SubtaskDefinition.
Proof. solve_decision. Defined.

#[export] Instance subtask_plan_unit : PlanUnit SubtaskDefinition := {|
  unit_id := sub_id;
  unit_dependencies := sub_dependencies;
|}.

Inductive PlanError :=
| SelfDependency (id : string)
| InvalidUnit (e : UnitError)
| NoSubtasks
| DuplicateSubtaskIds (dupes : list string)
| UnknownDependencies (id : string) (missing : list string).

#[export] Instance plan_error_eq_dec : EqDecision PlanError.
Proof. solve_decision. Defined.

Definition lift_unit {A} (r : result UnitError A) : result PlanError A :=
  match r with Ok a => Ok a | Err e => Err (InvalidUnit e) end.

(** [SubtaskDefinition._validate_subtask]. *)
Definition _validate_subtask (s : SubtaskDefinition) : result PlanError unit :=
  ensure bool_decide (sub_id s ∉ sub_dependencies s) else SelfDependency (sub_id s) in
  lift_unit (validate_decision_options (sub_id s) (sub_kind s) (sub_options s) None).

Record DecompositionPlan := {
  dp_parent_task_id : string;
  dp_subtasks : list SubtaskDefinition;
  dp_task_structure : TaskStructure;
  dp_coordination_topology : CoordinationTopology.CoordinationTopology;
  dp_open_questions : list string;
  dp_assumptions : list string;
  dp_planning_strategy : option string;
}.

(** [sorted(i for i, c in Counter(ids).items() if c > 1)]. *)
Definition duplicates (ids : list string) : list string :=
  sort_str (remove_dups (filter (fun i => 1 < count i ids) ids)).

(** The [for subtask in self.subtasks] loop of [_validate_subtasks]. *)
Fixpoint check_subtasks (id_set : gset string) (ss : list SubtaskDefinition)
    : result PlanError unit :=
  match ss with
  | [] => Ok tt
  | s :: ss =>
      let missing := filter (fun d => d ∉ id_set) (sub_dependencies s) in
      match missing with
      | [] =>
          let* _ := lift_unit (validate_expected_artifacts (sub_id s) (sub_kind s)
                                 (sub_expected_artifacts s)) in
          check_subtasks id_set ss
      | _ => Err (UnknownDependencies (sub_id s) missing)
      end
  end.

(** [DecompositionPlan._validate_subtasks]. *)
Definition _validate_subtasks (p : DecompositionPlan) : result PlanError unit :=
  match dp_subtasks p with
  | [] => Err NoSubtasks
  | _ =>
      let ids := sub_id <$> dp_subtasks p in
      ensure no_dupes ids else DuplicateSubtaskIds (duplicates ids) in
      check_subtasks (list_to_set ids) (dp_subtasks p)
  end.

(** ** Lemmas *)

Lemma size_list_to_set_le (xs : list string) :
  size (list_to_set xs : gset string) <= length xs.
Proof.
  induction xs as [|x xs IH]; [done|]. simpl.
  rewrite union_comm_L. etrans; [apply size_union_singleton|lia].
Qed.

Lemma no_dupes_spec xs : no_dupes xs = true <-> NoDup xs.
Proof.
  unfold no_dupes. rewrite bool_decide_eq_true. split.
  - induction xs as [|x xs IH]; intros Hs; [constructor|]. simpl in Hs.
    pose proof (size_list_to_set_le xs) as Hle.
    destruct (decide (x ∈ xs)) as [Hx|Hx].
    + rewrite subseteq_union_1_L in Hs by set_solver. lia.
    + rewrite size_union, size_singleton in Hs by set_solver.
      constructor; [done|]. apply IH. lia.
  - intros Hnd. by rewrite size_list_to_set.
Qed.

Lemma duplicates_elem i ids : i ∈ duplicates ids <-> 1 < count i ids.
Proof.
  unfold duplicates. rewrite sort_str_perm, elem_of_remove_dups, list_elem_of_filter.
  split; [naive_solver|]. intros Hc. split; [done|]. apply count_pos. lia.
Qed.

Lemma count_NoDup {A} `{EqDecision A} (x : A) l : NoDup l -> count x l <= 1.
Proof.
  induction 1 as [|y l Hy _ IH]; [rewrite count_nil; lia|].
  rewrite count_cons. case_decide as Heq; [|lia]. subst y.
  apply count_zero in Hy. lia.
Qed.

Lemma duplicates_nil ids : duplicates ids = [] <-> NoDup ids.
Proof.
  split.
  - intros Hd. induction ids as [|i ids IH]; [constructor|].
    assert (Hi : forall x, ~ 1 < count x (i :: ids)).
    { intros x Hx%duplicates_elem. rewrite Hd in Hx. by apply not_elem_of_nil in Hx. }
    constructor.
    + intros Hin%count_pos. apply (Hi i). rewrite count_cons, decide_True by done. lia.
    + apply IH. destruct (duplicates ids) as [|x xs] eqn:Hx; [done|]. exfalso.
      assert (1 < count x ids) by (apply duplicates_elem; rewrite Hx; left).
      apply (Hi x). rewrite count_cons. lia.
  - intros Hnd. destruct (duplicates ids) as [|x xs] eqn:Hx; [done|]. exfalso.
    assert (1 < count x ids) as Hc by (apply duplicates_elem; rewrite Hx; left).
    pose proof (count_NoDup x ids Hnd). lia.
Qed.

(** What a unit known to the map waits for. *)
Definition waits {U} `{PlanUnit U} (by_id : gmap string U) (x : string) : list string :=
  from_option unit_dependencies [] (by_id !! x).

Section Closure.
Context {U : Type} `{PlanUnit U} (by_id : gmap string U) (self : string).

Let weight (seen : gset string) := unseen (fun v => length (unit_dependencies v)) (map_to_list by_id) seen.

(** The search ends with the smallest set that holds what [self] waits for and
    is closed under waiting, up to [self]. *)
Lemma closure_loop_ok fuel seen pending :
  self ∉ seen ->
  (forall y, y ∈ seen \/ y ∈ pending -> tc (edge (waits by_id)) self y) ->
  (forall y z, y ∈ seen \/ y = self -> z ∈ waits by_id y -> z ∈ seen \/ z ∈ pending \/ z = self) ->
  length pending + weight seen < fuel ->
  exists r, closure_loop fuel self by_id seen pending = Some r /\
    forall x, x ∈ r <-> x <> self /\ tc (edge (waits by_id)) self x.
Proof.
  revert seen pending. induction fuel as [|fuel IH]; intros seen pending Hself Hreach Hcl Hf; [lia|].
  destruct pending as [|current pending]; simpl.
  - exists seen. split; [done|]. intros x. split.
    { intros Hx. split; [by intros ->|]. apply Hreach. by left. }
    intros [Hne Hx]. enough (forall y, y ∈ seen \/ y = self -> tc (edge (waits by_id)) y x -> x ∈ seen)
      as Hgo by (apply (Hgo self); auto).
    clear Hx. intros y Hy Hx. induction Hx as [y x Hyx|y z x Hyz _ IHx].
    + destruct (Hcl y x Hy Hyx) as [?|[[]%not_elem_of_nil|?]]; done.
    + apply IHx; [done|]. destruct (Hcl y z Hy Hyz) as [?|[[]%not_elem_of_nil|?]]; auto.
  - simpl in Hf. case_decide as Hold.
    + apply IH; [done| | |lia].
      * intros y Hy. apply Hreach. set_solver.
      * intros y z Hy Hz. destruct (Hcl y z Hy Hz) as [?|[Hp|?]]; auto.
        apply elem_of_cons in Hp as [->|?]; [|auto]. destruct Hold; auto.
    + apply Decidable.not_or in Hold as [Hns Hnself].
      assert (Hcur : tc (edge (waits by_id)) self current) by (apply Hreach; set_solver).
      unfold weight in *. pose proof (unseen_mono (fun v => length (unit_dependencies v))
        (map_to_list by_id) seen current) as Hmono.
      assert (Hdeps : match by_id !! current with
                      | Some upstream => rev (unit_dependencies upstream) ++ pending
                      | None => pending
                      end = rev (waits by_id current) ++ pending).
      { unfold waits. by destruct (by_id !! current). }
      rewrite Hdeps. apply IH.
      * set_solver.
      * intros y [Hy|Hy].
        { apply elem_of_union in Hy as [->%elem_of_singleton|?]; [done|]. apply Hreach. auto. }
        apply elem_of_app in Hy as [Hy|?]; [|apply Hreach; set_solver].
        apply list_elem_of_In, in_rev, list_elem_of_In in Hy.
        by eapply tc_r.
      * intros y z Hy Hz. rewrite elem_of_union, elem_of_singleton, elem_of_app.
        rewrite list_elem_of_In, <-in_rev, <-list_elem_of_In.
        destruct (decide (y = current)) as [->|Hyc]; [auto|].
        destruct (Hcl y z) as [?|[Hp|?]]; [set_solver|done|auto..].
        apply elem_of_cons in Hp as [->|?]; auto.
      * rewrite length_app, length_rev. unfold waits.
        destruct (by_id !! current) as [v|] eqn:Hv; simpl; [|lia].
        pose proof (unseen_expand (fun v => length (unit_dependencies v))
          (map_to_list by_id) seen current v) as Hex.
        rewrite elem_of_map_to_list in Hex. specialize (Hex Hv Hns). lia.
Qed.
End Closure.

(** ** Properties *)

(** The transitive closure the gate scan reads off a unit is exactly the
    set of other ids reachable from it through declared dependencies; the
    worklist always finishes, whatever cycles the dependencies have. *)
Theorem dependency_closure_exact {U} `{PlanUnit U} (by_id : gmap string U) (u : U) x :
  by_id !! unit_id u = Some u ->
  x ∈ _dependency_closure u by_id <->
  x <> unit_id u /\ tc (edge (waits by_id)) (unit_id u) x.
Proof.
  intros Hu. assert (Hw : waits by_id (unit_id u) = unit_dependencies u).
  { unfold waits. by rewrite Hu. }
  unfold _dependency_closure, closure_fuel.
  destruct (closure_loop_ok by_id (unit_id u) (closure_fuel u by_id) ∅ (rev (unit_dependencies u)))
    as (r & Hr & Hspec); [set_solver| | | |].
  - intros y [?|Hy]; [set_solver|]. apply tc_once. unfold edge. rewrite Hw.
    by apply list_elem_of_In, in_rev, list_elem_of_In.
  - intros y z [?| ->] Hz; [set_solver|]. right; left. rewrite Hw in Hz.
    by rewrite list_elem_of_In, <-in_rev, <-list_elem_of_In.
  - unfold closure_fuel. rewrite length_rev.
    pose proof (unseen_le (fun v => length (unit_dependencies v)) (map_to_list by_id) ∅). lia.
  - unfold closure_fuel in Hr. rewrite Hr. simpl. apply Hspec.
Qed.

(** What the option rules promise of a unit. *)
Definition decision_shape {O} `{DecisionOption O} (kind : PlanItemKind) (options : list O)
    (chosen : option string) : Prop :=
  match kind with
  | WORK => options = [] /\ chosen = None
  | DECISION =>
      2 <= length options /\ NoDup (option_id <$> options) /\
      (exists l1 o l2, options = l1 ++ o :: l2 /\ option_recommended o = true /\
         forall o', o' ∈ l1 ++ l2 -> option_recommended o' = false) /\
      (forall c, chosen = Some c -> c ∈ option_id <$> options)
  end.

Lemma filter_one {A} (p : A -> bool) (l : list A) :
  length (filter (fun x => p x = true) l) = 1 <->
  exists l1 x l2, l = l1 ++ x :: l2 /\ p x = true /\ forall y, y ∈ l1 ++ l2 -> p y = false.
Proof.
  assert (Hnone : forall l, length (filter (fun x => p x = true) l) = 0 <->
                       forall y, y ∈ l -> p y = false).
  { intros l'. rewrite length_zero_iff_nil. split.
    - intros Hl y Hy. destruct (p y) eqn:Hp; [|done].
      assert (y ∈ filter (fun x => p x = true) l') as Hin by by apply list_elem_of_filter.
      rewrite Hl in Hin. by apply not_elem_of_nil in Hin.
    - intros Hall. induction l' as [|y l' IH]; [done|]. rewrite filter_cons.
      rewrite decide_False by (rewrite Hall; set_solver). apply IH. set_solver. }
  induction l as [|x l IH].
  - split; [done|]. by intros ([] & ? & ? & ? & _).
  - rewrite filter_cons. case_decide as Hx; simpl.
    + split.
      * intros [= Hl]. exists [], x, l. split_and!; [done..|]. by apply Hnone.
      * intros ([|x' l1] & y & l2 & Heq & Hy & Hrest); simplify_list_eq.
        { f_equal. by apply Hnone. }
        assert (p x' = false) by (apply Hrest; left). congruence.
    + rewrite IH. split.
      * intros (l1 & y & l2 & -> & Hy & Hrest). exists (x :: l1), y, l2.
        split_and!; [done..|]. intros z [->|?]%elem_of_cons; [|auto]. by apply not_true_is_false.
      * intros ([|x' l1] & y & l2 & Heq & Hy & Hrest); simplify_list_eq.
        exists l1, y, l2. split_and!; [done..|]. intros z Hz. apply Hrest. by right.
Qed.

Lemma decision_options_ok {O} `{DecisionOption O} entity kind (options : list O) chosen :
  validate_decision_options entity kind options chosen = Ok tt <->
  decision_shape kind options chosen.
Proof.
  unfold decision_shape, validate_decision_options. destruct kind.
  - destruct options, chosen; naive_solver.
  - rewrite <-no_dupes_spec, <-filter_one. unfold _MIN_DECISION_OPTIONS.
    split.
    + intros Hv. split_hyp Hv; bool_to_prop; split_and!; try done; try lia; naive_solver.
    + intros (Hlen & -> & Hone & Hc). rewrite Hone.
      destruct (Nat.ltb_spec (length options) 2); [lia|]. simpl.
      destruct chosen; [|done]. by rewrite bool_decide_eq_true_2 by auto.
Qed.

(** What the construction of a decomposition plan guarantees. *)
Record wf_plan (p : DecompositionPlan) : Prop := {
  wf_nonempty : dp_subtasks p <> [];
  wf_unique : NoDup (sub_id <$> dp_subtasks p);
  wf_known : forall s d, s ∈ dp_subtasks p -> d ∈ sub_dependencies s ->
    d ∈ sub_id <$> dp_subtasks p;
  wf_deliverable : forall s, s ∈ dp_subtasks p ->
    sub_kind s = WORK <-> sub_expected_artifacts s <> [];
}.

Lemma validate_expected_artifacts_ok entity kind artifacts :
  validate_expected_artifacts entity kind artifacts = Ok tt <->
  (kind = WORK <-> artifacts <> []).
Proof. destruct kind, artifacts; simpl; naive_solver. Qed.

Lemma check_subtasks_ok ids ss :
  check_subtasks ids ss = Ok tt <->
  forall s, s ∈ ss ->
    (forall d, d ∈ sub_dependencies s -> d ∈ ids) /\
    (sub_kind s = WORK <-> sub_expected_artifacts s <> []).
Proof.
  induction ss as [|s ss IH]; simpl; [split; [set_solver|done]|].
  setoid_rewrite elem_of_cons.
  destruct (filter (fun d => d ∉ ids) (sub_dependencies s)) as [|d ds] eqn:Hmiss.
  - assert (forall d, d ∈ sub_dependencies s -> d ∈ ids) as Hall.
    { intros d Hd. destruct (decide (d ∈ ids)) as [|Hn]; [done|].
      assert (d ∈ filter (fun d => d ∉ ids) (sub_dependencies s)) as Hin
        by by apply list_elem_of_filter.
      rewrite Hmiss in Hin. by apply not_elem_of_nil in Hin. }
    pose proof (validate_expected_artifacts_ok (sub_id s) (sub_kind s) (sub_expected_artifacts s)).
    destruct (validate_expected_artifacts _ _ _) as [[]|e]; simpl; naive_solver.
  - split; [done|]. intros Hall. exfalso.
    assert (d ∈ filter (fun d => d ∉ ids) (sub_dependencies s)) as [? ?]%list_elem_of_filter
      by (rewrite Hmiss; left). naive_solver.
Qed.

Lemma validate_subtasks_ok p : _validate_subtasks p = Ok tt <-> wf_plan p.
Proof.
  unfold _validate_subtasks. destruct (dp_subtasks p) as [|s ss] eqn:Hss.
  { split; [done|]. intros []. congruence. }
  rewrite <-Hss. destruct (no_dupes _) eqn:Hd.
  - apply no_dupes_spec in Hd. rewrite check_subtasks_ok. setoid_rewrite elem_of_list_to_set.
    split.
    + intros Hall. split; [congruence|done| |]; intros; by eapply Hall.
    + intros [] s' Hs'. split; eauto.
  - split; [done|]. intros [_ Hu _ _]. apply no_dupes_spec in Hu. congruence.
Qed.

(** Two units waiting for each other, and a third they do not need. *)
Definition knot : gmap string SubtaskDefinition :=
  let unit i ds := {|
    sub_id := i; sub_title := i; sub_description := i; sub_dependencies := ds;
    sub_required_skills := []; sub_required_tags := []; sub_required_role := None;
    sub_expected_artifacts := [i]; sub_acceptance_criteria := []; sub_satisfies := [];
    sub_estimated_complexity := Complexity.MEDIUM; sub_stakes := Stakes.NORMAL;
    sub_kind := WORK; sub_options := []; sub_unsplit_reason := None |} in
  list_to_map [("a", unit "a" ["b"]); ("b", unit "b" ["a"; "c"]); ("c", unit "c" []);
    ("d", unit "d" ["a"])].

Lemma dependency_closure_exact_witness :
  exists u, knot !! "a" = Some u /\ "c" <> "a" /\ tc (edge (waits knot)) "a" "c".
Proof.
  destruct (knot !! "a") as [u|] eqn:Hu; [|discriminate Hu].
  assert (Hid : unit_id u = "a") by (injection Hu as <-; reflexivity).
  exists u. split; [done|].
  pose proof (dependency_closure_exact knot u "c") as Hex. rewrite Hid in Hex.
  apply (Hex Hu). injection Hu as <-. apply (bool_decide_unpack _). vm_compute. exact I.
Defined.
