(* ===== verification/Dag.v ===== *)
(** * Dag

    [engine/decomposition/dag.py]: the dependency graph of a decomposition
    plan, its reference and cycle checks, its topological order (Kahn's
    algorithm on a heap) and its parallel groups. *)

From stdpp Require Import gmap strings list sorting relations.
From Stdlib Require Import ZArith Lia.
From S2P Require Import Prelude TaskEnums Graphs PlanUnits.
Local Open Scope py_scope.

(** [DecompositionError] and the three raise sites of
    [DecompositionCycleError]. *)
Inductive DagError :=
| UnknownDependency (subtask_id dep : string)
| CycleEdge (node dep : string)
| SortCycle
| GroupCycle.

#[export] Instance dag_error_eq_dec : EqDecision DagError.
Proof. solve_decision. Defined.

Record DependencyGraph := {
  subtasks : list SubtaskDefinition;
  _subtask_ids : list string;
  _adjacency : gmap string (list string);
  _reverse_adjacency : gmap string (list string);
}.

(** ** Construction *)

(** [for dep in subtask.dependencies: if dep in forward: forward[dep].append(subtask.id)]. *)
Definition add_forward (sid : string) (deps : list string) (forward : gmap string (list string))
    : gmap string (list string) :=
  foldl (fun forward dep =>
    match forward !! dep with
    | Some l => <[dep := l ++ [sid]]> forward
    | None => forward
    end) forward deps.

Definition build_maps (ss : list SubtaskDefinition) (forward reverse : gmap string (list string))
    : gmap string (list string) * gmap string (list string) :=
  foldl (fun fr s =>
    (add_forward (sub_id s) (sub_dependencies s) fr.1,
     <[sub_id s := sub_dependencies s]> fr.2)) (forward, reverse) ss.

Definition new_graph (ss : list SubtaskDefinition) : DependencyGraph :=
  let ids := sub_id <$> ss in
  let fr := build_maps ss (list_to_map ((fun i => (i, [])) <$> ids)) ∅ in
  {| subtasks := ss; _subtask_ids := ids; _adjacency := fr.1; _reverse_adjacency := fr.2 |}.

(** [self._adjacency.get(node, ())] and its reverse. *)
Definition dependents (g : DependencyGraph) (node : string) : list string :=
  default [] (_adjacency g !! node).
Definition deps_of (g : DependencyGraph) (node : string) : list string :=
  default [] (_reverse_adjacency g !! node).

(** ** References *)

Fixpoint missing_in (id_set : gset string) (sid : string) (deps : list string)
    : result DagError unit :=
  match deps with
  | [] => Ok tt
  | dep :: deps =>
      ensure bool_decide (dep ∈ id_set) else UnknownDependency sid dep in
      missing_in id_set sid deps
  end.

Fixpoint missing_loop (id_set : gset string) (ss : list SubtaskDefinition)
    : result DagError unit :=
  match ss with
  | [] => Ok tt
  | s :: ss =>
      let* _ := missing_in id_set (sub_id s) (sub_dependencies s) in
      missing_loop id_set ss
  end.

Definition _check_missing_references (g : DependencyGraph) : result DagError unit :=
  missing_loop (list_to_set (_subtask_ids g)) (subtasks g).

(** ** Cycle check: depth-first search on an explicit stack *)

(** One search: the stack holds frames [(node, idx)], top first; [None] when
    the fuel runs out. *)
Fixpoint dfs_loop (fuel : nat) (deps_of : string -> list string) (visited in_stack : gset string)
    (stack : list (string * nat)) : option (result DagError (gset string * gset string)) :=
  match fuel with
  | 0 => None
  | S fuel =>
      match stack with
      | [] => Some (Ok (visited, in_stack))
      | (node, idx) :: rest =>
          let visited := if idx =? 0 then {[node]} ∪ visited else visited in
          let in_stack := if idx =? 0 then {[node]} ∪ in_stack else in_stack in
          match deps_of node !! idx with
          | Some dep =>
              let stack := (node, S idx) :: rest in
              if decide (dep ∈ in_stack) then Some (Err (CycleEdge node dep))
              else if decide (dep ∉ visited)
              then dfs_loop fuel deps_of visited in_stack ((dep, 0) :: stack)
              else dfs_loop fuel deps_of visited in_stack stack
          | None => dfs_loop fuel deps_of visited (in_stack ∖ {[node]}) rest
          end
      end
  end.

Fixpoint check_cycles_from (fuel : nat) (deps_of : string -> list string)
    (starts : list string) (visited in_stack : gset string) : option (result DagError unit) :=
  match starts with
  | [] => Some (Ok tt)
  | start :: starts =>
      if decide (start ∈ visited) then check_cycles_from fuel deps_of starts visited in_stack
      else
        r ← dfs_loop fuel deps_of visited in_stack [(start, 0)];
        match r with
        | Ok (visited, in_stack) => check_cycles_from fuel deps_of starts visited in_stack
        | Err e => Some (Err e)
        end
  end.

(** A search looks at every dependency of every node it visits once. *)
Definition dfs_fuel (g : DependencyGraph) : nat :=
  S (sum_list_with (fun n => S (length (deps_of g n))) (_subtask_ids g)).

Definition _check_cycles (g : DependencyGraph) : result DagError unit :=
  default (Ok tt) (check_cycles_from (dfs_fuel g) (deps_of g) (_subtask_ids g) ∅ ∅).

Definition validate (g : DependencyGraph) : result DagError unit :=
  let* _ := _check_missing_references g in
  _check_cycles g.

(** ** Topological order: Kahn's algorithm

    A heap of strings is its sorted list: [heappop] takes the least element,
    [heappush] inserts. *)

Fixpoint heappush (heap : list string) (x : string) : list string :=
  match heap with
  | [] => [x]
  | y :: heap' => if decide (str_le x y) then x :: heap else y :: heappush heap' x
  end.

(** [in_degree[subtask.id] += 1] for every dependency entry; the key is
    present, [dict.fromkeys] put every id in. *)
Definition in_degrees (g : DependencyGraph) : gmap string Z :=
  foldl (fun deg s =>
    foldl (fun deg _dep => alter (fun n => n + 1)%Z (sub_id s) deg) deg (sub_dependencies s))
    (list_to_map ((fun i => (i, 0%Z)) <$> _subtask_ids g)) (subtasks g).

(** The [for dependent in ...] loop of one popped node. *)
Fixpoint release_dependents (ds : list string) (deg : gmap string Z) (heap : list string)
    : gmap string Z * list string :=
  match ds with
  | [] => (deg, heap)
  | d :: ds =>
      let deg := alter (fun n => n - 1)%Z d deg in
      if decide (deg !! d = Some 0%Z) then release_dependents ds deg (heappush heap d)
      else release_dependents ds deg heap
  end.

Fixpoint sort_loop (fuel : nat) (g : DependencyGraph) (deg : gmap string Z)
    (heap res : list string) : option (list string) :=
  match fuel with
  | 0 => None
  | S fuel =>
      match heap with
      | [] => Some res
      | node :: heap =>
          let dh := release_dependents (dependents g node) deg heap in
          sort_loop fuel g dh.1 dh.2 (res ++ [node])
      end
  end.

Definition topological_sort (g : DependencyGraph) : result DagError (list string) :=
  let* _ := _check_missing_references g in
  let deg := in_degrees g in
  let heap := sort_str (filter (fun i => deg !! i = Some 0%Z) (_subtask_ids g)) in
  let res := default [] (sort_loop (S (length (_subtask_ids g))) g deg heap []) in
  ensure length res =? length (_subtask_ids g) else SortCycle in
  Ok res.

(** ** Parallel groups *)

Definition decrement (ds : list string) (deg : gmap string Z) : gmap string Z :=
  foldl (fun deg d => alter (fun n => n - 1)%Z d deg) deg ds.

Definition settle (g : DependencyGraph) (ready : list string) (deg : gmap string Z)
    (remaining : gset string) : gmap string Z * gset string :=
  foldl (fun dr node => (decrement (dependents g node) dr.1, dr.2 ∖ {[node]}))
    (deg, remaining) ready.

Fixpoint groups_loop (fuel : nat) (g : DependencyGraph) (deg : gmap string Z)
    (remaining : gset string) (groups : list (list string))
    : option (result DagError (list (list string))) :=
  match fuel with
  | 0 => None
  | S fuel =>
      if decide (remaining = ∅) then Some (Ok groups)
      else
        let ready := sort_str (filter (fun i => deg !! i = Some 0%Z) (elements remaining)) in
        match ready with
        | [] => Some (Err GroupCycle)
        | _ =>
            let dr := settle g ready deg remaining in
            groups_loop fuel g dr.1 dr.2 (groups ++ [ready])
        end
  end.

Definition parallel_groups (g : DependencyGraph) : result DagError (list (list string)) :=
  let* _ := _check_missing_references g in
  default (Err GroupCycle)
    (groups_loop (S (length (_subtask_ids g))) g (in_degrees g)
       (list_to_set (_subtask_ids g)) []).

Definition get_dependents (g : DependencyGraph) (subtask_id : string) : list string :=
  sort_str (dependents g subtask_id).

Definition get_dependencies (g : DependencyGraph) (subtask_id : string) : list string :=
  sort_str (deps_of g subtask_id).

(** ** The graph of a tuple of subtasks with unique ids *)

Lemma add_forward_lookup sid deps fwd y :
  add_forward sid deps fwd !! y = (fun l => l ++ replicate (count y deps) sid) <$> fwd !! y.
Proof.
  revert fwd. induction deps as [|d deps IH]; intros fwd; simpl.
  { destruct (fwd !! y); simpl; [by rewrite app_nil_r|done]. }
  unfold add_forward in *. simpl. rewrite IH. rewrite count_cons.
  destruct (fwd !! d) as [l|] eqn:Hd.
  - destruct (decide (d = y)) as [->|Hne].
    + rewrite lookup_insert_eq, Hd. simpl. by rewrite <-app_assoc.
    + by rewrite lookup_insert_ne.
  - destruct (decide (d = y)) as [->|Hne]; [by rewrite Hd|done].
Qed.

Lemma build_forward_lookup ss fwd rvs y :
  (build_maps ss fwd rvs).1 !! y =
  (fun l => l ++ flat_map (fun s => replicate (count y (sub_dependencies s)) (sub_id s)) ss)
    <$> fwd !! y.
Proof.
  revert fwd rvs. induction ss as [|s ss IH]; intros fwd rvs; simpl.
  { destruct (fwd !! y); simpl; [by rewrite app_nil_r|done]. }
  unfold build_maps in *. simpl. rewrite IH, add_forward_lookup.
  destruct (fwd !! y); simpl; [by rewrite app_assoc|done].
Qed.

Lemma build_reverse_fresh ss fwd rvs y :
  y ∉ sub_id <$> ss -> (build_maps ss fwd rvs).2 !! y = rvs !! y.
Proof.
  revert fwd rvs. induction ss as [|s ss IH]; intros fwd rvs; [done|].
  rewrite fmap_cons, not_elem_of_cons. intros [Hne Hy]. unfold build_maps in *. simpl.
  rewrite IH by done. by rewrite lookup_insert_ne.
Qed.

Lemma build_reverse_lookup ss fwd rvs s :
  NoDup (sub_id <$> ss) -> s ∈ ss ->
  (build_maps ss fwd rvs).2 !! sub_id s = Some (sub_dependencies s).
Proof.
  revert fwd rvs. induction ss as [|s' ss IH]; intros fwd rvs; [by intros _ ?%not_elem_of_nil|].
  rewrite fmap_cons, NoDup_cons. intros [Hs' Hnd] [->|Hin]%elem_of_cons.
  - unfold build_maps. simpl. fold (build_maps ss (add_forward (sub_id s') (sub_dependencies s') fwd)
      (<[sub_id s' := sub_dependencies s']> rvs)).
    rewrite build_reverse_fresh by done. by rewrite lookup_insert_eq.
  - unfold build_maps in *. simpl. by apply IH.
Qed.

Section NewGraph.
Variable ss : list SubtaskDefinition.
Let ids := sub_id <$> ss.
Let g := new_graph ss.
Hypothesis Hnd : NoDup ids.

Lemma new_graph_deps s : s ∈ ss -> deps_of g (sub_id s) = sub_dependencies s.
Proof. intros Hs. unfold deps_of, g, new_graph. simpl. by rewrite build_reverse_lookup. Qed.

Lemma new_graph_deps_fresh x : x ∉ ids -> deps_of g x = [].
Proof. intros Hx. unfold deps_of, g, new_graph. simpl. by rewrite build_reverse_fresh. Qed.

Lemma ids_elem x : x ∈ ids <-> exists s, s ∈ ss /\ sub_id s = x.
Proof. unfold ids. rewrite list_elem_of_fmap. naive_solver. Qed.

(** The dependents of a node, with multiplicity. *)
Lemma new_graph_dependents x y :
  y ∈ ids -> count x (dependents g y) = count y (deps_of g x).
Proof.
  intros Hy. unfold dependents, g, new_graph. simpl.
  rewrite build_forward_lookup, fromkeys_lookup, decide_True by done. simpl.
  assert (Hgen : forall l, l ⊆ ss -> NoDup (sub_id <$> l) ->
    count x (flat_map (fun s => replicate (count y (sub_dependencies s)) (sub_id s)) l) =
    if decide (x ∈ sub_id <$> l) then count y (deps_of g x) else 0).
  { induction l as [|s l IH]; intros Hsub Hndl; simpl; [done|].
    apply NoDup_cons in Hndl as [Hs Hndl].
    rewrite count_app, count_replicate, IH by set_solver.
    destruct (decide (sub_id s = x)) as [<-|Hne].
    - rewrite decide_False by done. rewrite decide_True by set_solver.
      rewrite new_graph_deps by set_solver. lia.
    - destruct (decide (x ∈ sub_id <$> l)) as [Hi|Hi]; simpl.
      + rewrite decide_True by by right. lia.
      + rewrite decide_False by (rewrite elem_of_cons; naive_solver). lia. }
  rewrite Hgen by done. case_decide as Hx; [done|].
  fold g. by rewrite new_graph_deps_fresh.
Qed.

Lemma bump_lookup (deg : gmap string Z) sid (deps : list string) x :
  foldl (fun deg _ => alter (fun n => n + 1)%Z sid deg) deg deps !! x =
  if decide (x = sid) then (fun n => n + Z.of_nat (length deps))%Z <$> deg !! x else deg !! x.
Proof.
  revert deg. induction deps as [|d deps IH]; intros deg; cbn [foldl length].
  { case_decide; [|done]. destruct (deg !! x); simpl; [f_equal; lia|done]. }
  rewrite IH. case_decide as Hx.
  - subst. rewrite lookup_alter_eq. destruct (deg !! sid); simpl; [f_equal; lia|done].
  - by rewrite lookup_alter_ne.
Qed.

Lemma new_graph_degrees x :
  in_degrees g !! x = if decide (x ∈ ids) then Some (Z.of_nat (length (deps_of g x))) else None.
Proof.
  unfold in_degrees. simpl subtasks. simpl _subtask_ids.
  assert (Hgen : forall l (deg : gmap string Z), l ⊆ ss -> NoDup (sub_id <$> l) ->
    foldl (fun deg s => foldl (fun deg _ => alter (fun n => n + 1)%Z (sub_id s) deg) deg
      (sub_dependencies s)) deg l !! x =
    if decide (x ∈ sub_id <$> l)
    then (fun n => n + Z.of_nat (length (deps_of g x)))%Z <$> deg !! x else deg !! x).
  { induction l as [|s l IH]; intros deg Hsub Hndl; simpl; [done|].
    apply NoDup_cons in Hndl as [Hs Hndl].
    rewrite IH, bump_lookup by set_solver.
    destruct (decide (x = sub_id s)) as [->|Hne].
    - rewrite decide_False by done. rewrite decide_True by set_solver.
      by rewrite new_graph_deps by set_solver.
    - destruct (decide (x ∈ sub_id <$> l)) as [Hi|Hi]; simpl.
      + rewrite decide_True by by right. done.
      + rewrite decide_False by (rewrite elem_of_cons; naive_solver). done. }
  rewrite Hgen by done. rewrite fromkeys_lookup. fold ids. by case_decide.
Qed.
End NewGraph.

(** ** The graph interface

    What the algorithms need of a graph; [new_graph] provides it for unique
    ids when the reference check passes. *)
Record graph_ok (g : DependencyGraph) : Prop := {
  gk_nodup : NoDup (_subtask_ids g);
  gk_known : forall x y, y ∈ deps_of g x -> y ∈ _subtask_ids g;
  gk_source : forall x y, y ∈ deps_of g x -> x ∈ _subtask_ids g;
  gk_dependents : forall x y, y ∈ _subtask_ids g ->
    count x (dependents g y) = count y (deps_of g x);
  gk_degrees : forall x, in_degrees g !! x =
    if decide (x ∈ _subtask_ids g) then Some (Z.of_nat (length (deps_of g x))) else None;
}.

Lemma missing_in_ok ids sid deps :
  missing_in ids sid deps = Ok tt <-> forall d, d ∈ deps -> d ∈ ids.
Proof.
  induction deps as [|d deps IH]; simpl; [split; [set_solver|done]|].
  case_bool_decide; [rewrite IH; set_solver|]. split; [done|]. set_solver.
Qed.

Lemma missing_loop_ok ids ss :
  missing_loop ids ss = Ok tt <-> forall s d, s ∈ ss -> d ∈ sub_dependencies s -> d ∈ ids.
Proof.
  induction ss as [|s ss IH]; simpl; [split; [set_solver|done]|].
  pose proof (missing_in_ok ids (sub_id s) (sub_dependencies s)) as Hs.
  destruct (missing_in _ _ _) as [[]|]; simpl.
  - rewrite IH. destruct Hs as [Hs _]. specialize (Hs eq_refl).
    setoid_rewrite elem_of_cons. naive_solver.
  - split; [done|]. intros Hall. destruct Hs as [_ Hs].
    discriminate Hs. intros d. apply Hall. left.
Qed.

Lemma missing_in_err ids sid deps e :
  missing_in ids sid deps = Err e ->
  exists d, e = UnknownDependency sid d /\ d ∈ deps /\ d ∉ ids.
Proof.
  induction deps as [|d deps IH]; simpl; [done|].
  case_bool_decide; intros He; inv_result; [set_solver|]. exists d. set_solver.
Qed.

Lemma missing_loop_err ids ss e :
  missing_loop ids ss = Err e ->
  exists s d, e = UnknownDependency (sub_id s) d /\ s ∈ ss /\ d ∈ sub_dependencies s /\ d ∉ ids.
Proof.
  induction ss as [|s ss IH]; simpl; [done|].
  destruct (missing_in _ _ _) as [[]|e'] eqn:Hm; simpl; intros He.
  - destruct (IH He) as (s' & d & -> & ? & ? & ?). exists s', d. split_and!; try done. by right.
  - inv_result. apply missing_in_err in Hm as (d & -> & ?). exists s, d. split_and!; [done|by left|naive_solver..].
Qed.

Lemma new_graph_ok ss :
  NoDup (sub_id <$> ss) -> _check_missing_references (new_graph ss) = Ok tt ->
  graph_ok (new_graph ss).
Proof.
  intros Hnd Hm. unfold _check_missing_references in Hm. simpl in Hm.
  rewrite missing_loop_ok in Hm.
  assert (Hsrc : forall x y, y ∈ deps_of (new_graph ss) x -> x ∈ sub_id <$> ss).
  { intros x y Hy. destruct (decide (x ∈ sub_id <$> ss)) as [|Hx]; [done|].
    rewrite new_graph_deps_fresh in Hy by done. by apply not_elem_of_nil in Hy. }
  split; simpl; [done| |done| |].
  - intros x y Hy. pose proof (Hsrc x y Hy) as (s & -> & Hs)%list_elem_of_fmap.
    rewrite new_graph_deps in Hy by done. apply (Hm s y) in Hy; [|done].
    by apply elem_of_list_to_set in Hy.
  - intros x y Hy. by apply new_graph_dependents.
  - intros x. by apply new_graph_degrees.
Qed.

(** ** In-degrees along a Kahn reduction *)

(** The dependencies of [x] outside [done], with multiplicity. *)
Definition waiting (g : DependencyGraph) (done : list string) (x : string) : nat :=
  length (filter (fun y => y ∉ done) (deps_of g x)).

(** The in-degree map counts what is still waited for. *)
Definition degrees_inv (g : DependencyGraph) (done : list string) (deg : gmap string Z) : Prop :=
  forall x, deg !! x =
    if decide (x ∈ _subtask_ids g) then Some (Z.of_nat (waiting g done x)) else None.

Lemma waiting_zero g done x : waiting g done x = 0 <-> forall y, y ∈ deps_of g x -> y ∈ done.
Proof.
  unfold waiting. rewrite length_zero_iff_nil. split.
  - intros Hf y Hy. destruct (decide (y ∈ done)) as [|Hn]; [done|].
    assert (y ∈ filter (fun y => y ∉ done) (deps_of g x)) as Hin by by apply list_elem_of_filter.
    rewrite Hf in Hin. by apply not_elem_of_nil in Hin.
  - intros Hall. destruct (filter _ _) as [|y l] eqn:Hf; [done|].
    assert (y ∈ filter (fun y => y ∉ done) (deps_of g x)) as [? ?]%list_elem_of_filter
      by (rewrite Hf; left). naive_solver.
Qed.

Lemma waiting_snoc g done x y :
  y ∉ done -> waiting g (done ++ [y]) x + count y (deps_of g x) = waiting g done x.
Proof.
  intros Hy. unfold waiting. induction (deps_of g x) as [|z l IH]; [done|].
  rewrite !filter_cons, count_cons.
  destruct (decide (z = y)) as [->|Hne].
  - rewrite decide_False, decide_True by set_solver. simpl. lia.
  - destruct (decide (z ∈ done)); [rewrite !decide_False by set_solver|
      rewrite !decide_True by set_solver]; simpl; lia.
Qed.

Lemma decrement_lookup ds deg x :
  decrement ds deg !! x = (fun n => n - Z.of_nat (count x ds))%Z <$> deg !! x.
Proof.
  revert deg. induction ds as [|d ds IH]; intros deg; unfold decrement in *; cbn [foldl].
  { rewrite count_nil. destruct (deg !! x); simpl; [f_equal; lia|done]. }
  rewrite IH, count_cons. destruct (decide (d = x)) as [->|Hne].
  - rewrite lookup_alter_eq. destruct (deg !! x); cbn [fmap option_fmap option_map]; [f_equal; lia|done].
  - rewrite lookup_alter_ne by done. destruct (deg !! x); simpl; [f_equal; lia|done].
Qed.

Lemma degrees_init g : graph_ok g -> degrees_inv g [] (in_degrees g).
Proof.
  intros Hg x. rewrite gk_degrees by done. case_decide; [|done].
  do 2 f_equal. unfold waiting. induction (deps_of g x) as [|y l IH]; [done|].
  rewrite filter_cons, decide_True by set_solver. cbn [length]. by f_equal.
Qed.

Lemma degrees_step g done deg y :
  graph_ok g -> degrees_inv g done deg -> y ∈ _subtask_ids g -> y ∉ done ->
  degrees_inv g (done ++ [y]) (decrement (dependents g y) deg).
Proof.
  intros Hg Hdeg Hy Hfresh x. rewrite decrement_lookup, Hdeg. case_decide; [|done]. simpl.
  rewrite gk_dependents by done. pose proof (waiting_snoc g done x y Hfresh). f_equal. lia.
Qed.

Lemma degree_zero g done deg x :
  degrees_inv g done deg ->
  deg !! x = Some 0%Z <->
  x ∈ _subtask_ids g /\ forall y, y ∈ deps_of g x -> y ∈ done.
Proof.
  intros ->. rewrite <-waiting_zero. case_decide; [|naive_solver].
  split; [intros [= ?]|intros [_ ->]; done]. split; [done|lia].
Qed.

(** ** The heap *)

Lemma heappush_perm heap x : heappush heap x ≡ₚ x :: heap.
Proof.
  induction heap as [|y heap IH]; simpl; [done|]. case_decide; [done|].
  rewrite IH. apply Permutation_swap.
Qed.

Lemma heappush_sorted heap x : Sorted str_le heap -> Sorted str_le (heappush heap x).
Proof.
  induction heap as [|y heap IH]; simpl; intros Hs; [by repeat constructor|].
  case_decide as Hle; [by constructor; [|constructor]|].
  destruct (total str_le x y) as [?|Hyx]; [done|].
  apply Sorted_inv in Hs as [Hs Hhd]. constructor; [by apply IH|].
  destruct heap as [|z heap]; simpl; [by constructor|].
  case_decide; constructor; [done|]. by inversion Hhd.
Qed.

(** Releasing the dependents of a node decrements their degrees and pushes the
    ones that reach zero, each once. *)
Lemma release_dependents_ok ds deg heap :
  (forall x, x ∈ ds -> exists n, deg !! x = Some n /\ (Z.of_nat (count x ds) <= n)%Z) ->
  exists heap' new, release_dependents ds deg heap = (decrement ds deg, heap') /\
    heap' ≡ₚ new ++ heap /\ NoDup new /\ (Sorted str_le heap -> Sorted str_le heap') /\
    forall x, x ∈ new <-> x ∈ ds /\ decrement ds deg !! x = Some 0%Z.
Proof.
  revert deg heap. induction ds as [|d ds IH]; intros deg heap Hdeg; cbn [release_dependents].
  { exists heap, []. split_and!; [done..|constructor|done|set_solver]. }
  set (deg1 := alter (fun n => n - 1)%Z d deg).
  assert (Hdeg1 : forall x, x ∈ ds ->
    exists n, deg1 !! x = Some n /\ (Z.of_nat (count x ds) <= n)%Z).
  { intros x Hx. destruct (Hdeg x) as (n & Hn & Hle); [by right|].
    rewrite count_cons in Hle. unfold deg1. destruct (decide (d = x)) as [->|Hne].
    - rewrite lookup_alter_eq, Hn. exists (n - 1)%Z. split; [done|lia].
    - rewrite lookup_alter_ne by done. exists n. split; [done|lia]. }
  change (decrement (d :: ds) deg) with (decrement ds deg1).
  assert (Hd : d ∉ ds -> decrement ds deg1 !! d = deg1 !! d).
  { intros Hn%count_zero. rewrite decrement_lookup, Hn.
    destruct (deg1 !! d); simpl; [f_equal; lia|done]. }
  case_decide as Hz.
  - assert (Hfresh : d ∉ ds).
    { intros Hin. pose proof Hin as Hc%count_pos. destruct (Hdeg1 d Hin) as (n & Hn & ?).
      rewrite Hz in Hn. simplify_eq. lia. }
    destruct (IH deg1 (heappush heap d) Hdeg1) as (heap' & new & -> & Hp & Hnd & Hs & Hnew).
    exists heap', (d :: new). split_and!; [done| | | |].
    + rewrite Hp, heappush_perm. simpl. by rewrite Permutation_middle.
    + constructor; [|done]. rewrite Hnew. naive_solver.
    + intros ?. by apply Hs, heappush_sorted.
    + intros x. rewrite !elem_of_cons, Hnew. split; [|naive_solver].
      intros [->|?]; [|naive_solver]. rewrite Hd by done. auto.
  - destruct (IH deg1 heap Hdeg1) as (heap' & new & -> & Hp & Hnd & Hs & Hnew).
    exists heap', new. split_and!; [done..|]. intros x. rewrite Hnew, elem_of_cons.
    split; [naive_solver|]. intros [[->|?] Hx]; [|done].
    destruct (decide (d ∈ ds)) as [|Hn]; [done|]. by rewrite Hd in Hx.
Qed.

(** ** The topological order *)

(** Every listed id was, when its turn came, the least of the ids all of whose
    dependencies were listed. *)
Definition first_ready (g : DependencyGraph) (l : list string) : Prop :=
  forall l1 x l2, l = l1 ++ x :: l2 ->
  forall y, y ∈ _subtask_ids g -> y ∉ l1 -> (forall z, z ∈ deps_of g y -> z ∈ l1) -> str_le x y.

Lemma first_ready_snoc g l x :
  first_ready g l ->
  (forall y, y ∈ _subtask_ids g -> y ∉ l -> (forall z, z ∈ deps_of g y -> z ∈ l) -> str_le x y) ->
  first_ready g (l ++ [x]).
Proof.
  intros Hl Hx l1 y l2 Heq. destruct l2 as [|w l2 _] using rev_ind.
  - by apply app_inj_tail in Heq as [-> ->].
  - rewrite app_comm_cons, app_assoc in Heq. apply app_inj_tail in Heq as [-> ->].
    by apply (Hl l1 y l2).
Qed.

Record sort_inv (g : DependencyGraph) (deg : gmap string Z) (heap res : list string) : Prop := {
  si_nodup : NoDup (res ++ heap);
  si_sorted : Sorted str_le heap;
  si_ids : res ++ heap ⊆ _subtask_ids g;
  si_degrees : degrees_inv g res deg;
  si_heap : forall x, x ∈ _subtask_ids g -> x ∉ res ->
    x ∈ heap <-> forall y, y ∈ deps_of g x -> y ∈ res;
  si_ordered : ordered (deps_of g) res;
  si_first : first_ready g res;
}.

Lemma sorted_head_le x l y : Sorted str_le (x :: l) -> y ∈ l -> str_le x y.
Proof.
  intros Hs Hy. apply Sorted_StronglySorted in Hs; [|apply _].
  apply StronglySorted_inv in Hs as [_ Hall]. rewrite Forall_forall in Hall. by apply Hall.
Qed.

Lemma sort_inv_init g :
  graph_ok g ->
  sort_inv g (in_degrees g)
    (sort_str (filter (fun i => in_degrees g !! i = Some 0%Z) (_subtask_ids g))) [].
Proof.
  intros Hg. pose proof (degrees_init g Hg) as Hdeg. split; simpl.
  - rewrite sort_str_perm. apply NoDup_filter, gk_nodup, Hg.
  - apply sort_str_sorted.
  - intros x. rewrite sort_str_perm, list_elem_of_filter. naive_solver.
  - done.
  - intros x Hx _. rewrite sort_str_perm, list_elem_of_filter, degree_zero by done. naive_solver.
  - apply ordered_nil.
  - by intros [].
Qed.

Lemma sort_inv_step g deg node heap res :
  graph_ok g -> sort_inv g deg (node :: heap) res ->
  let dh := release_dependents (dependents g node) deg heap in
  sort_inv g dh.1 dh.2 (res ++ [node]).
Proof.
  intros Hg [Hnd Hs Hids Hdeg Hheap Hord Hfst].
  assert (Hnode : node ∈ _subtask_ids g) by set_solver.
  assert (Hfresh : node ∉ res).
  { apply NoDup_app in Hnd as (_ & Hdis & _). intros Hin. apply (Hdis node Hin). left. }
  assert (Hready : forall y, y ∈ deps_of g node -> y ∈ res) by (apply Hheap; auto; left).
  pose proof (degrees_step g res deg node Hg Hdeg Hnode Hfresh) as Hdeg'.
  destruct (release_dependents_ok (dependents g node) deg heap) as (heap' & new & Heq & Hp & Hndn & Hsn & Hnew).
  { intros x Hx%count_pos. rewrite gk_dependents in Hx by done.
    pose proof (proj1 (count_pos _ _) Hx) as Hnx.
    exists (Z.of_nat (waiting g res x)).
    rewrite Hdeg, decide_True by (by eapply gk_source). split; [done|].
    rewrite gk_dependents by done. pose proof (waiting_snoc g res x node Hfresh). lia. }
  rewrite Heq. simpl.
  assert (Hnew' : forall x, x ∈ new <-> node ∈ deps_of g x /\ x ∈ _subtask_ids g /\
    forall y, y ∈ deps_of g x -> y ∈ res ++ [node]).
  { intros x. rewrite Hnew, (degree_zero g (res ++ [node])) by done.
    rewrite <-count_pos, gk_dependents, count_pos by done. done. }
  assert (Hdis : forall x, x ∈ new -> x ∉ res ++ node :: heap).
  { intros x (Hnx & Hx & _)%Hnew' Hin.
    destruct (decide (x ∈ res)) as [Hr|Hr].
    - apply Hfresh. by eapply ordered_elem.
    - apply Hfresh. apply (Hheap x); [done|done|set_solver|done]. }
  split.
  - rewrite <-app_assoc. simpl. rewrite Hp.
    rewrite (Permutation_middle new heap node). rewrite Permutation_app_swap_app.
    apply NoDup_app. split_and!; [done| |done]. intros x Hx. by apply Hdis.
  - apply Hsn. by apply Sorted_inv in Hs as [].
  - rewrite Hp. intros x. rewrite !elem_of_app, list_elem_of_singleton, Hnew'.
    intros [[?| ->]|[?|?]]; [set_solver|done|naive_solver|set_solver].
  - done.
  - intros x Hx [Hxr Hxn]%not_elem_of_app. rewrite Hp, elem_of_app, Hnew'.
    rewrite list_elem_of_singleton in Hxn.
    assert (x ∈ heap <-> forall y, y ∈ deps_of g x -> y ∈ res) as Hhx.
    { rewrite <-Hheap by done. rewrite elem_of_cons. naive_solver. }
    split.
    + intros [?|Hin]; [naive_solver|]. intros y Hy. apply elem_of_app. left. by apply Hhx.
    + intros Hall. destruct (decide (node ∈ deps_of g x)); [by left|]. right. apply Hhx.
      intros y Hy. specialize (Hall y Hy). set_solver.
  - apply ordered_snoc. done.
  - apply first_ready_snoc; [done|]. intros y Hy Hyr Hrdy.
    assert (y ∈ node :: heap) as [->|?]%elem_of_cons by by apply Hheap.
    + reflexivity.
    + by eapply sorted_head_le.
Qed.

(** The loop ends with every id that can be ordered, in order. *)
Lemma sort_loop_ok fuel g deg heap res :
  graph_ok g -> sort_inv g deg heap res ->
  length (_subtask_ids g) - length res < fuel ->
  exists r deg', sort_loop fuel g deg heap res = Some r /\ sort_inv g deg' [] r.
Proof.
  intros Hg. revert deg heap res. induction fuel as [|fuel IH]; intros deg heap res Hinv Hf; [lia|].
  simpl. destruct heap as [|node heap]; [by exists res, deg|].
  apply IH; [by apply sort_inv_step|].
  pose proof (si_nodup _ _ _ _ Hinv) as Hnd. pose proof (si_ids _ _ _ _ Hinv) as Hids.
  assert (length (res ++ node :: heap) <= length (_subtask_ids g)) as Hlen.
  { apply submseteq_length, NoDup_submseteq; [done|]. intros x. by apply Hids. }
  rewrite length_app in *. simpl in *. lia.
Qed.

Lemma sort_result g :
  graph_ok g ->
  exists r deg', default [] (sort_loop (S (length (_subtask_ids g))) g (in_degrees g)
      (sort_str (filter (fun i => in_degrees g !! i = Some 0%Z) (_subtask_ids g))) []) = r /\
    sort_inv g deg' [] r /\
    (length r = length (_subtask_ids g) -> r ≡ₚ _subtask_ids g) /\
    (length r <> length (_subtask_ids g) -> exists X, trap (deps_of g) X).
Proof.
  intros Hg. destruct (sort_loop_ok (S (length (_subtask_ids g))) g (in_degrees g)
    (sort_str (filter (fun i => in_degrees g !! i = Some 0%Z) (_subtask_ids g))) [])
    as (r & deg' & -> & Hinv); [done|by apply sort_inv_init|simpl; lia|].
  exists r, deg'. split_and!; [done|done| |]; destruct Hinv as [Hnd _ Hids _ Hheap _ _];
    rewrite app_nil_r in *.
  - intros Hlen. apply submseteq_length_Permutation.
    + apply NoDup_submseteq; [done|]. intros x. by apply Hids.
    + lia.
  - intros Hlen. exists (list_to_set (filter (fun x => x ∉ r) (_subtask_ids g))). split.
    + intros He. apply Hlen. apply Permutation_length, NoDup_Permutation; [done|apply gk_nodup, Hg|].
      intros x. split; [apply Hids|]. intros Hx. destruct (decide (x ∈ r)) as [|Hr]; [done|].
      assert (x ∈ (list_to_set (filter (fun x => x ∉ r) (_subtask_ids g)) : gset string)) as Hin.
      { by apply elem_of_list_to_set, list_elem_of_filter. }
      rewrite He in Hin. set_solver.
    + intros x [Hr Hx]%elem_of_list_to_set%list_elem_of_filter.
      destruct (decide (Forall (fun y => y ∈ r) (deps_of g x))) as [Hall|Hall].
      * rewrite Forall_forall in Hall. apply Hheap in Hall; [|done..].
        by apply not_elem_of_nil in Hall.
      * apply not_Forall_Exists in Hall; [|apply _].
        apply Exists_exists in Hall as (y & Hy & Hyr). exists y.
        split; [|done]. apply elem_of_list_to_set, list_elem_of_filter.
        split; [done|]. by eapply gk_known.
Qed.

(** ** The depth-first cycle check

    The search keeps a ghost list [done] of the nodes it has left, in the order
    it left them: every target of a left node was left before it. The frames of
    the stack are a path from the start, every dependency a frame has passed is
    left or is the next frame. *)
Section Dfs.
Variable deps : string -> list string.

Fixpoint frames_ok (done : list string) (next : option string) (stack : list (string * nat)) : Prop :=
  match stack with
  | [] => True
  | (n, i) :: rest =>
      i <= length (deps n) /\
      (forall d, d ∈ take i (deps n) -> d ∈ done \/ next = Some d) /\
      (forall d, next = Some d -> d ∈ deps n) /\
      frames_ok done (Some n) rest
  end.

Record dfs_inv (visited in_stack : gset string) (stack : list (string * nat)) (done : list string)
    : Prop := {
  di_nodup : NoDup (done ++ stack.*1);
  di_ordered : ordered deps done;
  di_frames : frames_ok done None stack;
  di_idx : forall n i rest, stack = (n, i) :: rest -> forall f, f ∈ rest -> f.2 <> 0;
  di_sets :
    match stack with
    | (n, 0) :: rest =>
        in_stack = list_to_set rest.*1 /\ visited = list_to_set (done ++ rest.*1)
    | _ => in_stack = list_to_set stack.*1 /\ visited = list_to_set (done ++ stack.*1)
    end;
}.

Lemma frames_ok_done done n next stack :
  frames_ok done next stack -> (next = Some n \/ next = None) ->
  frames_ok (done ++ [n]) None stack.
Proof.
  revert done next n. destruct stack as [|[m i] rest]; [done|].
  intros done next n (Hi & Ht & Hn & Hrest) Hnext. simpl. split_and!; [done| |done|].
  - intros d Hd. left. rewrite elem_of_app, list_elem_of_singleton.
    destruct (Ht d Hd) as [?|Heq]; [by left|]. destruct Hnext; naive_solver.
  - clear -Hrest. assert (forall nx, frames_ok done nx rest -> frames_ok (done ++ [n]) nx rest) as Hm;
      [|by apply Hm].
    clear Hrest. induction rest as [|[k j] rest IH]; [done|].
    intros nx (Hi & Ht & Hn & Hrest). simpl. split_and!; [done| |done|by apply IH].
    intros d Hd. rewrite elem_of_app. naive_solver.
Qed.

(** Every node of the stack reaches the top frame. *)
Lemma frames_path done next stack n i rest m :
  stack = (n, i) :: rest -> frames_ok done next stack -> m ∈ stack.*1 -> rtc (edge deps) m n.
Proof.
  intros -> (_ & _ & _ & Hrest). rewrite fmap_cons. simpl. intros [->|Hm]%elem_of_cons; [done|].
  revert n i Hrest Hm. induction rest as [|[k j] rest IH]; intros n i Hrest Hm;
    [by apply not_elem_of_nil in Hm|].
  destruct Hrest as (_ & _ & Hn & Hrest). apply elem_of_cons in Hm as [->|Hm].
  - apply rtc_once. by apply Hn.
  - etrans; [by eapply IH|]. apply rtc_once. by apply Hn.
Qed.

Variable nodes : list string.
Hypothesis Hnodes : NoDup nodes.
Hypothesis Hclosed : forall x y, y ∈ deps x -> y ∈ nodes.

Definition stack_cost (stack : list (string * nat)) : nat :=
  sum_list_with (fun f => if f.2 =? 0 then 0 else S (length (deps f.1)) - f.2) stack.
Definition fresh_cost (visited : gset string) : nat :=
  unseen (fun n => S (length (deps n))) ((fun n => (n, n)) <$> nodes) visited.

(** The sets once the top frame is marked. *)
Definition mark (n : string) (i : nat) (X : gset string) : gset string :=
  if i =? 0 then {[n]} ∪ X else X.

Section Step.
Variables (visited in_stack : gset string) (n : string) (i : nat)
  (rest : list (string * nat)) (done : list string).
Hypothesis Hinv : dfs_inv visited in_stack ((n, i) :: rest) done.

Lemma dfs_marked :
  mark n i in_stack = {[n]} ∪ list_to_set rest.*1 /\
  mark n i visited = {[n]} ∪ list_to_set done ∪ list_to_set rest.*1.
Proof.
  destruct Hinv as [_ _ _ _ Hsets]. unfold mark.
  destruct i as [|i']; simpl in *; destruct Hsets as [-> ->]; split; try done;
    rewrite list_to_set_app_L; simpl; set_solver.
Qed.

Lemma dfs_cost :
  n ∈ nodes ->
  S (length (deps n)) - i + stack_cost rest + fresh_cost (mark n i visited)
  <= stack_cost ((n, i) :: rest) + fresh_cost visited.
Proof.
  intros Hn. destruct Hinv as [Hnd _ _ _ Hsets]. unfold stack_cost, mark. simpl.
  destruct i as [|i']; simpl in *; [|lia]. destruct Hsets as [_ ->].
  opose proof* (unseen_expand (fun n => S (length (deps n))) ((fun n => (n, n)) <$> nodes)
    (list_to_set (done ++ rest.*1)) n n) as Hex.
  { apply list_elem_of_fmap. by exists n. }
  { rewrite elem_of_list_to_set. apply NoDup_app in Hnd as (_ & Hd1 & Hd2).
    apply NoDup_cons in Hd2 as [Hd2 _]. rewrite elem_of_app.
    intros [?|?]; [|done]. apply (Hd1 n); [done|left]. }
  unfold fresh_cost in *. lia.
Qed.

Lemma dfs_frames_next d nx :
  deps n !! i = Some d -> (forall x, nx = Some x -> x = d) -> d ∈ done \/ nx = Some d ->
  frames_ok done nx ((n, S i) :: rest).
Proof.
  intros Hd Hnx Hdd. pose proof (lookup_lt_Some _ _ _ Hd) as Hlt.
  destruct Hinv as [_ _ (Hi & Htake & _ & Hrest) _ _]. simpl. split_and!; [lia| | |done].
  - intros x. erewrite take_S_r by done. rewrite elem_of_app, list_elem_of_singleton.
    intros [Hx| ->]; [|done]. destruct (Htake x Hx); [by left|done].
  - intros x Hx. rewrite (Hnx x Hx). by eapply list_elem_of_lookup_2.
Qed.

Lemma dfs_idx_next f : f ∈ (n, S i) :: rest -> f.2 <> 0.
Proof. intros [->|?]%elem_of_cons; [done|]. by eapply (di_idx _ _ _ _ Hinv). Qed.

(** An unvisited dependency is pushed. *)
Lemma dfs_push d :
  deps n !! i = Some d -> d ∉ mark n i visited ->
  dfs_inv (mark n i visited) (mark n i in_stack) ((d, 0) :: (n, S i) :: rest) done.
Proof.
  intros Hd Hvis. destruct dfs_marked as [Hin1 Hv1].
  assert (d <> n /\ d ∉ done /\ d ∉ rest.*1) as (Hdn & Hdd & Hdr)
    by (rewrite Hv1 in Hvis; set_unfold; naive_solver).
  pose proof Hinv as [Hnd Ho _ _ _]. split; simpl.
  - apply NoDup_app in Hnd as (Hd1 & Hd2 & Hd3). apply NoDup_app. simpl in *.
    split_and!; [done| |].
    + intros x Hx [->|Hx2]%elem_of_cons; [naive_solver|]. by apply (Hd2 x).
    + constructor; [|done]. by rewrite not_elem_of_cons.
  - done.
  - split; [lia|]. split; [set_solver|]. split; [done|].
    apply (dfs_frames_next d (Some d)); naive_solver.
  - intros ? ? ? [= <- <- <-]. apply dfs_idx_next.
  - rewrite Hin1, Hv1. split; [done|]. rewrite list_to_set_app_L. simpl. set_solver.
Qed.

(** A dependency that was left is passed. *)
Lemma dfs_stay d :
  deps n !! i = Some d -> d ∈ mark n i visited -> d ∉ mark n i in_stack ->
  dfs_inv (mark n i visited) (mark n i in_stack) ((n, S i) :: rest) done.
Proof.
  intros Hd Hvis Hnc. destruct dfs_marked as [Hin1 Hv1]. pose proof Hinv as [Hnd Ho _ _ _].
  split; simpl; [done|done| | |].
  - apply (dfs_frames_next d None); [done|done|]. left.
    rewrite Hin1 in Hnc. rewrite Hv1 in Hvis. set_solver.
  - intros ? ? ? [= <- <- <-] f Hf. apply dfs_idx_next. by right.
  - rewrite Hin1, Hv1. split; [done|]. rewrite list_to_set_app_L. simpl. set_solver.
Qed.

(** A node all of whose dependencies were passed is left. *)
Lemma dfs_pop :
  deps n !! i = None ->
  dfs_inv (mark n i visited) (mark n i in_stack ∖ {[n]}) rest (done ++ [n]).
Proof.
  intros Hd%lookup_ge_None. destruct dfs_marked as [Hin1 Hv1].
  pose proof Hinv as [Hnd Ho (Hi & Htake & _ & Hrest) Hidx _].
  assert (i = length (deps n)) as Hlen by lia.
  rewrite take_ge in Htake by lia. split.
  - by rewrite <-app_assoc.
  - apply ordered_snoc. split; [done|]. intros x Hx. by destruct (Htake x Hx).
  - eapply frames_ok_done; [done|by left].
  - intros n' i' rest' -> f Hf. eapply (Hidx n); [done|by right].
  - apply NoDup_app in Hnd as (_ & _ & Hd2). apply NoDup_cons in Hd2 as [Hd2 _].
    rewrite Hin1, Hv1. destruct rest as [|[m j] rest']; simpl.
    { split; [set_solver|]. rewrite !list_to_set_app_L. simpl. set_solver. }
    assert (j <> 0) as Hj by (apply (Hidx n i _ eq_refl (m, j)); left).
    destruct j; [done|]. simpl in *. split; [set_solver|].
    rewrite !list_to_set_app_L. simpl. set_solver.
Qed.
End Step.

(** What a search ends with: the nodes it left, in order, or an edge closing a
    cycle. *)
Definition dfs_outcome (r : option (result DagError (gset string * gset string)))
    (seen : list string) : Prop :=
  (exists done', r = Some (Ok (list_to_set done', ∅)) /\ NoDup done' /\ ordered deps done' /\
     forall x, x ∈ seen -> x ∈ done') \/
  (exists n d, r = Some (Err (CycleEdge n d)) /\ d ∈ deps n /\ rtc (edge deps) d n).

Lemma dfs_outcome_mono r seen seen' :
  dfs_outcome r seen -> (forall x, x ∈ seen' -> x ∈ seen) -> dfs_outcome r seen'.
Proof. intros [(done' & ? & ? & ? & ?)|?] Hsub; [left; exists done'|right]; naive_solver. Qed.

Lemma dfs_loop_ok fuel visited in_stack stack done :
  dfs_inv visited in_stack stack done -> (forall x, x ∈ stack.*1 -> x ∈ nodes) ->
  stack_cost stack + fresh_cost visited < fuel ->
  dfs_outcome (dfs_loop fuel deps visited in_stack stack) (done ++ stack.*1).
Proof.
  revert visited in_stack stack done.
  induction fuel as [|fuel IH]; intros visited in_stack stack done Hinv Hsub Hf; [lia|].
  destruct stack as [|[n i] rest]; simpl.
  { left. exists done. destruct Hinv as [Hnd Ho _ _ [-> ->]].
    simpl in *. rewrite app_nil_r in *. by split_and!. }
  fold (mark n i visited). fold (mark n i in_stack).
  assert (Hn : n ∈ nodes) by (apply Hsub; left).
  pose proof (dfs_cost _ _ _ _ _ _ Hinv Hn) as Hcost.
  destruct (deps n !! i) as [d|] eqn:Hd.
  - pose proof (lookup_lt_Some _ _ _ Hd) as Hlt.
    assert (Hdin : d ∈ deps n) by by eapply list_elem_of_lookup_2.
    destruct (decide (d ∈ mark n i in_stack)) as [Hcyc|Hnc].
    + right. exists n, d. split_and!; [done|done|].
      eapply (frames_path done None ((n, i) :: rest) n i rest d); [done|apply Hinv|].
      destruct (dfs_marked _ _ _ _ _ _ Hinv) as [Hin1 _]. rewrite Hin1 in Hcyc.
      set_unfold. naive_solver.
    + case_decide as Hvis.
      * eapply dfs_outcome_mono; [apply IH; [by apply (dfs_push _ _ _ _ _ _ Hinv)| |]|].
        -- intros x. simpl. intros [->|Hx]%elem_of_cons; [by eapply Hclosed|]. by apply Hsub.
        -- unfold stack_cost in *. simpl in *. lia.
        -- intros x. simpl. set_solver.
      * apply (IH _ _ ((n, S i) :: rest)); [|done|unfold stack_cost in *; simpl in *; lia].
        apply (dfs_stay _ _ _ _ _ _ Hinv d); [done| |done].
        destruct (decide (d ∈ mark n i visited)); done.
  - pose proof Hd as Hge%lookup_ge_None.
    assert (i <= length (deps n)) by apply Hinv.
    eapply dfs_outcome_mono; [apply IH; [by apply (dfs_pop _ _ _ _ _ _ Hinv)| |lia]|].
    + intros x Hx. apply Hsub. by right.
    + intros x. simpl. set_solver.
Qed.
End Dfs.

Section CheckCycles.
Variable deps : string -> list string.
Variable nodes : list string.
Hypothesis Hnodes : NoDup nodes.
Hypothesis Hclosed : forall x y, y ∈ deps x -> y ∈ nodes.

Lemma check_cycles_from_ok fuel starts done :
  NoDup done -> ordered deps done -> (forall x, x ∈ starts -> x ∈ nodes) ->
  fresh_cost deps nodes ∅ < fuel ->
  (check_cycles_from fuel deps starts (list_to_set done) ∅ = Some (Ok tt) /\
   exists done', NoDup done' /\ ordered deps done' /\ forall x, x ∈ starts -> x ∈ done') \/
  (exists n d, check_cycles_from fuel deps starts (list_to_set done) ∅ = Some (Err (CycleEdge n d)) /\
     d ∈ deps n /\ rtc (edge deps) d n).
Proof.
  revert done. induction starts as [|start starts IH]; intros done Hnd Ho Hsub Hf; simpl.
  { left. split; [done|]. exists done. split_and!; [done..|]. set_solver. }
  assert (Hsub' : forall x, x ∈ starts -> x ∈ nodes) by set_solver.
  assert (Hext : forall done0 done1, NoDup done0 -> ordered deps done0 -> NoDup done1 ->
    ordered deps done1 -> exists done2 : list string, NoDup done2 /\ ordered deps done2 /\
    forall x, x ∈ done0 \/ x ∈ done1 -> x ∈ done2).
  { intros done0 done1 Hn0 Ho0 Hn1 Ho1. induction done1 as [|x l IHl] using rev_ind.
    - exists done0. set_solver.
    - apply ordered_snoc in Ho1 as [Ho1 Hx]. apply NoDup_app in Hn1 as (Hn1 & _ & _).
      destruct (IHl Hn1 Ho1) as (d2 & Hn2 & Ho2 & Hin). destruct (decide (x ∈ d2)).
      + exists d2. set_solver.
      + exists (d2 ++ [x]). split_and!; [|apply ordered_snoc; set_solver|set_solver].
        apply NoDup_app. split_and!; [done|set_solver|apply NoDup_singleton]. }
  case_decide as Hv.
  - apply elem_of_list_to_set in Hv.
    destruct (IH done) as [[He (done' & Hn' & Ho' & Hin')]|?]; [done..| |by right].
    left. split; [done|]. destruct (Hext done done') as (d2 & ? & ? & Hin2); [done..|].
    exists d2. set_solver.
  - assert (Hinv : dfs_inv deps (list_to_set done) ∅ [(start, 0)] done).
    { split; simpl; [|done|split_and!; [lia|set_solver|done|done]|..].
      - rewrite elem_of_list_to_set in Hv. apply NoDup_app.
        split_and!; [done|set_solver|apply NoDup_singleton].
      - intros ? ? ? [= <- <- <-]. set_solver.
      - by rewrite app_nil_r. }
    pose proof (dfs_loop_ok deps nodes Hnodes Hclosed fuel (list_to_set done) ∅ [(start, 0)] done Hinv)
      as Hdfs.
    destruct Hdfs as [(done1 & -> & Hn1 & Ho1 & Hin1)|(n & d & -> & ? & ?)].
    + intros x ->%list_elem_of_singleton. apply Hsub. left.
    + unfold stack_cost, fresh_cost, unseen in *. simpl.
      pose proof (unseen_le (fun n => S (length (deps n))) ((fun n => (n, n)) <$> nodes)
        (list_to_set done)) as Hle. unfold unseen in Hle.
      eapply Nat.le_lt_trans; [exact Hle|]. eapply Nat.le_lt_trans; [|exact Hf].
      clear. induction nodes as [|x l IHl]; [done|]. rewrite fmap_cons, filter_cons.
      rewrite decide_True by set_solver. simpl in *. lia.
    + simpl. destruct (IH done1) as [[He (done' & Hn' & Ho' & Hin')]|?]; [done..| |by right].
      left. split; [done|]. destruct (Hext done1 done') as (d2 & ? & ? & Hin2); [done..|].
      exists d2. set_solver.
    + right. by exists n, d.
Qed.
End CheckCycles.

(** The cycle check passes exactly on acyclic graphs, and the edge it reports
    closes a cycle. *)
Lemma check_cycles_ok g :
  graph_ok g ->
  (_check_cycles g = Ok tt /\ acyclic (deps_of g)) \/
  (exists n d, _check_cycles g = Err (CycleEdge n d) /\ d ∈ deps_of g n /\
     rtc (edge (deps_of g)) d n).
Proof.
  intros Hg. unfold _check_cycles.
  destruct (check_cycles_from_ok (deps_of g) (_subtask_ids g) (gk_nodup g Hg) (gk_known g Hg)
    (dfs_fuel g) (_subtask_ids g) []) as [[He (done' & Hnd & Ho & Hin)]|(n & d & He & Hd & Hr)].
  - constructor.
  - apply ordered_nil.
  - done.
  - unfold dfs_fuel, fresh_cost.
    apply Nat.lt_succ_r. etrans; [apply unseen_le|].
    clear. induction (_subtask_ids g) as [|x l IH]; [done|]. rewrite fmap_cons. simpl in *. lia.
  - left. simpl in He. rewrite He. split; [done|].
    eapply ordered_acyclic; [done|done|]. intros x y Hy. apply Hin. by eapply gk_source.
  - right. exists n, d. simpl in He. by rewrite He.
Qed.

Lemma cycle_edge_not_acyclic (deps : string -> list string) n d :
  d ∈ deps n -> rtc (edge deps) d n -> ~ acyclic deps.
Proof.
  intros Hd Hr Hac. apply (Hac n). eapply tc_rtc_r; [by apply tc_once|done].
Qed.

(** ** Parallel groups *)

(** Each group holds, sorted, exactly the ids not in an earlier group all of
    whose dependencies are. *)
Definition layered (g : DependencyGraph) (gs : list (list string)) : Prop :=
  forall gs1 grp gs2, gs = gs1 ++ grp :: gs2 ->
    grp <> [] /\ Sorted str_le grp /\
    forall x, x ∈ grp <-> x ∈ _subtask_ids g /\ x ∉ concat gs1 /\
      forall y, y ∈ deps_of g x -> y ∈ concat gs1.

Record groups_inv (g : DependencyGraph) (deg : gmap string Z) (remaining : gset string)
    (gs : list (list string)) : Prop := {
  gi_nodup : NoDup (concat gs);
  gi_remaining : forall x, x ∈ remaining <-> x ∈ _subtask_ids g /\ x ∉ concat gs;
  gi_ids : concat gs ⊆ _subtask_ids g;
  gi_degrees : degrees_inv g (concat gs) deg;
  gi_layered : layered g gs;
}.

Lemma settle_ok g ready done deg remaining :
  graph_ok g -> degrees_inv g done deg -> NoDup (done ++ ready) -> ready ⊆ _subtask_ids g ->
  degrees_inv g (done ++ ready) (settle g ready deg remaining).1 /\
  (settle g ready deg remaining).2 = remaining ∖ list_to_set ready.
Proof.
  intros Hg. revert done deg remaining.
  induction ready as [|x ready IH]; intros done deg remaining Hdeg Hnd Hsub.
  { rewrite app_nil_r. split; [done|]. simpl. set_solver. }
  unfold settle in *. cbn [foldl fst snd].
  destruct (IH (done ++ [x]) (decrement (dependents g x) deg) (remaining ∖ {[x]})) as [H1 H2].
  - apply degrees_step; [done|done|set_solver|].
    apply NoDup_app in Hnd as (_ & Hd & _). intros Hx. apply (Hd x Hx). left.
  - by rewrite <-app_assoc.
  - set_solver.
  - rewrite <-app_assoc in H1. split; [done|]. rewrite H2. simpl. set_solver.
Qed.

Lemma concat_snoc {A} (gs : list (list A)) grp : concat (gs ++ [grp]) = concat gs ++ grp.
Proof. rewrite concat_app. simpl. by rewrite app_nil_r. Qed.

Lemma layered_snoc g gs grp :
  layered g gs -> grp <> [] -> Sorted str_le grp ->
  (forall x, x ∈ grp <-> x ∈ _subtask_ids g /\ x ∉ concat gs /\
     forall y, y ∈ deps_of g x -> y ∈ concat gs) ->
  layered g (gs ++ [grp]).
Proof.
  intros Hl Hne Hs Hx gs1 grp' gs2 Heq. destruct gs2 as [|w gs2 _] using rev_ind.
  - apply app_inj_tail in Heq as [-> ->]. done.
  - rewrite app_comm_cons, app_assoc in Heq. apply app_inj_tail in Heq as [-> ->].
    by eapply Hl.
Qed.

Lemma groups_inv_step g deg remaining gs ready :
  graph_ok g -> groups_inv g deg remaining gs ->
  ready = sort_str (filter (fun i => deg !! i = Some 0%Z) (elements remaining)) -> ready <> [] ->
  let dr := settle g ready deg remaining in
  groups_inv g dr.1 dr.2 (gs ++ [ready]).
Proof.
  intros Hg [Hnd Hrem Hids Hdeg Hlay] -> Hne dr.
  set (ready := sort_str _) in *.
  assert (Hready : forall x, x ∈ ready <-> x ∈ _subtask_ids g /\ x ∉ concat gs /\
    forall y, y ∈ deps_of g x -> y ∈ concat gs).
  { intros x. unfold ready. rewrite sort_str_perm, list_elem_of_filter, elem_of_elements, Hrem.
    rewrite (degree_zero g (concat gs)) by done. naive_solver. }
  assert (Hnd' : NoDup (concat gs ++ ready)).
  { apply NoDup_app. split_and!; [done|intros x Hx Hr; apply Hready in Hr; naive_solver|].
    unfold ready. rewrite sort_str_perm. apply NoDup_filter, NoDup_elements. }
  destruct (settle_ok g ready (concat gs) deg remaining) as [Hd2 Hr2]; [done..| |].
  { intros x. rewrite Hready. naive_solver. }
  unfold dr. split; rewrite ?concat_snoc; [done| |set_solver|done|].
  - intros x. rewrite Hr2. rewrite elem_of_difference, elem_of_list_to_set, not_elem_of_app, Hrem.
    naive_solver.
  - apply layered_snoc; [done..|apply sort_str_sorted|done].
Qed.

Lemma groups_loop_ok fuel g deg remaining gs :
  graph_ok g -> groups_inv g deg remaining gs -> size remaining < fuel ->
  (exists gs' deg', groups_loop fuel g deg remaining gs = Some (Ok gs') /\ groups_inv g deg' ∅ gs') \/
  (groups_loop fuel g deg remaining gs = Some (Err GroupCycle) /\ exists X, trap (deps_of g) X).
Proof.
  intros Hg. revert deg remaining gs.
  induction fuel as [|fuel IH]; intros deg remaining gs Hinv Hf; [lia|]. simpl.
  case_decide as Hrem; [left; subst; by exists gs, deg|].
  set (ready := sort_str _). destruct (decide (ready = [])) as [Hr|Hr].
  - right. rewrite Hr. split; [done|]. exists remaining. split; [done|]. intros x Hx.
    pose proof Hinv as [_ Hspec _ Hdeg _].
    destruct (decide (Forall (fun y => y ∈ concat gs) (deps_of g x))) as [Hall|Hall].
    + rewrite Forall_forall in Hall. assert (x ∈ ready) as Hin; [|rewrite Hr in Hin; set_solver].
      unfold ready. rewrite sort_str_perm, list_elem_of_filter, elem_of_elements.
      split; [|done]. apply (degree_zero g (concat gs)); [done|]. split; [by apply Hspec|done].
    + apply not_Forall_Exists in Hall; [|apply _]. apply Exists_exists in Hall as (y & Hy & Hyr).
      exists y. split; [|done]. apply Hspec. split; [by eapply gk_known|done].
  - pose proof (groups_inv_step g deg remaining gs ready Hg Hinv eq_refl Hr) as Hinv'.
    destruct ready as [|x ready'] eqn:Heq; [done|]. rewrite <-Heq in *.
    apply IH; [done|]. apply Nat.lt_le_trans with (size remaining); [|lia].
    apply subset_size. pose proof Hinv as [_ Hspec _ _ _].
    assert (x ∈ remaining).
    { assert (x ∈ ready) as Hx by (rewrite Heq; left). unfold ready in Hx.
      rewrite sort_str_perm, list_elem_of_filter, elem_of_elements in Hx. naive_solver. }
    assert (x ∉ (settle g ready deg remaining).2).
    { rewrite (gi_remaining _ _ _ _ Hinv'), concat_snoc, not_elem_of_app.
      intros (_ & _ & Hx). apply Hx. rewrite Heq. left. }
    split; [|set_solver]. intros z. rewrite (gi_remaining _ _ _ _ Hinv'), concat_snoc, Hspec.
    rewrite not_elem_of_app. naive_solver.
Qed.

Lemma groups_ok g :
  graph_ok g -> _check_missing_references g = Ok tt ->
  (exists gs deg, parallel_groups g = Ok gs /\ groups_inv g deg ∅ gs) \/
  (parallel_groups g = Err GroupCycle /\ exists X, trap (deps_of g) X).
Proof.
  intros Hg Hm. unfold parallel_groups. rewrite Hm. cbn [rbind].
  destruct (groups_loop_ok (S (length (_subtask_ids g))) g (in_degrees g)
    (list_to_set (_subtask_ids g)) []) as [(gs & deg & -> & Hinv)|[-> Htrap]].
  - done.
  - split; simpl; [apply NoDup_nil_2| |set_solver|by apply degrees_init|by intros []].
    intros x. rewrite elem_of_list_to_set. set_solver.
  - apply Nat.lt_succ_r, size_list_to_set_le.
  - left. by exists gs, deg.
  - by right.
Qed.

(** A group beyond the first depends on the group before it: no id could have
    run earlier. *)
Lemma layered_tight g gs gs1 prev grp gs2 x :
  layered g gs -> gs = gs1 ++ prev :: grp :: gs2 -> x ∈ grp ->
  exists y, y ∈ deps_of g x /\ y ∈ prev.
Proof.
  intros Hl -> Hx.
  destruct (Hl (gs1 ++ [prev]) grp gs2) as (_ & _ & Hgrp); [by rewrite <-app_assoc|].
  destruct (Hl gs1 prev (grp :: gs2) eq_refl) as (_ & _ & Hprev).
  apply Hgrp in Hx as (Hid & Hnot & Hdeps). rewrite concat_snoc in *.
  destruct (decide (Forall (fun y => y ∈ concat gs1) (deps_of g x))) as [Hall|Hall].
  - rewrite Forall_forall in Hall. exfalso. apply Hnot, elem_of_app. right.
    apply Hprev. split_and!; [done| |done]. set_solver.
  - apply not_Forall_Exists in Hall; [|apply _]. apply Exists_exists in Hall as (y & Hy & Hyr).
    exists y. split; [done|]. apply Hdeps in Hy. set_solver.
Qed.

(** Groups put in a row are an order. *)
Lemma layered_ordered g gs : layered g gs -> ordered (deps_of g) (concat gs).
Proof.
  induction gs as [|grp gs IH] using rev_ind; intros Hl; [apply ordered_nil|].
  rewrite concat_snoc. destruct (Hl gs grp [] eq_refl) as (_ & _ & Hgrp).
  assert (Hsub : forall l, (forall x, x ∈ l -> x ∈ grp) -> ordered (deps_of g) (concat gs ++ l)).
  { induction l as [|x l IHl] using rev_ind; intros Hin.
    - rewrite app_nil_r. apply IH. intros gs1 grp' gs2 ->. apply (Hl gs1 grp' (gs2 ++ [grp])).
      by rewrite <-app_assoc.
    - rewrite app_assoc. apply ordered_snoc. split; [apply IHl; set_solver|].
      intros y Hy. apply elem_of_app. left.
      assert (x ∈ grp) as (_ & _ & Hx)%Hgrp by set_solver. by apply Hx. }
  by apply Hsub.
Qed.

(** ** Properties

    Stated over the declared dependencies of a tuple of subtasks with unique
    ids, which is what a decomposition plan holds. *)

Definition declared (ss : list SubtaskDefinition) (x : string) : list string :=
  concat (sub_dependencies <$> filter (fun s => sub_id s = x) ss).

Definition refs_known (ss : list SubtaskDefinition) : Prop :=
  forall s d, s ∈ ss -> d ∈ sub_dependencies s -> d ∈ sub_id <$> ss.

Lemma declared_elem ss x y :
  y ∈ declared ss x <-> exists s, s ∈ ss /\ sub_id s = x /\ y ∈ sub_dependencies s.
Proof.
  unfold declared. rewrite elem_of_list_join || rewrite list_elem_of_In, in_concat.
  setoid_rewrite <-list_elem_of_In. setoid_rewrite list_elem_of_fmap.
  setoid_rewrite list_elem_of_filter. naive_solver.
Qed.

Lemma new_graph_declared ss x y :
  NoDup (sub_id <$> ss) -> y ∈ deps_of (new_graph ss) x <-> y ∈ declared ss x.
Proof.
  intros Hnd. rewrite declared_elem. destruct (decide (x ∈ sub_id <$> ss)) as [Hx|Hx].
  - apply list_elem_of_fmap in Hx as (s & -> & Hs). rewrite new_graph_deps by done.
    split; [naive_solver|]. intros (s' & Hs' & Heq & Hy).
    by rewrite <-(new_graph_deps ss Hnd s'), Heq, (new_graph_deps ss Hnd s) in Hy.
  - rewrite new_graph_deps_fresh by done. split; [by intros ?%not_elem_of_nil|].
    intros (s & Hs & <- & _). exfalso. by apply Hx, list_elem_of_fmap_2.
Qed.

Lemma new_graph_refs ss :
  _check_missing_references (new_graph ss) = Ok tt <-> refs_known ss.
Proof.
  unfold _check_missing_references. simpl. rewrite missing_loop_ok. unfold refs_known.
  by setoid_rewrite elem_of_list_to_set.
Qed.

Lemma acyclic_declared ss :
  NoDup (sub_id <$> ss) -> acyclic (deps_of (new_graph ss)) <-> acyclic (declared ss).
Proof.
  intros Hnd. split; apply acyclic_sub; intros x y; by apply new_graph_declared.
Qed.

Lemma ordered_ext {A} `{Countable A} (adj adj' : A -> list A) l :
  (forall x y, y ∈ adj' x -> y ∈ adj x) -> ordered adj l -> ordered adj' l.
Proof. intros Hsub Ho l1 x l2 Hl y Hy. eapply Ho; eauto. Qed.

Lemma topological_sort_cases ss :
  NoDup (sub_id <$> ss) -> refs_known ss ->
  let g := new_graph ss in
  (exists l, topological_sort g = Ok l /\ l ≡ₚ sub_id <$> ss /\ ordered (deps_of g) l /\
     first_ready g l) \/
  (topological_sort g = Err SortCycle /\ ~ acyclic (deps_of g)).
Proof.
  intros Hnd Hrefs g. pose proof Hrefs as Hm%new_graph_refs.
  pose proof (new_graph_ok ss Hnd Hm) as Hg. unfold topological_sort. fold g in Hm, Hg. rewrite Hm.
  cbn [rbind]. destruct (sort_result g Hg) as (r & deg & -> & Hinv & Hperm & Htrap).
  destruct (Nat.eqb_spec (length r) (length (_subtask_ids g))) as [He|Hne].
  - left. exists r. split_and!; [done|by apply Hperm|apply Hinv|apply Hinv].
  - right. split; [done|]. intros Hac. destruct (Htrap Hne) as [X HX].
    by apply (acyclic_no_trap _ X Hac).
Qed.

Lemma validate_iff ss :
  NoDup (sub_id <$> ss) ->
  validate (new_graph ss) = Ok tt <-> refs_known ss /\ acyclic (declared ss).
Proof.
  intros Hnd. rewrite <-new_graph_refs, <-acyclic_declared by done. unfold validate.
  destruct (_check_missing_references (new_graph ss)) as [[]|e] eqn:Hm; [|naive_solver].
  pose proof (new_graph_ok ss Hnd Hm) as Hg. simpl.
  destruct (check_cycles_ok _ Hg) as [[Hc Hac]|(n & d & Hc & Hd & Hr)]; rewrite Hc; [naive_solver|].
  split; [done|]. intros [_ Hac]. by destruct (cycle_edge_not_acyclic _ n d Hd Hr).
Qed.

(** C1: [topological_sort] of subtasks with unique ids returns every id once,
    each after all it depends on, and always the least id that was ready; it
    raises on exactly the first unknown reference, and reports a cycle only
    when the dependencies have one. *)
Theorem topological_sort_correct ss :
  NoDup (sub_id <$> ss) ->
  match topological_sort (new_graph ss) with
  | Ok l => l ≡ₚ sub_id <$> ss /\ ordered (declared ss) l /\ first_ready (new_graph ss) l
  | Err (UnknownDependency i d) =>
      exists s, s ∈ ss /\ sub_id s = i /\ d ∈ sub_dependencies s /\ d ∉ sub_id <$> ss
  | Err SortCycle => refs_known ss /\ ~ acyclic (declared ss)
  | Err _ => False
  end.
Proof.
  intros Hnd. destruct (_check_missing_references (new_graph ss)) as [[]|e] eqn:Hm.
  - apply new_graph_refs in Hm.
    destruct (topological_sort_cases ss Hnd Hm) as [(l & -> & ? & Ho & ?)|[-> ?]];
      [|by rewrite <-acyclic_declared].
    split_and!; [done| |done]. eapply ordered_ext; [|exact Ho].
    intros x y. by apply new_graph_declared.
  - unfold topological_sort. rewrite Hm. simpl.
    unfold _check_missing_references in Hm. apply missing_loop_err in Hm as (s & d & -> & Hs & Hd & Hn).
    exists s. rewrite elem_of_list_to_set in Hn. done.
Qed.

Lemma first_ready_unique g g' r r' :
  (forall x, x ∈ _subtask_ids g <-> x ∈ _subtask_ids g') ->
  (forall x y, y ∈ deps_of g x <-> y ∈ deps_of g' x) ->
  r ≡ₚ _subtask_ids g -> r' ≡ₚ _subtask_ids g' -> NoDup r -> NoDup r' ->
  ordered (deps_of g) r -> ordered (deps_of g') r' ->
  first_ready g r -> first_ready g' r' -> r = r'.
Proof.
  intros Hids Hdeps Hp Hp' Hnd Hnd' Ho Ho' Hf Hf'.
  assert (Hin : forall x, x ∈ r <-> x ∈ r') by (intros x; by rewrite Hp, Hp').
  enough (forall s p s', r = p ++ s -> r' = p ++ s' -> s = s') as Hgo by by apply (Hgo r [] r').
  induction s as [|x s IH]; intros p s' Hr Hr'.
  - destruct s' as [|x' s']; [done|]. exfalso. rewrite app_nil_r in Hr. subst p.
    rewrite Hr' in Hnd'. apply NoDup_app in Hnd' as (_ & Hd & _). apply (Hd x'); [|left].
    apply Hin. rewrite Hr'. set_solver.
  - destruct s' as [|x' s'].
    { exfalso. rewrite app_nil_r in Hr'. subst p. rewrite Hr in Hnd.
      apply NoDup_app in Hnd as (_ & Hd & _). apply (Hd x); [|left]. apply Hin. rewrite Hr. set_solver. }
    assert (x = x') as ->.
    { apply (anti_symm str_le).
      - apply (Hf p x s Hr x'); [apply Hids; rewrite <-Hp', Hr'; set_solver| |].
        + rewrite Hr' in Hnd'. apply NoDup_app in Hnd' as (_ & Hd & _). intros Hx. apply (Hd x' Hx). left.
        + intros z Hz%Hdeps. by apply (Ho' p x' s' Hr').
      - apply (Hf' p x' s' Hr' x); [apply Hids; rewrite <-Hp, Hr; set_solver| |].
        + rewrite Hr in Hnd. apply NoDup_app in Hnd as (_ & Hd & _). intros Hx. apply (Hd x Hx). left.
        + intros z Hz%Hdeps. by apply (Ho p x s Hr). }
    f_equal. apply (IH (p ++ [x'])); by rewrite <-app_assoc.
Qed.

(** The topological order does not depend on the order in which the plan
    lists its subtasks. *)
Theorem topological_sort_order_independent ss ss' l :
  NoDup (sub_id <$> ss) -> ss ≡ₚ ss' ->
  topological_sort (new_graph ss) = Ok l -> topological_sort (new_graph ss') = Ok l.
Proof.
  intros Hnd Hperm Hl.
  assert (Hids : sub_id <$> ss ≡ₚ sub_id <$> ss') by by apply fmap_Permutation.
  assert (Hnd' : NoDup (sub_id <$> ss')) by by rewrite <-Hids.
  assert (Hrefs : refs_known ss).
  { apply new_graph_refs. unfold topological_sort in Hl.
    by destruct (_check_missing_references (new_graph ss)) as [[]|]. }
  assert (Hrefs' : refs_known ss').
  { intros s d Hs Hd. rewrite <-Hids. eapply Hrefs; [by rewrite Hperm|done]. }
  assert (Hdecl : forall x y, y ∈ deps_of (new_graph ss) x <-> y ∈ deps_of (new_graph ss') x).
  { intros x y. rewrite !new_graph_declared, !declared_elem by done.
    split; intros (s & Hs & ?); exists s; [rewrite <-Hperm|rewrite Hperm]; done. }
  destruct (topological_sort_cases ss Hnd Hrefs) as [(l1 & H1 & Hp1 & Ho1 & Hf1)|[H1 _]];
    [|congruence].
  destruct (topological_sort_cases ss' Hnd' Hrefs') as [(l2 & H2 & Hp2 & Ho2 & Hf2)|[_ Hcyc]].
  - rewrite H2. f_equal. assert (l1 = l) as <- by congruence.
    symmetry. apply (first_ready_unique (new_graph ss) (new_graph ss')); try done.
    + intros x. simpl. by rewrite Hids.
    + by rewrite Hp1.
    + by rewrite Hp2.
  - exfalso. apply Hcyc. eapply acyclic_sub; [intros x y; apply Hdecl|].
    eapply (ordered_acyclic _ l1); [by rewrite Hp1|done|].
    intros x y Hy. rewrite Hp1. apply new_graph_declared in Hy; [|done].
    apply declared_elem in Hy as (s & Hs & <- & _). by apply list_elem_of_fmap_2.
Qed.

(** C38: [validate], [topological_sort] and [parallel_groups] accept the same
    plans, exactly those whose references resolve and whose dependencies have
    no cycle; the depth-first search ends, and the edge it reports closes a
    cycle. *)
Theorem graph_checks_agree ss :
  NoDup (sub_id <$> ss) ->
  let g := new_graph ss in
  (validate g = Ok tt <-> refs_known ss /\ acyclic (declared ss)) /\
  is_ok (topological_sort g) = is_ok (validate g) /\
  is_ok (parallel_groups g) = is_ok (validate g) /\
  (forall n d, validate g = Err (CycleEdge n d) ->
     d ∈ declared ss n /\ rtc (edge (declared ss)) d n).
Proof.
  intros Hnd g. destruct (_check_missing_references g) as [[]|e] eqn:Hm.
  - pose proof (new_graph_ok ss Hnd Hm) as Hg. fold g in Hg.
    pose proof Hm as Hrefs%new_graph_refs. rewrite <-acyclic_declared by done. fold g.
    assert (Hv : validate g = _check_cycles g) by (unfold validate; by rewrite Hm).
    assert (Hrtc : forall x y, rtc (edge (deps_of g)) x y -> rtc (edge (declared ss)) x y).
    { induction 1 as [|x y z Hxy _ IH]; [done|]. eapply rtc_l; [|done]. by apply new_graph_declared. }
    destruct (topological_sort_cases ss Hnd Hrefs) as [(l & Ht & Hp & Ho & _)|[Ht Hcyc]];
      fold g in Ht.
    + assert (Hac : acyclic (deps_of g)).
      { eapply (ordered_acyclic _ l); [by rewrite Hp|done|].
        intros x y Hy. rewrite Hp. by apply (gk_source g Hg x y). }
      destruct (check_cycles_ok g Hg) as [[Hc _]|(n & d & _ & Hd & Hr)];
        [|by destruct (cycle_edge_not_acyclic _ n d Hd Hr)].
      destruct (groups_ok g Hg Hm) as [(gs & deg & Hp2 & _)|[_ [X HX]]];
        [|by destruct (acyclic_no_trap _ X Hac)].
      rewrite Hv, Hc, Ht, Hp2. naive_solver.
    + destruct (check_cycles_ok g Hg) as [[_ Hac]|(n & d & Hc & Hd & Hr)]; [done|].
      destruct (groups_ok g Hg Hm) as [(gs & deg & _ & Hgi)|[Hp2 _]].
      { exfalso. apply Hcyc. eapply (ordered_acyclic _ (concat gs)); [apply Hgi| |].
        - by apply layered_ordered, Hgi.
        - intros x y Hy. destruct (decide (x ∈ concat gs)) as [|Hx]; [done|].
          exfalso. apply (not_elem_of_empty (C:=gset string) x), (gi_remaining _ _ _ _ Hgi).
          split; [by eapply gk_source|done]. }
      rewrite Hv, Hc, Ht, Hp2. split_and!; [naive_solver|done|done|].
      intros ? ? [= <- <-]. split; [by apply new_graph_declared|by apply Hrtc].
  - assert (Hn : ~ refs_known ss) by (rewrite <-new_graph_refs; fold g; congruence).
    unfold validate, topological_sort, parallel_groups. rewrite Hm. simpl.
    unfold _check_missing_references in Hm. apply missing_loop_err in Hm as (s & d & -> & _).
    split_and!; naive_solver.
Qed.

(** The groups hold every id once; what a member depends on lies in an
    earlier group, and a member of a later group depends on something in the
    group right before it, so no member could have run in an earlier wave. *)
Theorem parallel_groups_earliest ss gs :
  NoDup (sub_id <$> ss) -> parallel_groups (new_graph ss) = Ok gs ->
  concat gs ≡ₚ sub_id <$> ss /\
  forall i grp x, gs !! i = Some grp -> x ∈ grp ->
    (forall y, y ∈ declared ss x -> exists j grp', j < i /\ gs !! j = Some grp' /\ y ∈ grp') /\
    (forall k, i = S k -> exists y prev, gs !! k = Some prev /\ y ∈ prev /\ y ∈ declared ss x).
Proof.
  intros Hnd Hgs.
  assert (Hm : _check_missing_references (new_graph ss) = Ok tt).
  { unfold parallel_groups in Hgs. by destruct (_check_missing_references (new_graph ss)) as [[]|]. }
  pose proof (new_graph_ok ss Hnd Hm) as Hg.
  destruct (groups_ok _ Hg Hm) as [(gs' & deg & Heq & [Hndg Hrem Hids _ Hlay])|[Heq _]]; [|congruence].
  assert (gs' = gs) as -> by congruence. split.
  - apply NoDup_Permutation; [done|done|]. intros x. split; [apply Hids|].
    intros Hx. destruct (decide (x ∈ concat gs)) as [|Hn]; [done|].
    exfalso. apply (not_elem_of_empty (C:=gset string) x). by apply Hrem.
  - intros i grp x Hi Hx. pose proof (take_drop_middle gs i grp Hi) as Hsplit.
    destruct (Hlay (take i gs) grp (drop (S i) gs)) as (_ & _ & Hgrp); [done|].
    apply Hgrp in Hx as Hx'. destruct Hx' as (_ & _ & Hdeps). split.
    + intros y Hy. rewrite <-new_graph_declared in Hy by done. apply Hdeps in Hy.
      apply list_elem_of_In, in_concat in Hy as (grp' & Hg' & Hy).
      apply list_elem_of_In in Hg'. apply list_elem_of_In in Hy.
      apply list_elem_of_lookup in Hg' as (j & Hj).
      apply lookup_take_Some in Hj as [Hj Hlt]. by exists j, grp'.
    + intros k ->. destruct (gs !! k) as [prev|] eqn:Hk.
      2:{ apply lookup_ge_None in Hk. apply lookup_lt_Some in Hi. lia. }
      destruct (layered_tight (new_graph ss) gs (take k gs) prev grp (drop (S (S k)) gs) x)
        as (y & Hy & Hyp); [done| |done|].
      * by rewrite (drop_S _ _ _ Hi) || rewrite <-(drop_S _ _ _ Hi), take_drop_middle.
      * exists y, prev. by rewrite <-new_graph_declared.
Qed.

(** ** A small plan *)

Definition unit_subtask (id : string) (deps : list string) : SubtaskDefinition := {|
  sub_id := id; sub_title := id; sub_description := id; sub_dependencies := deps;
  sub_required_skills := []; sub_required_tags := []; sub_required_role := None;
  sub_expected_artifacts := [id]; sub_acceptance_criteria := []; sub_satisfies := [];
  sub_estimated_complexity := Complexity.MEDIUM; sub_stakes := Stakes.NORMAL;
  sub_kind := PlanItemKind.WORK; sub_options := []; sub_unsplit_reason := None |}.

Definition web_app : list SubtaskDefinition :=
  [unit_subtask "ui" ["api"]; unit_subtask "api" ["model"]; unit_subtask "docs" ["model"];
   unit_subtask "model" []].

Definition looped : list SubtaskDefinition :=
  [unit_subtask "a" ["c"]; unit_subtask "b" ["a"]; unit_subtask "c" ["b"]; unit_subtask "d" []].

Example web_app_order : topological_sort (new_graph web_app) = Ok ["model"; "api"; "docs"; "ui"].
Proof. vm_compute. reflexivity. Qed.
Example web_app_groups :
  parallel_groups (new_graph web_app) = Ok [["model"]; ["api"; "docs"]; ["ui"]].
Proof. vm_compute. reflexivity. Qed.
Example looped_refused : validate (new_graph looped) = Err (CycleEdge "b" "a").
Proof. vm_compute. reflexivity. Qed.
Example looped_unsorted : topological_sort (new_graph looped) = Err SortCycle.
Proof. vm_compute. reflexivity. Qed.

Lemma web_app_nodup : NoDup (sub_id <$> web_app).
Proof. apply (bool_decide_unpack _). vm_compute. exact I. Qed.
Lemma looped_nodup : NoDup (sub_id <$> looped).
Proof. apply (bool_decide_unpack _). vm_compute. exact I. Qed.

Lemma topological_sort_correct_witness :
  NoDup (sub_id <$> web_app) /\
  match topological_sort (new_graph web_app) with
  | Ok l => l ≡ₚ sub_id <$> web_app /\ ordered (declared web_app) l /\
      first_ready (new_graph web_app) l
  | Err (UnknownDependency i d) =>
      exists s, s ∈ web_app /\ sub_id s = i /\ d ∈ sub_dependencies s /\ d ∉ sub_id <$> web_app
  | Err SortCycle => refs_known web_app /\ ~ acyclic (declared web_app)
  | Err _ => False
  end.
Proof. exact (conj web_app_nodup (topological_sort_correct web_app web_app_nodup)). Defined.

Lemma topological_sort_order_independent_witness :
  topological_sort (new_graph (reverse web_app)) = Ok ["model"; "api"; "docs"; "ui"].
Proof.
  apply (topological_sort_order_independent web_app (reverse web_app) _ web_app_nodup).
  - symmetry. apply reverse_Permutation.
  - exact web_app_order.
Defined.

Lemma graph_checks_agree_witness :
  "a" ∈ declared looped "b" /\ rtc (edge (declared looped)) "a" "b".
Proof.
  destruct (graph_checks_agree looped looped_nodup) as (_ & _ & _ & H).
  apply H. exact looped_refused.
Defined.

Lemma parallel_groups_earliest_witness :
  concat [["model"]; ["api"; "docs"]; ["ui"]] ≡ₚ sub_id <$> web_app.
Proof. apply (parallel_groups_earliest web_app _ web_app_nodup web_app_groups). Defined.
