(* ===== verification/DecompTree.v ===== *)
(** * DecompTree

    [DecompositionResult] of [engine/decomposition/models.py]: the tree a
    recursive decomposition builds, its construction-time validators, its
    flattened views ([leaf_tasks], [all_tasks], [all_subtasks]) and the
    dispatch graph [_dispatch_after] derives from it, judged with the
    dependency graph of [Dag]. Of a [Task] the fields dispatch reads and writes
    are kept. *)

From stdpp Require Import gmap strings list sorting relations.
From Stdlib Require Import ZArith Lia.
From S2P Require Import Prelude TaskEnums Graphs PlanUnits Dag.
Local Open Scope py_scope.

Record Task := {
  task_id : string;
  task_title : string;
  task_status : TaskStatus.TaskStatus;
  assigned_to : option string;
}.

#[export] Instance task_eq_dec : EqDecision Task.
Proof. solve_decision. Defined.

Inductive DecompositionResult := Result {
  plan : DecompositionPlan;
  created_tasks : list Task;
  dependency_edges : list (string * string);
  depth : Z;
  children : list DecompositionResult;
}.

(** The id of the unit a decomposition splits. *)
Definition parent (r : DecompositionResult) : string := dp_parent_task_id (plan r).

Definition level_ids (r : DecompositionResult) : list string := sub_id <$> dp_subtasks (plan r).

(** ** The views *)

Definition split_task_ids (r : DecompositionResult) : gset string :=
  list_to_set (parent <$> children r).

Fixpoint leaf_tasks (r : DecompositionResult) : list Task :=
  filter (fun t => task_id t ∉ split_task_ids r) (created_tasks r) ++
  flat_map leaf_tasks (children r).

Fixpoint all_tasks (r : DecompositionResult) : list Task :=
  created_tasks r ++ flat_map all_tasks (children r).

Fixpoint all_subtasks (r : DecompositionResult) : list SubtaskDefinition :=
  dp_subtasks (plan r) ++ flat_map all_subtasks (children r).

Fixpoint max_depth_reached (r : DecompositionResult) : Z :=
  match max_depth_reached <$> children r with
  | [] => depth r
  | d :: ds => foldl Z.max d ds
  end.

(** ** The dispatch view *)

Definition with_dependencies (s : SubtaskDefinition) (edges : list string) : SubtaskDefinition := {|
  sub_id := sub_id s; sub_title := sub_title s; sub_description := sub_description s;
  sub_dependencies := edges; sub_required_skills := sub_required_skills s;
  sub_required_tags := sub_required_tags s; sub_required_role := sub_required_role s;
  sub_expected_artifacts := sub_expected_artifacts s;
  sub_acceptance_criteria := sub_acceptance_criteria s; sub_satisfies := sub_satisfies s;
  sub_estimated_complexity := sub_estimated_complexity s; sub_stakes := sub_stakes s;
  sub_kind := sub_kind s; sub_options := sub_options s;
  sub_unsplit_reason := sub_unsplit_reason s |}.

Definition contained_by (r : DecompositionResult) : gmap string (list string) :=
  dict_of ((fun child => (parent child, level_ids child)) <$> children r).

(** [subtask.dependencies or inherited]. *)
Definition or_else (dependencies inherited : list string) : list string :=
  match dependencies with [] => inherited | _ => dependencies end.

Definition waits_on (r : DecompositionResult) (inherited : list string)
    : gmap string (list string) :=
  dict_of ((fun s => (sub_id s, or_else (sub_dependencies s) inherited)) <$> dp_subtasks (plan r)).

Definition dispatch_own (r : DecompositionResult) (inherited : list string)
    (s : SubtaskDefinition) : SubtaskDefinition :=
  let edges := default [] (waits_on r inherited !! sub_id s) ++
               default [] (contained_by r !! sub_id s) in
  if bool_decide (edges = sub_dependencies s) then s else with_dependencies s edges.

Fixpoint _dispatch_after (r : DecompositionResult) (inherited : list string)
    : list SubtaskDefinition :=
  (dispatch_own r inherited <$> dp_subtasks (plan r)) ++
  flat_map (fun child => _dispatch_after child (default [] (waits_on r inherited !! parent child)))
    (children r).

Definition dispatch_subtasks (r : DecompositionResult) : list SubtaskDefinition :=
  _dispatch_after r [].

(** ** The validators *)

Inductive ResultError :=
| UnresolvedStructure
| TaskCount (created planned : nat)
| TaskIdsDiffer (missing extra : list string)
| UnknownEdgeIds (ids : list string)
| UnknownParent (parent : string)
| ParentTwice (parent : string)
| ChildDepth (parent : string) (found expected : Z).

#[export] Instance result_error_eq_dec : EqDecision ResultError.
Proof. solve_decision. Defined.

Fixpoint children_loop (task_ids seen : gset string) (expected : Z)
    (cs : list DecompositionResult) : result ResultError unit :=
  match cs with
  | [] => Ok tt
  | c :: cs =>
      ensure bool_decide (parent c ∈ task_ids) else UnknownParent (parent c) in
      ensure bool_decide (parent c ∉ seen) else ParentTwice (parent c) in
      ensure (depth c =? expected)%Z else ChildDepth (parent c) (depth c) expected in
      children_loop task_ids ({[parent c]} ∪ seen) expected cs
  end.

Definition _validate_children (r : DecompositionResult) (task_ids : gset string)
    : result ResultError unit :=
  children_loop task_ids ∅ (depth r + 1) (children r).

Definition sorted_set (X : gset string) : list string := sort_str (elements X).

Definition _validate_plan_task_consistency (r : DecompositionResult) : result ResultError unit :=
  ensure bool_decide (dp_task_structure (plan r) <> TaskStructure.AUTO) else UnresolvedStructure in
  ensure length (created_tasks r) =? length (dp_subtasks (plan r))
    else TaskCount (length (created_tasks r)) (length (dp_subtasks (plan r))) in
  let task_ids : gset string := list_to_set (task_id <$> created_tasks r) in
  let plan_ids : gset string := list_to_set (level_ids r) in
  ensure bool_decide (task_ids = plan_ids)
    else TaskIdsDiffer (sorted_set (plan_ids ∖ task_ids)) (sorted_set (task_ids ∖ plan_ids)) in
  let edge_ids : gset string :=
    list_to_set (flat_map (fun e => [e.1; e.2]) (dependency_edges r)) in
  ensure bool_decide (edge_ids ∖ task_ids = ∅) else UnknownEdgeIds (sorted_set (edge_ids ∖ task_ids)) in
  _validate_children r task_ids.

(** A tree the service built: at every level the plan, the level and the
    dependency graph passed their checks. *)
Inductive built : DecompositionResult -> Prop :=
| built_node r :
    _validate_subtasks (plan r) = Ok tt ->
    validate (new_graph (dp_subtasks (plan r))) = Ok tt ->
    _validate_plan_task_consistency r = Ok tt ->
    Forall built (children r) ->
    built r.

(** [l] is a level of [r]. *)
Inductive level_of : DecompositionResult -> DecompositionResult -> Prop :=
| level_here r : level_of r r
| level_below r c l : c ∈ children r -> level_of c l -> level_of r l.

(** ** Induction and lookups *)

Lemma result_tree_ind (P : DecompositionResult -> Prop) :
  (forall r, Forall P (children r) -> P r) -> forall r, P r.
Proof.
  intros Hstep. fix IH 1. intros [p ts es d cs]. apply Hstep. simpl.
  induction cs as [|c cs IHcs]; constructor; [apply IH|apply IHcs].
Qed.

(** ** What a built level promises *)

Lemma children_loop_ok task_ids seen expected cs :
  children_loop task_ids seen expected cs = Ok tt <->
  (forall c, c ∈ cs -> parent c ∈ task_ids /\ parent c ∉ seen /\ depth c = expected) /\
  NoDup (parent <$> cs).
Proof.
  revert seen. induction cs as [|c cs IH]; intros seen; simpl.
  { split; [|done]. intros _. split; [|constructor]. by intros c ?%not_elem_of_nil. }
  rewrite NoDup_cons, list_elem_of_fmap.
  destruct (bool_decide (parent c ∈ task_ids)) eqn:H1; bool_to_prop;
    [|split; [done|]; intros [Hall _]; destruct (Hall c); [left|done]].
  destruct (bool_decide (parent c ∉ seen)) eqn:H2; bool_to_prop;
    [|split; [done|]; intros [Hall _]; destruct (Hall c) as (_ & ? & _); [left|done]].
  destruct (depth c =? expected)%Z eqn:H3; bool_to_prop;
    [|split; [done|]; intros [Hall _]; destruct (Hall c) as (_ & _ & ?); [left|done]].
  rewrite IH. split.
  - intros [Hall Hnd]. split_and!; [|intros (c' & Heq & Hc')|done].
    + intros c' [->|Hc']%elem_of_cons; [done|]. destruct (Hall c' Hc') as (? & ? & ?). set_solver.
    + destruct (Hall c' Hc') as (_ & Hn & _). rewrite Heq in Hn. set_solver.
  - intros (Hall & Hc & Hnd). split; [|done]. intros c' Hc'.
    destruct (Hall c') as (? & ? & ?); [by right|]. split_and!; [done| |done].
    rewrite not_elem_of_union, not_elem_of_singleton. split; [|done].
    intros Heq. apply Hc. by exists c'.
Qed.

(** The level of a built tree. *)
Record level_ok (r : DecompositionResult) : Prop := {
  lo_nodup : NoDup (level_ids r);
  lo_refs : refs_known (dp_subtasks (plan r));
  lo_acyclic : acyclic (declared (dp_subtasks (plan r)));
  lo_tasks : task_id <$> created_tasks r ≡ₚ level_ids r;
  lo_parents : NoDup (parent <$> children r);
  lo_hang : forall c, c ∈ children r -> parent c ∈ level_ids r;
  lo_depth : forall c, c ∈ children r -> depth c = (depth r + 1)%Z;
}.

Lemma built_level r : built r -> level_ok r.
Proof.
  intros [r' Hplan Hgraph Hval _]. clear r. rename r' into r.
  apply validate_subtasks_ok in Hplan as [_ Hnd _ _].
  apply validate_iff in Hgraph as [Hrefs Hac]; [|done].
  unfold _validate_plan_task_consistency in Hval.
  destruct (bool_decide (_ <> TaskStructure.AUTO)); [|done].
  destruct (length (created_tasks r) =? _) eqn:Hlen; [|done].
  destruct (bool_decide (list_to_set _ = _)) eqn:Hids; [|done].
  destruct (bool_decide (_ ∖ _ = ∅)); [|done].
  unfold _validate_children in Hval. apply children_loop_ok in Hval as [Hall Hpar].
  bool_to_prop.
  assert (Hperm : level_ids r ≡ₚ task_id <$> created_tasks r).
  { apply submseteq_length_Permutation.
    - apply NoDup_submseteq; [done|]. intros x Hx.
      apply (elem_of_list_to_set (C:=gset string)). rewrite Hids. by apply elem_of_list_to_set.
    - unfold level_ids. rewrite !length_fmap. lia. }
  split; try done.
  - intros c Hc. destruct (Hall c Hc) as (Hin & _). rewrite Hids in Hin.
    by apply elem_of_list_to_set in Hin.
  - intros c Hc. by destruct (Hall c Hc) as (_ & _ & ?).
Qed.

Lemma built_children r c : built r -> c ∈ children r -> built c.
Proof. intros [r' _ _ _ Hall] Hc. by apply (proj1 (Forall_forall _ _) Hall). Qed.

#[export] Hint Resolve lo_nodup lo_refs lo_acyclic lo_tasks lo_parents lo_hang lo_depth
  built_level built_children : py.

Lemma built_level_of r l : level_of r l -> built r -> built l.
Proof. induction 1; eauto using built_children. Qed.

(** ** A reference order

    Each level in its topological order, and before each of its units the
    whole subtree below it. *)

Definition level_order (r : DecompositionResult) : list string :=
  match topological_sort (new_graph (dp_subtasks (plan r))) with Ok l => l | Err _ => [] end.

Definition below {B} (f : DecompositionResult -> list B) (cs : list DecompositionResult)
    (x : string) : list B :=
  flat_map f (filter (fun c => parent c = x) cs).

Fixpoint tree_order (r : DecompositionResult) : list string :=
  let subtrees := (fun c => (parent c, tree_order c)) <$> children r in
  flat_map (fun x => flat_map snd (filter (fun e => e.1 = x) subtrees) ++ [x]) (level_order r).

Definition tree_ids (r : DecompositionResult) : list string := sub_id <$> all_subtasks r.

Lemma tree_order_eq r :
  tree_order r = flat_map (fun x => below tree_order (children r) x ++ [x]) (level_order r).
Proof.
  destruct r as [p ts es d cs]. simpl. apply flat_map_ext_elem. intros x _. f_equal.
  unfold below. induction cs as [|c cs IH]; [done|].
  rewrite fmap_cons, !filter_cons. simpl. case_decide; simpl; by rewrite IH.
Qed.

Lemma tree_ids_eq r : tree_ids r = level_ids r ++ flat_map tree_ids (children r).
Proof.
  unfold tree_ids at 1. destruct r as [p ts es d cs]. simpl.
  by rewrite fmap_app, flat_map_fmap.
Qed.

Lemma level_order_ok r :
  level_ok r -> level_order r ≡ₚ level_ids r /\
    ordered (declared (dp_subtasks (plan r))) (level_order r).
Proof.
  intros [Hnd Hrefs Hac _ _ _ _]. unfold level_order.
  destruct (topological_sort_cases _ Hnd Hrefs) as [(l & -> & Hp & Ho & _)|[_ Hcyc]].
  - split; [done|]. eapply ordered_ext; [|exact Ho]. intros x y. by apply new_graph_declared.
  - exfalso. by apply Hcyc, acyclic_declared.
Qed.

(** Subtrees sorted under the units they hang off are all the subtrees. *)
Lemma below_concat {B} (f : DecompositionResult -> list B) cs l :
  NoDup l -> (forall c, c ∈ cs -> parent c ∈ l) ->
  flat_map (below f cs) l ≡ₚ flat_map f cs.
Proof.
  intros Hnd. induction cs as [|c cs IH]; intros Hin.
  { simpl. by rewrite (proj2 (flat_map_nil (below f []) l)) by done. }
  simpl. rewrite <-IH by (intros; apply Hin; by right).
  assert (Hc : parent c ∈ l) by (apply Hin; left).
  apply elem_of_Permutation in Hc as [l' Hl']. rewrite Hl' in Hnd |- *.
  apply NoDup_cons in Hnd as [Hn _]. simpl.
  unfold below at 1. rewrite filter_cons, decide_True by done. simpl.
  fold (below f cs (parent c)). rewrite <-app_assoc.
  rewrite (flat_map_ext_elem (below f (c :: cs)) (below f cs) l'); [done|].
  intros x Hx. unfold below.
  rewrite filter_cons, decide_False; [done|]. by intros <-.
Qed.

Lemma tree_order_perm r : built r -> tree_order r ≡ₚ tree_ids r.
Proof.
  induction r as [r IH] using result_tree_ind. intros Hb.
  apply built_level in Hb as Hl. destruct (level_order_ok r Hl) as [Hp _].
  rewrite tree_order_eq, tree_ids_eq, flat_map_app_perm, flat_map_single, Hp.
  rewrite Permutation_app_comm. f_equiv.
  rewrite below_concat; [|apply Hl|apply Hl].
  assert (Hsub : forall c, c ∈ children r -> tree_order c ≡ₚ tree_ids c).
  { intros c Hc. apply (proj1 (Forall_forall _ _) IH c Hc). by eapply built_children. }
  clear -Hsub. induction (children r) as [|c cs IHcs]; [done|]. simpl.
  rewrite Hsub by left. f_equiv. apply IHcs. intros c' Hc'. apply Hsub. by right.
Qed.

(** ** The dispatch view's units *)

Lemma waits_on_lookup r inherited s :
  NoDup (level_ids r) -> s ∈ dp_subtasks (plan r) ->
  waits_on r inherited !! sub_id s = Some (or_else (sub_dependencies s) inherited).
Proof.
  intros Hnd Hs.
  by apply (dict_of_fmap sub_id (fun s => or_else (sub_dependencies s) inherited)).
Qed.

Lemma contained_by_lookup r c :
  NoDup (parent <$> children r) -> c ∈ children r -> contained_by r !! parent c = Some (level_ids c).
Proof. intros Hnd Hc. by apply (dict_of_fmap parent level_ids). Qed.

Lemma contained_by_elem r x y :
  NoDup (parent <$> children r) ->
  y ∈ default [] (contained_by r !! x) <->
  exists c, c ∈ children r /\ parent c = x /\ y ∈ level_ids c.
Proof.
  intros Hnd. destruct (decide (x ∈ parent <$> children r)) as [Hx|Hx].
  - apply list_elem_of_fmap in Hx as (c & -> & Hc). rewrite contained_by_lookup by done. simpl.
    split; [naive_solver|]. intros (c' & Hc' & Heq & Hy).
    pose proof (contained_by_lookup r c' Hnd Hc') as Hl.
    rewrite Heq, contained_by_lookup in Hl by done. by injection Hl as ->.
  - unfold contained_by. rewrite dict_of_fresh.
    + simpl. split; [by intros ?%not_elem_of_nil|].
      intros (c & Hc & <- & _). exfalso. by apply Hx, list_elem_of_fmap_2.
    + by rewrite <-list_fmap_compose.
Qed.

Lemma dispatch_own_id r inherited s : sub_id (dispatch_own r inherited s) = sub_id s.
Proof. unfold dispatch_own. by case_bool_decide. Qed.

Lemma dispatch_own_edges r inherited s :
  NoDup (level_ids r) -> s ∈ dp_subtasks (plan r) ->
  sub_dependencies (dispatch_own r inherited s) =
    or_else (sub_dependencies s) inherited ++ default [] (contained_by r !! sub_id s).
Proof.
  intros Hnd Hs. unfold dispatch_own. rewrite waits_on_lookup by done. simpl.
  by case_bool_decide.
Qed.

Lemma dispatch_after_eq r inherited :
  _dispatch_after r inherited =
  (dispatch_own r inherited <$> dp_subtasks (plan r)) ++
  flat_map (fun child => _dispatch_after child (default [] (waits_on r inherited !! parent child)))
    (children r).
Proof. by destruct r. Qed.

Lemma dispatch_ids r inherited : sub_id <$> _dispatch_after r inherited = tree_ids r.
Proof.
  revert inherited. induction r as [r IH] using result_tree_ind. intros inherited.
  rewrite dispatch_after_eq, tree_ids_eq, fmap_app, flat_map_fmap. f_equal.
  - unfold level_ids. rewrite <-list_fmap_compose. apply list_fmap_ext.
    intros i s _. apply dispatch_own_id.
  - apply flat_map_ext_elem. intros c Hc. by apply (proj1 (Forall_forall _ _) IH c Hc).
Qed.

Lemma or_else_elem ds inherited y : y ∈ or_else ds inherited -> y ∈ ds \/ y ∈ inherited.
Proof. destruct ds; simpl; auto. Qed.

Lemma or_else_declared ds inherited y : y ∈ ds -> y ∈ or_else ds inherited.
Proof. destruct ds; [by intros ?%not_elem_of_nil|done]. Qed.

(** ** The dispatch view is ordered *)

Lemma tree_ids_child r c : NoDup (tree_ids r) -> c ∈ children r -> NoDup (tree_ids c).
Proof.
  rewrite tree_ids_eq. intros (_ & _ & Hnd)%NoDup_app. by apply nodup_flat_map.
Qed.

Lemma below_unique {B} (f : DecompositionResult -> list B) cs c :
  NoDup (parent <$> cs) -> c ∈ cs -> below f cs (parent c) = f c.
Proof.
  unfold below. induction cs as [|c' cs IH]; [by intros _ ?%not_elem_of_nil|].
  intros [Hn Hnd]%NoDup_cons [<-|Hc]%elem_of_cons; rewrite filter_cons.
  - rewrite decide_True by done. simpl.
    enough (filter (fun c' => parent c' = parent c) cs = []) as -> by by rewrite app_nil_r.
    apply list_filter_nil || apply length_zero_iff_nil.
    destruct (filter (fun c' => parent c' = parent c) cs) as [|c' fs] eqn:Hf; [done|].
    exfalso. assert (c' ∈ filter (fun c' => parent c' = parent c) cs) as Hc' by (rewrite Hf; left).
    apply list_elem_of_filter in Hc' as [Heq Hc']. apply Hn. rewrite <-Heq.
    by apply list_elem_of_fmap_2.
  - rewrite decide_False; [by apply IH|]. intros Heq. apply Hn. rewrite Heq.
    by apply list_elem_of_fmap_2.
Qed.

(** Where a level's unit stands in the order of its subtree. *)
Lemma tree_order_unit r x :
  level_ok r -> x ∈ level_ids r ->
  exists la lb, tree_order r = (la ++ below tree_order (children r) x) ++ x :: lb /\
    forall y, y ∈ declared (dp_subtasks (plan r)) x -> y ∈ la.
Proof.
  intros Hl Hx. destruct (level_order_ok r Hl) as [Hp Ho].
  rewrite <-Hp in Hx. apply list_elem_of_split in Hx as (la & lb & Heq).
  set (F := fun x => below tree_order (children r) x ++ [x]).
  exists (flat_map F la), (flat_map F lb). split.
  - rewrite tree_order_eq, Heq, flat_map_app. simpl. by rewrite <-!app_assoc.
  - intros y Hy. apply elem_of_flat_map. exists y. split; [|set_solver].
    by apply (Ho la x lb Heq).
Qed.

Lemma dispatch_before r inherited s l1 l2 y :
  built r -> NoDup (tree_ids r) -> s ∈ _dispatch_after r inherited ->
  tree_order r = l1 ++ sub_id s :: l2 -> y ∈ sub_dependencies s ->
  y ∈ l1 \/ y ∈ inherited.
Proof.
  revert inherited l1 l2. induction r as [r IH] using result_tree_ind.
  intros inherited l1 l2 Hb Hnd Hs Heq Hy. apply built_level in Hb as Hl.
  assert (Hndo : NoDup (tree_order r)) by by rewrite tree_order_perm.
  rewrite dispatch_after_eq in Hs. apply elem_of_app in Hs as [Hs|Hs].
  - apply list_elem_of_fmap in Hs as (s0 & -> & Hs0). rewrite dispatch_own_id in Heq.
    destruct (tree_order_unit r (sub_id s0) Hl) as (la & lb & Hsplit & Hbefore);
      [by apply list_elem_of_fmap_2|].
    rewrite Hsplit in Heq, Hndo. apply nodup_split in Heq as <-; [|done].
    rewrite dispatch_own_edges in Hy by eauto with py.
    apply elem_of_app in Hy as [[Hy|Hy]%or_else_elem|Hy]; [left|by right|left].
    + apply elem_of_app. left. apply Hbefore, declared_elem. by exists s0.
    + apply contained_by_elem in Hy as (c & Hc & Hpar & Hy); [|apply Hl].
      apply elem_of_app. right. rewrite <-Hpar, below_unique by eauto with py.
      rewrite tree_order_perm by eauto with py. rewrite tree_ids_eq.
      apply elem_of_app. by left.
  - apply elem_of_flat_map in Hs as (c & Hc & Hs).
    pose proof (lo_hang r Hl c Hc) as Hpar.
    destruct (tree_order_unit r (parent c) Hl Hpar) as (la & lb & Hsplit & Hbefore).
    rewrite below_unique in Hsplit by eauto with py.
    assert (Hid : sub_id s ∈ tree_order c).
    { rewrite tree_order_perm by eauto with py.
      rewrite <-(dispatch_ids c (default [] (waits_on r inherited !! parent c))).
      by apply list_elem_of_fmap_2. }
    apply list_elem_of_split in Hid as (c1 & c2 & Hsc).
    assert (l1 = la ++ c1) as ->.
    { symmetry. apply (nodup_split (sub_id s) _ (c2 ++ parent c :: lb) _ l2).
      - rewrite Hsplit, Hsc in Hndo. by simplify_list_eq.
      - rewrite <-Heq, Hsplit, Hsc. by simplify_list_eq. }
    destruct (proj1 (Forall_forall _ _) IH c Hc _ c1 c2 (built_children r c Hb Hc)
      (tree_ids_child r c Hnd Hc) Hs Hsc Hy) as [?|Hin]; [set_solver|].
    apply list_elem_of_fmap in Hpar as (s0 & Hpar & Hs0).
    rewrite Hpar, waits_on_lookup in Hin by eauto with py. simpl in Hin.
    apply or_else_elem in Hin as [Hin|Hin]; [|by right].
    left. apply elem_of_app. left. apply Hbefore, declared_elem. exists s0. by rewrite Hpar.
Qed.

Lemma dispatch_ordered r :
  built r -> NoDup (tree_ids r) -> ordered (declared (dispatch_subtasks r)) (tree_order r).
Proof.
  intros Hb Hnd l1 x l2 Heq y (s & Hs & <- & Hy)%declared_elem.
  by destruct (dispatch_before r [] s l1 l2 y Hb Hnd Hs Heq Hy) as [?|?%not_elem_of_nil].
Qed.

Lemma level_dispatch r l inherited :
  level_of r l -> exists inherited', forall s, s ∈ _dispatch_after l inherited' ->
    s ∈ _dispatch_after r inherited.
Proof.
  intros Hl. revert inherited. induction Hl as [r|r c l Hc _ IH]; intros inherited.
  - by exists inherited.
  - destruct (IH (default [] (waits_on r inherited !! parent c))) as (inh' & Hin).
    exists inh'. intros s Hs. rewrite dispatch_after_eq. apply elem_of_app. right.
    apply elem_of_flat_map. exists c. auto.
Qed.

(** No edge of the dispatch view dangles, and they have no cycle. *)
Lemma dispatch_refs r : built r -> NoDup (tree_ids r) -> refs_known (dispatch_subtasks r).
Proof.
  intros Hb Hnd s d Hs Hd. unfold dispatch_subtasks. rewrite dispatch_ids, <-tree_order_perm by done.
  assert (Hs' : sub_id s ∈ tree_order r).
  { rewrite tree_order_perm, <-(dispatch_ids r []) by done. by apply list_elem_of_fmap_2. }
  eapply ordered_elem; [by apply dispatch_ordered|exact Hs'|]. apply declared_elem. by exists s.
Qed.

Lemma dispatch_acyclic r :
  built r -> NoDup (tree_ids r) -> acyclic (declared (dispatch_subtasks r)).
Proof.
  intros Hb Hnd. apply (ordered_acyclic _ (tree_order r)).
  - by rewrite tree_order_perm.
  - by apply dispatch_ordered.
  - intros x y (s & Hs & <- & _)%declared_elem.
    rewrite tree_order_perm, <-(dispatch_ids r []) by done. by apply list_elem_of_fmap_2.
Qed.

Lemma level_declared r l s y :
  built r -> level_of r l -> s ∈ dp_subtasks (plan l) ->
  y ∈ sub_dependencies s \/ y ∈ default [] (contained_by l !! sub_id s) ->
  y ∈ declared (dispatch_subtasks r) (sub_id s).
Proof.
  intros Hb Hl Hs Hy. destruct (level_dispatch r l [] Hl) as (inh & Hin).
  pose proof (built_level l (built_level_of r l Hl Hb)) as Hlo.
  apply declared_elem. exists (dispatch_own l inh s). split_and!.
  - apply Hin. rewrite dispatch_after_eq. apply elem_of_app. left. eauto with py.
  - apply dispatch_own_id.
  - rewrite dispatch_own_edges by eauto with py. apply elem_of_app.
    destruct Hy as [Hy|Hy]; [left|by right]. by apply or_else_declared.
Qed.

(** ** What a subtree waits for *)

Lemma inherited_gates r inherited (adj : string -> list string) w d :
  built r ->
  (forall s y, s ∈ _dispatch_after r inherited -> y ∈ sub_dependencies s -> y ∈ adj (sub_id s)) ->
  w ∈ tree_ids r -> d ∈ inherited -> tc (edge adj) w d.
Proof.
  revert inherited w d. induction r as [r IH] using result_tree_ind.
  intros inherited w d Hb Hadj Hw Hd. apply built_level in Hb as Hl.
  destruct (level_order_ok r Hl) as [Hp Ho].
  assert (Hown : forall s y, s ∈ dp_subtasks (plan r) ->
    y ∈ or_else (sub_dependencies s) inherited -> y ∈ adj (sub_id s)).
  { intros s y Hs Hy. rewrite <-(dispatch_own_id r inherited). apply Hadj.
    - rewrite dispatch_after_eq. apply elem_of_app. left. by apply list_elem_of_fmap_2.
    - rewrite dispatch_own_edges by eauto with py. apply elem_of_app. by left. }
  assert (Hlevel : forall l1 l2 x, level_order r = l1 ++ l2 -> x ∈ l1 -> tc (edge adj) x d).
  { induction l1 as [|x l1 IHl] using rev_ind; intros l2 z Heq Hz; [by apply not_elem_of_nil in Hz|].
    rewrite <-app_assoc in Heq. apply elem_of_app in Hz as [Hz| ->%list_elem_of_singleton];
      [by eapply IHl|].
    assert (x ∈ level_ids r) as Hx by (rewrite <-Hp, Heq; set_solver).
    apply list_elem_of_fmap in Hx as (s & -> & Hs).
    destruct (sub_dependencies s) as [|y ys] eqn:Hds.
    - apply tc_once, Hown; [done|]. by rewrite Hds.
    - assert (Hy : y ∈ sub_dependencies s) by (rewrite Hds; left).
      eapply tc_l; [apply Hown; [done|rewrite Hds; left]|].
      eapply IHl; [exact Heq|]. apply (Ho l1 (sub_id s) l2 Heq), declared_elem. by exists s. }
  assert (Hids : forall x, x ∈ level_ids r -> tc (edge adj) x d).
  { intros x Hx. apply (Hlevel (level_order r) []); [by rewrite app_nil_r|by rewrite Hp]. }
  rewrite tree_ids_eq in Hw. apply elem_of_app in Hw as [Hw|Hw]; [by apply Hids|].
  apply elem_of_flat_map in Hw as (c & Hc & Hw).
  pose proof (lo_hang r Hl c Hc) as Hpar. apply list_elem_of_fmap in Hpar as (s & Hpar & Hs).
  assert (Hgo : forall y, y ∈ or_else (sub_dependencies s) inherited -> tc (edge adj) w y).
  { intros y Hy.
    apply (proj1 (Forall_forall _ _) IH c Hc (default [] (waits_on r inherited !! parent c)));
      [by eauto with py| |done|].
    - intros s' y' Hs'. apply Hadj. rewrite dispatch_after_eq. apply elem_of_app. right.
      apply elem_of_flat_map. by exists c.
    - by rewrite Hpar, waits_on_lookup by eauto with py. }
  destruct (sub_dependencies s) as [|y ys] eqn:Hds; [by apply Hgo|].
  transitivity y; [apply Hgo; left|]. apply Hids.
  apply (lo_refs r Hl s y Hs). rewrite Hds. left.
Qed.

(** ** The leaves *)

(** Every unit of the tree that was split. *)
Fixpoint split_parents (r : DecompositionResult) : list string :=
  (parent <$> children r) ++ flat_map split_parents (children r).

Fixpoint height (r : DecompositionResult) : nat :=
  foldr Nat.max 0 ((fun c => S (height c)) <$> children r).

Lemma split_parents_eq r :
  split_parents r = (parent <$> children r) ++ flat_map split_parents (children r).
Proof. by destruct r. Qed.

Lemma split_parents_ids r x : built r -> x ∈ split_parents r -> x ∈ tree_ids r.
Proof.
  induction r as [r IH] using result_tree_ind. intros Hb.
  rewrite split_parents_eq, tree_ids_eq, !elem_of_app, !elem_of_flat_map.
  apply built_level in Hb as Hl. intros [Hx|(c & Hc & Hx)].
  - left. apply list_elem_of_fmap in Hx as (c & -> & Hc). by apply Hl.
  - right. exists c. split; [done|].
    apply (proj1 (Forall_forall _ _) IH c Hc); [by eauto with py|done].
Qed.

Lemma all_tasks_eq r : all_tasks r = created_tasks r ++ flat_map all_tasks (children r).
Proof. by destruct r. Qed.

Lemma leaf_tasks_eq r :
  leaf_tasks r = filter (fun t => task_id t ∉ split_task_ids r) (created_tasks r) ++
                 flat_map leaf_tasks (children r).
Proof. by destruct r. Qed.

Lemma all_tasks_ids r : built r -> task_id <$> all_tasks r ≡ₚ tree_ids r.
Proof.
  induction r as [r IH] using result_tree_ind. intros Hb.
  apply built_level in Hb as Hl.
  rewrite all_tasks_eq, tree_ids_eq, fmap_app, flat_map_fmap, (lo_tasks r Hl). f_equiv.
  apply flat_map_perm_ext. intros c Hc.
  apply (proj1 (Forall_forall _ _) IH c Hc). by eapply built_children.
Qed.

Lemma all_tasks_id r t : built r -> t ∈ all_tasks r -> task_id t ∈ tree_ids r.
Proof. intros Hb Ht. rewrite <-all_tasks_ids by done. by apply list_elem_of_fmap_2. Qed.

Lemma leaf_tasks_elem r t :
  built r -> NoDup (tree_ids r) ->
  t ∈ leaf_tasks r <-> t ∈ all_tasks r /\ task_id t ∉ split_parents r.
Proof.
  induction r as [r IH] using result_tree_ind. intros Hb Hnd.
  apply built_level in Hb as Hl. pose proof Hnd as Hnd'. rewrite tree_ids_eq in Hnd'.
  apply NoDup_app in Hnd' as (_ & Hdis & Hsub).
  assert (HIH : forall c, c ∈ children r ->
    t ∈ leaf_tasks c <-> t ∈ all_tasks c /\ task_id t ∉ split_parents c).
  { intros c Hc. apply (proj1 (Forall_forall _ _) IH c Hc);
      eauto using built_children, tree_ids_child. }
  assert (Hlow : forall c x, c ∈ children r -> x ∈ tree_ids c -> x ∉ level_ids r).
  { intros c x Hc Hx Hlx. apply (Hdis x Hlx), elem_of_flat_map. by exists c. }
  rewrite leaf_tasks_eq, all_tasks_eq, split_parents_eq, !elem_of_app, list_elem_of_filter,
    !elem_of_flat_map. unfold split_task_ids. rewrite elem_of_list_to_set. split.
  - intros [[Hpar Ht]|(c & Hc & Ht)].
    + assert (Hid : task_id t ∈ level_ids r)
        by (rewrite <-(lo_tasks r Hl); by apply list_elem_of_fmap_2).
      split; [by left|]. intros [?|(c & Hc & Hx)]; [done|].
      eapply Hlow; [exact Hc| |exact Hid]. apply split_parents_ids; [by eauto with py|done].
    + apply HIH in Ht as [Ht Hn]; [|done].
      assert (Hid : task_id t ∈ tree_ids c) by (apply all_tasks_id; [by eauto with py|done]).
      split; [right; by exists c|]. intros [Hx|(c' & Hc' & Hx)].
      * apply list_elem_of_fmap in Hx as (c' & Heq & Hc'). apply (Hlow c (task_id t) Hc Hid).
        rewrite Heq. by apply Hl.
      * apply Hn. replace c with c'; [done|].
        apply (nodup_flat_map_same tree_ids (children r) c' c (task_id t)); try done.
        apply split_parents_ids; [by eauto with py|done].
  - intros [[Ht|(c & Hc & Ht)] Hn].
    + left. split; [|done]. intros Hx. apply Hn. by left.
    + right. exists c. split; [done|]. apply HIH; [done|]. split; [done|].
      intros Hx. apply Hn. right. by exists c.
Qed.

Lemma filter_split_length {A} (P : A -> Prop) `{forall x, Decision (P x)} l :
  length l = length (filter (fun x => ~ P x) l) + length (filter P l).
Proof.
  induction l as [|x l IH]; [done|]. rewrite !filter_cons.
  repeat case_decide; simpl; done || lia.
Qed.

Lemma leaf_tasks_length r :
  built r -> length (all_tasks r) = length (leaf_tasks r) + length (split_parents r).
Proof.
  induction r as [r IH] using result_tree_ind. intros Hb. apply built_level in Hb as Hl.
  rewrite all_tasks_eq, leaf_tasks_eq, split_parents_eq, !length_app.
  rewrite (filter_split_length (fun t => task_id t ∈ split_task_ids r) (created_tasks r)).
  assert (Hcont : task_id <$> filter (fun t => task_id t ∈ split_task_ids r) (created_tasks r)
                  ≡ₚ parent <$> children r).
  { apply NoDup_Permutation; [|apply Hl|].
    - eapply sublist_NoDup; [|apply fmap_sublist, sublist_filter].
      rewrite (lo_tasks r Hl). apply Hl.
    - intros x. rewrite list_elem_of_fmap. setoid_rewrite list_elem_of_filter.
      unfold split_task_ids. split.
      + intros (t & -> & Hp & _). by apply (elem_of_list_to_set (C:=gset string)).
      + intros Hx. assert (Hx' : x ∈ task_id <$> created_tasks r).
        { rewrite (lo_tasks r Hl). apply list_elem_of_fmap in Hx as (c & -> & Hc). by apply Hl. }
        apply list_elem_of_fmap in Hx' as (t & -> & Ht). exists t. split_and!; [done| |done].
        by apply elem_of_list_to_set. }
  apply Permutation_length in Hcont. rewrite !length_fmap in Hcont. rewrite Hcont, length_fmap.
  enough (length (flat_map all_tasks (children r)) =
    length (flat_map leaf_tasks (children r)) + length (flat_map split_parents (children r))) by lia.
  assert (Hsub : forall c, c ∈ children r ->
    length (all_tasks c) = length (leaf_tasks c) + length (split_parents c)).
  { intros c Hc. apply (proj1 (Forall_forall _ _) IH c Hc). by eapply built_children. }
  clear -Hsub. induction (children r) as [|c cs IHcs]; [done|]. simpl. rewrite !length_app.
  rewrite Hsub by left. rewrite IHcs; [lia|]. intros c' Hc'. apply Hsub. by right.
Qed.

Lemma max_depth_eq r :
  max_depth_reached r =
  match max_depth_reached <$> children r with [] => depth r | d :: ds => foldl Z.max d ds end.
Proof. by destruct r. Qed.

Lemma height_eq r : height r = foldr Nat.max 0 ((fun c => S (height c)) <$> children r).
Proof. by destruct r. Qed.

Lemma foldl_max_shift (z : Z) (hs : list nat) h :
  foldl Z.max (z + Z.of_nat h)%Z ((fun h => (z + Z.of_nat h)%Z) <$> hs) =
  (z + Z.of_nat (foldr Nat.max h hs))%Z.
Proof.
  revert h. induction hs as [|h' hs IH]; intros h; [done|]. simpl.
  replace (Z.max (z + Z.of_nat h) (z + Z.of_nat h')) with (z + Z.of_nat (Nat.max h h'))%Z by lia.
  rewrite IH. do 2 f_equal. clear. induction hs as [|x hs IH]; simpl; lia.
Qed.

Lemma max_depth_height r : built r -> max_depth_reached r = (depth r + Z.of_nat (height r))%Z.
Proof.
  induction r as [r IH] using result_tree_ind. intros Hb. apply built_level in Hb as Hl.
  rewrite max_depth_eq, height_eq.
  assert (Hsub : max_depth_reached <$> children r =
    (fun h => (depth r + Z.of_nat h)%Z) <$> ((fun c => S (height c)) <$> children r)).
  { rewrite <-list_fmap_compose. apply list_fmap_ext. intros i c Hc%list_elem_of_lookup_2.
    rewrite (proj1 (Forall_forall _ _) IH c Hc) by eauto with py.
    rewrite (lo_depth r Hl c Hc). simpl. lia. }
  rewrite Hsub. destruct (children r) as [|c cs]; [simpl; lia|]. cbn [fmap list_fmap].
  rewrite foldl_max_shift. do 2 f_equal. clear.
  generalize ((fun c => S (height c)) <$> cs). intros hs. simpl.
  induction hs as [|x hs IH]; simpl; lia.
Qed.

(** ** Properties *)

(** C14: the dispatch view of a tree the service built, its unit ids distinct:
    it holds every unit of every level once, under the same ids; the wave
    builder's graph checks accept it, so no edge dangles and no cycle was
    introduced; every edge a planner declared is kept; a split unit waits for
    each unit of the level below it; whatever a split unit was declared to wait
    for, every unit of its subtree waits for, directly or through others; and a
    tree that never split is dispatched as its plan. *)
Theorem dispatch_sound (r : DecompositionResult) (Hb : built r) (Hnd : NoDup (tree_ids r)) :
  let ds := dispatch_subtasks r in
  sub_id <$> ds = tree_ids r /\
  validate (new_graph ds) = Ok tt /\
  (forall l s d, level_of r l -> s ∈ dp_subtasks (plan l) -> d ∈ sub_dependencies s ->
     d ∈ declared ds (sub_id s)) /\
  (forall l c w, level_of r l -> c ∈ children l -> w ∈ level_ids c -> w ∈ declared ds (parent c)) /\
  (forall l c s d w, level_of r l -> c ∈ children l -> s ∈ dp_subtasks (plan l) ->
     sub_id s = parent c -> d ∈ sub_dependencies s -> w ∈ tree_ids c ->
     tc (edge (declared ds)) w d) /\
  (children r = [] -> ds = dp_subtasks (plan r)).
Proof.
  intros ds. pose proof (dispatch_ids r []) as Hids. fold (dispatch_subtasks r) ds in Hids.
  split_and!; [done| | | | |].
  - apply validate_iff; [by rewrite Hids|].
    split; [by apply dispatch_refs|by apply dispatch_acyclic].
  - intros l s d Hl Hs Hd. apply (level_declared r l); auto.
  - intros l c w Hl Hc Hw. pose proof (built_level l (built_level_of r l Hl Hb)) as Hlo.
    pose proof (lo_hang l Hlo c Hc) as Hpar. apply list_elem_of_fmap in Hpar as (s & Hpar & Hs).
    rewrite Hpar. apply (level_declared r l); [done..|]. right.
    apply contained_by_elem; [apply Hlo|]. by exists c.
  - intros l c s d w Hl Hc Hs Hpar Hd Hw.
    pose proof (built_level_of r l Hl Hb) as Hbl. apply built_level in Hbl as Hlo.
    destruct (level_dispatch r l [] Hl) as (inh & Hin).
    apply (inherited_gates c (default [] (waits_on l inh !! parent c))); [by eauto with py| |done|].
    + intros s' y Hs' Hy. apply declared_elem. exists s'. split_and!; [|done|done].
      apply Hin. rewrite dispatch_after_eq. apply elem_of_app. right.
      apply elem_of_flat_map. by exists c.
    + rewrite <-Hpar, waits_on_lookup by eauto with py. simpl.
      by apply or_else_declared.
  - intros Hflat. unfold ds, dispatch_subtasks. rewrite dispatch_after_eq, Hflat. simpl.
    rewrite app_nil_r. transitivity (id <$> dp_subtasks (plan r)); [|apply list_fmap_id].
    apply list_fmap_ext. intros i s Hs%list_elem_of_lookup_2.
    unfold dispatch_own. rewrite waits_on_lookup by (done || apply (built_level r Hb)).
    unfold contained_by. rewrite Hflat. simpl. rewrite app_nil_r.
    rewrite bool_decide_eq_true_2; [done|]. by destruct (sub_dependencies s).
Qed.

(** The leaves of a built tree with distinct ids are the tasks no
    decomposition below replaced, each once; together with the split units they
    are all the tasks; and the depth a tree reached is its root's depth plus
    the number of levels below. *)
Theorem leaves_exact (r : DecompositionResult) (Hb : built r) (Hnd : NoDup (tree_ids r)) :
  (forall t, t ∈ leaf_tasks r <-> t ∈ all_tasks r /\ task_id t ∉ split_parents r) /\
  task_id <$> all_tasks r ≡ₚ tree_ids r /\
  length (all_tasks r) = length (leaf_tasks r) + length (split_parents r) /\
  max_depth_reached r = (depth r + Z.of_nat (height r))%Z.
Proof.
  split_and!.
  - intros t. by apply leaf_tasks_elem.
  - by apply all_tasks_ids.
  - by apply leaf_tasks_length.
  - by apply max_depth_height.
Qed.

(** ** A tree of three levels

    [docs] waits for [app], which waits for [design]; [app] was split into
    [ui], which waits for [api], and [api] again into [routes]. *)

Definition level (p : string) (d : Z) (ss : list SubtaskDefinition)
    (cs : list DecompositionResult) : DecompositionResult := {|
  plan := {| dp_parent_task_id := p; dp_subtasks := ss;
    dp_task_structure := TaskStructure.MIXED;
    dp_coordination_topology := CoordinationTopology.AUTO;
    dp_open_questions := []; dp_assumptions := []; dp_planning_strategy := None |};
  created_tasks := (fun s => {| task_id := sub_id s; task_title := sub_title s;
    task_status := TaskStatus.CREATED; assigned_to := None |}) <$> ss;
  dependency_edges := flat_map (fun s => (fun d => (d, sub_id s)) <$> sub_dependencies s) ss;
  depth := d; children := cs |}.

Definition api_level := level "api" 2 [unit_subtask "routes" []] [].
Definition app_level :=
  level "app" 1 [unit_subtask "ui" ["api"]; unit_subtask "api" []] [api_level].
Definition portal := level "root" 0
  [unit_subtask "docs" ["app"]; unit_subtask "app" ["design"]; unit_subtask "design" []] [app_level].

Example portal_dispatch :
  (fun s => (sub_id s, sub_dependencies s)) <$> dispatch_subtasks portal =
  [("docs", ["app"]); ("app", ["design"; "ui"; "api"]); ("design", []);
   ("ui", ["api"]); ("api", ["design"; "routes"]); ("routes", ["design"])].
Proof. vm_compute. reflexivity. Qed.

Example portal_leaves : task_id <$> leaf_tasks portal = ["docs"; "design"; "ui"; "routes"].
Proof. vm_compute. reflexivity. Qed.

Lemma portal_built : built portal.
Proof.
  constructor; [vm_compute; reflexivity..|]. constructor; [|constructor].
  constructor; [vm_compute; reflexivity..|]. constructor; [|constructor].
  constructor; [vm_compute; reflexivity..|]. constructor.
Qed.

Lemma portal_nodup : NoDup (tree_ids portal).
Proof. apply (bool_decide_unpack _). vm_compute. exact I. Qed.

Lemma dispatch_sound_witness :
  validate (new_graph (dispatch_subtasks portal)) = Ok tt /\
  tc (edge (declared (dispatch_subtasks portal))) "routes" "design".
Proof.
  destruct (dispatch_sound portal portal_built portal_nodup)
    as (_ & Hv & _ & _ & Hgate & _).
  split; [exact Hv|].
  apply (Hgate portal app_level (unit_subtask "app" ["design"])).
  - constructor.
  - left.
  - right. left.
  - reflexivity.
  - left.
  - apply (bool_decide_unpack _). vm_compute. exact I.
Defined.

Lemma leaves_exact_witness :
  max_depth_reached portal = 2%Z /\ length (all_tasks portal) = 4 + 2.
Proof.
  destruct (leaves_exact portal portal_built portal_nodup) as (_ & _ & Hlen & Hdepth).
  split; [rewrite Hdepth; reflexivity|rewrite Hlen; reflexivity].
Defined.
