(* ===== verification/Waves.v ===== *)
(** * Waves

    [engine/coordination/group_builder.py]: the execution groups a routed
    decomposition is dispatched in, with [dependency_map] and the dependency
    gate of [_dependency_gate.py], the validators of [ParallelExecutionGroup]
    ([engine/parallel_models.py]) and [RoutingResult]
    ([engine/routing/models.py]). An agent identity is its id; a candidate is
    the agent it names. *)

From stdpp Require Import gmap strings pretty list sorting relations.
From Stdlib Require Import ZArith Lia.
From S2P Require Import Prelude TaskEnums Graphs PlanUnits Dag DecompTree.
Local Open Scope py_scope.

(** ** Data *)

Record RoutingDecision := { subtask_id : string; selected_candidate : string }.

Record RoutingResult := { decisions : list RoutingDecision; unroutable : list string }.

Record Workspace := { ws_task_id : string; worktree_path : string }.

Record CoordinationConfig := { max_concurrency_per_wave : option Z; cfg_fail_fast : bool }.

Record AgentAssignment := { identity : string; task : Task; resource_claims : list string }.

Definition assigned_id (a : AgentAssignment) : string := task_id (task a).

Record ParallelExecutionGroup := {
  group_id : string;
  assignments : list AgentAssignment;
  max_concurrency : option Z;
  fail_fast : bool;
  dag_level : nat;
}.

Inductive WaveError :=
| GraphError (e : DagError)
| NoCreatedTask (subtask_id : string)
| EmptyGroup
| DuplicateTaskIds (dupes : list string)
| DuplicateAgentIds (dupes : list string).

#[export] Instance wave_error_eq_dec : EqDecision WaveError.
Proof. solve_decision. Defined.

(** [RoutingResult._validate_unique_subtask_ids]. *)
Inductive RoutingError :=
| DuplicateDecisions (dupes : list string)
| DuplicateUnroutable (dupes : list string)
| Overlap (ids : list string).

Definition _validate_unique_subtask_ids (rr : RoutingResult) : result RoutingError unit :=
  let ids := subtask_id <$> decisions rr in
  ensure bool_decide (duplicates ids = []) else DuplicateDecisions (duplicates ids) in
  ensure bool_decide (duplicates (unroutable rr) = []) else DuplicateUnroutable (duplicates (unroutable rr)) in
  let overlap : gset string := list_to_set ids ∩ list_to_set (unroutable rr) in
  ensure bool_decide (overlap = ∅) else Overlap (sorted_set overlap) in
  Ok tt.

(** [ParallelExecutionGroup._validate_assignments]. *)
Definition _validate_assignments (g : ParallelExecutionGroup) : result WaveError unit :=
  ensure bool_decide (assignments g <> []) else EmptyGroup in
  let task_ids := assigned_id <$> assignments g in
  ensure bool_decide (duplicates task_ids = []) else DuplicateTaskIds (duplicates task_ids) in
  let agent_ids := identity <$> assignments g in
  ensure bool_decide (duplicates agent_ids = []) else DuplicateAgentIds (duplicates agent_ids) in
  Ok tt.

(** ** Rounds *)

(** One turn of the [for assignment in assignments] loop: the first round the
    agent is not in, else a new round. *)
Fixpoint place (a : AgentAssignment) (rounds : list (gset string * list AgentAssignment))
    : list (gset string * list AgentAssignment) :=
  match rounds with
  | [] => [({[identity a]}, [a])]
  | (taken, round) :: rounds =>
      if bool_decide (identity a ∉ taken)
      then ({[identity a]} ∪ taken, round ++ [a]) :: rounds
      else (taken, round) :: place a rounds
  end.

Definition _rounds_by_agent (xs : list AgentAssignment) : list (list AgentAssignment) :=
  snd <$> foldl (fun rounds a => place a rounds) [] xs.

(** ** Waves *)

Definition dependency_map (ss : list SubtaskDefinition) : gmap string (list string) :=
  dict_of ((fun s => (sub_id s, sub_dependencies s)) <$> ss).

Definition _build_workspace_lookup (ws : list Workspace) : gmap string string :=
  dict_of ((fun w => (ws_task_id w, worktree_path w)) <$> ws).

Definition _build_routing_lookup (rr : RoutingResult) : gmap string RoutingDecision :=
  dict_of ((fun d => (subtask_id d, d)) <$> decisions rr).

Definition task_lookup_of (r : DecompositionResult) : gmap string Task :=
  dict_of ((fun t => (task_id t, t)) <$> all_tasks r).

(** The copy of the task that states the assignment the wave intends. *)
Definition assign (t : Task) (agent : string) : Task := {|
  task_id := task_id t; task_title := task_title t;
  task_status := TaskStatus.ASSIGNED; assigned_to := Some agent |}.

Section Build.
Variables (dep_map : gmap string (list string)) (routing_lookup : gmap string RoutingDecision)
  (workspace_lookup : gmap string string) (task_lookup : gmap string Task)
  (config : CoordinationConfig).

Definition claims_of (sid : string) : list string :=
  match workspace_lookup !! sid with
  | Some path => if bool_decide (path = ""%string) then [] else [path]
  | None => []
  end.

(** The loop over one wave's subtask ids. *)
Fixpoint wave_loop (sids : list string) (blocked : gset string) (acc : list AgentAssignment)
    : result WaveError (list AgentAssignment * gset string) :=
  match sids with
  | [] => Ok (acc, blocked)
  | sid :: sids =>
      let deps := default [] (dep_map !! sid) in
      if bool_decide (list_to_set deps ∩ blocked ≠ ∅)
      then wave_loop sids ({[sid]} ∪ blocked) acc
      else
        match routing_lookup !! sid with
        | None => wave_loop sids ({[sid]} ∪ blocked) acc
        | Some decision =>
            match task_lookup !! sid with
            | None => Err (NoCreatedTask sid)
            | Some t =>
                wave_loop sids blocked
                  (acc ++ [{| identity := selected_candidate decision;
                              task := assign t (selected_candidate decision);
                              resource_claims := claims_of sid |}])
            end
        end
  end.

Definition group_name (wave_idx round_idx : nat) : string :=
  (if (round_idx =? 0)%nat then "wave-" +:+ pretty wave_idx
   else "wave-" +:+ pretty wave_idx +:+ "-" +:+ pretty round_idx)%string.

(** The groups of one wave's rounds, each validated as it is built. *)
Fixpoint round_groups (wave_idx round_idx : nat) (rounds : list (list AgentAssignment))
    : result WaveError (list ParallelExecutionGroup) :=
  match rounds with
  | [] => Ok []
  | xs :: rounds =>
      let g := {| group_id := group_name wave_idx round_idx; assignments := xs;
                  max_concurrency := max_concurrency_per_wave config;
                  fail_fast := cfg_fail_fast config; dag_level := wave_idx |} in
      let* _ := _validate_assignments g in
      let* gs := round_groups wave_idx (S round_idx) rounds in
      Ok (g :: gs)
  end.

(** The loop over the waves. A wave with no assignment yields no group. *)
Fixpoint waves_loop (wave_idx : nat) (waves : list (list string)) (blocked : gset string)
    : result WaveError (list ParallelExecutionGroup) :=
  match waves with
  | [] => Ok []
  | sids :: waves =>
      let* out := wave_loop sids blocked [] in
      let* gs := round_groups wave_idx 0 (_rounds_by_agent out.1) in
      let* rest := waves_loop (S wave_idx) waves out.2 in
      Ok (gs ++ rest)
  end.
End Build.

Definition lift_graph {A} (r : result DagError A) : result WaveError A :=
  match r with Ok a => Ok a | Err e => Err (GraphError e) end.

Definition build_execution_waves (r : DecompositionResult) (rr : RoutingResult)
    (config : CoordinationConfig) (workspaces : list Workspace)
    : result WaveError (list ParallelExecutionGroup) :=
  let subtasks := dispatch_subtasks r in
  let* waves := lift_graph (parallel_groups (new_graph subtasks)) in
  waves_loop (dependency_map subtasks) (_build_routing_lookup rr)
    (_build_workspace_lookup workspaces) (task_lookup_of r) config 0 waves ∅.

(** ** Rounds hold distinct agents *)

Definition agents (xs : list AgentAssignment) : list string := identity <$> xs.

Lemma agents_snoc xs a : agents (xs ++ [a]) = agents xs ++ [identity a].
Proof. unfold agents. by rewrite fmap_app. Qed.

(** The round a round's set of taken agents describes. *)
Definition round_ok (e : gset string * list AgentAssignment) : Prop :=
  e.2 <> [] /\ NoDup (agents e.2) /\ e.1 = list_to_set (agents e.2).

Lemma place_perm a rounds : concat (place a rounds).*2 ≡ₚ a :: concat rounds.*2.
Proof.
  induction rounds as [|[taken round] rounds IH]; simpl; [done|].
  case_bool_decide; simpl.
  - rewrite <-app_assoc. symmetry. apply Permutation_middle.
  - rewrite IH. symmetry. apply Permutation_middle.
Qed.

Lemma place_ok a rounds : Forall round_ok rounds -> Forall round_ok (place a rounds).
Proof.
  induction 1 as [|[taken round] rounds (Hne & Hnd & Heq) Hall IH]; simpl.
  - constructor; [|constructor]. split_and!; simpl; [done|apply NoDup_singleton|set_solver].
  - simpl in *. subst taken. case_bool_decide as Ha; [|by repeat constructor].
    constructor; [|done]. rewrite elem_of_list_to_set in Ha. split_and!; simpl.
    + by destruct round.
    + rewrite agents_snoc. apply NoDup_app. simpl.
      split_and!; [done|set_solver|apply NoDup_singleton].
    + rewrite agents_snoc, list_to_set_app_L. simpl. set_solver.
Qed.

Lemma rounds_snoc xs a :
  foldl (fun rounds a => place a rounds) [] (xs ++ [a]) =
  place a (foldl (fun rounds a => place a rounds) [] xs).
Proof. by rewrite foldl_app. Qed.

Lemma place_round a rounds i g :
  Forall round_ok rounds ->
  (exists e, place a rounds !! i = Some e /\ g ∈ agents e.2) <->
  (exists e, rounds !! i = Some e /\ g ∈ agents e.2) \/
  (g = identity a /\ (forall j e, j < i -> rounds !! j = Some e -> g ∈ agents e.2) /\
   i <= length rounds /\ (forall e, rounds !! i = Some e -> g ∉ agents e.2)).
Proof.
  intros Hall. revert i. induction Hall as [|[taken round] rounds (_ & _ & Heq) _ IH]; intros i.
  - destruct i as [|i]; simpl.
    + split.
      * intros (e & [= <-] & Hg). right. simpl in Hg. split_and!; [set_solver|lia|lia|done].
      * intros [(e & ? & _)|(-> & _)]; [done|]. eexists. split; [done|]. simpl. left.
    + split; [by intros (e & ? & _)|]. intros [(e & ? & _)|(_ & _ & ? & _)]; [done|lia].
  - simpl in Heq. subst taken. simpl. case_bool_decide as Ha; rewrite elem_of_list_to_set in Ha.
    + destruct i as [|i]; simpl.
      * split.
        { intros (e & [= <-] & Hg). simpl in Hg. rewrite agents_snoc in Hg.
          apply elem_of_app in Hg as [Hg|Hg]; [left; eexists; by split|right].
          apply list_elem_of_singleton in Hg as ->. split_and!; [done|lia|lia|]. by intros e [= <-]. }
        intros [(e & [= <-] & Hg)|(-> & _)]; eexists; (split; [done|]); simpl; rewrite agents_snoc; set_solver.
      * split; [intros; by left|]. intros [?|(-> & Hlow & _)]; [done|].
        exfalso. apply Ha. exact (Hlow 0 _ (Nat.lt_0_succ i) eq_refl).
    + destruct i as [|i]; simpl.
      * split; [intros; by left|]. intros [?|(-> & _ & _ & Hn)]; [done|].
        exfalso. exact (Hn _ eq_refl Ha).
      * rewrite IH. split; (intros [?|(-> & Hlow & Hlen & Hn)]; [by left|right]).
        -- split_and!; [done| |simpl in *; lia|done].
           intros [|j] e Hj He; [|by apply (Hlow j); [lia|]]. by injection He as <-.
        -- split_and!; [done| |simpl in *; lia|done].
           intros j e Hj He. by apply (Hlow (S j)); [lia|].
Qed.

(** What the greedy split builds: round [i] holds one assignment of each agent
    that has more than [i] of them. *)
Lemma rounds_inv xs :
  let rounds := foldl (fun rounds a => place a rounds) [] xs in
  Forall round_ok rounds /\ concat rounds.*2 ≡ₚ xs /\
  forall i g, (exists e, rounds !! i = Some e /\ g ∈ agents e.2) <-> i < count g (agents xs).
Proof.
  induction xs as [|a xs (Hok & Hp & Hc)] using rev_ind; cbv zeta.
  { split_and!; [constructor|done|]. intros i g. simpl. split; [by intros (e & ? & _)|].
    intros Hlt. exfalso. rewrite count_nil in Hlt. lia. }
  rewrite rounds_snoc. set (rounds := foldl _ [] xs) in *. split_and!.
  - by apply place_ok.
  - rewrite place_perm, Hp. apply Permutation_cons_append.
  - intros i g. rewrite place_round by done. rewrite Hc.
    rewrite agents_snoc. autorewrite with py.
    set (c := count (identity a) (agents xs)).
    split.
    + intros [?|(-> & Hlow & Hlen & _)]; [lia|]. rewrite decide_True by done.
      fold c. destruct (decide (i <= c)) as [|Hn]; [lia|]. exfalso.
      destruct (lookup_lt_is_Some_2 rounds c) as [e He]; [lia|].
      assert (c < c); [|lia]. apply Hc. exists e. split; [done|]. apply (Hlow c); [lia|done].
    + case_decide as Hg; [subst g|intros; left; lia]. fold c. intros Hi.
      destruct (decide (i < c)) as [|Hn]; [by left|right]. assert (i = c) as -> by lia.
      split_and!; [done| | |].
      * intros j e Hj He. destruct (proj2 (Hc j (identity a)) Hj) as (e' & He' & ?).
        by simplify_eq.
      * destruct c as [|c'] eqn:Hc'; [lia|].
        destruct (proj2 (Hc c' (identity a))) as (e & He%lookup_lt_Some & _); [lia|lia].
      * intros e He Hin. assert (c < c); [|lia]. apply Hc. by exists e.
Qed.

(** ** One wave *)

Section Loop.
Variables (dep_map : gmap string (list string)) (routing_lookup : gmap string RoutingDecision)
  (workspace_lookup : gmap string string) (task_lookup : gmap string Task)
  (config : CoordinationConfig).

Let adj (x : string) : list string := default [] (dep_map !! x).

(** Neither the unit nor anything it waits for was left without an agent. *)
Definition runnable (x : string) : Prop :=
  forall y, rtc (edge adj) x y -> is_Some (routing_lookup !! y).

Lemma runnable_step x :
  runnable x <-> is_Some (routing_lookup !! x) /\ forall y, y ∈ adj x -> runnable y.
Proof.
  split.
  - intros Hr. split; [by apply Hr|]. intros y Hy z Hz. apply Hr. by eapply rtc_l.
  - intros [Hx Hdeps] y Hy. inversion Hy as [|? z ? Hxz Hzy]; subst; [done|].
    by apply (Hdeps z).
Qed.

(** An assignment gives the unit's task, marked as assigned, to the routed
    agent. *)
Definition honours (a : AgentAssignment) : Prop :=
  exists t d, task_lookup !! assigned_id a = Some t /\
    routing_lookup !! assigned_id a = Some d /\
    identity a = selected_candidate d /\ task a = assign t (selected_candidate d) /\
    resource_claims a = claims_of workspace_lookup (assigned_id a).

(** [blocked] tells the processed units that run from those that do not. *)
Definition blocked_inv (done : list string) (blocked : gset string) : Prop :=
  (forall y, y ∈ blocked -> y ∈ done) /\ (forall y, y ∈ done -> y ∉ blocked <-> runnable y).

Lemma blocked_inv_run done blocked x :
  blocked_inv done blocked -> x ∉ done -> runnable x -> blocked_inv (done ++ [x]) blocked.
Proof.
  intros [Hsub Hb] Hx Hr. split; [set_solver|].
  intros y [Hy| ->%list_elem_of_singleton]%elem_of_app; [by apply Hb|]. set_solver.
Qed.

Lemma blocked_inv_block done blocked x :
  blocked_inv done blocked -> x ∉ done -> ~ runnable x ->
  blocked_inv (done ++ [x]) ({[x]} ∪ blocked).
Proof.
  intros [Hsub Hb] Hx Hr. split; [set_solver|].
  intros y [Hy| ->%list_elem_of_singleton]%elem_of_app; [|set_solver].
  rewrite <-Hb by done. set_solver.
Qed.

Lemma wave_loop_ok sids done blocked acc :
  (forall x, x ∈ sids -> exists t, task_lookup !! x = Some t /\ task_id t = x) ->
  (forall x y, x ∈ sids -> y ∈ adj x -> y ∈ done) ->
  NoDup sids -> (forall x, x ∈ sids -> x ∉ done) -> blocked_inv done blocked ->
  exists out blocked',
    wave_loop dep_map routing_lookup workspace_lookup task_lookup sids blocked acc
      = Ok (acc ++ out, blocked') /\
    Forall honours out /\ NoDup (assigned_id <$> out) /\
    (forall x, x ∈ assigned_id <$> out <-> x ∈ sids /\ runnable x) /\
    blocked_inv (done ++ sids) blocked'.
Proof.
  revert done blocked acc. induction sids as [|x sids IH]; intros done blocked acc Ht Hdeps Hnd Hfresh Hinv.
  { exists [], blocked. rewrite !app_nil_r. split_and!; [done|constructor|constructor|set_solver|done]. }
  apply NoDup_cons in Hnd as [Hx Hnd].
  assert (Hxd : x ∉ done) by (apply Hfresh; left).
  assert (Hgo : forall blocked1 acc1, blocked_inv (done ++ [x]) blocked1 ->
    exists out blocked',
      wave_loop dep_map routing_lookup workspace_lookup task_lookup sids blocked1 acc1
        = Ok (acc1 ++ out, blocked') /\
      Forall honours out /\ NoDup (assigned_id <$> out) /\
      (forall x, x ∈ assigned_id <$> out <-> x ∈ sids /\ runnable x) /\
      blocked_inv (done ++ x :: sids) blocked').
  { intros blocked1 acc1 H1. rewrite cons_middle, app_assoc. apply IH; [set_solver|set_solver|done|set_solver|done]. }
  assert (Hskip : ~ runnable x -> exists out blocked',
    wave_loop dep_map routing_lookup workspace_lookup task_lookup sids ({[x]} ∪ blocked) acc
      = Ok (acc ++ out, blocked') /\
    Forall honours out /\ NoDup (assigned_id <$> out) /\
    (forall y, y ∈ assigned_id <$> out <-> y ∈ x :: sids /\ runnable y) /\
    blocked_inv (done ++ x :: sids) blocked').
  { intros Hr. destruct (Hgo ({[x]} ∪ blocked) acc) as (out & b' & Hw & Hh & Hno & Hin & Hb');
      [by apply blocked_inv_block|].
    exists out, b'. split_and!; try done. intros y. rewrite Hin, elem_of_cons. naive_solver. }
  cbn [wave_loop]. fold (adj x). case_bool_decide as Hblk.
  - apply Hskip. intros [_ Hr]%runnable_step.
    apply set_choose_L in Hblk as [y [Hy1%elem_of_list_to_set Hy2]%elem_of_intersection].
    apply (proj2 (proj2 Hinv y (Hdeps x y (list_elem_of_here _ _) Hy1))); [by apply Hr|done].
  - assert (Hall : forall y, y ∈ adj x -> runnable y).
    { intros y Hy. apply (proj2 Hinv); [apply (Hdeps x); [left|done]|]. intros Hyb.
      apply (not_elem_of_empty (C:=gset string) y). rewrite <-Hblk. apply elem_of_intersection.
      split; [by apply elem_of_list_to_set|done]. }
    destruct (routing_lookup !! x) as [d|] eqn:Hd.
    2:{ apply Hskip. intros [[? ?] _]%runnable_step. congruence. }
    assert (Hr : runnable x) by (apply runnable_step; split; [by rewrite Hd|done]).
    destruct (Ht x) as (t & Htx & Hid); [left|]. rewrite Htx.
    set (a := {| identity := _ |}).
    destruct (Hgo blocked (acc ++ [a])) as (out & b' & Hw & Hh & Hno & Hin & Hb');
      [by apply blocked_inv_run|].
    assert (Ha : assigned_id a = x) by exact Hid.
    assert (Hacc : acc ++ a :: out = (acc ++ [a]) ++ out) by by rewrite <-app_assoc.
    exists (a :: out), b'. rewrite Hacc. split_and!; [done| | | |done].
    + constructor; [|done]. exists t, d. by rewrite Ha.
    + rewrite fmap_cons, Ha. constructor; [|done]. rewrite Hin. naive_solver.
    + intros y. rewrite fmap_cons, Ha, !elem_of_cons, Hin. naive_solver.
Qed.

(** ** The groups of one wave *)

Definition ids_of (g : ParallelExecutionGroup) : list string := assigned_id <$> assignments g.

Lemma round_groups_ok wave_idx round_idx rounds :
  (forall xs, xs ∈ rounds -> xs <> [] /\ NoDup (agents xs)) ->
  NoDup (assigned_id <$> concat rounds) ->
  exists gs, round_groups config wave_idx round_idx rounds = Ok gs /\
    assignments <$> gs = rounds /\
    (forall g, g ∈ gs -> _validate_assignments g = Ok tt /\ dag_level g = wave_idx).
Proof.
  revert round_idx. induction rounds as [|xs rounds IH]; intros round_idx Hok Hnd.
  { exists []. split_and!; [done|done|]. by intros g ?%not_elem_of_nil. }
  simpl in Hnd. rewrite fmap_app in Hnd. apply NoDup_app in Hnd as (Hxs & _ & Hnd).
  destruct (IH (S round_idx)) as (gs & Hgs & Has & Hv); [intros; apply Hok; by right|done|].
  destruct (Hok xs) as [Hne Hag]; [left|].
  cbn [round_groups]. set (g := {| group_id := _ |}).
  assert (Hg : _validate_assignments g = Ok tt).
  { unfold _validate_assignments. simpl.
    by rewrite !bool_decide_eq_true_2 by (done || by apply duplicates_nil). }
  rewrite Hg. cbn [rbind]. rewrite Hgs. cbn [rbind]. exists (g :: gs).
  split_and!; [done|by rewrite fmap_cons, Has|].
  intros g' [->|Hg']%elem_of_cons; [done|by apply Hv].
Qed.

Lemma wave_groups_ok wave_idx out :
  NoDup (assigned_id <$> out) ->
  exists gs, round_groups config wave_idx 0 (_rounds_by_agent out) = Ok gs /\
    concat (assignments <$> gs) ≡ₚ out /\
    (forall g, g ∈ gs -> _validate_assignments g = Ok tt /\ dag_level g = wave_idx).
Proof.
  intros Hnd. destruct (rounds_inv out) as (Hok & Hp & _).
  change (concat (_rounds_by_agent out) ≡ₚ out) in Hp.
  destruct (round_groups_ok wave_idx 0 (_rounds_by_agent out)) as (gs & Hgs & Has & Hv).
  - intros xs Hxs. unfold _rounds_by_agent in Hxs.
    apply list_elem_of_fmap in Hxs as (e & -> & He).
    apply (proj1 (Forall_forall _ _) Hok) in He as (? & ? & _). done.
  - by rewrite Hp.
  - exists gs. rewrite Has. done.
Qed.

(** ** All the waves *)

Definition scheduled (gs : list ParallelExecutionGroup) : list string := concat (ids_of <$> gs).

Lemma scheduled_app gs gs' : scheduled (gs ++ gs') = scheduled gs ++ scheduled gs'.
Proof. unfold scheduled. by rewrite fmap_app, concat_app. Qed.

Lemma scheduled_assignments gs : scheduled gs = assigned_id <$> concat (assignments <$> gs).
Proof.
  induction gs as [|g gs IH]; [done|]. unfold scheduled in *. cbn [fmap list_fmap concat].
  by rewrite fmap_app, <-IH.
Qed.

Lemma scheduled_elem gs x : x ∈ scheduled gs <-> exists g, g ∈ gs /\ x ∈ ids_of g.
Proof.
  unfold scheduled. rewrite elem_of_concat. split.
  - intros (l & (g & -> & Hg)%list_elem_of_fmap & Hx). by exists g.
  - intros (g & Hg & Hx). exists (ids_of g). split; [by apply list_elem_of_fmap_2|done].
Qed.

(** A list of groups whose [k]-th level is [waves !! (k - base)]. *)
Record staged (base : nat) (waves : list (list string)) (gs : list ParallelExecutionGroup) : Prop := {
  st_valid g : g ∈ gs -> _validate_assignments g = Ok tt /\ Forall honours (assignments g);
  st_level g : g ∈ gs -> base <= dag_level g /\
    exists wave, waves !! (dag_level g - base) = Some wave /\ forall x, x ∈ ids_of g -> x ∈ wave;
  st_sorted : StronglySorted le (dag_level <$> gs);
  st_nodup : NoDup (scheduled gs);
  st_runs x : x ∈ scheduled gs <-> x ∈ concat waves /\ runnable x;
}.

Lemma staged_cons base sids waves gs rest :
  (forall g, g ∈ gs -> _validate_assignments g = Ok tt /\ dag_level g = base) ->
  (forall g, g ∈ gs -> Forall honours (assignments g)) ->
  NoDup (scheduled gs) -> (forall x, x ∈ scheduled gs <-> x ∈ sids /\ runnable x) ->
  (forall x, x ∈ sids -> x ∉ concat waves) ->
  staged (S base) waves rest -> staged base (sids :: waves) (gs ++ rest).
Proof.
  intros Hv Hh Hnd Hin Hdis [Rv Rl Rs Rn Rr]. split.
  - intros g [Hg|Hg]%elem_of_app; [|by apply Rv]. split; [by apply Hv|by apply Hh].
  - intros g [Hg|Hg]%elem_of_app.
    + destruct (Hv g Hg) as [_ ->]. split; [done|]. rewrite Nat.sub_diag. exists sids.
      split; [done|]. intros x Hx. apply Hin, scheduled_elem. by exists g.
    + destruct (Rl g Hg) as [Hle (wave & Hw & Hx)]. split; [lia|]. exists wave.
      replace (dag_level g - base) with (S (dag_level g - S base)) by lia. done.
  - rewrite fmap_app. clear Hh Hnd Hin. induction gs as [|g gs IH]; [done|]. simpl.
    constructor; [apply IH; intros; apply Hv; by right|].
    rewrite Forall_app, !Forall_fmap, !Forall_forall. destruct (Hv g) as [_ ->]; [left|].
    split; intros g' Hg'; simpl; [destruct (Hv g') as [_ ->]; [by right|done]|].
    destruct (Rl g' Hg'). lia.
  - rewrite scheduled_app. apply NoDup_app. split_and!; [done| |done].
    intros x [Hx _]%Hin [Hx' _]%Rr. by apply (Hdis x).
  - intros x. rewrite scheduled_app, elem_of_app, Hin, Rr. simpl. rewrite elem_of_app. naive_solver.
Qed.

Lemma waves_loop_ok base waves done blocked :
  (forall x, x ∈ concat waves -> exists t, task_lookup !! x = Some t /\ task_id t = x) ->
  (forall ws1 wave ws2 x y, waves = ws1 ++ wave :: ws2 -> x ∈ wave -> y ∈ adj x ->
     y ∈ done ++ concat ws1) ->
  NoDup (concat waves) -> (forall x, x ∈ concat waves -> x ∉ done) -> blocked_inv done blocked ->
  exists gs,
    waves_loop dep_map routing_lookup workspace_lookup task_lookup config base waves blocked = Ok gs /\
    staged base waves gs.
Proof.
  revert base done blocked. induction waves as [|sids waves IH];
    intros base done blocked Ht Hdeps Hnd Hfresh Hinv.
  { exists []. split; [done|]. split; simpl; try (by intros ? ?%not_elem_of_nil); try constructor; set_solver. }
  simpl in Ht, Hnd, Hfresh. apply NoDup_app in Hnd as (Hns & Hdis & Hnw).
  destruct (wave_loop_ok sids done blocked []) as (out & b' & Hw & Hh & Hno & Hin & Hb');
    [set_solver| |done|set_solver|done|].
  { intros x y Hx Hy. specialize (Hdeps [] sids waves x y eq_refl Hx Hy).
    by rewrite app_nil_r in Hdeps. }
  destruct (wave_groups_ok base out Hno) as (gs & Hgs & Hp & Hv).
  destruct (IH (S base) (done ++ sids) b') as (rest & Hrest & Hst); [set_solver| |done|set_solver|done|].
  { intros ws1 wave ws2 x y -> Hx Hy. rewrite <-app_assoc. by apply (Hdeps (sids :: ws1) wave ws2 x y). }
  exists (gs ++ rest). cbn [waves_loop]. rewrite Hw. cbn [rbind fst snd].
  rewrite app_nil_l, Hgs. cbn [rbind]. rewrite Hrest. cbn [rbind]. split; [done|].
  assert (Hperm : scheduled gs ≡ₚ assigned_id <$> out) by by rewrite scheduled_assignments, Hp.
  apply staged_cons; [done| |by rewrite Hperm|by intros x; rewrite Hperm|done|done].
  intros g Hg. apply Forall_forall. intros a Ha.
  apply (proj1 (Forall_forall _ _) Hh). rewrite <-Hp.
  apply elem_of_concat. exists (assignments g).
  split; [by apply list_elem_of_fmap_2|done].
Qed.

(** What a scheduled unit waits for is scheduled before it. *)
Lemma strongly_sorted_lookup (l : list nat) i j a b :
  StronglySorted le l -> l !! i = Some a -> l !! j = Some b -> b < a -> j < i.
Proof.
  intros Hs. revert i j. induction Hs as [|c l _ IH Hall]; intros i j Ha Hb Hlt; [done|].
  destruct i as [|i], j as [|j]; simpl in *; simplify_eq; try lia.
  - apply list_elem_of_lookup_2 in Hb. apply (proj1 (Forall_forall _ _) Hall) in Hb. lia.
  - enough (j < i) by lia. by eapply IH.
Qed.

Lemma staged_before waves gs i g x y :
  staged 0 waves gs ->
  (forall ws1 wave ws2 x y, waves = ws1 ++ wave :: ws2 -> x ∈ wave -> y ∈ adj x -> y ∈ concat ws1) ->
  NoDup (concat waves) ->
  gs !! i = Some g -> x ∈ ids_of g -> y ∈ adj x ->
  exists j g', j < i /\ gs !! j = Some g' /\ y ∈ ids_of g' /\ dag_level g' < dag_level g.
Proof.
  intros [_ Hlevel Hsorted _ Hruns] Hdeps Hnd Hi Hx Hy.
  assert (Hg : g ∈ gs) by by eapply list_elem_of_lookup_2.
  destruct (Hlevel g Hg) as [_ (wave & Hw & Hwx)]. rewrite Nat.sub_0_r in Hw.
  pose proof (take_drop_middle waves _ wave Hw) as Hsplit. symmetry in Hsplit.
  assert (Hyc : y ∈ concat (take (dag_level g) waves)) by (eapply Hdeps; eauto).
  assert (Hrun : y ∈ scheduled gs).
  { apply Hruns. split.
    - rewrite Hsplit, concat_app. apply elem_of_app. by left.
    - assert (x ∈ scheduled gs) as [_ Hr]%Hruns by (apply scheduled_elem; by exists g).
      by apply (proj1 (runnable_step x) Hr). }
  apply scheduled_elem in Hrun as (g' & Hg' & Hy').
  destruct (Hlevel g' Hg') as [_ (wave' & Hw' & Hwy)]. rewrite Nat.sub_0_r in Hw'.
  assert (Hlt : dag_level g' < dag_level g).
  { destruct (decide (dag_level g' < dag_level g)) as [|Hge]; [done|]. exfalso.
    rewrite Hsplit, concat_app in Hnd. apply NoDup_app in Hnd as (_ & Hdis & _).
    apply (Hdis y Hyc), elem_of_concat. exists wave'.
    split; [|by apply Hwy].
    rewrite <-(take_drop_middle waves _ wave Hw) in Hw'.
    apply lookup_app_Some in Hw' as [Hw'|[_ Hw']].
    - apply lookup_lt_Some in Hw'. rewrite length_take in Hw'. lia.
    - by eapply list_elem_of_lookup_2. }
  apply list_elem_of_lookup in Hg' as [j Hj]. exists j, g'. split_and!; [|done|done|done].
  eapply (strongly_sorted_lookup (dag_level <$> gs)); [done| | |exact Hlt];
    by rewrite list_lookup_fmap, ?Hi, ?Hj.
Qed.
End Loop.

(** ** Lookups *)

Lemma routed_iff rr x :
  is_Some (_build_routing_lookup rr !! x) <-> x ∈ subtask_id <$> decisions rr.
Proof. unfold _build_routing_lookup. by rewrite dict_of_is_Some, <-list_fmap_compose. Qed.

Lemma dependency_map_declared ss x y :
  NoDup (sub_id <$> ss) -> y ∈ default [] (dependency_map ss !! x) <-> y ∈ declared ss x.
Proof.
  intros Hnd. rewrite declared_elem. destruct (decide (x ∈ sub_id <$> ss)) as [Hx|Hx].
  - apply list_elem_of_fmap in Hx as (s & -> & Hs). unfold dependency_map.
    rewrite (dict_of_fmap sub_id sub_dependencies) by done. simpl.
    split; [intros; by exists s|]. intros (s' & Hs' & Heq & Hy).
    pose proof (dict_of_fmap sub_id sub_dependencies ss s Hnd Hs) as H1.
    pose proof (dict_of_fmap sub_id sub_dependencies ss s' Hnd Hs') as H2. congruence.
  - unfold dependency_map. rewrite dict_of_fresh by by rewrite <-list_fmap_compose. simpl.
    split; [by intros ?%not_elem_of_nil|]. intros (s & Hs & <- & _).
    exfalso. by apply Hx, list_elem_of_fmap_2.
Qed.

Lemma task_lookup_total r x :
  built r -> NoDup (tree_ids r) -> x ∈ tree_ids r ->
  exists t, task_lookup_of r !! x = Some t /\ task_id t = x.
Proof.
  intros Hb Hnd Hx. pose proof (all_tasks_ids r Hb) as Hp. rewrite <-Hp in Hx, Hnd.
  apply list_elem_of_fmap in Hx as (t & -> & Ht). exists t. split; [|done].
  by apply (dict_of_fmap task_id (fun t => t)).
Qed.

(** ** Properties *)

(** The greedy split of a wave. The rounds hold its assignments, each once;
    no agent is twice in a round; and round [i] holds exactly the agents with
    more than [i] assignments, so there are as many rounds as the busiest agent
    has assignments, and none is empty. *)
Theorem rounds_by_agent_exact (xs : list AgentAssignment) :
  concat (_rounds_by_agent xs) ≡ₚ xs /\
  (forall round, round ∈ _rounds_by_agent xs -> round <> [] /\ NoDup (agents round)) /\
  (forall i g, (exists round, _rounds_by_agent xs !! i = Some round /\ g ∈ agents round) <->
     i < count g (agents xs)).
Proof.
  destruct (rounds_inv xs) as (Hok & Hp & Hc). split_and!.
  - exact Hp.
  - intros round (e & -> & He)%list_elem_of_fmap.
    apply (proj1 (Forall_forall _ _) Hok) in He as (? & ? & _). done.
  - intros i g. rewrite <-Hc. unfold _rounds_by_agent. rewrite list_lookup_fmap.
    destruct (foldl _ [] xs !! i) as [e|]; simpl; naive_solver.
Qed.

(** The execution groups of a built tree with distinct ids, whatever was
    routed: they are always built, and every group passes its validator, so
    none is empty and no agent or task is twice in one; each assignment hands a
    created task, marked assigned, to the agent the routing chose for it; a
    unit is scheduled, and then once, exactly when neither it nor anything it
    waits for, directly or through others, was left without an agent; and what
    a scheduled unit waits for is scheduled in an earlier group of a lower
    level. *)
Theorem execution_waves_exact (r : DecompositionResult) (rr : RoutingResult)
    (config : CoordinationConfig) (workspaces : list Workspace)
    (Hb : built r) (Hnd : NoDup (tree_ids r)) :
  let waits := declared (dispatch_subtasks r) in
  exists groups,
    build_execution_waves r rr config workspaces = Ok groups /\
    (forall g, g ∈ groups -> _validate_assignments g = Ok tt /\
       Forall (honours (_build_routing_lookup rr) (_build_workspace_lookup workspaces)
                 (task_lookup_of r)) (assignments g)) /\
    NoDup (scheduled groups) /\
    (forall x, x ∈ scheduled groups <->
       x ∈ tree_ids r /\
       forall y, rtc (edge waits) x y -> y ∈ subtask_id <$> decisions rr) /\
    (forall i g x y, groups !! i = Some g -> x ∈ ids_of g -> y ∈ waits x ->
       exists j g', j < i /\ groups !! j = Some g' /\ y ∈ ids_of g' /\ dag_level g' < dag_level g).
Proof.
  intros waits. set (ds := dispatch_subtasks r) in *.
  assert (Hids : sub_id <$> ds = tree_ids r) by apply dispatch_ids.
  assert (Hnd' : NoDup (sub_id <$> ds)) by by rewrite Hids.
  assert (Hrefs : refs_known ds) by by apply dispatch_refs.
  pose proof Hrefs as Hm%new_graph_refs. pose proof (new_graph_ok ds Hnd' Hm) as Hg.
  destruct (groups_ok _ Hg Hm) as [(waves & deg & Hw & [Hndw Hrem Hin _ Hlay])|[_ [X HX]]].
  2:{ exfalso. apply (acyclic_no_trap _ X) in HX; [done|]. apply acyclic_declared; [done|].
      by apply dispatch_acyclic. }
  assert (Hconcat : forall x, x ∈ concat waves <-> x ∈ tree_ids r).
  { intros x. rewrite <-Hids. split; [apply Hin|]. intros Hx.
    destruct (decide (x ∈ concat waves)) as [|Hn]; [done|].
    exfalso. apply (not_elem_of_empty (C:=gset string) x). by apply Hrem. }
  assert (Hadj : forall x y, y ∈ default [] (dependency_map ds !! x) <-> y ∈ waits x)
    by (intros x y; by apply dependency_map_declared).
  assert (Hlayer : forall ws1 wave ws2 x y, waves = ws1 ++ wave :: ws2 -> x ∈ wave ->
    y ∈ default [] (dependency_map ds !! x) -> y ∈ concat ws1).
  { intros ws1 wave ws2 x y Hsplit Hx Hy. destruct (Hlay ws1 wave ws2 Hsplit) as (_ & _ & Hgrp).
    apply Hgrp in Hx as (_ & _ & Hdeps). apply Hdeps, new_graph_declared; [done|]. by apply Hadj. }
  destruct (waves_loop_ok (dependency_map ds) (_build_routing_lookup rr)
    (_build_workspace_lookup workspaces) (task_lookup_of r) config 0 waves [] ∅)
    as (groups & Hgroups & Hst).
  - intros x Hx. apply task_lookup_total; [done|done|]. by apply Hconcat.
  - intros ws1 wave ws2 x y. rewrite app_nil_l. apply Hlayer.
  - done.
  - intros x _. apply not_elem_of_nil.
  - split; set_solver.
  - exists groups. unfold build_execution_waves. fold ds. rewrite Hw. cbn [rbind lift_graph].
    split_and!; [done|by apply Hst|by apply Hst| |].
    + intros x. rewrite (st_runs _ _ _ _ _ _ _ Hst x), Hconcat. unfold runnable.
      setoid_rewrite routed_iff.
      assert (Hrtc : forall a b, rtc (edge (fun x => default [] (dependency_map ds !! x))) a b <->
        rtc (edge waits) a b).
      { intros a b. split; intros Hr; (induction Hr as [|? ? ? H1 _ IH]; [done|];
          eapply rtc_l; [by apply Hadj|done]). }
      setoid_rewrite Hrtc. done.
    + intros i g x y Hi Hx Hy. eapply staged_before; eauto. by apply Hadj.
Qed.

(** ** The portal, with [ui] left without an agent *)

Definition portal_routing : RoutingResult := {|
  decisions := [{| subtask_id := "design"; selected_candidate := "ada" |};
                {| subtask_id := "routes"; selected_candidate := "bob" |};
                {| subtask_id := "api"; selected_candidate := "bob" |};
                {| subtask_id := "app"; selected_candidate := "ada" |};
                {| subtask_id := "docs"; selected_candidate := "ada" |}];
  unroutable := ["ui"] |}.

Definition portal_config : CoordinationConfig :=
  {| max_concurrency_per_wave := None; cfg_fail_fast := false |}.

Definition portal_groups : list ParallelExecutionGroup :=
  match build_execution_waves portal portal_routing portal_config [] with
  | Ok gs => gs
  | Err _ => []
  end.

Example portal_waves :
  (fun g => (group_id g, ids_of g, dag_level g)) <$> portal_groups =
  [("wave-0", ["design"], 0); ("wave-1", ["routes"], 1); ("wave-2", ["api"], 2)].
Proof. vm_compute. reflexivity. Qed.

(** One agent on three tasks of a wave, another on one. *)
Example busy_agent :
  (fun a => assigned_id a) <$>
    concat (_rounds_by_agent
      ((fun p => {| identity := p.1; task := {| task_id := p.2; task_title := p.2;
                      task_status := TaskStatus.ASSIGNED; assigned_to := Some p.1 |};
                    resource_claims := [] |}) <$>
       [("ada", "a"); ("ada", "b"); ("bob", "c"); ("ada", "d")])) = ["a"; "c"; "b"; "d"].
Proof. vm_compute. reflexivity. Qed.

Lemma execution_waves_exact_witness :
  build_execution_waves portal portal_routing portal_config [] = Ok portal_groups /\
  "api" ∈ scheduled portal_groups /\ "docs" ∉ scheduled portal_groups.
Proof.
  destruct (execution_waves_exact portal portal_routing portal_config [] portal_built portal_nodup)
    as (groups & Hg & _ & _ & Hsched & _).
  assert (He : build_execution_waves portal portal_routing portal_config [] = Ok portal_groups)
    by (vm_compute; reflexivity).
  assert (groups = portal_groups) as -> by congruence.
  split; [exact He|]. split.
  - apply (bool_decide_unpack _). vm_compute. exact I.
  - rewrite Hsched. intros [_ Hr]. specialize (Hr "ui").
    assert (H : "ui" ∈ subtask_id <$> decisions portal_routing).
    { apply Hr. eapply rtc_l with "app"; [|apply rtc_once];
        unfold edge; apply (bool_decide_unpack _); vm_compute; exact I. }
    revert H. apply (bool_decide_unpack _). vm_compute. exact I.
Defined.
