(* ===== verification/Rollup.v ===== *)
(** * Rollup

    What a task's subtasks add up to ([engine/decomposition/rollup.py],
    [engine/decomposition/status_rollup.py]) and whether a subtask's inputs
    arrived ([engine/coordination/_dependency_gate.py]). Reason strings are not
    modelled. *)

From stdpp Require Import gmap strings list sorting.
From Stdlib Require Import ZArith Lia.
From S2P Require Import Prelude TaskEnums.
Local Open Scope py_scope.

Notation TaskStatus := TaskStatus.TaskStatus.

(** ** The rollup *)

Record SubtaskStatusRollup := {
  parent_task_id : string;
  total : nat;
  completed : nat;
  failed : nat;
  in_progress : nat;
  blocked : nat;
  cancelled : nat;
  suspended : nat;
}.

(** [_validate_counts]. *)
Definition _validate_counts (r : SubtaskStatusRollup) : bool :=
  completed r + failed r + in_progress r + blocked r + cancelled r + suspended r <=? total r.

Definition derived_parent_status (r : SubtaskStatusRollup) : TaskStatus :=
  if total r =? 0 then TaskStatus.CREATED
  else if completed r =? total r then TaskStatus.COMPLETED
  else if cancelled r =? total r then TaskStatus.CANCELLED
  else if 0 <? failed r then TaskStatus.FAILED
  else if 0 <? in_progress r then TaskStatus.IN_PROGRESS
  else if 0 <? blocked r then TaskStatus.BLOCKED
  else if 0 <? suspended r then TaskStatus.SUSPENDED
  else if completed r + cancelled r =? total r then TaskStatus.CANCELLED
  else TaskStatus.IN_PROGRESS.

(** [StatusRollup.compute]; [Err] is the [ValueError] of [_validate_counts]. *)
Definition compute (parent : string) (statuses : list TaskStatus)
    : result unit SubtaskStatusRollup :=
  let r := {|
    parent_task_id := parent;
    total := length statuses;
    completed := count TaskStatus.COMPLETED statuses;
    failed := count TaskStatus.FAILED statuses;
    in_progress := count TaskStatus.IN_PROGRESS statuses;
    blocked := count TaskStatus.BLOCKED statuses;
    cancelled := count TaskStatus.CANCELLED statuses;
    suspended := count TaskStatus.SUSPENDED statuses |} in
  ensure _validate_counts r else tt in Ok r.

Section Compute.
Implicit Types (l : list TaskStatus).

Lemma count_all (s : TaskStatus) l : count s l = length l <-> forall x, x ∈ l -> x = s.
Proof.
  induction l as [|y l IH].
  - split; [|done]. by intros _ x ?%not_elem_of_nil.
  - rewrite count_cons. pose proof (count_le s l). simpl. setoid_rewrite elem_of_cons.
    case_decide as Hy; split.
    + intros Hc x [->|Hx]; [done|]. apply IH; [lia|done].
    + intros Hall. rewrite (proj2 IH); [lia|]. intros x Hx. apply Hall. by right.
    + intros Hc. lia.
    + intros Hall. exfalso. apply Hy, Hall. by left.
Qed.

(** Statuses of two different kinds make up at most the whole list, and the
    whole list only if there is no other kind. *)
Lemma count_two (s t : TaskStatus) l :
  s <> t -> count s l + count t l <= length l /\
  (count s l + count t l = length l <-> forall x, x ∈ l -> x = s \/ x = t).
Proof.
  intros Hst. induction l as [|y l [IHle IH]].
  - split; [done|]. split; [|done]. by intros _ x ?%not_elem_of_nil.
  - autorewrite with py. simpl. setoid_rewrite elem_of_cons.
    repeat case_decide; subst; try done; (split; [lia|]); split.
    + intros Hc x [->|Hx]; [by left|]. apply IH; [lia|done].
    + intros Hall. enough (count s l + count t l = length l) by lia. apply IH. auto.
    + intros Hc x [->|Hx]; [by right|]. apply IH; [lia|done].
    + intros Hall. enough (count s l + count t l = length l) by lia. apply IH. auto.
    + lia.
    + intros Hall. destruct (Hall y); auto; done.
Qed.

Lemma counts_le l :
  count TaskStatus.COMPLETED l + count TaskStatus.FAILED l + count TaskStatus.IN_PROGRESS l +
  count TaskStatus.BLOCKED l + count TaskStatus.CANCELLED l + count TaskStatus.SUSPENDED l
  <= length l.
Proof.
  induction l as [|y l IH]; [done|]. autorewrite with py. destruct y; simpl;
    repeat (case_decide; [done|] || (rewrite decide_True by done) || (rewrite decide_False by done));
    lia.
Qed.
End Compute.

(** [compute] never raises, and the parent's status is read off the
    subtasks' statuses alone: none yields CREATED; FAILED exactly when a subtask
    failed; COMPLETED exactly when all are; CANCELLED exactly when all are
    completed or cancelled and one is cancelled; BLOCKED exactly when one is and
    none failed or runs; SUSPENDED exactly when one is and none failed, runs or
    is blocked; and IN_PROGRESS in every other case. *)
Theorem rollup_exact (parent : string) (l : list TaskStatus) :
  exists r, compute parent l = Ok r /\
  match derived_parent_status r with
  | TaskStatus.CREATED => l = []
  | TaskStatus.COMPLETED => l <> [] /\ forall s, s ∈ l -> s = TaskStatus.COMPLETED
  | TaskStatus.FAILED => TaskStatus.FAILED ∈ l
  | TaskStatus.CANCELLED =>
      TaskStatus.CANCELLED ∈ l /\
      forall s, s ∈ l -> s = TaskStatus.COMPLETED \/ s = TaskStatus.CANCELLED
  | TaskStatus.BLOCKED =>
      TaskStatus.BLOCKED ∈ l /\ ~ TaskStatus.FAILED ∈ l /\ ~ TaskStatus.IN_PROGRESS ∈ l
  | TaskStatus.SUSPENDED =>
      TaskStatus.SUSPENDED ∈ l /\ ~ TaskStatus.FAILED ∈ l /\ ~ TaskStatus.IN_PROGRESS ∈ l /\
      ~ TaskStatus.BLOCKED ∈ l
  | TaskStatus.IN_PROGRESS =>
      l <> [] /\ ~ TaskStatus.FAILED ∈ l /\
      (TaskStatus.IN_PROGRESS ∈ l \/
       (~ TaskStatus.BLOCKED ∈ l /\ ~ TaskStatus.SUSPENDED ∈ l /\
        exists s, s ∈ l /\ s <> TaskStatus.COMPLETED /\ s <> TaskStatus.CANCELLED))
  | _ => False
  end.
Proof.
  unfold compute. pose proof (counts_le l) as Hle. set (r := {| total := length l |}).
  assert (_validate_counts r = true) as Hv by (apply Nat.leb_le; exact Hle).
  rewrite Hv. exists r. split; [done|].
  pose proof (count_two TaskStatus.COMPLETED TaskStatus.CANCELLED l) as [_ Htwo]; [done|].
  assert (Hhas : forall s, s ∈ l <-> 0 < count s l) by (intros s; symmetry; apply count_pos).
  assert (Hnil : l = [] <-> length l = 0) by (by rewrite length_zero_iff_nil).
  unfold derived_parent_status. subst r. cbn [total completed failed in_progress blocked cancelled suspended].
  repeat match goal with |- context [if ?b then _ else _] => destruct b eqn:? end; bool_to_prop;
    rewrite ?Hhas, ?Hnil; try lia; try (split_and!; lia).
  - split; [lia|]. by apply count_all.
  - split; [lia|]. intros s Hs. right. revert s Hs. by apply count_all.
  - split; [|by apply Htwo]. lia.
  - split_and!; [lia|lia|]. right. split_and!; [lia|lia|].
    destruct (decide (Exists (fun s => s <> TaskStatus.COMPLETED /\ s <> TaskStatus.CANCELLED) l))
      as [Hex|Hno]; [by apply Exists_exists in Hex|].
    exfalso. rewrite <-Forall_Exists_neg in Hno. assert (Hne : count TaskStatus.COMPLETED l + count TaskStatus.CANCELLED l = length l); [|lia].
    apply Htwo. intros s Hs. apply (proj1 (Forall_forall _ _) Hno) in Hs. simpl in Hs.
    destruct (decide (s = TaskStatus.COMPLETED)); [by left|].
    destruct (decide (s = TaskStatus.CANCELLED)); [by right|]. naive_solver.
Qed.

Example rollup_mixed :
  derived_parent_status <$> [unwrap (compute "p" [TaskStatus.COMPLETED; TaskStatus.CANCELLED]) eq_refl;
    unwrap (compute "p" [TaskStatus.COMPLETED; TaskStatus.CREATED]) eq_refl;
    unwrap (compute "p" [TaskStatus.BLOCKED; TaskStatus.SUSPENDED; TaskStatus.COMPLETED]) eq_refl]
  = [TaskStatus.CANCELLED; TaskStatus.IN_PROGRESS; TaskStatus.BLOCKED].
Proof. vm_compute. reflexivity. Qed.

(** ** The dependency gate *)

Definition NON_DELIVERING_STATUSES : gset TaskStatus :=
  list_to_set [TaskStatus.FAILED; TaskStatus.CANCELLED; TaskStatus.REJECTED;
    TaskStatus.BLOCKED; TaskStatus.INTERRUPTED].

Definition AWAITS_DISPATCH_STATUSES : gset TaskStatus :=
  list_to_set [TaskStatus.CREATED; TaskStatus.ASSIGNED; TaskStatus.IN_PROGRESS;
    TaskStatus.INTERRUPTED].

(** [ds_status] is [None] when the engine holds no row. *)
Record DependencyState := {
  ds_status : option TaskStatus;
  blocked_reason : option BlockedReason.BlockedReason;
}.

(** [DependencyState.__post_init__]: a reason only explains a park. *)
Definition post_init (s : DependencyState) : bool :=
  match blocked_reason s with
  | Some _ => bool_decide (ds_status s = Some TaskStatus.BLOCKED)
  | None => true
  end.

Definition awaited (s : DependencyState) : bool :=
  bool_decide (ds_status s = Some TaskStatus.BLOCKED) &&
  match blocked_reason s with
  | Some r => bool_decide (r ∈ ATTENDED_BLOCKED_REASONS)
  | None => false
  end.

Definition awaits_dispatch (status : option TaskStatus) : bool :=
  match status with
  | None => true
  | Some s => bool_decide (s ∈ AWAITS_DISPATCH_STATUSES)
  end.

Definition undelivered (s : DependencyState) : bool :=
  negb (awaited s) &&
  match ds_status s with
  | None => true
  | Some st => bool_decide (st ∈ NON_DELIVERING_STATUSES)
  end.

Definition ids_where (p : DependencyState -> bool) (states : gmap string DependencyState)
    : list string :=
  sort_str (map_to_list (filter (fun e => p e.2 = true) states)).*1.

Definition unmet_dependencies : gmap string DependencyState -> list string := ids_where undelivered.
Definition awaited_dependencies : gmap string DependencyState -> list string := ids_where awaited.

Lemma ids_where_elem p states i :
  i ∈ ids_where p states <-> exists s, states !! i = Some s /\ p s = true.
Proof.
  unfold ids_where. rewrite sort_str_perm, list_elem_of_fmap. split.
  - intros ([i' s] & -> & Hs%elem_of_map_to_list). apply map_lookup_filter_Some in Hs as [? ?].
    by exists s.
  - intros (s & Hs & Hp). exists (i, s). split; [done|]. apply elem_of_map_to_list.
    by apply map_lookup_filter_Some.
Qed.

Lemma ids_where_sorted p states : Sorted str_le (ids_where p states) /\ NoDup (ids_where p states).
Proof.
  split; [apply sort_str_sorted|]. unfold ids_where. rewrite sort_str_perm. apply NoDup_fst_map_to_list.
Qed.

(** The gate's verdict on a declared dependency. It is dead (unmet),
    waiting on somebody (awaited), or neither, and never two of these: unmet
    exactly when the engine holds no row, or a status that does not deliver
    other than an attended park; awaited exactly when it is an attended park;
    and in neither list exactly when it has a row in a status that delivered or
    still may. Both lists are sorted without repeats, so a parked subtask's
    reason does not depend on the order of the mapping. *)
Theorem dependency_verdict (states : gmap string DependencyState) :
  (forall i s, states !! i = Some s ->
     let attended := exists r, ds_status s = Some TaskStatus.BLOCKED /\ blocked_reason s = Some r /\
       PARK_EXIT !! r <> Some ParkExit.REPLAN in
     (i ∈ awaited_dependencies states <-> attended) /\
     (i ∈ unmet_dependencies states <->
        ~ attended /\ forall st, ds_status s = Some st -> st ∈ NON_DELIVERING_STATUSES) /\
     (i ∉ awaited_dependencies states -> i ∉ unmet_dependencies states ->
        exists st, ds_status s = Some st /\ st ∉ NON_DELIVERING_STATUSES)) /\
  (forall i, states !! i = None -> i ∉ awaited_dependencies states /\ i ∉ unmet_dependencies states) /\
  (Sorted str_le (unmet_dependencies states) /\ NoDup (unmet_dependencies states)) /\
  (Sorted str_le (awaited_dependencies states) /\ NoDup (awaited_dependencies states)).
Proof.
  split_and!; try apply ids_where_sorted.
  - intros i s Hs attended.
    assert (Hlookup : forall p, i ∈ ids_where p states <-> p s = true).
    { intros p. rewrite ids_where_elem. split; [intros (s' & ? & ?); by simplify_eq|]. eauto. }
    assert (Haw : awaited s = true <-> attended).
    { unfold awaited, attended. setoid_rewrite <-attended_iff.
      rewrite andb_true_iff, bool_decide_eq_true.
      destruct (blocked_reason s) as [r|]; [rewrite bool_decide_eq_true|]; naive_solver. }
    unfold awaited_dependencies, unmet_dependencies. rewrite !Hlookup, <-Haw.
    unfold undelivered. destruct (awaited s), (ds_status s) as [st|]; simpl;
      rewrite ?bool_decide_eq_true; naive_solver.
  - intros i Hi. unfold awaited_dependencies, unmet_dependencies. rewrite !ids_where_elem, Hi.
    naive_solver.
Qed.

Definition gate_example : gmap string DependencyState := list_to_map
  [("built", {| ds_status := Some TaskStatus.IN_REVIEW; blocked_reason := None |});
   ("gone", {| ds_status := None; blocked_reason := None |});
   ("dead", {| ds_status := Some TaskStatus.BLOCKED;
               blocked_reason := Some BlockedReason.DEPENDENCY_FAILED |});
   ("asked", {| ds_status := Some TaskStatus.BLOCKED;
                blocked_reason := Some BlockedReason.ORACLE_ESCALATED |})].

Example gate_unmet : unmet_dependencies gate_example = ["dead"; "gone"].
Proof. vm_compute. reflexivity. Qed.
Example gate_awaited : awaited_dependencies gate_example = ["asked"].
Proof. vm_compute. reflexivity. Qed.

(** A subtask that died midway is dispatched again when the run resumes, though
    it has not delivered: the one status in both sets. *)
Lemma redispatched_status : NON_DELIVERING_STATUSES ∩ AWAITS_DISPATCH_STATUSES = {[TaskStatus.INTERRUPTED]}.
Proof. apply (bool_decide_unpack _). vm_compute. exact I. Qed.
