(* ===== verification/PlanItems.v ===== *)
(** * PlanItems

    The durable plan of [core/plan.py] (items, decisions, the construction-time
    validators of [PlanItem] and [Plan]) and the containment rules of
    [core/plan_tree_validation.py]. *)

From stdpp Require Import gmap strings list sorting relations.
From Stdlib Require Import ZArith Ascii Lia.
From S2P Require Import Prelude TaskEnums Graphs PlanUnits PlanTransitions.
Import PlanItemKind.
Local Open Scope py_scope.

Record PlanItem := {
  item_id : string;
  item_title : string;
  item_description : string;
  item_parent_id : option string;
  item_dependencies : list string;
  item_owner : option string;
  item_acceptance_criteria : list string;
  item_expected_artifacts : list string;
  item_required_skills : list string;
  item_required_tags : list string;
  item_estimated_complexity : Complexity.Complexity;
  item_stakes : Stakes.Stakes;
  item_kind : PlanItemKind;
  item_options : list PlanOption;
  item_chosen_option_id : option string;
  item_satisfies : list string;
  item_unsplit_reason : option string;
}.

#[export] Instance plan_item_eq_dec : EqDecision PlanItem.
Proof. solve_decision. Defined.

#[export] Instance plan_item_unit : PlanUnit PlanItem := {|
  unit_id := item_id;
  unit_dependencies := item_dependencies;
|}.

(** What the containment rules read off a unit ([TreeUnit]); identity and
    dependencies are the [PlanUnit] part. *)
Class TreeUnit (U : Type) `{PlanUnit U} := {
  unit_parent_id : U -> option string;
  unit_kind : U -> PlanItemKind;
}.

#[export] Instance plan_item_tree_unit : TreeUnit PlanItem := {|
  unit_parent_id := item_parent_id;
  unit_kind := item_kind;
|}.

(** ** Containment rules *)

(** One message per violation. *)
Inductive TreeProblem :=
| UnknownParent (unit_id parent : string)
| HangsOffDecision (unit_id parent : string)
| ContainmentCycle (members : list string)
| CrossLevelDependency (unit_id dependency : string).

#[export] Instance tree_problem_eq_dec : EqDecision TreeProblem.
Proof. solve_decision. Defined.

(** [{unit.id: unit for unit in units}]: a later unit replaces an earlier one
    of the same id. *)
Definition by_id {U} `{PlanUnit U} (units : list U) : gmap string U :=
  foldl (fun m u => <[unit_id u := u]> m) ∅ units.

Section Tree.
Context {U : Type} `{TreeUnit U}.

Definition parent_problems (known : gmap string U) (u : U) : list TreeProblem :=
  match unit_parent_id u with
  | None => []
  | Some parent =>
      match known !! parent with
      | None => [UnknownParent (unit_id u) parent]
      | Some held =>
          if decide (unit_kind held = DECISION) then [HangsOffDecision (unit_id u) parent] else []
      end
  end.

(** [unit.parent_id is None or unit.parent_id in known]. *)
Definition parent_resolves (known : gmap string U) (u : U) : bool :=
  match unit_parent_id u with
  | None => true
  | Some p => bool_decide (is_Some (known !! p))
  end.

Definition _describe_cross_level_dependencies (units : list U) (known : gmap string U)
    : list TreeProblem :=
  flat_map (fun u =>
    if parent_resolves known u then flat_map (fun d =>
      match known !! d with
      | Some held =>
          if decide (unit_parent_id held <> unit_parent_id u)
          then [CrossLevelDependency (unit_id u) d] else []
      | None => []
      end) (unit_dependencies u)
    else []) units.

(** The [while True] loop over [pending], a map from unit to parent. *)
Fixpoint parent_rounds (fuel : nat) (pending : gmap string string) : option (gmap string string) :=
  match fuel with
  | 0 => None
  | S fuel =>
      let settled := filter (fun kv => pending !! kv.2 = None) pending in
      if decide (settled = ∅) then Some pending
      else parent_rounds fuel (pending ∖ settled)
  end.

Definition pending_parents (units : list U) (known : gmap string U) : gmap string string :=
  foldl (fun m u =>
    match unit_parent_id u with
    | Some p => if decide (is_Some (known !! p)) then <[unit_id u := p]> m else m
    | None => m
    end) ∅ units.

Definition _describe_parent_cycles (units : list U) (known : gmap string U) : list TreeProblem :=
  let pending := pending_parents units known in
  let rest := default ∅ (parent_rounds (S (size pending)) pending) in
  if decide (rest = ∅) then []
  else [ContainmentCycle (sort_str (elements (dom rest)))].

Definition describe_malformed_tree (units : list U) : list TreeProblem :=
  let known := by_id units in
  flat_map (parent_problems known) units
    ++ _describe_parent_cycles units known
    ++ _describe_cross_level_dependencies units known.
End Tree.

(** ** Validation of an item *)

Definition lower_hex (c : ascii) : bool :=
  let n := N_of_ascii c in
  ((48 <=? n) && (n <=? 57) || (97 <=? n) && (n <=? 102))%N.

(** [str(UUID(s)) == s]: [UUID] accepts several spellings, [str] writes
    8-4-4-4-12 lowercase hexadecimal digits. *)
Definition is_canonical_uuid (s : string) : bool :=
  let cs := String.list_ascii_of_string s in
  (length cs =? 36) &&
  forallb (fun ic =>
    if bool_decide (ic.1 ∈ [8; 13; 18; 23]) then Ascii.eqb ic.2 "-"%char else lower_hex ic.2)
    (imap pair cs).

Inductive ItemError :=
| NotCanonicalUuid (id : string)
| OwnParent (id : string)
| DependsOnItself (id : string)
| DuplicateDependencies (id : string) (dupes : list string)
| InvalidShape (e : UnitError).

#[export] Instance item_error_eq_dec : EqDecision ItemError.
Proof. solve_decision. Defined.

Definition lift_shape {A} (r : result UnitError A) : result ItemError A :=
  match r with Ok a => Ok a | Err e => Err (InvalidShape e) end.

Definition _validate_decision (it : PlanItem) : result UnitError unit :=
  validate_decision_options (item_id it) (item_kind it) (item_options it)
    (item_chosen_option_id it).

Definition _validate_item (it : PlanItem) : result ItemError unit :=
  ensure is_canonical_uuid (item_id it) else NotCanonicalUuid (item_id it) in
  ensure bool_decide (Some (item_id it) <> item_parent_id it) else OwnParent (item_id it) in
  ensure bool_decide (item_id it ∉ item_dependencies it) else DependsOnItself (item_id it) in
  ensure no_dupes (item_dependencies it)
    else DuplicateDependencies (item_id it) (duplicates (item_dependencies it)) in
  let* _ := lift_shape (_validate_decision it) in
  lift_shape (validate_expected_artifacts (item_id it) (item_kind it)
    (item_expected_artifacts it)).

(** [next((o for o in options if p(o)), None)]. *)
Definition next_option (p : PlanOption -> bool) (options : list PlanOption) : option PlanOption :=
  find p options.

Definition resolved_option (it : PlanItem) : result UnitError (option PlanOption) :=
  match item_kind it with
  | WORK => Ok None
  | DECISION =>
      let found := match item_chosen_option_id it with
                   | Some c => next_option (fun o => bool_decide (opt_id o = c)) (item_options it)
                   | None => next_option opt_recommended (item_options it)
                   end in
      match found with
      | Some o => Ok (Some o)
      | None => Err (NoResolvableOption (item_id it))
      end
  end.

(** ** Validation of a plan

    The record keeps the fields the validators and [fail] read or write; the
    denormalised titles, the review and the version history are left out. *)

Record Plan := {
  plan_id : string;
  plan_items : list PlanItem;
  plan_task_structure : TaskStructure.TaskStructure;
  plan_coordination_topology : CoordinationTopology.CoordinationTopology;
  plan_status : PlanStatus.PlanStatus;
  plan_failure_reason : option string;
  plan_replan_generation : Z;
  plan_version : Z;
  plan_updated_at : Z;
}.

#[export] Instance plan_eq_dec : EqDecision Plan.
Proof. solve_decision. Defined.

Inductive PlanItemsError :=
| NoItems
| DuplicateItemIds (dupes : list string)
| UnknownItems (id : string) (missing : list string)
| DependencyCycle (cyclic : list string)
| MalformedTree (problems : list TreeProblem)
| FailedWithoutReason
| ReasonWithoutFailed (status : PlanStatus.PlanStatus)
| NaiveDatetime.

(** The [while True] loop of [_reject_dependency_cycle]. *)
Fixpoint dependency_rounds (fuel : nat) (pending : gmap string (gset string))
    : option (gmap string (gset string)) :=
  match fuel with
  | 0 => None
  | S fuel =>
      let ready := dom (filter (fun kv => kv.2 = ∅) pending) in
      if decide (ready = ∅) then Some pending
      else dependency_rounds fuel
             ((fun deps => deps ∖ ready) <$> filter (fun kv => kv.1 ∉ ready) pending)
  end.

Definition _reject_dependency_cycle (items : list PlanItem) : result PlanItemsError unit :=
  let pending : gmap string (gset string) :=
    foldl (fun m it => <[item_id it := list_to_set (item_dependencies it)]> m) ∅ items in
  let rest := default ∅ (dependency_rounds (S (size pending)) pending) in
  ensure bool_decide (rest = ∅) else DependencyCycle (sort_str (elements (dom rest))) in
  Ok tt.

Definition _reject_malformed_tree (items : list PlanItem) : result PlanItemsError unit :=
  match describe_malformed_tree items with
  | [] => Ok tt
  | problems => Err (MalformedTree problems)
  end.

Fixpoint check_items (id_set : gset string) (items : list PlanItem) : result PlanItemsError unit :=
  match items with
  | [] => Ok tt
  | it :: items =>
      match filter (fun d => d ∉ id_set) (item_dependencies it) with
      | [] => check_items id_set items
      | missing => Err (UnknownItems (item_id it) missing)
      end
  end.

Definition _validate_items (p : Plan) : result PlanItemsError unit :=
  match plan_items p with
  | [] => ensure bool_decide (plan_status p ∈ ITEMLESS_STATUSES) else NoItems in Ok tt
  | items =>
      let ids := item_id <$> items in
      ensure no_dupes ids else DuplicateItemIds (duplicates ids) in
      let* _ := check_items (list_to_set ids) items in
      let* _ := _reject_dependency_cycle items in
      _reject_malformed_tree items
  end.

Definition _validate_failure_reason (p : Plan) : result PlanItemsError unit :=
  let has_reason := bool_decide (is_Some (plan_failure_reason p)) in
  let is_failed := bool_decide (plan_status p = PlanStatus.FAILED) in
  ensure negb (is_failed && negb has_reason) else FailedWithoutReason in
  ensure negb (has_reason && negb is_failed) else ReasonWithoutFailed (plan_status p) in
  Ok tt.

(** Both model validators, in declaration order. *)
Definition validate_plan (p : Plan) : result PlanItemsError unit :=
  let* _ := _validate_items p in
  _validate_failure_reason p.

(** [Plan.fail]: [now] is [None] when the timestamp is naive. *)
Definition fail (p : Plan) (reason : string) (now : option Z) : result PlanItemsError Plan :=
  match now with
  | None => Err NaiveDatetime
  | Some now => Ok {|
      plan_id := plan_id p;
      plan_items := plan_items p;
      plan_task_structure := plan_task_structure p;
      plan_coordination_topology := plan_coordination_topology p;
      plan_status := PlanStatus.FAILED;
      plan_failure_reason := Some reason;
      plan_replan_generation := plan_replan_generation p;
      plan_version := plan_version p + 1;
      plan_updated_at := now |}
  end.

(** ** Lemmas: the id map *)

Section ById.
Context {U : Type} `{PlanUnit U}.
Implicit Types (u : U) (units : list U).

Lemma by_id_snoc units u : by_id (units ++ [u]) = <[unit_id u := u]> (by_id units).
Proof. unfold by_id. by rewrite foldl_app. Qed.

Lemma by_id_dom units x : is_Some (by_id units !! x) <-> x ∈ unit_id <$> units.
Proof.
  induction units as [|u units IH] using rev_ind.
  { unfold by_id. simpl. rewrite lookup_empty. split; [by intros []|set_solver]. }
  rewrite by_id_snoc, fmap_app, elem_of_app. simpl. rewrite list_elem_of_singleton.
  destruct (decide (unit_id u = x)) as [<-|Hne].
  - rewrite lookup_insert_eq. naive_solver.
  - rewrite lookup_insert_ne by done. rewrite IH. naive_solver.
Qed.

Lemma by_id_None units x : by_id units !! x = None <-> x ∉ unit_id <$> units.
Proof. by rewrite <-by_id_dom, eq_None_not_Some. Qed.

Lemma by_id_lookup units x u :
  NoDup (unit_id <$> units) -> by_id units !! x = Some u <-> u ∈ units /\ unit_id u = x.
Proof.
  induction units as [|v units IH] using rev_ind; intros Hnd.
  { unfold by_id. simpl. rewrite lookup_empty. set_solver. }
  rewrite fmap_app in Hnd. apply NoDup_app in Hnd as (Hnd & Hdis & _).
  rewrite by_id_snoc, elem_of_app, list_elem_of_singleton.
  destruct (decide (unit_id v = x)) as [<-|Hne].
  - rewrite lookup_insert_eq. split; [naive_solver|]. intros [[Hu| ->] Heq]; [|done].
    exfalso. apply (Hdis (unit_id v)); [rewrite <-Heq; by apply list_elem_of_fmap_2|].
    simpl. by left.
  - rewrite lookup_insert_ne by done. rewrite IH by done. naive_solver.
Qed.

Lemma by_id_self units u :
  NoDup (unit_id <$> units) -> u ∈ units -> by_id units !! unit_id u = Some u.
Proof. intros. by apply by_id_lookup. Qed.

Lemma by_id_elem units x u : by_id units !! x = Some u -> u ∈ units /\ unit_id u = x.
Proof.
  induction units as [|v units IH] using rev_ind; [by unfold by_id; simpl; rewrite lookup_empty|].
  rewrite by_id_snoc, elem_of_app, list_elem_of_singleton.
  destruct (decide (unit_id v = x)) as [<-|Hne].
  - rewrite lookup_insert_eq. naive_solver.
  - rewrite lookup_insert_ne by done. naive_solver.
Qed.
End ById.

(** ** Lemmas: the two reductions are Kahn's *)

(** [pending] holds, for every id of [X], its targets inside [X]. *)
Definition pending_deps (adj : string -> list string) (X : gset string)
    (pending : gmap string (gset string)) : Prop :=
  forall x, pending !! x = if decide (x ∈ X) then Some (list_to_set (adj x) ∩ X) else None.

Lemma pending_deps_ready adj X pending :
  pending_deps adj X pending ->
  dom (filter (fun kv => kv.2 = ∅) pending) = X ∖ survivors adj X.
Proof.
  intros Hp. apply set_eq. intros x. rewrite elem_of_dom, elem_of_difference, survivors_elem.
  unfold is_Some. setoid_rewrite map_lookup_filter_Some. rewrite Hp. simpl. split.
  - intros (d & Hd & ->). case_decide; [|done]. split; [done|].
    intros (_ & y & Hy & HyX). injection Hd as Hd. set_solver.
  - intros [Hx Hno]. rewrite decide_True by done. eexists. split; [done|].
    apply set_eq. set_solver.
Qed.

Lemma pending_deps_step adj X pending :
  pending_deps adj X pending ->
  let ready := dom (filter (fun kv => kv.2 = ∅) pending) in
  pending_deps adj (survivors adj X)
    ((fun deps => deps ∖ ready) <$> filter (fun kv => kv.1 ∉ ready) pending).
Proof.
  intros Hp ready. assert (Hready : ready = X ∖ survivors adj X) by by apply pending_deps_ready.
  clearbody ready. subst ready. intros x. rewrite lookup_fmap.
  pose proof (survivors_sub adj X) as Hsub.
  destruct (decide (x ∈ survivors adj X)) as [Hx|Hx].
  - assert (filter (fun kv => kv.1 ∉ X ∖ survivors adj X) pending !! x =
      Some (list_to_set (adj x) ∩ X)) as ->.
    { apply map_lookup_filter_Some. rewrite Hp, decide_True by set_solver. set_solver. }
    simpl. f_equal. apply set_eq. intros y. rewrite elem_of_difference, !elem_of_intersection.
    destruct (decide (y ∈ survivors adj X)); set_solver.
  - assert (filter (fun kv => kv.1 ∉ X ∖ survivors adj X) pending !! x = None) as ->; [|done].
    apply map_lookup_filter_None. rewrite Hp. case_decide as HX; [|by left].
    right. intros d _ Hn. apply Hn. set_solver.
Qed.

Lemma difference_empty_fix (adj : string -> list string) (X : gset string) : X ∖ survivors adj X = ∅ <-> survivors adj X = X.
Proof.
  pose proof (survivors_sub adj X). split; [|intros ->; set_solver].
  intros He. apply set_eq. intros x. split; [set_solver|]. intros Hx.
  destruct (decide (x ∈ survivors adj X)); [done|]. set_solver.
Qed.

Lemma dependency_rounds_ok adj fuel X pending :
  pending_deps adj X pending -> size X < fuel ->
  exists R rest, dependency_rounds fuel pending = Some rest /\ shrinks adj X R /\
    dom rest = R.
Proof.
  revert X pending. induction fuel as [|fuel IH]; intros X pending Hp Hf; [lia|]. simpl.
  rewrite (pending_deps_ready adj X pending Hp). case_decide as Hr.
  - apply difference_empty_fix in Hr. exists X, pending. split_and!; [done|by constructor|].
    apply set_eq. intros x. rewrite elem_of_dom, Hp. case_decide; naive_solver.
  - rewrite difference_empty_fix in Hr. pose proof (survivors_smaller adj X Hr).
    destruct (IH (survivors adj X) _ (pending_deps_step adj X pending Hp)) as (R & rest & He & ? & ?);
      [lia|].
    rewrite (pending_deps_ready adj X pending Hp) in He.
    exists R, rest. split_and!; [done|by apply shrinks_round|done].
Qed.

(** The parent of an id, as a target list. *)
Definition parent_list (pending : gmap string string) (x : string) : list string :=
  option_list (pending !! x).

Lemma parent_rounds_ok pending0 fuel pending :
  pending ⊆ pending0 -> size pending < fuel ->
  exists rest, parent_rounds fuel pending = Some rest /\
    shrinks (parent_list pending0) (dom pending) (dom rest).
Proof.
  revert pending. induction fuel as [|fuel IH]; intros pending Hsub Hf; [lia|]. simpl.
  set (settled := filter (fun kv => pending !! kv.2 = None) pending).
  assert (Hdom : dom (pending ∖ settled) = survivors (parent_list pending0) (dom pending)).
  { apply set_eq. intros x. rewrite survivors_elem, !elem_of_dom.
    unfold is_Some, parent_list, settled. setoid_rewrite lookup_difference_Some.
    setoid_rewrite map_lookup_filter_None. split.
    - intros (p & Hx & [?|Hp]); [congruence|]. split; [by eexists|]. exists p.
      rewrite (lookup_weaken _ _ _ _ Hx Hsub). split; [by left|].
      apply elem_of_dom, not_eq_None_Some. by apply Hp.
    - intros ((p & Hx) & y & Hy & HyX). exists p. split; [done|]. right.
      rewrite (lookup_weaken _ _ _ _ Hx Hsub) in Hy. apply list_elem_of_singleton in Hy as ->.
      intros z Hz. assert (z = p) as -> by congruence. simpl.
      by apply not_eq_None_Some, elem_of_dom. }
  case_decide as He.
  - exists pending. split; [done|]. constructor. rewrite <-Hdom, He. f_equal. apply map_difference_empty.
  - assert (survivors (parent_list pending0) (dom pending) <> dom pending) as Hne.
    { rewrite <-Hdom. intros Heq. apply He, map_empty. intros x.
      destruct (settled !! x) as [p|] eqn:Hs; [|done]. exfalso.
      assert (x ∈ dom pending) as Hx.
      { apply elem_of_dom. unfold settled in Hs. apply map_lookup_filter_Some in Hs. naive_solver. }
      rewrite <-Heq, elem_of_dom in Hx. destruct Hx as [q Hx].
      apply lookup_difference_Some in Hx as [_ Hx]. congruence. }
    destruct (IH (pending ∖ settled)) as (rest & Hrest & Hsh).
    + etrans; [apply map_difference_subseteq || apply map_subseteq_difference_l; done|done].
    + pose proof (survivors_smaller _ _ Hne) as Hlt. rewrite <-Hdom in Hlt.
      rewrite !size_dom in Hlt. lia.
    + exists rest. split; [done|]. apply shrinks_round; [done|]. by rewrite <-Hdom.
Qed.

(** ** Well-formed plans *)

(** What an id is split out of. *)
Definition parents {U} `{TreeUnit U} (units : list U) (x : string) : list string :=
  from_option (fun u => option_list (unit_parent_id u)) [] (by_id units !! x).

(** The units form a containment tree: parents are work items of the plan, no
    item contains itself, dependencies stay among siblings. *)
Record tree_ok {U} `{TreeUnit U} (units : list U) : Prop := {
  to_parent : forall u p, u ∈ units -> unit_parent_id u = Some p ->
    exists held, held ∈ units /\ unit_id held = p /\ unit_kind held = WORK;
  to_acyclic : acyclic (parents units);
  to_level : forall u d held, u ∈ units -> d ∈ unit_dependencies u -> held ∈ units ->
    unit_id held = d -> unit_parent_id held = unit_parent_id u;
}.

Record items_ok (items : list PlanItem) : Prop := {
  io_unique : NoDup (item_id <$> items);
  io_known : forall it d, it ∈ items -> d ∈ item_dependencies it -> d ∈ item_id <$> items;
  io_acyclic : acyclic (waits (by_id items));
  io_tree : tree_ok items;
}.

Section TreeOk.
Context {U : Type} `{TreeUnit U}.
Variable units : list U.
Hypothesis Hnd : NoDup (unit_id <$> units).

Lemma pending_parents_lookup l known x :
  NoDup (unit_id <$> l) ->
  pending_parents l known !! x =
  u ← by_id l !! x; p ← unit_parent_id u; if decide (is_Some (known !! p)) then Some p else None.
Proof.
  induction l as [|u l IH] using rev_ind; intros Hl; [done|].
  rewrite fmap_app in Hl. apply NoDup_app in Hl as (Hl & Hdis & _).
  unfold pending_parents in *. rewrite foldl_app, by_id_snoc. cbn [foldl].
  destruct (decide (unit_id u = x)) as [<-|Hne].
  - rewrite lookup_insert_eq. cbn.
    assert (by_id l !! unit_id u = None) as Hfresh.
    { apply by_id_None. intros Hin. apply (Hdis (unit_id u) Hin). simpl. by left. }
    assert (Hold : foldl (fun m u => match unit_parent_id u with
      | Some p => if decide (is_Some (known !! p)) then <[unit_id u := p]> m else m
      | None => m end) ∅ l !! unit_id u = None) by (rewrite IH, Hfresh by done; done).
    destruct (unit_parent_id u) as [p|]; simpl; [|done].
    case_decide; [by rewrite lookup_insert_eq|done].
  - rewrite lookup_insert_ne by done. rewrite <-IH by done.
    destruct (unit_parent_id u) as [p|]; [|done]. case_decide; [|done].
    by rewrite lookup_insert_ne.
Qed.

Lemma parents_source x y : y ∈ parents units x -> x ∈ unit_id <$> units.
Proof.
  unfold parents. intros Hy. apply by_id_dom. destruct (by_id units !! x); [done|].
  by apply not_elem_of_nil in Hy.
Qed.

Lemma parent_cycles_ok :
  (forall u p, u ∈ units -> unit_parent_id u = Some p -> p ∈ unit_id <$> units) ->
  _describe_parent_cycles units (by_id units) = [] <-> acyclic (parents units).
Proof.
  intros Hknown. unfold _describe_parent_cycles.
  set (pending := pending_parents units (by_id units)).
  assert (Hp : forall x, parent_list pending x = parents units x).
  { intros x. unfold parent_list, pending, parents. rewrite pending_parents_lookup by done.
    destruct (by_id units !! x) as [u|] eqn:Hx; [|done]. simpl.
    apply by_id_elem in Hx as [Hx _].
    destruct (unit_parent_id u) as [p|] eqn:Hpar; [|done]. simpl.
    rewrite decide_True; [done|]. apply by_id_dom. by eapply Hknown. }
  destruct (parent_rounds_ok pending (S (size pending)) pending) as (rest & -> & Hsh); [done|lia|].
  apply shrinks_acyclic in Hsh as Hiff.
  - simpl. rewrite dom_empty_iff_L in Hiff.
    assert (Hac : acyclic (parent_list pending) <-> acyclic (parents units))
      by (split; apply acyclic_sub; intros x y; by rewrite Hp).
    rewrite <-Hac, <-Hiff. by case_decide.
  - intros x y Hy. unfold parent_list in Hy. apply elem_of_dom.
    destruct (pending !! x); [done|]. by apply not_elem_of_nil in Hy.
Qed.

Lemma parent_resolves_ok u :
  parent_resolves (by_id units) u = true <->
  forall p, unit_parent_id u = Some p -> p ∈ unit_id <$> units.
Proof.
  unfold parent_resolves. destruct (unit_parent_id u) as [p|]; [|naive_solver].
  rewrite bool_decide_eq_true, by_id_dom. naive_solver.
Qed.

Lemma cross_level_ok :
  _describe_cross_level_dependencies units (by_id units) = [] <->
  forall u, u ∈ units -> (forall p, unit_parent_id u = Some p -> p ∈ unit_id <$> units) ->
  forall d held, d ∈ unit_dependencies u -> held ∈ units -> unit_id held = d ->
  unit_parent_id held = unit_parent_id u.
Proof.
  unfold _describe_cross_level_dependencies. rewrite flat_map_nil.
  split; intros Hall u Hu; specialize (Hall u Hu); rewrite <-parent_resolves_ok in *;
    destruct (parent_resolves (by_id units) u); try done.
  - intros _ d held Hd Hh Hid. rewrite flat_map_nil in Hall. specialize (Hall d Hd).
    rewrite (proj2 (by_id_lookup units d held Hnd)) in Hall by done.
    case_decide as Hne; [done|].
    destruct (decide (unit_parent_id held = unit_parent_id u)); done.
  - apply flat_map_nil. intros d Hd. destruct (by_id units !! d) as [held|] eqn:Hh; [|done].
    apply by_id_elem in Hh as [? ?]. rewrite decide_False; [done|].
    intros Hne. by apply Hne, (Hall eq_refl d).
Qed.

Lemma describe_malformed_tree_ok :
  (forall u d, u ∈ units -> d ∈ unit_dependencies u -> d ∈ unit_id <$> units) ->
  describe_malformed_tree units = [] <-> tree_ok units.
Proof.
  intros Hdeps. unfold describe_malformed_tree.
  assert (Hpar : flat_map (parent_problems (by_id units)) units = [] <->
    forall u p, u ∈ units -> unit_parent_id u = Some p ->
      exists held, held ∈ units /\ unit_id held = p /\ unit_kind held = WORK).
  { rewrite flat_map_nil. unfold parent_problems. split.
    - intros Hall u p Hu Hp. specialize (Hall u Hu). rewrite Hp in Hall.
      destruct (by_id units !! p) as [held|] eqn:Hh; [|done]. apply by_id_elem in Hh as [? ?].
      exists held. case_decide; [done|]. by destruct (unit_kind held).
    - intros Hall u Hu. destruct (unit_parent_id u) as [p|] eqn:Hp; [|done].
      destruct (Hall u p Hu Hp) as (held & Hh & Hid & Hk).
      rewrite (proj2 (by_id_lookup units p held Hnd)) by done. by rewrite decide_False by congruence. }
  rewrite !app_nil, Hpar, cross_level_ok. split.
  - intros (Hp & Hc & Hl).
    assert (Hres : forall u p, u ∈ units -> unit_parent_id u = Some p -> p ∈ unit_id <$> units).
    { intros u p Hu Hup. destruct (Hp u p Hu Hup) as (held & ? & <- & _). by apply list_elem_of_fmap_2. }
    rewrite parent_cycles_ok in Hc by done. split; [done|done|].
    intros u d held Hu. apply (Hl u Hu). intros p. by apply Hres.
  - intros [Hp Hac Hl].
    assert (Hres : forall u p, u ∈ units -> unit_parent_id u = Some p -> p ∈ unit_id <$> units).
    { intros u p Hu Hup. destruct (Hp u p Hu Hup) as (held & ? & <- & _). by apply list_elem_of_fmap_2. }
    rewrite parent_cycles_ok by done. split_and!; [done|done|]. intros u Hu _ d held. by apply Hl.
Qed.
End TreeOk.

Lemma check_items_ok ids items :
  check_items ids items = Ok tt <->
  forall it d, it ∈ items -> d ∈ item_dependencies it -> d ∈ ids.
Proof.
  induction items as [|it items IH]; simpl; [split; [set_solver|done]|].
  setoid_rewrite elem_of_cons.
  destruct (filter (fun d => d ∉ ids) (item_dependencies it)) as [|d ds] eqn:Hm.
  - rewrite IH. split; [|naive_solver]. intros Hall it' d [->|?] Hd; [|eauto].
    destruct (decide (d ∈ ids)) as [|Hn]; [done|].
    assert (d ∈ filter (fun d => d ∉ ids) (item_dependencies it)) as Hin
      by by apply list_elem_of_filter.
    rewrite Hm in Hin. by apply not_elem_of_nil in Hin.
  - split; [done|]. intros Hall. exfalso.
    assert (d ∈ filter (fun d => d ∉ ids) (item_dependencies it)) as [Hn Hd]%list_elem_of_filter
      by (rewrite Hm; left). apply Hn. eauto.
Qed.

Lemma pending_deps_init items :
  NoDup (item_id <$> items) ->
  (forall it d, it ∈ items -> d ∈ item_dependencies it -> d ∈ item_id <$> items) ->
  pending_deps (waits (by_id items)) (list_to_set (item_id <$> items))
    (foldl (fun m it => <[item_id it := list_to_set (item_dependencies it)]> m) ∅ items).
Proof.
  intros Hnd Hknown x.
  assert (Heq : (foldl (fun m it => <[item_id it := list_to_set (item_dependencies it)]> m) ∅ items
    : gmap string (gset string)) !! x = (fun it => list_to_set (item_dependencies it)) <$> by_id items !! x).
  { clear. induction items as [|it items IH] using rev_ind; [done|].
    rewrite foldl_app, by_id_snoc. cbn [foldl].
    destruct (decide (item_id it = x)) as [<-|Hne]; [by rewrite !lookup_insert_eq|].
    by rewrite !lookup_insert_ne. }
  rewrite Heq. unfold waits. destruct (by_id items !! x) as [it|] eqn:Hx; simpl.
  - apply by_id_elem in Hx as [Hit Hid]. rewrite decide_True.
    + f_equal. apply set_eq. intros y. rewrite elem_of_intersection, !elem_of_list_to_set.
      split; [|naive_solver]. intros Hy. split; [done|]. by eapply Hknown.
    + apply elem_of_list_to_set, list_elem_of_fmap. by exists it.
  - apply by_id_None in Hx. rewrite decide_False; [done|]. by rewrite elem_of_list_to_set.
Qed.

Lemma waits_source items x y : y ∈ waits (by_id items) x -> x ∈ item_id <$> items.
Proof.
  unfold waits. intros Hy. change item_id with (unit_id (U:=PlanItem)). apply by_id_dom. destruct (by_id items !! x); [done|].
  by apply not_elem_of_nil in Hy.
Qed.

(** The reduction ends with the largest set of items each waiting for another
    of the set. *)
Lemma reject_dependency_cycle_spec items :
  NoDup (item_id <$> items) ->
  (forall it d, it ∈ items -> d ∈ item_dependencies it -> d ∈ item_id <$> items) ->
  exists R : gset string,
    shrinks (waits (by_id items)) (list_to_set (item_id <$> items)) R /\
    _reject_dependency_cycle items =
      if decide (R = ∅) then Ok tt else Err (DependencyCycle (sort_str (elements R))).
Proof.
  intros Hnd Hknown. pose proof (pending_deps_init items Hnd Hknown) as Hp.
  unfold _reject_dependency_cycle. set (pending := foldl _ _ _) in *.
  destruct (dependency_rounds_ok _ (S (size pending)) _ pending Hp) as (R & rest & -> & Hsh & Hd).
  - apply Nat.lt_succ_r. rewrite <-size_dom. apply eq_ind with (P := fun X => size X <= _)
      (x := dom pending); [done|].
    apply set_eq. intros x. rewrite elem_of_dom, Hp. case_decide; naive_solver.
  - exists R. split; [done|]. cbn [default]. subst R.
    destruct (decide (rest = ∅)) as [->|Hne].
    + by rewrite bool_decide_eq_true_2, decide_True by (try done; apply dom_empty_L).
    + rewrite bool_decide_eq_false_2 by done.
      rewrite decide_False; [done|]. by rewrite dom_empty_iff_L.
Qed.

Lemma reject_dependency_cycle_ok items :
  NoDup (item_id <$> items) ->
  (forall it d, it ∈ items -> d ∈ item_dependencies it -> d ∈ item_id <$> items) ->
  _reject_dependency_cycle items = Ok tt <-> acyclic (waits (by_id items)).
Proof.
  intros Hnd Hknown. destruct (reject_dependency_cycle_spec items Hnd Hknown) as (R & Hsh & ->).
  apply shrinks_acyclic in Hsh.
  - rewrite <-Hsh. by case_decide.
  - intros x y Hy. apply elem_of_list_to_set. by eapply waits_source.
Qed.

Lemma validate_items_ok p :
  plan_items p <> [] -> _validate_items p = Ok tt <-> items_ok (plan_items p).
Proof.
  intros Hne. unfold _validate_items. destruct (plan_items p) as [|it0 items0] eqn:Hitems; [done|].
  rewrite <-Hitems. set (items := plan_items p). destruct (no_dupes (item_id <$> items)) eqn:Hd.
  2:{ split; [done|]. intros [Hu _ _ _]. apply no_dupes_spec in Hu. congruence. }
  apply no_dupes_spec in Hd.
  pose proof (check_items_ok (list_to_set (item_id <$> items)) items) as Hc.
  setoid_rewrite elem_of_list_to_set in Hc.
  destruct (check_items _ items) as [[]|e]; simpl.
  2:{ split; [done|]. intros [_ Hk _ _]. by apply Hc in Hk. }
  destruct Hc as [Hk _]. specialize (Hk eq_refl).
  pose proof (reject_dependency_cycle_ok items Hd Hk) as Hac.
  destruct (_reject_dependency_cycle items) as [[]|e]; simpl.
  2:{ split; [done|]. intros [_ _ Ha _]. by apply Hac in Ha. }
  pose proof (describe_malformed_tree_ok items Hd Hk) as Htree.
  unfold _reject_malformed_tree.
  destruct (describe_malformed_tree items) eqn:Hdm; (split; [intros Hok|intros [_ _ _ Ht]]).
  - split; [done|done|by apply Hac|by apply Htree].
  - done.
  - done.
  - by apply Htree in Ht.
Qed.

(** ** Properties *)

(** A plan passes its validators exactly when it carries no items in a
    status that may, or unique items with resolving acyclic dependencies that
    form a containment tree of work items with sibling-only dependencies; and
    it carries a failure reason exactly when it is FAILED. *)
Theorem plan_accepted_exact p :
  validate_plan p = Ok tt <->
  (plan_items p = [] /\ plan_status p ∈ ITEMLESS_STATUSES \/
   plan_items p <> [] /\ items_ok (plan_items p)) /\
  (plan_status p = PlanStatus.FAILED <-> is_Some (plan_failure_reason p)).
Proof.
  assert (Hitems : _validate_items p = Ok tt <->
    plan_items p = [] /\ plan_status p ∈ ITEMLESS_STATUSES \/
    plan_items p <> [] /\ items_ok (plan_items p)).
  { destruct (decide (plan_items p = [])) as [He|He].
    - unfold _validate_items. rewrite He. case_bool_decide; naive_solver.
    - rewrite validate_items_ok by done. naive_solver. }
  unfold validate_plan. rewrite <-Hitems.
  destruct (_validate_items p) as [[]|]; simpl; [|naive_solver].
  unfold _validate_failure_reason. do 2 case_bool_decide; simpl; naive_solver.
Qed.

(** The cycle error names, sorted, the largest set of items each waiting
    for another item of the set. *)
Theorem cycle_report_maximal items l :
  NoDup (item_id <$> items) ->
  (forall it d, it ∈ items -> d ∈ item_dependencies it -> d ∈ item_id <$> items) ->
  _reject_dependency_cycle items = Err (DependencyCycle l) ->
  Sorted str_le l /\ l <> [] /\
  (forall x, x ∈ l -> exists y, y ∈ l /\ y ∈ waits (by_id items) x) /\
  (forall Y : gset string, self_feeding (waits (by_id items)) Y -> forall x, x ∈ Y -> x ∈ l).
Proof.
  intros Hnd Hknown He. destruct (reject_dependency_cycle_spec items Hnd Hknown) as (R & Hsh & HR).
  rewrite HR in He. case_decide as Hne; [done|]. injection He as <-.
  destruct (shrinks_spec _ _ _ Hsh) as (_ & Hf & Hmax).
  assert (Hl : forall x, x ∈ sort_str (elements R) <-> x ∈ R).
  { intros x. by rewrite sort_str_perm, elem_of_elements. }
  split_and!.
  - apply sort_str_sorted.
  - intros Hnil. apply set_choose_L in Hne as [x Hx]. apply Hl in Hx. rewrite Hnil in Hx. set_solver.
  - intros x Hx. apply Hl, Hf in Hx as (y & Hy & Hxy). exists y. by rewrite Hl.
  - intros Y HY x Hx. apply Hl. apply (Hmax Y); [done| |done]. intros y Hy.
    destruct (HY y Hy) as (z & _ & Hz). apply elem_of_list_to_set. by eapply waits_source.
Qed.

(** An item that passed its validator always resolves: a decision to the
    option the reviewer chose, else to the one recommended option. *)
Theorem decision_resolves it :
  _validate_item it = Ok tt ->
  match item_kind it with
  | WORK => resolved_option it = Ok None
  | DECISION => exists o, resolved_option it = Ok (Some o) /\ o ∈ item_options it /\
      match item_chosen_option_id it with
      | Some c => opt_id o = c
      | None => forall o', o' ∈ item_options it -> opt_recommended o' = true <-> o' = o
      end
  end.
Proof.
  unfold _validate_item, _validate_decision. intros Hv.
  assert (Hs : decision_shape (item_kind it) (item_options it) (item_chosen_option_id it)).
  { apply (decision_options_ok (item_id it)).
    destruct (validate_decision_options _ _ _ _) as [[]|]; [done|]. split_hyp Hv. }
  clear Hv. unfold resolved_option, decision_shape in *. destruct (item_kind it); [done|].
  destruct Hs as (_ & Hnd & (l1 & o & l2 & Hopts & Ho & Hrest) & Hc).
  assert (Hfind : forall p, (exists o', o' ∈ item_options it /\ p o' = true) ->
    exists o', next_option p (item_options it) = Some o' /\ o' ∈ item_options it /\ p o' = true).
  { intros p (o' & Hin & Hp). unfold next_option. destruct (find p (item_options it)) as [o2|] eqn:Hf.
    - apply find_some in Hf as [? ?]. exists o2. by rewrite list_elem_of_In.
    - exfalso. apply list_elem_of_In in Hin. by rewrite (find_none _ _ Hf o' Hin) in Hp. }
  destruct (item_chosen_option_id it) as [c|].
  - specialize (Hc c eq_refl). apply list_elem_of_fmap in Hc as (o' & -> & Hin).
    destruct (Hfind (fun o2 => bool_decide (opt_id o2 = option_id o'))) as (o2 & -> & ? & Heq).
    + exists o'. split; [done|]. by apply bool_decide_eq_true.
    + exists o2. by apply bool_decide_eq_true in Heq.
  - destruct (Hfind opt_recommended) as (o2 & -> & Hin & Heq).
    + exists o. split; [|done]. rewrite Hopts. set_solver.
    + assert (Hall : forall o', o' ∈ item_options it -> opt_recommended o' = true -> o' = o).
      { intros o' Hin' Hr. rewrite Hopts, elem_of_app, elem_of_cons in Hin'.
        destruct (decide (o' = o)) as [|Hne]; [done|].
        assert (o' ∈ l1 ++ l2) as Hr2%Hrest by (apply elem_of_app; naive_solver).
        unfold option_recommended in Hr2. simpl in Hr2. congruence. }
      assert (o2 = o) as -> by by apply Hall.
      exists o. split_and!; [done..|]. intros o' Hin'. split; [by apply Hall|naive_solver].
Qed.

(** Failing a valid plan gives a valid FAILED plan one version on, with the
    reason and the time given; only a naive timestamp is refused. *)
Theorem fail_keeps_valid p reason now :
  validate_plan p = Ok tt ->
  exists p', fail p reason (Some now) = Ok p' /\ validate_plan p' = Ok tt /\
    plan_status p' = PlanStatus.FAILED /\ plan_failure_reason p' = Some reason /\
    plan_version p' = (plan_version p + 1)%Z /\ plan_updated_at p' = now /\
    plan_items p' = plan_items p /\ fail p reason None = Err NaiveDatetime.
Proof.
  intros Hv. eexists. split; [reflexivity|]. split_and!; try done.
  unfold validate_plan in *. destruct (_validate_items p) as [[]|e] eqn:Hi; [|done].
  assert (_validate_items {| plan_id := plan_id p; plan_items := plan_items p;
    plan_task_structure := plan_task_structure p;
    plan_coordination_topology := plan_coordination_topology p;
    plan_status := PlanStatus.FAILED; plan_failure_reason := Some reason;
    plan_replan_generation := plan_replan_generation p;
    plan_version := plan_version p + 1; plan_updated_at := now |} = Ok tt) as ->; [|done].
  unfold _validate_items in *. simpl. by destruct (plan_items p).
Qed.

(** ** A small plan *)

Definition uuid (c : ascii) : string :=
  String.string_of_list_ascii
    (replicate 8 c ++ ["-"%char] ++ replicate 4 c ++ ["-"%char] ++ replicate 4 c ++
     ["-"%char] ++ replicate 4 c ++ ["-"%char] ++ replicate 12 c).

Definition work_item (c : ascii) (parent : option ascii) (deps : list ascii) : PlanItem := {|
  item_id := uuid c; item_title := String c EmptyString; item_description := "work";
  item_parent_id := uuid <$> parent; item_dependencies := uuid <$> deps; item_owner := None;
  item_acceptance_criteria := ["done"]; item_expected_artifacts := ["out"];
  item_required_skills := []; item_required_tags := [];
  item_estimated_complexity := Complexity.MEDIUM; item_stakes := Stakes.NORMAL;
  item_kind := WORK; item_options := []; item_chosen_option_id := None;
  item_satisfies := []; item_unsplit_reason := None |}.

Definition pick : PlanItem := {|
  item_id := uuid "d"; item_title := "pick"; item_description := "decide";
  item_parent_id := None; item_dependencies := []; item_owner := None;
  item_acceptance_criteria := ["chosen"]; item_expected_artifacts := [];
  item_required_skills := []; item_required_tags := [];
  item_estimated_complexity := Complexity.MEDIUM; item_stakes := Stakes.NORMAL;
  item_kind := DECISION;
  item_options := [{| opt_id := "x"; opt_title := "x"; opt_summary := "x"; opt_recommended := false |};
                   {| opt_id := "y"; opt_title := "y"; opt_summary := "y"; opt_recommended := true |}];
  item_chosen_option_id := None; item_satisfies := []; item_unsplit_reason := None |}.

Definition small_plan (items : list PlanItem) : Plan := {|
  plan_id := "p"; plan_items := items; plan_task_structure := TaskStructure.MIXED;
  plan_coordination_topology := CoordinationTopology.AUTO; plan_status := PlanStatus.DRAFT;
  plan_failure_reason := None; plan_replan_generation := 0; plan_version := 1;
  plan_updated_at := 0 |}.

(** [c] and [b] wait for each other; [a] waits for [b]. *)
Definition knotted : list PlanItem :=
  [work_item "a" None ["b"%char]; work_item "b" None ["c"%char];
   work_item "c" None ["b"%char]; pick].

Example knotted_refused :
  _reject_dependency_cycle knotted = Err (DependencyCycle [uuid "a"; uuid "b"; uuid "c"]).
Proof. vm_compute. reflexivity. Qed.

Example small_plan_valid :
  validate_plan (small_plan [work_item "a" None ["b"%char]; work_item "b" None [];
    work_item "c" (Some "a"%char) []; pick]) = Ok tt.
Proof. vm_compute. reflexivity. Qed.

Lemma cycle_report_maximal_witness :
  Sorted str_le [uuid "a"; uuid "b"; uuid "c"] /\ [uuid "a"; uuid "b"; uuid "c"] <> [].
Proof.
  destruct (cycle_report_maximal knotted [uuid "a"; uuid "b"; uuid "c"]) as (Hs & Hne & _).
  - apply (bool_decide_unpack _). vm_compute. exact I.
  - assert (Hok : check_items (list_to_set (item_id <$> knotted)) knotted = Ok tt)
      by (vm_compute; reflexivity).
    rewrite check_items_ok in Hok. intros it d Hit Hd.
    specialize (Hok it d Hit Hd). by rewrite elem_of_list_to_set in Hok.
  - exact knotted_refused.
  - exact (conj Hs Hne).
Defined.

Lemma decision_resolves_witness :
  exists o, resolved_option pick = Ok (Some o) /\ o ∈ item_options pick /\
    forall o', o' ∈ item_options pick -> opt_recommended o' = true <-> o' = o.
Proof.
  assert (Hv : _validate_item pick = Ok tt) by (vm_compute; reflexivity).
  exact (decision_resolves pick Hv).
Defined.

Lemma fail_keeps_valid_witness :
  exists p', fail (small_plan [pick]) "budget" (Some 7%Z) = Ok p' /\ validate_plan p' = Ok tt.
Proof.
  assert (Hv : validate_plan (small_plan [pick]) = Ok tt) by (vm_compute; reflexivity).
  destruct (fail_keeps_valid (small_plan [pick]) "budget" 7 Hv) as (p' & H1 & H2 & _).
  exists p'. split; [exact H1|exact H2].
Defined.
