(* ===== verification/PlanTree.v ===== *)
(** * PlanTree

    [core/plan_tree.py]: the derived views of a plan's containment tree. The
    items are those of a plan that passed its validators ([items_ok]); the
    walks up and down the tree end on exactly those. *)

From stdpp Require Import gmap strings list sorting relations.
From Stdlib Require Import ZArith Ascii Lia.
From S2P Require Import Prelude TaskEnums Graphs PlanUnits PlanTransitions PlanItems.

Record SubtreeStep := {
  step_title : string;
  step_position : nat;
}.

(** [by_id] keeps insertion order, which [workstreams] reads. *)
Record PlanTree := {
  tree_by_id : list (string * PlanItem);
  by_parent : gmap string (list PlanItem);
}.

(** [children.setdefault(item.parent_id, []).append(item)]. *)
Definition add_child (m : gmap string (list PlanItem)) (it : PlanItem)
    : gmap string (list PlanItem) :=
  match item_parent_id it with
  | Some p => <[p := default [] (m !! p) ++ [it]]> m
  | None => m
  end.

(** [PlanTree.of]. *)
Definition tree_of (items : list PlanItem) : PlanTree := {|
  tree_by_id := foldl (fun d it => dict_set (item_id it) it d) [] items;
  by_parent := foldl add_child ∅ items;
|}.

Definition workstreams (t : PlanTree) : list PlanItem :=
  filter (fun it => item_parent_id it = None) (tree_by_id t).*2.

Definition children (t : PlanTree) (item_id : string) : list PlanItem :=
  default [] (by_parent t !! item_id).

Definition is_container (t : PlanTree) (item_id : string) : bool :=
  match by_parent t !! item_id with
  | Some (_ :: _) => true
  | _ => false
  end.

Definition parent_id (t : PlanTree) (item_id : string) : option string :=
  dict_get item_id (tree_by_id t) ≫= item_parent_id.

(** The walk to the root visits every item at most once. *)
Definition climb_fuel (t : PlanTree) : nat := S (length (tree_by_id t)).

(** [None] when the walk does not end within the fuel. *)
Fixpoint depth_loop (fuel : nat) (t : PlanTree) (current : option string) (level : nat)
    : option nat :=
  match fuel with
  | 0 => None
  | S fuel =>
      match current with
      | None => Some level
      | Some c => depth_loop fuel t (parent_id t c) (S level)
      end
  end.

Definition depth (t : PlanTree) (item_id : string) : option nat :=
  depth_loop (climb_fuel t) t (parent_id t item_id) 0.

Definition siblings (t : PlanTree) (it : PlanItem) : list PlanItem :=
  match item_parent_id it with
  | None => workstreams t
  | Some p => children t p
  end.

(** [next((at for at, sibling in enumerate(siblings) if sibling.id == current.id), 0)]. *)
Definition position (t : PlanTree) (it : PlanItem) : nat :=
  from_option fst 0 (list_find (fun s => item_id s = item_id it) (siblings t it)).

Definition step_of (t : PlanTree) (it : PlanItem) : SubtreeStep := {|
  step_title := item_title it;
  step_position := position t it;
|}.

(** [chain] in append order. *)
Fixpoint address_loop (fuel : nat) (t : PlanTree) (current : option PlanItem)
    (chain : list SubtreeStep) : option (list SubtreeStep) :=
  match fuel with
  | 0 => None
  | S fuel =>
      match current with
      | None => Some chain
      | Some it =>
          address_loop fuel t
            (item_parent_id it ≫= fun p => dict_get p (tree_by_id t)) (chain ++ [step_of t it])
      end
  end.

Definition address (t : PlanTree) (item_id : string) : option (list SubtreeStep) :=
  reverse <$> address_loop (climb_fuel t) t (dict_get item_id (tree_by_id t)) [].

(** The stacks are kept top first: [extend] pushes in list order, so the last
    element ends on top. *)
Fixpoint subtree_loop (fuel : nat) (t : PlanTree) (found : gset string) (frontier : list string)
    : option (gset string) :=
  match fuel with
  | 0 => None
  | S fuel =>
      match frontier with
      | [] => Some found
      | current :: frontier =>
          if decide (current ∈ found) then subtree_loop fuel t found frontier
          else subtree_loop fuel t ({[current]} ∪ found)
                 (rev (item_id <$> children t current) ++ frontier)
      end
  end.

Definition subtree_fuel (t : PlanTree) : nat :=
  2 + sum_list_with (fun kv => length kv.2) (map_to_list (by_parent t)).

Definition subtree_ids (t : PlanTree) (item_id : string) : gset string :=
  default ∅ (subtree_loop (subtree_fuel t) t ∅ [item_id]).

Fixpoint below_loop (fuel : nat) (t : PlanTree) (pending : list (PlanItem * bool))
    (acc : list PlanItem) : option (list PlanItem) :=
  match fuel with
  | 0 => None
  | S fuel =>
      match pending with
      | [] => Some acc
      | (node, true) :: pending => below_loop fuel t pending (acc ++ [node])
      | (node, false) :: pending =>
          below_loop fuel t
            (((fun c => (c, false)) <$> children t (item_id node)) ++ (node, true) :: pending) acc
      end
  end.

(** Every item of the subtree is visited twice. *)
Definition below_fuel (t : PlanTree) : nat := S (2 * length (tree_by_id t)).

Definition _below (t : PlanTree) (it : PlanItem) : option (list PlanItem) :=
  below_loop (below_fuel t) t [(it, false)] [].

Definition deepest_first (t : PlanTree) : option (list PlanItem) :=
  (fun ls => concat ls) <$> mapM (_below t) (workstreams t).

(** ** Lemmas: the maps of a tree *)

Section Views.
Variable items : list PlanItem.
Hypothesis Hok : items_ok items.
Let t := tree_of items.

Lemma of_by_id : tree_by_id t = (fun it => (item_id it, it)) <$> items.
Proof.
  unfold t, tree_of. simpl. pose proof (io_unique _ Hok) as Hnd. clear Hok.
  induction items as [|it l IH] using rev_ind; [done|].
  rewrite fmap_app in Hnd. apply NoDup_app in Hnd as (Hnd & Hdis & _).
  rewrite foldl_app, fmap_app, IH by done. simpl. apply dict_set_keys_fresh.
  rewrite <-list_fmap_compose. simpl. intros Hin. apply (Hdis (item_id it)); [|simpl; by left].
  done.
Qed.

Lemma of_get x it : dict_get x (tree_by_id t) = Some it <-> it ∈ items /\ item_id it = x.
Proof.
  rewrite of_by_id. split.
  - intros Hg%dict_get_elem. apply list_elem_of_fmap in Hg as (it' & [= -> ->] & ?). done.
  - intros [Hin <-]. apply dict_elem_get.
    + rewrite <-list_fmap_compose. apply Hok.
    + apply list_elem_of_fmap. by exists it.
Qed.

Lemma of_workstreams : workstreams t = filter (fun it => item_parent_id it = None) items.
Proof.
  unfold workstreams. rewrite of_by_id, <-list_fmap_compose. f_equal.
  apply list_fmap_id.
Qed.

Lemma of_children x : children t x = filter (fun it => item_parent_id it = Some x) items.
Proof.
  unfold children, t, tree_of. simpl. clear t Hok.
  induction items as [|it l IH] using rev_ind; [done|].
  rewrite foldl_app, filter_app, filter_cons, filter_nil. cbn [foldl]. unfold add_child at 1.
  destruct (item_parent_id it) as [p|] eqn:Hp.
  - destruct (decide (p = x)) as [->|Hne].
    + rewrite lookup_insert_eq, decide_True by done. simpl. by rewrite IH.
    + rewrite lookup_insert_ne, decide_False by (try done; congruence). by rewrite app_nil_r.
  - rewrite decide_False by done. by rewrite app_nil_r.
Qed.

Lemma children_elem x c : c ∈ children t x <-> c ∈ items /\ item_parent_id c = Some x.
Proof. rewrite of_children, list_elem_of_filter. naive_solver. Qed.

Lemma workstreams_elem c : c ∈ workstreams t <-> c ∈ items /\ item_parent_id c = None.
Proof. rewrite of_workstreams, list_elem_of_filter. naive_solver. Qed.

Lemma item_id_inj a b : a ∈ items -> b ∈ items -> item_id a = item_id b -> a = b.
Proof.
  intros Ha Hb Heq. pose proof (proj2 (of_get (item_id a) a) (conj Ha eq_refl)) as H1.
  pose proof (proj2 (of_get (item_id b) b) (conj Hb eq_refl)) as H2. rewrite Heq in H1. congruence.
Qed.

(** The parent of an item is an item. *)
Lemma parent_item it p :
  it ∈ items -> item_parent_id it = Some p -> exists h, h ∈ items /\ item_id h = p.
Proof.
  intros Hit Hp. destruct (to_parent _ (io_tree _ Hok) it p Hit Hp) as (h & ? & ? & _). by exists h.
Qed.

(** ** One step up the tree *)

Definition up (a b : PlanItem) : Prop :=
  a ∈ items /\ b ∈ items /\ item_parent_id a = Some (item_id b).

Lemma up_acyclic a : ~ tc up a a.
Proof.
  intros Ha. apply (to_acyclic _ (io_tree _ Hok) (item_id a)).
  eapply tc_congruence; [|exact Ha]. intros x y (Hx & Hy & Hp). unfold edge, parents.
  assert (by_id items !! item_id x = Some x) as ->.
  { exact (by_id_self (U:=PlanItem) items x (io_unique _ Hok) Hx). }
  simpl. rewrite Hp. simpl. by left.
Qed.
End Views.

(** ** Subtrees *)

Definition child_ids (t : PlanTree) (x : string) : list string := item_id <$> children t x.

Section Subtree.
Variable t : PlanTree.

Let weight (found : gset string) :=
  unseen (fun kids => length kids) (map_to_list (by_parent t)) found.

Lemma child_ids_weight found x :
  x ∉ found -> weight ({[x]} ∪ found) + length (child_ids t x) <= weight found.
Proof.
  intros Hx. unfold weight, child_ids, children. rewrite length_fmap.
  destruct (by_parent t !! x) as [kids|] eqn:Hk; simpl.
  - apply unseen_expand; [by apply elem_of_map_to_list|done].
  - pose proof (unseen_mono (fun kids : list PlanItem => length kids)
      (map_to_list (by_parent t)) found x). lia.
Qed.

(** The search ends with the smallest set holding the frontier and closed under
    children. *)
Lemma subtree_loop_ok root fuel found frontier :
  (forall y, y ∈ found \/ y ∈ frontier -> rtc (edge (child_ids t)) root y) ->
  (forall y z, y ∈ found -> z ∈ child_ids t y -> z ∈ found \/ z ∈ frontier) ->
  root ∈ found \/ root ∈ frontier ->
  length frontier + weight found < fuel ->
  exists r, subtree_loop fuel t found frontier = Some r /\
    forall x, x ∈ r <-> rtc (edge (child_ids t)) root x.
Proof.
  revert found frontier. induction fuel as [|fuel IH]; intros found frontier Hreach Hcl Hroot Hf; [lia|].
  destruct frontier as [|current frontier]; simpl in *.
  - exists found. split; [done|]. intros x. split; [intros Hx; apply Hreach; by left|].
    enough (forall y, rtc (edge (child_ids t)) y x -> y ∈ found -> x ∈ found) as Hgo.
    { intros Hx. destruct Hroot as [?|Hn]; [by eapply Hgo|by apply not_elem_of_nil in Hn]. }
    induction 1 as [|y z x Hyz _ IHx]; [done|]. intros Hy. apply IHx.
    destruct (Hcl y z Hy Hyz) as [?|Hn]; [done|by apply not_elem_of_nil in Hn].
  - case_decide as Hold.
    + apply IH; [| | |lia].
      * intros y Hy. apply Hreach. set_solver.
      * intros y z Hy Hz. destruct (Hcl y z Hy Hz) as [?|[->|?]%elem_of_cons]; auto.
      * destruct Hroot as [?|[->|?]%elem_of_cons]; auto.
    + pose proof (child_ids_weight found current Hold) as Hw.
      assert (Hfr : forall z, z ∈ rev (item_id <$> children t current) ++ frontier <->
        z ∈ child_ids t current \/ z ∈ frontier).
      { intros z. rewrite elem_of_app, list_elem_of_In, <-in_rev, <-list_elem_of_In. done. }
      apply IH; [setoid_rewrite Hfr|setoid_rewrite Hfr|rewrite Hfr|].
      * intros y [Hy|[Hy|Hy]].
        -- apply elem_of_union in Hy as [->%elem_of_singleton|?]; apply Hreach; [right; left|by left].
        -- eapply rtc_r; [apply Hreach; right; left|done].
        -- apply Hreach. right. by right.
      * intros y z Hy Hz. rewrite elem_of_union, elem_of_singleton.
        destruct (decide (y = current)) as [->|Hne]; [auto|].
        destruct (Hcl y z) as [?|[->|?]%elem_of_cons]; [set_solver|done|auto..].
      * rewrite elem_of_union, elem_of_singleton.
        destruct Hroot as [?|[->|?]%elem_of_cons]; auto.
      * rewrite length_app, length_rev. fold (child_ids t current). lia.
Qed.
End Subtree.

(** ** The path to the root *)

Section Rooted.
Variable items : list PlanItem.
Hypothesis Hok : items_ok items.
Let t := tree_of items.

Lemma up_sn it : sn (up items) it.
Proof.
  apply tc_finite_sn; [intros x; by apply up_acyclic|].
  exists items. intros y Hy. induction Hy as [? ? (_ & ? & _)|]; done.
Qed.

(** An item with everything above it, the workstream last. *)
Inductive rooted : PlanItem -> list PlanItem -> Prop :=
| rooted_top it : it ∈ items -> item_parent_id it = None -> rooted it [it]
| rooted_up it h l : up items it h -> rooted h l -> rooted it (it :: l).

Lemma rooted_exists it : it ∈ items -> exists l, rooted it l.
Proof.
  induction (up_sn it) as [it _ IH]. intros Hit.
  destruct (item_parent_id it) as [p|] eqn:Hp; [|exists [it]; by constructor].
  destruct (parent_item items Hok it p Hit Hp) as (h & Hh & <-).
  destruct (IH h) as [l Hl]; [by split_and!|done|]. exists (it :: l). by econstructor.
Qed.

Lemma rooted_above it l x : rooted it l -> x ∈ l -> x ∈ items /\ rtc (up items) it x.
Proof.
  induction 1 as [it Hit _|it h l Hup Hl IH].
  - intros ->%list_elem_of_singleton. done.
  - intros [->|Hx]%elem_of_cons; [split; [apply Hup|done]|].
    destruct (IH Hx). split; [done|]. by eapply rtc_l.
Qed.

Lemma rooted_nodup it l : rooted it l -> NoDup l.
Proof.
  induction 1 as [it Hit _|it h l Hup Hl IH]; [apply NoDup_singleton|].
  constructor; [|done]. intros Hin. destruct (rooted_above _ _ _ Hl Hin) as [_ Hr].
  apply (up_acyclic items Hok it). eapply tc_rtc_r; [by apply tc_once|done].
Qed.

Lemma rooted_length it l : rooted it l -> length l <= length items.
Proof.
  intros Hl. apply submseteq_length, NoDup_submseteq; [by eapply rooted_nodup|].
  intros x Hx. by eapply rooted_above.
Qed.

Lemma rooted_det it l1 l2 : rooted it l1 -> rooted it l2 -> l1 = l2.
Proof.
  intros H1. revert l2. induction H1 as [it Hit Hp|it h l (Ha & Hh & Hp) Hl IH]; intros l2 H2.
  - inversion H2 as [|? h' l' (_ & _ & Hp')]; [done|congruence].
  - inversion H2 as [|? h' l' (_ & Hh' & Hp') Hl']; [congruence|]. subst. f_equal. apply IH.
    assert (h = h') as -> by (apply (item_id_inj items Hok); congruence). done.
Qed.

Lemma tree_size : length (tree_by_id t) = length items.
Proof. unfold t. rewrite of_by_id by done. apply length_fmap. Qed.

Lemma get_item it : it ∈ items -> dict_get (item_id it) (tree_by_id t) = Some it.
Proof. intros Hit. by apply of_get. Qed.

Lemma parent_id_of it : it ∈ items -> parent_id t (item_id it) = item_parent_id it.
Proof.
  intros Hit. unfold parent_id.
  by rewrite get_item.
Qed.

Lemma depth_loop_ok it l fuel level :
  rooted it l -> length l <= fuel ->
  depth_loop fuel t (item_parent_id it) level = Some (level + (length l - 1)).
Proof.
  intros Hl. revert fuel level. induction Hl as [it Hit Hp|it h l (Ha & Hh & Hp) Hl IH];
    intros fuel level Hf; (destruct fuel as [|fuel]; [simpl in Hf; lia|]); rewrite Hp; simpl in *.
  - f_equal. lia.
  - rewrite parent_id_of, IH by (done || lia). f_equal.
    assert (0 < length l) by (inversion Hl; simpl; lia). lia.
Qed.

Lemma address_loop_ok it l fuel chain :
  rooted it l -> length l < fuel ->
  address_loop fuel t (Some it) chain = Some (chain ++ (step_of t <$> l)).
Proof.
  intros Hl. revert fuel chain. induction Hl as [it Hit Hp|it h l (Ha & Hh & Hp) Hl IH];
    intros fuel chain Hf; (destruct fuel as [|fuel]; [simpl in Hf; lia|]); simpl in *; rewrite Hp; simpl.
  - destruct fuel as [|fuel]; [lia|done].
  - rewrite get_item by done.
    rewrite IH by lia. by rewrite <-app_assoc.
Qed.

Lemma address_rooted it l :
  rooted it l -> address t (item_id it) = Some (reverse (step_of t <$> l)).
Proof.
  intros Hl. assert (it ∈ items) as Hit by (inversion Hl as [|? ? ? (? & _)]; done).
  unfold address. rewrite get_item by done.
  rewrite (address_loop_ok it l) by (done || (unfold climb_fuel; rewrite tree_size;
    pose proof (rooted_length it l Hl); lia)). done.
Qed.

Lemma siblings_elem it : it ∈ items -> it ∈ siblings t it.
Proof.
  intros Hit. unfold siblings. destruct (item_parent_id it) eqn:Hp.
  - by apply children_elem.
  - by apply workstreams_elem.
Qed.

Lemma siblings_items it x : x ∈ siblings t it -> x ∈ items.
Proof.
  unfold siblings. destruct (item_parent_id it); intros Hx.
  - by apply children_elem in Hx as [? _].
  - by apply workstreams_elem in Hx as [? _].
Qed.

Lemma position_lookup it : it ∈ items -> siblings t it !! position t it = Some it.
Proof.
  intros Hit. unfold position. pose proof (siblings_elem it Hit) as Hin.
  destruct (list_find (fun s => item_id s = item_id it) (siblings t it)) as [[i s]|] eqn:Hf; simpl.
  - apply list_find_Some in Hf as (Hi & Heq & _). rewrite Hi. f_equal.
    apply (item_id_inj items Hok); [|done|done]. eapply siblings_items.
    by eapply list_elem_of_lookup_2.
  - rewrite list_find_None, Forall_forall in Hf. by destruct (Hf it Hin).
Qed.

Lemma position_inj a b :
  a ∈ items -> b ∈ items -> item_parent_id a = item_parent_id b ->
  position t a = position t b -> a = b.
Proof.
  intros Ha Hb Hp Hpos. pose proof (position_lookup a Ha) as H1.
  pose proof (position_lookup b Hb) as H2. unfold siblings in *. rewrite Hp, Hpos in H1. congruence.
Qed.

Lemma rooted_positions_inj a b la lb :
  rooted a la -> rooted b lb -> position t <$> la = position t <$> lb -> a = b.
Proof.
  intros Hla. revert b lb. induction Hla as [a Ha Hp|a ha la (Ha & Hha & Hp) Hla IH];
    intros b lb Hlb Heq.
  - inversion Hlb as [? Hb Hpb|? h l (Hb & _ & _) Hl]; subst.
    + apply position_inj; [done|done|congruence|]. by injection Heq.
    + simpl in Heq. injection Heq as _ Heq. by destruct Hl.
  - inversion Hlb as [? Hb Hpb|? h l (Hb & Hh & Hpb) Hl]; subst.
    + simpl in Heq. injection Heq as _ Heq. by destruct Hla.
    + simpl in Heq. injection Heq as Hpos Heq. pose proof (IH h l Hl Heq) as ->.
      apply position_inj; [done|done|congruence|done].
Qed.
End Rooted.

(** ** The assembly order *)

Section DeepestFirst.
Variable items : list PlanItem.
Hypothesis Hok : items_ok items.
Let t := tree_of items.

(** [post it l]: [l] is the subtree of [it], each child's subtree in plan
    order, [it] last. *)
Inductive post : PlanItem -> list PlanItem -> Prop :=
| post_node it l : posts (children t (item_id it)) l -> post it (l ++ [it])
with posts : list PlanItem -> list PlanItem -> Prop :=
| posts_nil : posts [] []
| posts_cons c cs l1 l2 : post c l1 -> posts cs l2 -> posts (c :: cs) (l1 ++ l2).

Scheme post_mut := Minimality for post Sort Prop
  with posts_mut := Minimality for posts Sort Prop.
Combined Scheme post_posts_ind from post_mut, posts_mut.

Lemma posts_exists cs : (forall c, c ∈ cs -> exists l, post c l) -> exists l, posts cs l.
Proof.
  induction cs as [|c cs IH]; intros Hc; [exists []; constructor|].
  destruct (Hc c) as [l1 ?]; [by left|]. destruct IH as [l2 ?]; [set_solver|].
  exists (l1 ++ l2). by constructor.
Qed.

Lemma down_sn it : sn (flip (up items)) it.
Proof.
  assert (Hflip : forall x y, tc (flip (up items)) x y -> tc (up items) y x).
  { induction 1 as [x y Hxy|x y z Hxy _ IH]; [by apply tc_once|]. by eapply tc_r. }
  apply tc_finite_sn; [intros x Hx%Hflip; by eapply up_acyclic|].
  exists items. intros y Hy%Hflip. by inversion Hy as [? ? []|? ? ? []].
Qed.

Lemma child_up it c : it ∈ items -> c ∈ children t (item_id it) <-> up items c it.
Proof. intros Hit. unfold t. rewrite children_elem by done. unfold up. naive_solver. Qed.

Lemma post_exists it : it ∈ items -> exists l, post it l.
Proof.
  induction (down_sn it) as [it _ IH]. intros Hit.
  destruct (posts_exists (children t (item_id it))) as [l Hl].
  - intros c Hc%child_up; [|done]. apply IH; [done|]. by destruct Hc.
  - exists (l ++ [it]). by constructor.
Qed.

(** The stack emits a pushed subtree before it goes on. *)
Lemma below_loop_run :
  (forall it l, post it l -> forall fuel pending acc,
     below_loop (2 * length l + fuel) t ((it, false) :: pending) acc =
     below_loop fuel t pending (acc ++ l)) /\
  (forall cs l, posts cs l -> forall fuel pending acc,
     below_loop (2 * length l + fuel) t (((fun c => (c, false)) <$> cs) ++ pending) acc =
     below_loop fuel t pending (acc ++ l)).
Proof.
  apply post_posts_ind.
  - intros it l _ IH fuel pending acc. rewrite length_app. simpl length.
    replace (2 * (length l + 1) + fuel) with (S (2 * length l + S fuel)) by lia.
    cbn [below_loop]. rewrite IH. cbn [below_loop]. by rewrite <-app_assoc.
  - intros fuel pending acc. by rewrite app_nil_r.
  - intros c cs l1 l2 _ IH1 _ IH2 fuel pending acc. rewrite length_app, fmap_cons.
    replace (2 * (length l1 + length l2) + fuel) with (2 * length l1 + (2 * length l2 + fuel)) by lia.
    simpl app. rewrite IH1, IH2. by rewrite <-app_assoc.
Qed.

(** A subtree holds what lies at or below its root. *)
Lemma post_elem :
  (forall it l, post it l -> it ∈ items -> forall x, x ∈ l <-> rtc (up items) x it) /\
  (forall cs l, posts cs l -> (forall c, c ∈ cs -> c ∈ items) ->
     forall x, x ∈ l <-> exists c, c ∈ cs /\ rtc (up items) x c).
Proof.
  apply post_posts_ind.
  - intros it l _ IH Hit x. rewrite elem_of_app, list_elem_of_singleton, IH.
    + split.
      * intros [(c & Hc & Hx)| ->]; [|done]. apply child_up in Hc; [|done]. by eapply rtc_r.
      * intros [->|(c & Hx & Hc)]%rtc_inv_r; [by right|]. left. exists c. by rewrite child_up.
    + intros c Hc%child_up; [|done]. by destruct Hc.
  - intros _ x. set_solver.
  - intros c cs l1 l2 _ IH1 _ IH2 Hcs x. rewrite elem_of_app, IH1, IH2 by set_solver.
    setoid_rewrite elem_of_cons. naive_solver.
Qed.

(** Two different siblings have no item below both. *)
Lemma siblings_disjoint a b x :
  a ∈ items -> b ∈ items -> item_parent_id a = item_parent_id b ->
  rtc (up items) x a -> rtc (up items) x b -> a = b.
Proof.
  intros Ha Hb Hp Hxa Hxb.
  assert (Hstep : forall a b, a ∈ items -> b ∈ items -> item_parent_id a = item_parent_id b ->
    rtc (up items) a b -> a = b).
  { clear -Hok. intros a b Ha Hb Hp Hr. inversion Hr as [|? h ? (_ & Hh & Hpa) Hhb]; [done|]. subst.
    exfalso. apply (up_acyclic items Hok h). eapply tc_rtc_l; [exact Hhb|]. apply tc_once.
    split_and!; [done|done|congruence]. }
  induction Hxa as [x|x y a Hxy Hya IH].
  - by apply Hstep.
  - inversion Hxb as [|? z ? Hxz Hzb]; subst.
    + symmetry. apply Hstep; [done|done|done|]. by eapply rtc_l.
    + assert (y = z) as -> by (destruct Hxy as (_ & ? & ?), Hxz as (_ & ? & ?);
        apply (item_id_inj items Hok); congruence). by apply IH.
Qed.

Lemma post_nodup :
  (forall it l, post it l -> it ∈ items -> NoDup l) /\
  (forall cs l, posts cs l -> (forall c, c ∈ cs -> c ∈ items) -> NoDup cs ->
     (forall a b, a ∈ cs -> b ∈ cs -> item_parent_id a = item_parent_id b) -> NoDup l).
Proof.
  destruct post_elem as [Hpe Hpse]. apply post_posts_ind.
  - intros it l Hl IH Hit.
    assert (Hcs : forall c, c ∈ children t (item_id it) -> c ∈ items)
      by (intros c Hc%child_up; [by destruct Hc|done]).
    apply NoDup_app. split_and!; [|intros x Hx ->%list_elem_of_singleton|apply NoDup_singleton].
    + apply IH; [done| |].
      * unfold t. rewrite of_children by done. apply NoDup_filter.
        eapply NoDup_fmap_1, (io_unique _ Hok).
      * intros a b Ha%child_up Hb%child_up; [|done..]. destruct Ha as (_ & _ & ->), Hb as (_ & _ & ->).
        done.
    + apply (Hpse _ _ Hl) in Hx as (c & Hc & Hx); [|done]. apply child_up in Hc; [|done].
      apply (up_acyclic items Hok it). eapply tc_rtc_l; [exact Hx|by apply tc_once].
  - intros _ _ _. constructor.
  - intros c cs l1 l2 H1 IH1 H2 IH2 Hcs [Hc Hnd]%NoDup_cons Hpar.
    apply NoDup_app. split_and!; [apply IH1; set_solver| |apply IH2; set_solver].
    intros x Hx1 Hx2. apply (Hpe _ _ H1) in Hx1; [|set_solver].
    apply (Hpse _ _ H2) in Hx2 as (c2 & Hc2 & Hx2); [|set_solver].
    assert (c = c2) as ->; [|done]. apply (siblings_disjoint c c2 x); set_solver.
Qed.

Lemma post_ordered :
  (forall it l, post it l -> it ∈ items -> ordered (child_ids t) (item_id <$> l)) /\
  (forall cs l, posts cs l -> (forall c, c ∈ cs -> c ∈ items) ->
     ordered (child_ids t) (item_id <$> l)).
Proof.
  destruct post_elem as [_ Hpse]. apply post_posts_ind.
  - intros it l Hl IH Hit. rewrite fmap_app. simpl.
    assert (Hcs : forall c, c ∈ children t (item_id it) -> c ∈ items)
      by (intros c Hc%child_up; [by destruct Hc|done]).
    apply ordered_snoc. split; [by apply IH|].
    intros y (c & -> & Hc)%list_elem_of_fmap. apply list_elem_of_fmap_2.
    apply (Hpse _ _ Hl); [done|]. by exists c.
  - intros _. apply ordered_nil.
  - intros c cs l1 l2 _ IH1 _ IH2 Hcs. rewrite fmap_app. apply ordered_app; set_solver.
Qed.

Lemma deepest_first_posts : exists l, deepest_first t = Some l /\ posts (workstreams t) l.
Proof.
  assert (Hw : forall c, c ∈ workstreams t -> c ∈ items)
    by (intros c Hc; by apply workstreams_elem in Hc as [? _]).
  unfold deepest_first. induction (workstreams t) as [|c cs IH]; [exists []; by repeat constructor|].
  destruct (post_exists c) as [l1 H1]; [apply Hw; left|].
  destruct IH as (l2 & H2 & Hp2); [set_solver|].
  assert (_below t c = Some l1) as Hb.
  { unfold _below, below_fuel, t. rewrite tree_size by done. fold t.
    assert (length l1 <= length items).
    { apply submseteq_length, NoDup_submseteq; [apply (proj1 post_nodup c l1 H1); set_solver|].
      intros x Hx. apply (proj1 post_elem c l1 H1) in Hx; [|set_solver].
      inversion Hx as [|? ? ? [? _]]; subst; set_solver. }
    replace (S (2 * length items)) with (2 * length l1 + (S (2 * (length items - length l1)))) by lia.
    rewrite (proj1 below_loop_run c l1 H1). done. }
  exists (l1 ++ l2). split; [|by constructor]. simpl. rewrite Hb. simpl.
  destruct (mapM (_below t) cs) as [ls|]; simpl in *; [|done]. f_equal. congruence.
Qed.
End DeepestFirst.

(** ** Properties *)

(** On the items of a valid plan [deepest_first] ends and lists every item
    once, each after everything split out of it. *)
Theorem deepest_first_assembles items :
  items_ok items ->
  exists l, deepest_first (tree_of items) = Some l /\ l ≡ₚ items /\
    forall l1 it l2, l = l1 ++ it :: l2 -> forall c, c ∈ items ->
      item_parent_id c = Some (item_id it) -> c ∈ l1.
Proof.
  intros Hok. destruct (deepest_first_posts items Hok) as (l & -> & Hl). exists l.
  assert (Hw : forall c, c ∈ workstreams (tree_of items) -> c ∈ items)
    by (intros c Hc; by apply workstreams_elem in Hc as [? _]).
  assert (Hin : forall x, x ∈ l <-> x ∈ items).
  { intros x. rewrite (proj2 (post_elem items Hok) _ _ Hl) by done. split.
    - intros (c & Hc & Hx). inversion Hx as [|? ? ? [? _]]; subst; [by apply Hw|done].
    - intros Hx. destruct (rooted_exists items Hok x Hx) as [p Hp]. clear -Hp Hok.
      induction Hp as [it Hit Htop|it h l Hup _ (c & Hc & Hr)].
      + exists it. split; [by apply workstreams_elem|done].
      + exists c. split; [done|]. by eapply rtc_l. }
  assert (Hnd : NoDup items) by (eapply NoDup_fmap_1, (io_unique _ Hok)).
  assert (Hndl : NoDup l).
  { apply (proj2 (post_nodup items Hok) _ _ Hl); [done| |].
    - rewrite of_workstreams by done. by apply NoDup_filter.
    - intros a b Ha Hb. apply workstreams_elem in Ha as [_ ->], Hb as [_ ->]; done. }
  split_and!; [done|by apply NoDup_Permutation|].
  intros l1 it l2 -> c Hc Hp.
  pose proof (proj2 (post_ordered items Hok) _ _ Hl Hw (item_id <$> l1) (item_id it) (item_id <$> l2)) as Ho.
  rewrite fmap_app in Ho. specialize (Ho eq_refl (item_id c)).
  assert (item_id c ∈ item_id <$> l1) as (c' & Heq & Hc')%list_elem_of_fmap.
  { apply Ho, list_elem_of_fmap. exists c. split; [done|]. by apply children_elem. }
  assert (c = c') as ->; [|done]. apply (item_id_inj items Hok); [done| |done].
  apply Hin, elem_of_app. by left.
Qed.

(** In a valid plan the walk to the root ends at every item: a workstream is
    at depth 0, anything else one below its parent. *)
Theorem depth_of_items items it :
  items_ok items -> it ∈ items ->
  exists d, depth (tree_of items) (item_id it) = Some d /\ d < length items /\
    match item_parent_id it with
    | None => d = 0
    | Some p => exists d', depth (tree_of items) p = Some d' /\ d = S d'
    end.
Proof.
  intros Hok Hit. destruct (rooted_exists items Hok it Hit) as [l Hl].
  assert (Hdepth : forall it l, rooted items it l ->
    depth (tree_of items) (item_id it) = Some (length l - 1)).
  { intros it' l' Hl'. assert (it' ∈ items) by (inversion Hl' as [|? ? ? (? & _)]; done).
    unfold depth. rewrite parent_id_of by done. rewrite (depth_loop_ok items Hok it' l'); [done|done|].
    unfold climb_fuel. rewrite tree_size by done. pose proof (rooted_length items Hok it' l' Hl'). lia. }
  exists (length l - 1). pose proof (rooted_length items Hok it l Hl) as Hlen.
  split; [by apply Hdepth|].
  inversion Hl as [? _ Hp|? h l' (_ & _ & Hp) Hl']; subst; rewrite Hp; simpl in *.
  - split; [lia|done].
  - split; [lia|]. exists (length l' - 1). split; [by apply Hdepth|].
    assert (0 < length l') by (inversion Hl'; simpl; lia). lia.
Qed.

(** The chain of sibling positions is a unique address: two items of a valid
    plan with the same positions, root first, are the same item. *)
Theorem address_unique items a b :
  items_ok items -> a ∈ items -> b ∈ items ->
  exists sa sb, address (tree_of items) (item_id a) = Some sa /\
    address (tree_of items) (item_id b) = Some sb /\
    length sa <= length items /\ last sa = Some (step_of (tree_of items) a) /\
    (step_position <$> sa = step_position <$> sb -> a = b).
Proof.
  intros Hok Ha Hb. destruct (rooted_exists items Hok a Ha) as [la Hla].
  destruct (rooted_exists items Hok b Hb) as [lb Hlb].
  exists (reverse (step_of (tree_of items) <$> la)), (reverse (step_of (tree_of items) <$> lb)).
  split_and!; [by apply address_rooted|by apply address_rooted| | |].
  - rewrite length_reverse, length_fmap. by eapply rooted_length.
  - rewrite last_reverse. by inversion Hla.
  - rewrite !fmap_reverse. intros Heq%(inj reverse). rewrite <-!list_fmap_compose in Heq.
    by apply (rooted_positions_inj items Hok a b la lb).
Qed.

(** [subtree_ids] ends on any items, well formed or not, and returns exactly
    the ids reached through children, the id itself included. *)
Theorem subtree_ids_exact items x y :
  y ∈ subtree_ids (tree_of items) x <-> rtc (edge (child_ids (tree_of items))) x y.
Proof.
  unfold subtree_ids. set (t := tree_of items).
  destruct (subtree_loop_ok t x (subtree_fuel t) ∅ [x]) as (r & -> & Hr).
  - intros z [?| ->%list_elem_of_singleton]; [set_solver|done].
  - set_solver.
  - right. by left.
  - unfold subtree_fuel. cbn [length]. pose proof (unseen_le (fun kids : list PlanItem => length kids)
      (map_to_list (by_parent t)) ∅). lia.
  - apply Hr.
Qed.

(** ** A small tree *)

Definition two_streams : list PlanItem :=
  [work_item "e" (Some "b"%char) []; work_item "a" None []; work_item "b" (Some "a"%char) [];
   work_item "c" (Some "a"%char) ["b"%char]; work_item "f" None ["a"%char]].

Lemma two_streams_ok : items_ok two_streams.
Proof.
  apply (validate_items_ok (small_plan two_streams)); [done|]. vm_compute. reflexivity.
Qed.

Example two_streams_order :
  option_map (map item_title) (deepest_first (tree_of two_streams)) =
  Some ["e"; "b"; "c"; "a"; "f"].
Proof. vm_compute. reflexivity. Qed.

Example two_streams_address :
  option_map (map (fun s => (step_title s, step_position s)))
    (address (tree_of two_streams) (uuid "e")) = Some [("a", 0); ("b", 0); ("e", 0)].
Proof. vm_compute. reflexivity. Qed.

(** An orphan's parent keys [by_parent], and the orphan is no workstream: only
    validation keeps such items out. *)
Example orphan_is_not_a_workstream :
  let t := tree_of [work_item "a" (Some "b"%char) []] in
  workstreams t = [] /\ is_container t (uuid "b") = true /\ depth t (uuid "a") = Some 1.
Proof. vm_compute. done. Qed.

Lemma deepest_first_assembles_witness :
  exists l, deepest_first (tree_of two_streams) = Some l /\ l ≡ₚ two_streams.
Proof.
  destruct (deepest_first_assembles two_streams two_streams_ok) as (l & H1 & H2 & _).
  exact (ex_intro _ l (conj H1 H2)).
Defined.

Lemma depth_of_items_witness :
  exists d, depth (tree_of two_streams) (uuid "f") = Some d /\ d < 5 /\ d = 0.
Proof.
  assert (Hin : work_item "f" None ["a"%char] ∈ two_streams) by (do 4 right; left).
  exact (depth_of_items two_streams _ two_streams_ok Hin).
Defined.

Lemma address_unique_witness :
  exists sa sb, address (tree_of two_streams) (uuid "a") = Some sa /\
    address (tree_of two_streams) (uuid "f") = Some sb /\ step_position <$> sa <> step_position <$> sb.
Proof.
  assert (Ha : work_item "a" None [] ∈ two_streams) by (right; left).
  assert (Hf : work_item "f" None ["a"%char] ∈ two_streams) by (do 4 right; left).
  destruct (address_unique two_streams _ _ two_streams_ok Ha Hf) as (sa & sb & H1 & H2 & _ & _ & H3).
  exists sa, sb. split; [exact H1|]. split; [exact H2|]. intros Heq. discriminate (H3 Heq).
Defined.
