(* ===== verification/Sprint.v ===== *)
(** * Sprint

    The sprint lifecycle and entity of [engine/workflow/sprint_lifecycle.py],
    backlog assembly of [engine/workflow/sprint_backlog.py], the hop helpers of
    [engine/workflow/_sprint_ops.py], and the checks of the REST-facing
    [add_task]/[advance_sprint] of [engine/workflow/sprint_service.py] up to
    their guarded write.

    Story points are exact rationals; the code's are floats. Dates are carried
    as strings and never parsed: the two date-format validators are not part of
    the model. *)

From stdpp Require Import gmap strings list sorting relations.
From Stdlib Require Import ZArith QArith Lqa Lia.
From S2P Require Import Prelude StateMachine TaskEnums PlanUnits.

Module SprintStatus.

Inductive SprintStatus :=
| PLANNING | ACTIVE | IN_REVIEW | RETROSPECTIVE | COMPLETED.

#[export] Instance sprint_status_eq_dec : EqDecision SprintStatus.
Proof. solve_decision. Defined.

Definition members : list SprintStatus :=
  [PLANNING; ACTIVE; IN_REVIEW; RETROSPECTIVE; COMPLETED].

Lemma sprint_status_members_all s : s ∈ members.
Proof. revert s. enum_elem. Qed.

#[export] Instance sprint_status_countable : Countable SprintStatus :=
  enum_countable members sprint_status_members_all.

Definition sprint_status_value (s : SprintStatus) : string :=
  match s with
  | PLANNING => "planning"
  | ACTIVE => "active"
  | IN_REVIEW => "in_review"
  | RETROSPECTIVE => "retrospective"
  | COMPLETED => "completed"
  end.

#[export] Instance sprint_status_value_inj : Inj (=) (=) sprint_status_value.
Proof. intros [] []; simpl; congruence. Qed.

#[export] Instance sprint_status_enum : StateEnum SprintStatus := {|
  value := sprint_status_value;
  all_members := members;
  all_members_spec := sprint_status_members_all;
|}.

End SprintStatus.
Export (hints) SprintStatus.

Import SprintStatus.
Local Open Scope py_scope.

Definition VALID_SPRINT_TRANSITIONS : list (SprintStatus * list SprintStatus) := [
  (PLANNING, [ACTIVE]);
  (ACTIVE, [IN_REVIEW]);
  (IN_REVIEW, [RETROSPECTIVE]);
  (RETROSPECTIVE, [COMPLETED]);
  (COMPLETED, [])].

Definition OPEN_SPRINT_STATUSES : gset SprintStatus := {[ACTIVE; IN_REVIEW]}.

Definition OPEN_SPRINT_STATUS_VALUES : list string :=
  sprint_status_value <$> filter (fun s => s ∈ OPEN_SPRINT_STATUSES) members.

Definition build_sprint_machine : result (string * list string) StateMachine :=
  new_machine VALID_SPRINT_TRANSITIONS "sprint_lifecycle" (Some members)
    (Some "sprint"%string) None.

Lemma build_sprint_machine_ok : is_ok build_sprint_machine = true.
Proof. by vm_compute. Qed.

Definition _SPRINT_MACHINE : StateMachine := unwrap build_sprint_machine build_sprint_machine_ok.

Lemma sprint_machine_ok : machine_wf _SPRINT_MACHINE.
Proof. eapply new_machine_wf, (unwrap_ok build_sprint_machine build_sprint_machine_ok). Qed.

Definition validate_sprint_transition (current target : SprintStatus)
    : result transition_error unit :=
  validate _SPRINT_MACHINE current target.

(** ** The entity *)

Definition STORY_POINTS_CEILING : Q := 100000.

Record Sprint := {
  sprint_id : string;
  sprint_project : option string;
  sprint_name : string;
  sprint_goal : string;
  sprint_status : SprintStatus;
  sprint_number : Z;
  duration_days : Z;
  start_date : option string;
  end_date : option string;
  task_ids : list string;
  completed_task_ids : list string;
  task_points : list (string * Q);
  story_points_committed : Q;
  story_points_completed : Q;
}.

Inductive SprintError :=
| FieldOutOfRange (field : string)
| DuplicateTaskIds (dupes : list string)
| DuplicateCompletedIds (dupes : list string)
| CompletedNotInBacklog (extra : list string)
| StrayPoints (stray : list string)
| NegativePointValues (negative : list string)
| PointsExceedCommitted
| CompletedExceedsCommitted
| StartDateRequired (status : SprintStatus)
| EndDateRequired
| StatusOverride
| DisallowedOverrides (fields : list string)
| InvalidSprintTransition (e : @transition_error SprintStatus)
| NotPlanning (status : SprintStatus)
| DuplicateTask (task_id : string)
| NegativePoints
| PointsCeiling
| TerminalSprint (status : SprintStatus).

(** The range constraints of the fields. *)
Definition _check_fields (s : Sprint) : result SprintError unit :=
  ensure ((1 <=? sprint_number s) && (sprint_number s <=? 100000))%Z
    else FieldOutOfRange "sprint_number" in
  ensure ((1 <=? duration_days s) && (duration_days s <=? 90))%Z
    else FieldOutOfRange "duration_days" in
  ensure Qle_bool 0 (story_points_committed s) &&
         Qle_bool (story_points_committed s) STORY_POINTS_CEILING
    else FieldOutOfRange "story_points_committed" in
  ensure Qle_bool 0 (story_points_completed s) &&
         Qle_bool (story_points_completed s) STORY_POINTS_CEILING
    else FieldOutOfRange "story_points_completed" in
  Ok tt.

Definition _validate_task_collections (s : Sprint) : result SprintError unit :=
  ensure no_dupes (task_ids s) else DuplicateTaskIds (duplicates (task_ids s)) in
  ensure no_dupes (completed_task_ids s)
    else DuplicateCompletedIds (duplicates (completed_task_ids s)) in
  let extra : gset string := list_to_set (completed_task_ids s) ∖ list_to_set (task_ids s) in
  ensure bool_decide (extra = ∅) else CompletedNotInBacklog (sort_str (elements extra)) in
  Ok tt.

(** [sum(xs)]. *)
Definition sum_q (xs : list Q) : Q := foldl Qplus 0%Q xs.

Definition _validate_task_points (s : Sprint) : result SprintError unit :=
  let stray : gset string := list_to_set (task_points s).*1 ∖ list_to_set (task_ids s) in
  ensure bool_decide (stray = ∅) else StrayPoints (sort_str (elements stray)) in
  let negative := sort_str (filter (fun kv => Qle_bool 0 kv.2 = false) (task_points s)).*1 in
  ensure bool_decide (negative = []) else NegativePointValues negative in
  ensure Qle_bool (sum_q (task_points s).*2) (story_points_committed s + (1 # 1000000000))%Q
    else PointsExceedCommitted in
  Ok tt.

Definition _validate_story_points (s : Sprint) : result SprintError unit :=
  ensure Qle_bool (story_points_completed s) (story_points_committed s)
    else CompletedExceedsCommitted in
  Ok tt.

Definition requires_start : gset SprintStatus := {[ACTIVE; IN_REVIEW; RETROSPECTIVE; COMPLETED]}.

Definition _validate_status_date_requirements (s : Sprint) : result SprintError unit :=
  ensure negb (bool_decide (sprint_status s ∈ requires_start) && bool_decide (start_date s = None))
    else StartDateRequired (sprint_status s) in
  ensure negb (bool_decide (sprint_status s = COMPLETED) && bool_decide (end_date s = None))
    else EndDateRequired in
  Ok tt.

(** Construction: the field constraints, then the validators in order. *)
Definition validate_sprint (s : Sprint) : result SprintError unit :=
  let* _ := _check_fields s in
  let* _ := _validate_task_collections s in
  let* _ := _validate_task_points s in
  let* _ := _validate_story_points s in
  _validate_status_date_requirements s.

(** ** Transitions *)

Definition _TRANSITION_ALLOWED_OVERRIDES : gset string := {["start_date"; "end_date"]}.

(** [**overrides]: field names with the value given; the dates may be set to
    [None]. *)
Definition Overrides := list (string * option string).

(** [model_copy(update=...)] runs no validator. *)
Definition copy_transition (s : Sprint) (overrides : Overrides) (target : SprintStatus) : Sprint := {|
  sprint_id := sprint_id s; sprint_project := sprint_project s; sprint_name := sprint_name s;
  sprint_goal := sprint_goal s; sprint_status := target; sprint_number := sprint_number s;
  duration_days := duration_days s;
  start_date := default (start_date s) (dict_get "start_date"%string overrides);
  end_date := default (end_date s) (dict_get "end_date"%string overrides);
  task_ids := task_ids s; completed_task_ids := completed_task_ids s; task_points := task_points s;
  story_points_committed := story_points_committed s;
  story_points_completed := story_points_completed s |}.

Definition with_transition (s : Sprint) (target : SprintStatus) (overrides : Overrides)
    : result SprintError Sprint :=
  ensure bool_decide ("status"%string ∉ overrides.*1) else StatusOverride in
  let disallowed : gset string := list_to_set overrides.*1 ∖ _TRANSITION_ALLOWED_OVERRIDES in
  ensure bool_decide (disallowed = ∅) else DisallowedOverrides (sort_str (elements disallowed)) in
  match validate_sprint_transition (sprint_status s) target with
  | Ok _ => Ok (copy_transition s overrides target)
  | Err e => Err (InvalidSprintTransition e)
  end.

(** [next(iter(targets))] of a singleton. *)
Definition next_status (s : Sprint) : result SprintError SprintStatus :=
  match dict_get (sprint_status s) VALID_SPRINT_TRANSITIONS with
  | Some (t :: _) => Ok t
  | _ => Err (TerminalSprint (sprint_status s))
  end.

Definition transition_overrides (s : Sprint) (target : SprintStatus) (now_iso : string)
    : Overrides :=
  let overrides := [] in
  let overrides := if bool_decide (target = ACTIVE) && bool_decide (start_date s = None)
                   then dict_set "start_date"%string (Some now_iso) overrides else overrides in
  if bool_decide (target = COMPLETED) && bool_decide (end_date s = None)
  then dict_set "end_date"%string (Some now_iso) overrides else overrides.

(** [advance_sprint] up to its compare-and-set. *)
Definition advance_sprint (s : Sprint) (now_iso : string) : result SprintError Sprint :=
  let* target := next_status s in
  with_transition s target (transition_overrides s target now_iso).

(** [start_sprint] up to its compare-and-set. *)
Definition start_sprint (s : Sprint) (now_iso : string) : result SprintError Sprint :=
  ensure bool_decide (sprint_status s = PLANNING) else NotPlanning (sprint_status s) in
  with_transition s ACTIVE [("start_date"%string, Some now_iso)].

(** ** The backlog *)

Definition copy_added (s : Sprint) (task_id : string) (story_points : Q) : Sprint := {|
  sprint_id := sprint_id s; sprint_project := sprint_project s; sprint_name := sprint_name s;
  sprint_goal := sprint_goal s; sprint_status := sprint_status s; sprint_number := sprint_number s;
  duration_days := duration_days s; start_date := start_date s; end_date := end_date s;
  task_ids := task_ids s ++ [task_id]; completed_task_ids := completed_task_ids s;
  task_points := dict_set task_id story_points (task_points s);
  story_points_committed := (story_points_committed s + story_points)%Q;
  story_points_completed := story_points_completed s |}.

Definition add_task_to_sprint (s : Sprint) (task_id : string) (story_points : Q)
    : result SprintError Sprint :=
  ensure bool_decide (sprint_status s = PLANNING) else NotPlanning (sprint_status s) in
  ensure bool_decide (task_id ∉ task_ids s) else DuplicateTask task_id in
  ensure Qle_bool 0 story_points else NegativePoints in
  Ok (copy_added s task_id story_points).

(** The service's refusals in front of its guarded append. *)
Definition add_task_checks (s : Sprint) (story_points : Q) : result SprintError unit :=
  ensure bool_decide (sprint_status s = PLANNING) else NotPlanning (sprint_status s) in
  ensure Qle_bool 0 story_points else NegativePoints in
  ensure Qle_bool (story_points_committed s + story_points)%Q STORY_POINTS_CEILING
    else PointsCeiling in
  Ok tt.

Definition _COMPLEXITY_POINTS (c : Complexity.Complexity) : Q :=
  match c with
  | Complexity.SIMPLE => 1
  | Complexity.MEDIUM => 3
  | Complexity.COMPLEX => 5
  | Complexity.EPIC => 8
  end.

Definition TERMINAL_TASK_STATUSES : gset TaskStatus.TaskStatus :=
  {[TaskStatus.COMPLETED; TaskStatus.CANCELLED; TaskStatus.REJECTED; TaskStatus.FAILED]}.

Definition NON_TERMINAL_TASK_STATUSES : list TaskStatus.TaskStatus :=
  filter (fun s => s ∉ TERMINAL_TASK_STATUSES) TaskStatus.members.

(** What the helper reads of a candidate task: its id, status and complexity. *)
Record BacklogTask := {
  bt_id : string;
  bt_status : TaskStatus.TaskStatus;
  bt_complexity : Complexity.Complexity;
}.

Definition story_points_for (t : BacklogTask) : Q := _COMPLEXITY_POINTS (bt_complexity t).

Definition open_backlog_tasks (candidates : list BacklogTask) (cap : nat) : list BacklogTask :=
  take cap (filter (fun t => bt_status t ∉ TERMINAL_TASK_STATUSES) candidates).

(** [_seed_and_start]: the loop over the collected backlog, then the start. *)
Fixpoint seed_backlog (s : Sprint) (backlog : list BacklogTask) : result SprintError Sprint :=
  match backlog with
  | [] => Ok s
  | t :: backlog =>
      let* s := add_task_to_sprint s (bt_id t) (story_points_for t) in
      seed_backlog s backlog
  end.

Definition seed_and_start (s : Sprint) (backlog : list BacklogTask) (now_iso : string)
    : result SprintError Sprint :=
  let* s := seed_backlog s backlog in
  with_transition s ACTIVE [("start_date"%string, Some now_iso)].

(** ** Valid sprints *)

Record valid_sprint (s : Sprint) : Prop := {
  vs_number : (1 <= sprint_number s <= 100000)%Z;
  vs_duration : (1 <= duration_days s <= 90)%Z;
  vs_committed : (0 <= story_points_committed s /\ story_points_committed s <= STORY_POINTS_CEILING)%Q;
  vs_completed : (0 <= story_points_completed s /\ story_points_completed s <= STORY_POINTS_CEILING)%Q;
  vs_tasks : NoDup (task_ids s);
  vs_done : NoDup (completed_task_ids s);
  vs_done_sub : completed_task_ids s ⊆ task_ids s;
  vs_keys : (task_points s).*1 ⊆ task_ids s;
  vs_values : forall v, v ∈ (task_points s).*2 -> (0 <= v)%Q;
  vs_total : (sum_q (task_points s).*2 <= story_points_committed s + (1 # 1000000000))%Q;
  vs_delivered : (story_points_completed s <= story_points_committed s)%Q;
  vs_start : sprint_status s <> PLANNING -> is_Some (start_date s);
  vs_end : sprint_status s = COMPLETED -> is_Some (end_date s);
}.

Lemma diff_empty_sub (l k : list string) :
  (list_to_set l : gset string) ∖ list_to_set k = ∅ <-> l ⊆ k.
Proof.
  split.
  - intros He x Hx. destruct (decide (x ∈ k)) as [|Hn]; [done|].
    assert (x ∈ (list_to_set l : gset string) ∖ list_to_set k) as Hin
      by (rewrite elem_of_difference, !elem_of_list_to_set; done).
    rewrite He in Hin. set_solver.
  - intros Hsub. apply set_eq. intros x. rewrite elem_of_difference, !elem_of_list_to_set.
    split; [intros [? Hn]; by destruct Hn; apply Hsub|set_solver].
Qed.

Lemma negative_nil (d : list (string * Q)) :
  sort_str (filter (fun kv => Qle_bool 0 kv.2 = false) d).*1 = [] <->
  forall v, v ∈ d.*2 -> (0 <= v)%Q.
Proof.
  assert (Hs : sort_str (filter (fun kv => Qle_bool 0 kv.2 = false) d).*1 = [] <->
    filter (fun kv => Qle_bool 0 kv.2 = false) d = []).
  { split; [|intros ->; done]. intros He. apply (fmap_nil_inv fst), Permutation_nil_r.
    by rewrite <-sort_str_perm, He. }
  rewrite Hs. clear Hs. split.
  - intros He v (kv & -> & Hkv)%list_elem_of_fmap. apply Qle_bool_iff.
    destruct (Qle_bool 0 kv.2) eqn:Hb; [done|].
    assert (kv ∈ filter (fun kv => Qle_bool 0 kv.2 = false) d) as Hin by by apply list_elem_of_filter.
    rewrite He in Hin. by apply not_elem_of_nil in Hin.
  - intros Hall. destruct (filter _ d) as [|kv l] eqn:Hf; [done|]. exfalso.
    assert (kv ∈ filter (fun kv => Qle_bool 0 kv.2 = false) d) as [Hb Hin]%list_elem_of_filter
      by (rewrite Hf; left).
    assert (0 <= kv.2)%Q as Hv%Qle_bool_iff by (apply Hall; by apply list_elem_of_fmap_2). congruence.
Qed.

Lemma requires_start_spec s : s ∈ requires_start <-> s <> PLANNING.
Proof. unfold requires_start. destruct s; set_solver. Qed.

Lemma bind_tt {E A} (r : result E unit) (k : unit -> result E A) a :
  rbind r k = Ok a <-> r = Ok tt /\ k tt = Ok a.
Proof. destruct r as [[]|]; simpl; naive_solver. Qed.

Lemma validate_sprint_ok s : validate_sprint s = Ok tt <-> valid_sprint s.
Proof.
  unfold validate_sprint. rewrite !bind_tt.
  unfold _check_fields, _validate_task_collections, _validate_task_points,
    _validate_story_points, _validate_status_date_requirements.
  rewrite !ensure_ok, !andb_true_iff, !negb_true_iff, !andb_false_iff, !Qle_bool_iff, !Z.leb_le,
    !no_dupes_spec, !bool_decide_eq_true, !bool_decide_eq_false, !diff_empty_sub, !negative_nil,
    requires_start_spec.
  split.
  - intros (((? & ?) & (? & ?) & (? & ?) & (? & ?) & _) & (? & ? & ? & _) & (? & ? & ? & _) & (? & _) &
      (Hst & Hen & _)).
    split; try done; rewrite <-not_eq_None_Some; tauto.
  - intros []. rewrite <-not_eq_None_Some in *.
    split_and!; try tauto.
    + destruct (decide (sprint_status s = PLANNING)); tauto.
    + destruct (decide (sprint_status s = COMPLETED)); tauto.
Qed.

Lemma sum_q_snoc xs x : sum_q (xs ++ [x]) = (sum_q xs + x)%Q.
Proof. unfold sum_q. by rewrite foldl_app. Qed.

Lemma copy_added_valid s id pts :
  valid_sprint s -> id ∉ task_ids s -> (0 <= pts)%Q ->
  (story_points_committed s + pts <= STORY_POINTS_CEILING)%Q -> valid_sprint (copy_added s id pts).
Proof.
  intros [] Hid Hp Hc.
  assert (Hkeys : id ∉ (task_points s).*1) by (intros Hin; by apply Hid, vs_keys0).
  split; simpl; try done.
  - split; [lra|done].
  - apply NoDup_app. split_and!; [done|set_solver|apply NoDup_singleton].
  - set_solver.
  - rewrite dict_set_keys_fresh, fmap_app by done. set_solver.
  - rewrite dict_set_keys_fresh, fmap_app by done. simpl. intros v.
    rewrite elem_of_app, list_elem_of_singleton. intros [?| ->]; [auto|done].
  - rewrite dict_set_keys_fresh, fmap_app by done. simpl. rewrite sum_q_snoc. lra.
  - lra.
Qed.

(** ** Properties *)

(** Adding a task to a valid sprint: it refuses a sprint past planning, a
    task already listed and negative points, each for that reason; otherwise
    the task is last in the backlog with its points on record, and the result
    is valid exactly when the new total is within the ceiling, which the copy
    does not check. *)
Theorem add_task_outcomes s id pts :
  validate_sprint s = Ok tt ->
  match add_task_to_sprint s id pts with
  | Ok s' =>
      sprint_status s = PLANNING /\ id ∉ task_ids s /\ (0 <= pts)%Q /\
      task_ids s' = task_ids s ++ [id] /\ dict_get id (task_points s') = Some pts /\
      (validate_sprint s' = Ok tt <->
       (story_points_committed s + pts <= STORY_POINTS_CEILING)%Q)
  | Err (NotPlanning st) => st = sprint_status s /\ st <> PLANNING
  | Err (DuplicateTask i) => i = id /\ id ∈ task_ids s
  | Err NegativePoints => (pts < 0)%Q
  | Err _ => False
  end.
Proof.
  rewrite validate_sprint_ok. intros Hs. unfold add_task_to_sprint.
  do 2 (case_bool_decide; [|naive_solver]). destruct (Qle_bool 0 pts) eqn:Hp.
  - apply Qle_bool_iff in Hp. split_and!; try done; [by apply dict_get_set_eq|].
    rewrite validate_sprint_ok. split; [|by apply copy_added_valid].
    intros []. simpl in *. tauto.
  - apply Qnot_le_lt. intros Hle%Qle_bool_iff. congruence.
Qed.

(** The service's ceiling check closes that gap. *)
Lemma service_add_valid s id pts s' :
  validate_sprint s = Ok tt -> add_task_checks s pts = Ok tt ->
  add_task_to_sprint s id pts = Ok s' -> validate_sprint s' = Ok tt.
Proof.
  intros Hs Hc Ha. unfold add_task_checks in Hc.
  rewrite !ensure_ok, !Qle_bool_iff in Hc. destruct Hc as (_ & _ & Hc & _).
  unfold add_task_to_sprint in Ha. rewrite !ensure_ok, Qle_bool_iff, bool_decide_eq_true in Ha.
  destruct Ha as (_ & Hid & Hp & Ha). injection Ha as <-. rewrite validate_sprint_ok in *.
  apply copy_added_valid; try done. by apply bool_decide_eq_true in Hid.
Qed.

Lemma next_status_cases s :
  match sprint_status s with
  | PLANNING => next_status s = Ok ACTIVE
  | ACTIVE => next_status s = Ok IN_REVIEW
  | IN_REVIEW => next_status s = Ok RETROSPECTIVE
  | RETROSPECTIVE => next_status s = Ok COMPLETED
  | COMPLETED => next_status s = Err (TerminalSprint COMPLETED)
  end.
Proof. unfold next_status. by destruct (sprint_status s). Qed.

Lemma sprint_hops a b :
  is_ok (validate_sprint_transition a b) =
  bool_decide ((a, b) ∈ [(PLANNING, ACTIVE); (ACTIVE, IN_REVIEW); (IN_REVIEW, RETROSPECTIVE);
    (RETROSPECTIVE, COMPLETED)]).
Proof. destruct a, b; vm_compute; reflexivity. Qed.

Lemma hop_ok a b :
  (a, b) ∈ [(PLANNING, ACTIVE); (ACTIVE, IN_REVIEW); (IN_REVIEW, RETROSPECTIVE);
    (RETROSPECTIVE, COMPLETED)] -> validate_sprint_transition a b = Ok tt.
Proof.
  intros Hin. pose proof (sprint_hops a b) as Hh. rewrite bool_decide_eq_true_2 in Hh by done.
  by destruct (validate_sprint_transition a b) as [[]|].
Qed.

(** The transition a sprint takes when its target is the next status. *)
Lemma with_transition_hop s target overrides :
  (sprint_status s, target) ∈ [(PLANNING, ACTIVE); (ACTIVE, IN_REVIEW); (IN_REVIEW, RETROSPECTIVE);
    (RETROSPECTIVE, COMPLETED)] ->
  overrides.*1 ⊆ ["start_date"%string; "end_date"%string] ->
  with_transition s target overrides = Ok (copy_transition s overrides target).
Proof.
  intros Hh Ho. unfold with_transition.
  rewrite bool_decide_eq_true_2.
  2:{ intros Hin. apply Ho in Hin. by repeat (apply elem_of_cons in Hin as [Hin|Hin]; [done|]);
      apply not_elem_of_nil in Hin. }
  rewrite bool_decide_eq_true_2.
  2:{ apply set_eq. intros x. rewrite elem_of_difference, elem_of_list_to_set.
      split; [|set_solver]. intros [Hx Hn]. exfalso. apply Hn. apply Ho in Hx.
      unfold _TRANSITION_ALLOWED_OVERRIDES. set_solver. }
  by rewrite (hop_ok _ _ Hh).
Qed.

Lemma copy_transition_valid s overrides target :
  valid_sprint s ->
  (target <> PLANNING -> is_Some (default (start_date s) (dict_get "start_date"%string overrides))) ->
  (target = COMPLETED -> is_Some (default (end_date s) (dict_get "end_date"%string overrides))) ->
  valid_sprint (copy_transition s overrides target).
Proof. intros [] Hs He. by split. Qed.

Lemma transition_overrides_keys s target now :
  (transition_overrides s target now).*1 ⊆ ["start_date"%string; "end_date"%string].
Proof.
  unfold transition_overrides. by do 4 (case_bool_decide; simpl; try set_solver).
Qed.

(** Advancing a valid sprint gives a valid sprint one status on, with the
    dates its new status requires and the backlog untouched; only a completed
    sprint cannot advance. *)
Theorem advance_keeps_valid s now :
  validate_sprint s = Ok tt ->
  match advance_sprint s now with
  | Ok s' =>
      validate_sprint s' = Ok tt /\
      (sprint_status s, sprint_status s') ∈
        [(PLANNING, ACTIVE); (ACTIVE, IN_REVIEW); (IN_REVIEW, RETROSPECTIVE);
         (RETROSPECTIVE, COMPLETED)] /\
      task_ids s' = task_ids s /\ task_points s' = task_points s /\
      (forall d, start_date s = Some d -> start_date s' = Some d) /\
      (forall d, end_date s = Some d -> end_date s' = Some d)
  | Err e => e = TerminalSprint COMPLETED /\ sprint_status s = COMPLETED
  end.
Proof.
  rewrite validate_sprint_ok. intros Hs. unfold advance_sprint.
  pose proof (next_status_cases s) as Hnext.
  destruct (sprint_status s) eqn:Hst; rewrite Hnext; cbn [rbind]; [| | | |done];
    (rewrite with_transition_hop;
      [|rewrite Hst; set_solver|apply transition_overrides_keys]);
    rewrite validate_sprint_ok.
  all: split_and!; try done; try (simpl; set_solver).
  all: try (apply copy_transition_valid; [done|intros _|intros ?; try done]).
  all: unfold transition_overrides; simpl;
    pose proof (vs_start _ Hs) as Hstart; rewrite Hst in Hstart;
    try (destruct (start_date s) as [d0|]; simpl; naive_solver);
    destruct (end_date s) as [d1|]; simpl; naive_solver.
Qed.

(** [with_transition] alone does not keep a sprint valid: a valid planning
    sprint without a start date moves to ACTIVE and is then refused by the
    sprint's own validators, since a model copy runs none of them. *)
Theorem bare_transition_gap s :
  validate_sprint s = Ok tt -> sprint_status s = PLANNING -> start_date s = None ->
  exists s', with_transition s ACTIVE [] = Ok s' /\
    validate_sprint s' = Err (StartDateRequired ACTIVE).
Proof.
  intros Hv Hst Hd. exists (copy_transition s [] ACTIVE). split.
  - apply with_transition_hop; [rewrite Hst; set_solver|set_solver].
  - unfold validate_sprint in *. rewrite !bind_tt in Hv. destruct Hv as (H1 & H2 & H3 & H4 & _).
    change (_check_fields (copy_transition s [] ACTIVE)) with (_check_fields s).
    change (_validate_task_collections (copy_transition s [] ACTIVE))
      with (_validate_task_collections s).
    change (_validate_task_points (copy_transition s [] ACTIVE)) with (_validate_task_points s).
    change (_validate_story_points (copy_transition s [] ACTIVE)) with (_validate_story_points s).
    rewrite H1, H2, H3, H4. cbn [rbind]. unfold _validate_status_date_requirements. simpl.
    rewrite Hd. reflexivity.
Qed.

Lemma foldl_qplus a l : (foldl Qplus a l == a + sum_q l)%Q.
Proof.
  revert a. induction l as [|x l IH]; intros a; unfold sum_q; cbn [foldl]; [ring|].
  rewrite (IH (a + x)%Q), (IH (0 + x)%Q). ring.
Qed.

Lemma sum_q_cons x l : (sum_q (x :: l) == x + sum_q l)%Q.
Proof. unfold sum_q at 1. cbn [foldl]. rewrite foldl_qplus. ring. Qed.

Lemma sum_q_nonneg l : (forall x, x ∈ l -> (0 <= x)%Q) -> (0 <= sum_q l)%Q.
Proof.
  induction l as [|x l IH]; intros Hl; [done|]. rewrite sum_q_cons.
  assert (0 <= x)%Q by (apply Hl; left). assert (0 <= sum_q l)%Q by (apply IH; set_solver). lra.
Qed.

Lemma story_points_pos t : (0 <= story_points_for t)%Q.
Proof. unfold story_points_for. by destruct (bt_complexity t). Qed.

Lemma seed_backlog_ok s backlog :
  valid_sprint s -> sprint_status s = PLANNING -> NoDup (bt_id <$> backlog) ->
  (forall t, t ∈ backlog -> bt_id t ∉ task_ids s) ->
  (story_points_committed s + sum_q (story_points_for <$> backlog) <= STORY_POINTS_CEILING)%Q ->
  exists s', seed_backlog s backlog = Ok s' /\ valid_sprint s' /\ sprint_status s' = PLANNING /\
    task_ids s' = task_ids s ++ (bt_id <$> backlog) /\
    (story_points_committed s' ==
     story_points_committed s + sum_q (story_points_for <$> backlog))%Q.
Proof.
  revert s. induction backlog as [|t backlog IH]; intros s Hs Hst Hnd Hfresh Hc.
  { exists s. rewrite app_nil_r. split_and!; try done. unfold sum_q. simpl. ring. }
  rewrite fmap_cons in Hnd. rewrite fmap_cons in Hc. apply NoDup_cons in Hnd as [Hnt Hnd]. rewrite sum_q_cons in Hc.
  pose proof (story_points_pos t) as Hp.
  assert (0 <= sum_q (story_points_for <$> backlog))%Q as Hq.
  { apply sum_q_nonneg. intros x (t' & -> & _)%list_elem_of_fmap. apply story_points_pos. }
  assert (Hid : bt_id t ∉ task_ids s) by (apply Hfresh; left).
  cbn [seed_backlog]. unfold add_task_to_sprint.
  rewrite (bool_decide_eq_true_2 _ Hst), (bool_decide_eq_true_2 _ Hid).
  rewrite (proj2 (Qle_bool_iff _ _) Hp). cbn [rbind].
  destruct (IH (copy_added s (bt_id t) (story_points_for t))) as (s' & -> & ? & ? & Hids & Hsum).
  - apply copy_added_valid; try done. lra.
  - done.
  - done.
  - intros t' Ht'. simpl. rewrite not_elem_of_app, list_elem_of_singleton.
    split; [apply Hfresh; by right|]. intros Heq. apply Hnt. rewrite <-Heq. by apply list_elem_of_fmap_2.
  - simpl. lra.
  - exists s'. split_and!; try done.
    + rewrite Hids. simpl. by rewrite <-app_assoc.
    + rewrite Hsum, fmap_cons, sum_q_cons. simpl. ring.
Qed.

(** Seeding a valid planning sprint with distinct new tasks within the
    points ceiling starts it: ACTIVE, valid, dated now, the tasks last in the
    backlog in order and their points committed. *)
Theorem seed_and_start_valid s backlog now :
  validate_sprint s = Ok tt -> sprint_status s = PLANNING -> NoDup (bt_id <$> backlog) ->
  (forall t, t ∈ backlog -> bt_id t ∉ task_ids s) ->
  (story_points_committed s + sum_q (story_points_for <$> backlog) <= STORY_POINTS_CEILING)%Q ->
  exists s', seed_and_start s backlog now = Ok s' /\ validate_sprint s' = Ok tt /\
    sprint_status s' = ACTIVE /\ start_date s' = Some now /\
    task_ids s' = task_ids s ++ (bt_id <$> backlog) /\
    (story_points_committed s' ==
     story_points_committed s + sum_q (story_points_for <$> backlog))%Q.
Proof.
  rewrite validate_sprint_ok. intros Hs Hst Hnd Hfresh Hc.
  destruct (seed_backlog_ok s backlog Hs Hst Hnd Hfresh Hc) as (s' & Hseed & Hv & Hst' & Hids & Hsum).
  exists (copy_transition s' [("start_date"%string, Some now)] ACTIVE).
  unfold seed_and_start. rewrite Hseed. cbn [rbind].
  split_and!; try done.
  - apply with_transition_hop; [rewrite Hst'; set_solver|set_solver].
  - apply validate_sprint_ok, copy_transition_valid; [done|by intros _; exists now|done].
Qed.

(** ** A small sprint *)

Definition empty_sprint : Sprint := {|
  sprint_id := "s1"; sprint_project := None; sprint_name := "one"; sprint_goal := "";
  sprint_status := PLANNING; sprint_number := 1; duration_days := 14; start_date := None;
  end_date := None; task_ids := []; completed_task_ids := []; task_points := [];
  story_points_committed := 0; story_points_completed := 0 |}.

Definition task (id : string) (c : Complexity.Complexity) : BacklogTask :=
  {| bt_id := id; bt_status := TaskStatus.CREATED; bt_complexity := c |}.

Lemma empty_sprint_valid : validate_sprint empty_sprint = Ok tt.
Proof. vm_compute. reflexivity. Qed.

Lemma add_task_outcomes_witness :
  match add_task_to_sprint empty_sprint "t" 100001 with
  | Ok s' => validate_sprint s' = Ok tt <-> (0 + 100001 <= STORY_POINTS_CEILING)%Q
  | Err _ => False
  end.
Proof. apply (add_task_outcomes empty_sprint "t" 100001 empty_sprint_valid). Defined.

Lemma advance_keeps_valid_witness :
  exists s', advance_sprint empty_sprint "2026-01-01" = Ok s' /\ validate_sprint s' = Ok tt.
Proof.
  pose proof (advance_keeps_valid empty_sprint "2026-01-01" empty_sprint_valid) as H.
  destruct (advance_sprint empty_sprint "2026-01-01") as [s'|e] eqn:Ha.
  - exists s'. split; [reflexivity|]. destruct H as [H _]. exact H.
  - vm_compute in Ha. discriminate Ha.
Defined.

Lemma bare_transition_gap_witness :
  exists s', with_transition empty_sprint ACTIVE [] = Ok s' /\
    validate_sprint s' = Err (StartDateRequired ACTIVE).
Proof. exact (bare_transition_gap empty_sprint empty_sprint_valid eq_refl eq_refl). Defined.

Lemma seed_and_start_valid_witness :
  exists s', seed_and_start empty_sprint [task "a" Complexity.EPIC; task "b" Complexity.SIMPLE]
    "2026-01-01" = Ok s' /\ task_ids s' = ["a"; "b"].
Proof.
  destruct (seed_and_start_valid empty_sprint [task "a" Complexity.EPIC; task "b" Complexity.SIMPLE]
    "2026-01-01" empty_sprint_valid eq_refl) as (s' & H1 & _ & _ & _ & H2 & _).
  - apply (bool_decide_unpack _). vm_compute. exact I.
  - intros t _. apply (bool_decide_unpack _). vm_compute. exact I.
  - apply Qle_bool_iff. vm_compute. reflexivity.
  - exact (ex_intro _ s' (conj H1 H2)).
Defined.
