(* ===== verification/SlidingWindow.v ===== *)
(** * SlidingWindow

    The two sliding-window limiters: the per-operation request limiter of
    [api/rate_limits/in_memory.py] and the event limiter of
    [core/resilience/sliding_window.py].

    Times are exact rationals (floats in the code) read from a monotonic clock.
    A call holds the key's lock from its clock read to its last write, so each
    call is one step; the hand-over of the lock objects themselves is the
    subject of [Inflight] for the store that shares the scheme. *)

From stdpp Require Import gmap strings list sorting relations.
From Stdlib Require Import ZArith QArith Lqa Lia.
From S2P Require Import Prelude.
Local Open Scope py_scope.

Definition qlt (a b : Q) : bool := negb (Qle_bool b a).

Lemma qlt_spec a b : qlt a b = true <-> (a < b)%Q.
Proof.
  unfold qlt. rewrite negb_true_iff. split.
  - intros H. apply Qnot_le_lt. intros Hle%Qle_bool_iff. congruence.
  - intros H. apply not_true_iff_false. intros Hle%Qle_bool_iff. lra.
Qed.

Lemma qlt_false a b : qlt a b = false <-> (b <= a)%Q.
Proof. unfold qlt. by rewrite negb_false_iff, Qle_bool_iff. Qed.

Definition qmax (a b : Q) : Q := if Qle_bool a b then b else a.

Module Store.

Definition _GC_EVERY_N_ACQUIRES : nat := 1024.
Definition _MIN_GC_HORIZON_SECONDS : Z := 60.

(** [_Bucket]; timestamps oldest first. *)
Record Bucket := {
  timestamps : list Q;
  window_seconds : Z;
}.

Definition fresh_bucket : Bucket := {| timestamps := []; window_seconds := _MIN_GC_HORIZON_SECONDS |}.

Record InMemorySlidingWindowStore := {
  _buckets : gmap string Bucket;
  _acquires_since_gc : nat;
}.

Definition new_store : InMemorySlidingWindowStore := {| _buckets := ∅; _acquires_since_gc := 0 |}.

Record RateLimitOutcome := {
  allowed : bool;
  retry_after_seconds : option Q;
  remaining : Z;
}.

Inductive ConfigError := MaxRequestsNotPositive | WindowNotPositive.

Definition _validate_window_config (max_requests window_seconds : Z) : result ConfigError unit :=
  if ((0 <? max_requests) && (0 <? window_seconds))%Z then Ok tt
  else if (max_requests <=? 0)%Z then Err MaxRequestsNotPositive else Err WindowNotPositive.

(** [while timestamps and timestamps[0] <= prune_cutoff: popleft()]. *)
Fixpoint prune (cutoff : Q) (ts : list Q) : list Q :=
  match ts with
  | [] => []
  | t :: rest => if Qle_bool t cutoff then prune cutoff rest else ts
  end.

(** [for ts in reversed(timestamps)] with its [break]. *)
Fixpoint scan (cutoff : Q) (rts : list Q) (in_window : nat) (oldest : option Q) : nat * option Q :=
  match rts with
  | [] => (in_window, oldest)
  | t :: rts => if Qle_bool t cutoff then (in_window, oldest)
                else scan cutoff rts (S in_window) (Some t)
  end.

Definition _apply_sliding_window (b : Bucket) (now : Q) (max_requests window : Z)
    : RateLimitOutcome * Bucket :=
  let bw := Z.max (window_seconds b) window in
  let ts := prune (now - inject_Z bw) (timestamps b) in
  let s := scan (now - inject_Z window) (rev ts) 0 None in
  match s.2 with
  | Some oldest =>
      if (max_requests <=? Z.of_nat s.1)%Z
      then ({| allowed := false;
               retry_after_seconds := Some (qmax (oldest + inject_Z window - now) (1 # 1000));
               remaining := 0 |},
            {| timestamps := ts; window_seconds := bw |})
      else ({| allowed := true; retry_after_seconds := None;
               remaining := Z.max (max_requests - Z.of_nat s.1 - 1) 0 |},
            {| timestamps := ts ++ [now]; window_seconds := bw |})
  | None =>
      ({| allowed := true; retry_after_seconds := None;
          remaining := Z.max (max_requests - Z.of_nat s.1 - 1) 0 |},
       {| timestamps := ts ++ [now]; window_seconds := bw |})
  end.

Definition _is_bucket_cold (b : Bucket) (now : Q) : bool :=
  let horizon := Z.max (window_seconds b * 2) _MIN_GC_HORIZON_SECONDS in
  match last (timestamps b) with
  | None => true
  | Some t => Qle_bool t (now - inject_Z horizon)
  end.

Definition _gc_cold_buckets (s : InMemorySlidingWindowStore) (now : Q) : InMemorySlidingWindowStore :=
  {| _buckets := filter (fun kb => _is_bucket_cold kb.2 now = false) (_buckets s);
     _acquires_since_gc := _acquires_since_gc s |}.

Definition _maybe_schedule_gc (s : InMemorySlidingWindowStore) : bool * InMemorySlidingWindowStore :=
  let n := S (_acquires_since_gc s) in
  if _GC_EVERY_N_ACQUIRES <=? n
  then (true, {| _buckets := _buckets s; _acquires_since_gc := 0 |})
  else (false, {| _buckets := _buckets s; _acquires_since_gc := n |}).

(** [now] is the clock read under the key's lock, [gc_now] the one of the
    sweep. *)
Definition acquire (s : InMemorySlidingWindowStore) (key : string) (max_requests window : Z)
    (now gc_now : Q) : result ConfigError (RateLimitOutcome * InMemorySlidingWindowStore) :=
  let* _ := _validate_window_config max_requests window in
  let ob := _apply_sliding_window (default fresh_bucket (_buckets s !! key)) now max_requests window in
  let s := {| _buckets := <[key := ob.2]> (_buckets s);
              _acquires_since_gc := _acquires_since_gc s |} in
  let gs := _maybe_schedule_gc s in
  Ok (ob.1, if gs.1 then _gc_cold_buckets gs.2 gc_now else gs.2).

(** ** The specification: the whole admission history

    A history lists every admitted hit of each key, oldest first: its time, and
    the window of the call that made it. *)

Definition Hit : Type := Q * Z.
Definition History : Type := string -> list Hit.

Definition in_window (h : list Q) (now : Q) (window : Z) : list Q :=
  filter (fun t => qlt (now - inject_Z window) t = true) h.

(** A hit is admitted when fewer than [max_requests] admitted hits lie in the
    window before it; a refused caller waits for the oldest of them. *)
Definition spec_outcome (h : list Q) (now : Q) (max_requests window : Z) : RateLimitOutcome :=
  let w := in_window h now window in
  let n := Z.of_nat (length w) in
  match w with
  | oldest :: _ =>
      if (max_requests <=? n)%Z
      then {| allowed := false;
              retry_after_seconds := Some (qmax (oldest + inject_Z window - now) (1 # 1000));
              remaining := 0 |}
      else {| allowed := true; retry_after_seconds := None; remaining := max_requests - n - 1 |}
  | [] => {| allowed := true; retry_after_seconds := None; remaining := max_requests - n - 1 |}
  end.

(** ** Lemmas on sorted timestamps *)

Definition ascending (h : list Q) : Prop := StronglySorted Qle h.

Lemma ascending_app_inv h1 h2 :
  ascending (h1 ++ h2) <-> ascending h1 /\ ascending h2 /\
    (forall a b, a ∈ h1 -> b ∈ h2 -> (a <= b)%Q).
Proof.
  unfold ascending. induction h1 as [|x h1 IH]; simpl.
  - split; [intros ?; split_and!; [constructor|done|set_solver]|naive_solver].
  - split.
    + intros Hs. apply StronglySorted_inv in Hs as [Hs Hall]. apply IH in Hs as (? & ? & Hle).
      rewrite Forall_app in Hall. destruct Hall as [Ha Hb].
      split_and!; [by constructor|done|]. intros a b [->|?]%elem_of_cons ?; [|by apply Hle].
      rewrite Forall_forall in Hb. by apply Hb.
    + intros (Hs & ? & Hle). apply StronglySorted_inv in Hs as [Hs Hall]. constructor.
      * apply IH. split_and!; [done|done|]. intros. apply Hle; set_solver.
      * apply Forall_app. split; [done|]. apply Forall_forall. intros. apply Hle; set_solver.
Qed.

Lemma ascending_snoc h t : ascending h -> (forall a, a ∈ h -> (a <= t)%Q) -> ascending (h ++ [t]).
Proof.
  intros. apply ascending_app_inv. split_and!; [done|repeat constructor|]. set_solver.
Qed.

Lemma prune_split cutoff ts :
  exists d, ts = d ++ prune cutoff ts /\ forall t, t ∈ d -> (t <= cutoff)%Q.
Proof.
  induction ts as [|t ts IH]; simpl; [exists []; set_solver|].
  destruct (Qle_bool t cutoff) eqn:Ht; [|exists []; set_solver].
  destruct IH as (d & Heq & Hd). exists (t :: d). simpl. rewrite <-Heq. split; [done|].
  intros x [->|?]%elem_of_cons; [by apply Qle_bool_iff|auto].
Qed.

(** The scan reads exactly the hits past the cutoff, and the oldest of them. *)
Lemma scan_ok cutoff ts n oldest :
  ascending ts ->
  scan cutoff (rev ts) n oldest =
  ((n + length (filter (fun t => qlt cutoff t = true) ts))%nat,
   match filter (fun t => qlt cutoff t = true) ts with
   | t :: _ => Some t
   | [] => oldest
   end).
Proof.
  revert n oldest. induction ts as [|t ts IH] using rev_ind; intros n oldest Hs; simpl.
  { by rewrite Nat.add_0_r. }
  apply ascending_app_inv in Hs as (Hs & _ & Hle).
  rewrite rev_app_distr, filter_app, filter_cons, filter_nil. simpl.
  destruct (Qle_bool t cutoff) eqn:Ht.
  - apply Qle_bool_iff in Ht.
    assert (filter (fun t => qlt cutoff t = true) ts = []) as ->.
    { clear IH. induction ts as [|x ts IHt]; [done|]. rewrite filter_cons, decide_False.
      - apply IHt; [by apply StronglySorted_inv in Hs as []|intros; apply Hle; set_solver].
      - rewrite qlt_spec. intros Hx. assert (x <= t)%Q by (apply Hle; set_solver). lra. }
    rewrite decide_False; [by rewrite Nat.add_0_r|]. rewrite qlt_spec. lra.
  - rewrite decide_True by (unfold qlt; by rewrite Ht). rewrite IH by done.
    rewrite length_app. simpl. f_equal; [lia|]. by destruct (filter _ ts).
Qed.

(** ** What a bucket keeps of the history *)

(** At [now] the hit is at least as old as its own window, and as a minute. *)
Definition outlived (now : Q) (x : Hit) : Prop :=
  (x.1 <= now - inject_Z (Z.max _MIN_GC_HORIZON_SECONDS x.2))%Q.

(** All hits of the history but outlived ones, whose windows the bucket's own
    covers. *)
Definition bucket_inv (h : list Hit) (b : Bucket) (n : Q) : Prop :=
  exists d k, h = d ++ k /\ (forall x, x ∈ d -> outlived n x) /\ timestamps b = k.*1 /\
    (_MIN_GC_HORIZON_SECONDS <= window_seconds b)%Z /\ (forall x, x ∈ k -> (x.2 <= window_seconds b)%Z).

Lemma filter_none (f : Q -> bool) l :
  (forall t, t ∈ l -> f t = false) -> filter (fun t => f t = true) l = [].
Proof.
  induction l as [|t l IH]; intros Hl; [done|].
  rewrite filter_cons, decide_False by (rewrite Hl; [done|left]). apply IH. set_solver.
Qed.

Lemma in_window_drop d ts now w :
  (forall t, t ∈ d -> (t <= now - inject_Z w)%Q) -> in_window (d ++ ts) now w = in_window ts now w.
Proof.
  intros Hd. unfold in_window. rewrite filter_app, filter_none; [done|].
  intros t Ht. apply qlt_false. by apply Hd.
Qed.

Lemma outlived_later n n' x : (n <= n')%Q -> outlived n x -> outlived n' x.
Proof. unfold outlived. intros. lra. Qed.

Lemma bucket_inv_later h b n n' : (n <= n')%Q -> bucket_inv h b n -> bucket_inv h b n'.
Proof.
  intros Hn (d & k & ? & Hd & ?). exists d, k. split; [done|]. split; [|done].
  intros x Hx. eapply outlived_later; [done|]. by apply Hd.
Qed.

Lemma inject_le a b : (a <= b)%Z -> (inject_Z a <= inject_Z b)%Q.
Proof. by rewrite <-Zle_Qle. Qed.

(** A hit past a horizon that covers its window is outlived. *)
Lemma outlived_past now bw x :
  (_MIN_GC_HORIZON_SECONDS <= bw)%Z -> (x.2 <= bw)%Z -> (x.1 <= now - inject_Z bw)%Q -> outlived now x.
Proof.
  unfold outlived. intros Hm Hx Ht.
  pose proof (inject_le (Z.max _MIN_GC_HORIZON_SECONDS x.2) bw ltac:(lia)). lra.
Qed.

(** A call decides by the hits in its window that it has not pruned. *)
Lemma apply_pruned b now mx w :
  ascending (timestamps b) -> (0 < mx)%Z ->
  let bw := Z.max (window_seconds b) w in
  let ts := prune (now - inject_Z bw) (timestamps b) in
  let o := spec_outcome ts now mx w in
  _apply_sliding_window b now mx w =
    (o, {| timestamps := if allowed o then ts ++ [now] else ts; window_seconds := bw |}).
Proof.
  intros Hasc Hmx bw ts. destruct (prune_split (now - inject_Z bw) (timestamps b)) as (d & Hts & _). fold ts in Hts.
  unfold _apply_sliding_window. fold bw. fold ts.
  assert (Hasct : ascending ts) by (rewrite Hts in Hasc; by apply ascending_app_inv in Hasc as (_ & ? & _)).
  rewrite scan_ok by done. simpl. unfold spec_outcome, in_window.
  destruct (filter _ ts) as [|oldest l] eqn:Hf; simpl length; cbv zeta; simpl; [do 2 f_equal; lia|].
  destruct (Z.leb_spec mx (Z.of_nat (S (length l)))); simpl; [done|]. do 2 f_equal. lia.
Qed.

Lemma apply_ok h b n now mx w :
  bucket_inv h b n -> (n <= now)%Q -> ascending h.*1 -> (0 < mx)%Z ->
  exists d k b', h = d ++ k /\ (forall x, x ∈ d -> outlived now x) /\
    let o := spec_outcome k.*1 now mx w in
    _apply_sliding_window b now mx w = (o, b') /\
    bucket_inv (if allowed o then h ++ [(now, w)] else h) b' now.
Proof.
  intros Hb Hn Hasc Hmx. apply (bucket_inv_later _ _ _ now) in Hb; [|done].
  destruct Hb as (d & k & -> & Hd & Hts & Hm & Hk). rewrite fmap_app in Hasc. apply ascending_app_inv in Hasc as (_ & Hasc & _).
  rewrite apply_pruned by (rewrite ?Hts; done). set (bw := Z.max (window_seconds b) w).
  destruct (prune_split (now - inject_Z bw) (timestamps b)) as (d2 & Hsplit & Hd2).
  set (ts := prune _ _) in *. rewrite Hts in Hsplit. apply fmap_app_inv in Hsplit as (dk & k2 & -> & -> & ->).
  assert (Hout : forall x, x ∈ d ++ dk -> outlived now x).
  { intros x [?|Hx]%elem_of_app; [auto|]. apply (outlived_past _ bw); [lia| |].
    - specialize (Hk x ltac:(set_solver)). lia.
    - apply Hd2. by apply list_elem_of_fmap_2. }
  exists (d ++ dk), k2. eexists. split; [by rewrite app_assoc|]. split; [exact Hout|]. split; [reflexivity|].
  destruct (allowed _); [exists (d ++ dk), (k2 ++ [(now, w)])|exists (d ++ dk), k2]; cbn [timestamps window_seconds];
    rewrite ?fmap_app, <-?app_assoc; split_and!; try done; try lia; intros x Hx.
  - apply elem_of_app in Hx as [Hx| ->%list_elem_of_singleton]; [specialize (Hk x ltac:(set_solver)); lia|simpl; lia].
  - specialize (Hk x ltac:(set_solver)). lia.
Qed.

(** ** Runs *)

(** Budget and window are the call's own: settings may change between calls. *)
Record Call := { call_key : string; call_max : Z; call_window : Z; call_now : Q; call_gc : Q }.

Definition Answer : Type := result ConfigError RateLimitOutcome.

Definition admitted (o : Answer) : bool := match o with Ok o => allowed o | Err _ => false end.

Definition record_hit (h : History) (c : Call) (o : Answer) : History :=
  if admitted o then fun k => if decide (k = call_key c) then h k ++ [(call_now c, call_window c)] else h k else h.

(** The store's answers, and the hits it admitted; a refused configuration is
    raised to its caller and changes nothing. *)
Fixpoint run (s : InMemorySlidingWindowStore) (h : History) (cs : list Call) : list Answer * History :=
  match cs with
  | [] => ([], h)
  | c :: cs =>
      match acquire s (call_key c) (call_max c) (call_window c) (call_now c) (call_gc c) with
      | Err e => let r := run s h cs in (Err e :: r.1, r.2)
      | Ok (o, s) => let r := run s (record_hit h c (Ok o)) cs in (Ok o :: r.1, r.2)
      end
  end.

(** What a limiter that remembers these hits of the key answers. *)
Definition spec_call (h : list Hit) (c : Call) : Answer :=
  let* _ := _validate_window_config (call_max c) (call_window c) in
  Ok (spec_outcome h.*1 (call_now c) (call_max c) (call_window c)).

Fixpoint spec_run (h : History) (cs : list Call) : list Answer * History :=
  match cs with
  | [] => ([], h)
  | c :: cs =>
      let o := spec_call (h (call_key c)) c in
      let r := spec_run (record_hit h c o) cs in
      (o :: r.1, r.2)
  end.

(** Each answer is that of a limiter that has forgotten an initial part of the
    key's history, outlived hits only; and it never refuses what the whole
    history admits. *)
Fixpoint explained (h : History) (cs : list Call) (r : list Answer * History) : Prop :=
  match cs, r with
  | [], ([], h') => h' = h
  | c :: cs, (o :: os, h') =>
      (exists d k, h (call_key c) = d ++ k /\ (forall x, x ∈ d -> outlived (call_now c) x) /\ o = spec_call k c) /\
      (admitted (spec_call (h (call_key c)) c) = true -> admitted o = true) /\
      explained (record_hit h c o) cs (os, h')
  | _, _ => False
  end.

(** No call looks at a hit that may have been forgotten. *)
Fixpoint within_memory (h : History) (cs : list Call) : Prop :=
  match cs with
  | [] => True
  | c :: cs =>
      (forall x, x ∈ h (call_key c) -> outlived (call_now c) x ->
         (x.1 <= call_now c - inject_Z (call_window c))%Q) /\
      within_memory (record_hit h c (spec_call (h (call_key c)) c)) cs
  end.

(** The clock never runs backwards. *)
Fixpoint monotone (n : Q) (cs : list Call) : Prop :=
  match cs with
  | [] => True
  | c :: cs => (n <= call_now c)%Q /\ (call_now c <= call_gc c)%Q /\ monotone (call_gc c) cs
  end.

Record store_inv (s : InMemorySlidingWindowStore) (h : History) (n : Q) : Prop := {
  st_ascending : forall k, ascending (h k).*1;
  st_past : forall k x, x ∈ h k -> (x.1 <= n)%Q;
  st_bucket : forall k, bucket_inv (h k) (default fresh_bucket (_buckets s !! k)) n;
}.

Lemma store_inv_later s h n n' : (n <= n')%Q -> store_inv s h n -> store_inv s h n'.
Proof.
  intros Hn []. split; [done| |].
  - intros k x Hx. specialize (st_past0 k x Hx). lra.
  - intros k. by eapply bucket_inv_later.
Qed.

(** The newest hit of a cold bucket, and with it every other, is outlived. *)
Lemma cold_outlived h b n :
  ascending h.*1 -> bucket_inv h b n -> _is_bucket_cold b n = true -> forall x, x ∈ h -> outlived n x.
Proof.
  intros Hasc (d & k & -> & Hd & Hts & Hm & Hk) Hcold x [?|Hx]%elem_of_app; [auto|].
  apply (outlived_past n (Z.max (window_seconds b * 2) _MIN_GC_HORIZON_SECONDS)); [lia|specialize (Hk x Hx); unfold _MIN_GC_HORIZON_SECONDS in *; lia|].
  unfold _is_bucket_cold in Hcold. rewrite Hts in Hcold. destruct (last k.*1) as [l|] eqn:Hl.
  - apply Qle_bool_iff in Hcold. apply last_Some in Hl as [ts Hl]. rewrite fmap_app in Hasc.
    apply ascending_app_inv in Hasc as (_ & Hasc & _). apply (list_elem_of_fmap_2 fst) in Hx.
    rewrite Hl in Hasc, Hx. apply ascending_app_inv in Hasc as (_ & _ & Hle).
    apply elem_of_app in Hx as [Hx| ->%list_elem_of_singleton]; [|done].
    assert (x.1 <= l)%Q; [apply Hle; [done|left]|lra].
  - apply last_None, fmap_nil_inv in Hl as ->. by apply not_elem_of_nil in Hx.
Qed.

(** A bucket is dropped only when all its hits are outlived. *)
Lemma gc_inv s h n : store_inv s h n -> store_inv (_gc_cold_buckets s n) h n.
Proof.
  intros [Ha Hp Hb]. split; [done|done|].
  intros k. unfold _gc_cold_buckets. simpl. specialize (Hb k). destruct (_buckets s !! k) as [b|] eqn:Hk.
  - destruct (_is_bucket_cold b n) eqn:Hcold.
    + rewrite (proj2 (map_lookup_filter_None _ _ _)); [simpl|].
      2:{ right. intros b' Hb'. assert (b' = b) as -> by congruence. simpl. congruence. }
      exists (h k), []. split; [by rewrite app_nil_r|]. split; [by eapply cold_outlived|].
      split_and!; [done|done|]. by intros x ?%not_elem_of_nil.
    + by rewrite (map_lookup_filter_Some_2 _ _ _ _ Hk Hcold).
  - by rewrite (proj2 (map_lookup_filter_None _ _ _)) by by left.
Qed.

Lemma record_hit_inv s h c o n b' :
  store_inv s h n -> (n <= call_now c)%Q ->
  bucket_inv (if admitted o then h (call_key c) ++ [(call_now c, call_window c)] else h (call_key c)) b' (call_now c) ->
  forall n', store_inv {| _buckets := <[call_key c := b']> (_buckets s); _acquires_since_gc := n' |} (record_hit h c o) (call_now c).
Proof.
  intros [Ha Hp Hb] Hn Hb' n'. split; simpl.
  - intros k. unfold record_hit. destruct (admitted o); [|done]. case_decide; [|done]. rewrite fmap_app.
    apply ascending_snoc; [done|]. intros a (x & -> & Hx)%list_elem_of_fmap. specialize (Hp k x Hx). simpl. lra.
  - intros k x. unfold record_hit. destruct (admitted o); [case_decide|];
      rewrite ?elem_of_app, ?list_elem_of_singleton; intros Hx;
      [destruct Hx as [Hx| ->]|..]; simpl; try specialize (Hp k x Hx); lra.
  - intros k. destruct (decide (k = call_key c)) as [->|Hk].
    + rewrite lookup_insert_eq. unfold record_hit. destruct (admitted o); [by rewrite decide_True|done].
    + rewrite lookup_insert_ne by done. unfold record_hit.
      destruct (admitted o); [rewrite decide_False by done|]; by eapply bucket_inv_later, Hb.
Qed.

Lemma validate_cases mx w :
  (_validate_window_config mx w = Ok tt /\ (0 < mx)%Z /\ (0 < w)%Z) \/ exists e, _validate_window_config mx w = Err e.
Proof.
  unfold _validate_window_config. destruct (Z.ltb_spec 0 mx), (Z.ltb_spec 0 w); simpl; [by left|right..];
    destruct (mx <=? 0)%Z; by eexists.
Qed.

Lemma acquire_ok s h n c :
  store_inv s h n -> (n <= call_now c)%Q -> (call_now c <= call_gc c)%Q ->
  exists d k, h (call_key c) = d ++ k /\ (forall x, x ∈ d -> outlived (call_now c) x) /\
    match acquire s (call_key c) (call_max c) (call_window c) (call_now c) (call_gc c) with
    | Err e => spec_call k c = Err e
    | Ok (o, s') => spec_call k c = Ok o /\ store_inv s' (record_hit h c (Ok o)) (call_gc c)
    end.
Proof.
  intros Hinv Hn Hgc. unfold acquire, spec_call.
  destruct (validate_cases (call_max c) (call_window c)) as [(-> & Hmx & Hw)|[e ->]]; cbn [rbind];
    [|exists [], (h (call_key c)); split_and!; [done|by intros x ?%not_elem_of_nil|done]].
  destruct (apply_ok (h (call_key c)) (default fresh_bucket (_buckets s !! call_key c)) n (call_now c) (call_max c)
    (call_window c)) as (d & k & b' & Hh & Hd & -> & Hb'); [apply Hinv|done|apply Hinv|done|].
  exists d, k. split; [done|]. split; [done|]. cbn [fst snd]. split; [done|].
  set (o := spec_outcome _ _ _ _) in *.
  pose proof (record_hit_inv s h c (Ok o) n b' Hinv Hn Hb') as Hrec.
  unfold _maybe_schedule_gc. cbn [_buckets _acquires_since_gc].
  destruct (_GC_EVERY_N_ACQUIRES <=? _); cbn [fst snd]; [apply gc_inv|]; eapply store_inv_later, Hrec; done.
Qed.

Lemma spec_admits h now mx w :
  (Z.of_nat (length (in_window h now w)) < mx)%Z -> allowed (spec_outcome h now mx w) = true.
Proof.
  intros Hlt. unfold spec_outcome. destruct (in_window h now w) as [|x l]; [done|].
  destruct (Z.leb_spec mx (Z.of_nat (length (x :: l)))); [lia|done].
Qed.

Lemma spec_admitted h now mx w :
  (0 < mx)%Z -> allowed (spec_outcome h now mx w) = true -> (Z.of_nat (length (in_window h now w)) < mx)%Z.
Proof.
  unfold spec_outcome. intros Hmx. destruct (in_window h now w) as [|x l]; [simpl; lia|].
  destruct (Z.leb_spec mx (Z.of_nat (length (x :: l)))); [done|lia].
Qed.

(** Who forgets hits admits more. *)
Lemma spec_call_forgetful d k c : admitted (spec_call (d ++ k) c) = true -> admitted (spec_call k c) = true.
Proof.
  unfold spec_call. destruct (validate_cases (call_max c) (call_window c)) as [(-> & Hmx & _)|[e ->]]; [|done].
  simpl. intros Ha%spec_admitted; [|done]. apply spec_admits. rewrite fmap_app in Ha.
  unfold in_window in *. rewrite filter_app, length_app in Ha. lia.
Qed.

Lemma spec_call_drop d k c :
  (forall x, x ∈ d -> (x.1 <= call_now c - inject_Z (call_window c))%Q) -> spec_call (d ++ k) c = spec_call k c.
Proof.
  intros Hd. unfold spec_call. do 2 f_equal. unfold spec_outcome. rewrite fmap_app, in_window_drop; [done|].
  intros t (x & -> & Hx)%list_elem_of_fmap. by apply Hd.
Qed.

Lemma store_run_explained cs s h n :
  store_inv s h n -> monotone n cs -> explained h cs (run s h cs).
Proof.
  revert s h n. induction cs as [|c cs IH]; intros s h n Hinv Hmono; [done|].
  destruct Hmono as (Hn & Hgc & Hmono). simpl.
  destruct (acquire_ok s h n c) as (d & k & Hh & Hd & Hans); [done..|].
  pose proof (spec_call_forgetful d k c) as Hmore. rewrite <-Hh in Hmore.
  destruct (acquire _ _ _ _ _ _) as [[o s']|e].
  - destruct Hans as [Hans Hinv']. rewrite Hans in Hmore. pose proof (IH _ _ _ Hinv' Hmono) as Hr.
    destruct (run _ _ cs). split; [by exists d, k|]. by split.
  - rewrite Hans in Hmore. pose proof (IH _ _ _ (store_inv_later _ _ _ _ (Qle_trans _ _ _ Hn Hgc) Hinv) Hmono) as Hr.
    destruct (run _ _ cs). split; [by exists d, k|]. by split.
Qed.

(** Within memory, forgetting makes no difference. *)
Lemma explained_exact cs h r : explained h cs r -> within_memory h cs -> r = spec_run h cs.
Proof.
  revert h r. induction cs as [|c cs IH]; intros h [[|o os] h'] He Hm; simpl in *; try done; [by subst|].
  destruct He as ((d & k & Hh & Hd & ->) & _ & He), Hm as [Hall Hm].
  assert (spec_call k c = spec_call (h (call_key c)) c) as Hs.
  { rewrite Hh. symmetry. apply spec_call_drop. intros x Hx. apply Hall; [rewrite Hh; set_solver|auto]. }
  rewrite Hs in *. by rewrite <-(IH _ _ He Hm).
Qed.

(** Windows of at most a minute, or that are never widened, stay within memory. *)
Definition never_widened (cs : list Call) : Prop :=
  ForallOrdPairs (fun c0 c => call_key c0 = call_key c ->
    (call_window c <= Z.max _MIN_GC_HORIZON_SECONDS (call_window c0))%Z) cs.

Lemma never_widened_within_memory cs h :
  never_widened cs ->
  (forall k x c, x ∈ h k -> c ∈ cs -> call_key c = k -> (call_window c <= Z.max _MIN_GC_HORIZON_SECONDS x.2)%Z) ->
  within_memory h cs.
Proof.
  revert h. induction cs as [|c cs IH]; intros h Hw Hh; [done|]. inversion Hw as [|? ? Hc Hcs]; subst.
  rewrite Forall_forall in Hc. split.
  - intros x Hx Hout. unfold outlived in Hout.
    pose proof (inject_le _ _ (Hh _ x c Hx ltac:(left) eq_refl)). lra.
  - apply IH; [done|]. intros k x c' Hx Hc' <-. unfold record_hit in Hx.
    destruct (admitted _); [|apply (Hh _ x c' Hx); [by right|done]].
    case_decide as Hk; [|apply (Hh _ x c' Hx); [by right|done]].
    apply elem_of_app in Hx as [Hx| ->%list_elem_of_singleton]; [apply (Hh _ x c' Hx); [by right|done]|].
    simpl. by apply Hc.
Qed.

Lemma new_store_inv n : store_inv new_store (fun _ => []) n.
Proof.
  split; [intros; constructor|by intros k x ?%not_elem_of_nil|].
  intros k. exists [], []. split_and!; [done|by intros x ?%not_elem_of_nil|done|done|by intros x ?%not_elem_of_nil].
Qed.

(** ** Bounds of the specification *)

Lemma length_filter_mono {A} (f g : A -> bool) l :
  (forall x, f x = true -> g x = true) ->
  (length (filter (fun x => f x = true) l) <= length (filter (fun x => g x = true) l))%nat.
Proof.
  intros Hfg. induction l as [|x l IH]; [done|]. rewrite !filter_cons.
  repeat case_decide; simpl; try lia. exfalso. auto.
Qed.

(** The admitted hits in the window ending at [t]. *)
Definition hits_until (h : list Q) (t : Q) (w : Z) : nat :=
  length (filter (fun x => qlt (t - inject_Z w) x && Qle_bool x t = true) h).

Definition within_budget (h : list Q) (w mx : Z) : Prop :=
  forall t, (Z.of_nat (hits_until h t w) <= mx)%Z.

Lemma budget_step h w mx now :
  within_budget h w mx -> (forall t, t ∈ h -> (t <= now)%Q) -> (0 < mx)%Z ->
  allowed (spec_outcome h now mx w) = true -> within_budget (h ++ [now]) w mx.
Proof.
  intros Hb Hpast Hmx Ha%spec_admitted; [|done].
  intros t. unfold hits_until. rewrite filter_app, length_app, filter_cons, filter_nil.
  case_decide as Ht; [|specialize (Hb t); unfold hits_until in Hb; simpl; lia].
  apply andb_prop in Ht as [_ Ht%Qle_bool_iff]. simpl.
  assert (length (filter (fun x => qlt (t - inject_Z w) x && Qle_bool x t = true) h) <=
    length (in_window h now w))%nat as Hle; [|lia].
  apply length_filter_mono. intros x [Hx _]%andb_prop. apply qlt_spec in Hx. apply qlt_spec. lra.
Qed.

Lemma spec_run_budget (win mx : string -> Z) cs h n k :
  (forall k, within_budget (h k).*1 (win k) (mx k)) -> (forall k x, x ∈ h k -> (x.1 <= n)%Q) ->
  monotone n cs -> (forall c, c ∈ cs -> call_max c = mx (call_key c) /\ call_window c = win (call_key c)) ->
  within_budget ((spec_run h cs).2 k).*1 (win k) (mx k).
Proof.
  revert h n. induction cs as [|c cs IH]; intros h n Hb Hp Hmono Hc; [apply Hb|].
  destruct Hmono as (Hn & Hgc & Hmono). destruct (Hc c) as [Hmx Hwin]; [left|].
  simpl. apply (IH _ (call_gc c)); [| |done|intros; apply Hc; by right].
  - intros k'. unfold record_hit. destruct (admitted _) eqn:Ha; [|apply Hb]. case_decide as Hk; [|apply Hb]. subst k'.
    unfold spec_call in Ha. destruct (validate_cases (call_max c) (call_window c)) as [(Hv & Hpos & _)|[e Hv]];
      rewrite Hv in Ha; [|done]. simpl in Ha. rewrite fmap_app, <-Hmx, <-Hwin.
    apply budget_step; [rewrite Hmx, Hwin; apply Hb| |done|done].
    intros t (x & -> & Hx)%list_elem_of_fmap. exact (Qle_trans _ _ _ (Hp _ x Hx) Hn).
  - intros k' x. unfold record_hit. destruct (admitted _); [case_decide|];
      rewrite ?elem_of_app, ?list_elem_of_singleton; intros Hx;
      [destruct Hx as [Hx| ->]|..]; simpl; try specialize (Hp k' x Hx); lra.
Qed.

Lemma length_filter_strict {A} (f g : A -> bool) l x :
  (forall x, f x = true -> g x = true) -> x ∈ l -> g x = true -> f x = false ->
  (length (filter (fun x => f x = true) l) < length (filter (fun x => g x = true) l))%nat.
Proof.
  intros Hfg Hx Hg Hf. apply list_elem_of_split in Hx as (l1 & l2 & ->).
  rewrite !filter_app, !length_app, !filter_cons.
  rewrite decide_False by congruence. rewrite decide_True by done. simpl.
  pose proof (length_filter_mono f g l1 Hfg). pose proof (length_filter_mono f g l2 Hfg). lia.
Qed.

(** By the time a refused caller may come back, a hit has left the window. *)
Lemma spec_refusal h now mx w r :
  allowed (spec_outcome h now mx w) = false ->
  retry_after_seconds (spec_outcome h now mx w) = Some r ->
  (0 < r)%Q /\ (length (in_window h (now + r) w) < length (in_window h now w))%nat.
Proof.
  unfold spec_outcome. destruct (in_window h now w) as [|oldest l] eqn:Hw; [done|].
  destruct (mx <=? Z.of_nat (length (oldest :: l)))%Z; [|done].
  intros _ Hret. simpl in Hret. injection Hret as <-.
  set (r := qmax (oldest + inject_Z w - now) (1 # 1000)).
  assert (Hr : (oldest + inject_Z w - now <= r /\ (1 # 1000) <= r)%Q).
  { unfold r, qmax. destruct (Qle_bool _ (1 # 1000)) eqn:Hq.
    - apply Qle_bool_iff in Hq. split; lra.
    - assert (~ (oldest + inject_Z w - now <= 1 # 1000)%Q) as Hn%Qnot_le_lt
        by (intros Hle%Qle_bool_iff; congruence). split; lra. }
  split; [lra|].
  assert (oldest ∈ in_window h now w) as [Ho1 Ho2]%list_elem_of_filter by (rewrite Hw; left).
  rewrite <-Hw. apply length_filter_strict with oldest; [|done|done|apply qlt_false; lra].
  intros x. rewrite !qlt_spec. lra.
Qed.

(** At its own time a window holds every hit that is not in the future. *)
Lemma hits_until_now h now w :
  (forall t, t ∈ h -> (t <= now)%Q) -> hits_until h now w = length (in_window h now w).
Proof.
  intros Hp. unfold hits_until, in_window. induction h as [|t h IH]; [done|].
  rewrite !filter_cons.
  assert (Qle_bool t now = true) as -> by (apply Qle_bool_iff, Hp; left). rewrite andb_true_r.
  case_decide; simpl; rewrite IH; try done; intros; apply Hp; by right.
Qed.

(** ** Properties *)

(** C35: whatever calls arrive, each with its own budget and window, with pruning
    and cold-bucket sweeps along the way, on a clock that does not run backwards:
    the store answers each call as a limiter that has forgotten, of all the hits
    it admitted for the key, only oldest ones that are outlived, at least as old
    as a minute and as the window of their own call; an invalid budget or window
    is refused and changes nothing; and no call is refused that the whole history
    admits. When no call looks back further than that, in particular when the
    windows of a key never grow beyond a minute or stay what they are, the store
    answers every call as if it kept every admitted hit forever: the same
    decisions, remaining budgets and waiting times. When a window is widened the
    first calls can be admitted beyond the budget ([widened_window]). *)
Theorem store_refines_history n cs :
  monotone n cs ->
  let r := run new_store (fun _ => []) cs in
  explained (fun _ => []) cs r /\
  (within_memory (fun _ => []) cs -> r = spec_run (fun _ => []) cs) /\
  (never_widened cs -> within_memory (fun _ => []) cs).
Proof.
  intros Hmono r. pose proof (store_run_explained cs new_store (fun _ => []) n (new_store_inv n) Hmono) as He.
  split; [exact He|]. split; [by apply explained_exact|].
  intros Hw. apply never_widened_within_memory; [done|]. by intros k x c ?%not_elem_of_nil.
Qed.

Lemma fixed_never_widened (win : string -> Z) cs :
  (forall c, c ∈ cs -> call_window c = win (call_key c)) -> never_widened cs.
Proof.
  induction cs as [|c cs IH]; intros Hw; [constructor|]. constructor; [|apply IH; intros; apply Hw; by right].
  apply Forall_forall. intros c' Hc' Hk. rewrite (Hw c) by left. rewrite (Hw c') by by right. rewrite Hk. lia.
Qed.

(** When every operation has a fixed budget and window, no window of any run
    ever holds more admitted hits than the budget. *)
Theorem store_within_budget n (win mx : string -> Z) cs k t :
  monotone n cs -> (forall c, c ∈ cs -> call_max c = mx (call_key c) /\ call_window c = win (call_key c)) ->
  (forall k, 0 <= mx k)%Z ->
  (Z.of_nat (hits_until ((run new_store (fun _ => []) cs).2 k).*1 t (win k)) <= mx k)%Z.
Proof.
  intros Hmono Hc Hpos.
  pose proof (store_run_explained cs new_store (fun _ => []) n (new_store_inv n) Hmono) as He.
  apply explained_exact in He as ->.
  - apply (spec_run_budget win mx cs (fun _ => []) n k); [| |done|done]; [|by intros k' x ?%not_elem_of_nil].
    intros k' t'. unfold hits_until. simpl. apply Hpos.
  - apply never_widened_within_memory; [|by intros k' x c ?%not_elem_of_nil].
    apply (fixed_never_widened win). intros c Hin. by apply Hc.
Qed.

(** A refused caller that waits the returned seconds is admitted, when the
    budget was respected before and nobody else is admitted meanwhile. *)
Theorem retry_after_suffices b now mx w o b' r :
  ascending (timestamps b) -> (forall t, t ∈ timestamps b -> (t <= now)%Q) ->
  within_budget (timestamps b) w mx -> (0 < mx)%Z ->
  _apply_sliding_window b now mx w = (o, b') ->
  allowed o = false -> retry_after_seconds o = Some r ->
  (0 < r)%Q /\ allowed (_apply_sliding_window b' (now + r) mx w).1 = true.
Proof.
  intros Hasc Hpast Hbud Hmx Happ Hden Hret.
  rewrite apply_pruned in Happ by done. injection Happ as <- <-. rewrite Hden.
  set (ts := prune _ _) in *. destruct (prune_split (now - inject_Z (Z.max (window_seconds b) w)) (timestamps b)) as (d & Hts & _).
  fold ts in Hts. destruct (spec_refusal ts now mx w r) as (Hr & Hlater); [done|done|]. split; [done|].
  assert (Hasct : ascending ts) by (rewrite Hts in Hasc; by apply ascending_app_inv in Hasc as (_ & ? & _)).
  rewrite apply_pruned by done. cbn [timestamps window_seconds fst]. apply spec_admits.
  destruct (prune_split (now + r - inject_Z (Z.max (Z.max (window_seconds b) w) w)) ts) as (d2 & Hts2 & _).
  set (ts2 := prune _ ts) in *. specialize (Hbud now). rewrite hits_until_now in Hbud by done.
  assert (Hle : forall l1 l2 m, (length (in_window l2 m w) <= length (in_window (l1 ++ l2) m w))%nat).
  { intros l1 l2 m. unfold in_window. rewrite filter_app, length_app. lia. }
  pose proof (Hle d ts now) as H1. pose proof (Hle d2 ts2 (now + r)%Q) as H2. rewrite <-Hts in H1. rewrite <-Hts2 in H2. lia.
Qed.

(** ** A small run *)

Definition call (k : string) (mx w : Z) (t : Q) : Call :=
  {| call_key := k; call_max := mx; call_window := w; call_now := t; call_gc := t |}.

Definition decisions (os : list Answer) : list (result ConfigError (bool * Z)) :=
  (fun o => match o with Ok o => Ok (allowed o, remaining o) | Err e => Err e end) <$> os.

Definition burst : list Call :=
  [call "a" 2 10 0; call "a" 2 10 1; call "b" 1 10 1; call "a" 2 10 2; call "a" 0 10 2; call "a" 2 10 11]%Q.

Example burst_decisions :
  decisions (run new_store (fun _ => []) burst).1 =
  [Ok (true, 1); Ok (true, 0); Ok (true, 0); Ok (false, 0); Err MaxRequestsNotPositive; Ok (true, 1)]%Z.
Proof. vm_compute. reflexivity. Qed.

(** The window of a key is raised from ten seconds to an hour: the hit of the
    start was pruned by the call after seventy seconds, so the store admits a
    third call within the hour where the budget is two. *)
Definition widened : list Call := [call "a" 2 10 0; call "a" 2 10 70; call "a" 2 3600 71]%Q.

Example widened_window :
  decisions (run new_store (fun _ => []) widened).1 = [Ok (true, 1); Ok (true, 1); Ok (true, 0)]%Z /\
  decisions (spec_run (fun _ => []) widened).1 = [Ok (true, 1); Ok (true, 1); Ok (false, 0)]%Z.
Proof. split; vm_compute; reflexivity. Qed.

Lemma burst_monotone : monotone 0 burst.
Proof. repeat split; apply Qle_bool_iff; vm_compute; reflexivity. Qed.

Lemma store_refines_history_witness :
  run new_store (fun _ => []) burst = spec_run (fun _ => []) burst /\ explained (fun _ => []) widened (run new_store (fun _ => []) widened).
Proof.
  destruct (store_refines_history 0 burst burst_monotone) as (_ & Hexact & Hmem). split.
  - apply Hexact, Hmem. apply (fixed_never_widened (fun _ => 10%Z)). apply Forall_forall. repeat constructor.
  - apply (store_refines_history 0 widened). repeat split; apply Qle_bool_iff; vm_compute; reflexivity.
Defined.

Lemma store_within_budget_witness :
  (Z.of_nat (hits_until ((run new_store (fun _ => []) (firstn 4 burst)).2 "a").*1 5 10) <= 2)%Z.
Proof.
  apply (store_within_budget 0 (fun _ => 10%Z) (fun k => if String.eqb k "a" then 2%Z else 1%Z) (firstn 4 burst) "a" 5).
  - repeat split; apply Qle_bool_iff; vm_compute; reflexivity.
  - apply Forall_forall. repeat constructor.
  - intros k. destruct (String.eqb k "a"); discriminate.
Defined.

Lemma retry_after_suffices_witness :
  (0 < 9)%Q /\
  allowed (_apply_sliding_window {| timestamps := [0%Q]; window_seconds := 60 |} (1 + 9) 1 10).1 = true.
Proof.
  apply (retry_after_suffices {| timestamps := [0%Q]; window_seconds := 60 |} 1 1 10
    (_apply_sliding_window {| timestamps := [0%Q]; window_seconds := 60 |} 1 1 10).1).
  - repeat constructor.
  - intros t Ht. apply list_elem_of_singleton in Ht as ->. apply Qle_bool_iff. reflexivity.
  - intros t. unfold hits_until. simpl. rewrite filter_cons, filter_nil. case_decide; simpl; lia.
  - reflexivity.
  - vm_compute. reflexivity.
  - vm_compute. reflexivity.
  - vm_compute. reflexivity.
Defined.
End Store.

Module Events.

(** [SlidingWindowEventLimiter]; a handle is the identity of the object [take]
    mints, a number never used before. *)
Record SlidingWindowEventLimiter := {
  _max_events : Z;
  _window_seconds : Q;
  _events : gmap string (list (nat * Q));
  next_handle : nat;
}.

Inductive LimiterError := MaxEventsBelowOne | WindowNotPositive.

Definition new_limiter (max_events : Z) (window_seconds : Q)
    : result LimiterError SlidingWindowEventLimiter :=
  if (max_events <? 1)%Z then Err MaxEventsBelowOne
  else if Qle_bool window_seconds 0 then Err WindowNotPositive
  else Ok {| _max_events := max_events; _window_seconds := window_seconds;
             _events := ∅; next_handle := 0 |}.

(** [not entries or entries[-1][1] <= cutoff]. *)
Definition stale (cutoff : Q) (entries : list (nat * Q)) : bool :=
  match last entries with
  | None => true
  | Some e => Qle_bool e.2 cutoff
  end.

Definition live (cutoff : Q) (entries : list (nat * Q)) : list (nat * Q) :=
  filter (fun e => qlt cutoff e.2 = true) entries.

Definition with_events (l : SlidingWindowEventLimiter) (ev : gmap string (list (nat * Q)))
    (next : nat) : SlidingWindowEventLimiter :=
  {| _max_events := _max_events l; _window_seconds := _window_seconds l;
     _events := ev; next_handle := next |}.

Definition take (l : SlidingWindowEventLimiter) (key : string) (now : Q)
    : option nat * SlidingWindowEventLimiter :=
  let cutoff := (now - _window_seconds l)%Q in
  let ev := filter (fun ke => ke.1 = key \/ stale cutoff ke.2 = false) (_events l) in
  let entries := live cutoff (default [] (ev !! key)) in
  if (_max_events l <=? Z.of_nat (length entries))%Z
  then (None, with_events l (<[key := entries]> ev) (next_handle l))
  else (Some (next_handle l),
        with_events l (<[key := entries ++ [(next_handle l, now)]]> ev) (S (next_handle l))).

Definition release (l : SlidingWindowEventLimiter) (key : string) (handle : nat)
    : SlidingWindowEventLimiter :=
  match _events l !! key with
  | None | Some [] => l
  | Some entries =>
      match filter (fun e => e.1 <> handle) entries with
      | [] => with_events l (delete key (_events l)) (next_handle l)
      | remaining => with_events l (<[key := remaining]> (_events l)) (next_handle l)
      end
  end.

Definition build_revalidation_limiter (max_failures : Z) (window_seconds interval_seconds : Q)
    : result LimiterError SlidingWindowEventLimiter :=
  new_limiter max_failures (qmax window_seconds (interval_seconds * inject_Z max_failures)).

(** ** The specification: outstanding admissions

    [out key] lists the admissions of a key that were not released. *)
Inductive Op := Take (key : string) (now : Q) | Release (key : string) (handle : nat).

Definition Outstanding := string -> list (nat * Q).

Definition step (l : SlidingWindowEventLimiter) (o : Op) : option (option nat) * SlidingWindowEventLimiter :=
  match o with
  | Take k now => let r := take l k now in (Some r.1, r.2)
  | Release k h => (None, release l k h)
  end.

Definition spec_step (max_events : Z) (w : Q) (next : nat) (out : Outstanding) (o : Op)
    : option (option nat) * (nat * Outstanding) :=
  match o with
  | Take k now =>
      if (max_events <=? Z.of_nat (length (live (now - w) (out k))))%Z
      then (Some None, (next, out))
      else (Some (Some next),
            (S next, fun k' => if decide (k' = k) then out k ++ [(next, now)] else out k'))
  | Release k h =>
      (None, (next, fun k' => if decide (k' = k) then filter (fun e => e.1 <> h) (out k) else out k'))
  end.

Fixpoint run (l : SlidingWindowEventLimiter) (os : list Op) : list (option (option nat)) :=
  match os with
  | [] => []
  | o :: os => let r := step l o in r.1 :: run r.2 os
  end.

Fixpoint spec_run (max_events : Z) (w : Q) (next : nat) (out : Outstanding) (os : list Op)
    : list (option (option nat)) :=
  match os with
  | [] => []
  | o :: os =>
      let r := spec_step max_events w next out o in
      r.1 :: spec_run max_events w r.2.1 r.2.2 os
  end.

(** Takes see a clock that never runs backwards. *)
Fixpoint monotone (n : Q) (os : list Op) : Prop :=
  match os with
  | [] => True
  | Take _ now :: os => (n <= now)%Q /\ monotone now os
  | Release _ _ :: os => monotone n os
  end.

(** The table drops from the outstanding admissions only ones out of the
    window. *)
Definition entries_inv (out entries : list (nat * Q)) (w n : Q) : Prop :=
  exists d, out = d ++ entries /\ forall e, e ∈ d -> (e.2 <= n - w)%Q.

Record limiter_inv (l : SlidingWindowEventLimiter) (out : Outstanding) (n : Q) : Prop := {
  li_ascending : forall k, Store.ascending (out k).*2;
  li_past : forall k e, e ∈ out k -> (e.2 <= n)%Q;
  li_entries : forall k, entries_inv (out k) (default [] (_events l !! k)) (_window_seconds l) n;
}.

Lemma live_none cutoff d : (forall e, e ∈ d -> (e.2 <= cutoff)%Q) -> live cutoff d = [].
Proof.
  intros Hd. unfold live. induction d as [|e d IH]; [done|].
  rewrite filter_cons, decide_False; [apply IH; set_solver|].
  rewrite (proj2 (qlt_false _ _)); [done|]. apply Hd. left.
Qed.

Lemma live_app cutoff d es : live cutoff (d ++ es) = live cutoff d ++ live cutoff es.
Proof. apply filter_app. Qed.

Lemma ascending_filter (P : nat * Q -> Prop) `{forall e, Decision (P e)} es :
  Store.ascending es.*2 -> Store.ascending (filter P es).*2.
Proof.
  induction es as [|e es IH]; intros Hs; [done|]. rewrite fmap_cons in Hs.
  apply StronglySorted_inv in Hs as [Hs Hall]. rewrite filter_cons. case_decide; [|by apply IH].
  rewrite fmap_cons. constructor; [by apply IH|]. rewrite Forall_forall in *.
  intros t (e' & -> & [_ He']%list_elem_of_filter)%list_elem_of_fmap. apply Hall.
  by apply list_elem_of_fmap_2.
Qed.

Lemma filter_id {A} (P : A -> Prop) `{forall x, Decision (P x)} (l : list A) :
  (forall x, x ∈ l -> P x) -> filter P l = l.
Proof.
  induction l as [|x l IH]; intros Hl; [done|]. rewrite filter_cons, decide_True by set_solver.
  f_equal. apply IH. set_solver.
Qed.

(** In a list in time order, what is out of the window comes first. *)
Lemma live_suffix cutoff es :
  Store.ascending es.*2 -> exists d, es = d ++ live cutoff es /\ forall e, e ∈ d -> (e.2 <= cutoff)%Q.
Proof.
  induction es as [|e es IH]; intros Hs; [exists []; set_solver|].
  rewrite fmap_cons in Hs. apply StronglySorted_inv in Hs as [Hs Hall].
  unfold live. rewrite filter_cons. case_decide as He.
  - apply qlt_spec in He. exists []. split; [|set_solver]. simpl. f_equal. symmetry.
    apply filter_id. intros e' He'. apply qlt_spec. rewrite Forall_forall in Hall.
    assert (e.2 <= e'.2)%Q by (apply Hall; by apply list_elem_of_fmap_2). lra.
  - destruct (IH Hs) as (d & Heq & Hd). exists (e :: d). simpl. split; [by f_equal|].
    intros e' [->|?]%elem_of_cons; [|auto]. apply qlt_false. by apply not_true_is_false.
Qed.

Lemma entries_inv_later out es w n n' : (n <= n')%Q -> entries_inv out es w n -> entries_inv out es w n'.
Proof. intros Hn (d & ? & Hd). exists d. split; [done|]. intros e He. specialize (Hd e He). lra. Qed.

(** Dropping what is out of the window keeps the invariant, and leaves exactly
    the outstanding admissions in the window. *)
Lemma entries_inv_live out es w n :
  Store.ascending out.*2 -> entries_inv out es w n ->
  live (n - w) es = live (n - w) out /\ entries_inv out (live (n - w) es) w n.
Proof.
  intros Hs (d & -> & Hd). rewrite live_app, (live_none _ d Hd). split; [done|].
  rewrite fmap_app in Hs. apply Store.ascending_app_inv in Hs as (_ & Hs & _).
  destruct (live_suffix (n - w) es Hs) as (d2 & Heq & Hd2). exists (d ++ d2).
  split; [by rewrite <-app_assoc, <-Heq|]. intros e [?|?]%elem_of_app; auto.
Qed.

(** A key is dropped by another key's call only when all of it is out of the
    window. *)
Lemma entries_inv_stale out es w n :
  Store.ascending out.*2 -> entries_inv out es w n -> stale (n - w) es = true ->
  entries_inv out [] w n.
Proof.
  intros Hs (d & -> & Hd) Hst. exists (d ++ es). split; [by rewrite app_nil_r|].
  intros e [?|He]%elem_of_app; [auto|]. unfold stale in Hst.
  destruct (last es) as [x|] eqn:Hl.
  - apply Qle_bool_iff in Hst. apply last_Some in Hl as [es' ->].
    rewrite !fmap_app in Hs. apply Store.ascending_app_inv in Hs as (_ & Hs & _).
    apply Store.ascending_app_inv in Hs as (_ & _ & Hle).
    apply elem_of_app in He as [He| ->%list_elem_of_singleton]; [|done].
    assert (e.2 <= x.2)%Q; [|lra]. apply Hle; [by apply list_elem_of_fmap_2|left].
  - apply last_None in Hl as ->. by apply not_elem_of_nil in He.
Qed.

Lemma take_lookup l key now k :
  filter (fun ke => ke.1 = key \/ stale (now - _window_seconds l) ke.2 = false) (_events l) !! k =
  if decide (k = key) then _events l !! k
  else es ← _events l !! k; if stale (now - _window_seconds l) es then None else Some es.
Proof.
  destruct (_events l !! k) as [es|] eqn:Hk.
  - case_decide as Hkey.
    + apply map_lookup_filter_Some. simpl. auto.
    + simpl. destruct (stale _ es) eqn:Hst.
      * apply map_lookup_filter_None. right. simpl. intros es' Hes'.
        assert (es' = es) as -> by congruence. intros [?|?]; congruence.
      * apply map_lookup_filter_Some. simpl. auto.
  - rewrite (proj2 (map_lookup_filter_None _ _ _)) by by left. by case_decide.
Qed.

Lemma take_inv l out n key now :
  limiter_inv l out n -> (n <= now)%Q ->
  let r := take l key now in
  let s := spec_step (_max_events l) (_window_seconds l) (next_handle l) out (Take key now) in
  s = (Some r.1, (next_handle r.2, s.2.2)) /\ limiter_inv r.2 s.2.2 now /\
  _max_events r.2 = _max_events l /\ _window_seconds r.2 = _window_seconds l.
Proof.
  intros [Ha Hp He] Hn. unfold take, spec_step. set (w := _window_seconds l) in *.
  assert (Hother : forall k, k <> key -> entries_inv (out k)
    (default [] (filter (fun ke => ke.1 = key \/ stale (now - w) ke.2 = false) (_events l) !! k)) w now).
  { intros k Hk. unfold w. rewrite take_lookup, decide_False by done. fold w.
    pose proof (entries_inv_later _ _ _ _ _ Hn (He k)) as Hek.
    destruct (_events l !! k) as [es|] eqn:Hlk; simpl in *; [|done].
    destruct (stale (now - w) es) eqn:Hst; simpl; [|done]. by eapply entries_inv_stale. }
  unfold w. rewrite take_lookup, decide_True by done. fold w.
  destruct (entries_inv_live (out key) (default [] (_events l !! key)) w now) as [Hlive Hinv];
    [done|by eapply entries_inv_later|].
  rewrite Hlive in *. set (ev := filter _ _) in *.
  destruct (_max_events l <=? Z.of_nat (length (live (now - w) (out key))))%Z; simpl.
  - split_and!; [done| |done|done]. split; [done| |].
    + intros k e Hin. specialize (Hp k e Hin). lra.
    + intros k. simpl. destruct (decide (k = key)) as [->|Hk].
      * by rewrite lookup_insert_eq.
      * rewrite lookup_insert_ne by done. by apply Hother.
  - split_and!; [done| |done|done]. split.
    + intros k. case_decide; [|done]. rewrite fmap_app. apply Store.ascending_snoc; [done|].
      intros t (e & -> & Hin)%list_elem_of_fmap. specialize (Hp _ e Hin). simpl. lra.
    + intros k e. case_decide; [|intros Hin; specialize (Hp k e Hin); lra].
      intros [Hin| ->%list_elem_of_singleton]%elem_of_app; [specialize (Hp _ e Hin); lra|simpl; lra].
    + intros k. simpl. destruct (decide (k = key)) as [->|Hk].
      * rewrite lookup_insert_eq. simpl. destruct Hinv as (d & Hd & Hle). exists d.
        split; [|done]. by rewrite Hd at 1; rewrite <-app_assoc.
      * rewrite lookup_insert_ne by done. by apply Hother.
Qed.

Lemma release_lookup l key h k :
  default [] (_events (release l key h) !! k) =
  if decide (k = key) then filter (fun e => e.1 <> h) (default [] (_events l !! k))
  else default [] (_events l !! k).
Proof.
  unfold release. destruct (_events l !! key) as [[|e es]|] eqn:Hk.
  - case_decide; [subst; by rewrite Hk|done].
  - destruct (filter (fun e => e.1 <> h) (e :: es)) as [|e' es'] eqn:Hf; simpl.
    + case_decide as Heq; [subst; rewrite lookup_delete_eq, Hk; simpl; by rewrite Hf|].
      by rewrite lookup_delete_ne.
    + case_decide as Heq; [subst; rewrite lookup_insert_eq, Hk; simpl; by rewrite Hf|].
      by rewrite lookup_insert_ne.
  - case_decide; [subst; by rewrite Hk|done].
Qed.

Lemma release_fields l key h :
  _max_events (release l key h) = _max_events l /\
  _window_seconds (release l key h) = _window_seconds l /\
  next_handle (release l key h) = next_handle l.
Proof. unfold release. repeat case_match; done. Qed.

Lemma release_inv l out n key h :
  limiter_inv l out n ->
  limiter_inv (release l key h)
    (fun k' => if decide (k' = key) then filter (fun e => e.1 <> h) (out key) else out k') n.
Proof.
  intros [Ha Hp He]. split.
  - intros k. case_decide; [by apply ascending_filter|done].
  - intros k e. case_decide; [intros [_ ?]%list_elem_of_filter|]; by eapply Hp.
  - intros k. rewrite release_lookup. destruct (release_fields l key h) as (_ & -> & _).
    destruct (He k) as (d & Hd & Hle). case_decide as Hk; [|by exists d]. subst k.
    exists (filter (fun e => e.1 <> h) d). split; [by rewrite Hd, filter_app|].
    intros e [_ ?]%list_elem_of_filter. by apply Hle.
Qed.

Lemma limiter_run_ok os l out n :
  limiter_inv l out n -> monotone n os ->
  run l os = spec_run (_max_events l) (_window_seconds l) (next_handle l) out os.
Proof.
  revert l out n. induction os as [|[k now|k h] os IH]; intros l out n Hinv Hmono; [done| |].
  - destruct Hmono as [Hn Hmono]. cbn [run spec_run step fst snd].
    destruct (take_inv l out n k now Hinv Hn) as (Hs & Hinv' & Hm & Hw).
    rewrite Hs. cbn [fst snd]. f_equal. by erewrite IH, Hm, Hw.
  - cbn [run spec_run step spec_step fst snd]. f_equal.
    destruct (release_fields l k h) as (Hm & Hw & Hnx).
    erewrite IH; [by rewrite Hm, Hw, Hnx|by apply release_inv|done].
Qed.

Lemma empty_inv mx w n :
  limiter_inv {| _max_events := mx; _window_seconds := w; _events := ∅; next_handle := 0 |}
    (fun _ => []) n.
Proof. split; simpl; [intros; constructor|set_solver|]. intros k. exists []. set_solver. Qed.

(** Admissions in time order, at least [i] apart. *)
Fixpoint gapped (i : Q) (es : list (nat * Q)) : Prop :=
  match es with
  | [] => True
  | e :: rest => (forall e', head rest = Some e' -> (e.2 + i <= e'.2)%Q) /\ gapped i rest
  end.

Lemma gapped_app_r i d es : gapped i (d ++ es) -> gapped i es.
Proof. induction d as [|e d IH]; [done|]. intros [_ ?]. auto. Qed.

Lemma gapped_snoc i es h t :
  gapped i es -> (forall x, last es = Some x -> (x.2 + i <= t)%Q) -> gapped i (es ++ [(h, t)]).
Proof.
  induction es as [|e es IH]; intros Hg Hl; [done|]. destruct Hg as [He Hg]. split.
  - intros e'. destruct es as [|e2 es]; simpl; [|apply He]. intros [= <-]. by apply Hl.
  - apply IH; [done|]. intros x Hx. apply Hl. by destruct es.
Qed.

(** [n] gapped admissions span [n - 1] gaps. *)
Lemma gapped_span i e es x :
  gapped i (e :: es) -> last (e :: es) = Some x ->
  (e.2 + i * inject_Z (Z.of_nat (length es)) <= x.2)%Q.
Proof.
  revert e. induction es as [|e2 es IH]; intros e [He Hg] Hl.
  - injection Hl as <-. change (inject_Z (Z.of_nat (length []))) with 0%Q. rewrite Qmult_0_r. lra.
  - specialize (IH e2 Hg Hl). specialize (He e2 eq_refl).
    cbn [length]. rewrite Nat2Z.inj_succ. unfold Z.succ. rewrite inject_Z_plus.
    change (inject_Z 1) with 1%Q. rewrite Qmult_plus_distr_r, Qmult_1_r. lra.
Qed.

Lemma gapped_live i mx es now :
  (0 < i)%Q -> Store.ascending es.*2 -> gapped i es ->
  (forall x, last es = Some x -> (x.2 + i <= now)%Q) ->
  (0 < mx)%Z -> (Z.of_nat (length (live (now - i * inject_Z mx) es)) < mx)%Z.
Proof.
  intros Hi Ha Hg Hl Hmx. destruct (live_suffix (now - i * inject_Z mx) es Ha) as (d & Heq & _).
  destruct (live (now - i * inject_Z mx) es) as [|e l] eqn:Hlive; [simpl; lia|].
  assert (e ∈ live (now - i * inject_Z mx) es) as [He%qlt_spec _]%list_elem_of_filter
    by (rewrite Hlive; left).
  destruct (last (e :: l)) as [x|] eqn:Hx; [|by apply last_None in Hx].
  pose proof Hg as Hg'. rewrite Heq in Hg'. apply gapped_app_r in Hg'.
  pose proof (gapped_span i e l x Hg' Hx) as Hspan.
  assert (x.2 + i <= now)%Q as Hlast.
  { apply Hl. rewrite Heq, last_app, Hx. done. }
  assert (i * inject_Z (Z.of_nat (length (e :: l))) < i * inject_Z mx)%Q as Hlt.
  { cbn [length]. rewrite Nat2Z.inj_succ. unfold Z.succ. rewrite inject_Z_plus.
    change (inject_Z 1) with 1%Q. rewrite Qmult_plus_distr_r, Qmult_1_r. lra. }
  apply Qmult_lt_l in Hlt; [|done]. by rewrite <-Zlt_Qlt in Hlt.
Qed.

(** ** Properties *)

(** Over any sequence of takes and releases the limiter answers as if it
    kept every admission forever: it mints a fresh handle exactly when fewer
    than [max_events] unreleased admissions of the key lie in the window, and a
    release gives back exactly the slot its handle names. *)
Theorem limiter_refines_outstanding max_events w l n os :
  new_limiter max_events w = Ok l -> monotone n os ->
  run l os = spec_run max_events w 0 (fun _ => []) os.
Proof.
  unfold new_limiter. intros Hl Hmono. split_hyp Hl.
  pose proof (limiter_run_ok os _ (fun _ => []) n (empty_inv max_events w n) Hmono) as Hrun. exact Hrun.
Qed.

(** The failures of a revalidation loop: one take per tick, ticks at least an
    interval apart. *)
Fixpoint spaced (interval : Q) (n : Q) (ticks : list Q) : Prop :=
  match ticks with
  | [] => True
  | t :: ticks => (n + interval <= t)%Q /\ spaced interval t ticks
  end.

Lemma spaced_run_admits i mx key ticks next (out : Outstanding) n :
  (0 < i)%Q -> (0 < mx)%Z -> Store.ascending (out key).*2 -> gapped i (out key) ->
  (forall x, x ∈ out key -> (x.2 <= n)%Q) -> spaced i n ticks ->
  forall r, r ∈ spec_run mx (i * inject_Z mx) next out (Take key <$> ticks) -> r <> Some None.
Proof.
  intros Hi Hmx. revert next out n. induction ticks as [|t ticks IH];
    intros next out n Ha Hg Hp Hs r; [by intros ?%not_elem_of_nil|].
  destruct Hs as [Ht Hs]. rewrite fmap_cons. cbn [spec_run spec_step].
  assert (Hlast : forall x, last (out key) = Some x -> (x.2 + i <= t)%Q).
  { intros x Hx%last_Some_elem_of. specialize (Hp x Hx). lra. }
  pose proof (gapped_live i mx (out key) t Hi Ha Hg Hlast Hmx) as Hlt.
  destruct (Z.leb_spec mx (Z.of_nat (length (live (t - i * inject_Z mx) (out key))))); [lia|].
  cbn [fst snd]. intros [->|Hr]%elem_of_cons; [done|]. revert r Hr.
  apply (IH _ _ t); rewrite ?decide_True by done.
  - rewrite fmap_app. apply Store.ascending_snoc; [done|].
    intros q (e & -> & He)%list_elem_of_fmap. specialize (Hp e He). simpl. lra.
  - by apply gapped_snoc.
  - intros x [Hx| ->%list_elem_of_singleton]%elem_of_app; [specialize (Hp x Hx); lra|simpl; lra].
  - done.
Qed.

Lemma spaced_monotone i key n ticks : (0 < i)%Q -> spaced i n ticks -> monotone n (Take key <$> ticks).
Proof.
  intros Hi. revert n. induction ticks as [|t ticks IH]; intros n; [done|].
  intros [Ht Hs]. split; [lra|]. by apply IH.
Qed.

(** The clamped revalidation limiter never saturates: when the nominal
    window is no longer than [max_failures] ticks, a loop whose every tick fails
    has every one of its failures admitted, for ever. *)
Theorem revalidation_never_saturates mx window interval l key n ticks :
  build_revalidation_limiter mx window interval = Ok l ->
  (0 < interval)%Q -> (window <= interval * inject_Z mx)%Q -> spaced interval n ticks ->
  forall r, r ∈ run l (Take key <$> ticks) -> r <> Some None.
Proof.
  unfold build_revalidation_limiter, new_limiter. intros Hl Hi Hw Hs. split_hyp Hl.
  assert (qmax window (interval * inject_Z mx) = interval * inject_Z mx)%Q as Hq.
  { unfold qmax. by rewrite (proj2 (Qle_bool_iff _ _) Hw). }
  rewrite Hq in *.
  pose proof (limiter_run_ok (Take key <$> ticks) _ (fun _ => []) n
    (empty_inv mx (interval * inject_Z mx) n) (spaced_monotone _ key _ _ Hi Hs)) as ->.
  apply (spaced_run_admits interval mx key ticks 0 (fun _ => []) n); simpl;
    [done|lia|constructor|done|set_solver|done].
Qed.

(** The deployed values: five failures, a nominal minute, a check every ten
    minutes. *)
Example outage_never_closes :
  match build_revalidation_limiter 5 60 600 with
  | Ok l => run l (Take "u" <$> [600; 1200; 1800; 2400; 3000; 3600; 4200; 4800; 5400; 6000]%Q)
  | Err _ => []
  end = [Some (Some 0); Some (Some 1); Some (Some 2); Some (Some 3); Some (Some 4);
         Some (Some 5); Some (Some 6); Some (Some 7); Some (Some 8); Some (Some 9)]%nat.
Proof. vm_compute. reflexivity. Qed.

(** A nominal window past the ticks does saturate. *)
Example wide_window_closes :
  match build_revalidation_limiter 2 10000 600 with
  | Ok l => run l (Take "u" <$> [600; 1200; 1800]%Q)
  | Err _ => []
  end = [Some (Some 0); Some (Some 1); Some None]%nat.
Proof. vm_compute. reflexivity. Qed.

Lemma limiter_refines_outstanding_witness :
  exists l, new_limiter 2 10 = Ok l /\
    run l [Take "a" 0; Take "a" 1; Take "a" 2; Release "a" 0; Take "a" 3] =
    spec_run 2 10 0 (fun _ => [])
      [Take "a" 0; Take "a" 1; Take "a" 2; Release "a" 0; Take "a" 3].
Proof.
  eexists. split; [reflexivity|].
  apply (limiter_refines_outstanding 2 10 _ 0); [reflexivity|].
  split; [|split; [|split; [|split; [|exact I]]]]; apply Qle_bool_iff; vm_compute; reflexivity.
Defined.

Lemma revalidation_never_saturates_witness :
  exists l, build_revalidation_limiter 5 60 600 = Ok l /\
    forall r, r ∈ run l (Take "u" <$> [600; 1200; 1800; 2400; 3000; 3600]%Q) -> r <> Some None.
Proof.
  eexists. split; [reflexivity|].
  apply (revalidation_never_saturates 5 60 600 _ "u" 0); [reflexivity|reflexivity| |].
  - apply Qle_bool_iff. vm_compute. reflexivity.
  - repeat split; apply Qle_bool_iff; vm_compute; reflexivity.
Defined.
End Events.
