(* ===== verification/Inflight.v ===== *)
(** * Inflight

    [api/rate_limits/in_memory_inflight.py]: the per-operation permit counter
    and the keyed locks that protect it, as an interleaving of tasks.

    A task moves one program point at a time; between two of its points any
    other task may move, so every suspension point of the code is covered, and
    more. A section under the meta-lock holds no [await] and is one step. The
    read and the write of a counter are separate steps: only the key's lock
    keeps other tasks out in between. A task that waits for the lock to acquire
    may be cancelled; cancellation of a task that waits to release is not
    modelled, and neither is [close], which a shutdown calls. A task is the life
    of one permit: a coroutine that enters two [acquire] contexts is two
    tasks. *)

From stdpp Require Import gmap strings list sorting relations.
From Stdlib Require Import ZArith Lia.
From S2P Require Import Prelude.
Local Open Scope Z_scope.

Definition _GC_EVERY_N_ACQUIRES : nat := 1024.

Definition task := nat.
Definition lock := nat.

(** The call a task is in: [_acquire_or_raise] with its limit, or [_release]. *)
Inductive Call := Acquire (max_inflight : Z) | Release.

(** Program points. [ok] says whether the call's body went through; for an
    acquire, whether the permit was granted. *)
Inductive Pc :=
| Idle
| WantLock (c : Call) (key : string) (l : lock)
| Locked (c : Call) (key : string) (l : lock)
| HasRead (c : Call) (key : string) (l : lock) (current : Z)
| Wrote (c : Call) (key : string) (l : lock) (ok : bool)
| Unlocked (c : Call) (key : string) (l : lock) (ok : bool)
| Sweeping (max_inflight : Z) (key : string) (l : lock)
| Bumped (max_inflight : Z) (key : string) (l : lock)
| Holding (max_inflight : Z) (key : string).

(** The store's fields, the lock objects' state and the tasks. A lock object
    is a number never used before; [held] says which task is inside it. *)
Record Store := {
  _counters : gmap string Z;
  _locks : gmap string lock;
  _lock_refs : gmap string Z;
  _acquires_since_gc : nat;
  next_lock : lock;
  held : gmap lock task;
  pcs : gmap task Pc;
}.

Definition new_store : Store := {|
  _counters := ∅; _locks := ∅; _lock_refs := ∅; _acquires_since_gc := 0%nat;
  next_lock := 0%nat; held := ∅; pcs := ∅ |}.

Definition pc_of (s : Store) (t : task) : Pc := default Idle (pcs s !! t).

Definition goto (s : Store) (t : task) (pc : Pc) : Store := {|
  _counters := _counters s; _locks := _locks s; _lock_refs := _lock_refs s;
  _acquires_since_gc := _acquires_since_gc s; next_lock := next_lock s; held := held s;
  pcs := <[t := pc]> (pcs s) |}.

(** ** The store's sections *)

Definition _get_lock (s : Store) (key : string) : lock * Store :=
  let l := default (next_lock s) (_locks s !! key) in
  (l, {| _counters := _counters s; _locks := <[key := l]> (_locks s);
         _lock_refs := <[key := default 0 (_lock_refs s !! key) + 1]> (_lock_refs s);
         _acquires_since_gc := _acquires_since_gc s;
         next_lock := match _locks s !! key with Some _ => next_lock s | None => S (next_lock s) end;
         held := held s; pcs := pcs s |}).

Definition _release_lock_ref (s : Store) (key : string) : Store :=
  let count := default 0 (_lock_refs s !! key) - 1 in
  {| _counters := _counters s; _locks := _locks s;
     _lock_refs := if count <=? 0 then delete key (_lock_refs s)
                   else <[key := count]> (_lock_refs s);
     _acquires_since_gc := _acquires_since_gc s; next_lock := next_lock s; held := held s;
     pcs := pcs s |}.

(** [lock.locked()] is false and nobody references the key. *)
Definition idle_lock (s : Store) (key : string) (l : lock) : bool :=
  bool_decide (held s !! l = None) && (default 0 (_lock_refs s !! key) =? 0).

Definition dead (s : Store) (key : string) (count : Z) : bool :=
  (count <=? 0) &&
  match _locks s !! key with Some l => bool_decide (held s !! l = None) | None => true end &&
  (default 0 (_lock_refs s !! key) =? 0).

Definition _gc_cold_buckets (s : Store) : Store :=
  let is_dead k := match _counters s !! k with Some c => dead s k c | None => false end in
  let counters := filter (fun kc => dead s kc.1 kc.2 = false) (_counters s) in
  let locks1 := filter (fun kl => is_dead kl.1 && idle_lock s kl.1 kl.2 = false) (_locks s) in
  let locks2 := filter (fun kl =>
    bool_decide (counters !! kl.1 = None) && idle_lock s kl.1 kl.2 = false) locks1 in
  {| _counters := counters; _locks := locks2; _lock_refs := _lock_refs s;
     _acquires_since_gc := _acquires_since_gc s; next_lock := next_lock s; held := held s;
     pcs := pcs s |}.

Definition bump (s : Store) : bool * Store :=
  let n := S (_acquires_since_gc s) in
  let due := (_GC_EVERY_N_ACQUIRES <=? n)%nat in
  (due, {| _counters := _counters s; _locks := _locks s; _lock_refs := _lock_refs s;
           _acquires_since_gc := if due then 0%nat else n; next_lock := next_lock s;
           held := held s; pcs := pcs s |}).

Definition set_held (s : Store) (h : gmap lock task) : Store := {|
  _counters := _counters s; _locks := _locks s; _lock_refs := _lock_refs s;
  _acquires_since_gc := _acquires_since_gc s; next_lock := next_lock s; held := h; pcs := pcs s |}.

Definition set_counter (s : Store) (key : string) (n : Z) : Store := {|
  _counters := <[key := n]> (_counters s); _locks := _locks s; _lock_refs := _lock_refs s;
  _acquires_since_gc := _acquires_since_gc s; next_lock := next_lock s; held := held s;
  pcs := pcs s |}.

(** The decision on the value read: whether the body goes through, and the
    store after it. *)
Definition write (s : Store) (c : Call) (key : string) (current : Z) : bool * Store :=
  match c with
  | Acquire max_inflight =>
      if max_inflight <=? current then (false, s)
      else (true, set_counter s key (current + 1))
  | Release =>
      if current <=? 0 then (false, set_counter s key 0)
      else (true, set_counter s key (current - 1))
  end.

(** ** Steps

    [limit] is the permit limit of each operation. *)
Section Steps.
Variable limit : string -> Z.

Inductive step (s : Store) (t : task) : Store -> Prop :=
| step_acquire key :
    pc_of s t = Idle -> 0 < limit key ->
    step s t (goto (_get_lock s key).2 t (WantLock (Acquire (limit key)) key (_get_lock s key).1))
| step_release m key :
    pc_of s t = Holding m key ->
    step s t (goto (_get_lock s key).2 t (WantLock Release key (_get_lock s key).1))
| step_lock c key l :
    pc_of s t = WantLock c key l -> held s !! l = None ->
    step s t (goto (set_held s (<[l := t]> (held s))) t (Locked c key l))
| step_cancel m key l :
    pc_of s t = WantLock (Acquire m) key l ->
    step s t (goto s t (Unlocked (Acquire m) key l false))
| step_read c key l :
    pc_of s t = Locked c key l ->
    step s t (goto s t (HasRead c key l (default 0 (_counters s !! key))))
| step_write c key l current :
    pc_of s t = HasRead c key l current ->
    step s t (goto (write s c key current).2 t (Wrote c key l (write s c key current).1))
| step_unlock c key l ok :
    pc_of s t = Wrote c key l ok ->
    step s t (goto (set_held s (delete l (held s))) t (Unlocked c key l ok))
| step_bump m key l :
    pc_of s t = Unlocked (Acquire m) key l true ->
    step s t (goto (bump s).2 t
      (if (bump s).1 then Sweeping m key l else Bumped m key l))
| step_sweep m key l :
    pc_of s t = Sweeping m key l ->
    step s t (goto (_gc_cold_buckets s) t (Bumped m key l))
| step_granted m key l :
    pc_of s t = Bumped m key l ->
    step s t (goto (_release_lock_ref s key) t (Holding m key))
| step_refused m key l :
    pc_of s t = Unlocked (Acquire m) key l false ->
    step s t (goto (_release_lock_ref s key) t Idle)
| step_released key l ok :
    pc_of s t = Unlocked Release key l ok ->
    step s t (goto (_release_lock_ref s key) t Idle).

(** Any tasks, any interleaving. *)
Inductive reachable : Store -> Prop :=
| reachable_new : reachable new_store
| reachable_step s t s' : reachable s -> step s t s' -> reachable s'.
End Steps.

(** ** What a program point stands for *)

(** The key and lock object a task references, between [_get_lock] and
    [_release_lock_ref]. *)
Definition referencing (pc : Pc) : option (string * lock) :=
  match pc with
  | Idle | Holding _ _ => None
  | WantLock _ k l | Locked _ k l | HasRead _ k l _ | Wrote _ k l _ | Unlocked _ k l _
  | Sweeping _ k l | Bumped _ k l => Some (k, l)
  end.

(** The lock object a task is inside. *)
Definition inside (pc : Pc) : option (string * lock) :=
  match pc with
  | Locked _ k l | HasRead _ k l _ | Wrote _ k l _ => Some (k, l)
  | _ => None
  end.

(** The key a task holds a permit of: counted in, not yet counted out. *)
Definition permit (pc : Pc) : option string :=
  match pc with
  | Wrote (Acquire _) k _ true | Unlocked (Acquire _) k _ true
  | Sweeping _ k _ | Bumped _ k _ | Holding _ k
  | WantLock Release k _ | Locked Release k _ | HasRead Release k _ _ => Some k
  | _ => None
  end.

Definition refs_key (k : string) (pc : Pc) : bool := bool_decide (fst <$> referencing pc = Some k).
Definition permit_key (k : string) (pc : Pc) : bool := bool_decide (permit pc = Some k).

(** The number of tasks at a point that satisfies [p]. *)
Definition num (p : Pc -> bool) (m : gmap task Pc) : nat :=
  size (filter (fun tp => p tp.2 = true) m).

Lemma num_set p m t pc :
  p Idle = false ->
  (num p (<[t := pc]> m) + Nat.b2n (p (default Idle (m !! t))) = num p m + Nat.b2n (p pc))%nat.
Proof.
  intros Hidle. unfold num.
  assert (Hdel : forall m' : gmap task Pc, m' !! t = None ->
    size (filter (fun tp => p tp.2 = true) (<[t := pc]> m')) =
    (size (filter (fun tp => p tp.2 = true) m') + Nat.b2n (p pc))%nat).
  { intros m' Hm'. destruct (p pc) eqn:Hp; simpl.
    - rewrite map_filter_insert_True by done. rewrite map_size_insert_None; [lia|].
      apply map_lookup_filter_None. by left.
    - rewrite map_filter_insert_False by (simpl; congruence).
      rewrite delete_id by done. lia. }
  destruct (m !! t) as [old|] eqn:Hm; simpl.
  - rewrite <-(insert_delete_eq m t pc), Hdel by by rewrite lookup_delete_eq.
    rewrite <-(insert_delete_id m t old Hm) at 2.
    assert (Hold : size (filter (fun tp => p tp.2 = true) (<[t := old]> (delete t m))) =
      (size (filter (fun tp => p tp.2 = true) (delete t m)) + Nat.b2n (p old))%nat).
    { destruct (p old) eqn:Hp; simpl.
      - rewrite map_filter_insert_True by done. rewrite map_size_insert_None; [lia|].
        apply map_lookup_filter_None. left. by rewrite lookup_delete_eq.
      - rewrite map_filter_insert_False by (simpl; congruence).
        rewrite delete_id by by rewrite lookup_delete_eq. lia. }
    rewrite Hold. lia.
  - rewrite Hidle, Hdel by done. simpl. lia.
Qed.

Lemma num_pos p m t pc : m !! t = Some pc -> p pc = true -> (0 < num p m)%nat.
Proof.
  intros Hm Hp. unfold num. apply Nat.neq_0_lt_0. intros Hz%map_size_empty_inv.
  assert (filter (fun tp => p tp.2 = true) m !! t = Some pc) as Hf
    by by apply map_lookup_filter_Some.
  rewrite Hz in Hf. by rewrite lookup_empty in Hf.
Qed.

Lemma num_zero p m : p Idle = false -> num p m = 0%nat <-> forall t, p (default Idle (m !! t)) = false.
Proof.
  intros Hidle. split.
  - intros Hz t. destruct (m !! t) as [pc|] eqn:Hm; [|done]. simpl.
    destruct (p pc) eqn:Hp; [|done]. pose proof (num_pos p m t pc Hm Hp). lia.
  - intros Hall. unfold num. apply map_size_empty_iff, map_empty. intros t.
    apply map_lookup_filter_None. destruct (m !! t) as [pc|] eqn:Hm; [right|by left].
    intros pc' [= <-]. specialize (Hall t). rewrite Hm in Hall. simpl in *. congruence.
Qed.

Lemma pc_of_goto s t pc t' : pc_of (goto s t pc) t' = if decide (t = t') then pc else pc_of s t'.
Proof.
  unfold pc_of, goto. simpl. case_decide as Ht; subst.
  - by rewrite lookup_insert_eq.
  - by rewrite lookup_insert_ne.
Qed.

(** ** The invariant *)

(** The permit limit an acquire was called with. *)
Definition asked (pc : Pc) : option (string * Z) :=
  match pc with
  | WantLock (Acquire m) k _ | Locked (Acquire m) k _ | HasRead (Acquire m) k _ _
  | Wrote (Acquire m) k _ _ | Unlocked (Acquire m) k _ _ => Some (k, m)
  | _ => None
  end.

Section Inv.
Variable limit : string -> Z.

Definition counter (s : Store) (k : string) : Z := default 0 (_counters s !! k).

Record inv (s : Store) : Prop := {
  (* [_lock_refs] counts the tasks between [_get_lock] and [_release_lock_ref] *)
  inv_refs k : _lock_refs s !! k =
    let n := num (refs_key k) (pcs s) in
    if decide (n = 0%nat) then None else Some (Z.of_nat n);
  (* a referenced lock stays the key's lock *)
  inv_lock t k l : referencing (pc_of s t) = Some (k, l) -> _locks s !! k = Some l;
  inv_held t l : held s !! l = Some t <-> snd <$> inside (pc_of s t) = Some l;
  inv_counters k : counter s k = Z.of_nat (num (permit_key k) (pcs s));
  inv_read t c k l n : pc_of s t = HasRead c k l n -> n = counter s k;
  inv_asked t k m : asked (pc_of s t) = Some (k, m) -> m = limit k;
  inv_bound k : counter s k <= Z.max 0 (limit k);
}.

Lemma inside_referencing pc kl : inside pc = Some kl -> referencing pc = Some kl.
Proof. by destruct pc. Qed.

(** Two tasks are never inside the same key's section. *)
Lemma inv_exclusive s t t' k l l' :
  inv s -> inside (pc_of s t) = Some (k, l) -> inside (pc_of s t') = Some (k, l') -> t = t'.
Proof.
  intros Hs Ht Ht'.
  pose proof (inv_lock s Hs _ _ _ (inside_referencing _ _ Ht)).
  pose proof (inv_lock s Hs _ _ _ (inside_referencing _ _ Ht')).
  assert (l = l') as <- by congruence.
  pose proof (proj2 (inv_held s Hs t l) (f_equal (fmap snd) Ht)) as H1.
  pose proof (proj2 (inv_held s Hs t' l) (f_equal (fmap snd) Ht')) as H2. congruence.
Qed.

Lemma refs_pos s t k l : referencing (pc_of s t) = Some (k, l) -> (0 < num (refs_key k) (pcs s))%nat.
Proof.
  intros Hr. unfold pc_of in Hr. destruct (pcs s !! t) as [pc|] eqn:Hpc; [|done].
  apply (num_pos _ _ t pc); [done|]. unfold refs_key. simpl in Hr. rewrite Hr.
  by apply bool_decide_eq_true.
Qed.

Lemma refs_zero s k :
  inv s -> (default 0 (_lock_refs s !! k) =? 0) = true ->
  num (refs_key k) (pcs s) = 0%nat.
Proof.
  intros Hs Hz%Z.eqb_eq. rewrite (inv_refs s Hs k) in Hz. cbv zeta in Hz.
  destruct (decide (num (refs_key k) (pcs s) = 0%nat)); [done|]. simpl in Hz. lia.
Qed.

Lemma permit_pos s t k : permit (pc_of s t) = Some k -> (0 < num (permit_key k) (pcs s))%nat.
Proof.
  intros Hr. unfold pc_of in Hr. destruct (pcs s !! t) as [pc|] eqn:Hpc; [|done].
  apply (num_pos _ _ t pc); [done|]. unfold permit_key. simpl in Hr. rewrite Hr.
  by apply bool_decide_eq_true.
Qed.

(** What a move changes of the counts. *)
Lemma num_refs_goto s t pc k :
  (num (refs_key k) (pcs (goto s t pc)) + Nat.b2n (refs_key k (pc_of s t)) =
   num (refs_key k) (pcs s) + Nat.b2n (refs_key k pc))%nat.
Proof. apply num_set. done. Qed.

Lemma num_permit_goto s t pc k :
  (num (permit_key k) (pcs (goto s t pc)) + Nat.b2n (permit_key k (pc_of s t)) =
   num (permit_key k) (pcs s) + Nat.b2n (permit_key k pc))%nat.
Proof. apply num_set. done. Qed.

Lemma num_refs_same s t pc k :
  referencing pc = referencing (pc_of s t) ->
  num (refs_key k) (<[t:=pc]> (pcs s)) = num (refs_key k) (pcs s).
Proof.
  intros Href. pose proof (num_refs_goto s t pc k) as E. simpl in E.
  assert (refs_key k pc = refs_key k (pc_of s t)) as Hk by (unfold refs_key; by rewrite Href).
  rewrite Hk in E. lia.
Qed.

Lemma num_permit_same s t pc k :
  permit pc = permit (pc_of s t) ->
  num (permit_key k) (<[t:=pc]> (pcs s)) = num (permit_key k) (pcs s).
Proof.
  intros Hper. pose proof (num_permit_goto s t pc k) as E. simpl in E.
  assert (permit_key k pc = permit_key k (pc_of s t)) as Hk by (unfold permit_key; by rewrite Hper).
  rewrite Hk in E. lia.
Qed.

Lemma inv_new : inv new_store.
Proof.
  split; try done.
  intros k. change (counter new_store k) with 0. lia.
Qed.

(** A move that leaves the counters, the references, the lock and the permit
    alone. *)
Lemma inv_goto_same s t pc :
  inv s ->
  referencing pc = referencing (pc_of s t) -> inside pc = inside (pc_of s t) ->
  permit pc = permit (pc_of s t) ->
  (forall k m, asked pc = Some (k, m) -> asked (pc_of s t) = Some (k, m)) ->
  (forall c k l n, pc = HasRead c k l n -> n = counter s k) ->
  inv (goto s t pc).
Proof.
  intros Hs Href Hin Hper Hask Hread.
  split.
  - intros k. simpl. rewrite (num_refs_same s t pc k Href). apply (inv_refs s Hs).
  - intros t' k l. rewrite pc_of_goto. case_decide as Ht; subst; [rewrite Href|];
      apply (inv_lock s Hs).
  - intros t' l. rewrite pc_of_goto. case_decide as Ht; subst; [rewrite Hin|];
      apply (inv_held s Hs).
  - intros k. simpl. rewrite (num_permit_same s t pc k Hper). apply (inv_counters s Hs).
  - intros t' c k l n. rewrite pc_of_goto. case_decide as Ht; [apply Hread|apply (inv_read s Hs)].
  - intros t' k m. rewrite pc_of_goto. case_decide as Ht; subst.
    + intros Ha. eapply (inv_asked s Hs), Hask, Ha.
    + apply (inv_asked s Hs).
  - intros k. apply (inv_bound s Hs).
Qed.

(** [_get_lock]: the task starts to reference the key's lock. *)
Lemma inv_get_lock s t c key :
  inv s -> referencing (pc_of s t) = None -> inside (pc_of s t) = None ->
  (forall l, permit (WantLock c key l) = permit (pc_of s t)) ->
  (forall m, c = Acquire m -> m = limit key) ->
  inv (goto (_get_lock s key).2 t (WantLock c key (_get_lock s key).1)).
Proof.
  intros Hs Href Hin Hper Hask. set (l0 := (_get_lock s key).1).
  assert (Hnr : forall k, num (refs_key k) (<[t:=WantLock c key l0]> (pcs s)) =
    (num (refs_key k) (pcs s) + if decide (k = key) then 1 else 0)%nat).
  { intros k. pose proof (num_refs_goto s t (WantLock c key l0) k) as E. simpl in E.
    assert (refs_key k (pc_of s t) = false) as Hf by (unfold refs_key; by rewrite Href).
    assert (refs_key k (WantLock c key l0) = bool_decide (key = k)) as Ht
      by (apply bool_decide_ext; simpl; naive_solver).
    rewrite Hf, Ht in E. destruct (decide (k = key)) as [->|Hne].
    - rewrite bool_decide_eq_true_2 in E by done. simpl in E. lia.
    - rewrite bool_decide_eq_false_2 in E by congruence. simpl in E. lia. }
  assert (Hnp : forall k, num (permit_key k) (<[t:=WantLock c key l0]> (pcs s)) =
    num (permit_key k) (pcs s)) by (intros; by apply num_permit_same).
  split.
  - intros k. simpl. rewrite Hnr.
    destruct (decide (k = key)) as [->|Hne].
    + rewrite lookup_insert_eq, (inv_refs s Hs key). cbv zeta.
      destruct (decide (num (refs_key key) (pcs s) = 0%nat)) as [Hz|Hz]; simpl;
        rewrite decide_False by lia; f_equal; lia.
    + rewrite lookup_insert_ne by done. rewrite Nat.add_0_r. apply (inv_refs s Hs).
  - intros t' k l. rewrite pc_of_goto. simpl. intros Hr.
    assert (_locks s !! k = Some l \/ k = key /\ l = l0) as [Hl|[-> ->]].
    { case_decide as Ht; [right; simpl in Hr; by simplify_eq|left].
      eapply (inv_lock s Hs), Hr. }
    + destruct (decide (k = key)) as [->|Hne].
      * rewrite lookup_insert_eq. by rewrite Hl.
      * by rewrite lookup_insert_ne.
    + by rewrite lookup_insert_eq.
  - intros t' l. rewrite pc_of_goto. simpl.
    case_decide as Ht; subst; [|apply (inv_held s Hs)]. simpl.
    rewrite (inv_held s Hs), Hin. done.
  - intros k. simpl. rewrite Hnp. apply (inv_counters s Hs).
  - intros t' c' k l n. rewrite pc_of_goto. case_decide; [done|]. apply (inv_read s Hs).
  - intros t' k m. rewrite pc_of_goto. case_decide; [|apply (inv_asked s Hs)].
    destruct c; simpl; [|done]. intros ?. simplify_eq. by apply Hask.
  - intros k. apply (inv_bound s Hs).
Qed.

(** [_release_lock_ref]: the task stops referencing the key's lock. *)
Lemma inv_release_ref s t key l pc :
  inv s -> referencing (pc_of s t) = Some (key, l) -> inside (pc_of s t) = None ->
  referencing pc = None -> inside pc = None -> asked pc = None ->
  permit pc = permit (pc_of s t) ->
  inv (goto (_release_lock_ref s key) t pc).
Proof.
  intros Hs Href Hin Href' Hin' Hask' Hper.
  assert (Hnr : forall k, (num (refs_key k) (<[t:=pc]> (pcs s)) +
    (if decide (k = key) then 1 else 0) = num (refs_key k) (pcs s))%nat).
  { intros k. pose proof (num_refs_goto s t pc k) as E. simpl in E.
    assert (refs_key k pc = false) as Hf by (unfold refs_key; by rewrite Href').
    assert (refs_key k (pc_of s t) = bool_decide (key = k)) as Hk.
    { unfold refs_key. rewrite Href. simpl. apply bool_decide_ext. naive_solver. }
    rewrite Hf, Hk in E. destruct (decide (k = key)) as [->|Hne].
    - rewrite bool_decide_eq_true_2 in E by done. simpl in E. lia.
    - rewrite bool_decide_eq_false_2 in E by congruence. simpl in E. lia. }
  assert (Hnp : forall k, num (permit_key k) (<[t:=pc]> (pcs s)) = num (permit_key k) (pcs s))
    by (intros; by apply num_permit_same).
  pose proof (refs_pos s t key l Href) as Hpos.
  split.
  - intros k. simpl. specialize (Hnr k). pose proof (inv_refs s Hs k) as Hk. cbv zeta in Hk.
    destruct (decide (k = key)) as [->|Hne].
    + rewrite decide_False in Hk by lia. rewrite Hk. simpl.
      destruct (_ <=? 0) eqn:Hle; bool_to_prop.
      * rewrite lookup_delete_eq, decide_True by lia. done.
      * rewrite lookup_insert_eq, decide_False by lia. f_equal. lia.
    + rewrite Nat.add_0_r in Hnr. rewrite Hnr, <-Hk.
      destruct (_ <=? 0); [by rewrite lookup_delete_ne|by rewrite lookup_insert_ne].
  - intros t' k l'. rewrite pc_of_goto. simpl.
    case_decide; [by rewrite Href'|apply (inv_lock s Hs)].
  - intros t' l'. rewrite pc_of_goto. simpl.
    case_decide; subst; [|apply (inv_held s Hs)]. by rewrite (inv_held s Hs), Hin, Hin'.
  - intros k. simpl. rewrite Hnp. apply (inv_counters s Hs).
  - intros t' c' k l' n. rewrite pc_of_goto.
    case_decide; [by intros ->|]. apply (inv_read s Hs).
  - intros t' k m. rewrite pc_of_goto. case_decide; [by rewrite Hask'|apply (inv_asked s Hs)].
  - intros k. apply (inv_bound s Hs).
Qed.

(** Entering and leaving the key's lock. *)
Lemma inv_enter s t c key l :
  inv s -> pc_of s t = WantLock c key l -> held s !! l = None ->
  inv (goto (set_held s (<[l := t]> (held s))) t (Locked c key l)).
Proof.
  intros Hs Hpc Hfree.
  assert (Hnr : forall k, num (refs_key k) (<[t:=Locked c key l]> (pcs s)) =
    num (refs_key k) (pcs s)) by (intros; apply num_refs_same; by rewrite Hpc).
  assert (Hnp : forall k, num (permit_key k) (<[t:=Locked c key l]> (pcs s)) =
    num (permit_key k) (pcs s)) by (intros; apply num_permit_same; rewrite Hpc; by destruct c).
  split.
  - intros k. simpl. rewrite Hnr. apply (inv_refs s Hs).
  - intros t' k l'. rewrite pc_of_goto. case_decide; simpl; [|apply (inv_lock s Hs)].
    intros ?. simplify_eq. eapply (inv_lock s Hs). by rewrite Hpc.
  - intros t' l'. rewrite pc_of_goto. simpl. change (pc_of (set_held s _)) with (pc_of s).
    destruct (decide (l = l')) as [<-|Hl].
    + rewrite lookup_insert_eq. case_decide as Ht; simpl; [naive_solver|].
      rewrite <-(inv_held s Hs), Hfree. naive_solver.
    + rewrite lookup_insert_ne by done. rewrite (inv_held s Hs).
      case_decide as Ht; subst; [|done].
      rewrite Hpc. simpl. naive_solver.
  - intros k. simpl. rewrite Hnp. apply (inv_counters s Hs).
  - intros t' c' k l' n. rewrite pc_of_goto. case_decide; [done|]. apply (inv_read s Hs).
  - intros t' k m. rewrite pc_of_goto. case_decide; [|apply (inv_asked s Hs)].
    intros Ha. eapply (inv_asked s Hs t). rewrite Hpc. by destruct c.
  - intros k. apply (inv_bound s Hs).
Qed.

Lemma inv_leave s t c key l ok :
  inv s -> pc_of s t = Wrote c key l ok ->
  inv (goto (set_held s (delete l (held s))) t (Unlocked c key l ok)).
Proof.
  intros Hs Hpc.
  assert (Hnr : forall k, num (refs_key k) (<[t:=Unlocked c key l ok]> (pcs s)) =
    num (refs_key k) (pcs s)) by (intros; apply num_refs_same; by rewrite Hpc).
  assert (Hnp : forall k, num (permit_key k) (<[t:=Unlocked c key l ok]> (pcs s)) =
    num (permit_key k) (pcs s)) by (intros; apply num_permit_same; rewrite Hpc; by destruct c).
  assert (Hheld : held s !! l = Some t) by (apply (inv_held s Hs); by rewrite Hpc).
  split.
  - intros k. simpl. rewrite Hnr. apply (inv_refs s Hs).
  - intros t' k l'. rewrite pc_of_goto. case_decide; simpl; [|apply (inv_lock s Hs)].
    intros ?. simplify_eq. eapply (inv_lock s Hs). by rewrite Hpc.
  - intros t' l'. rewrite pc_of_goto. simpl. change (pc_of (set_held s _)) with (pc_of s).
    destruct (decide (l = l')) as [<-|Hl].
    + rewrite lookup_delete_eq. case_decide as Ht; simpl; [naive_solver|].
      rewrite <-(inv_held s Hs), Hheld. naive_solver.
    + rewrite lookup_delete_ne by done. rewrite (inv_held s Hs).
      case_decide as Ht; subst; [|done]. rewrite Hpc. simpl. naive_solver.
  - intros k. simpl. rewrite Hnp. apply (inv_counters s Hs).
  - intros t' c' k l' n. rewrite pc_of_goto. case_decide; [done|]. apply (inv_read s Hs).
  - intros t' k m. rewrite pc_of_goto. case_decide; [|apply (inv_asked s Hs)].
    intros Ha. eapply (inv_asked s Hs t). rewrite Hpc. by destruct c.
  - intros k. apply (inv_bound s Hs).
Qed.

(** The write. The value read is still the counter, by exclusion; a refusal
    leaves the store alone, and a release always finds a permit to return. *)
Lemma write_delta s t c key l n :
  inv s -> pc_of s t = HasRead c key l n ->
  match c with
  | Acquire m => write s c key n =
      if m <=? counter s key then (false, s) else (true, set_counter s key (counter s key + 1))
  | Release => write s c key n = (true, set_counter s key (counter s key - 1)) /\ 0 < counter s key
  end.
Proof.
  intros Hs Hpc. rewrite (inv_read s Hs t c key l n Hpc). destruct c as [m|]; [done|].
  assert (0 < counter s key) as Hpos.
  { rewrite (inv_counters s Hs). pose proof (permit_pos s t key) as Hp.
    rewrite Hpc in Hp. specialize (Hp eq_refl). lia. }
  simpl. destruct (_ <=? 0) eqn:Hle; bool_to_prop; [lia|done].
Qed.

Lemma inv_set_counter s t c key l n v :
  inv s -> pc_of s t = HasRead c key l n ->
  v = Z.of_nat (num (permit_key key) (<[t := Wrote c key l true]> (pcs s))) ->
  v <= Z.max 0 (limit key) ->
  inv (goto (set_counter s key v) t (Wrote c key l true)).
Proof.
  intros Hs Hpc Hv Hb.
  assert (Hother : forall k, k <> key ->
    num (permit_key k) (<[t := Wrote c key l true]> (pcs s)) = num (permit_key k) (pcs s)).
  { intros k Hk. pose proof (num_permit_goto s t (Wrote c key l true) k) as E. simpl in E.
    assert (permit_key k (Wrote c key l true) = permit_key k (pc_of s t)) as Hp.
    { unfold permit_key. rewrite Hpc. destruct c; apply bool_decide_ext; simpl; naive_solver. }
    rewrite Hp in E. lia. }
  split.
  - intros k. simpl. rewrite num_refs_same by by rewrite Hpc. apply (inv_refs s Hs).
  - intros t' k l'. rewrite pc_of_goto. case_decide; simpl; [|apply (inv_lock s Hs)].
    intros ?. simplify_eq. eapply (inv_lock s Hs). by rewrite Hpc.
  - intros t' l'. rewrite pc_of_goto. simpl. case_decide; subst; [|apply (inv_held s Hs)].
    rewrite (inv_held s Hs), Hpc. done.
  - intros k. unfold counter. simpl. destruct (decide (k = key)) as [->|Hne].
    + by rewrite lookup_insert_eq.
    + rewrite lookup_insert_ne, Hother by done. apply (inv_counters s Hs).
  - intros t' c' k l' n'. rewrite pc_of_goto. case_decide as Ht; [done|].
    change (pc_of (set_counter s key v)) with (pc_of s). intros Hpc'.
    unfold counter. simpl. rewrite lookup_insert_ne; [by apply (inv_read s Hs t' c' k l')|].
    intros <-. apply Ht. eapply (inv_exclusive s t t' key); [done|by rewrite Hpc|by rewrite Hpc'].
  - intros t' k m. rewrite pc_of_goto. case_decide; [|apply (inv_asked s Hs)].
    intros Ha. eapply (inv_asked s Hs t). rewrite Hpc. by destruct c.
  - intros k. unfold counter. simpl. destruct (decide (k = key)) as [->|Hne].
    + by rewrite lookup_insert_eq.
    + rewrite lookup_insert_ne by done. apply (inv_bound s Hs).
Qed.

Lemma inv_write s t c key l n :
  inv s -> pc_of s t = HasRead c key l n ->
  inv (goto (write s c key n).2 t (Wrote c key l (write s c key n).1)).
Proof.
  intros Hs Hpc. pose proof (write_delta s t c key l n Hs Hpc) as Hw.
  pose proof (num_permit_goto s t (Wrote c key l true) key) as E. rewrite Hpc in E. simpl in E.
  pose proof (inv_counters s Hs key) as Hc. pose proof (inv_bound s Hs key) as Hb.
  destruct c as [m|].
  - pose proof (inv_asked s Hs t key m) as Hm. rewrite Hpc in Hm. specialize (Hm eq_refl).
    rewrite Hw. destruct (m <=? _) eqn:Hle; bool_to_prop; cbn [fst snd].
    + by apply inv_goto_same; rewrite ?Hpc.
    + eapply inv_set_counter; [done|done| |lia].
      assert (permit_key key (HasRead (Acquire m) key l n) = false) as H0 by done.
      assert (permit_key key (Wrote (Acquire m) key l true) = true) as H1
        by by apply bool_decide_eq_true.
      rewrite H0, H1 in E. simpl in E. lia.
  - destruct Hw as [-> Hpos]. cbn [fst snd].
    eapply inv_set_counter; [done|done| |lia].
    assert (permit_key key (HasRead Release key l n) = true) as H0
      by by apply bool_decide_eq_true.
    assert (permit_key key (Wrote Release key l true) = false) as H1 by done.
    rewrite H0, H1 in E. simpl in E. lia.
Qed.

(** The sweep drops only what nobody references: every counter reads the same,
    and every referenced lock stays. *)
Lemma gc_counter s k : inv s -> counter (_gc_cold_buckets s) k = counter s k.
Proof.
  intros Hs. unfold counter, _gc_cold_buckets. cbn [_counters].
  pose proof (inv_counters s Hs k) as Hc. unfold counter in Hc.
  destruct (_counters s !! k) as [n|] eqn:Hk; simpl in *.
  - destruct (dead s k n) eqn:Hd.
    + assert (filter (fun kc : string * Z => dead s kc.1 kc.2 = false) (_counters s) !! k = None)
        as ->.
      { apply map_lookup_filter_None. right. intros n' Hn'. simpl. congruence. }
      unfold dead in Hd. bool_to_prop. simpl. lia.
    + by rewrite (proj2 (map_lookup_filter_Some _ (_counters s) k n) (conj Hk Hd)).
  - assert (filter (fun kc : string * Z => dead s kc.1 kc.2 = false) (_counters s) !! k = None)
      as ->; [|done].
    apply map_lookup_filter_None. by left.
Qed.

Lemma gc_lock s k l :
  inv s -> _locks s !! k = Some l -> (0 < num (refs_key k) (pcs s))%nat ->
  _locks (_gc_cold_buckets s) !! k = Some l.
Proof.
  intros Hs Hl Hpos.
  assert (idle_lock s k l = false) as Hi.
  { unfold idle_lock. apply andb_false_iff. right. apply not_true_is_false.
    intros Hz%(refs_zero s k Hs). lia. }
  unfold _gc_cold_buckets. cbn [_locks]. apply map_lookup_filter_Some.
  rewrite map_lookup_filter_Some. simpl. rewrite Hi, !andb_false_r. done.
Qed.

Lemma inv_gc s : inv s -> inv (_gc_cold_buckets s).
Proof.
  intros Hs. split.
  - apply (inv_refs s Hs).
  - intros t k l Hr. eapply gc_lock; [done| |by eapply refs_pos]. by eapply (inv_lock s Hs).
  - apply (inv_held s Hs).
  - intros k. rewrite gc_counter by done. apply (inv_counters s Hs).
  - intros t c k l n Hpc. rewrite gc_counter by done. by eapply (inv_read s Hs).
  - apply (inv_asked s Hs).
  - intros k. rewrite gc_counter by done. apply (inv_bound s Hs).
Qed.

Lemma inv_bump s : inv s -> inv (bump s).2.
Proof. intros [H1 H2 H3 H4 H5 H6 H7]. by split. Qed.

Lemma inv_step s t s' : inv s -> step limit s t s' -> inv s'.
Proof.
  intros Hs Hst. inversion Hst as [key Hpc|m key Hpc|c key l Hpc Hfree|m key l Hpc|c key l Hpc
    |c key l n Hpc|c key l ok Hpc|m key l Hpc|m key l Hpc|m key l Hpc|m key l Hpc|key l ok Hpc];
    subst.
  - apply inv_get_lock; rewrite ?Hpc; try done. by intros ? [= ->].
  - by apply inv_get_lock; rewrite ?Hpc.
  - by apply inv_enter.
  - by apply inv_goto_same; rewrite ?Hpc.
  - apply inv_goto_same; rewrite ?Hpc; try done; try (by destruct c).
    by intros ???? [= <- <- <- <-].
  - by apply (inv_write s t c key l).
  - by apply inv_leave.
  - apply inv_goto_same; [by apply inv_bump| | | | |];
      change (pc_of (bump s).2) with (pc_of s); rewrite ?Hpc; by destruct (bump s).1.
  - apply inv_goto_same; [by apply inv_gc| | | | |];
      change (pc_of (_gc_cold_buckets s)) with (pc_of s); by rewrite ?Hpc.
  - by apply (inv_release_ref s t key l); rewrite ?Hpc.
  - by apply (inv_release_ref s t key l); rewrite ?Hpc.
  - by apply (inv_release_ref s t key l); rewrite ?Hpc; destruct ok.
Qed.

Lemma reachable_inv s : reachable limit s -> inv s.
Proof. induction 1; [apply inv_new|by eapply inv_step]. Qed.
End Inv.

(** ** Running a schedule

    The move a task makes next; an idle task calls [acquire] on [key], a task
    that holds a permit releases it, and no task gives up waiting. *)
Section Run.
Variable limit : string -> Z.

Definition advance (s : Store) (t : task) (key : string) : option Store :=
  match pc_of s t with
  | Idle =>
      if 0 <? limit key
      then Some (goto (_get_lock s key).2 t (WantLock (Acquire (limit key)) key (_get_lock s key).1))
      else None
  | Holding m k => Some (goto (_get_lock s k).2 t (WantLock Release k (_get_lock s k).1))
  | WantLock c k l =>
      match held s !! l with
      | None => Some (goto (set_held s (<[l := t]> (held s))) t (Locked c k l))
      | Some _ => None
      end
  | Locked c k l => Some (goto s t (HasRead c k l (default 0 (_counters s !! k))))
  | HasRead c k l n => Some (goto (write s c k n).2 t (Wrote c k l (write s c k n).1))
  | Wrote c k l ok => Some (goto (set_held s (delete l (held s))) t (Unlocked c k l ok))
  | Unlocked (Acquire m) k l true =>
      Some (goto (bump s).2 t (if (bump s).1 then Sweeping m k l else Bumped m k l))
  | Sweeping m k l => Some (goto (_gc_cold_buckets s) t (Bumped m k l))
  | Bumped m k l => Some (goto (_release_lock_ref s k) t (Holding m k))
  | Unlocked _ k l _ => Some (goto (_release_lock_ref s k) t Idle)
  end.

Lemma advance_step s t key s' : advance s t key = Some s' -> step limit s t s'.
Proof.
  unfold advance. destruct (pc_of s t) as [|c k l|c k l|c k l n|c k l ok|c k l ok|m k l|m k l|m k]
    eqn:Hpc; try destruct c as [m'|]; try destruct ok; intros H;
    try (destruct (0 <? limit key) eqn:Hpos; [bool_to_prop|discriminate H]);
    try (destruct (held s !! l) eqn:Hfree; [discriminate H|]);
    apply (inj Some) in H as <-; by econstructor.
Qed.

Fixpoint play (sched : list (task * string)) (s : Store) : option Store :=
  match sched with
  | [] => Some s
  | (t, key) :: sched => match advance s t key with Some s => play sched s | None => None end
  end.

Lemma play_reachable sched s s' : reachable limit s -> play sched s = Some s' -> reachable limit s'.
Proof.
  revert s. induction sched as [|[t key] sched IH]; intros s Hs H; simpl in H; [by inv_result|].
  destruct (advance s t key) as [s1|] eqn:Ha; [|done].
  eapply IH; [|done]. econstructor; [done|]. by apply (advance_step s t key).
Qed.

(** Some tasks move, any number of times. *)
Definition runs : Store -> Store -> Prop := rtc (fun a b => exists t, step limit a t b).

Definition settled (pc : Pc) : Prop := pc = Idle \/ exists m k, pc = Holding m k.

(** A call that has its lock is settled by its own moves. *)
Lemma settles_unlocked s t c k l ok :
  pc_of s t = Unlocked c k l ok -> exists s', runs s s' /\ settled (pc_of s' t).
Proof.
  intros Hpc.
  assert (Hbumped : forall s1 m, pc_of s1 t = Bumped m k l ->
    exists s', runs s1 s' /\ settled (pc_of s' t)).
  { intros s1 m H1. eexists. split; [eapply rtc_once; eexists; by eapply step_granted|].
    rewrite pc_of_goto, decide_True by done. right. by eauto. }
  destruct c as [m|]; [destruct ok|].
  - destruct (bump s) as [due s1] eqn:Hb.
    assert (Hst : step limit s t (goto s1 t (if due then Sweeping m k l else Bumped m k l))).
    { pose proof (step_bump limit s t m k l Hpc) as Hst. by rewrite Hb in Hst. }
    set (s2 := goto s1 t _) in Hst.
    assert (pc_of s2 t = if due then Sweeping m k l else Bumped m k l) as H2.
    { unfold s2. by rewrite pc_of_goto, decide_True. }
    destruct due.
    + pose proof (step_sweep limit s2 t m k l H2) as Hst'.
      destruct (Hbumped (goto (_gc_cold_buckets s2) t (Bumped m k l)) m) as (s' & Hr & Hd).
      { by rewrite pc_of_goto, decide_True. }
      exists s'. split; [|done]. eapply rtc_l; [by eexists|]. eapply rtc_l; [by eexists|done].
    + destruct (Hbumped s2 m H2) as (s' & Hr & Hd).
      exists s'. split; [|done]. eapply rtc_l; [by eexists|done].
  - eexists. split; [eapply rtc_once; eexists; by eapply step_refused|].
    rewrite pc_of_goto, decide_True by done. by left.
  - eexists. split; [eapply rtc_once; eexists; by eapply step_released|].
    rewrite pc_of_goto, decide_True by done. by left.
Qed.

(** A task inside a lock leaves it by its own moves; the lock is free then, and
    the other tasks are where they were. *)
Lemma leaves s u k l :
  inside (pc_of s u) = Some (k, l) ->
  exists s' c ok, runs s s' /\ held s' !! l = None /\ pc_of s' u = Unlocked c k l ok /\
    forall t, t <> u -> pc_of s' t = pc_of s t.
Proof.
  assert (Hwrote : forall s1 c ok, pc_of s1 u = Wrote c k l ok ->
    exists s' c ok, runs s1 s' /\ held s' !! l = None /\ pc_of s' u = Unlocked c k l ok /\
      forall t, t <> u -> pc_of s' t = pc_of s1 t).
  { intros s1 c ok H1. eexists _, c, ok. split_and!.
    - eapply rtc_once. eexists. by eapply step_unlock.
    - simpl. by rewrite lookup_delete_eq.
    - by rewrite pc_of_goto, decide_True.
    - intros t Ht. by rewrite pc_of_goto, decide_False. }
  assert (Hread : forall s1 c n, pc_of s1 u = HasRead c k l n ->
    exists s' c ok, runs s1 s' /\ held s' !! l = None /\ pc_of s' u = Unlocked c k l ok /\
      forall t, t <> u -> pc_of s' t = pc_of s1 t).
  { intros s1 c n H1. pose proof (step_write limit s1 u c k l n H1) as Hst.
    edestruct Hwrote as (s' & c' & ok & Hr & Hh & Hu & Ht);
      [|exists s', c', ok; split_and!; [eapply rtc_l; [by eexists|exact Hr]|done|done|]].
    - by rewrite pc_of_goto, decide_True.
    - intros t Hne. rewrite Ht, pc_of_goto, decide_False by done.
      unfold write. destruct c; by destruct (_ <=? _). }
  intros Hin. destruct (pc_of s u) as [| |c k' l'|c k' l' n|c k' l' ok| | | |] eqn:Hpc; try done;
    simpl in Hin; injection Hin as -> ->; [|by eapply Hread|by eapply Hwrote].
  pose proof (step_read limit s u c k l Hpc) as Hst.
  edestruct Hread as (s' & c' & ok & Hr & Hh & Hu & Ht);
    [|exists s', c', ok; split_and!; [eapply rtc_l; [by eexists|exact Hr]|done|done|]].
  - by rewrite pc_of_goto, decide_True.
  - intros t Hne. by rewrite Ht, pc_of_goto, decide_False.
Qed.

Lemma settles_inside s t k l :
  inside (pc_of s t) = Some (k, l) -> exists s', runs s s' /\ settled (pc_of s' t).
Proof.
  intros (s1 & c & ok & Hr & _ & Hpc & _)%leaves.
  apply settles_unlocked in Hpc as (s' & Hr' & Hd). exists s'. split; [by etransitivity|done].
Qed.
End Run.

(** ** Properties *)

(** C20: under any interleaving of acquires, releases, sweeps and cancelled
    waits, (1) two tasks are never inside the same key's section, though the
    sweep drops lock objects and [_get_lock] makes new ones; (2) at most
    [max_inflight] permits of a key are held; (3) an acquire is refused exactly
    when the limit's permits are held at that moment, and granted otherwise;
    (4) a release finds a positive counter, so the clamp at zero is never
    taken, and returns one permit. *)
Theorem inflight_exact (limit : string -> Z) (s : Store) (H : reachable limit s) :
  (forall t t' k l l',
    inside (pc_of s t) = Some (k, l) -> inside (pc_of s t') = Some (k, l') -> t = t') /\
  (forall k, Z.of_nat (num (permit_key k) (pcs s)) <= Z.max 0 (limit k)) /\
  (forall t m k l n, pc_of s t = HasRead (Acquire m) k l n ->
    let permits := Z.of_nat (num (permit_key k) (pcs s)) in
    write s (Acquire m) k n =
      if bool_decide (limit k <= permits) then (false, s)
      else (true, set_counter s k (permits + 1))) /\
  (forall t k l n, pc_of s t = HasRead Release k l n ->
    let permits := Z.of_nat (num (permit_key k) (pcs s)) in
    0 < permits /\ write s Release k n = (true, set_counter s k (permits - 1))).
Proof.
  apply reachable_inv in H as Hs. split_and!.
  - intros t t' k l l'. by apply (inv_exclusive limit s).
  - intros k. rewrite <-(inv_counters _ s Hs). apply (inv_bound _ s Hs).
  - intros t m k l n Hpc permits. subst permits. rewrite <-(inv_counters _ s Hs).
    pose proof (write_delta limit s t (Acquire m) k l n Hs Hpc) as Hw. cbv beta iota in Hw.
    rewrite Hw. assert (m = limit k) as -> by (apply (inv_asked _ s Hs t); by rewrite Hpc).
    case_bool_decide; destruct (_ <=? _) eqn:?; bool_to_prop; done || lia.
  - intros t k l n Hpc permits. subst permits. rewrite <-(inv_counters _ s Hs).
    pose proof (write_delta limit s t Release k l n Hs Hpc) as [? ?]. done.
Qed.

Definition one_permit : string -> Z := fun _ => 1.

(** Task 1 holds the permit; task 2 has read the counter and is about to be
    refused, while task 3 waits for the lock. *)
Definition contended : list (task * string) :=
  replicate 7 (1%nat, "pull"%string) ++ [(2%nat, "pull"%string); (3%nat, "pull"%string)] ++
  replicate 2 (2%nat, "pull"%string).

Lemma inflight_exact_witness :
  exists s, play one_permit contended new_store = Some s /\ reachable one_permit s /\
    pc_of s 2%nat = HasRead (Acquire 1) "pull" 0%nat 1 /\
    write s (Acquire 1) "pull" 1 = (false, s).
Proof.
  destruct (play one_permit contended new_store) as [s|] eqn:Hs; [|vm_compute in Hs; discriminate Hs].
  assert (Hr : reachable one_permit s) by (eapply play_reachable; [apply reachable_new|exact Hs]).
  assert (Hpc : pc_of s 2%nat = HasRead (Acquire 1) "pull" 0%nat 1)
    by (vm_compute in Hs; injection Hs as <-; reflexivity).
  exists s. split; [reflexivity|]. split; [exact Hr|]. split; [exact Hpc|].
  destruct (inflight_exact one_permit s Hr) as (_ & _ & Hacq & _).
  pose proof (Hacq 2%nat 1 "pull"%string 0%nat 1 Hpc) as Hw. cbv zeta in Hw. rewrite Hw.
  vm_compute in Hs. injection Hs as <-. reflexivity.
Defined.

(** Nothing leaks. Once every task is idle, whatever happened before, every
    counter reads zero, no key is referenced and no lock is held; and the next
    sweep leaves neither a counter nor a lock behind. *)
Theorem inflight_quiescent (limit : string -> Z) (s : Store) (H : reachable limit s)
    (Hidle : forall t, pc_of s t = Idle) :
  (forall k, default 0 (_counters s !! k) = 0) /\ _lock_refs s = ∅ /\ held s = ∅ /\
  _counters (_gc_cold_buckets s) = ∅ /\ _locks (_gc_cold_buckets s) = ∅.
Proof.
  apply reachable_inv in H as Hs.
  assert (Hnum : forall p, p Idle = false -> num p (pcs s) = 0%nat).
  { intros p Hp. apply num_zero; [done|]. intros t. fold (pc_of s t). by rewrite Hidle. }
  assert (Hcounters : forall k, default 0 (_counters s !! k) = 0).
  { intros k. fold (counter s k). rewrite (inv_counters _ s Hs), Hnum by done. lia. }
  assert (Hrefs : _lock_refs s = ∅).
  { apply map_empty. intros k. rewrite (inv_refs _ s Hs). cbv zeta. by rewrite Hnum. }
  assert (Hheld : held s = ∅).
  { apply map_empty. intros l. destruct (held s !! l) as [t|] eqn:Hl; [|done].
    apply (inv_held _ s Hs) in Hl. by rewrite Hidle in Hl. }
  assert (Hgc : _counters (_gc_cold_buckets s) = ∅).
  { apply map_empty. intros k. apply map_lookup_filter_None. right. intros n Hn. simpl.
    specialize (Hcounters k). rewrite Hn in Hcounters. simpl in Hcounters. subst n.
    unfold dead. rewrite Hrefs, Hheld, lookup_empty. by destruct (_locks s !! k). }
  split_and!; try done.
  apply map_empty. intros k. unfold _gc_cold_buckets. cbn [_locks]. fold (_gc_cold_buckets s).
  apply map_lookup_filter_None. right. intros l Hl. cbn [fst snd].
  change (filter _ (_counters s)) with (_counters (_gc_cold_buckets s)).
  rewrite Hgc, lookup_empty, bool_decide_eq_true_2 by done.
  unfold idle_lock. rewrite Hrefs, Hheld, !lookup_empty. done.
Qed.

(** Two tasks acquire and release; then all are idle, with the key's bucket
    still there for the sweep to drop. *)
Definition drained : list (task * string) :=
  replicate 13 (1%nat, "pull"%string) ++ replicate 13 (2%nat, "embed"%string).

Lemma inflight_quiescent_witness :
  exists s, play one_permit drained new_store = Some s /\ _counters s <> ∅ /\
    _counters (_gc_cold_buckets s) = ∅.
Proof.
  destruct (play one_permit drained new_store) as [s|] eqn:Hs; [|vm_compute in Hs; discriminate Hs].
  assert (Hr : reachable one_permit s) by (eapply play_reachable; [apply reachable_new|exact Hs]).
  exists s. split; [reflexivity|].
  assert (Hidle : forall t, pc_of s t = Idle).
  { assert (pcs s = {[1%nat := Idle; 2%nat := Idle]}) as Hpcs
      by (vm_compute in Hs; injection Hs as <-; reflexivity).
    intros t. unfold pc_of. rewrite Hpcs.
    destruct (decide (t = 1%nat)) as [->|]; [reflexivity|].
    destruct (decide (t = 2%nat)) as [->|]; [reflexivity|].
    rewrite lookup_insert_ne, lookup_singleton_ne by congruence. reflexivity. }
  split; [vm_compute in Hs; injection Hs as <-; discriminate|].
  apply (inflight_quiescent one_permit s Hr Hidle).
Defined.

(** No deadlock. From every reachable state and for every task, the tasks
    can move on so that the task's call ends: it holds its permit or is idle. A
    task that waits for a lock waits for a task that can leave it. *)
Theorem inflight_calls_end (limit : string -> Z) (s : Store) (t : task) (H : reachable limit s) :
  exists s', runs limit s s' /\ (pc_of s' t = Idle \/ exists m k, pc_of s' t = Holding m k).
Proof.
  apply reachable_inv in H as Hs.
  assert (Hfree : forall s1 c k l, pc_of s1 t = WantLock c k l -> held s1 !! l = None ->
    exists s', runs limit s1 s' /\ settled (pc_of s' t)).
  { intros s1 c k l Hpc Hl. pose proof (step_lock limit s1 t c k l Hpc Hl) as Hst.
    set (s2 := goto _ t _) in Hst.
    destruct (settles_inside limit s2 t k l) as (s' & Hr & Hd).
    { unfold s2. by rewrite pc_of_goto, decide_True. }
    exists s'. split; [eapply rtc_l; [by eexists|exact Hr]|done]. }
  destruct (pc_of s t) as [|c k l|c k l|c k l n|c k l ok|c k l ok|m k l|m k l|m k] eqn:Hpc;
    try (by exists s; split; [done|rewrite Hpc; eauto]);
    try (apply (settles_inside limit s t k l); by rewrite Hpc).
  - destruct (held s !! l) as [u|] eqn:Hl; [|by eapply Hfree].
    apply (inv_held _ s Hs) in Hl as Hu. destruct (inside (pc_of s u)) as [[k' l']|] eqn:Hin; [|done].
    simpl in Hu. injection Hu as ->.
    destruct (leaves limit s u k' l Hin) as (s1 & c' & ok & Hr & Hh & _ & Hothers).
    destruct (Hfree s1 c k l) as (s' & Hr' & Hd); [|done|].
    + rewrite Hothers; [done|]. intros ->. by rewrite Hpc in Hin.
    + exists s'. split; [by etransitivity|done].
  - by eapply settles_unlocked.
  - pose proof (step_sweep limit s t m k l Hpc) as Hst.
    set (s1 := goto _ t _) in Hst.
    assert (pc_of s1 t = Bumped m k l) as H1 by (unfold s1; by rewrite pc_of_goto, decide_True).
    eexists. split; [eapply rtc_l; [by eexists|]; eapply rtc_once; eexists; by eapply step_granted|].
    rewrite pc_of_goto, decide_True by done. by eauto.
  - eexists. split; [eapply rtc_once; eexists; by eapply step_granted|].
    rewrite pc_of_goto, decide_True by done. by eauto.
Qed.

Lemma inflight_calls_end_witness :
  exists s s', play one_permit contended new_store = Some s /\
    pc_of s 3%nat = WantLock (Acquire 1) "pull" 0%nat /\ held s !! 0%nat = Some 2%nat /\
    runs one_permit s s' /\
    (pc_of s' 3%nat = Idle \/ exists m k, pc_of s' 3%nat = Holding m k).
Proof.
  destruct (play one_permit contended new_store) as [s|] eqn:Hs; [|vm_compute in Hs; discriminate Hs].
  assert (Hr : reachable one_permit s) by (eapply play_reachable; [apply reachable_new|exact Hs]).
  destruct (inflight_calls_end one_permit s 3%nat Hr) as (s' & Hrun & Hd).
  exists s, s'. split; [reflexivity|].
  split; [vm_compute in Hs; injection Hs as <-; reflexivity|].
  split; [vm_compute in Hs; injection Hs as <-; reflexivity|].
  split; [exact Hrun|exact Hd].
Defined.
