(* ===== verification/TaskModel.v ===== *)
(** * TaskModel

    The task record of [core/task.py]: its fields and their constraints, the
    cross-field rules of [core/_task_invariants.py], construction from a
    mapping ([Task.model_validate]), [model_dump] and [with_transition]. *)

From stdpp Require Import gmap strings list sorting.
From Stdlib Require Import ZArith QArith Lia.
From S2P Require Import Prelude StateMachine TaskEnums TaskTransitions PlanUnits.
Import TaskStatus.
#[local] Open Scope nat_scope.

Module ArtifactType.

Inductive ArtifactType :=
| CODE | TESTS | DOCUMENTATION.

#[export] Instance artifact_type_eq_dec : EqDecision ArtifactType.
Proof. solve_decision. Defined.

Definition members : list ArtifactType :=
  [CODE; TESTS; DOCUMENTATION].

Lemma artifact_type_members_all s : s ∈ members.
Proof. revert s. enum_elem. Qed.

#[export] Instance artifact_type_countable : Countable ArtifactType :=
  enum_countable members artifact_type_members_all.

Definition artifact_type_value (s : ArtifactType) : string :=
  match s with
  | CODE => "code"
  | TESTS => "tests"
  | DOCUMENTATION => "documentation"
  end.

#[export] Instance artifact_type_value_inj : Inj (=) (=) artifact_type_value.
Proof. intros [] []; simpl; congruence. Qed.

End ArtifactType.
Export (hints) ArtifactType.

Record ExpectedArtifact := {
  artifact_type : ArtifactType.ArtifactType;
  artifact_path : string;
}.

Record AcceptanceCriterion := {
  criterion_description : string;
  criterion_met : bool;
}.

(** ** Fields *)

Inductive task_field :=
| F_id | F_title | F_description | F_type | F_priority | F_project | F_blocked_reason
| F_plan_id | F_plan_item_id | F_created_by | F_requested_by_user_id | F_assigned_to
| F_reviewers | F_dependencies | F_artifacts_expected | F_acceptance_criteria
| F_estimated_complexity | F_stakes | F_budget_limit | F_deadline | F_max_retries | F_status
| F_parent_task_id | F_delegation_chain | F_task_structure | F_coordination_topology
| F_source | F_middleware_override | F_metadata | F_hard_ceiling | F_hard_token_ceiling
| F_forecast_id | F_created_at.

#[export] Instance task_field_eq_dec : EqDecision task_field.
Proof. solve_decision. Defined.

Definition model_fields : list task_field :=
  [F_id; F_title; F_description; F_type; F_priority; F_project; F_blocked_reason; F_plan_id;
   F_plan_item_id; F_created_by; F_requested_by_user_id; F_assigned_to; F_reviewers;
   F_dependencies; F_artifacts_expected; F_acceptance_criteria; F_estimated_complexity;
   F_stakes; F_budget_limit; F_deadline; F_max_retries; F_status; F_parent_task_id;
   F_delegation_chain; F_task_structure; F_coordination_topology; F_source;
   F_middleware_override; F_metadata; F_hard_ceiling; F_hard_token_ceiling; F_forecast_id;
   F_created_at].

Definition field_name (f : task_field) : string :=
  match f with
  | F_id => "id"
  | F_title => "title"
  | F_description => "description"
  | F_type => "type"
  | F_priority => "priority"
  | F_project => "project"
  | F_blocked_reason => "blocked_reason"
  | F_plan_id => "plan_id"
  | F_plan_item_id => "plan_item_id"
  | F_created_by => "created_by"
  | F_requested_by_user_id => "requested_by_user_id"
  | F_assigned_to => "assigned_to"
  | F_reviewers => "reviewers"
  | F_dependencies => "dependencies"
  | F_artifacts_expected => "artifacts_expected"
  | F_acceptance_criteria => "acceptance_criteria"
  | F_estimated_complexity => "estimated_complexity"
  | F_stakes => "stakes"
  | F_budget_limit => "budget_limit"
  | F_deadline => "deadline"
  | F_max_retries => "max_retries"
  | F_status => "status"
  | F_parent_task_id => "parent_task_id"
  | F_delegation_chain => "delegation_chain"
  | F_task_structure => "task_structure"
  | F_coordination_topology => "coordination_topology"
  | F_source => "source"
  | F_middleware_override => "middleware_override"
  | F_metadata => "metadata"
  | F_hard_ceiling => "hard_ceiling"
  | F_hard_token_ceiling => "hard_token_ceiling"
  | F_forecast_id => "forecast_id"
  | F_created_at => "created_at"
  end.

(** The field a key of a payload names. *)
Definition field_of_name (k : string) : option task_field :=
  head (filter (fun f => field_name f = k) model_fields).

Section Task.
Context {obj : Type}.

(** Identifiers are canonical UUID strings, so [str(task.id)] is [id]; floats
    are rationals, times microseconds, and [metadata] holds Python objects. *)
Record Task := {
  task_id : string;
  task_title : string;
  task_description : string;
  task_type : TaskType.TaskType;
  task_priority : Priority.Priority;
  task_project : string;
  task_blocked_reason : option BlockedReason.BlockedReason;
  task_plan_id : option string;
  task_plan_item_id : option string;
  task_created_by : string;
  task_requested_by_user_id : option string;
  task_assigned_to : option string;
  task_reviewers : list string;
  task_dependencies : list string;
  task_artifacts_expected : list ExpectedArtifact;
  task_acceptance_criteria : list AcceptanceCriterion;
  task_estimated_complexity : Complexity.Complexity;
  task_stakes : Stakes.Stakes;
  task_budget_limit : Q;
  task_deadline : option string;
  task_max_retries : Z;
  task_status : TaskStatus;
  task_parent_task_id : option string;
  task_delegation_chain : list string;
  task_task_structure : option TaskStructure.TaskStructure;
  task_coordination_topology : CoordinationTopology.CoordinationTopology;
  task_source : option TaskSource.TaskSource;
  task_middleware_override : option (list string);
  task_metadata : gmap string obj;
  task_hard_ceiling : option Q;
  task_hard_token_ceiling : option Z;
  task_forecast_id : option string;
  task_created_at : Z;
}.

Definition ftype (f : task_field) : Type :=
  match f with
  | F_id | F_title | F_description | F_project | F_created_by => string
  | F_type => TaskType.TaskType
  | F_priority => Priority.Priority
  | F_blocked_reason => option BlockedReason.BlockedReason
  | F_plan_id | F_plan_item_id | F_requested_by_user_id | F_assigned_to | F_deadline |
    F_parent_task_id | F_forecast_id => option string
  | F_reviewers | F_dependencies | F_delegation_chain => list string
  | F_artifacts_expected => list ExpectedArtifact
  | F_acceptance_criteria => list AcceptanceCriterion
  | F_estimated_complexity => Complexity.Complexity
  | F_stakes => Stakes.Stakes
  | F_budget_limit => Q
  | F_max_retries | F_created_at => Z
  | F_status => TaskStatus
  | F_task_structure => option TaskStructure.TaskStructure
  | F_coordination_topology => CoordinationTopology.CoordinationTopology
  | F_source => option TaskSource.TaskSource
  | F_middleware_override => option (list string)
  | F_metadata => gmap string obj
  | F_hard_ceiling => option Q
  | F_hard_token_ceiling => option Z
  end.

(** [getattr(t, f)]. *)
Definition field (t : Task) (f : task_field) : ftype f :=
  match f with
  | F_id => task_id t
  | F_title => task_title t
  | F_description => task_description t
  | F_type => task_type t
  | F_priority => task_priority t
  | F_project => task_project t
  | F_blocked_reason => task_blocked_reason t
  | F_plan_id => task_plan_id t
  | F_plan_item_id => task_plan_item_id t
  | F_created_by => task_created_by t
  | F_requested_by_user_id => task_requested_by_user_id t
  | F_assigned_to => task_assigned_to t
  | F_reviewers => task_reviewers t
  | F_dependencies => task_dependencies t
  | F_artifacts_expected => task_artifacts_expected t
  | F_acceptance_criteria => task_acceptance_criteria t
  | F_estimated_complexity => task_estimated_complexity t
  | F_stakes => task_stakes t
  | F_budget_limit => task_budget_limit t
  | F_deadline => task_deadline t
  | F_max_retries => task_max_retries t
  | F_status => task_status t
  | F_parent_task_id => task_parent_task_id t
  | F_delegation_chain => task_delegation_chain t
  | F_task_structure => task_task_structure t
  | F_coordination_topology => task_coordination_topology t
  | F_source => task_source t
  | F_middleware_override => task_middleware_override t
  | F_metadata => task_metadata t
  | F_hard_ceiling => task_hard_ceiling t
  | F_hard_token_ceiling => task_hard_token_ceiling t
  | F_forecast_id => task_forecast_id t
  | F_created_at => task_created_at t
  end.

(** A task from the value of each field, when every field has one. *)
Definition task_of (g : forall f, option (ftype f)) : option Task :=
  v0 ← g F_id;
  v1 ← g F_title;
  v2 ← g F_description;
  v3 ← g F_type;
  v4 ← g F_priority;
  v5 ← g F_project;
  v6 ← g F_blocked_reason;
  v7 ← g F_plan_id;
  v8 ← g F_plan_item_id;
  v9 ← g F_created_by;
  v10 ← g F_requested_by_user_id;
  v11 ← g F_assigned_to;
  v12 ← g F_reviewers;
  v13 ← g F_dependencies;
  v14 ← g F_artifacts_expected;
  v15 ← g F_acceptance_criteria;
  v16 ← g F_estimated_complexity;
  v17 ← g F_stakes;
  v18 ← g F_budget_limit;
  v19 ← g F_deadline;
  v20 ← g F_max_retries;
  v21 ← g F_status;
  v22 ← g F_parent_task_id;
  v23 ← g F_delegation_chain;
  v24 ← g F_task_structure;
  v25 ← g F_coordination_topology;
  v26 ← g F_source;
  v27 ← g F_middleware_override;
  v28 ← g F_metadata;
  v29 ← g F_hard_ceiling;
  v30 ← g F_hard_token_ceiling;
  v31 ← g F_forecast_id;
  v32 ← g F_created_at;
  Some {| task_id := v0; task_title := v1; task_description := v2; task_type := v3;
          task_priority := v4; task_project := v5; task_blocked_reason := v6;
          task_plan_id := v7; task_plan_item_id := v8; task_created_by := v9;
          task_requested_by_user_id := v10; task_assigned_to := v11;
          task_reviewers := v12; task_dependencies := v13;
          task_artifacts_expected := v14; task_acceptance_criteria := v15;
          task_estimated_complexity := v16; task_stakes := v17;
          task_budget_limit := v18; task_deadline := v19; task_max_retries := v20;
          task_status := v21; task_parent_task_id := v22; task_delegation_chain := v23;
          task_task_structure := v24; task_coordination_topology := v25;
          task_source := v26; task_middleware_override := v27; task_metadata := v28;
          task_hard_ceiling := v29; task_hard_token_ceiling := v30;
          task_forecast_id := v31; task_created_at := v32 |}.

Lemma task_of_spec g t : task_of g = Some t <-> forall f, g f = Some (field t f).
Proof.
  unfold task_of. split.
  - intros H. repeat (apply bind_Some in H as (? & ? & H)). injection H as <-. by intros [].
  - intros H. rewrite !H. simpl. by destruct t.
Qed.

Lemma task_of_total g : (forall f, is_Some (g f)) -> is_Some (task_of g).
Proof.
  intros H. unfold task_of.
  repeat match goal with
  | |- is_Some (g ?f ≫= _) => let E := fresh in destruct (H f) as [? E]; rewrite E; simpl
  end. by eexists.
Qed.

Lemma task_ext t t' : (forall f, field t f = field t' f) -> t = t'.
Proof.
  intros H. assert (task_of (fun f => Some (field t f)) = Some t') as E.
  { apply task_of_spec. intros f. by rewrite H. }
  assert (task_of (fun f => Some (field t f)) = Some t) as E' by (by apply task_of_spec).
  congruence.
Qed.

(** ** Constraints and defaults of single fields *)

Definition not_blank (s : string) : bool := negb (is_blank s).
Definition opt_ok {A} (p : A -> bool) (o : option A) : bool := from_option p true o.
Definition nonneg (z : Z) : bool := (0 <=? z)%Z.
Definition nonneg_q (q : Q) : bool := Qle_bool 0 q.

(** [NotBlankStr], also inside tuples and nested models, and the [ge=0]
    bounds. *)
Definition field_ok (f : task_field) : ftype f -> bool :=
  match f with
  | F_title | F_description | F_project | F_created_by => not_blank
  | F_requested_by_user_id | F_assigned_to | F_parent_task_id => opt_ok not_blank
  | F_reviewers | F_dependencies | F_delegation_chain => forallb not_blank
  | F_middleware_override => opt_ok (forallb not_blank)
  | F_artifacts_expected => forallb (fun a => not_blank (artifact_path a))
  | F_acceptance_criteria => forallb (fun c => not_blank (criterion_description c))
  | F_budget_limit => nonneg_q
  | F_hard_ceiling => opt_ok nonneg_q
  | F_max_retries => nonneg
  | F_hard_token_ceiling => opt_ok nonneg
  | _ => fun _ => true
  end.

(** The results of the default factories of one construction. *)
Record Factories := {
  uuid4 : string;
  utc_now : Z;
}.

(** The default of each field; [None] where a value is required. *)
Definition field_default (env : Factories) (f : task_field) : option (ftype f) :=
  match f with
  | F_id => Some (uuid4 env)
  | F_title | F_description | F_project | F_created_by => None
  | F_type => None
  | F_priority => Some Priority.MEDIUM
  | F_blocked_reason => Some None
  | F_plan_id | F_plan_item_id | F_requested_by_user_id | F_assigned_to | F_deadline
    | F_parent_task_id | F_forecast_id => Some None
  | F_reviewers | F_dependencies | F_delegation_chain => Some []
  | F_artifacts_expected => Some []
  | F_acceptance_criteria => Some []
  | F_estimated_complexity => Some Complexity.MEDIUM
  | F_stakes => Some Stakes.NORMAL
  | F_budget_limit => Some 0%Q
  | F_max_retries => Some 1%Z
  | F_status => Some CREATED
  | F_task_structure => Some None
  | F_coordination_topology => Some CoordinationTopology.AUTO
  | F_source => Some None
  | F_middleware_override => Some None
  | F_metadata => Some ∅
  | F_hard_ceiling => Some None
  | F_hard_token_ceiling => Some None
  | F_created_at => Some (utc_now env)
  end.

(** ** Cross-field rules *)

Definition _REQUIRES_ASSIGNEE : gset TaskStatus :=
  list_to_set [ASSIGNED; IN_PROGRESS; IN_REVIEW; COMPLETED; AUTH_REQUIRED; AWAITING_INPUT].

(** Why a construction fails: the fields pydantic could not read (or unknown
    keys), or the first rule broken. *)
Inductive TaskError :=
| Bad_fields (locs : list string)
| Deadline_blank
| Deadline_invalid (d : string)
| Self_dependency (i : string)
| Duplicate_dependencies (ds : list string)
| Duplicate_reviewers (ds : list string)
| Own_parent (i : string)
| Duplicate_delegation (ds : list string)
| Assignee_in_chain (a : string)
| Created_with_assignee
| Assignee_required (s : TaskStatus)
| Stale_blocked_reason (r : BlockedReason.BlockedReason) (s : TaskStatus)
| Item_without_plan.

Open Scope py_scope.

Definition check_collections (t : Task) : result TaskError unit :=
  ensure bool_decide (task_id t ∉ task_dependencies t) else Self_dependency (task_id t) in
  ensure bool_decide (duplicates (task_dependencies t) = [])
    else Duplicate_dependencies (duplicates (task_dependencies t)) in
  ensure bool_decide (duplicates (task_reviewers t) = [])
    else Duplicate_reviewers (duplicates (task_reviewers t)) in
  Ok tt.

Definition check_delegation (t : Task) : result TaskError unit :=
  ensure negb (bool_decide (task_parent_task_id t = Some (task_id t)))
    else Own_parent (task_id t) in
  ensure bool_decide (duplicates (task_delegation_chain t) = [])
    else Duplicate_delegation (duplicates (task_delegation_chain t)) in
  match task_assigned_to t with
  | Some a => ensure bool_decide (a ∉ task_delegation_chain t) else Assignee_in_chain a in Ok tt
  | None => Ok tt
  end.

Definition check_assignment_consistency (t : Task) : result TaskError unit :=
  ensure negb (bool_decide (task_status t = CREATED /\ task_assigned_to t <> None))
    else Created_with_assignee in
  ensure negb (bool_decide (task_status t ∈ _REQUIRES_ASSIGNEE /\ task_assigned_to t = None))
    else Assignee_required (task_status t) in
  Ok tt.

Definition check_blocked_reason_pairing (t : Task) : result TaskError unit :=
  match task_blocked_reason t with
  | Some r => ensure bool_decide (task_status t = BLOCKED)
                else Stale_blocked_reason r (task_status t) in Ok tt
  | None => Ok tt
  end.

Definition check_plan_linkage (t : Task) : result TaskError unit :=
  ensure negb (bool_decide (task_plan_id t = None /\ task_plan_item_id t <> None))
    else Item_without_plan in
  Ok tt.

Definition _validate_invariants (t : Task) : result TaskError unit :=
  let* _ := check_collections t in
  let* _ := check_delegation t in
  let* _ := check_assignment_consistency t in
  let* _ := check_blocked_reason_pairing t in
  check_plan_linkage t.

(** ** What the model layer and the standard library provide

    Reading a value for a field and dumping it back are pydantic's, and
    [datetime.fromisoformat] is Python's: of them the code relies on reading
    back what was dumped. *)
Class Runtime := {
  coerce : forall f, obj -> option (ftype f);
  dump : forall f, ftype f -> obj;
  coerce_dump : forall f v, coerce f (dump f v) = Some v;
  fromisoformat : string -> bool;
}.

Context `{Runtime}.

Definition validate_iso8601_deadline (deadline : option string) : result TaskError unit :=
  match deadline with
  | None => Ok tt
  | Some d =>
      ensure negb (is_blank d) else Deadline_blank in
      ensure fromisoformat d else Deadline_invalid d in
      Ok tt
  end.

(** The model validators after the fields are read. *)
Definition run_validators (t : Task) : result TaskError unit :=
  let* _ := validate_iso8601_deadline (task_deadline t) in
  _validate_invariants t.

(** ** Construction from a mapping *)

Definition read_field (env : Factories) (payload : gmap string obj) (f : task_field)
    : option (ftype f) :=
  match payload !! field_name f with
  | Some o => v ← coerce f o; if field_ok f v then Some v else None
  | None => field_default env f
  end.

(** The fields that cannot be read, then the keys that are no field. *)
Definition bad_fields (env : Factories) (payload : gmap string obj) : list string :=
  (field_name <$> filter (fun f => read_field env payload f = None) model_fields) ++
  filter (fun k => field_of_name k = None) (map_to_list payload).*1.

Definition model_validate (env : Factories) (payload : gmap string obj) : result TaskError Task :=
  match bad_fields env payload, task_of (read_field env payload) with
  | [], Some t => let* _ := run_validators t in Ok t
  | locs, _ => Err (Bad_fields locs)
  end.

Definition model_dump (t : Task) : gmap string obj :=
  list_to_map ((fun f => (field_name f, dump f (field t f))) <$> model_fields).

(** ** Transitions *)

Inductive TransitionError :=
| Status_override
| Refused (e : @transition_error TaskStatus)
| Invalid_task (e : TaskError).

(** The dumped task with the park's reason dropped on leaving it, the overrides
    and the target. *)
Definition transition_payload (t : Task) (target : TaskStatus) (overrides : gmap string obj)
    : gmap string obj :=
  let payload := model_dump t in
  let payload := if decide (target = BLOCKED) then payload
    else <["blocked_reason"%string := dump F_blocked_reason None]> payload in
  let payload := overrides ∪ payload in
  <["status"%string := dump F_status target]> payload.

Definition with_transition (env : Factories) (t : Task) (target : TaskStatus)
    (overrides : gmap string obj) : result TransitionError Task :=
  if decide (is_Some (overrides !! "status"%string)) then Err Status_override else
  match validate_transition (task_status t) target with
  | Err e => Err (Refused e)
  | Ok _ =>
      match model_validate env (transition_payload t target overrides) with
      | Ok t' => Ok t'
      | Err e => Err (Invalid_task e)
      end
  end.

(** ** Fields and payloads *)

Lemma model_fields_all f : f ∈ model_fields.
Proof. revert f. enum_elem. Qed.

Lemma field_of_name_field f : field_of_name (field_name f) = Some f.
Proof. by destruct f; vm_compute. Qed.

#[export] Instance field_name_inj : Inj (=) (=) field_name.
Proof.
  intros f g E. apply (inj Some). by rewrite <-!field_of_name_field, E.
Qed.

Lemma field_of_name_Some k f : field_of_name k = Some f -> k = field_name f.
Proof.
  unfold field_of_name. intros Hh. apply head_Some_elem_of in Hh.
  by apply list_elem_of_filter in Hh as [-> _].
Qed.

Lemma model_dump_lookup t f : model_dump t !! field_name f = Some (dump f (field t f)).
Proof.
  unfold model_dump. apply elem_of_list_to_map_1.
  - rewrite <-list_fmap_compose. apply (NoDup_fmap_2 field_name).
    apply (bool_decide_unpack _). by vm_compute.
  - apply list_elem_of_fmap. exists f. split; [done|apply model_fields_all].
Qed.

Lemma model_dump_known t k : is_Some (model_dump t !! k) -> is_Some (field_of_name k).
Proof.
  intros [o Ho%elem_of_list_to_map_2]. apply list_elem_of_fmap in Ho as (f & [= -> _] & _).
  by rewrite field_of_name_field.
Qed.

(** No key of a payload is unknown. *)
Definition known_keys (p : gmap string obj) : Prop := forall k, is_Some (p !! k) -> is_Some (field_of_name k).

Lemma bad_fields_nil env p :
  bad_fields env p = [] <-> known_keys p /\ forall f, is_Some (read_field env p f).
Proof.
  unfold bad_fields. rewrite app_nil, fmap_nil_iff, !filter_nil_iff.
  unfold known_keys. setoid_rewrite <-not_eq_None_Some. split; intros [Hf Hk]; split.
  - intros k Hk'. apply Hk. apply not_eq_None_Some in Hk' as [o Ho].
    apply list_elem_of_fmap. exists (k, o). by rewrite elem_of_map_to_list.
  - intros f. apply Hf, model_fields_all.
  - intros f _. apply Hk.
  - intros k ([k' o] & -> & Ho%elem_of_map_to_list)%list_elem_of_fmap. apply Hf. simpl in *.
    by rewrite Ho.
Qed.

Lemma model_validate_fields env p t :
  model_validate env p = Ok t <->
  known_keys p /\ (forall f, read_field env p f = Some (field t f)) /\ run_validators t = Ok tt.
Proof.
  unfold model_validate. split.
  - destruct (bad_fields env p) as [|l ls] eqn:Hb; [|discriminate].
    apply bad_fields_nil in Hb as [Hk Hf].
    destruct (task_of (read_field env p)) as [t'|] eqn:Ht; [|discriminate].
    intros ([] & Hr & [= ->])%rbind_ok. by rewrite task_of_spec in Ht.
  - intros (Hk & Hf & Hr). rewrite (proj2 (bad_fields_nil env p)).
    + rewrite (proj2 (task_of_spec _ t)) by done. by rewrite Hr.
    + split; [done|]. intros f. by rewrite Hf.
Qed.

(** ** Valid tasks *)

Record well_formed (t : Task) : Prop := {
  wf_fields : forall f, field_ok f (field t f) = true;
  wf_deadline : forall d, task_deadline t = Some d -> is_blank d = false /\ fromisoformat d = true;
  wf_self_dependency : task_id t ∉ task_dependencies t;
  wf_dependencies : NoDup (task_dependencies t);
  wf_reviewers : NoDup (task_reviewers t);
  wf_parent : task_parent_task_id t <> Some (task_id t);
  wf_chain : NoDup (task_delegation_chain t);
  wf_assignee_chain : forall a, task_assigned_to t = Some a -> a ∉ task_delegation_chain t;
  wf_created : task_status t = CREATED -> task_assigned_to t = None;
  wf_assignee : task_status t ∈ _REQUIRES_ASSIGNEE -> task_assigned_to t <> None;
  wf_reason : task_blocked_reason t <> None -> task_status t = BLOCKED;
  wf_plan : task_plan_item_id t <> None -> task_plan_id t <> None;
}.

Lemma validate_iso8601_deadline_ok d :
  validate_iso8601_deadline d = Ok tt <->
  forall x, d = Some x -> is_blank x = false /\ fromisoformat x = true.
Proof.
  destruct d as [x|]; simpl; [|naive_solver].
  rewrite !ensure_ok, negb_true_iff. naive_solver.
Qed.

Lemma check_collections_ok t :
  check_collections t = Ok tt <->
  task_id t ∉ task_dependencies t /\ NoDup (task_dependencies t) /\ NoDup (task_reviewers t).
Proof.
  unfold check_collections. rewrite !ensure_ok, !bool_decide_eq_true, !duplicates_nil. tauto.
Qed.

Lemma check_delegation_ok t :
  check_delegation t = Ok tt <->
  task_parent_task_id t <> Some (task_id t) /\ NoDup (task_delegation_chain t) /\
  forall a, task_assigned_to t = Some a -> a ∉ task_delegation_chain t.
Proof.
  unfold check_delegation. rewrite !ensure_ok, nonblocking, bool_decide_eq_true, duplicates_nil.
  destruct (task_assigned_to t) as [a|]; [rewrite ensure_ok, bool_decide_eq_true|]; naive_solver.
Qed.

Lemma check_assignment_consistency_ok t :
  check_assignment_consistency t = Ok tt <->
  (task_status t = CREATED -> task_assigned_to t = None) /\
  (task_status t ∈ _REQUIRES_ASSIGNEE -> task_assigned_to t <> None).
Proof.
  unfold check_assignment_consistency. rewrite !ensure_ok, !nonblocking.
  destruct (task_assigned_to t); naive_solver.
Qed.

Lemma check_blocked_reason_pairing_ok t :
  check_blocked_reason_pairing t = Ok tt <-> (task_blocked_reason t <> None -> task_status t = BLOCKED).
Proof.
  unfold check_blocked_reason_pairing. destruct (task_blocked_reason t); [|naive_solver].
  rewrite ensure_ok, bool_decide_eq_true. naive_solver.
Qed.

Lemma check_plan_linkage_ok t :
  check_plan_linkage t = Ok tt <-> (task_plan_item_id t <> None -> task_plan_id t <> None).
Proof.
  unfold check_plan_linkage. rewrite ensure_ok, nonblocking.
  destruct (task_plan_item_id t), (task_plan_id t); naive_solver.
Qed.

Lemma run_validators_ok t :
  (forall f, field_ok f (field t f) = true) -> run_validators t = Ok tt <-> well_formed t.
Proof.
  intros Hf. unfold run_validators, _validate_invariants.
  rewrite !rbind_unit, validate_iso8601_deadline_ok, check_collections_ok, check_delegation_ok,
    check_assignment_consistency_ok, check_blocked_reason_pairing_ok, check_plan_linkage_ok.
  split; [|intros []; split_and!; done].
  intros (? & (? & ? & ?) & (? & ? & ?) & (? & ?) & ? & ?). by constructor.
Qed.

Lemma field_default_ok env f v : field_default env f = Some v -> field_ok f v = true.
Proof. destruct f; intros [= <-]; reflexivity. Qed.

(** The value a payload gives a field: what is read from its key, or the
    default. *)
Definition payload_value (env : Factories) (p : gmap string obj) (f : task_field)
    : option (ftype f) :=
  match p !! field_name f with
  | Some o => coerce f o
  | None => field_default env f
  end.

Lemma read_field_Some env p f v :
  read_field env p f = Some v <-> payload_value env p f = Some v /\ field_ok f v = true.
Proof.
  unfold read_field, payload_value. destruct (p !! field_name f) as [o|].
  - destruct (coerce f o) as [w|]; simpl; [|naive_solver].
    destruct (field_ok f w) eqn:E; naive_solver congruence.
  - pose proof (field_default_ok env f v). naive_solver.
Qed.

Lemma model_validate_ok env p t :
  model_validate env p = Ok t <->
  known_keys p /\ (forall f, payload_value env p f = Some (field t f)) /\ well_formed t.
Proof.
  rewrite model_validate_fields. setoid_rewrite read_field_Some. split.
  - intros (Hk & Hf & Hr). split_and!; [done|naive_solver|].
    apply run_validators_ok; [|done]. intros f. apply Hf.
  - intros (Hk & Hf & Hr). split_and!; [done| |].
    + intros f. split; [done|]. by apply wf_fields.
    + apply run_validators_ok; [|done]. by apply wf_fields.
Qed.

Lemma payload_value_dump env t f : payload_value env (model_dump t) f = Some (field t f).
Proof. unfold payload_value. by rewrite model_dump_lookup, coerce_dump. Qed.

(** What a transition without overrides keeps. *)
Definition kept (t : Task) (target : TaskStatus) (f : task_field) : ftype f :=
  match f with
  | F_blocked_reason => if decide (target = BLOCKED) then task_blocked_reason t else None
  | F_status => target
  | f => field t f
  end.

Lemma transition_payload_value env t target ov f :
  ov !! "status"%string = None ->
  payload_value env (transition_payload t target ov) f =
  match ov !! field_name f with Some o => coerce f o | None => Some (kept t target f) end.
Proof.
  intros Hs. unfold payload_value, transition_payload.
  destruct (decide (f = F_status)) as [->|Hne].
  { simpl (field_name F_status). rewrite lookup_insert_eq, Hs. by rewrite coerce_dump. }
  assert (field_name f <> "status"%string) by (by intros ?%(field_name_inj f F_status)).
  rewrite lookup_insert_ne by done. destruct (ov !! field_name f) as [o|] eqn:Ho.
  { by erewrite lookup_union_Some_l. }
  rewrite lookup_union_r by done. case_decide as Ht.
  - rewrite model_dump_lookup, coerce_dump. destruct f; simpl; try done. by rewrite decide_True.
  - destruct (decide (f = F_blocked_reason)) as [->|Hr].
    + rewrite lookup_insert_eq, coerce_dump. simpl. by rewrite decide_False.
    + rewrite lookup_insert_ne by (by intros ?%(field_name_inj F_blocked_reason f)).
      rewrite model_dump_lookup, coerce_dump. by destruct f.
Qed.

Lemma transition_payload_known t target ov :
  known_keys (transition_payload t target ov) <-> known_keys ov.
Proof.
  unfold known_keys, transition_payload. split; intros Hk k Hin.
  - apply Hk. destruct (decide (k = "status"%string)) as [->|]; [by rewrite lookup_insert_eq|].
    rewrite lookup_insert_ne by done. destruct Hin as [o Ho]. exists o. by apply lookup_union_Some_l.
  - apply lookup_insert_is_Some in Hin as [<-|[_ Hin]];
      [exact (mk_is_Some _ _ (field_of_name_field F_status))|].
    apply lookup_union_is_Some in Hin as [?|Hin]; [by apply Hk|].
    case_decide; [by eapply model_dump_known|].
    apply lookup_insert_is_Some in Hin as [<-|[_ ?]];
      [exact (mk_is_Some _ _ (field_of_name_field F_blocked_reason))|by eapply model_dump_known].
Qed.

Lemma with_transition_ok env t target ov t' :
  with_transition env t target ov = Ok t' <->
  ov !! "status"%string = None /\ validate_transition (task_status t) target = Ok tt /\
  known_keys ov /\ well_formed t' /\
  forall f, match ov !! field_name f with Some o => coerce f o | None => Some (kept t target f) end
            = Some (field t' f).
Proof.
  unfold with_transition. case_decide as Hs.
  { destruct Hs as [o Ho]. split; [done|]. intros [Hn _]. congruence. }
  apply eq_None_not_Some in Hs.
  destruct (validate_transition (task_status t) target) as [[]|e];
    [|split; [done|]; by intros (_ & ? & _)].
  transitivity (model_validate env (transition_payload t target ov) = Ok t').
  { destruct (model_validate env _); split; congruence. }
  rewrite model_validate_ok, transition_payload_known.
  setoid_rewrite (transition_payload_value env t target ov); [|done]. naive_solver.
Qed.

End Task.
Arguments Task : clear implicits.
Arguments Runtime : clear implicits.

(** ** A concrete runtime

    Plain Python objects, read strictly: it shows that the laws of [Runtime]
    can hold, and runs the definitions on examples. *)
Module Plain.

Inductive pyobj :=
| PNone
| PSome (o : pyobj)
| PBool (b : bool)
| PInt (z : Z)
| PFloat (q : Q)
| PStr (s : string)
| PList (os : list pyobj)
| PDict (kvs : list (string * pyobj)).

Class Plain (T : Type) := {
  enc : T -> pyobj;
  dec : pyobj -> option T;
  dec_enc : forall v, dec (enc v) = Some v;
}.

#[export] Instance plain_string : Plain string.
Proof.
  refine {| enc := PStr; dec o := match o with PStr s => Some s | _ => None end |}.
  done.
Defined.
#[export] Instance plain_Z : Plain Z.
Proof.
  refine {| enc := PInt; dec o := match o with PInt z => Some z | _ => None end |}.
  done.
Defined.
#[export] Instance plain_Q : Plain Q.
Proof.
  refine {| enc := PFloat; dec o := match o with PFloat z => Some z | _ => None end |}.
  done.
Defined.
#[export] Instance plain_bool : Plain bool.
Proof.
  refine {| enc := PBool; dec o := match o with PBool z => Some z | _ => None end |}.
  done.
Defined.

#[export] Instance plain_option {T} `{Plain T} : Plain (option T).
Proof.
  refine {| enc v := match v with Some x => PSome (enc x) | None => PNone end;
     dec o := match o with PNone => Some None | PSome o => Some <$> dec o | _ => None end |}.
  intros [x|]; simpl; [by rewrite dec_enc|done].
Defined.

#[export] Instance plain_list {T} `{Plain T} : Plain (list T).
Proof.
  refine {| enc v := PList (enc <$> v);
     dec o := match o with PList os => mapM dec os | _ => None end |}.
  intros v. apply mapM_fmap_Some, dec_enc.
Defined.

#[export] Instance plain_artifact : Plain ExpectedArtifact.
Proof.
  refine {| enc a := PDict [("type", PStr (ArtifactType.artifact_type_value (artifact_type a)));
                     ("path", PStr (artifact_path a))]%string;
     dec o := match o with
       | PDict [(_, PStr t); (_, PStr p)] =>
           a ← head (filter (fun a => ArtifactType.artifact_type_value a = t) ArtifactType.members);
           Some {| artifact_type := a; artifact_path := p |}
       | _ => None end |}.
  by intros [[] p].
Defined.

#[export] Instance plain_criterion : Plain AcceptanceCriterion.
Proof.
  refine {| enc a := PDict [("description", PStr (criterion_description a));
                     ("met", PBool (criterion_met a))]%string;
     dec o := match o with
       | PDict [(_, PStr d); (_, PBool m)] => Some {| criterion_description := d; criterion_met := m |}
       | _ => None end |}.
  by intros [d m].
Defined.

#[export] Instance plain_metadata : Plain (gmap string pyobj).
Proof.
  refine {| enc m := PDict (map_to_list m);
     dec o := match o with PDict kvs => Some (list_to_map kvs) | _ => None end |}.
  intros m. simpl. by rewrite list_to_map_to_list.
Defined.

(** A [StrEnum] member travels as its value. *)
Definition plain_enum {T} (val : T -> string) (members : list T)
    (Hval : forall v, head (filter (fun w => val w = val v) members) = Some v) : Plain T :=
  {| enc v := PStr (val v);
     dec o := match o with PStr s => head (filter (fun w => val w = s) members) | _ => None end;
     dec_enc := Hval |}.

Ltac enum_value := by intros [].

#[export] Instance plain_status : Plain TaskStatus := plain_enum task_status_value members ltac:(enum_value).
#[export] Instance plain_reason : Plain BlockedReason.BlockedReason :=
  plain_enum BlockedReason.blocked_reason_value BlockedReason.members ltac:(enum_value).
#[export] Instance plain_type : Plain TaskType.TaskType :=
  plain_enum TaskType.task_type_value TaskType.members ltac:(enum_value).
#[export] Instance plain_priority : Plain Priority.Priority :=
  plain_enum Priority.priority_value Priority.members ltac:(enum_value).
#[export] Instance plain_complexity : Plain Complexity.Complexity :=
  plain_enum Complexity.complexity_value Complexity.members ltac:(enum_value).
#[export] Instance plain_stakes : Plain Stakes.Stakes :=
  plain_enum Stakes.stakes_value Stakes.members ltac:(enum_value).
#[export] Instance plain_structure : Plain TaskStructure.TaskStructure :=
  plain_enum TaskStructure.task_structure_value TaskStructure.members ltac:(enum_value).
#[export] Instance plain_topology : Plain CoordinationTopology.CoordinationTopology :=
  plain_enum CoordinationTopology.coordination_topology_value CoordinationTopology.members
    ltac:(enum_value).
#[export] Instance plain_source : Plain TaskSource.TaskSource :=
  plain_enum TaskSource.task_source_value TaskSource.members ltac:(enum_value).

#[export] Instance plain_field (f : task_field) : Plain (ftype (obj:=pyobj) f) :=
  ltac:(destruct f; simpl; apply _).

#[export] Instance plain_runtime : Runtime pyobj := {|
  coerce f := dec;
  dump f := enc;
  coerce_dump f := dec_enc;
  fromisoformat s := bool_decide (s = "2026-01-31"%string);
|}.

Definition env : Factories := {| uuid4 := "u1"; utc_now := 0 |}.

(** The keyword arguments of a small task. *)
Definition minimal : gmap string pyobj := list_to_map [
  ("title", PStr "Parse"); ("description", PStr "Write the parser");
  ("type", PStr "development"); ("project", PStr "p1"); ("created_by", PStr "ada")]%string.

Lemma minimal_ok : is_ok (model_validate env minimal) = true.
Proof. vm_compute. reflexivity. Qed.

Definition task : Task pyobj := unwrap (model_validate env minimal) minimal_ok.

End Plain.
Export (hints) Plain.

(** The task a transition without overrides makes. *)
Definition moved {obj} (t : Task obj) (target : TaskStatus) : option (Task obj) :=
  task_of (fun f => Some (kept t target f)).

Lemma moved_field {obj} (t : Task obj) target :
  exists t', moved t target = Some t' /\ forall f, field t' f = kept t target f.
Proof.
  destruct (moved t target) as [t'|] eqn:E; [|done]. exists t'. split; [done|].
  intros f. unfold moved in E. rewrite task_of_spec in E. specialize (E f). congruence.
Qed.

Lemma no_hop_to_created s : validate_transition s CREATED <> Ok tt.
Proof. destruct s; by vm_compute. Qed.

Lemma moved_well_formed {obj} `{Runtime obj} (t t' : Task obj) target :
  well_formed t -> target <> CREATED -> (forall f, field t' f = kept t target f) ->
  well_formed t' <-> (target ∈ _REQUIRES_ASSIGNEE -> task_assigned_to t <> None).
Proof.
  intros Hw Hne Hf.
  pose proof (Hf F_id) as Hid. pose proof (Hf F_deadline) as Hdl.
  pose proof (Hf F_dependencies) as Hdeps. pose proof (Hf F_reviewers) as Hrev.
  pose proof (Hf F_parent_task_id) as Hpar. pose proof (Hf F_delegation_chain) as Hch.
  pose proof (Hf F_assigned_to) as Has. pose proof (Hf F_status) as Hst.
  pose proof (Hf F_blocked_reason) as Hbr. pose proof (Hf F_plan_id) as Hp.
  pose proof (Hf F_plan_item_id) as Hpi. simpl in *.
  split.
  - intros [_ _ _ _ _ _ _ _ _ Hx _ _]. by rewrite <-Has, <-Hst.
  - intros Hx. destruct Hw as [Wf Wd Wsd Wds Wrev Wpar Wch Wac Wcr Was Wbr Wp].
    constructor; rewrite ?Hid, ?Hdl, ?Hdeps, ?Hrev, ?Hpar, ?Hch, ?Has, ?Hst, ?Hbr, ?Hp, ?Hpi;
      try done; [|by case_decide].
    intros f. rewrite Hf. pose proof (Wf f) as Wff. by destruct f.
Qed.

Lemma bare_transition {obj} `{Runtime obj} (env : Factories) (t : Task obj) (target : TaskStatus) :
  well_formed t ->
  (is_ok (with_transition env t target ∅) = true <->
   validate_transition (task_status t) target = Ok tt /\
   (target ∈ _REQUIRES_ASSIGNEE -> task_assigned_to t <> None)) /\
  (forall t', with_transition env t target ∅ = Ok t' -> moved t target = Some t').
Proof.
  intros Hw. destruct (moved_field t target) as (t' & Hm & Hf).
  assert (Hok : forall u, with_transition env t target ∅ = Ok u <->
    u = t' /\ validate_transition (task_status t) target = Ok tt /\ well_formed t').
  { intros u. rewrite with_transition_ok. split.
    - intros (_ & Hv & _ & Hu & E). assert (u = t') as ->; [|done]. apply task_ext. intros f.
      specialize (E f). rewrite lookup_empty in E. rewrite Hf. congruence.
    - intros (-> & Hv & Hw'). split_and!; try done.
      + intros k [? Hk]. by rewrite lookup_empty in Hk.
      + intros f. by rewrite lookup_empty, Hf. }
  split; [|intros u [-> _]%Hok; done].
  transitivity (validate_transition (task_status t) target = Ok tt /\ well_formed t').
  - destruct (with_transition env t target ∅) as [u|e] eqn:E; simpl.
    + destruct (proj1 (Hok u) eq_refl) as (_ & ? & ?). done.
    + split; [done|]. intros [? ?]. discriminate (proj2 (Hok t') ltac:(done)).
  - destruct (decide (target = CREATED)) as [->|Hne].
    + pose proof (no_hop_to_created (task_status t)). tauto.
    + by rewrite (moved_well_formed t t' target Hw Hne Hf).
Qed.

Lemma plain_task_well_formed : well_formed Plain.task.
Proof.
  assert (model_validate Plain.env Plain.minimal = Ok Plain.task) as E by apply unwrap_ok.
  by apply model_validate_ok in E as (_ & _ & ?).
Qed.

(** ** Claims *)

(** C40: [Task.model_validate] accepts a payload exactly when it has no unknown
    key, every field reads (or takes its default), and the task so described is
    well formed; the task it returns is that one. No other [Task] exists. *)
Theorem model_validate_exact {obj} `{Runtime obj} (env : Factories) (p : gmap string obj) (t : Task obj) :
  model_validate env p = Ok t <->
  (forall k, is_Some (p !! k) -> exists f, k = field_name f) /\
  (forall f, match p !! field_name f with
             | Some o => coerce f o
             | None => field_default env f
             end = Some (field t f)) /\
  well_formed t.
Proof.
  rewrite model_validate_ok. split; intros (Hk & Hf & Hw); split_and!; try done; intros k Hin.
  - apply Hk in Hin as [f Hf']. exists f. by apply field_of_name_Some.
  - apply Hk in Hin as [f ->]. by rewrite field_of_name_field.
Qed.

(** A task read back from its own dump is that same task; the dump of a
    record that breaks a rule is refused. So two tasks with the same dump are
    equal. *)
Theorem model_dump_roundtrip {obj} `{Runtime obj} (env : Factories) (t : Task obj) :
  (well_formed t -> model_validate env (model_dump t) = Ok t) /\
  (forall t', model_validate env (model_dump t) = Ok t' -> t' = t /\ well_formed t).
Proof.
  assert (Hk : known_keys (model_dump t)) by (intros k; apply model_dump_known).
  split.
  - intros Hw. apply model_validate_ok. split_and!; [done| |done]. intros f. apply payload_value_dump.
  - intros t' (_ & Hf & Hw)%model_validate_ok.
    assert (t = t') as ->; [|done]. apply task_ext. intros f.
    specialize (Hf f). rewrite payload_value_dump in Hf. congruence.
Qed.

Lemma model_dump_roundtrip_witness :
  model_validate Plain.env (model_dump Plain.task) = Ok Plain.task.
Proof.
  apply (model_dump_roundtrip Plain.env Plain.task), plain_task_well_formed.
Defined.

(** [with_transition] returns a task exactly when no override names the
    status, the lifecycle has the hop, every override is a field that reads,
    and the task with the target status, the overrides and everything else kept
    is well formed. The park's reason is the one thing dropped: it survives
    only a hop into [BLOCKED]. *)
Theorem with_transition_exact {obj} `{Runtime obj} (env : Factories) (t : Task obj)
    (target : TaskStatus) (ov : gmap string obj) (t' : Task obj) :
  with_transition env t target ov = Ok t' <->
  ov !! "status"%string = None /\ validate_transition (task_status t) target = Ok tt /\
  (forall k, is_Some (ov !! k) -> exists f, k = field_name f) /\
  task_status t' = target /\
  (forall f o, ov !! field_name f = Some o -> coerce f o = Some (field t' f)) /\
  (ov !! "blocked_reason"%string = None -> task_blocked_reason t' =
     if decide (target = BLOCKED) then task_blocked_reason t else None) /\
  (forall f, f <> F_status -> f <> F_blocked_reason -> ov !! field_name f = None ->
     field t' f = field t f) /\
  well_formed t'.
Proof.
  rewrite with_transition_ok. split.
  - intros (Hs & Hv & Hk & Hw & Hf). split_and!; try done.
    + intros k [f Hf']%Hk. exists f. by apply field_of_name_Some.
    + specialize (Hf F_status). simpl in Hf. rewrite Hs in Hf. congruence.
    + intros f o Ho. by rewrite <-Hf, Ho.
    + intros Hr. specialize (Hf F_blocked_reason). simpl in Hf. rewrite Hr in Hf. congruence.
    + intros f H1 H2 Hn. specialize (Hf f). rewrite Hn in Hf. injection Hf as <-. by destruct f.
  - intros (Hs & Hv & Hk & Ht & Ho & Hr & Hf & Hw). split_and!; try done.
    + intros k [f ->]%Hk. by rewrite field_of_name_field.
    + intros f. destruct (ov !! field_name f) as [o|] eqn:E; [by apply Ho|].
      destruct (decide (f = F_status)) as [->|H1]; [simpl; by subst|].
      destruct (decide (f = F_blocked_reason)) as [->|H2]; [simpl; by rewrite Hr|].
      rewrite (Hf f) by done. by destruct f.
Qed.

(** A transition without overrides moves a well formed task exactly when
    the lifecycle has the hop and a target that names someone working finds an
    assignee; the task it makes is the old one with the new status and, outside
    [BLOCKED], without a park's reason. *)
Theorem bare_transition_exact {obj} `{Runtime obj} (env : Factories) (t : Task obj) (target : TaskStatus) :
  well_formed t ->
  (is_ok (with_transition env t target ∅) = true <->
   validate_transition (task_status t) target = Ok tt /\
   (target ∈ _REQUIRES_ASSIGNEE -> task_assigned_to t <> None)) /\
  (forall t', with_transition env t target ∅ = Ok t' -> moved t target = Some t').
Proof. apply bare_transition. Qed.

Lemma bare_transition_exact_witness :
  is_ok (with_transition Plain.env Plain.task BLOCKED ∅) = true /\
  is_ok (with_transition Plain.env Plain.task ASSIGNED ∅) = false.
Proof.
  pose proof (bare_transition_exact Plain.env Plain.task BLOCKED plain_task_well_formed) as [HB _].
  pose proof (bare_transition_exact Plain.env Plain.task ASSIGNED plain_task_well_formed) as [HA _].
  split.
  - apply HB. split; [by vm_compute|]. intros Hin.
    exfalso. revert Hin. apply (bool_decide_unpack _). by vm_compute.
  - apply not_true_iff_false. intros [_ Hn]%HA. apply Hn; [apply (bool_decide_unpack _)|]; by vm_compute.
Defined.
