(* ===== verification/TaskEngine.v ===== *)
(** * TaskEngine

    The single writer of tasks: the version and span trackers of
    [engine/task_engine_version.py], the mutations and results of
    [engine/task_engine_models.py], their application in
    [engine/task_engine_apply.py] and [task_engine_apply_helpers.py], the delete
    guard of [engine/task_delete_guard.py], the events of
    [engine/task_engine_events.py] and the processing of one mutation in
    [engine/task_engine_loops.py]. *)

From stdpp Require Import gmap strings list sorting.
From Stdlib Require Import ZArith QArith Lia.
From S2P Require Import Prelude StateMachine PlanTransitions TaskEnums TaskTransitions PlanUnits TaskModel.
Import TaskStatus.
#[local] Open Scope nat_scope.

(** ** Version counters *)
Module VersionTracker.

Notation VersionTracker := (gmap string Z).

Definition seed (v : VersionTracker) (task_id : string) : VersionTracker :=
  match v !! task_id with
  | None => <[task_id := 1%Z]> v
  | Some _ => v
  end.

(** [None] where the code raises: a version below 1. *)
Definition set_initial (v : VersionTracker) (task_id : string) (version : Z) : option VersionTracker :=
  if (version <? 1)%Z then None else Some (<[task_id := version]> v).

Definition bump (v : VersionTracker) (task_id : string) : VersionTracker * Z :=
  let v := seed v task_id in
  let version := (default 1 (v !! task_id) + 1)%Z in
  (<[task_id := version]> v, version).

Definition get (v : VersionTracker) (task_id : string) : Z := default 0%Z (v !! task_id).

Definition remove (v : VersionTracker) (task_id : string) : VersionTracker := delete task_id v.

(** The tracker after the check, which seeds even when it then refuses, and the
    current version where it raises [TaskVersionConflictError]. *)
Definition check (v : VersionTracker) (task_id : string) (expected : option Z)
    : VersionTracker * option Z :=
  match expected with
  | None => (v, None)
  | Some e =>
      let v := seed v task_id in
      let current := default 1%Z (v !! task_id) in
      (v, if (current =? e)%Z then None else Some current)
  end.

(** The version the next operation sees: an untracked task counts as 1. *)
Definition current (v : VersionTracker) (task_id : string) : Z := default 1%Z (v !! task_id).

Lemma seed_current v i j : current (seed v i) j = current v j.
Proof.
  unfold current, seed. destruct (v !! i) eqn:E; [done|].
  destruct (decide (i = j)) as [->|]; [by rewrite lookup_insert_eq, E|by rewrite lookup_insert_ne].
Qed.

Lemma check_current v i e j : current (check v i e).1 j = current v j.
Proof. destruct e; [apply seed_current|done]. Qed.

Lemma check_verdict v i e :
  (check v i e).2 = match e with
                    | Some x => if decide (current v i = x) then None else Some (current v i)
                    | None => None
                    end.
Proof.
  destruct e as [x|]; [|done]. simpl. fold (current (seed v i) i). rewrite seed_current.
  destruct (Z.eqb_spec (current v i) x); case_decide; congruence.
Qed.

Lemma bump_spec v i :
  (bump v i).2 = (current v i + 1)%Z /\
  forall j, current (bump v i).1 j = if decide (j = i) then (current v i + 1)%Z else current v j.
Proof.
  unfold bump. simpl. fold (current (seed v i) i). rewrite seed_current. split; [done|].
  intros j. unfold current at 1. case_decide as E.
  - subst j. by rewrite lookup_insert_eq.
  - rewrite lookup_insert_ne by done. apply seed_current.
Qed.

Lemma remove_current v i j : current (remove v i) j = if decide (j = i) then 1%Z else current v j.
Proof.
  unfold current, remove. case_decide as E; [subst j; by rewrite lookup_delete_eq|].
  by rewrite lookup_delete_ne.
Qed.

End VersionTracker.

(** ** The open run span of each task *)
Module TaskSpanTracker.

Record Span := {
  span_task_id : string;
  span_task_type : TaskType.TaskType;
  span_final : option TaskStatus;
}.

(** The open spans, and the ended ones, latest first. *)
Record TaskSpanTracker := {
  _spans : gmap string Span;
  ended : list Span;
}.

Definition empty_tracker : TaskSpanTracker := {| _spans := ∅; ended := [] |}.

(** Pop the span of a task and end it, stamped or not. *)
Definition close (s : TaskSpanTracker) (task_id : string) (final : option TaskStatus) : TaskSpanTracker :=
  match _spans s !! task_id with
  | None => s
  | Some sp =>
      {| _spans := delete task_id (_spans s);
         ended := {| span_task_id := span_task_id sp; span_task_type := span_task_type sp;
                     span_final := final |} :: ended s |}
  end.

Definition start (s : TaskSpanTracker) (task_id : string) (task_type : TaskType.TaskType) : TaskSpanTracker :=
  let s := close s task_id None in
  {| _spans := <[task_id := {| span_task_id := task_id; span_task_type := task_type;
                               span_final := None |}]> (_spans s);
     ended := ended s |}.

Definition end_ (s : TaskSpanTracker) (task_id : string) (final_status : TaskStatus) : TaskSpanTracker :=
  close s task_id (Some final_status).

Definition remove (s : TaskSpanTracker) (task_id : string) : TaskSpanTracker := close s task_id None.

Lemma close_spans s i f : _spans (close s i f) = delete i (_spans s).
Proof. unfold close. destruct (_spans s !! i) eqn:E; [done|]. by rewrite delete_id. Qed.

Lemma start_spans s i t :
  _spans (start s i t) = <[i := {| span_task_id := i; span_task_type := t; span_final := None |}]> (_spans s).
Proof. unfold start. cbn [_spans]. rewrite close_spans. apply insert_delete_eq. Qed.

End TaskSpanTracker.
Import TaskSpanTracker (TaskSpanTracker, Span, span_task_id, _spans, ended, close_spans, start_spans).

(** ** Outcomes *)

Definition RECORDED_STATUS_OUTCOME (s : TaskStatus) : option string :=
  match s with
  | COMPLETED => Some "succeeded"%string
  | FAILED => Some "failed"%string
  | CANCELLED => Some "cancelled"%string
  | REJECTED => Some "rejected"%string
  | _ => None
  end.

Definition TRULY_TERMINAL_STATUSES : gset TaskStatus := list_to_set [COMPLETED; CANCELLED; REJECTED].

(** Seconds since the task was filed, at least zero. *)
Definition compute_task_duration_sec (created_at now : Z) : Q := Qmake (Z.max 0 (now - created_at)) 1000000.

Definition DELETABLE_STATUSES : gset PlanStatus.PlanStatus :=
  list_to_set [PlanStatus.PLANNING; PlanStatus.DRAFT; PlanStatus.PENDING_REVIEW; PlanStatus.FAILED].

(** What the delete guard reads of a plan. *)
Record PlanRow := {
  plan_row_id : string;
  plan_row_status : PlanStatus.PlanStatus;
  plan_row_parent_task : string;
}.

(** [query(parent_task_id=task_id, limit=1)] on the plans in id order. *)
Definition plan_blocking_delete (plans : list PlanRow) (task_id : string) : option PlanRow :=
  head (filter (fun p => plan_row_parent_task p = task_id) plans).

(** The two refusals: the plan can be deleted first, or it is kept for good. *)
Inductive DeleteRefusal :=
| Delete_plan_first (task_id plan_id : string)
| Plan_retained (task_id plan_id : string) (status : PlanStatus.PlanStatus).

Definition delete_refusal_message (task_id : string) (p : PlanRow) : DeleteRefusal :=
  if decide (plan_row_status p ∈ DELETABLE_STATUSES)
  then Delete_plan_first task_id (plan_row_id p)
  else Plan_retained task_id (plan_row_id p) (plan_row_status p).

(** ** Mutations *)

Definition MAX_TASK_TITLE_LENGTH : nat := 256.
Definition MAX_TASK_DESCRIPTION_LENGTH : nat := 4096.

Record CreateTaskData := {
  data_title : string;
  data_description : string;
  data_type : TaskType.TaskType;
  data_priority : Priority.Priority;
  data_project : string;
  data_created_by : string;
  data_assigned_to : option string;
  data_dependencies : list string;
  data_estimated_complexity : Complexity.Complexity;
  data_acceptance_criteria : list AcceptanceCriterion;
  data_budget_limit : Q;
}.

(** The field constraints of [CreateTaskData]. *)
Definition create_data_ok (d : CreateTaskData) : bool :=
  not_blank (data_title d) && (String.length (data_title d) <=? MAX_TASK_TITLE_LENGTH) &&
  not_blank (data_description d) &&
  (String.length (data_description d) <=? MAX_TASK_DESCRIPTION_LENGTH) &&
  not_blank (data_project d) && not_blank (data_created_by d) &&
  opt_ok not_blank (data_assigned_to d) && forallb not_blank (data_dependencies d) &&
  forallb (fun c => not_blank (criterion_description c)) (data_acceptance_criteria d) &&
  nonneg_q (data_budget_limit d).

Inductive TaskErrorCode := not_found | version_conflict | validation | internal | parent_of_plan.

#[export] Instance task_error_code_eq_dec : EqDecision TaskErrorCode.
Proof. solve_decision. Defined.

(** The fields no update and no override may name. *)
Definition _ALWAYS_IMMUTABLE_FIELDS : gset string := list_to_set ["id"; "created_by"]%string.
Definition _IMMUTABLE_TASK_FIELDS : gset string := _ALWAYS_IMMUTABLE_FIELDS ∪ {["status"%string]}.
Definition _IMMUTABLE_OVERRIDE_FIELDS : gset string := _ALWAYS_IMMUTABLE_FIELDS ∪ {["status"%string]}.

Inductive MutationError :=
| Unknown_fields (ks : list string)
| Immutable_fields (ks : list string).

Section Engine.
Context {obj : Type} `{Runtime obj}.
#[local] Open Scope py_scope.

(** The shared body of the two validators, for the fields a mutation refuses. *)
Definition reject_fields (immutable : gset string) (updates : gmap string obj)
    : result MutationError unit :=
  let keys := (map_to_list updates).*1 in
  let unknown := filter (fun k => field_of_name k = None) keys in
  ensure bool_decide (unknown = []) else Unknown_fields (sort_str unknown) in
  let forbidden := filter (fun k => k ∈ immutable) keys in
  ensure bool_decide (forbidden = []) else Immutable_fields (sort_str forbidden) in
  Ok tt.

Record CreateTaskMutation := {
  create_request_id : string;
  create_requested_by : string;
  create_task_data : CreateTaskData;
}.

Record UpdateTaskMutation := {
  update_request_id : string;
  update_requested_by : string;
  update_task_id : string;
  updates : gmap string obj;
  update_expected_version : option Z;
}.

Definition _reject_immutable_fields (m : UpdateTaskMutation) : result MutationError unit :=
  reject_fields _IMMUTABLE_TASK_FIELDS (updates m).

Record TransitionTaskMutation := {
  transition_request_id : string;
  transition_requested_by : string;
  transition_task_id : string;
  target_status : TaskStatus;
  transition_reason : string;
  overrides : gmap string obj;
  transition_expected_version : option Z;
}.

Definition _reject_immutable_overrides (m : TransitionTaskMutation) : result MutationError unit :=
  reject_fields _IMMUTABLE_OVERRIDE_FIELDS (overrides m).

Record DeleteTaskMutation := {
  delete_request_id : string;
  delete_requested_by : string;
  delete_task_id : string;
}.

Record CancelTaskMutation := {
  cancel_request_id : string;
  cancel_requested_by : string;
  cancel_task_id : string;
  cancel_reason : string;
}.

Inductive TaskMutation :=
| Create (m : CreateTaskMutation)
| Update (m : UpdateTaskMutation)
| Transition (m : TransitionTaskMutation)
| Delete (m : DeleteTaskMutation)
| Cancel (m : CancelTaskMutation).

Definition version_ok (e : option Z) : bool := opt_ok (fun v => (1 <=? v)%Z) e.

(** A mutation that its model constructs. *)
Definition mutation_ok (m : TaskMutation) : bool :=
  match m with
  | Create m => not_blank (create_request_id m) && not_blank (create_requested_by m) &&
      create_data_ok (create_task_data m)
  | Update m => not_blank (update_request_id m) && not_blank (update_requested_by m) &&
      not_blank (update_task_id m) && version_ok (update_expected_version m) &&
      is_ok (_reject_immutable_fields m)
  | Transition m => not_blank (transition_request_id m) && not_blank (transition_requested_by m) &&
      not_blank (transition_task_id m) && not_blank (transition_reason m) &&
      version_ok (transition_expected_version m) && is_ok (_reject_immutable_overrides m)
  | Delete m => not_blank (delete_request_id m) && not_blank (delete_requested_by m) &&
      not_blank (delete_task_id m)
  | Cancel m => not_blank (cancel_request_id m) && not_blank (cancel_requested_by m) &&
      not_blank (cancel_task_id m) && not_blank (cancel_reason m)
  end.

Definition request_id (m : TaskMutation) : string :=
  match m with
  | Create m => create_request_id m
  | Update m => update_request_id m
  | Transition m => transition_request_id m
  | Delete m => delete_request_id m
  | Cancel m => cancel_request_id m
  end.

(** [getattr(mutation, "task_id", None)]. *)
Definition mutation_task_id (m : TaskMutation) : option string :=
  match m with
  | Create _ => None
  | Update m => Some (update_task_id m)
  | Transition m => Some (transition_task_id m)
  | Delete m => Some (delete_task_id m)
  | Cancel m => Some (cancel_task_id m)
  end.

(** What an error text tells: the values it is formatted from. *)
Inductive ErrorText :=
| Task_not_found (task_id : string)
| Version_conflict (task_id : string) (expected current : Z)
| Invalid_data (e : TaskError)
| Invalid_transition (e : TransitionError)
| Names_objective (d : DeleteRefusal)
| Internal_error
| Loop_error
| Shut_down.

Record TaskMutationResult := {
  result_request_id : string;
  success : bool;
  result_task : option (Task obj);
  result_version : Z;
  previous_status : option TaskStatus;
  error : option ErrorText;
  error_code : option TaskErrorCode;
}.

(** The result's own consistency rule. *)
Definition _check_consistency (r : TaskMutationResult) : bool :=
  (0 <=? result_version r)%Z &&
  (if success r then bool_decide (error r = None) && bool_decide (error_code r = None)
   else negb (bool_decide (error r = None)) && negb (bool_decide (error_code r = None))).

Definition succeeded (rid : string) (t : option (Task obj)) (v : Z) (prev : option TaskStatus)
    : TaskMutationResult :=
  {| result_request_id := rid; success := true; result_task := t; result_version := v;
     previous_status := prev; error := None; error_code := None |}.

Definition failed (rid : string) (e : ErrorText) (c : TaskErrorCode) : TaskMutationResult :=
  {| result_request_id := rid; success := false; result_task := None; result_version := 0;
     previous_status := None; error := Some e; error_code := Some c |}.

Definition not_found_result (rid task_id : string) : TaskMutationResult :=
  failed rid (Task_not_found task_id) not_found.

(** ** The repository

    What [persistence.tasks] promises: upsert by id, lookup and delete by id. *)
Class TaskRepository (R : Type) := {
  repo_get : R -> string -> option (Task obj);
  repo_save : R -> Task obj -> R;
  repo_delete : R -> string -> R;
  repo_get_save : forall r t i,
    repo_get (repo_save r t) i = if decide (i = task_id t) then Some t else repo_get r i;
  repo_get_delete : forall r i j,
    repo_get (repo_delete r i) j = if decide (j = i) then None else repo_get r j;
}.

Context {R : Type} `{TaskRepository R}.

(** ** The engine's state and its environment *)

Record Engine := {
  tasks : R;
  versions : VersionTracker.VersionTracker;
  spans : TaskSpanTracker;
  task_transitions : list (TaskStatus * TaskStatus);
  task_runs : list (string * Q);
}.

(** The calls that reach outside the process. *)
Inductive Call := Call_get | Call_save | Call_delete | Call_query (reread : bool).

#[export] Instance call_eq_dec : EqDecision Call.
Proof. solve_decision. Defined.

(** What one mutation meets: the fresh id and the clock, the calls that raise
    [PersistenceError], the plans as they are at the guard's first read, at the
    delete and at its second read, and whether another constraint refuses the
    delete. *)
Record Env := {
  factories : Factories;
  call_fails : Call -> bool;
  plans_preflight : list PlanRow;
  plans_at_delete : list PlanRow;
  plans_reread : list PlanRow;
  other_constraint : bool;
}.

Inductive Exn := PersistenceError | ConstraintViolationError.

(** A section of the engine: it may raise, and what it did to the state before
    raising stays done. *)
Definition M (A : Type) : Type := Engine -> Engine * result Exn A.

Definition mret {A} (a : A) : M A := fun e => (e, Ok a).
Definition mbind_ {A B} (m : M A) (k : A -> M B) : M B := fun e =>
  match m e with
  | (e, Ok a) => k a e
  | (e, Err x) => (e, Err x)
  end.
Definition raise {A} (x : Exn) : M A := fun e => (e, Err x).
Definition gets {A} (f : Engine -> A) : M A := fun e => (e, Ok (f e)).
Definition modify (f : Engine -> Engine) : M unit := fun e => (f e, Ok tt).

Notation "'let!' x ':=' m 'in' k" := (mbind_ m (fun x => k))
  (at level 200, x name, m at level 100, k at level 200).
Notation "'do!' m 'in' k" := (mbind_ m (fun _ => k)) (at level 200, m at level 100, k at level 200).

Definition call {A} (env : Env) (c : Call) (m : M A) : M A :=
  if call_fails env c then raise PersistenceError else m.

Definition set_tasks (r : R) (e : Engine) : Engine :=
  {| tasks := r; versions := versions e; spans := spans e;
     task_transitions := task_transitions e; task_runs := task_runs e |}.
Definition set_versions (v : VersionTracker.VersionTracker) (e : Engine) : Engine :=
  {| tasks := tasks e; versions := v; spans := spans e;
     task_transitions := task_transitions e; task_runs := task_runs e |}.
Definition set_spans (s : TaskSpanTracker) (e : Engine) : Engine :=
  {| tasks := tasks e; versions := versions e; spans := s;
     task_transitions := task_transitions e; task_runs := task_runs e |}.

Definition tasks_get (env : Env) (i : string) : M (option (Task obj)) :=
  call env Call_get (gets (fun e => repo_get (tasks e) i)).
Definition tasks_save (env : Env) (t : Task obj) : M unit :=
  call env Call_save (modify (fun e => set_tasks (repo_save (tasks e) t) e)).

Definition versions_check (i : string) (expected : option Z) : M (option Z) := fun e =>
  let '(v, conflict) := VersionTracker.check (versions e) i expected in
  (set_versions v e, Ok conflict).
Definition versions_bump (i : string) : M Z := fun e =>
  let '(v, n) := VersionTracker.bump (versions e) i in (set_versions v e, Ok n).

(** [spans is not None]: the engine always passes its tracker. *)
Definition with_spans (f : TaskSpanTracker -> TaskSpanTracker) : M unit :=
  modify (fun e => set_spans (f (spans e)) e).

Definition record_task_transition (from_status to_status : TaskStatus) : M unit :=
  modify (fun e => {| tasks := tasks e; versions := versions e; spans := spans e;
    task_transitions := task_transitions e ++ [(from_status, to_status)]; task_runs := task_runs e |}).
Definition record_task_run (outcome : string) (duration : Q) : M unit :=
  modify (fun e => {| tasks := tasks e; versions := versions e; spans := spans e;
    task_transitions := task_transitions e; task_runs := task_runs e ++ [(outcome, duration)] |}).

(** ** Applying a mutation *)

(** The keyword arguments [apply_create] passes to [Task]. *)
Definition create_payload (env : Env) (d : CreateTaskData) : gmap string obj :=
  list_to_map [
    ("id", dump F_id (uuid4 (factories env)));
    ("title", dump F_title (data_title d));
    ("description", dump F_description (data_description d));
    ("type", dump F_type (data_type d));
    ("priority", dump F_priority (data_priority d));
    ("project", dump F_project (data_project d));
    ("created_by", dump F_created_by (data_created_by d));
    ("assigned_to", dump F_assigned_to (data_assigned_to d));
    ("dependencies", dump F_dependencies (data_dependencies d));
    ("estimated_complexity", dump F_estimated_complexity (data_estimated_complexity d));
    ("acceptance_criteria", dump F_acceptance_criteria (data_acceptance_criteria d));
    ("budget_limit", dump F_budget_limit (data_budget_limit d));
    ("created_at", dump F_created_at (utc_now (factories env)))]%string.

Definition apply_create (env : Env) (m : CreateTaskMutation) : M TaskMutationResult :=
  let d := create_task_data m in
  let new_id := uuid4 (factories env) in
  match model_validate (factories env) (create_payload env d) with
  | Err x => mret (failed (create_request_id m) (Invalid_data x) validation)
  | Ok t =>
      do! tasks_save env t in
      do! modify (fun e => set_versions
            (default (versions e) (VersionTracker.set_initial (versions e) new_id 1)) e) in
      do! with_spans (fun s => TaskSpanTracker.start s new_id (data_type d)) in
      mret (succeeded (create_request_id m) (Some t) 1 None)
  end.

Definition apply_update (env : Env) (m : UpdateTaskMutation) : M TaskMutationResult :=
  let i := update_task_id m in
  let rid := update_request_id m in
  let! found := tasks_get env i in
  match found with
  | None => mret (not_found_result rid i)
  | Some t =>
      let! conflict := versions_check i (update_expected_version m) in
      match conflict, update_expected_version m with
      | Some current, Some expected =>
          mret (failed rid (Version_conflict i expected current) version_conflict)
      | _, _ =>
          if decide (updates m = ∅) then
            let! v := gets (fun e => VersionTracker.get (versions e) i) in
            mret (succeeded rid (Some t) v (Some (task_status t)))
          else
            match model_validate (factories env) (updates m ∪ model_dump t) with
            | Err x => mret (failed rid (Invalid_data x) validation)
            | Ok updated =>
                do! tasks_save env updated in
                let! v := versions_bump i in
                mret (succeeded rid (Some updated) v (Some (task_status t)))
            end
      end
  end.

(** The hops that end a run's span. *)
Definition ends_run (target : TaskStatus) : bool :=
  bool_decide (target ∈ TRULY_TERMINAL_STATUSES) || bool_decide (target = FAILED).

Definition apply_transition (env : Env) (m : TransitionTaskMutation) : M TaskMutationResult :=
  let i := transition_task_id m in
  let rid := transition_request_id m in
  let target := target_status m in
  let! found := tasks_get env i in
  match found with
  | None => mret (not_found_result rid i)
  | Some t =>
      let! conflict := versions_check i (transition_expected_version m) in
      match conflict, transition_expected_version m with
      | Some current, Some expected =>
          mret (failed rid (Version_conflict i expected current) version_conflict)
      | _, _ =>
          let previous := task_status t in
          match with_transition (factories env) t target (overrides m) with
          | Err x => mret (failed rid (Invalid_transition x) validation)
          | Ok updated =>
              do! tasks_save env updated in
              let! v := versions_bump i in
              do! record_task_transition previous target in
              do! (match RECORDED_STATUS_OUTCOME target with
                   | Some outcome => record_task_run outcome
                       (compute_task_duration_sec (task_created_at updated) (utc_now (factories env)))
                   | None => mret tt
                   end) in
              do! (if ends_run target then with_spans (fun s => TaskSpanTracker.end_ s i target)
                   else mret tt) in
              do! (if bool_decide (previous = FAILED /\ target = ASSIGNED)
                   then with_spans (fun s => TaskSpanTracker.start s i (task_type updated))
                   else mret tt) in
              mret (succeeded rid (Some updated) v (Some previous))
          end
      end
  end.

Definition _parent_of_plan_result (m : DeleteTaskMutation) (blocking : PlanRow) : TaskMutationResult :=
  failed (delete_request_id m) (Names_objective (delete_refusal_message (delete_task_id m) blocking))
    parent_of_plan.

Definition query_plans (env : Env) (reread : bool) (i : string) : M (option PlanRow) :=
  call env (Call_query reread)
    (mret (plan_blocking_delete (if reread then plans_reread env else plans_preflight env) i)).

(** The row is gone and whether there was one; a plan that names the task
    restricts the delete. *)
Definition tasks_delete (env : Env) (i : string) : M bool :=
  call env Call_delete (fun e =>
    match repo_get (tasks e) i with
    | None => (e, Ok false)
    | Some _ =>
        if other_constraint env || bool_decide (is_Some (plan_blocking_delete (plans_at_delete env) i))
        then (e, Err ConstraintViolationError)
        else (set_tasks (repo_delete (tasks e) i) e, Ok true)
    end).

(** [try m except ConstraintViolationError: handler]. *)
Definition on_constraint {A} (m : M A) (k : A -> M TaskMutationResult) (handler : M TaskMutationResult)
    : M TaskMutationResult := fun e =>
  match m e with
  | (e, Ok a) => k a e
  | (e, Err ConstraintViolationError) => handler e
  | (e, Err x) => (e, Err x)
  end.

Definition apply_delete (env : Env) (m : DeleteTaskMutation) : M TaskMutationResult :=
  let i := delete_task_id m in
  let! blocking := query_plans env false i in
  match blocking with
  | Some p => mret (_parent_of_plan_result m p)
  | None =>
      on_constraint (tasks_delete env i)
        (fun deleted =>
           if negb deleted then mret (not_found_result (delete_request_id m) i) else
           do! modify (fun e => set_versions (VersionTracker.remove (versions e) i) e) in
           do! with_spans (fun s => TaskSpanTracker.remove s i) in
           mret (succeeded (delete_request_id m) None 0 None))
        (let! raced := query_plans env true i in
         match raced with
         | None => raise ConstraintViolationError
         | Some p => mret (_parent_of_plan_result m p)
         end)
  end.

Definition apply_cancel (env : Env) (m : CancelTaskMutation) : M TaskMutationResult :=
  let i := cancel_task_id m in
  let rid := cancel_request_id m in
  let! found := tasks_get env i in
  match found with
  | None => mret (not_found_result rid i)
  | Some t =>
      let previous := task_status t in
      match with_transition (factories env) t CANCELLED ∅ with
      | Err x => mret (failed rid (Invalid_transition x) validation)
      | Ok updated =>
          do! tasks_save env updated in
          let! v := versions_bump i in
          do! record_task_transition previous CANCELLED in
          do! record_task_run "cancelled"
                (compute_task_duration_sec (task_created_at updated) (utc_now (factories env))) in
          do! with_spans (fun s => TaskSpanTracker.end_ s i CANCELLED) in
          mret (succeeded rid (Some updated) v (Some previous))
      end
  end.

Definition dispatch (env : Env) (m : TaskMutation) : M TaskMutationResult :=
  match m with
  | Create m => apply_create env m
  | Update m => apply_update env m
  | Transition m => apply_transition env m
  | Delete m => apply_delete env m
  | Cancel m => apply_cancel env m
  end.

(** ** One turn of the processing loop: any exception becomes [internal]. *)
Definition _process_one (env : Env) (m : TaskMutation) (e : Engine) : Engine * TaskMutationResult :=
  match dispatch env m e with
  | (e, Ok r) => (e, r)
  | (e, Err _) => (e, failed (request_id m) Internal_error internal)
  end.

End Engine.
Arguments Engine : clear implicits.
Arguments TaskMutation : clear implicits.
Arguments TaskMutationResult : clear implicits.
