(* ===== verification/TaskEngineProofs.v ===== *)
(** * TaskEngineProofs

    What the task engine promises: every turn of its processing loop is one
    change of the store that the mutation asked for, answered by the right
    result; runs of the loop keep the store valid, tasks identical and their
    versions increasing. *)

From stdpp Require Import gmap strings list sorting relations.
From Stdlib Require Import ZArith QArith Lia.
From S2P Require Import Prelude StateMachine PlanTransitions TaskEnums TaskTransitions PlanUnits TaskModel TaskEngine.
Import TaskStatus.
Import TaskSpanTracker (TaskSpanTracker, Span, span_task_id, _spans, ended, close_spans, start_spans).
#[local] Open Scope nat_scope.

Section Engine.
Context {obj : Type} `{Runtime obj} {R : Type} `{!TaskRepository (obj:=obj) R}.
#[local] Notation Engine := (TaskEngine.Engine R).
#[local] Notation TaskMutation := (TaskEngine.TaskMutation obj).
#[local] Notation TaskMutationResult := (TaskEngine.TaskMutationResult obj).

(** ** What one mutation does to the engine *)

(** The five ways the state changes. A refused mutation may still have seeded a
    version, which no later check can tell. *)
Inductive Change :=
| Kept
| Created (t : Task obj)
| Rewritten (old t : Task obj)
| Moved (old t : Task obj)
| Removed (i : string).

Definition stored (e : Engine) (i : string) : option (Task obj) := repo_get (tasks e) i.

Definition version (e : Engine) (i : string) : Z := VersionTracker.current (versions e) i.

(** The metric entries of one hop. *)
Definition runs_of (s : TaskStatus) : list string := option_list (RECORDED_STATUS_OUTCOME s).

Definition upd {A} (f : string -> A) (i : string) (a : A) : string -> A :=
  fun j => if decide (j = i) then a else f j.

Definition put (f : string -> option (Task obj)) (t : Task obj) := upd f (task_id t) (Some t).

Record follows (e e' : Engine) (st : string -> option (Task obj)) (vs : string -> Z)
    (hops : list (TaskStatus * TaskStatus)) : Prop := {
  follows_stored : forall i, stored e' i = st i;
  follows_version : forall i, version e' i = vs i;
  follows_hops : task_transitions e' = task_transitions e ++ hops;
  follows_runs : (task_runs e').*1 = (task_runs e).*1 ++ flat_map (fun h => runs_of h.2) hops;
}.

Definition changed (e : Engine) (c : Change) (e' : Engine) : Prop :=
  match c with
  | Kept => follows e e' (stored e) (version e) [] /\ spans e' = spans e
  | Created t =>
      follows e e' (put (stored e) t) (upd (version e) (task_id t) 1%Z) [] /\
      spans e' = TaskSpanTracker.start (spans e) (task_id t) (task_type t)
  | Rewritten old t =>
      follows e e' (put (stored e) t) (upd (version e) (task_id old) (version e (task_id old) + 1)%Z) [] /\
      spans e' = spans e
  | Moved old t =>
      follows e e' (put (stored e) t) (upd (version e) (task_id old) (version e (task_id old) + 1)%Z)
        [(task_status old, task_status t)] /\
      spans e' =
        (let s := if ends_run (task_status t)
                  then TaskSpanTracker.end_ (spans e) (task_id old) (task_status t) else spans e in
         if bool_decide (task_status old = FAILED /\ task_status t = ASSIGNED)
         then TaskSpanTracker.start s (task_id old) (task_type t) else s)
  | Removed i =>
      follows e e' (upd (stored e) i None) (upd (version e) i 1%Z) [] /\
      spans e' = TaskSpanTracker.remove (spans e) i
  end.

(** A store whose rows are well formed and found under their own id. *)
Definition store_ok (e : Engine) : Prop :=
  forall i t, stored e i = Some t -> task_id t = i /\ well_formed t.

(** A hop a mutation asks for: the row, the target and the overrides. *)
Definition hop_request (m : TaskMutation) : option (string * TaskStatus * gmap string obj) :=
  match m with
  | Transition x => Some (transition_task_id x, target_status x, overrides x)
  | Cancel x => Some (cancel_task_id x, CANCELLED, ∅)
  | _ => None
  end.

Definition expected_version (m : TaskMutation) : option Z :=
  match m with
  | Update x => update_expected_version x
  | Transition x => transition_expected_version x
  | _ => None
  end.

(** What justifies a change, and the result that answers it. *)
Definition answered (env : Env) (m : TaskMutation) (e : Engine) (c : Change) (e' : Engine)
    (r : TaskMutationResult) : Prop :=
  match c with
  | Kept => (exists err code, r = failed (request_id m) err code) \/ exists x t, m = Update x /\ updates x = ∅ /\
      stored e (update_task_id x) = Some t /\
      r = succeeded (request_id m) (Some t) (VersionTracker.get (versions e') (task_id t)) (Some (task_status t))
  | Created t => exists x, m = Create x /\
      model_validate (factories env) (create_payload env (create_task_data x)) = Ok t /\
      task_id t = uuid4 (factories env) /\
      r = succeeded (request_id m) (Some t) 1 None
  | Rewritten old t => exists x, m = Update x /\ stored e (update_task_id x) = Some old /\
      updates x <> ∅ /\ model_validate (factories env) (updates x ∪ model_dump old) = Ok t /\
      r = succeeded (request_id m) (Some t) (version e' (task_id old)) (Some (task_status old))
  | Moved old t => exists i target ov, hop_request m = Some (i, target, ov) /\ stored e i = Some old /\
      with_transition (factories env) old target ov = Ok t /\ task_status t = target /\
      r = succeeded (request_id m) (Some t) (version e' (task_id old)) (Some (task_status old))
  | Removed i => exists x, m = Delete x /\ delete_task_id x = i /\ is_Some (stored e i) /\
      plan_blocking_delete (plans_preflight env) i = None /\
      plan_blocking_delete (plans_at_delete env) i = None /\
      r = succeeded (request_id m) None 0 None
  end.

(** ** Payloads of the engine *)

(** The ids of a mutation's payload are out of reach. *)
Lemma reject_fields_ok immutable (ups : gmap string obj) :
  reject_fields immutable ups = Ok tt <->
  known_keys ups /\ forall k, k ∈ immutable -> ups !! k = None.
Proof.
  unfold reject_fields. rewrite !ensure_ok, !bool_decide_eq_true, !filter_nil_iff. split.
  - intros (Hu & Hf & _). split.
    + intros k [o Ho]. apply not_eq_None_Some, Hu. apply list_elem_of_fmap. exists (k, o).
      by rewrite elem_of_map_to_list.
    + intros k Hk. apply eq_None_not_Some. intros [o Ho]. apply (Hf k); [|done].
      apply list_elem_of_fmap. exists (k, o). by rewrite elem_of_map_to_list.
  - intros [Hk Hi]. split_and!; try done;
      intros k ([k' o] & -> & Ho%elem_of_map_to_list)%list_elem_of_fmap; simpl in *.
    + apply not_eq_None_Some, Hk. by exists o.
    + intros Hin%Hi. congruence.
Qed.

Lemma update_fields env t ups t' f :
  model_validate env (ups ∪ model_dump t) = Ok t' -> ups !! field_name f = None ->
  field t' f = field t f.
Proof.
  intros (_ & Hf & _)%model_validate_ok Hn. specialize (Hf f). unfold payload_value in Hf.
  rewrite lookup_union_r, model_dump_lookup, coerce_dump in Hf by done. congruence.
Qed.

Lemma transition_fields env t target ov t' f :
  with_transition env t target ov = Ok t' -> ov !! field_name f = None -> field t' f = kept t target f.
Proof.
  intros (_ & _ & _ & _ & Hf)%with_transition_ok Hn. specialize (Hf f). rewrite Hn in Hf. congruence.
Qed.

(** The fields a create names, with their values. *)
Definition create_value (env : Env) (d : CreateTaskData) (f : task_field) : option (ftype (obj:=obj) f) :=
  match f with
  | F_id => Some (uuid4 (factories env))
  | F_title => Some (data_title d)
  | F_description => Some (data_description d)
  | F_type => Some (data_type d)
  | F_priority => Some (data_priority d)
  | F_project => Some (data_project d)
  | F_created_by => Some (data_created_by d)
  | F_assigned_to => Some (data_assigned_to d)
  | F_dependencies => Some (data_dependencies d)
  | F_estimated_complexity => Some (data_estimated_complexity d)
  | F_acceptance_criteria => Some (data_acceptance_criteria d)
  | F_budget_limit => Some (data_budget_limit d)
  | F_created_at => Some (utc_now (factories env))
  | _ => None
  end.

Lemma create_payload_lookup env d f :
  create_payload env d !! field_name f = dump f <$> create_value env d f.
Proof. by destruct f. Qed.

Lemma create_payload_known env d : known_keys (create_payload env d).
Proof.
  intros k [o Ho%elem_of_list_to_map_2].
  repeat (apply elem_of_cons in Ho as [[= -> ->]|Ho]; [by eexists|]). by apply elem_of_nil in Ho.
Qed.

Lemma create_payload_value env d f :
  payload_value (factories env) (create_payload env d) f =
  match create_value env d f with Some v => Some v | None => field_default (factories env) f end.
Proof.
  unfold payload_value. rewrite create_payload_lookup.
  destruct (create_value env d f); simpl; [by rewrite coerce_dump|done].
Qed.

Lemma create_fields env d t :
  model_validate (factories env) (create_payload env d) = Ok t ->
  task_id t = uuid4 (factories env) /\ task_status t = CREATED /\
  task_type t = data_type d /\ task_created_by t = data_created_by d /\ well_formed t.
Proof.
  intros (_ & Hf & Hw)%model_validate_ok. setoid_rewrite create_payload_value in Hf.
  pose proof (Hf F_id). pose proof (Hf F_status). pose proof (Hf F_type).
  pose proof (Hf F_created_by). simpl in *. naive_solver.
Qed.

Lemma create_value_ok env d f v :
  create_data_ok d = true -> create_value env d f = Some v -> field_ok f v = true.
Proof.
  unfold create_data_ok. rewrite !andb_true_iff. intros Hok. destruct f; intros [= <-]; simpl; tauto.
Qed.

(** A create is accepted exactly when it names no assignee, repeats no
    dependency and does not depend on the id it is given. *)
Lemma create_accepted env d :
  create_data_ok d = true ->
  is_ok (model_validate (factories env) (create_payload env d)) = true <->
  data_assigned_to d = None /\ NoDup (data_dependencies d) /\ uuid4 (factories env) ∉ data_dependencies d.
Proof.
  intros Hok. destruct (task_of_total (fun f => payload_value (factories env) (create_payload env d) f)) as [t Ht].
  { intros f. rewrite create_payload_value. by destruct f. }
  assert (Hv : is_ok (model_validate (factories env) (create_payload env d)) = true <-> well_formed t).
  { rewrite task_of_spec in Ht. transitivity (model_validate (factories env) (create_payload env d) = Ok t).
    - destruct (model_validate _ _) as [u|] eqn:E; [|naive_solver]. split; [|done]. intros _. f_equal.
      apply model_validate_ok in E as (_ & E & _). apply task_ext. intros f. specialize (E f).
      rewrite Ht in E. congruence.
    - rewrite model_validate_ok. pose proof (create_payload_known env d). naive_solver. }
  rewrite Hv. clear Hv. rewrite task_of_spec in Ht. setoid_rewrite create_payload_value in Ht.
  assert (Hf : forall f, match create_value env d f with Some v => field t f = v | None =>
    field_default (factories env) f = Some (field t f) end).
  { intros f. specialize (Ht f). destruct (create_value env d f); congruence. }
  clear Ht. split.
  - intros [_ _ W1 W2 _ _ _ _ W3 _ _ _].
    pose proof (Hf F_id) as E1. pose proof (Hf F_dependencies) as E2. pose proof (Hf F_status) as E3.
    pose proof (Hf F_assigned_to) as E4. simpl in *. injection E3 as E3.
    rewrite <-E1, <-E2, <-E4. split_and!; [by apply W3|done|done].
  - intros (Ha & Hd & Hi).
    pose proof (Hf F_id) as E1. pose proof (Hf F_dependencies) as E2. pose proof (Hf F_status) as E3.
    pose proof (Hf F_assigned_to) as E4. pose proof (Hf F_deadline) as E5. pose proof (Hf F_reviewers) as E6.
    pose proof (Hf F_parent_task_id) as E7. pose proof (Hf F_delegation_chain) as E8.
    pose proof (Hf F_blocked_reason) as E9. pose proof (Hf F_plan_item_id) as E10.
    simpl in *. simplify_eq. constructor; try congruence.
    + intros f. specialize (Hf f). destruct (create_value env d f) as [v|] eqn:E.
      * rewrite Hf. by apply (create_value_ok env d).
      * by apply field_default_ok in Hf.
    + rewrite <-E6. constructor.
    + rewrite <-E8. constructor.
    + rewrite <-E3. intros Hin. exfalso. revert Hin. apply (bool_decide_unpack _). by vm_compute.
Qed.

(** ** Every turn is one change *)

#[local] Opaque VersionTracker.bump VersionTracker.check.


Lemma follows_seed i expected e :
  changed e Kept (set_versions (VersionTracker.check (versions e) i expected).1 e).
Proof.
  split; [|done]. split; try done.
  - intros j. apply VersionTracker.check_current.
  - by rewrite app_nil_r.
  - by rewrite app_nil_r.
Qed.

Lemma changed_refl e : changed e Kept e.
Proof. split; [|done]. split; try done; by rewrite app_nil_r. Qed.

(** Saving a row and bumping its version, after a check that may have seeded. *)
Lemma write_follows e v i t :
  (forall j, VersionTracker.current v j = version e j) ->
  follows e (set_versions (VersionTracker.bump v i).1 (set_tasks (repo_save (tasks e) t) (set_versions v e)))
    (put (stored e) t) (upd (version e) i (version e i + 1)%Z) [].
Proof.
  intros Hv. destruct (VersionTracker.bump_spec v i) as [_ Hb]. split; simpl.
  - intros j. unfold stored. simpl. by rewrite repo_get_save.
  - intros j. unfold version at 1. simpl. rewrite Hb. unfold upd. by rewrite !Hv.
  - by rewrite app_nil_r.
  - by rewrite app_nil_r.
Qed.

(** Recording the hop after the write. *)
Lemma hop_follows e e1 st vs from target d :
  follows e e1 st vs [] ->
  follows e {| tasks := tasks e1; versions := versions e1; spans := spans e1;
               task_transitions := task_transitions e1 ++ [(from, target)];
               task_runs := task_runs e1 ++
                 match RECORDED_STATUS_OUTCOME target with Some o => [(o, d)] | None => [] end |}
    st vs [(from, target)].
Proof.
  intros [Hs Hv Hh Hr]. split; simpl in *; try done.
  - by rewrite Hh, app_nil_r.
  - rewrite fmap_app, Hr, !app_nil_r. unfold runs_of. by destruct (RECORDED_STATUS_OUTCOME target).
Qed.

(** Spans are no part of the store, the versions or the metrics. *)
Lemma follows_spans e e1 st vs hops s :
  follows e (set_spans s e1) st vs hops <-> follows e e1 st vs hops.
Proof. split; intros []; by split. Qed.

(** The verdict of a check: a conflict names the current version, and without
    one an expected version is the current one. *)
Lemma check_passes v i expected :
  match (VersionTracker.check v i expected).2, expected with
  | Some current, Some x => x <> VersionTracker.current v i /\ current = VersionTracker.current v i
  | None, _ => forall x, expected = Some x -> VersionTracker.current v i = x
  | Some _, None => False
  end.
Proof.
  rewrite VersionTracker.check_verdict. destruct expected as [x|]; [|done]. case_decide; naive_solver.
Qed.

(** One turn: some change, justified and answered, and a success that named a
    version named the current one. *)
Definition turn (env : Env) (m : TaskMutation) (e e' : Engine) (r : TaskMutationResult) : Prop :=
  exists c, changed e c e' /\ answered env m e c e' r /\
    (success r = true -> forall v, expected_version m = Some v ->
       exists i, mutation_task_id m = Some i /\ version e i = v).

(** A turn that fails changes nothing. *)
Lemma turn_fails env m e e' err code :
  changed e Kept e' -> turn env m e e' (failed (request_id m) err code).
Proof. intros Hc. exists Kept. split_and!; [done|left; by eexists _, _|done]. Qed.

Section Turn.
Context (env : Env) (e e' : Engine) (r : TaskMutationResult).
Hypothesis Hstore : store_ok e.

Lemma create_turn x : _process_one env (Create x) e = (e', r) -> turn env (Create x) e e' r.
Proof.
  unfold _process_one, dispatch, apply_create.
  destruct (model_validate _ _) as [t|err] eqn:Hv.
  - pose proof (create_fields _ _ _ Hv) as (Hid & _ & Hty & _).
    unfold mbind_, tasks_save, call. destruct (call_fails env Call_save); simpl; intros [= <- <-].
    + apply turn_fails, changed_refl.
    + exists (Created t). rewrite <-Hid, <-Hty. split_and!; [|by eexists|done]. split; [|done]. split.
      * intros j. unfold stored. simpl. by rewrite repo_get_save.
      * intros j. unfold version, upd, VersionTracker.current. simpl.
        case_decide as E; [subst j; by rewrite lookup_insert_eq|by rewrite lookup_insert_ne].
      * by rewrite app_nil_r.
      * by rewrite app_nil_r.
  - intros [= <- <-]. apply turn_fails, changed_refl.
Qed.

Lemma update_turn x :
  _reject_immutable_fields x = Ok tt ->
  _process_one env (Update x) e = (e', r) -> turn env (Update x) e e' r.
Proof.
  intros [_ Hok]%reject_fields_ok. unfold _process_one, dispatch, apply_update, mbind_, tasks_get, call.
  destruct (call_fails env Call_get); simpl.
  { intros [= <- <-]. apply turn_fails, changed_refl. }
  destruct (repo_get (tasks e) (update_task_id x)) as [t|] eqn:Hget; simpl.
  2: { intros [= <- <-]. apply turn_fails, changed_refl. }
  destruct (Hstore _ _ Hget) as [Hid Hwf].
  unfold versions_check. pose proof (follows_seed (update_task_id x) (update_expected_version x) e) as Hseed.
  pose proof (check_passes (versions e) (update_task_id x) (update_expected_version x)) as Hpass.
  destruct (VersionTracker.check _ _ _) as [v [cur|]]; simpl in *.
  { destruct (update_expected_version x) as [ex|]; [|done]. intros [= <- <-]. by apply turn_fails. }
  assert (Hexp : forall w, expected_version (Update x) = Some w ->
    exists i, mutation_task_id (Update x) = Some i /\ version e i = w).
  { intros w Hw. exists (update_task_id x). split; [done|]. by apply Hpass. }
  case_decide as Hups.
  - intros [= <- <-]. exists Kept. split_and!; [done| |done]. right. exists x, t. by rewrite Hid.
  - destruct (model_validate _ _) as [t'|err] eqn:Hv.
    2: { intros [= <- <-]. by apply turn_fails. }
    unfold tasks_save, call. destruct (call_fails env Call_save).
    { intros [= <- <-]. by apply turn_fails. }
    unfold versions_bump, modify. cbn -[VersionTracker.bump].
    pose proof (write_follows e v (update_task_id x) t' (follows_version _ _ _ _ _ (proj1 Hseed))) as Hw.
    destruct (VersionTracker.bump_spec v (update_task_id x)) as [Hn Hcur].
    destruct (VersionTracker.bump v (update_task_id x)) as [v' n]. simpl in *.
    intros [= <- <-]. exists (Rewritten t t'). unfold changed. rewrite Hid. split_and!; [done|done| |done].
    exists x. split_and!; try done. f_equal. rewrite Hid.
    unfold version. simpl. by rewrite Hn, Hcur, decide_True.
Qed.

Lemma delete_turn x : _process_one env (Delete x) e = (e', r) -> turn env (Delete x) e e' r.
Proof.
  unfold _process_one, dispatch, apply_delete, mbind_, query_plans, call, mret.
  destruct (call_fails env (Call_query false)); simpl.
  { intros [= <- <-]. apply turn_fails, changed_refl. }
  destruct (plan_blocking_delete (plans_preflight env) (delete_task_id x)) as [p|] eqn:Hpre; simpl.
  { intros [= <- <-]. apply turn_fails, changed_refl. }
  unfold on_constraint, tasks_delete, call. destruct (call_fails env Call_delete); simpl.
  { intros [= <- <-]. apply turn_fails, changed_refl. }
  destruct (repo_get (tasks e) (delete_task_id x)) as [t|] eqn:Hget; simpl.
  2: { intros [= <- <-]. apply turn_fails, changed_refl. }
  destruct (other_constraint env || _) eqn:Hcon.
  - destruct (call_fails env (Call_query true)); simpl.
    { intros [= <- <-]. apply turn_fails, changed_refl. }
    destruct (plan_blocking_delete (plans_reread env) (delete_task_id x)); simpl;
      intros [= <- <-]; apply turn_fails, changed_refl.
  - apply orb_false_elim in Hcon as [_ Hat%bool_decide_eq_false]. simpl. intros [= <- <-].
    apply eq_None_not_Some in Hat.
    exists (Removed (delete_task_id x)). split_and!; [|exists x; by rewrite Hpre|done].
    split; [|done]. split; simpl; rewrite ?app_nil_r; try done.
    + intros j. unfold stored. simpl. by rewrite repo_get_delete.
    + intros j. apply VersionTracker.remove_current.
Qed.

(** The end both hops share: write the row, record the hop, keep the spans. *)
Lemma hop_turn i target ov rid m v t t' d s :
  hop_request m = Some (i, target, ov) -> stored e i = Some t ->
  with_transition (factories env) t target ov = Ok t' ->
  (forall j, VersionTracker.current v j = version e j) -> rid = request_id m ->
  (forall w, expected_version m = Some w -> exists i, mutation_task_id m = Some i /\ version e i = w) ->
  s = (let s := if ends_run target then TaskSpanTracker.end_ (spans e) i target else spans e in
       if bool_decide (task_status t = FAILED /\ target = ASSIGNED)
       then TaskSpanTracker.start s i (task_type t') else s) ->
  turn env m e
    (set_spans s
       {| tasks := repo_save (tasks e) t'; versions := (VersionTracker.bump v i).1; spans := spans e;
          task_transitions := task_transitions e ++ [(task_status t, target)];
          task_runs := task_runs e ++
            match RECORDED_STATUS_OUTCOME target with Some o => [(o, d)] | None => [] end |})
    (succeeded rid (Some t') (VersionTracker.bump v i).2 (Some (task_status t))).
Proof.
  intros Hreq Hget Ht Hv -> Hexp ->. destruct (Hstore _ _ Hget) as [Hid Hwf].
  pose proof (transition_fields _ _ _ _ _ F_status Ht) as Hst.
  apply with_transition_ok in Ht as Hov. destruct Hov as [Hstatus _]. specialize (Hst Hstatus). simpl in Hst.
  pose proof (write_follows e v i t' Hv) as Hw. apply (hop_follows _ _ _ _ (task_status t) target d) in Hw.
  simpl in Hw. exists (Moved t t'). unfold changed. rewrite Hid, Hst.
  split_and!; [by apply follows_spans|done|exists i, target, ov|done].
  - split_and!; try done. f_equal. destruct (VersionTracker.bump_spec v i) as [-> _].
    rewrite Hid. unfold version. simpl. rewrite (proj2 (VersionTracker.bump_spec v i)).
    by rewrite decide_True.
Qed.

Lemma transition_turn x : _process_one env (Transition x) e = (e', r) -> turn env (Transition x) e e' r.
Proof.
  unfold _process_one, dispatch, apply_transition, mbind_, tasks_get, call.
  destruct (call_fails env Call_get); simpl.
  { intros [= <- <-]. apply turn_fails, changed_refl. }
  destruct (repo_get (tasks e) (transition_task_id x)) as [t|] eqn:Hget; simpl.
  2: { intros [= <- <-]. apply turn_fails, changed_refl. }
  unfold versions_check.
  pose proof (follows_seed (transition_task_id x) (transition_expected_version x) e) as Hseed.
  pose proof (check_passes (versions e) (transition_task_id x) (transition_expected_version x)) as Hpass.
  destruct (VersionTracker.check _ _ _) as [v [cur|]]; simpl in *.
  { destruct (transition_expected_version x) as [ex|]; [|done]. intros [= <- <-]. by apply turn_fails. }
  destruct (with_transition _ _ _ _) as [t'|err] eqn:Hv; simpl.
  2: { intros [= <- <-]. by apply turn_fails. }
  unfold tasks_save, call. destruct (call_fails env Call_save); simpl.
  { intros [= <- <-]. by apply turn_fails. }
  pose proof (hop_turn (transition_task_id x) (target_status x) (overrides x) (transition_request_id x)
    (Transition x) v t t' (compute_task_duration_sec (task_created_at t') (utc_now (factories env))) _
    eq_refl Hget Hv (follows_version _ _ _ _ _ (proj1 Hseed)) eq_refl
    (fun w Hw => ex_intro _ _ (conj eq_refl (Hpass w Hw))) eq_refl) as Hhop. revert Hhop.
  unfold versions_bump, modify. simpl. destruct (VersionTracker.bump v (transition_task_id x)) as [v' n].
  destruct (RECORDED_STATUS_OUTCOME (target_status x)), (ends_run (target_status x)),
    (bool_decide _); simpl; rewrite ?app_nil_r; intros Hhop [= <- <-]; exact Hhop.
Qed.

Lemma cancel_turn x : _process_one env (Cancel x) e = (e', r) -> turn env (Cancel x) e e' r.
Proof.
  unfold _process_one, dispatch, apply_cancel, mbind_, tasks_get, call.
  destruct (call_fails env Call_get); simpl.
  { intros [= <- <-]. apply turn_fails, changed_refl. }
  destruct (repo_get (tasks e) (cancel_task_id x)) as [t|] eqn:Hget; simpl.
  2: { intros [= <- <-]. apply turn_fails, changed_refl. }
  destruct (with_transition _ _ _ _) as [t'|err] eqn:Hv; simpl.
  2: { intros [= <- <-]. apply turn_fails, changed_refl. }
  unfold tasks_save, call. destruct (call_fails env Call_save); simpl.
  { intros [= <- <-]. apply turn_fails, changed_refl. }
  pose proof (hop_turn (cancel_task_id x) CANCELLED ∅ (cancel_request_id x) (Cancel x) (versions e) t t'
    (compute_task_duration_sec (task_created_at t') (utc_now (factories env))) _
    eq_refl Hget Hv (fun _ => eq_refl) eq_refl ltac:(intros w Hw; discriminate Hw) eq_refl) as Hhop.
  revert Hhop. unfold versions_bump, modify. simpl. destruct (VersionTracker.bump (versions e) (cancel_task_id x)) as [v' n].
  rewrite (bool_decide_eq_false_2 (_ /\ _)) by naive_solver.
  change (ends_run CANCELLED) with true.
  simpl. intros Hhop [= <- <-]; exact Hhop.
Qed.

Lemma process_turn m :
  mutation_ok m = true -> _process_one env m e = (e', r) -> turn env m e e' r.
Proof.
  destruct m as [x|x|x|x|x]; intros Hok.
  - apply create_turn.
  - apply update_turn. simpl in Hok. apply andb_prop in Hok as [_ Hok].
    by destruct (_reject_immutable_fields x) as [[]|].
  - apply transition_turn.
  - apply delete_turn.
  - apply cancel_turn.
Qed.

End Turn.

(** ** The contract of one turn

    The error code a mutation is answered with, from the store and the row's
    status alone; [None] is success. *)

Definition version_clash (e : Engine) (i : string) (expected : option Z) : bool :=
  match expected with Some v => negb (version e i =? v)%Z | None => false end.

Definition create_acceptable (env : Env) (d : CreateTaskData) : bool :=
  bool_decide (data_assigned_to d = None) && bool_decide (NoDup (data_dependencies d)) &&
  bool_decide (uuid4 (factories env) ∉ data_dependencies d).

Definition saved (env : Env) : option TaskErrorCode :=
  if call_fails env Call_save then Some internal else None.

Definition on_row (env : Env) (e : Engine) (i : string) (k : Task obj -> option TaskErrorCode)
    : option TaskErrorCode :=
  if call_fails env Call_get then Some internal else
  match stored e i with Some t => k t | None => Some not_found end.

(** The statuses no cancellation leaves. *)
Definition uncancellable : gset TaskStatus := list_to_set [CREATED; COMPLETED; CANCELLED; REJECTED].

Definition refusal (env : Env) (m : TaskMutation) (e : Engine) : option TaskErrorCode :=
  match m with
  | Create x => if create_acceptable env (create_task_data x) then saved env else Some validation
  | Update x => on_row env e (update_task_id x) (fun t =>
      if version_clash e (update_task_id x) (update_expected_version x) then Some version_conflict
      else if decide (updates x = ∅) then None
      else if is_ok (model_validate (factories env) (updates x ∪ model_dump t)) then saved env
      else Some validation)
  | Transition x => on_row env e (transition_task_id x) (fun t =>
      if version_clash e (transition_task_id x) (transition_expected_version x) then Some version_conflict
      else if is_ok (with_transition (factories env) t (target_status x) (overrides x)) then saved env
      else Some validation)
  | Cancel x => on_row env e (cancel_task_id x) (fun t =>
      if decide (task_status t ∈ uncancellable) then Some validation else saved env)
  | Delete x =>
      if call_fails env (Call_query false) then Some internal else
      if plan_blocking_delete (plans_preflight env) (delete_task_id x) then Some parent_of_plan else
      if call_fails env Call_delete then Some internal else
      match stored e (delete_task_id x) with
      | None => Some not_found
      | Some _ =>
          if other_constraint env || bool_decide (is_Some (plan_blocking_delete (plans_at_delete env) (delete_task_id x)))
          then
            if call_fails env (Call_query true) then Some internal else
            if plan_blocking_delete (plans_reread env) (delete_task_id x) then Some parent_of_plan
            else Some internal
          else None
      end
  end.

Lemma cancel_accepted env t :
  well_formed t ->
  is_ok (with_transition (factories env) t CANCELLED ∅) = true <-> task_status t ∉ uncancellable.
Proof.
  intros Hw. destruct (bare_transition (factories env) t CANCELLED Hw) as [-> _].
  transitivity (validate_transition (task_status t) CANCELLED = Ok tt).
  - split; [naive_solver|]. intros Hv. split; [done|]. intros Hin. exfalso. revert Hin.
    apply (bool_decide_unpack _). by vm_compute.
  - destruct (task_status t); split; intros HH; try done;
      try (by apply (bool_decide_unpack _); vm_compute);
      exfalso; revert HH; apply (bool_decide_unpack _); by vm_compute.
Qed.

Lemma create_acceptable_ok env d :
  create_data_ok d = true ->
  is_ok (model_validate (factories env) (create_payload env d)) = create_acceptable env d.
Proof.
  intros Hok. apply eq_true_iff_eq. rewrite (create_accepted env d Hok). unfold create_acceptable.
  rewrite !andb_true_iff, !bool_decide_eq_true. tauto.
Qed.

Lemma version_clash_check e i expected :
  version_clash e i expected =
  match (VersionTracker.check (versions e) i expected).2, expected with
  | Some _, Some _ => true
  | _, _ => false
  end.
Proof.
  rewrite VersionTracker.check_verdict. destruct expected as [v|]; [|done]. simpl.
  unfold version. case_decide as E.
  - by rewrite (proj2 (Z.eqb_eq _ _) E).
  - by rewrite (proj2 (Z.eqb_neq _ _) E).
Qed.

Section Refusal.
Context (env : Env) (e : Engine) (Hstore : store_ok e).

Lemma create_refusal x :
  mutation_ok (obj:=obj) (Create x) = true -> error_code (_process_one env (Create x) e).2 = refusal env (Create x) e.
Proof.
  cbn [mutation_ok refusal]. rewrite !andb_true_iff. intros [_ Hok]. rewrite <-(create_acceptable_ok env _ Hok).
  unfold _process_one, dispatch, apply_create, saved.
  destruct (model_validate _ _); simpl; [|done].
  unfold mbind_, tasks_save, call. by destruct (call_fails env Call_save).
Qed.

Lemma update_refusal x : error_code (_process_one env (Update x) e).2 = refusal env (Update x) e.
Proof.
  unfold refusal, on_row, saved. rewrite version_clash_check.
  unfold _process_one, dispatch, apply_update, mbind_, tasks_get, call, stored.
  destruct (call_fails env Call_get); [done|]. simpl.
  destruct (repo_get (tasks e) (update_task_id x)) as [t|]; [|done].
  unfold versions_check. destruct (VersionTracker.check _ _ _) as [v [c|]];
    destruct (update_expected_version x); simpl; try done.
  all: case_decide; [done|]; destruct (model_validate _ _); simpl; [|done].
  all: unfold tasks_save, call; destruct (call_fails env Call_save); [done|].
  all: unfold versions_bump, modify; simpl; by destruct (VersionTracker.bump _ _).
Qed.

Lemma transition_refusal x : error_code (_process_one env (Transition x) e).2 = refusal env (Transition x) e.
Proof.
  unfold refusal, on_row, saved. rewrite version_clash_check.
  unfold _process_one, dispatch, apply_transition, mbind_, tasks_get, call, stored.
  destruct (call_fails env Call_get); [done|]. simpl.
  destruct (repo_get (tasks e) (transition_task_id x)) as [t|]; [|done].
  unfold versions_check. destruct (VersionTracker.check _ _ _) as [v [c|]];
    destruct (transition_expected_version x); simpl; try done.
  all: destruct (with_transition _ _ _ _); simpl; [|done].
  all: unfold tasks_save, call; destruct (call_fails env Call_save); [done|].
  all: unfold versions_bump, modify; simpl; destruct (VersionTracker.bump _ _); simpl.
  all: destruct (RECORDED_STATUS_OUTCOME _), (ends_run _), (bool_decide _); done.
Qed.

Lemma delete_refusal x : error_code (_process_one env (Delete x) e).2 = refusal env (Delete x) e.
Proof.
  unfold refusal, _process_one, dispatch, apply_delete, mbind_, query_plans, call, mret, stored.
  destruct (call_fails env (Call_query false)); [done|]. simpl.
  destruct (plan_blocking_delete (plans_preflight env) _); [done|].
  unfold on_constraint, tasks_delete, call. destruct (call_fails env Call_delete); [done|]. simpl.
  destruct (repo_get (tasks e) (delete_task_id x)); [|done].
  destruct (other_constraint env || _); [|done].
  destruct (call_fails env (Call_query true)); [done|]. simpl.
  by destruct (plan_blocking_delete (plans_reread env) _).
Qed.

Lemma cancel_refusal x : error_code (_process_one env (Cancel x) e).2 = refusal env (Cancel x) e.
Proof.
  unfold refusal, on_row, saved.
  unfold _process_one, dispatch, apply_cancel, mbind_, tasks_get, call, stored.
  destruct (call_fails env Call_get); [done|]. simpl.
  destruct (repo_get (tasks e) (cancel_task_id x)) as [t|] eqn:Hget; [|done].
  destruct (Hstore _ _ Hget) as [_ Hw]. pose proof (cancel_accepted env t Hw) as Hc.
  destruct (with_transition _ _ _ _); simpl in Hc |- *.
  - rewrite decide_False by (by apply Hc). unfold tasks_save, call.
    destruct (call_fails env Call_save); [done|].
    unfold versions_bump, modify; simpl. by destruct (VersionTracker.bump _ _).
  - rewrite decide_True; [done|]. apply dec_stable. intros Hn. by apply Hc in Hn.
Qed.

Lemma refusal_exact m : mutation_ok m = true -> error_code (_process_one env m e).2 = refusal env m e.
Proof.
  destruct m; auto using create_refusal, update_refusal, transition_refusal, delete_refusal, cancel_refusal.
Qed.

End Refusal.

(** ** Runs of the processing loop *)

(** One after the other, each in an environment whose fresh id is not taken. *)
Inductive steps : Engine -> list (TaskMutation * TaskMutationResult) -> Engine -> Prop :=
| steps_nil e : steps e [] e
| steps_cons env m e e1 r tr e2 :
    mutation_ok m = true -> stored e (uuid4 (factories env)) = None ->
    _process_one env m e = (e1, r) -> steps e1 tr e2 -> steps e ((m, r) :: tr) e2.

(** A task's run span is open exactly while the task is live. *)
Definition live (e : Engine) (i : string) : Prop :=
  exists t, stored e i = Some t /\ ends_run (task_status t) = false.

Definition spans_sound (e : Engine) : Prop :=
  forall i sp, _spans (spans e) !! i = Some sp -> live e i /\ span_task_id sp = i.
Definition spans_complete (e : Engine) : Prop :=
  forall i, live e i -> is_Some (_spans (spans e) !! i).

(** The metric counts every hop into a recorded status, in order. *)
Definition runs_recorded (e : Engine) : Prop :=
  (task_runs e).*1 = flat_map (fun h => runs_of h.2) (task_transitions e).

(** The hops of a task's life: what the table allows. *)
Definition legal_hop (s s' : TaskStatus) : Prop := validate_transition s s' = Ok tt.

Lemma ended_hops s s' : legal_hop s s' -> ends_run s = true -> s = FAILED /\ (s' = ASSIGNED \/ s' = CANCELLED).
Proof. unfold legal_hop. destruct s; intros Hv He; try discriminate He; destruct s'; vm_compute in Hv; naive_solver. Qed.

Lemma reject_id (x : UpdateTaskMutation (obj:=obj)) k :
  _reject_immutable_fields x = Ok tt -> k ∈ ["id"; "created_by"; "status"]%string -> updates x !! k = None.
Proof.
  intros [_ Hf]%reject_fields_ok Hk. apply Hf. unfold _IMMUTABLE_TASK_FIELDS, _ALWAYS_IMMUTABLE_FIELDS.
  set_solver.
Qed.

Lemma override_id (x : TransitionTaskMutation (obj:=obj)) k :
  _reject_immutable_overrides x = Ok tt -> k ∈ ["id"; "created_by"; "status"]%string -> overrides x !! k = None.
Proof.
  intros [_ Hf]%reject_fields_ok Hk. apply Hf. unfold _IMMUTABLE_OVERRIDE_FIELDS, _ALWAYS_IMMUTABLE_FIELDS.
  set_solver.
Qed.

(** What a change keeps of the row it replaces. *)
Definition same_task (t t' : Task obj) : Prop :=
  task_id t' = task_id t /\ task_created_by t' = task_created_by t.

Lemma rewritten_same env x t t' :
  _reject_immutable_fields x = Ok tt ->
  model_validate (factories env) (updates x ∪ model_dump t) = Ok t' ->
  same_task t t' /\ task_status t' = task_status t /\ well_formed t'.
Proof.
  intros Hr Hv. split_and!; [split|idtac|].
  - apply (update_fields _ _ _ _ F_id Hv), (reject_id x); set_solver.
  - apply (update_fields _ _ _ _ F_created_by Hv), (reject_id x); set_solver.
  - apply (update_fields _ _ _ _ F_status Hv), (reject_id x); set_solver.
  - by apply model_validate_ok in Hv as (_ & _ & ?).
Qed.

Lemma moved_same env m i target ov t t' :
  mutation_ok m = true -> hop_request m = Some (i, target, ov) ->
  with_transition (factories env) t target ov = Ok t' ->
  same_task t t' /\ legal_hop (task_status t) target /\ well_formed t'.
Proof.
  intros Hok Hreq Ht.
  assert (Hov : forall k, k ∈ ["id"; "created_by"; "status"]%string -> ov !! k = None).
  { intros k Hk. destruct m; simplify_eq/=; [|apply lookup_empty].
    apply override_id; [|done]. rewrite !andb_true_iff in Hok. destruct Hok as [_ Hok].
    by destruct (_reject_immutable_overrides m) as [[]|]. }
  split_and!; [split| |].
  - apply (transition_fields _ _ _ _ _ F_id Ht), Hov; set_solver.
  - apply (transition_fields _ _ _ _ _ F_created_by Ht), Hov; set_solver.
  - by apply with_transition_ok in Ht as (_ & ? & _).
  - by apply with_transition_ok in Ht as (_ & _ & _ & ? & _).
Qed.

(** One turn on the store: rows change only as the mutation asks, within the
    same task. *)
Inductive store_move (e e' : Engine) (m : TaskMutation) : Change -> Prop :=
| move_kept : (forall i, stored e' i = stored e i) -> store_move e e' m Kept
| move_created t x : m = Create x -> stored e (task_id t) = None -> well_formed t -> task_status t = CREATED ->
    (forall i, stored e' i = put (stored e) t i) -> store_move e e' m (Created t)
| move_rewritten t t' x : m = Update x -> stored e (task_id t) = Some t -> update_task_id x = task_id t ->
    same_task t t' -> task_status t' = task_status t -> well_formed t' ->
    (forall i, stored e' i = put (stored e) t' i) -> store_move e e' m (Rewritten t t')
| move_moved t t' target ov : hop_request m = Some (task_id t, target, ov) -> stored e (task_id t) = Some t ->
    same_task t t' -> legal_hop (task_status t) (task_status t') -> task_status t' = target -> well_formed t' ->
    (forall i, stored e' i = put (stored e) t' i) -> store_move e e' m (Moved t t')
| move_removed i x : m = Delete x -> delete_task_id x = i -> is_Some (stored e i) ->
    (forall j, stored e' j = upd (stored e) i None j) -> store_move e e' m (Removed i).

Lemma turn_moves env m e c e' r :
  store_ok e -> mutation_ok m = true -> stored e (uuid4 (factories env)) = None ->
  changed e c e' -> answered env m e c e' r -> store_move e e' m c.
Proof.
  intros Hs Hok Hfresh. destruct c as [|t|t t'|t t'|i]; simpl.
  - intros [Hf _] _. constructor. apply Hf.
  - intros [Hf _] (x & -> & Hv & Hid & _). pose proof (create_fields _ _ _ Hv) as (_ & ? & _ & _ & ?).
    econstructor; [done|by rewrite Hid|done|done|apply Hf].
  - intros [Hf _] (x & -> & Hget & _ & Hv & _). destruct (Hs _ _ Hget) as [Hid _].
    simpl in Hok. apply andb_prop in Hok as [_ Hok].
    assert (_reject_immutable_fields x = Ok tt) as Hr by (by destruct (_reject_immutable_fields x) as [[]|]).
    destruct (rewritten_same _ _ _ _ Hr Hv) as (? & ? & ?).
    econstructor; try done; [by rewrite Hid|apply Hf].
  - intros [Hf _] (i & target & ov & Hreq & Hget & Ht & Htgt & _). destruct (Hs _ _ Hget) as [Hid _].
    destruct (moved_same _ _ _ _ _ _ _ Hok Hreq Ht) as (? & ? & ?). subst target.
    econstructor; try done; [by rewrite Hid|by rewrite Hid|apply Hf].
  - intros [Hf _] (x & -> & Hi & Hsome & _). econstructor; try done. apply Hf.
Qed.

Lemma put_lookup (f : string -> option (Task obj)) t i :
  put f t i = if decide (i = task_id t) then Some t else f i.
Proof. done. Qed.

Lemma store_move_ok e e' m c : store_ok e -> store_move e e' m c -> store_ok e'.
Proof.
  intros Hs Hm i u. destruct Hm as [Hst|t x Hm Hn Hw Hc Hst|t t' x Hm Hg Hi [Hid _] Hss Hw Hst|
    t t' target ov Hr Hg [Hid _] Hh Htg Hw Hst|k x Hm Hi Hg Hst]; rewrite Hst; try apply Hs.
  all: rewrite ?put_lookup; unfold upd; case_decide; try apply Hs; intros Hu; simplify_eq; done.
Qed.

Lemma live_put e e' t i :
  (forall j, stored e' j = put (stored e) t j) ->
  live e' i <-> if decide (i = task_id t) then ends_run (task_status t) = false else live e i.
Proof. intros Hst. unfold live. rewrite Hst, put_lookup. case_decide; naive_solver. Qed.

Lemma moved_spans e old t e' :
  changed e (Moved old t) e' ->
  _spans (spans e') =
    (if ends_run (task_status t) then delete (task_id old) (_spans (spans e)) else
     if decide (task_status old = FAILED /\ task_status t = ASSIGNED)
     then <[task_id old := {| TaskSpanTracker.span_task_id := task_id old;
                              TaskSpanTracker.span_task_type := task_type t;
                              TaskSpanTracker.span_final := None |}]> (_spans (spans e))
     else _spans (spans e)).
Proof.
  intros [_ ->]. cbv zeta. case_decide as Hd.
  - destruct Hd as [-> ->]. rewrite bool_decide_eq_true_2 by done.
    change (ends_run ASSIGNED) with false. apply start_spans.
  - rewrite bool_decide_eq_false_2 by done. destruct (ends_run _); [apply close_spans|done].
Qed.

Lemma span_task_id_start s i t sp :
  _spans (TaskSpanTracker.start s i t) !! i = Some sp -> span_task_id sp = i.
Proof. rewrite start_spans, lookup_insert_eq. by intros [= <-]. Qed.

Lemma spans_sound_step e e' m c :
  store_move e e' m c -> changed e c e' -> spans_sound e -> spans_sound e'.
Proof.
  intros Hm Hc Hs i sp Hsp. destruct Hm as [Hst|t x _ _ _ Hcr Hst|t t' x _ Hg _ [Hid _] Hss _ Hst|
    t t' target ov _ Hg [Hid _] Hh _ _ Hst|k x _ _ Hg Hst].
  - destruct Hc as [_ Hc]. rewrite Hc in Hsp. destruct (Hs i sp Hsp). split; [|done].
    unfold live. by rewrite Hst.
  - destruct Hc as [_ Hc]. rewrite Hc in Hsp. rewrite (live_put _ _ _ _ Hst). case_decide as E.
    + subst i. apply span_task_id_start in Hsp. by rewrite Hcr.
    + rewrite start_spans, lookup_insert_ne in Hsp by done. by apply Hs.
  - destruct Hc as [_ Hc]. rewrite Hc in Hsp. destruct (Hs i sp Hsp) as [Hl ?]. split; [|done].
    rewrite (live_put _ _ _ _ Hst). case_decide as E; [|done].
    destruct Hl as (u & Hu & He). rewrite E, Hid, Hg in Hu. simplify_eq. by rewrite Hss.
  - rewrite (moved_spans _ _ _ _ Hc) in Hsp. rewrite (live_put _ _ _ _ Hst), Hid.
    destruct (ends_run (task_status t')) eqn:He.
    + apply lookup_delete_Some in Hsp as [Hne Hsp]. rewrite decide_False by done. by apply Hs.
    + case_decide as Hd; [|destruct (Hs i sp Hsp); by case_decide].
      apply lookup_insert_Some in Hsp as [[<- <-]|[Hne Hsp]]; [by rewrite decide_True|].
      rewrite decide_False by done. by apply Hs.
  - destruct Hc as [_ Hc]. rewrite Hc in Hsp. unfold TaskSpanTracker.remove in Hsp.
    rewrite close_spans in Hsp. apply lookup_delete_Some in Hsp as [Hne Hsp].
    destruct (Hs i sp Hsp). split; [|done]. unfold live. rewrite Hst. unfold upd. by rewrite decide_False.
Qed.

Lemma spans_complete_step e e' m c :
  store_move e e' m c -> changed e c e' -> spans_complete e -> spans_complete e'.
Proof.
  intros Hm Hc Hs i Hl. destruct Hm as [Hst|t x _ _ _ Hcr Hst|t t' x _ Hg _ [Hid _] Hss _ Hst|
    t t' target ov _ Hg [Hid _] Hh _ _ Hst|k x _ _ Hg Hst].
  - destruct Hc as [_ Hc]. rewrite Hc. apply Hs. revert Hl. unfold live. by rewrite Hst.
  - destruct Hc as [_ Hc]. rewrite Hc, start_spans. rewrite (live_put _ _ _ _ Hst) in Hl.
    apply lookup_insert_is_Some. destruct (decide (task_id t = i)); [by left|right].
    rewrite decide_False in Hl by done. by split; [|apply Hs].
  - destruct Hc as [_ Hc]. rewrite Hc. apply Hs. rewrite (live_put _ _ _ _ Hst) in Hl.
    case_decide as E; [|done]. subst i. exists t. rewrite Hid, <-Hss. done.
  - rewrite (moved_spans _ _ _ _ Hc). rewrite (live_put _ _ _ _ Hst), Hid in Hl.
    destruct (decide (i = task_id t)) as [->|Hne].
    + rewrite Hl. case_decide as Hd; [by rewrite lookup_insert_eq|]. apply Hs. exists t. split; [done|].
      destruct (ends_run (task_status t)) eqn:He; [|done].
      destruct (ended_hops _ _ Hh He) as [Hf [Ha|Ha]]; [by destruct Hd|]. by rewrite Ha in Hl.
    + destruct (ends_run _); [rewrite lookup_delete_ne by done; by apply Hs|].
      case_decide; [rewrite lookup_insert_ne by done|]; by apply Hs.
  - destruct Hc as [_ Hc]. rewrite Hc. unfold TaskSpanTracker.remove. rewrite close_spans.
    destruct Hl as (u & Hu & He). rewrite Hst in Hu. unfold upd in Hu. case_decide as E; [done|].
    rewrite lookup_delete_ne by done. apply Hs. by exists u.
Qed.

Lemma changed_follows e c e' :
  changed e c e' -> exists st vs hops, follows e e' st vs hops.
Proof. destruct c; intros [Hf _]; by eauto. Qed.

Lemma runs_recorded_step e c e' : changed e c e' -> runs_recorded e -> runs_recorded e'.
Proof.
  intros (st & vs & hops & Hf)%changed_follows Hr. unfold runs_recorded.
  by rewrite (follows_runs _ _ _ _ _ Hf), (follows_hops _ _ _ _ _ Hf), flat_map_app, Hr.
Qed.

Lemma versions_step e c e' :
  changed e c e' -> (forall i, (1 <= version e i)%Z) -> forall i, (1 <= version e' i)%Z.
Proof.
  intros Hc Hv i. destruct c as [|t|t t'|t t'|k]; destruct Hc as [Hf _];
    rewrite (follows_version _ _ _ _ _ Hf); unfold upd; try case_decide; try done; pose proof (Hv (task_id t));
    lia.
Qed.

(** ** Induction over a run *)

Record engine_ok (e : Engine) : Prop := {
  ok_store : store_ok e;
  ok_spans : spans_sound e;
  ok_runs : runs_recorded e;
  ok_versions : forall i, (1 <= version e i)%Z;
}.

Lemma step_view env m e e1 r :
  engine_ok e -> mutation_ok m = true -> stored e (uuid4 (factories env)) = None ->
  _process_one env m e = (e1, r) ->
  exists c, changed e c e1 /\ answered env m e c e1 r /\ store_move e e1 m c /\ engine_ok e1 /\
    (success r = true -> forall v, expected_version m = Some v ->
       exists i, mutation_task_id m = Some i /\ version e i = v).
Proof.
  intros [Hs Hsp Hr Hvs] Hok Hfresh Hp.
  destruct (process_turn env e e1 r Hs m Hok Hp) as (c & Hc & Ha & Hv).
  pose proof (turn_moves _ _ _ _ _ _ Hs Hok Hfresh Hc Ha) as Hm.
  exists c. split_and!; try done. split; eauto using store_move_ok, spans_sound_step, runs_recorded_step, versions_step.
Qed.

Lemma steps_ok e tr e' :
  steps e tr e' -> engine_ok e -> engine_ok e' /\ (spans_complete e -> spans_complete e').
Proof.
  induction 1 as [|env m e e1 r tr e2 Hok Hfresh Hp _ IH]; [done|]. intros He.
  destruct (step_view _ _ _ _ _ He Hok Hfresh Hp) as (c & Hc & _ & Hm & He1 & _).
  destruct (IH He1) as [? IH2]. split; [done|]. eauto using spans_complete_step.
Qed.

(** ** One task along a run *)

(** A mutation that asks for a new row of the task. *)
Definition writes (m : TaskMutation) (i : string) : Prop :=
  mutation_task_id m = Some i /\
  match m with Update x => updates x <> ∅ | Transition _ | Cancel _ => True | _ => False end.

(** A turn that deleted the task. *)
Definition deletes (mr : TaskMutation * TaskMutationResult) (i : string) : Prop :=
  exists x, mr.1 = Delete x /\ delete_task_id x = i /\ success mr.2 = true.

(** The statuses a task goes through. *)
Definition progress (s s' : TaskStatus) : Prop := s = s' \/ legal_hop s s'.

Lemma row_step env m e e1 r i t :
  engine_ok e -> mutation_ok m = true -> stored e (uuid4 (factories env)) = None ->
  _process_one env m e = (e1, r) -> stored e i = Some t -> ~ deletes (m, r) i ->
  (exists t', stored e1 i = Some t' /\ same_task t t' /\ progress (task_status t) (task_status t')) /\
  (version e i <= version e1 i)%Z /\
  (writes m i -> success r = true -> version e1 i = version e i + 1)%Z.
Proof.
  intros He Hok Hfresh Hp Hi Hnd.
  destruct (step_view _ _ _ _ _ He Hok Hfresh Hp) as (c & Hc & Ha & Hm & _).
  assert (Hsame : same_task t t) by done. assert (Hprog : progress (task_status t) (task_status t)) by (by left).
  destruct Hm as [Hst|t0 x -> Hn _ _ Hst|u t' x -> Hg Hx Hid Hss _ Hst|
    u t' target ov Hreq Hg Hid Hh _ _ Hst|k x -> Hk Hg Hst]; simpl in Hc; destruct Hc as [Hf _];
    pose proof (follows_version _ _ _ _ _ Hf i) as Hver; rewrite Hst, Hver.
  - split_and!; [by eauto|lia|]. intros [_ Hw] Hs. exfalso.
    destruct Ha as [(? & ? & ->)|(x & u & -> & Hu & _)]; [done|]. by apply Hw.
  - rewrite put_lookup. unfold upd. rewrite !decide_False by (by intros ->; congruence).
    split_and!; [by eauto|lia|]. by intros [_ []].
  - rewrite put_lookup. unfold upd. destruct Hid as [Hid Hcb]. rewrite Hid. case_decide as E.
    + subst i. rewrite Hg in Hi. simplify_eq. split_and!; [|lia|done].
      exists t'. split_and!; [done|by split|by left].
    + split_and!; [by eauto|lia|]. intros [Hw _]. simpl in Hw. congruence.
  - rewrite put_lookup. unfold upd. destruct Hid as [Hid Hcb]. rewrite Hid. case_decide as E.
    + subst i. rewrite Hg in Hi. simplify_eq. split_and!; [|lia|done].
      exists t'. split_and!; [done|by split|by right].
    + split_and!; [by eauto|lia|]. intros [Hw _]. destruct m; simplify_eq/=.
  - destruct Ha as (x' & [= <-] & _ & _ & _ & _ & ->). unfold upd. case_decide as E.
    + destruct Hnd. exists x. split_and!; [done|congruence|done].
    + split_and!; [by eauto|lia|]. by intros [_ []].
Qed.

Lemma row_steps e tr e' i t :
  steps e tr e' -> engine_ok e -> stored e i = Some t -> (forall mr, mr ∈ tr -> ~ deletes mr i) ->
  exists t', stored e' i = Some t' /\ same_task t t' /\ rtc legal_hop (task_status t) (task_status t') /\
    (version e i <= version e' i)%Z.
Proof.
  intros Hst. revert t. induction Hst as [|env m e e1 r tr e2 Hok Hfresh Hp _ IH]; intros t He Hi Hnd.
  { exists t. by split_and!. }
  destruct (row_step _ _ _ _ _ _ _ He Hok Hfresh Hp Hi) as [(t1 & H1 & [Hid1 Hcb1] & Hpr) [Hv _]].
  { apply Hnd. by left. }
  destruct (step_view _ _ _ _ _ He Hok Hfresh Hp) as (_ & _ & _ & _ & He1 & _).
  destruct (IH t1 He1 H1) as (t2 & H2 & [Hid2 Hcb2] & Hr & Hv2); [intros mr Hmr; apply Hnd; by right|].
  exists t2. split_and!; [done|split; congruence| |lia].
  destruct Hpr as [->|Hh]; [done|by econstructor].
Qed.

(** A run splits at any of its turns. *)
Lemma steps_app e tr1 tr2 e' :
  steps e (tr1 ++ tr2) e' -> exists e1, steps e tr1 e1 /\ steps e1 tr2 e'.
Proof.
  revert e. induction tr1 as [|mr tr1 IH]; intros e Hs; [exists e; by split; [constructor|]|].
  simpl in Hs. inversion Hs as [|env m ? e1 r ? ? Hok Hfresh Hp Hrest]; subst.
  destruct (IH _ Hrest) as (e2 & H1 & H2). exists e2. split; [by econstructor|done].
Qed.

(** A success that named a version found the row it wrote. *)
Lemma success_stored env m e e1 r i :
  engine_ok e -> mutation_ok m = true -> stored e (uuid4 (factories env)) = None ->
  _process_one env m e = (e1, r) -> writes m i -> success r = true -> is_Some (stored e i).
Proof.
  intros He Hok Hfresh Hp [Hi Hw] Hs.
  destruct (step_view _ _ _ _ _ He Hok Hfresh Hp) as (c & _ & Ha & _ & _).
  destruct c as [|t|u t|u t|k]; simpl in Ha.
  - destruct Ha as [(? & ? & ->)|(x & u & -> & Hu & _)]; done.
  - by destruct Ha as (x & -> & _).
  - destruct Ha as (x & -> & Hg & _). simpl in Hi. simplify_eq. by rewrite Hg.
  - destruct Ha as (k & target & ov & Hreq & Hg & _). destruct m; simplify_eq/=; by rewrite Hg.
  - by destruct Ha as (x & -> & _).
Qed.

(** A result is one of the two shapes the code builds, and consistent. *)
Lemma result_consistent env m e e1 r :
  engine_ok e -> mutation_ok m = true -> stored e (uuid4 (factories env)) = None ->
  _process_one env m e = (e1, r) ->
  _check_consistency r = true /\ result_request_id r = request_id m /\
  success r = bool_decide (error_code r = None) /\ (success r = false -> changed e Kept e1).
Proof.
  intros He Hok Hfresh Hp. destruct (step_view _ _ _ _ _ He Hok Hfresh Hp) as (c & Hc & Ha & _ & He1 & _).
  assert (Hok' : forall t v prev, (0 <= v)%Z -> let r := succeeded (obj:=obj) (request_id m) t v prev in
    _check_consistency r = true /\ result_request_id r = request_id m /\
    success r = bool_decide (error_code r = None) /\ (success r = false -> changed e Kept e1)).
  { intros t v prev Hv. unfold _check_consistency. simpl. by rewrite (proj2 (Z.leb_le _ _) Hv). }
  pose proof (ok_versions _ He1) as Hver.
  destruct c as [|t|u t|u t|k]; simpl in Ha.
  - destruct Ha as [(err & code & ->)|(x & t & -> & _ & _ & ->)]; [done|]. apply Hok'.
    specialize (Hver (task_id t)). unfold version, VersionTracker.current in Hver.
    unfold VersionTracker.get. destruct (versions e1 !! task_id t); simpl in *; lia.
  - destruct Ha as (x & -> & _ & _ & ->). by apply Hok'.
  - destruct Ha as (x & -> & _ & _ & _ & ->). apply Hok'. specialize (Hver (task_id u)). lia.
  - destruct Ha as (k & tgt & ov & _ & _ & _ & _ & ->). apply Hok'. specialize (Hver (task_id u)). lia.
  - destruct Ha as (x & -> & _ & _ & _ & _ & ->). by apply Hok'.
Qed.

(** ** Claims *)

(** C39: from a store of well formed rows, each under its own id, any run of the
    processing loop keeps such a store; a run span is open only for a task that
    is live (not completed, cancelled, rejected or failed), and for every live
    task if it was so at the start; the metrics count every hop into a recorded
    status, in order. Raised exceptions included. *)
Theorem task_engine_invariant (e e' : Engine) (tr : list (TaskMutation * TaskMutationResult)) :
  steps e tr e' -> engine_ok e ->
  (forall i t, stored e' i = Some t -> task_id t = i /\ well_formed t) /\
  (forall i sp, _spans (spans e') !! i = Some sp -> live e' i) /\
  (spans_complete e -> forall i, live e' i -> is_Some (_spans (spans e') !! i)) /\
  (task_runs e').*1 = flat_map (fun h => runs_of h.2) (task_transitions e').
Proof.
  intros Hs He. destruct (steps_ok _ _ _ Hs He) as [[Hst Hsp Hr _] Hc].
  split_and!; [exact Hst| |exact Hc|exact Hr]. intros i sp H'. by apply (Hsp i sp).
Qed.

(** Over any run that does not delete it, a task keeps its id and its
    creator, and its statuses form a path of the lifecycle table; its version
    never decreases. *)
Theorem task_history_legal (e e' : Engine) (tr : list (TaskMutation * TaskMutationResult)) (i : string)
    (t : Task obj) :
  steps e tr e' -> engine_ok e -> stored e i = Some t -> (forall mr, mr ∈ tr -> ~ deletes mr i) ->
  exists t', stored e' i = Some t' /\ task_id t' = task_id t /\ task_created_by t' = task_created_by t /\
    rtc (fun s s' => validate_transition s s' = Ok tt) (task_status t) (task_status t') /\
    (version e i <= version e' i)%Z.
Proof.
  intros Hs He Hi Hd. destruct (row_steps _ _ _ _ _ Hs He Hi Hd) as (t' & ? & [] & ? & ?). by exists t'.
Qed.

(** C7: two writers that read the same version of a task cannot both succeed:
    of two writes that expect the same version, with no delete of the task in
    between, the second is refused. *)
Theorem no_lost_update (e e' : Engine) (tr1 tr2 tr3 : list (TaskMutation * TaskMutationResult))
    (m1 m2 : TaskMutation) (r1 r2 : TaskMutationResult) (i : string) (v : Z) :
  steps e (tr1 ++ (m1, r1) :: tr2 ++ (m2, r2) :: tr3) e' -> engine_ok e ->
  writes m1 i -> expected_version m1 = Some v -> success r1 = true ->
  (forall mr, mr ∈ tr2 -> ~ deletes mr i) ->
  writes m2 i -> expected_version m2 = Some v -> success r2 = false.
Proof.
  intros (e1 & Hs1 & Hs)%steps_app He Hw1 Hv1 Hr1 Hnd Hw2 Hv2.
  destruct (steps_ok _ _ _ Hs1 He) as [He1 _].
  inversion Hs as [|env1 ? ? e2 ? ? ? Hok1 Hf1 Hp1 Hs2]; subst.
  apply steps_app in Hs2 as (e3 & Hs2 & Hs3).
  inversion Hs3 as [|env2 ? ? e4 ? ? ? Hok2 Hf2 Hp2 _]; subst.
  destruct (success r2) eqn:Hr2; [|done]. exfalso.
  destruct (success_stored _ _ _ _ _ _ He1 Hok1 Hf1 Hp1 Hw1 Hr1) as [t Ht].
  destruct (step_view _ _ _ _ _ He1 Hok1 Hf1 Hp1) as (_ & _ & _ & _ & He2 & Hx1).
  assert (Hnd1 : ~ deletes (m1, r1) i).
  { intros (x & Hx & _). simpl in Hx. subst m1. by destruct Hw1. }
  destruct (row_step _ _ _ _ _ _ _ He1 Hok1 Hf1 Hp1 Ht Hnd1) as [(t2 & Ht2 & _) [_ Hb]].
  specialize (Hb Hw1 Hr1). destruct (Hx1 Hr1 v Hv1) as (j & Hj & Hcur).
  destruct (row_steps _ _ _ _ _ Hs2 He2 Ht2 Hnd) as (_ & _ & _ & _ & Hmono).
  destruct (steps_ok _ _ _ Hs2 He2) as [He3 _].
  destruct (step_view _ _ _ _ _ He3 Hok2 Hf2 Hp2) as (_ & _ & _ & _ & _ & Hx2).
  destruct (Hx2 Hr2 v Hv2) as (k & Hk & Hcur2).
  destruct Hw1 as [Hi1 _], Hw2 as [Hi2 _]. simplify_eq. lia.
Qed.

(** C6: one turn of the loop meets its contract: the error code is the one the
    store, the row's status and the versions call for (a create is refused when
    it names an assignee, a cancellation exactly out of [CREATED] and the final
    statuses); the result is consistent and echoes the request; and a refused
    mutation leaves rows, versions, spans and metrics as they were. *)
Theorem turn_meets_contract (env : Env) (m : TaskMutation) (e : Engine) :
  engine_ok e -> mutation_ok m = true -> stored e (uuid4 (factories env)) = None ->
  let '(e', r) := _process_one env m e in
  error_code r = refusal env m e /\ success r = bool_decide (refusal env m e = None) /\
  _check_consistency r = true /\ result_request_id r = request_id m /\
  (success r = false -> (forall i, stored e' i = stored e i) /\ (forall i, version e' i = version e i) /\
     spans e' = spans e /\ task_transitions e' = task_transitions e /\ (task_runs e').*1 = (task_runs e).*1).
Proof.
  intros He Hok Hfresh. pose proof (refusal_exact env e (ok_store _ He) m Hok) as Href.
  destruct (_process_one env m e) as [e' r] eqn:Hp. simpl in Href.
  destruct (result_consistent _ _ _ _ _ He Hok Hfresh Hp) as (H1 & H2 & H3 & H4).
  rewrite <-Href. split_and!; try done. intros Hr. destruct (H4 Hr) as [[Hs Hv Hh Hm] Hsp].
  simpl in *. rewrite !app_nil_r in *. done.
Qed.

Lemma blocking_Some plans i p :
  plan_blocking_delete plans i = Some p -> p ∈ plans /\ plan_row_parent_task p = i.
Proof. intros Hh%head_Some_elem_of. apply list_elem_of_filter in Hh. tauto. Qed.

Lemma blocking_None plans i p :
  plan_blocking_delete plans i = None -> p ∈ plans -> plan_row_parent_task p <> i.
Proof.
  intros Hh%head_None Hp Hi. apply (proj1 (filter_nil_iff _ _) Hh p Hp Hi).
Qed.

(** A plan of the list names the task as its objective. *)
Definition objective_of (plans : list PlanRow) (i : string) : Prop :=
  exists p, p ∈ plans /\ plan_row_parent_task p = i.

(** A delete that succeeds had no plan naming the task as its objective,
    neither at the guard nor at the delete itself; and a delete refused for a
    plan names a plan that has the task as its objective. *)
Theorem delete_spares_objectives (env : Env) (x : DeleteTaskMutation) (e : Engine) :
  let r := (_process_one env (Delete x) e).2 in
  (success r = true ->
    ~ objective_of (plans_preflight env) (delete_task_id x) /\ ~ objective_of (plans_at_delete env) (delete_task_id x)) /\
  (error_code r = Some parent_of_plan ->
    exists p, (p ∈ plans_preflight env \/ p ∈ plans_reread env) /\ plan_row_parent_task p = delete_task_id x /\
      error r = Some (Names_objective (delete_refusal_message (delete_task_id x) p))).
Proof.
  unfold _process_one, dispatch, apply_delete, mbind_, query_plans, call, mret.
  destruct (call_fails env (Call_query false)); simpl; [done|].
  destruct (plan_blocking_delete (plans_preflight env) _) as [p|] eqn:Hpre; simpl.
  { split; [done|]. intros _. apply blocking_Some in Hpre as [Hp Ht]. exists p. by auto. }
  unfold on_constraint, tasks_delete, call. destruct (call_fails env Call_delete); simpl; [done|].
  destruct (repo_get (tasks e) (delete_task_id x)); [|done].
  destruct (other_constraint env || _) eqn:Hcon; simpl.
  - destruct (call_fails env (Call_query true)); simpl; [done|].
    destruct (plan_blocking_delete (plans_reread env) _) as [p|] eqn:Hre; simpl; [|done].
    split; [done|]. intros _. apply blocking_Some in Hre as [Hp Ht]. exists p. by auto.
  - split; [|done]. apply orb_false_elim in Hcon as [_ Hat%bool_decide_eq_false].
    apply eq_None_not_Some in Hat.
    split; intros (p & Hp & Hi); [exact (blocking_None _ _ _ Hpre Hp Hi)|exact (blocking_None _ _ _ Hat Hp Hi)].
Qed.

End Engine.

(** ** A run on plain objects

    The store is a map by id, which satisfies the repository's laws. *)

#[export] Instance map_repository {obj} : TaskRepository (obj:=obj) (gmap string (Task obj)).
Proof.
  refine {| repo_get m i := m !! i; repo_save m t := <[task_id t := t]> m; repo_delete m i := delete i m |}.
  - intros m t i. case_decide as E; [subst i; apply lookup_insert_eq|by rewrite lookup_insert_ne].
  - intros m i j. case_decide as E; [subst j; apply lookup_delete_eq|by rewrite lookup_delete_ne].
Defined.

Section Run.
Context {obj : Type} `{Runtime obj}.
Notation MapEngine := (Engine (gmap string (Task obj))).

(** A fresh process on an empty store. *)
Definition fresh_engine : MapEngine :=
  {| tasks := ∅; versions := ∅; spans := TaskSpanTracker.empty_tracker; task_transitions := []; task_runs := [] |}.

Lemma fresh_engine_ok : engine_ok fresh_engine /\ spans_complete fresh_engine.
Proof.
  assert (Hn : forall i, stored fresh_engine i = None) by (intros i; apply lookup_empty).
  split; [split|].
  - intros i t Ht. by rewrite Hn in Ht.
  - intros i sp Hsp. simpl in Hsp. by rewrite lookup_empty in Hsp.
  - done.
  - intros i. unfold version, VersionTracker.current. simpl. by rewrite lookup_empty.
  - intros i (t & Ht & _). by rewrite Hn in Ht.
Qed.

Fixpoint run (e : MapEngine) (ops : list (Env * TaskMutation obj))
    : option (list (TaskMutation obj * TaskMutationResult obj) * MapEngine) :=
  match ops with
  | [] => Some ([], e)
  | (env, m) :: ops =>
      if mutation_ok m && bool_decide (tasks e !! uuid4 (factories env) = None) then
        let '(e, r) := _process_one env m e in
        '(tr, e) ← run e ops; Some ((m, r) :: tr, e)
      else None
  end.

Lemma run_steps e ops tr e' : run e ops = Some (tr, e') -> steps e tr e'.
Proof.
  revert e tr. induction ops as [|[env m] ops IH]; intros e tr Hrun; simpl in Hrun.
  { simplify_eq. constructor. }
  destruct (mutation_ok m) eqn:Hok; [|done]. simpl in Hrun. case_bool_decide as Hfresh; [|done].
  destruct (_process_one env m e) as [e1 r] eqn:Hp.
  destruct (run e1 ops) as [[tr1 e2]|] eqn:Hr; [|done]. simpl in Hrun. simplify_eq.
  econstructor; [done|exact Hfresh|exact Hp|by apply IH].
Qed.

End Run.

(** A task is filed, assigned, retitled and cancelled; two writers expect the
    second version. *)
Module Demo.
Import Plain.

Definition env_of (new_id : string) (now : Z) : Env := {|
  factories := {| uuid4 := new_id; utc_now := now |};
  call_fails := fun _ => false;
  plans_preflight := []; plans_at_delete := []; plans_reread := [];
  other_constraint := false;
|}.

Definition data : CreateTaskData := {|
  data_title := "Parse"; data_description := "Write the parser";
  data_type := TaskType.DEVELOPMENT; data_priority := Priority.MEDIUM; data_project := "p1";
  data_created_by := "ada"; data_assigned_to := None; data_dependencies := ["u0"%string];
  data_estimated_complexity := Complexity.MEDIUM; data_acceptance_criteria := [];
  data_budget_limit := 0%Q;
|}.

Definition create : TaskMutation pyobj :=
  Create {| create_request_id := "r1"; create_requested_by := "ada"; create_task_data := data |}.
Definition assign : TaskMutation pyobj :=
  Transition {| transition_request_id := "r2"; transition_requested_by := "ada"; transition_task_id := "u1";
    target_status := ASSIGNED; transition_reason := "picked up";
    overrides := {["assigned_to"%string := PSome (PStr "bob")]}; transition_expected_version := Some 1%Z |}.
Definition retitle (rid : string) : TaskMutation pyobj :=
  Update {| update_request_id := rid; update_requested_by := "ada"; update_task_id := "u1";
    updates := {["title"%string := PStr "Parser"]}; update_expected_version := Some 2%Z |}.
Definition cancel : TaskMutation pyobj :=
  Cancel {| cancel_request_id := "r5"; cancel_requested_by := "ada"; cancel_task_id := "u1"; cancel_reason := "moot" |}.

Definition ops : list (Env * TaskMutation pyobj) := [
  (env_of "u1" 1, create); (env_of "u2" 2, assign); (env_of "u2" 3, retitle "r3");
  (env_of "u2" 4, retitle "r4"); (env_of "u2" 5, cancel)].

Definition outcome := run fresh_engine ops.

Definition filed := run fresh_engine (take 1 ops).
Definition rest := drop 1 ops.

(** Which turns succeed. *)
Lemma outcome_successes :
  option_map (fun o => map (fun mr => success mr.2) o.1) outcome = Some [true; true; true; false; true].
Proof. vm_compute. reflexivity. Qed.

Lemma outcome_mutations : option_map (fun o => map fst o.1) outcome = Some (map snd ops).
Proof. reflexivity. Qed.

End Demo.

Lemma task_engine_invariant_witness :
  match Demo.outcome with
  | Some (_, e') => forall i, live e' i -> is_Some (_spans (spans e') !! i)
  | None => False
  end.
Proof.
  destruct Demo.outcome as [[tr e']|] eqn:E; [|vm_compute in E; discriminate E].
  apply (task_engine_invariant fresh_engine e' tr); [exact (run_steps fresh_engine Demo.ops _ _ E)|apply fresh_engine_ok..].
Defined.

Lemma no_lost_update_witness :
  match Demo.outcome with
  | Some ([_; _; _; (_, r); _], _) => success r = false
  | _ => False
  end.
Proof.
  pose proof Demo.outcome_successes as Hs. pose proof Demo.outcome_mutations as Hm.
  destruct Demo.outcome as [[tr e']|] eqn:E; [|discriminate Hs].
  destruct tr as [|[m1 r1] [|[m2 r2] [|[m3 r3] [|[m4 r4] [|[m5 r5] []]]]]]; try discriminate Hs.
  injection Hs as H1 H2 H3 H4 H5. injection Hm as M1 M2 M3 M4 M5.
  apply (no_lost_update fresh_engine e' [(m1, r1); (m2, r2)] [] [(m5, r5)] m3 m4 r3 r4 "u1" 2).
  - exact (run_steps fresh_engine Demo.ops _ _ E).
  - apply fresh_engine_ok.
  - subst m3. by split.
  - by subst m3.
  - done.
  - intros mr Hmr. destruct (not_elem_of_nil mr Hmr).
  - subst m4. by split.
  - by subst m4.
Defined.

Lemma task_history_legal_witness :
  match Demo.filed with
  | Some (_, e) =>
      match run e Demo.rest, stored e "u1" with
      | Some (_, e'), Some t => exists t', stored e' "u1" = Some t' /\
          rtc (fun s s' => validate_transition s s' = Ok tt) (task_status t) (task_status t')
      | _, _ => False
      end
  | None => False
  end.
Proof.
  assert (Hr : match Demo.filed with
    | Some (_, e) => option_map (fun p => map fst p.1) (run e Demo.rest) = Some (map snd Demo.rest) /\
        is_Some (stored e "u1")
    | None => False end) by (vm_compute; split; [reflexivity|by eexists]).
  destruct Demo.filed as [[tr0 e]|] eqn:E0; [|destruct Hr].
  apply (run_steps fresh_engine (take 1 Demo.ops)) in E0. destruct Hr as [Hr [t Ht]]. rewrite Ht.
  destruct (run e Demo.rest) as [[tr e']|] eqn:E1; [|discriminate Hr]. injection Hr as Hr.
  destruct (steps_ok _ _ _ E0 (proj1 fresh_engine_ok)) as [He _].
  destruct (task_history_legal e e' tr "u1" t (run_steps _ _ _ _ E1) He Ht) as (t' & Ht' & _ & _ & Hrtc & _);
    [|exists t'; split; [exact Ht'|exact Hrtc]].
  clear E1. intros [m r] Hmr (x & Hx & _). simpl in Hx. apply (list_elem_of_fmap_2 fst) in Hmr.
  change (fst <$> tr) with (map fst tr) in Hmr. rewrite Hr in Hmr. simpl in Hmr. set_solver.
Defined.

Lemma turn_meets_contract_witness :
  error_code (_process_one (Demo.env_of "u2" 2) Demo.cancel (fresh_engine (obj:=Plain.pyobj))).2 = Some not_found.
Proof.
  pose proof (turn_meets_contract (Demo.env_of "u2" 2) Demo.cancel (fresh_engine (obj:=Plain.pyobj))
    (proj1 fresh_engine_ok) eq_refl eq_refl) as Hc.
  destruct (_process_one _ _ _) as [e' r]. exact (proj1 Hc).
Defined.

(** A create that names an assignee is always refused: the task it builds
    starts at [CREATED], which carries none. *)
Lemma create_with_assignee_refused {obj} `{Runtime obj} `{!TaskRepository R} (env : Env)
    (m : CreateTaskMutation) (e : Engine R) :
  mutation_ok (obj:=obj) (Create m) = true -> data_assigned_to (create_task_data m) <> None ->
  error_code (_process_one (obj:=obj) env (Create m) e).2 = Some validation.
Proof.
  intros Hok Ha. rewrite create_refusal by done. unfold refusal, create_acceptable.
  by rewrite bool_decide_eq_false_2.
Qed.
