(* ===== verification/ConditionEval.v ===== *)
(** * ConditionEval

    The condition language of workflow branches, [engine/workflow/condition_eval.py]:
    the tokenizer, the recursive descent parser that evaluates while it parses,
    and the grammar they implement. *)

From stdpp Require Import gmap strings list.
From Stdlib Require Import Ascii Lia.
From S2P Require Import Prelude.
#[local] Open Scope nat_scope.

(** ** Text

    Characters are code points below 256. [\w] of a Python pattern: digits,
    letters, the underscore and the numeric and ordinal signs of that range. *)

Definition between (lo hi n : nat) : bool := (lo <=? n) && (n <=? hi).

Definition is_word (c : ascii) : bool :=
  let n := nat_of_ascii c in
  between 48 57 n || between 65 90 n || (n =? 95) || between 97 122 n ||
  (n =? 170) || between 178 179 n || (n =? 181) || between 185 186 n || between 188 190 n ||
  between 192 214 n || between 216 246 n || between 248 255 n.

Definition upper_char (c : ascii) : ascii :=
  let n := nat_of_ascii c in if between 97 122 n then ascii_of_nat (n - 32) else c.

(** [str.upper] and [str.lower], as far as a comparison with a word of plain
    letters can tell. *)
Fixpoint upper (s : string) : string :=
  match s with
  | EmptyString => EmptyString
  | String c s => String (upper_char c) (upper s)
  end.

Definition equals_ignoring_case (s word : string) : bool := bool_decide (upper s = word).

(** [expr.partition(op)] for an operator of two characters; [None] when it does
    not occur. *)
Fixpoint partition (a b : ascii) (s : string) : option (string * string) :=
  match s with
  | String c ((String d rest) as s') =>
      if Ascii.eqb c a && Ascii.eqb d b then Some (EmptyString, rest)
      else prod_map (String c) id <$> partition a b s'
  | _ => None
  end.

(** ** Atoms *)

Section Eval.
(** The values of a context, with [bool(x)] and [str(x)]. *)
Context {obj : Type} (truthy : obj -> bool) (str : obj -> string).
Implicit Types (context : gmap string obj).

(** One round of the loop over the operators: [None] where it continues. *)
Definition compare_with (op : ascii * ascii) (negated : bool) (expr : string) context : option bool :=
  '(key, value) ← partition op.1 op.2 expr;
  let key := strip key in
  let value := strip value in
  Some (if bool_decide (key = EmptyString) || bool_decide (value = EmptyString) then false else
        match context !! key with
        | None => negated
        | Some x => xorb negated (bool_decide (str x = value))
        end).

Definition _eval_comparison (expr : string) context : option bool :=
  match compare_with ("!", "=")%char true expr context with
  | Some b => Some b
  | None => compare_with ("=", "=")%char false expr context
  end.

Definition _eval_atom (expr : string) context : bool :=
  let expr := strip expr in
  if bool_decide (expr = EmptyString) then false else
  if equals_ignoring_case expr "TRUE" then true else
  if equals_ignoring_case expr "FALSE" then false else
  match _eval_comparison expr context with
  | Some b => b
  | None => from_option truthy false (context !! expr)
  end.
End Eval.

(** ** Tokens *)

Definition is_paren (c : ascii) : bool := Ascii.eqb c "("%char || Ascii.eqb c ")"%char.

(** [\b] before the rest of the text: no word character on the left; the next
    character is known to be one. *)
Definition starts_word (prev : option ascii) : bool := negb (from_option is_word false prev).
(** [\b] after a word: no word character follows. *)
Definition ends_word (s : string) : bool :=
  match s with String c _ => negb (is_word c) | EmptyString => true end.

(** The rest of the text after a word matched regardless of case. *)
Fixpoint after_word (word s : string) : option string :=
  match word, s with
  | EmptyString, _ => Some s
  | String w word, String c s => if Ascii.eqb (upper_char c) w then after_word word s else None
  | String _ _, EmptyString => None
  end.

Definition _KEYWORDS : list string := ["AND"; "OR"; "NOT"]%string.

(** The keyword the pattern matches here. *)
Definition keyword_at (prev : option ascii) (s : string) : option string :=
  if starts_word prev then
    head (filter (fun k => from_option ends_word false (after_word k s) = true) _KEYWORDS)
  else None.

(** [expression[pos:start].strip()], when there is something left. *)
Definition flush (atom : string) : list string :=
  let atom := strip atom in
  if bool_decide (atom = EmptyString) then [] else [atom].

(** The scan of [finditer]: [skip] characters of a match are still to pass,
    [prev] is the character before, [atom] the text since the last match. *)
Fixpoint tokenize_from (skip : nat) (prev : option ascii) (atom s : string) : list string :=
  match s with
  | EmptyString => flush atom
  | String c s' =>
      match skip with
      | S skip => tokenize_from skip (Some c) atom s'
      | O =>
          if is_paren c then flush atom ++ String c EmptyString :: tokenize_from 0 (Some c) EmptyString s'
          else
            match keyword_at prev s with
            | Some k => flush atom ++ k :: tokenize_from (String.length k - 1) (Some c) EmptyString s'
            | None => tokenize_from 0 (Some c) (String.append atom (String c EmptyString)) s'
            end
      end
  end.

Definition _tokenize (expression : string) : list string := tokenize_from 0 None EmptyString expression.

(** [_COMPOUND_RE.search]: somewhere the pattern matches. *)
Fixpoint compound_from (prev : option ascii) (s : string) : bool :=
  match s with
  | EmptyString => false
  | String c s' => is_paren c || bool_decide (is_Some (keyword_at prev s)) || compound_from (Some c) s'
  end.

Definition _has_compound_operators (expression : string) : bool := compound_from None expression.

(** ** Parsing while evaluating *)

Inductive ConditionError :=
| Missing_operand
| Unclosed_parenthesis
| Unexpected_token (token : string)
| Trailing_tokens (n : nat).

#[export] Instance condition_error_eq_dec : EqDecision ConditionError.
Proof. solve_decision. Defined.

Definition _MAX_TOKEN_COUNT : nat := 256.

Definition outcome := option (result ConditionError (bool * nat)).

(** A call that may run out of fuel or raise. *)
Definition after (o : outcome) (k : bool -> nat -> outcome) : outcome :=
  match o with
  | Some (Ok (v, pos)) => k v pos
  | o => o
  end.

Section Parser.
(** The value of an atom in the context at hand. *)
Context (atom : string -> bool) (tokens : list string).

(** The descent; [or_loop] and [and_loop] are the [while] loops. *)
Fixpoint _parse_or (n pos : nat) : outcome :=
  match n with O => None | S n => after (_parse_and n pos) (or_loop n) end
with or_loop (n : nat) (left : bool) (pos : nat) : outcome :=
  match n with
  | O => None
  | S n =>
      if decide (tokens !! pos = Some "OR"%string)
      then after (_parse_and n (S pos)) (fun right pos => or_loop n (left || right) pos)
      else Some (Ok (left, pos))
  end
with _parse_and (n pos : nat) : outcome :=
  match n with O => None | S n => after (_parse_not n pos) (and_loop n) end
with and_loop (n : nat) (left : bool) (pos : nat) : outcome :=
  match n with
  | O => None
  | S n =>
      if decide (tokens !! pos = Some "AND"%string)
      then after (_parse_not n (S pos)) (fun right pos => and_loop n (left && right) pos)
      else Some (Ok (left, pos))
  end
with _parse_not (n pos : nat) : outcome :=
  match n with
  | O => None
  | S n =>
      if decide (tokens !! pos = Some "NOT"%string)
      then after (_parse_not n (S pos)) (fun v pos => Some (Ok (negb v, pos)))
      else _parse_atom_token n pos
  end
with _parse_atom_token (n pos : nat) : outcome :=
  match n with
  | O => None
  | S n =>
      match tokens !! pos with
      | None => Some (Err Missing_operand)
      | Some t =>
          if decide (t = "("%string) then
            after (_parse_or n (S pos)) (fun v pos =>
              if decide (tokens !! pos = Some ")"%string) then Some (Ok (v, S pos))
              else Some (Err Unclosed_parenthesis))
          else if decide (t ∈ ["AND"; "OR"; "NOT"; ")"]%string) then Some (Err (Unexpected_token t))
          else Some (Ok (atom t, S pos))
      end
  end.
End Parser.

(** Each token starts at most one descent of four calls and one turn of a loop. *)
Definition parse_fuel (tokens : list string) : nat := 6 * length tokens + 4.

Section Evaluate.
Context {obj : Type} (truthy : obj -> bool) (str : obj -> string).
Implicit Types (context : gmap string obj).

Definition _evaluate_inner (expr : string) context : option (result ConditionError bool) :=
  if negb (_has_compound_operators expr) || bool_decide (upper expr ∈ _KEYWORDS)
  then Some (Ok (_eval_atom truthy str expr context)) else
  let tokens := _tokenize expr in
  if bool_decide (tokens = []) then Some (Ok false) else
  if _MAX_TOKEN_COUNT <? length tokens then Some (Ok false) else
  match _parse_or (fun t => _eval_atom truthy str t context) tokens (parse_fuel tokens) 0 with
  | None => None
  | Some (Err e) => Some (Err e)
  | Some (Ok (v, pos)) =>
      if decide (pos = length tokens) then Some (Ok v)
      else Some (Err (Trailing_tokens (length tokens - pos)))
  end.

Definition evaluate_condition (expression : string) context : option (result ConditionError bool) :=
  let expr := strip expression in
  if bool_decide (expr = EmptyString) then Some (Ok false) else _evaluate_inner expr context.
End Evaluate.

(** ** Examples *)

Definition sample : gmap string string := {["env"%string := "prod"%string; "flag"%string := ""%string]}.
Definition run_sample (s : string) := evaluate_condition (fun x => negb (bool_decide (x = EmptyString))) id s sample.

Example tokens_split : _tokenize "(env == prod)or not NOTICE AND(x)" =
  ["("; "env == prod"; ")"; "OR"; "NOT"; "NOTICE"; "AND"; "("; "x"; ")"]%string.
Proof. reflexivity. Qed.
Example eval_precedence : run_sample "env == prod OR flag AND flag" = Some (Ok true).
Proof. reflexivity. Qed.
Example eval_missing : run_sample "region != eu and not flag" = Some (Ok true).
Proof. reflexivity. Qed.
Example eval_unclosed : run_sample "(env == prod" = Some (Err Unclosed_parenthesis).
Proof. reflexivity. Qed.
Example eval_trailing : run_sample "(env) flag" = Some (Err (Trailing_tokens 1)).
Proof. reflexivity. Qed.
Example eval_keyword : run_sample "not" = Some (Ok false).
Proof. reflexivity. Qed.

(** ** The grammar

    [NOT] binds tighter than [AND], [AND] tighter than [OR]; both operators
    associate to the left. *)

Inductive cond :=
| Atom (text : string)
| Not (c : cond)
| And (a b : cond)
| Or (a b : cond).

Inductive level := LOr | LAnd | LNot.

#[export] Instance level_eq_dec : EqDecision level.
Proof. solve_decision. Defined.

Definition reserved : list string := ["AND"; "OR"; "NOT"; "("; ")"]%string.

Inductive derives : level -> list string -> cond -> Prop :=
| D_or ts1 ts2 a b : derives LOr ts1 a -> derives LAnd ts2 b -> derives LOr (ts1 ++ "OR"%string :: ts2) (Or a b)
| D_or_one ts c : derives LAnd ts c -> derives LOr ts c
| D_and ts1 ts2 a b : derives LAnd ts1 a -> derives LNot ts2 b -> derives LAnd (ts1 ++ "AND"%string :: ts2) (And a b)
| D_and_one ts c : derives LNot ts c -> derives LAnd ts c
| D_not ts c : derives LNot ts c -> derives LNot ("NOT"%string :: ts) (Not c)
| D_group ts c : derives LOr ts c -> derives LNot ("("%string :: ts ++ [")"%string]) c
| D_atom t : t ∉ reserved -> derives LNot [t] (Atom t).

Fixpoint eval (atom : string -> bool) (c : cond) : bool :=
  match c with
  | Atom t => atom t
  | Not c => negb (eval atom c)
  | And a b => eval atom a && eval atom b
  | Or a b => eval atom a || eval atom b
  end.

Lemma derives_nonempty l ts c : derives l ts c -> ts <> [].
Proof. induction 1; try done; destruct ts1; done. Qed.

(** ** The parser follows the grammar *)

Section ParserProofs.
Context (atom : string -> bool) (tokens : list string).
#[local] Notation parse_or := (_parse_or atom tokens).
#[local] Notation orl := (or_loop atom tokens).
#[local] Notation parse_and := (_parse_and atom tokens).
#[local] Notation andl := (and_loop atom tokens).
#[local] Notation parse_not := (_parse_not atom tokens).
#[local] Notation parse_atom := (_parse_atom_token atom tokens).

(** The equations of one step. *)
Lemma parse_or_S n pos : parse_or (S n) pos = after (parse_and n pos) (orl n).
Proof. done. Qed.
Lemma or_loop_S n left pos : orl (S n) left pos =
  if decide (tokens !! pos = Some "OR"%string)
  then after (parse_and n (S pos)) (fun right pos => orl n (left || right) pos)
  else Some (Ok (left, pos)).
Proof. done. Qed.
Lemma parse_and_S n pos : parse_and (S n) pos = after (parse_not n pos) (andl n).
Proof. done. Qed.
Lemma and_loop_S n left pos : andl (S n) left pos =
  if decide (tokens !! pos = Some "AND"%string)
  then after (parse_not n (S pos)) (fun right pos => andl n (left && right) pos)
  else Some (Ok (left, pos)).
Proof. done. Qed.
Lemma parse_not_S n pos : parse_not (S n) pos =
  if decide (tokens !! pos = Some "NOT"%string)
  then after (parse_not n (S pos)) (fun v pos => Some (Ok (negb v, pos)))
  else parse_atom n pos.
Proof. done. Qed.
Lemma parse_atom_S n pos : parse_atom (S n) pos =
  match tokens !! pos with
  | None => Some (Err Missing_operand)
  | Some t =>
      if decide (t = "("%string) then
        after (parse_or n (S pos)) (fun v pos =>
          if decide (tokens !! pos = Some ")"%string) then Some (Ok (v, S pos))
          else Some (Err Unclosed_parenthesis))
      else if decide (t ∈ ["AND"; "OR"; "NOT"; ")"]%string) then Some (Err (Unexpected_token t))
      else Some (Ok (atom t, S pos))
  end.
Proof. done. Qed.

Lemma after_mono (o o' : outcome) k k' r :
  (forall x, o = Some x -> o' = Some x) -> (forall v p x, k v p = Some x -> k' v p = Some x) ->
  after o k = Some r -> after o' k' = Some r.
Proof.
  intros Ho Hk. destruct o as [[[v p]|e]|]; simpl; [| |done].
  - rewrite (Ho _ eq_refl). apply Hk.
  - rewrite (Ho _ eq_refl). done.
Qed.

(** More fuel gives the same answer. *)
Lemma fuel_S n :
  (forall pos o, parse_or n pos = Some o -> parse_or (S n) pos = Some o) /\
  (forall left pos o, orl n left pos = Some o -> orl (S n) left pos = Some o) /\
  (forall pos o, parse_and n pos = Some o -> parse_and (S n) pos = Some o) /\
  (forall left pos o, andl n left pos = Some o -> andl (S n) left pos = Some o) /\
  (forall pos o, parse_not n pos = Some o -> parse_not (S n) pos = Some o) /\
  (forall pos o, parse_atom n pos = Some o -> parse_atom (S n) pos = Some o).
Proof.
  induction n as [|n (IHo & IHol & IHa & IHal & IHn & IHt)]; [by split_and!|].
  split_and!.
  - intros pos o. rewrite (parse_or_S n), (parse_or_S (S n)). apply after_mono; [apply IHa|intros ???; apply IHol].
  - intros left pos o. rewrite (or_loop_S n), (or_loop_S (S n)). case_decide; [|done].
    apply after_mono; [apply IHa|intros ???; apply IHol].
  - intros pos o. rewrite (parse_and_S n), (parse_and_S (S n)). apply after_mono; [apply IHn|intros ???; apply IHal].
  - intros left pos o. rewrite (and_loop_S n), (and_loop_S (S n)). case_decide; [|done].
    apply after_mono; [apply IHn|intros ???; apply IHal].
  - intros pos o. rewrite (parse_not_S n), (parse_not_S (S n)). case_decide; [|apply IHt].
    apply after_mono; [apply IHn|done].
  - intros pos o. rewrite (parse_atom_S n), (parse_atom_S (S n)). destruct (tokens !! pos); [|done].
    case_decide; [|done]. apply after_mono; [apply IHo|done].
Qed.

Lemma fuel_le {A} (f : nat -> A -> outcome) :
  (forall n x o, f n x = Some o -> f (S n) x = Some o) ->
  forall n m x o, n <= m -> f n x = Some o -> f m x = Some o.
Proof. intros HS n m x o Hle Hf. induction Hle; auto. Qed.

Lemma parse_or_le n m pos o : n <= m -> parse_or n pos = Some o -> parse_or m pos = Some o.
Proof. apply (fuel_le parse_or). intros n0 x o0. apply (fuel_S n0). Qed.
Lemma parse_and_le n m pos o : n <= m -> parse_and n pos = Some o -> parse_and m pos = Some o.
Proof. apply (fuel_le parse_and). intros n0 x o0. apply (fuel_S n0). Qed.
Lemma parse_not_le n m pos o : n <= m -> parse_not n pos = Some o -> parse_not m pos = Some o.
Proof. apply (fuel_le parse_not). intros n0 x o0. apply (fuel_S n0). Qed.
Lemma or_loop_le n m left pos o : n <= m -> orl n left pos = Some o -> orl m left pos = Some o.
Proof. apply (fuel_le (fun n pos => orl n left pos)). intros n0 x o0. apply (fuel_S n0). Qed.
Lemma and_loop_le n m left pos o : n <= m -> andl n left pos = Some o -> andl m left pos = Some o.
Proof. apply (fuel_le (fun n pos => andl n left pos)). intros n0 x o0. apply (fuel_S n0). Qed.

(** The tokens from [pos] on are [ts], then whatever is at [pos']. *)
Definition slice (pos pos' : nat) (ts : list string) : Prop :=
  drop pos tokens = ts ++ drop pos' tokens /\ pos' = pos + length ts.

Lemma slice_nil pos : slice pos pos [].
Proof. split; [done|simpl; lia]. Qed.

Lemma slice_app p q r ts us : slice p q ts -> slice q r us -> slice p r (ts ++ us).
Proof. intros [H1 ->] [H2 ->]. split; [by rewrite H1, H2, app_assoc|rewrite length_app; lia]. Qed.

Lemma slice_token pos t : tokens !! pos = Some t -> slice pos (S pos) [t].
Proof. intros Ht. split; [by apply drop_S|simpl; lia]. Qed.

Lemma after_ok o k v pos :
  after o k = Some (Ok (v, pos)) <-> exists u p, o = Some (Ok (u, p)) /\ k u p = Some (Ok (v, pos)).
Proof. destruct o as [[[u p]|e]|]; naive_solver. Qed.

(** What a successful call consumed. *)
Definition consumed (l : level) (pos : nat) (v : bool) (pos' : nat) : Prop :=
  exists ts c, slice pos pos' ts /\ derives l ts c /\ v = eval atom c.

(** What a loop that continues a phrase made of it. *)
Definition continued (l : level) (left : bool) (pos : nat) (v : bool) (pos' : nat) : Prop :=
  forall ts0 c0, derives l ts0 c0 -> left = eval atom c0 ->
    exists ts c, slice pos pos' ts /\ derives l (ts0 ++ ts) c /\ v = eval atom c.

Lemma continued_stop l left pos : continued l left pos left pos.
Proof. intros ts0 c0 Hd Hl. exists [], c0. rewrite app_nil_r. split_and!; auto using slice_nil. Qed.

(** A loop turn: the operator, a phrase of the level below, and the rest. *)
Lemma continued_turn (l l' : level) (op : string) (mk : cond -> cond -> cond) (f : bool -> bool -> bool)
    left pos right p v pos' :
  (forall ts1 ts2 a b, derives l ts1 a -> derives l' ts2 b -> derives l (ts1 ++ op :: ts2) (mk a b)) ->
  (forall a b, eval atom (mk a b) = f (eval atom a) (eval atom b)) ->
  tokens !! pos = Some op -> consumed l' (S pos) right p -> continued l (f left right) p v pos' ->
  continued l left pos v pos'.
Proof.
  intros Hmk Hf Ht (ts2 & b & Hs & Hb & ->) Hc ts0 a Ha ->.
  destruct (Hc _ _ (Hmk _ _ _ _ Ha Hb)) as (ts & c & Hs' & Hd & Hv); [by rewrite Hf|].
  exists ((op :: ts2) ++ ts), c. split_and!; [|by rewrite app_assoc|done].
  eapply slice_app; [|done]. change (op :: ts2) with ([op] ++ ts2).
  eapply slice_app; [by apply slice_token|done].
Qed.

Lemma parser_sound n :
  (forall pos v pos', parse_or n pos = Some (Ok (v, pos')) -> consumed LOr pos v pos') /\
  (forall left pos v pos', orl n left pos = Some (Ok (v, pos')) -> continued LOr left pos v pos') /\
  (forall pos v pos', parse_and n pos = Some (Ok (v, pos')) -> consumed LAnd pos v pos') /\
  (forall left pos v pos', andl n left pos = Some (Ok (v, pos')) -> continued LAnd left pos v pos') /\
  (forall pos v pos', parse_not n pos = Some (Ok (v, pos')) -> consumed LNot pos v pos') /\
  (forall pos v pos', parse_atom n pos = Some (Ok (v, pos')) -> consumed LNot pos v pos').
Proof.
  induction n as [|n (IHo & IHol & IHa & IHal & IHn & IHt)]; [by split_and!|].
  split_and!.
  - intros pos v pos'. rewrite parse_or_S, after_ok. intros (u & p & (ts & c & Hs & Hd & ->)%IHa & Hl%IHol).
    destruct (Hl ts c) as (us & c' & Hs' & Hd' & ->); [by constructor|done|].
    exists (ts ++ us), c'. split_and!; eauto using slice_app.
  - intros left pos v pos'. rewrite or_loop_S. case_decide as Ht; [|intros [= <- <-]; apply continued_stop].
    rewrite after_ok. intros (u & p & Ha%IHa & Hl%IHol).
    by apply (continued_turn LOr LAnd "OR" Or orb left pos u p); [apply D_or|..].
  - intros pos v pos'. rewrite parse_and_S, after_ok. intros (u & p & (ts & c & Hs & Hd & ->)%IHn & Hl%IHal).
    destruct (Hl ts c) as (us & c' & Hs' & Hd' & ->); [by constructor|done|].
    exists (ts ++ us), c'. split_and!; eauto using slice_app.
  - intros left pos v pos'. rewrite and_loop_S. case_decide as Ht; [|intros [= <- <-]; apply continued_stop].
    rewrite after_ok. intros (u & p & Ha%IHn & Hl%IHal).
    by apply (continued_turn LAnd LNot "AND" And andb left pos u p); [apply D_and|..].
  - intros pos v pos'. rewrite parse_not_S. case_decide as Ht; [|apply IHt].
    rewrite after_ok. intros (u & p & (ts & c & Hs & Hd & ->)%IHn & [= <- <-]).
    exists (["NOT"%string] ++ ts), (Not c). split_and!; [|by constructor|done].
    eapply slice_app; [by apply slice_token|done].
  - intros pos v pos'. rewrite parse_atom_S. destruct (tokens !! pos) as [t|] eqn:Ht; [|done].
    case_decide as Hp; [subst t|].
    + rewrite after_ok. intros (u & p & (ts & c & Hs & Hd & ->)%IHo & Hc). case_decide as Hcl; [|done].
      injection Hc as <- <-. exists (["("%string] ++ (ts ++ [")"%string])), c.
      split_and!; [|by constructor|done]. eapply slice_app; [by apply slice_token|].
      eapply slice_app; [done|by apply slice_token].
    + case_decide as Hr; [done|]. intros [= <- <-]. exists [t], (Atom t).
      split_and!; [by apply slice_token|constructor; unfold reserved in *; set_solver|done].
Qed.

(** ** Every phrase of the grammar is parsed *)

Lemma token_at pos ts rest t : drop pos tokens = t :: ts ++ rest -> tokens !! pos = Some t.
Proof. intros Hd. rewrite <-(Nat.add_0_r pos), <-lookup_drop, Hd. done. Qed.

Lemma drop_step pos t us : drop pos tokens = t :: us -> drop (S pos) tokens = us.
Proof. intros Hd. by rewrite <-Nat.add_1_r, <-drop_drop, Hd. Qed.

Lemma drop_app pos ts us : drop pos tokens = ts ++ us -> drop (pos + length ts) tokens = us.
Proof. intros Hd. by rewrite <-drop_drop, Hd, drop_app_length. Qed.

Lemma no_token pos us t : drop pos tokens = us -> head us <> Some t -> tokens !! pos <> Some t.
Proof.
  intros Hd Hh Ht. apply Hh. rewrite <-Hd. by rewrite (drop_S _ _ _ Ht).
Qed.

(** What parsing a phrase of each level gives, whatever follows it: an [OR] or
    [AND] phrase leaves its loop to go on from the phrase's end. *)
Definition parsed (l : level) (ts : list string) (c : cond) : Prop :=
  forall pos rest, drop pos tokens = ts ++ rest ->
  match l with
  | LOr => head rest <> Some "AND"%string -> forall m o, orl m (eval atom c) (pos + length ts) = Some o ->
      exists n, parse_or n pos = Some o
  | LAnd => forall m o, andl m (eval atom c) (pos + length ts) = Some o -> exists n, parse_and n pos = Some o
  | LNot => exists n, parse_not n pos = Some (Ok (eval atom c, pos + length ts))
  end.

Lemma or_loop_stops pos rest left :
  drop pos tokens = rest -> head rest <> Some "OR"%string -> orl 1 left pos = Some (Ok (left, pos)).
Proof. intros Hd Hh. rewrite or_loop_S, decide_False; [done|]. by eapply no_token. Qed.

Lemma and_loop_stops pos rest left :
  drop pos tokens = rest -> head rest <> Some "AND"%string -> andl 1 left pos = Some (Ok (left, pos)).
Proof. intros Hd Hh. rewrite and_loop_S, decide_False; [done|]. by eapply no_token. Qed.

(** An [AND] phrase that nothing continues is parsed to its end. *)
Lemma parse_and_ends ts c pos rest :
  parsed LAnd ts c -> drop pos tokens = ts ++ rest -> head rest <> Some "AND"%string ->
  exists n, parse_and n pos = Some (Ok (eval atom c, pos + length ts)).
Proof.
  intros Hp Hd Hh. apply (Hp pos rest Hd 1). eapply and_loop_stops; [|done]. by apply drop_app.
Qed.

Lemma parser_complete l ts c : derives l ts c -> parsed l ts c.
Proof.
  induction 1 as [ts1 ts2 a b _ IHa _ IHb|ts c _ IH|ts1 ts2 a b _ IHa _ IHb|ts c _ IH|ts c _ IH|ts c _ IH|t Ht];
    intros pos rest Hd.
  - intros Hh m o Hm. rewrite <-app_assoc in Hd. simpl in Hd.
    pose proof (drop_app _ _ _ Hd) as Hd1. pose proof (drop_step _ _ _ Hd1) as Hd2.
    destruct (parse_and_ends _ _ _ _ IHb Hd2 Hh) as [n Hn].
    apply (IHa pos _ Hd ltac:(done) (S (Nat.max n m))). rewrite or_loop_S, decide_True.
    + rewrite (parse_and_le n (Nat.max n m) _ _ (Nat.le_max_l _ _) Hn). simpl. eapply or_loop_le; [|].
      { apply (Nat.le_max_r n m). }
      simpl in Hm. rewrite <-Hm. f_equal. rewrite length_app. simpl. lia.
    + by eapply token_at.
  - intros Hh m o Hm. destruct (parse_and_ends _ _ _ _ IH Hd Hh) as [n Hn].
    exists (S (Nat.max n m)). rewrite parse_or_S, (parse_and_le n (Nat.max n m) _ _ (Nat.le_max_l _ _) Hn). simpl.
    eapply or_loop_le; [|done]. lia.
  - intros m o Hm. rewrite <-app_assoc in Hd. simpl in Hd.
    pose proof (drop_app _ _ _ Hd) as Hd1. pose proof (drop_step _ _ _ Hd1) as Hd2.
    destruct (IHb _ _ Hd2) as [n Hn].
    apply (IHa pos _ Hd (S (Nat.max n m))). rewrite and_loop_S, decide_True.
    + rewrite (parse_not_le n (Nat.max n m) _ _ (Nat.le_max_l _ _) Hn). simpl. eapply and_loop_le; [|].
      { apply (Nat.le_max_r n m). }
      simpl in Hm. rewrite <-Hm. f_equal. rewrite length_app. simpl. lia.
    + by eapply token_at.
  - intros m o Hm. destruct (IH _ _ Hd) as [n Hn].
    exists (S (Nat.max n m)). rewrite parse_and_S, (parse_not_le n (Nat.max n m) _ _ (Nat.le_max_l _ _) Hn). simpl.
    eapply and_loop_le; [|done]. lia.
  - simpl in Hd. destruct (IH _ _ (drop_step _ _ _ Hd)) as [n Hn].
    exists (S n). rewrite parse_not_S, decide_True by (by eapply token_at). rewrite Hn. simpl.
    repeat f_equal. lia.
  - simpl in Hd. rewrite <-app_assoc in Hd. simpl in Hd. pose proof (drop_step _ _ _ Hd) as Hd1.
    destruct (IH _ _ Hd1 ltac:(done) 1 (Ok (eval atom c, S pos + length ts))) as [n Hn].
    { eapply or_loop_stops; [by apply drop_app|done]. }
    exists (S (S n)). rewrite parse_not_S, decide_False by (by rewrite (token_at _ _ _ _ Hd)).
    rewrite parse_atom_S, (token_at _ _ _ _ Hd), decide_True by done. rewrite Hn. simpl.
    rewrite decide_True.
    + repeat f_equal. rewrite length_app. simpl. lia.
    + apply (token_at _ [] rest). apply (drop_app _ _ _ Hd1).
  - simpl in Hd. exists 2. rewrite parse_not_S, parse_atom_S, (token_at _ [] rest t) by done.
    unfold reserved in Ht. rewrite decide_False by (intros [= ->]; set_solver).
    rewrite decide_False by (intros ->; set_solver). rewrite decide_False by set_solver.
    simpl. by rewrite Nat.add_1_r.
Qed.

(** ** The fuel is enough *)

Lemma consumed_advances l pos v pos' : consumed l pos v pos' -> pos < pos' /\ length tokens - pos' < length tokens - pos.
Proof.
  intros (ts & c & [Hd ->] & Hc%derives_nonempty & _). apply (f_equal length) in Hd.
  rewrite length_app, !length_drop in Hd. destruct ts; [done|]. simpl in *. lia.
Qed.

Lemma after_total o k :
  is_Some o -> (forall v p, o = Some (Ok (v, p)) -> is_Some (k v p)) -> is_Some (after o k).
Proof. intros [[[v p]|e] ->] Hk; simpl; [by apply Hk|by eexists]. Qed.

Lemma token_left pos t : tokens !! pos = Some t -> length tokens - S pos < length tokens - pos.
Proof. intros Ht%lookup_lt_Some. lia. Qed.

Lemma parser_total n :
  (forall pos, 6 * (length tokens - pos) + 4 <= n -> is_Some (parse_or n pos)) /\
  (forall left pos, 6 * (length tokens - pos) + 1 <= n -> is_Some (orl n left pos)) /\
  (forall pos, 6 * (length tokens - pos) + 3 <= n -> is_Some (parse_and n pos)) /\
  (forall left pos, 6 * (length tokens - pos) + 1 <= n -> is_Some (andl n left pos)) /\
  (forall pos, 6 * (length tokens - pos) + 2 <= n -> is_Some (parse_not n pos)) /\
  (forall pos, 6 * (length tokens - pos) + 1 <= n -> is_Some (parse_atom n pos)).
Proof.
  induction n as [|n (IHo & IHol & IHa & IHal & IHn & IHt)]; [split_and!; intros; lia|].
  destruct (parser_sound n) as (So & _ & Sa & _ & Sn & _).
  split_and!.
  - intros pos Hle. rewrite parse_or_S. apply after_total; [apply IHa; lia|].
    intros v p [_ Hp]%Sa%consumed_advances. apply IHol. lia.
  - intros left pos Hle. rewrite or_loop_S. case_decide as Ht; [|by eexists].
    apply token_left in Ht. apply after_total; [apply IHa; lia|].
    intros v p [_ Hp]%Sa%consumed_advances. apply IHol. lia.
  - intros pos Hle. rewrite parse_and_S. apply after_total; [apply IHn; lia|].
    intros v p [_ Hp]%Sn%consumed_advances. apply IHal. lia.
  - intros left pos Hle. rewrite and_loop_S. case_decide as Ht; [|by eexists].
    apply token_left in Ht. apply after_total; [apply IHn; lia|].
    intros v p [_ Hp]%Sn%consumed_advances. apply IHal. lia.
  - intros pos Hle. rewrite parse_not_S. case_decide as Ht; [|apply IHt; lia].
    apply token_left in Ht. apply after_total; [apply IHn; lia|]. by eexists.
  - intros pos Hle. rewrite parse_atom_S. destruct (tokens !! pos) as [t|] eqn:Ht; [|by eexists].
    apply token_left in Ht. case_decide; [|case_decide; by eexists].
    apply after_total; [apply IHo; lia|]. intros v p _. case_decide; by eexists.
Qed.

Lemma parse_or_total : is_Some (parse_or (parse_fuel tokens) 0).
Proof. apply parser_total. unfold parse_fuel. lia. Qed.

(** The whole token list is one phrase exactly when the parser consumes it, and
    then it returns the phrase's value. *)
Lemma parse_or_exact v :
  parse_or (parse_fuel tokens) 0 = Some (Ok (v, length tokens)) <->
  exists c, derives LOr tokens c /\ v = eval atom c.
Proof.
  split.
  - intros (ts & c & [Hd Hl] & Hc & ->)%(parser_sound (parse_fuel tokens)). exists c. split; [|done].
    rewrite drop_0, drop_all, app_nil_r in Hd. by subst ts.
  - intros (c & Hc & ->). destruct (parser_complete _ _ _ Hc 0 [] ltac:(by rewrite app_nil_r) ltac:(done) 1
      (Ok (eval atom c, length tokens))) as [n Hn].
    { eapply or_loop_stops; [apply drop_all|done]. }
    destruct parse_or_total as [o Ho].
    pose proof (parse_or_le _ (Nat.max n (parse_fuel tokens)) _ _ (Nat.le_max_l _ _) Hn) as H1.
    pose proof (parse_or_le _ (Nat.max n (parse_fuel tokens)) _ _ (Nat.le_max_r _ _) Ho) as H2.
    congruence.
Qed.

End ParserProofs.

(** ** Printing

    The tokens of a condition with the parentheses its shape needs, and the
    text that separates them by single spaces. *)

Definition group (b : bool) (ts : list string) : list string :=
  if b then "("%string :: ts ++ [")"%string] else ts.

Fixpoint show (l : level) (c : cond) : list string :=
  match c with
  | Atom t => [t]
  | Not c => "NOT"%string :: show LNot c
  | And a b => group (bool_decide (l = LNot)) (show LAnd a ++ "AND"%string :: show LNot b)
  | Or a b => group (negb (bool_decide (l = LOr))) (show LOr a ++ "OR"%string :: show LAnd b)
  end.

Definition spell (ts : list string) : string := String.concat " " ts.

(** Text an atom can be spelled with: trimmed, and nothing in it reads as an
    operator or a parenthesis. *)
Definition clean (t : string) : bool :=
  bool_decide (strip t = t) && negb (bool_decide (t = EmptyString)) && negb (_has_compound_operators t).

Fixpoint atoms_clean (c : cond) : bool :=
  match c with
  | Atom t => clean t
  | Not c => atoms_clean c
  | And a b | Or a b => atoms_clean a && atoms_clean b
  end.

Lemma clean_not_reserved t : clean t = true -> t ∉ reserved.
Proof.
  unfold clean. rewrite !andb_true_iff. intros [_ Hc] Hin. unfold reserved in Hin.
  repeat (apply elem_of_cons in Hin as [->|Hin]; [discriminate Hc|]). by apply elem_of_nil in Hin.
Qed.

Lemma derives_or_of l ts c : derives l ts c -> derives LOr ts c.
Proof. intros Hd. destruct l; eauto using derives. Qed.

Lemma group_derives l b ts c :
  (b = false -> derives l ts c) -> (b = true -> derives LOr ts c) -> derives l (group b ts) c.
Proof.
  intros Hf Ht. destruct b; simpl; [|by apply Hf].
  pose proof (D_group _ _ (Ht eq_refl)) as Hg. destruct l; eauto using derives.
Qed.

Lemma show_derives l c : atoms_clean c = true -> derives l (show l c) c.
Proof.
  revert l. induction c as [t|c IH|a IHa b IHb|a IHa b IHb]; intros l Hc; simpl in *.
  - apply clean_not_reserved in Hc. destruct l; eauto using derives.
  - specialize (IH LNot Hc). destruct l; eauto using derives.
  - apply andb_prop in Hc as [Ha Hb]. specialize (IHa LAnd Ha). specialize (IHb LNot Hb).
    apply group_derives; intros Hl; [|eauto using derives].
    destruct l; [by eauto using derives..|discriminate Hl].
  - apply andb_prop in Hc as [Ha Hb]. specialize (IHa LOr Ha). specialize (IHb LAnd Hb).
    apply group_derives; intros Hl; [|eauto using derives].
    destruct l; [by eauto using derives|discriminate Hl..].
Qed.

(** *** Tokens of a spelled text *)

#[local] Arguments String.append !_ _ /.
#[local] Notation "a +++ b" := (String.append a b) (at level 60, right associativity).

Lemma append_assoc a b c : (a +++ b) +++ c = a +++ (b +++ c).
Proof. induction a as [|x a IH]; [done|]. simpl. by rewrite IH. Qed.

Lemma append_nil_r a : a +++ EmptyString = a.
Proof. induction a as [|x a IH]; [done|]. simpl. by rewrite IH. Qed.

(** The text ends here, or goes on with a space. *)
Definition spaced_rest (rest : string) : Prop := rest = EmptyString \/ exists r, rest = String " " r.

Lemma after_word_app k s rest :
  k ∈ _KEYWORDS \/ k ∈ ["ND"; "D"; "R"; "OT"; "T"; ""]%string -> spaced_rest rest ->
  from_option ends_word false (after_word k (s +++ rest)) = from_option ends_word false (after_word k s).
Proof.
  intros Hk Hr. assert (Hsp : forall w k, w <> " "%char -> after_word (String w k) rest = None).
  { intros w k0 Hw. destruct Hr as [->|[r ->]]; [done|]. cbn [after_word].
    destruct (Ascii.eqb_spec (upper_char " ") w); [|done]. destruct Hw. by subst w. }
  assert (Hk' : k ∈ ["AND"; "OR"; "NOT"; "ND"; "D"; "R"; "OT"; "T"; ""]%string).
  { unfold _KEYWORDS in Hk. set_solver. }
  clear Hk. revert k Hk'. induction s as [|c s IH]; intros k Hk; simpl.
  - destruct k as [|w k].
    + simpl. by destruct Hr as [->|[r ->]].
    + rewrite Hsp; [done|]. intros ->. set_solver.
  - destruct k as [|w k]; simpl; [done|]. destruct (Ascii.eqb (upper_char c) w); [|done].
    apply IH. repeat (apply elem_of_cons in Hk as [Hk|Hk]; [try discriminate Hk; injection Hk as _ ->; set_solver|]).
    by apply elem_of_nil in Hk.
Qed.

Lemma keyword_at_app prev s rest :
  spaced_rest rest -> keyword_at prev (s +++ rest) = keyword_at prev s.
Proof.
  intros Hr. unfold keyword_at. destruct (starts_word prev); [|done].
  unfold _KEYWORDS. rewrite !filter_cons, !filter_nil.
  rewrite !(after_word_app _ s rest) by (done || (left; unfold _KEYWORDS; set_solver)). done.
Qed.

Lemma keyword_at_space prev r : keyword_at prev (String " " r) = None.
Proof. unfold keyword_at. by destruct (starts_word prev). Qed.

(** A text without operators is one atom, up to the end or to a space. *)
Lemma scan_atom a prev acc rest :
  compound_from prev a = false -> spaced_rest rest ->
  tokenize_from 0 prev acc (a +++ rest) =
    match rest with
    | EmptyString => flush (acc +++ a)
    | String _ r => tokenize_from 0 (Some " "%char) ((acc +++ a) +++ " ") r
    end.
Proof.
  intros Ha Hr. revert prev acc Ha. induction a as [|c a IH]; intros prev acc Ha.
  - simpl. rewrite append_nil_r. destruct Hr as [->|[r ->]]; [done|].
    simpl. by rewrite keyword_at_space.
  - simpl in Ha. apply orb_false_elim in Ha as [Ha Hrest]. apply orb_false_elim in Ha as [Hp Hk].
    apply bool_decide_eq_false, eq_None_not_Some in Hk.
    change ((String c a) +++ rest) with (String c (a +++ rest)). cbn [tokenize_from]. rewrite Hp.
    change (String c (a +++ rest)) with ((String c a) +++ rest). rewrite keyword_at_app, Hk by done.
    rewrite IH by done. assert (E : (acc +++ String c "") +++ a = acc +++ String c a) by (by rewrite append_assoc).
    by rewrite E.
Qed.

(** An operator or a parenthesis closes the pending atom. *)
Lemma scan_reserved t prev acc rest :
  t ∈ reserved -> starts_word prev = true -> spaced_rest rest ->
  tokenize_from 0 prev acc (t +++ rest) =
    flush acc ++ t ::
      match rest with
      | EmptyString => []
      | String _ r => tokenize_from 0 (Some " "%char) " " r
      end.
Proof.
  intros Ht Hp Hr. unfold reserved in Ht.
  assert (Hend : forall p, tokenize_from 0 p EmptyString rest = match rest with
    | EmptyString => []
    | String _ r => tokenize_from 0 (Some " "%char) " " r end).
  { intros p. destruct Hr as [->|[r ->]]; [done|]. simpl. by rewrite keyword_at_space. }
  assert (Hkw : forall c k, k = String c (String.substring 1 (String.length k) k) -> keyword_at prev k = Some k ->
    is_paren c = false -> tokenize_from 0 prev acc (k +++ rest) =
      flush acc ++ k :: tokenize_from (String.length k - 1) (Some c) EmptyString
        (String.substring 1 (String.length k) k +++ rest)).
  { intros c k Hk Hkw Hc. rewrite Hk at 1. cbn [String.append tokenize_from]. rewrite Hc.
    change (String c ?x) with (String c x). 
    replace (String c (String.substring 1 (String.length k) k +++ rest)) with (k +++ rest) by (by rewrite Hk at 1).
    by rewrite keyword_at_app, Hkw. }
  assert (Hk : forall k, k ∈ _KEYWORDS -> keyword_at prev k = Some k).
  { intros k Hk. unfold keyword_at. rewrite Hp. unfold _KEYWORDS in Hk.
    repeat (apply elem_of_cons in Hk as [->|Hk]; [done|]). by apply elem_of_nil in Hk. }
  rewrite <-(Hend None).
  repeat (apply elem_of_cons in Ht as [->|Ht]); [..|by apply elem_of_nil in Ht].
  - rewrite (Hkw "A"%char) by (done || apply Hk; unfold _KEYWORDS; set_solver). simpl. by rewrite !Hend.
  - rewrite (Hkw "O"%char) by (done || apply Hk; unfold _KEYWORDS; set_solver). simpl. by rewrite !Hend.
  - rewrite (Hkw "N"%char) by (done || apply Hk; unfold _KEYWORDS; set_solver). simpl. by rewrite !Hend.
  - simpl. by rewrite !Hend.
  - simpl. by rewrite !Hend.
Qed.

(** *** Blanks *)

Lemma lstrip_length s : lstrip s = s \/ String.length (lstrip s) < String.length s.
Proof.
  induction s as [|c s IH]; [by left|]. simpl. destruct (is_space c); [|by left]. right.
  destruct IH as [->|IH]; lia.
Qed.

Lemma rstrip_length s : String.length (rstrip s) <= String.length s.
Proof.
  induction s as [|c s IH]; [done|]. simpl. destruct (rstrip s); [case_match|]; simpl in *; lia.
Qed.

Lemma strip_fixed t : strip t = t -> lstrip t = t /\ rstrip t = t.
Proof.
  unfold strip. intros Ht. destruct (lstrip_length t) as [E|E]; [by rewrite E in Ht|].
  pose proof (rstrip_length (lstrip t)). rewrite Ht in *. lia.
Qed.

Lemma lstrip_app t r : lstrip t = t -> t <> EmptyString -> lstrip (t +++ r) = t +++ r.
Proof.
  destruct t as [|c t]; [done|]. simpl. intros Ht _. destruct (is_space c); [|done].
  destruct (lstrip_length t) as [E|E]; rewrite Ht in E.
  - apply (f_equal String.length) in E. simpl in E. lia.
  - simpl in E. lia.
Qed.

Lemma rstrip_app r t : rstrip t = t -> t <> EmptyString -> rstrip (r +++ t) = r +++ t.
Proof.
  intros Ht Hne. induction r as [|c r IH]; [done|]. simpl. rewrite IH.
  destruct r; simpl; [by destruct t|done].
Qed.

Lemma rstrip_space t : rstrip (t +++ " ") = rstrip t.
Proof. induction t as [|c t IH]; [done|]. simpl. by rewrite IH. Qed.

Lemma clean_strip t : clean t = true -> lstrip t = t /\ rstrip t = t /\ t <> EmptyString.
Proof.
  unfold clean. rewrite !andb_true_iff, bool_decide_eq_true, negb_true_iff, bool_decide_eq_false.
  intros [[Hs Hn] _]. destruct (strip_fixed t Hs). done.
Qed.

Lemma reserved_strip t : t ∈ reserved -> lstrip t = t /\ rstrip t = t /\ t <> EmptyString.
Proof.
  intros Ht. unfold reserved in Ht. repeat (apply elem_of_cons in Ht as [->|Ht]; [done|]).
  by apply elem_of_nil in Ht.
Qed.

(** What is pending after an atom, or after anything else. *)
Definition pending (acc : string) (atom : option string) : Prop :=
  match atom with Some a => flush acc = [a] | None => acc = EmptyString \/ acc = " "%string end.

Lemma flush_pending acc atom : pending acc atom -> flush acc = option_list atom.
Proof. destruct atom as [a|]; simpl; [done|]. by intros [->| ->]. Qed.

Lemma flush_atom acc t : pending acc None -> clean t = true -> flush (acc +++ t) = [t].
Proof.
  intros Hacc (Hl & Hr & Hn)%clean_strip. unfold flush, strip.
  assert (lstrip (acc +++ t) = t) as -> by (by destruct Hacc as [->| ->]).
  rewrite Hr. by rewrite bool_decide_eq_false_2.
Qed.

(** Reserved tokens and clean atoms, no two atoms next to each other; [after]
    tells whether an atom came just before. *)
Fixpoint spaced (after_atom : bool) (ts : list string) : Prop :=
  match ts with
  | [] => True
  | t :: ts =>
      if decide (t ∈ reserved) then spaced false ts
      else after_atom = false /\ clean t = true /\ spaced true ts
  end.

Lemma spaced_app b ts t us :
  t ∈ reserved -> spaced b (ts ++ t :: us) <-> spaced b ts /\ spaced false us.
Proof.
  intros Ht. revert b. induction ts as [|u ts IH]; intros b; cbn [spaced app].
  - rewrite decide_True by done. tauto.
  - case_decide; rewrite IH; tauto.
Qed.

Lemma show_spaced l c : atoms_clean c = true -> spaced false (show l c).
Proof.
  assert (Hg : forall b ts, spaced false ts -> spaced false (group b ts)).
  { intros [] ts Hts; cbn [group spaced]; [|done]. rewrite decide_True by (unfold reserved; set_solver).
    apply spaced_app; [unfold reserved; set_solver|done]. }
  revert l. induction c as [t|c IH|a IHa b IHb|a IHa b IHb]; intros l Hc; cbn [atoms_clean show spaced] in *.
  - pose proof (clean_not_reserved _ Hc). by rewrite decide_False.
  - rewrite decide_True by (unfold reserved; set_solver). by apply IH.
  - apply andb_prop in Hc as [Ha Hb]. apply Hg, spaced_app; [unfold reserved; set_solver|auto].
  - apply andb_prop in Hc as [Ha Hb]. apply Hg, spaced_app; [unfold reserved; set_solver|auto].
Qed.

Lemma spell_cons t u ts : spell (t :: u :: ts) = t +++ String " " (spell (u :: ts)).
Proof. done. Qed.

Lemma clean_no_compound t prev : clean t = true -> starts_word prev = true -> compound_from prev t = false.
Proof.
  unfold clean. rewrite !andb_true_iff, !negb_true_iff. intros [_ Hc] Hp.
  unfold _has_compound_operators in Hc. destruct t as [|c t]; [done|]. simpl in *.
  apply orb_false_elim in Hc as [Hc Hr]. apply orb_false_elim in Hc as [Hq Hk]. rewrite Hq, Hr.
  unfold keyword_at in *. rewrite Hp. change (starts_word None) with true in Hk. cbv iota in Hk. by rewrite Hk.
Qed.

(** The tokenizer reads a spelled list back. *)
Lemma tokenize_spell ts prev acc atom :
  ts <> [] -> starts_word prev = true -> pending acc atom -> spaced (bool_decide (is_Some atom)) ts ->
  tokenize_from 0 prev acc (spell ts) = option_list atom ++ ts.
Proof.
  revert prev acc atom. induction ts as [|t [|u ts] IH]; intros prev acc atom Hne Hp Hacc Hsp; [done|..].
  - change (spell [t]) with t. rewrite <-(append_nil_r t) at 1. cbn [spaced] in Hsp. case_decide as Ht.
    + rewrite scan_reserved by (done || by left). by rewrite (flush_pending _ _ Hacc).
    + destruct Hsp as (Ha & Hc & _). destruct atom; [discriminate Ha|].
      rewrite scan_atom by (by left || by apply clean_no_compound). by rewrite flush_atom.
  - rewrite spell_cons. cbn [spaced] in Hsp. case_decide as Ht.
    + rewrite scan_reserved by (done || (right; by eexists)). rewrite (flush_pending _ _ Hacc).
      f_equal. f_equal. apply (IH _ _ None); [done|done|by right|done].
    + destruct Hsp as (Ha & Hc & Hrest). destruct atom; [discriminate Ha|].
      rewrite scan_atom by (by apply clean_no_compound || (right; by eexists)).
      assert (E : flush ((acc +++ t) +++ " ") = [t]).
      { destruct (clean_strip _ Hc) as (Hl & Hr & Hn). unfold flush, strip.
        assert (lstrip ((acc +++ t) +++ " ") = t +++ " ") as ->.
        { destruct Hacc as [->| ->]; simpl; by apply lstrip_app. }
        rewrite rstrip_space, Hr. by rewrite bool_decide_eq_false_2. }
      change ([] ++ t :: u :: ts) with (option_list (Some t) ++ u :: ts).
      apply (IH _ _ (Some t)); [done|done|exact E|exact Hrest].
Qed.

(** ** Evaluating a printed condition *)

Lemma spell_edges ts : ts <> [] -> spaced false ts \/ spaced true ts ->
  lstrip (spell ts) = spell ts /\ rstrip (spell ts) = spell ts /\ spell ts <> EmptyString.
Proof.
  assert (Ht : forall t b ts, spaced b (t :: ts) -> (lstrip t = t /\ rstrip t = t /\ t <> EmptyString) /\
    exists b', spaced b' ts).
  { intros t b ts0. cbn [spaced]. case_decide as Hr; [|intros (_ & Hc & Hs)].
    - intros Hs. split; [by apply reserved_strip|by eexists].
    - split; [by apply clean_strip|by eexists]. }
  intros Hne Hsp. assert (exists b, spaced b ts) as [b Hb] by (destruct Hsp; by eexists). clear Hsp.
  revert b Hb. induction ts as [|t [|u ts] IH]; intros b Hb; [done| |];
    destruct (Ht _ _ _ Hb) as [(Hl & Hr & Hn) [b' Hb']]; [done|].
  destruct (IH ltac:(done) b' Hb') as (IHl & IHr & IHn). rewrite spell_cons. split_and!.
  - by rewrite lstrip_app.
  - change (String " " (spell (u :: ts))) with (" " +++ spell (u :: ts)). rewrite <-append_assoc.
    by rewrite rstrip_app.
  - by destruct t.
Qed.

(** Text without an operator is at most one token. *)
Lemma no_compound_tokens e : _has_compound_operators e = false -> length (_tokenize e) <= 1.
Proof.
  intros Hc. unfold _tokenize. rewrite <-(append_nil_r e), scan_atom by (done || by left).
  unfold flush. case_bool_decide; simpl; lia.
Qed.

(** Text with an operator has a token. *)
Lemma compound_tokens e : _has_compound_operators e = true -> 0 < length (_tokenize e).
Proof.
  unfold _has_compound_operators, _tokenize. generalize (None : option ascii) EmptyString.
  induction e as [|c e IH]; intros prev atom; cbn [compound_from tokenize_from]; [done|].
  destruct (is_paren c); [rewrite length_app; simpl; lia|].
  destruct (keyword_at prev (String c e)); [rewrite length_app; simpl; lia|]. apply IH.
Qed.

Lemma keyword_spell t u ts : upper (spell (t :: u :: ts)) ∉ _KEYWORDS.
Proof.
  intros Hin. rewrite spell_cons in Hin. unfold _KEYWORDS in Hin.
  assert (Hk : forall t, upper (t +++ String " " (spell (u :: ts))) ∈ ["AND"; "ND"; "D"; "OR"; "R"; "NOT"; "OT"; "T"; ""]%string -> False).
  { clear. induction t as [|c t IH]; intros Hin.
    - cbn [String.append upper] in Hin. change (upper_char " ") with " "%char in Hin. set_solver.
    - cbn [String.append upper] in Hin. apply IH.
      repeat (apply elem_of_cons in Hin as [Hin|Hin]; [try discriminate Hin; injection Hin as _ ->; set_solver|]).
      by apply elem_of_nil in Hin. }
  apply (Hk t). set_solver.
Qed.

Lemma show_length l c : 1 <= length (show l c).
Proof.
  destruct (show l c) eqn:E; [|simpl; lia]. exfalso. revert E. destruct c; simpl; try done.
  - by destruct (bool_decide _), (show LAnd c1).
  - by destruct (negb _), (show LOr c1).
Qed.

Lemma show_compound l c : (exists t, c = Atom t) \/ exists t u ts, show l c = t :: u :: ts.
Proof.
  assert ((exists t, c = Atom t) \/ 2 <= length (show l c)) as [?|Hlen]; [|by left|].
  { destruct c as [t|c|a b|a b]; [left; by eexists|right..]; simpl; unfold group.
    - pose proof (show_length LNot c). lia.
    - pose proof (show_length LAnd a). pose proof (show_length LNot b).
      case_match; simpl; rewrite ?length_app; simpl; rewrite ?length_app; simpl; lia.
    - pose proof (show_length LOr a). pose proof (show_length LAnd b).
      case_match; simpl; rewrite ?length_app; simpl; rewrite ?length_app; simpl; lia. }
  right. destruct (show l c) as [|t [|u ts]]; simpl in Hlen; [lia..|]. by exists t, u, ts.
Qed.

Section Evaluation.
Context {obj : Type} (truthy : obj -> bool) (str : obj -> string).
#[local] Notation atom_value context := (fun t => _eval_atom truthy str t context).

(** The compound path on a list of tokens. *)
Lemma evaluate_inner_ok e (context : gmap string obj) v :
  _has_compound_operators e = true -> upper e ∉ _KEYWORDS ->
  0 < length (_tokenize e) <= _MAX_TOKEN_COUNT ->
  _evaluate_inner truthy str e context = Some (Ok v) <->
  exists c, derives LOr (_tokenize e) c /\ v = eval (atom_value context) c.
Proof.
  intros Hc Hk [Hlo Hhi]. rewrite <-parse_or_exact. unfold _evaluate_inner.
  rewrite Hc, bool_decide_eq_false_2 by done. cbn [negb orb].
  rewrite bool_decide_eq_false_2 by (intros E; rewrite E in Hlo; simpl in Hlo; lia).
  rewrite (proj2 (Nat.ltb_ge _ _) Hhi).
  destruct (parse_or_total (atom_value context) (_tokenize e)) as [[[w pos]|err] ->]; [|done].
  case_decide as Hp; [subst pos; naive_solver|]. split; [done|]. intros [= _ ->]. done.
Qed.

Lemma evaluate_inner_total e (context : gmap string obj) :
  is_Some (_evaluate_inner truthy str e context).
Proof.
  unfold _evaluate_inner. destruct (negb _ || _); [by eexists|]. case_bool_decide; [by eexists|].
  destruct (_MAX_TOKEN_COUNT <? _); [by eexists|].
  destruct (parse_or_total (atom_value context) (_tokenize e)) as [[[w pos]|err] ->]; [|by eexists].
  case_decide; by eexists.
Qed.

Lemma evaluate_condition_inner expression (context : gmap string obj) :
  strip expression <> EmptyString ->
  evaluate_condition truthy str expression context = _evaluate_inner truthy str (strip expression) context.
Proof. intros Hn. unfold evaluate_condition. by rewrite bool_decide_eq_false_2. Qed.

End Evaluation.

Section Claims.
Context {obj : Type} (truthy : obj -> bool) (str : obj -> string).
#[local] Notation atom_value context := (fun t => _eval_atom truthy str t context).

(** C36: [evaluate_condition] on every text, after trimming. A blank text is
    false. A text without operators, or one that is just a keyword, is an atom:
    a literal, a comparison or a look-up. Of any other, more than 256 tokens are
    false; otherwise it returns [v] exactly when its tokens are one phrase, with
    [NOT] over [AND] over [OR], whose value is [v] (so every reading of the
    tokens has one value), and raises exactly when they are none; the descent
    always ends. A parse error is thus an exception here, as the docstring of
    the function says, and not false, as the design document says. *)
Theorem evaluate_condition_exact (expression : string) (context : gmap string obj) :
  let expr := strip expression in
  let tokens := _tokenize expr in
  let evaluated := evaluate_condition truthy str expression context in
  if bool_decide (expr = EmptyString) then evaluated = Some (Ok false)
  else if negb (_has_compound_operators expr) || bool_decide (upper expr ∈ _KEYWORDS)
  then evaluated = Some (Ok (_eval_atom truthy str expr context))
  else if _MAX_TOKEN_COUNT <? length tokens then evaluated = Some (Ok false)
  else
    (exists r, evaluated = Some r) /\
    (forall v, evaluated = Some (Ok v) <-> exists c, derives LOr tokens c /\ v = eval (atom_value context) c) /\
    ((exists err, evaluated = Some (Err err)) <-> forall c, ~ derives LOr tokens c).
Proof.
  cbv zeta. case_bool_decide as Hn; [unfold evaluate_condition; by rewrite bool_decide_true|].
  rewrite evaluate_condition_inner by done. set (expr := strip expression) in *.
  destruct (negb (_has_compound_operators expr) || bool_decide (upper expr ∈ _KEYWORDS)) eqn:Hq;
    [unfold _evaluate_inner; by rewrite Hq|].
  pose proof Hq as [Hc%negb_false_iff Hk%bool_decide_eq_false]%orb_false_iff.
  pose proof (compound_tokens expr Hc) as Hsome. destruct (_MAX_TOKEN_COUNT <? length (_tokenize expr)) eqn:Hlen.
  { unfold _evaluate_inner. rewrite Hq, Hlen, bool_decide_false; [done|]. intros E. rewrite E in Hsome. simpl in Hsome. lia. }
  apply Nat.ltb_ge in Hlen.
  pose proof (fun w => evaluate_inner_ok truthy str expr context w Hc Hk (conj Hsome Hlen)) as Hok.
  destruct (evaluate_inner_total truthy str expr context) as [r E]. split; [by exists r|]. split; [done|].
  rewrite E in *. destruct r as [w|err].
  - split; [by intros [err [=]]|]. intros Hno. destruct (proj1 (Hok w) eq_refl) as (c & Hd & _). by destruct (Hno c).
  - split; [|by eexists]. intros _ c Hd. assert (Some (@Err ConditionError bool err) = Some (Ok (eval (atom_value context) c))) as [=].
    apply Hok. by exists c.
Qed.

(** C37: printing a condition and evaluating the text gives the value of the
    condition: with only the parentheses its shape needs, over atoms that are
    trimmed and contain no operator, up to 256 tokens. *)
Theorem print_evaluate_roundtrip (c : cond) (context : gmap string obj) :
  atoms_clean c = true -> length (show LOr c) <= _MAX_TOKEN_COUNT ->
  evaluate_condition truthy str (spell (show LOr c)) context = Some (Ok (eval (atom_value context) c)).
Proof.
  intros Hc Hlen. assert (Hne : show LOr c <> []) by (intros E; pose proof (show_length LOr c) as Hl; rewrite E in Hl; simpl in Hl; lia).
  pose proof (show_spaced LOr c Hc) as Hsp.
  destruct (spell_edges _ Hne (or_introl Hsp)) as (Hl & Hr & Hn).
  assert (Hs : strip (spell (show LOr c)) = spell (show LOr c)) by (unfold strip; by rewrite Hl).
  rewrite evaluate_condition_inner, Hs by (by rewrite Hs).
  assert (Htok : _tokenize (spell (show LOr c)) = show LOr c).
  { apply (tokenize_spell (show LOr c) None EmptyString None); [done|done|by left|done]. }
  destruct (show_compound LOr c) as [[t ->]|(t & u & ts & E)].
  - simpl in Hc. unfold clean in Hc. rewrite !andb_true_iff, negb_true_iff in Hc. destruct Hc as [_ Hc].
    change (spell (show LOr (Atom t))) with t. unfold _evaluate_inner. by rewrite Hc.
  - apply evaluate_inner_ok; rewrite ?Htok.
    + destruct (_has_compound_operators (spell (show LOr c))) eqn:Hcomp; [done|].
      pose proof (no_compound_tokens _ Hcomp) as Hone. rewrite Htok, E in Hone. simpl in Hone. lia.
    + rewrite E. apply keyword_spell.
    + split; [apply show_length|done].
    + exists c. split; [by apply show_derives|done].
Qed.
End Claims.

Lemma evaluate_condition_exact_witness :
  evaluate_condition (fun x => negb (bool_decide (x = EmptyString))) id "not flag OR env != prod" sample = Some (Ok true).
Proof.
  pose proof (evaluate_condition_exact (fun x => negb (bool_decide (x = EmptyString))) id
    "not flag OR env != prod" sample) as He. cbv zeta in He.
  assert (Hs : strip "not flag OR env != prod" = "not flag OR env != prod"%string) by (vm_compute; reflexivity).
  assert (Ht : _tokenize "not flag OR env != prod" = ["NOT"; "flag"; "OR"; "env != prod"]%string) by (vm_compute; reflexivity).
  rewrite Hs, Ht in He. apply (proj1 (proj2 He) true).
  exists (Or (Not (Atom "flag")) (Atom "env != prod")). split; [|reflexivity].
  change (derives LOr (["NOT"%string; "flag"%string] ++ "OR"%string :: ["env != prod"%string]) (Or (Not (Atom "flag")) (Atom "env != prod"))).
  assert (Ha : forall t, bool_decide (t ∉ reserved) = true -> derives LNot [t] (Atom t)).
  { intros t Ht'. apply D_atom. by apply bool_decide_eq_true in Ht'. }
  apply D_or; repeat (apply D_or_one || apply D_and_one); [apply D_not|]; by apply Ha.
Defined.

Lemma print_evaluate_roundtrip_witness :
  evaluate_condition (fun x => negb (bool_decide (x = EmptyString))) id "NOT (flag OR env == prod) AND region" sample =
    Some (Ok false).
Proof.
  exact (print_evaluate_roundtrip (fun x => negb (bool_decide (x = EmptyString))) id
    (And (Not (Or (Atom "flag") (Atom "env == prod"))) (Atom "region")) sample eq_refl ltac:(vm_compute; lia)).
Defined.
