(* ===== verification/WorkflowModel.v ===== *)
(** * WorkflowModel

    Workflow definitions: the enumerations of [engine/workflow/enums.py] and
    the models of [engine/workflow/definition.py] with their validators. *)

From stdpp Require Import gmap strings list sorting.
From Stdlib Require Import ZArith QArith Ascii Lia.
From S2P Require Import Prelude PlanUnits.
#[local] Open Scope py_scope.
#[local] Open Scope nat_scope.

Module WorkflowType.

Inductive WorkflowType :=
| SEQUENTIAL_PIPELINE | PARALLEL_EXECUTION | KANBAN | AGILE_KANBAN.

#[export] Instance workflow_type_eq_dec : EqDecision WorkflowType.
Proof. solve_decision. Defined.

Definition members : list WorkflowType :=
  [SEQUENTIAL_PIPELINE; PARALLEL_EXECUTION; KANBAN; AGILE_KANBAN].

Lemma workflow_type_members_all s : s ∈ members.
Proof. revert s. enum_elem. Qed.

#[export] Instance workflow_type_countable : Countable WorkflowType :=
  enum_countable members workflow_type_members_all.

Definition workflow_type_value (s : WorkflowType) : string :=
  match s with
  | SEQUENTIAL_PIPELINE => "sequential_pipeline"
  | PARALLEL_EXECUTION => "parallel_execution"
  | KANBAN => "kanban"
  | AGILE_KANBAN => "agile_kanban"
  end.

#[export] Instance workflow_type_value_inj : Inj (=) (=) workflow_type_value.
Proof. intros [] []; simpl; congruence. Qed.

End WorkflowType.
Export (hints) WorkflowType.

Module WorkflowNodeType.

Inductive WorkflowNodeType :=
| START | END | TASK | AGENT_ASSIGNMENT | CONDITIONAL | PARALLEL_SPLIT |
PARALLEL_JOIN | SUBWORKFLOW | VERIFICATION.

#[export] Instance node_type_eq_dec : EqDecision WorkflowNodeType.
Proof. solve_decision. Defined.

Definition members : list WorkflowNodeType :=
  [START; END; TASK; AGENT_ASSIGNMENT; CONDITIONAL; PARALLEL_SPLIT;
   PARALLEL_JOIN; SUBWORKFLOW; VERIFICATION].

Lemma node_type_members_all s : s ∈ members.
Proof. revert s. enum_elem. Qed.

#[export] Instance node_type_countable : Countable WorkflowNodeType :=
  enum_countable members node_type_members_all.

Definition node_type_value (s : WorkflowNodeType) : string :=
  match s with
  | START => "start"
  | END => "end"
  | TASK => "task"
  | AGENT_ASSIGNMENT => "agent_assignment"
  | CONDITIONAL => "conditional"
  | PARALLEL_SPLIT => "parallel_split"
  | PARALLEL_JOIN => "parallel_join"
  | SUBWORKFLOW => "subworkflow"
  | VERIFICATION => "verification"
  end.

#[export] Instance node_type_value_inj : Inj (=) (=) node_type_value.
Proof. intros [] []; simpl; congruence. Qed.

End WorkflowNodeType.
Export (hints) WorkflowNodeType.

Module WorkflowValueType.

Inductive WorkflowValueType :=
| STRING | INTEGER | FLOAT | BOOLEAN | DATETIME | JSON | TASK_REF | AGENT_REF.

#[export] Instance value_type_eq_dec : EqDecision WorkflowValueType.
Proof. solve_decision. Defined.

Definition members : list WorkflowValueType :=
  [STRING; INTEGER; FLOAT; BOOLEAN; DATETIME; JSON; TASK_REF; AGENT_REF].

Lemma value_type_members_all s : s ∈ members.
Proof. revert s. enum_elem. Qed.

#[export] Instance value_type_countable : Countable WorkflowValueType :=
  enum_countable members value_type_members_all.

Definition value_type_value (s : WorkflowValueType) : string :=
  match s with
  | STRING => "string"
  | INTEGER => "integer"
  | FLOAT => "float"
  | BOOLEAN => "boolean"
  | DATETIME => "datetime"
  | JSON => "json"
  | TASK_REF => "task_ref"
  | AGENT_REF => "agent_ref"
  end.

#[export] Instance value_type_value_inj : Inj (=) (=) value_type_value.
Proof. intros [] []; simpl; congruence. Qed.

End WorkflowValueType.
Export (hints) WorkflowValueType.

Module WorkflowEdgeType.

Inductive WorkflowEdgeType :=
| SEQUENTIAL | CONDITIONAL_TRUE | CONDITIONAL_FALSE | PARALLEL_BRANCH |
VERIFICATION_PASS | VERIFICATION_FAIL | VERIFICATION_REFER.

#[export] Instance edge_type_eq_dec : EqDecision WorkflowEdgeType.
Proof. solve_decision. Defined.

Definition members : list WorkflowEdgeType :=
  [SEQUENTIAL; CONDITIONAL_TRUE; CONDITIONAL_FALSE; PARALLEL_BRANCH;
   VERIFICATION_PASS; VERIFICATION_FAIL; VERIFICATION_REFER].

Lemma edge_type_members_all s : s ∈ members.
Proof. revert s. enum_elem. Qed.

#[export] Instance edge_type_countable : Countable WorkflowEdgeType :=
  enum_countable members edge_type_members_all.

Definition edge_type_value (s : WorkflowEdgeType) : string :=
  match s with
  | SEQUENTIAL => "sequential"
  | CONDITIONAL_TRUE => "conditional_true"
  | CONDITIONAL_FALSE => "conditional_false"
  | PARALLEL_BRANCH => "parallel_branch"
  | VERIFICATION_PASS => "verification_pass"
  | VERIFICATION_FAIL => "verification_fail"
  | VERIFICATION_REFER => "verification_refer"
  end.

#[export] Instance edge_type_value_inj : Inj (=) (=) edge_type_value.
Proof. intros [] []; simpl; congruence. Qed.

End WorkflowEdgeType.
Export (hints) WorkflowEdgeType.
Import WorkflowNodeType WorkflowEdgeType.

(** ** Python objects

    What the workflow code asks of an [object]: its class, its truth value and
    its [str]. Calls into the standard library that decide on a string or an
    object alone are fields too. *)

Inductive PyView (obj : Type) :=
| V_none
| V_bool (b : bool)
| V_int (z : Z)
| V_float (finite : bool)
| V_str (s : string)
| V_datetime
| V_mapping (m : gmap string obj)
| V_other.
Arguments V_none {obj}.
Arguments V_bool {obj}.
Arguments V_int {obj}.
Arguments V_float {obj}.
Arguments V_str {obj}.
Arguments V_datetime {obj}.
Arguments V_mapping {obj}.
Arguments V_other {obj}.

Class PyObject (obj : Type) := {
  view : obj -> PyView obj;
  truthy : obj -> bool;
  str : obj -> string;
  json_dumps_ok : obj -> bool;
  is_valid_iso_datetime : string -> bool;
  str_view : forall o s, view o = V_str s -> str o = s;
  truthy_str : forall o s, view o = V_str s -> truthy o = negb (bool_decide (s = EmptyString));
  truthy_mapping : forall o m, view o = V_mapping m -> truthy o = negb (bool_decide (m = ∅));
}.

Section Definition_.
Context {obj : Type} `{PyObject obj}.

Definition as_str (o : obj) : option string :=
  match view o with V_str s => Some s | _ => None end.

(** ** Models *)

Record WorkflowIODeclaration := {
  decl_name : string;
  decl_type : WorkflowValueType.WorkflowValueType;
  decl_required : bool;
  decl_default : option obj;
  decl_description : string;
}.

Record WorkflowNode := {
  node_id : string;
  node_type : WorkflowNodeType;
  node_label : string;
  position_x : Q;
  position_y : Q;
  config : gmap string obj;
}.

Record WorkflowEdge := {
  edge_id : string;
  source_node_id : string;
  target_node_id : string;
  edge_type : WorkflowEdgeType;
  edge_label : option string;
}.

Record WorkflowDefinition := {
  wf_id : string;
  wf_name : string;
  wf_description : string;
  workflow_type : WorkflowType.WorkflowType;
  wf_version : string;
  inputs : list WorkflowIODeclaration;
  outputs : list WorkflowIODeclaration;
  is_subworkflow : bool;
  nodes : list WorkflowNode;
  edges : list WorkflowEdge;
  wf_created_by : string;
  wf_created_at : Z;
  wf_updated_at : Z;
  wf_revision : Z;
}.

Inductive WorkflowModelError :=
| Default_not_json (name : string)
| Default_is_bool (name : string)
| Default_wrong_type (name : string)
| Default_not_iso8601 (name : string)
| Default_not_finite (name : string)
| Default_overflows (name : string)
| Default_on_required (name : string)
| Bad_version (version : string)
| Optional_output (name : string)
| Duplicate_inputs (names : list string)
| Duplicate_outputs (names : list string)
| Duplicate_nodes (ids : list string)
| Duplicate_edges (ids : list string)
| Self_edge (id : string)
| Unknown_source (id source : string)
| Unknown_target (id target : string)
| Start_count (n : nat)
| End_count (n : nat).

(** ** Declarations *)

(** [math.isfinite(z)] raises when the integer rounds beyond the largest
    double. *)
Definition float_overflows (z : Z) : bool := (2 ^ 1024 - 2 ^ 970 <=? Z.abs z)%Z.

Definition _check_default_type (name : string) (default : obj)
    (vtype : WorkflowValueType.WorkflowValueType) : result WorkflowModelError unit :=
  match vtype, view default with
  | WorkflowValueType.JSON, _ =>
      ensure json_dumps_ok default else Default_not_json name in Ok tt
  | WorkflowValueType.INTEGER, V_bool _ => Err (Default_is_bool name)
  | WorkflowValueType.FLOAT, V_bool _ => Err (Default_is_bool name)
  | WorkflowValueType.STRING, V_str _ => Ok tt
  | WorkflowValueType.TASK_REF, V_str _ => Ok tt
  | WorkflowValueType.AGENT_REF, V_str _ => Ok tt
  | WorkflowValueType.INTEGER, V_int _ => Ok tt
  | WorkflowValueType.BOOLEAN, V_bool _ => Ok tt
  | WorkflowValueType.FLOAT, V_int z =>
      ensure negb (float_overflows z) else Default_overflows name in Ok tt
  | WorkflowValueType.FLOAT, V_float finite =>
      ensure finite else Default_not_finite name in Ok tt
  | WorkflowValueType.DATETIME, V_datetime => Ok tt
  | WorkflowValueType.DATETIME, V_str s =>
      ensure is_valid_iso_datetime s else Default_not_iso8601 name in Ok tt
  | _, _ => Err (Default_wrong_type name)
  end.

(** [default is not None]. *)
Definition has_default (d : WorkflowIODeclaration) : option obj :=
  match decl_default d with
  | Some o => match view o with V_none => None | _ => Some o end
  | None => None
  end.

Definition _validate_default_compatible (d : WorkflowIODeclaration) : result WorkflowModelError unit :=
  match has_default d with
  | None => Ok tt
  | Some o =>
      ensure negb (decl_required d) else Default_on_required (decl_name d) in
      _check_default_type (decl_name d) o (decl_type d)
  end.

(** ** The definition's validators, in the order they run *)

Definition is_digit (c : Ascii.ascii) : bool :=
  let n := Ascii.nat_of_ascii c in (48 <=? n) && (n <=? 57).

(** The digits a text starts with, and the rest. *)
Fixpoint span_digits (s : string) : string * string :=
  match s with
  | String c r =>
      if is_digit c then let '(ds, rest) := span_digits r in (String c ds, rest)
      else (EmptyString, s)
  | EmptyString => (EmptyString, EmptyString)
  end.

(** [0|[1-9]\d*]. *)
Definition numeral (ds : string) : bool :=
  match ds with
  | EmptyString => false
  | String c EmptyString => true
  | String c _ => negb (Ascii.eqb c "0"%char)
  end.

(** [re.fullmatch] of three numerals with dots between them, on ASCII text. *)
Definition semver_ok (v : string) : bool :=
  let '(major, v) := span_digits v in
  match v with
  | String "." v =>
      let '(minor, v) := span_digits v in
      match v with
      | String "." v =>
          let '(patch, v) := span_digits v in
          numeral major && numeral minor && numeral patch && bool_decide (v = EmptyString)
      | _ => false
      end
  | _ => false
  end.

Definition _validate_semver (value : string) : result WorkflowModelError unit :=
  ensure semver_ok value else Bad_version value in Ok tt.

Definition _validate_outputs_required (d : WorkflowDefinition) : result WorkflowModelError unit :=
  match filter (fun o => decl_required o = false) (outputs d) with
  | [] => Ok tt
  | o :: _ => Err (Optional_output (decl_name o))
  end.

Definition _validate_unique_io_names (d : WorkflowDefinition) : result WorkflowModelError unit :=
  let input_names := decl_name <$> inputs d in
  let output_names := decl_name <$> outputs d in
  ensure no_dupes input_names else Duplicate_inputs (duplicates input_names) in
  ensure no_dupes output_names else Duplicate_outputs (duplicates output_names) in
  Ok tt.

Definition _validate_unique_ids (d : WorkflowDefinition) : result WorkflowModelError unit :=
  let node_ids := node_id <$> nodes d in
  let edge_ids := edge_id <$> edges d in
  ensure no_dupes node_ids else Duplicate_nodes (duplicates node_ids) in
  ensure no_dupes edge_ids else Duplicate_edges (duplicates edge_ids) in
  Ok tt.

Fixpoint check_edges (node_id_set : gset string) (es : list WorkflowEdge) : result WorkflowModelError unit :=
  match es with
  | [] => Ok tt
  | e :: es =>
      ensure bool_decide (source_node_id e <> target_node_id e) else Self_edge (edge_id e) in
      ensure bool_decide (source_node_id e ∈ node_id_set)
        else Unknown_source (edge_id e) (source_node_id e) in
      ensure bool_decide (target_node_id e ∈ node_id_set)
        else Unknown_target (edge_id e) (target_node_id e) in
      check_edges node_id_set es
  end.

Definition _validate_edge_references (d : WorkflowDefinition) : result WorkflowModelError unit :=
  check_edges (list_to_set (node_id <$> nodes d)) (edges d).

Definition nodes_of_type (t : WorkflowNodeType) (d : WorkflowDefinition) : list WorkflowNode :=
  filter (fun n => node_type n = t) (nodes d).

Definition _validate_terminal_nodes (d : WorkflowDefinition) : result WorkflowModelError unit :=
  let start_count := length (nodes_of_type START d) in
  let end_count := length (nodes_of_type END d) in
  ensure start_count =? 1 else Start_count start_count in
  ensure end_count =? 1 else End_count end_count in
  Ok tt.

Definition run_model_validators (d : WorkflowDefinition) : result WorkflowModelError unit :=
  let* _ := _validate_semver (wf_version d) in
  let* _ := _validate_outputs_required d in
  let* _ := _validate_unique_io_names d in
  let* _ := _validate_unique_ids d in
  let* _ := _validate_edge_references d in
  _validate_terminal_nodes d.

(** ** What the graph validators establish *)

(** The targets of a node's edges, in the order of the edges. *)
Definition targets (d : WorkflowDefinition) (i : string) : list string :=
  target_node_id <$> filter (fun e => source_node_id e = i) (edges d).

Record graph_valid (d : WorkflowDefinition) : Prop := {
  gv_nodes : NoDup (node_id <$> nodes d);
  gv_edges : NoDup (edge_id <$> edges d);
  gv_known : forall e, e ∈ edges d ->
    source_node_id e <> target_node_id e /\
    source_node_id e ∈ node_id <$> nodes d /\ target_node_id e ∈ node_id <$> nodes d;
  gv_start : exists n, nodes_of_type START d = [n];
  gv_end : exists n, nodes_of_type END d = [n];
}.

Lemma check_edges_ok X es :
  check_edges X es = Ok tt <->
  forall e, e ∈ es -> source_node_id e <> target_node_id e /\ source_node_id e ∈ X /\ target_node_id e ∈ X.
Proof.
  induction es as [|e es IH]; [split; [by intros _ ? ?%not_elem_of_nil|done]|]. simpl.
  rewrite !ensure_ok, IH, !bool_decide_eq_true. set_solver.
Qed.

Lemma one_of_type t d : (length (nodes_of_type t d) =? 1) = true <-> exists n, nodes_of_type t d = [n].
Proof.
  rewrite Nat.eqb_eq. split; [|by intros [n ->]].
  destruct (nodes_of_type t d) as [|n [|m l]]; simpl; [done|by exists n|done].
Qed.

(** The validators accept exactly the versions, contracts and graphs that are
    well formed. *)
Lemma run_model_validators_ok d :
  run_model_validators d = Ok tt <->
  semver_ok (wf_version d) = true /\ (forall o, o ∈ outputs d -> decl_required o = true) /\
  NoDup (decl_name <$> inputs d) /\ NoDup (decl_name <$> outputs d) /\ graph_valid d.
Proof.
  unfold run_model_validators, _validate_semver, _validate_outputs_required, _validate_unique_io_names,
    _validate_unique_ids, _validate_edge_references, _validate_terminal_nodes.
  rewrite !rbind_unit, !ensure_ok, !no_dupes_spec, check_edges_ok, !one_of_type.
  assert (Ho : (match filter (fun o => decl_required o = false) (outputs d) with
                | [] => Ok tt | o :: _ => Err (Optional_output (decl_name o)) end = Ok tt) <->
               forall o, o ∈ outputs d -> decl_required o = true).
  { trans (filter (fun o => decl_required o = false) (outputs d) = []).
    - by destruct (filter _ _).
    - rewrite filter_nil_iff. by setoid_rewrite not_false_iff_true. }
  rewrite Ho. setoid_rewrite elem_of_list_to_set. split.
  - intros ([? _] & ? & (? & ? & _) & (? & ? & _) & ? & ? & ? & _). by repeat (split; [done|]).
  - intros (? & ? & ? & ? & []). split_and!; done.
Qed.

End Definition_.
Arguments WorkflowIODeclaration : clear implicits.
Arguments WorkflowNode : clear implicits.
Arguments WorkflowDefinition : clear implicits.
Arguments WorkflowEdge : clear implicits.

(** ** Plain objects, for the examples *)
Module Plain.

Inductive pyobj :=
| Py_none
| Py_bool (b : bool)
| Py_int (z : Z)
| Py_str (s : string)
| Py_dict (items : list (string * pyobj)).

Definition plain_view (o : pyobj) : PyView pyobj :=
  match o with
  | Py_none => V_none
  | Py_bool b => V_bool b
  | Py_int z => V_int z
  | Py_str s => V_str s
  | Py_dict items => V_mapping (list_to_map items)
  end.

Definition plain_truthy (o : pyobj) : bool :=
  match o with
  | Py_none => false
  | Py_bool b => b
  | Py_int z => negb (z =? 0)%Z
  | Py_str s => negb (bool_decide (s = EmptyString))
  | Py_dict items => negb (length items =? 0)
  end.

(** [str] of what the examples print. *)
Definition plain_str (o : pyobj) : string :=
  match o with
  | Py_none => "None"
  | Py_bool b => if b then "True" else "False"
  | Py_str s => s
  | Py_int _ | Py_dict _ => "?"
  end.

Lemma plain_str_view o s : plain_view o = V_str s -> plain_str o = s.
Proof. by destruct o; intros [=]. Qed.

Lemma plain_truthy_str o s :
  plain_view o = V_str s -> plain_truthy o = negb (bool_decide (s = EmptyString)).
Proof. by destruct o; intros [= <-]. Qed.

Lemma plain_truthy_mapping o (m : gmap string pyobj) :
  plain_view o = V_mapping m -> plain_truthy o = negb (bool_decide (m = ∅)).
Proof.
  destruct o as [| | | |items]; intros [= <-]. simpl. destruct items as [|[k v] items]; [done|]. simpl.
  rewrite bool_decide_eq_false_2; [done|]. apply insert_non_empty.
Qed.

#[export] Instance plain_object : PyObject pyobj := {|
  view := plain_view;
  truthy := plain_truthy;
  str := plain_str;
  json_dumps_ok _ := true;
  is_valid_iso_datetime s := negb (is_blank s);
  str_view := plain_str_view;
  truthy_str := plain_truthy_str;
  truthy_mapping := plain_truthy_mapping;
|}.

End Plain.
Export (hints) Plain.
