(* ===== verification/WorkflowGraph.v ===== *)
(** * WorkflowGraph

    The graph routines of [engine/workflow/graph_utils.py] and
    [validate_reachability.py], and the validation of a workflow definition in
    [validate_edges.py], [validate_configs.py] and [validation.py]. *)

From stdpp Require Import gmap strings list sorting relations.
From Stdlib Require Import ZArith QArith Lia.
From S2P Require Import Prelude Graphs Dag WorkflowModel.
Import WorkflowNodeType WorkflowEdgeType.
#[local] Open Scope py_scope.
#[local] Open Scope nat_scope.

Notation Adjacency := (gmap string (list string)).

(** [adjacency.get(i, [])]. *)
Definition adjacent {A} (m : gmap string (list A)) (i : string) : list A := default [] (m !! i).

(** [m[k].append(x)] on a [defaultdict(list)]. *)
Definition append_to {A} (m : gmap string (list A)) (k : string) (x : A) : gmap string (list A) :=
  <[k := adjacent m k ++ [x]]> m.

(** Iterating a frozenset: some order of its members. *)
Class SetOrder (A : Type) `{Countable A} := {
  iter : gset A -> list A;
  iter_perm : forall X, iter X ≡ₚ elements X;
}.

(** ** Topological order: Kahn's algorithm on a first-in first-out queue *)
Section Kahn.
Implicit Types (adjacency : Adjacency) (deg : gmap string Z).

(** The keys of [dict.fromkeys(ids, 0)], in order. *)
Definition dict_keys (ids : list string) : list string :=
  foldl (fun ks k => if decide (k ∈ ks) then ks else ks ++ [k]) [] ids.

Definition in_degree (node_ids : list string) adjacency : gmap string Z :=
  foldl (fun deg target => alter (fun n => n + 1)%Z target deg)
    (list_to_map ((fun i => (i, 0%Z)) <$> node_ids)) (concat (map_to_list adjacency).*2).

(** The neighbours of a popped node lose an incoming edge; those left with none
    are queued. *)
Fixpoint release_neighbors (neighbors : list string) deg (queue : list string) : gmap string Z * list string :=
  match neighbors with
  | [] => (deg, queue)
  | neighbor :: neighbors =>
      match deg !! neighbor with
      | None => release_neighbors neighbors deg queue
      | Some n =>
          release_neighbors neighbors (<[neighbor := n - 1]> deg)%Z
            (if (n - 1 =? 0)%Z then queue ++ [neighbor] else queue)
      end
  end.

Fixpoint kahn_loop (fuel : nat) adjacency deg (queue res : list string) : option (list string) :=
  match fuel with
  | O => None
  | S fuel =>
      match queue with
      | [] => Some res
      | current :: queue =>
          let '(deg, queue) := release_neighbors (adjacent adjacency current) deg queue in
          kahn_loop fuel adjacency deg queue (res ++ [current])
      end
  end.

Inductive SortError := Contains_cycle.

Definition topological_sort (node_ids : list string) adjacency : result SortError (list string) :=
  let deg := in_degree node_ids adjacency in
  let queue := filter (fun i => deg !! i = Some 0%Z) (dict_keys node_ids) in
  let res := default [] (kahn_loop (S (length node_ids)) adjacency deg queue []) in
  ensure length res =? length node_ids else Contains_cycle in
  Ok res.

End Kahn.

(** [adjacency], [reverse_adj] and [outgoing]. *)
Definition build_adjacency_maps {obj} (definition : WorkflowDefinition obj)
    : Adjacency * Adjacency * gmap string (list (string * WorkflowEdgeType)) :=
  foldl (fun '(adjacency, reverse_adj, outgoing) edge =>
    (append_to adjacency (source_node_id edge) (target_node_id edge),
     append_to reverse_adj (target_node_id edge) (source_node_id edge),
     append_to outgoing (source_node_id edge) (target_node_id edge, edge_type edge)))
    (∅, ∅, ∅) (edges definition).

(** ** Worklists

    The breadth-first searches pop a node, pass over it when it was visited or
    is to be skipped, and else mark it, emit what it contributes and queue what
    it leads to. A node outside the graph raises, with its key. *)
Section Worklist.
Context {A : Type} (skip : string -> bool).
Variable visit : gset string -> string -> result string (list A * list string).

Fixpoint worklist (fuel : nat) (visited : gset string) (out : list A) (queue : list string)
    : option (result string (gset string * list A)) :=
  match fuel with
  | O => None
  | S fuel =>
      match queue with
      | [] => Some (Ok (visited, out))
      | current :: queue =>
          if bool_decide (current ∈ visited) || skip current then worklist fuel visited out queue else
          let visited := {[current]} ∪ visited in
          match visit visited current with
          | Err e => Some (Err e)
          | Ok (emitted, next) => worklist fuel visited (out ++ emitted) (queue ++ next)
          end
      end
  end.
End Worklist.

(** Every edge is queued at most once. *)
Definition worklist_fuel (adjacency : Adjacency) (queue : list string) : nat :=
  S (length queue + sum_list_with (fun kv => length kv.2) (map_to_list adjacency)).

(** Outside the fuel bound there is nothing; the bound is never met. *)
Definition search {A} (skip : string -> bool)
    (visit : gset string -> string -> result string (list A * list string))
    (adjacency : Adjacency) (queue : list string) : result string (gset string * list A) :=
  default (Err EmptyString) (worklist skip visit (worklist_fuel adjacency queue) ∅ [] queue).

(** A search that cannot raise, for the nodes it visits. *)
Definition visited_of {A} (r : result string (gset string * list A)) : gset string :=
  match r with Ok (visited, _) => visited | Err _ => ∅ end.

Definition reachable_from (start_id : string) (adjacency : Adjacency) : gset string :=
  visited_of (search (A:=unit) (fun _ => false)
    (fun visited current => Ok ([], filter (fun n => n ∉ visited) (adjacent adjacency current)))
    adjacency [start_id]).

(** ** Cycles: depth-first colouring *)

Inductive Color := white | gray | black.

#[export] Instance color_eq_dec : EqDecision Color.
Proof. solve_decision. Defined.

Fixpoint color_loop (fuel : nat) (adjacency : Adjacency) (color : gmap string Color)
    (stack : list (string * nat)) : option (bool * gmap string Color) :=
  match fuel with
  | O => None
  | S fuel =>
      match stack with
      | [] => Some (false, color)
      | (nid, idx) :: rest =>
          match adjacent adjacency nid !! idx with
          | Some neighbor =>
              let stack := (nid, S idx) :: rest in
              match color !! neighbor with
              | None => color_loop fuel adjacency color stack
              | Some gray => Some (true, color)
              | Some white => color_loop fuel adjacency (<[neighbor := gray]> color) ((neighbor, 0) :: stack)
              | Some black => color_loop fuel adjacency color stack
              end
          | None => color_loop fuel adjacency (<[nid := black]> color) rest
          end
      end
  end.

Fixpoint color_from (fuel : nat) (adjacency : Adjacency) (starts : list string)
    (color : gmap string Color) : option bool :=
  match starts with
  | [] => Some false
  | start :: starts =>
      if decide (color !! start = Some white) then
        match color_loop fuel adjacency (<[start := gray]> color) [(start, 0)] with
        | None => None
        | Some (true, _) => Some true
        | Some (false, color) => color_from fuel adjacency starts color
        end
      else color_from fuel adjacency starts color
  end.

(** Each node is pushed once and each of its edges is passed once. *)
Definition color_fuel (ids : list string) (adjacency : Adjacency) : nat :=
  S (sum_list_with (fun i => S (length (adjacent adjacency i))) ids).

Definition has_cycle `{!SetOrder string} (node_ids : gset string) (adjacency : Adjacency) : bool :=
  let ids := iter node_ids in
  default true (color_from (color_fuel ids adjacency) adjacency ids
    (list_to_map ((fun i => (i, white)) <$> ids))).

(** ** Validation *)

Definition _MIN_SPLIT_BRANCHES : nat := 2.

Definition _CONDITIONAL_EDGE_TYPES : gset WorkflowEdgeType :=
  list_to_set [CONDITIONAL_TRUE; CONDITIONAL_FALSE].
Definition _VERIFICATION_EDGE_TYPES : gset WorkflowEdgeType :=
  list_to_set [VERIFICATION_PASS; VERIFICATION_FAIL; VERIFICATION_REFER].

(** [validate_workflow] reports all but the codes of subworkflows. *)
Inductive ValidationErrorCode :=
| UNREACHABLE_NODE
| END_NOT_REACHABLE
| CONDITIONAL_MISSING_TRUE
| CONDITIONAL_MISSING_FALSE
| CONDITIONAL_EXTRA_OUTGOING
| SPLIT_TOO_FEW_BRANCHES
| TASK_MISSING_TITLE
| CYCLE_DETECTED
| SUBWORKFLOW_REF_MISSING
| SUBWORKFLOW_VERSION_UNPINNED
| SUBWORKFLOW_NOT_FOUND
| SUBWORKFLOW_INPUT_MISSING
| SUBWORKFLOW_INPUT_UNKNOWN
| SUBWORKFLOW_INPUT_TYPE_MISMATCH
| SUBWORKFLOW_OUTPUT_MISSING
| SUBWORKFLOW_OUTPUT_UNKNOWN
| SUBWORKFLOW_OUTPUT_TYPE_MISMATCH
| SUBWORKFLOW_CYCLE_DETECTED
| VERIFICATION_MISSING_PASS
| VERIFICATION_MISSING_FAIL
| VERIFICATION_MISSING_REFER
| VERIFICATION_DUPLICATE_EDGE
| VERIFICATION_EXTRA_OUTGOING
| VERIFICATION_EDGE_OUTSIDE
| VERIFICATION_MISSING_CONFIG.

(** An error without its rendered message and the edge id, which is never
    given. *)
Record WorkflowValidationError := {
  code : ValidationErrorCode;
  err_node_id : option string;
}.

#[export] Instance validation_code_eq_dec : EqDecision ValidationErrorCode.
Proof. solve_decision. Defined.
#[export] Instance validation_error_eq_dec : EqDecision WorkflowValidationError.
Proof. solve_decision. Defined.

Section Validation.
Context {obj : Type} `{PyObject obj} `{!SetOrder string} `{!SetOrder WorkflowEdgeType}.
Implicit Types (definition : WorkflowDefinition obj) (adjacency : Adjacency)
  (outgoing : gmap string (list WorkflowEdgeType)) (node : WorkflowNode obj).

(** An error of [node] where the condition holds. *)
Definition error_if (b : bool) (c : ValidationErrorCode) node : list WorkflowValidationError :=
  if b then [{| code := c; err_node_id := Some (node_id node) |}] else [].

(** The loop over the nodes of one type. *)
Definition for_nodes (t : WorkflowNodeType) (check : WorkflowNode obj -> list WorkflowValidationError)
    definition : list WorkflowValidationError :=
  flat_map (fun node => if decide (node_type node = t) then check node else []) (nodes definition).

(** [next(n for n in nodes if ...)]: a definition has both terminals. *)
Definition check_reachability definition adjacency : list WorkflowValidationError :=
  match head (nodes_of_type START definition), head (nodes_of_type END definition) with
  | Some start, Some end_ =>
      let reachable := reachable_from (node_id start) adjacency in
      flat_map (fun node => error_if
        (bool_decide (node_id node ∉ reachable) && negb (bool_decide (node_type node = END)))
        UNREACHABLE_NODE node) (nodes definition) ++
      error_if (bool_decide (node_id end_ ∉ reachable)) END_NOT_REACHABLE end_
  | _, _ => []
  end.

Definition check_conditional_edges definition outgoing : list WorkflowValidationError :=
  for_nodes CONDITIONAL (fun node =>
    let out_types := adjacent outgoing (node_id node) in
    error_if (negb (bool_decide (CONDITIONAL_TRUE ∈ out_types))) CONDITIONAL_MISSING_TRUE node ++
    error_if (negb (bool_decide (CONDITIONAL_FALSE ∈ out_types))) CONDITIONAL_MISSING_FALSE node ++
    error_if (negb (bool_decide (filter (fun t => t ∉ _CONDITIONAL_EDGE_TYPES) out_types = [])))
      CONDITIONAL_EXTRA_OUTGOING node) definition.

Definition check_parallel_splits definition outgoing : list WorkflowValidationError :=
  for_nodes PARALLEL_SPLIT (fun node =>
    error_if (count PARALLEL_BRANCH (adjacent outgoing (node_id node)) <? _MIN_SPLIT_BRANCHES)
      SPLIT_TOO_FEW_BRANCHES node) definition.

Definition check_verification_edges definition outgoing : list WorkflowValidationError :=
  for_nodes VERIFICATION (fun node =>
    let out_types := adjacent outgoing (node_id node) in
    error_if (negb (bool_decide (VERIFICATION_PASS ∈ out_types))) VERIFICATION_MISSING_PASS node ++
    error_if (negb (bool_decide (VERIFICATION_FAIL ∈ out_types))) VERIFICATION_MISSING_FAIL node ++
    error_if (negb (bool_decide (VERIFICATION_REFER ∈ out_types))) VERIFICATION_MISSING_REFER node ++
    flat_map (fun edge_type => error_if (1 <? count edge_type out_types) VERIFICATION_DUPLICATE_EDGE node)
      (iter _VERIFICATION_EDGE_TYPES) ++
    error_if (negb (bool_decide (filter (fun t => t ∉ _VERIFICATION_EDGE_TYPES) out_types = [])))
      VERIFICATION_EXTRA_OUTGOING node) definition.

Definition check_verification_edge_scope definition outgoing : list WorkflowValidationError :=
  flat_map (fun node =>
    if decide (node_type node = VERIFICATION) then [] else
    error_if (negb (bool_decide
      (filter (fun t => t ∈ _VERIFICATION_EDGE_TYPES) (adjacent outgoing (node_id node)) = [])))
      VERIFICATION_EDGE_OUTSIDE node) (nodes definition).

(** [not title or (isinstance(title, str) and not title.strip())]. *)
Definition title_missing (title : option obj) : bool :=
  match title with
  | None => true
  | Some o => negb (truthy o) || from_option is_blank false (as_str o)
  end.

Definition check_task_configs definition : list WorkflowValidationError :=
  for_nodes TASK (fun node => error_if (title_missing (config node !! "title")) TASK_MISSING_TITLE node)
    definition.

(** [not isinstance(value, str) or not value.strip()]. *)
Definition text_missing (value : option obj) : bool :=
  from_option is_blank true (value ≫= as_str).

Definition check_verification_configs definition : list WorkflowValidationError :=
  for_nodes VERIFICATION (fun node =>
    error_if (text_missing (config node !! "rubric_name")) VERIFICATION_MISSING_CONFIG node ++
    error_if (text_missing (config node !! "evaluator_agent_id")) VERIFICATION_MISSING_CONFIG node)
    definition.

(** The errors of the result, which is valid when there are none. *)
Definition validate_workflow definition : list WorkflowValidationError :=
  let adjacency := foldl (fun a e => append_to a (source_node_id e) (target_node_id e)) ∅
    (edges definition) in
  let outgoing_types := foldl (fun o e => append_to o (source_node_id e) (edge_type e)) ∅
    (edges definition) in
  check_reachability definition adjacency ++
  check_conditional_edges definition outgoing_types ++
  check_parallel_splits definition outgoing_types ++
  check_task_configs definition ++
  check_verification_edges definition outgoing_types ++
  check_verification_edge_scope definition outgoing_types ++
  check_verification_configs definition ++
  (if has_cycle (list_to_set (node_id <$> nodes definition)) adjacency
   then [{| code := CYCLE_DETECTED; err_node_id := None |}] else []).

Definition valid definition : bool := bool_decide (validate_workflow definition = []).

End Validation.

(** ** Adjacency maps *)

Lemma append_to_successors {A} (m : gmap string (list A)) k x i :
  adjacent (append_to m k x) i = adjacent m i ++ (if decide (i = k) then [x] else []).
Proof.
  unfold adjacent at 1 2, append_to. case_decide as E; [subst i|].
  - by rewrite lookup_insert_eq.
  - by rewrite lookup_insert_ne, app_nil_r.
Qed.

(** A map filled by appending, read back. *)
Lemma appended_successors {A B} (key : B -> string) (val : B -> A) (l : list B) m i :
  adjacent (foldl (fun m b => append_to m (key b) (val b)) m l) i =
  adjacent m i ++ (val <$> filter (fun b => key b = i) l).
Proof.
  revert m. induction l as [|b l IH]; intros m; simpl; [by rewrite app_nil_r|].
  rewrite IH, append_to_successors, filter_cons, <-app_assoc. repeat case_decide; by subst.
Qed.

Section Adjacency.
Context {obj : Type}.
Implicit Types (d : WorkflowDefinition obj).

Definition adjacency_of d : Adjacency := (build_adjacency_maps d).1.1.
Definition reverse_of d : Adjacency := (build_adjacency_maps d).1.2.
Definition outgoing_of d := (build_adjacency_maps d).2.

(** The sources of a node's incoming edges, in the order of the edges. *)
Definition sources d (i : string) : list string :=
  source_node_id <$> filter (fun e => target_node_id e = i) (edges d).

Lemma adjacency_maps_split d :
  build_adjacency_maps d =
  (foldl (fun m e => append_to m (source_node_id e) (target_node_id e)) ∅ (edges d),
   foldl (fun m e => append_to m (target_node_id e) (source_node_id e)) ∅ (edges d),
   foldl (fun m e => append_to m (source_node_id e) (target_node_id e, edge_type e)) ∅ (edges d)).
Proof.
  unfold build_adjacency_maps.
  enough (forall es a r o, foldl (fun '(a, r, o) e =>
    (append_to a (source_node_id e) (target_node_id e),
     append_to r (target_node_id e) (source_node_id e),
     append_to o (source_node_id e) (target_node_id e, edge_type e))) (a, r, o) es =
    (foldl (fun m e => append_to m (source_node_id e) (target_node_id e)) a es,
     foldl (fun m e => append_to m (target_node_id e) (source_node_id e)) r es,
     foldl (fun m e => append_to m (source_node_id e) (target_node_id e, edge_type e)) o es)) as Hall
    by apply Hall.
  induction es as [|e es IH]; intros; [done|apply IH].
Qed.

Lemma adjacency_targets d i : adjacent (adjacency_of d) i = targets d i.
Proof.
  unfold adjacency_of. rewrite adjacency_maps_split. simpl.
  by rewrite (appended_successors source_node_id target_node_id).
Qed.

Lemma reverse_sources d i : adjacent (reverse_of d) i = sources d i.
Proof.
  unfold reverse_of. rewrite adjacency_maps_split. simpl.
  by rewrite (appended_successors target_node_id source_node_id).
Qed.

Lemma outgoing_edges d i :
  adjacent (outgoing_of d) i =
  (fun e => (target_node_id e, edge_type e)) <$> filter (fun e => source_node_id e = i) (edges d).
Proof.
  unfold outgoing_of. rewrite adjacency_maps_split. simpl.
  by rewrite (appended_successors source_node_id (fun e => (target_node_id e, edge_type e))).
Qed.

Lemma targets_elem d i j : j ∈ targets d i <-> exists e, e ∈ edges d /\ source_node_id e = i /\ target_node_id e = j.
Proof. unfold targets. rewrite list_elem_of_fmap. setoid_rewrite list_elem_of_filter. naive_solver. Qed.

Lemma sources_elem d i j : j ∈ sources d i <-> i ∈ targets d j.
Proof.
  rewrite targets_elem. unfold sources. rewrite list_elem_of_fmap.
  setoid_rewrite list_elem_of_filter. naive_solver.
Qed.
End Adjacency.

(** ** Kahn's reduction *)

Lemma sum_zero {A} (f : A -> nat) (l : list A) : sum_list_with f l = 0 <-> forall a, a ∈ l -> f a = 0.
Proof.
  induction l as [|a l IH]; simpl; [split; [by intros _ ? ?%not_elem_of_nil|done]|].
  rewrite Nat.eq_add_0, IH. set_solver.
Qed.

Lemma unseen_other {K V} `{Countable K} (w : V -> nat) (l : list (K * V)) (seen : gset K) x :
  x ∉ l.*1 -> unseen w l ({[x]} ∪ seen) = unseen w l seen.
Proof.
  unfold unseen. induction l as [|[k u] l IH]; [done|].
  rewrite fmap_cons. intros [Hk Hx]%not_elem_of_cons. rewrite !filter_cons. simpl in *.
  destruct (decide (k ∈ seen)); [rewrite !decide_False by set_solver; by apply IH|].
  rewrite !decide_True by set_solver. simpl. by rewrite IH.
Qed.

(** Seeing a key spends exactly its weight. *)
Lemma unseen_spent {K V} `{Countable K} (w : V -> nat) (l : list (K * V)) (seen : gset K) x v :
  NoDup l.*1 -> (x, v) ∈ l -> x ∉ seen -> unseen w l ({[x]} ∪ seen) + w v = unseen w l seen.
Proof.
  induction l as [|[k u] l IH]; [by intros _ ?%not_elem_of_nil|].
  intros [Hk Hnd]%NoDup_cons Hin Hx. apply elem_of_cons in Hin as [[= <- <-]|Hin].
  - pose proof (unseen_other w l seen x Hk) as Hsame. unfold unseen in *. rewrite !filter_cons. simpl.
    rewrite decide_False, decide_True by set_solver. simpl. lia.
  - assert (k <> x) by (intros ->; apply Hk, list_elem_of_fmap; by exists (x, v)).
    specialize (IH Hnd Hin Hx). unfold unseen in *. rewrite !filter_cons. simpl.
    destruct (decide (k ∈ seen)).
    + rewrite !decide_False by set_solver. done.
    + rewrite !decide_True by set_solver. simpl. lia.
Qed.

Lemma dict_keys_NoDup ids : NoDup ids -> dict_keys ids = ids.
Proof.
  intros Hnd. unfold dict_keys.
  enough (forall ks, NoDup (ks ++ ids) ->
    foldl (fun ks k => if decide (k ∈ ks) then ks else ks ++ [k]) ks ids = ks ++ ids) as Hall by (by apply (Hall [])).
  clear Hnd. induction ids as [|i rest IH]; intros ks Hnd; simpl; [by rewrite app_nil_r|].
  rewrite decide_False.
  - rewrite (IH (ks ++ [i])), <-app_assoc; [done|]. by rewrite <-app_assoc.
  - apply NoDup_app in Hnd as (_ & Hd & _). intros Hi. apply (Hd i Hi). by left.
Qed.

Section KahnProof.
Context (ids : list string) (Hids : NoDup ids) (adj : Adjacency).
Implicit Types (deg : gmap string Z).
Notation succ := (adjacent adj).

(** The edges into [x] that leave nodes not yet popped. *)
Definition pending_edges (done : list string) (x : string) : nat :=
  unseen (count x) (map_to_list adj) (list_to_set done : gset string).

Lemma successors_entry y : succ y = [] \/ (y, succ y) ∈ map_to_list adj.
Proof.
  unfold adjacent. destruct (adj !! y) eqn:E; [|by left].
  right. by apply elem_of_map_to_list.
Qed.

Lemma entry_successors y v : (y, v) ∈ map_to_list adj -> succ y = v.
Proof. intros E%elem_of_map_to_list. unfold adjacent. by rewrite E. Qed.

Lemma pending_zero done x :
  pending_edges done x = 0 <-> forall y, x ∈ succ y -> y ∈ done.
Proof.
  unfold pending_edges, unseen. rewrite sum_zero. split.
  - intros Hz y Hy. destruct (successors_entry y) as [E|E]; [rewrite E in Hy; by apply not_elem_of_nil in Hy|].
    apply dec_stable. intros Hn. apply count_zero in Hy; [done|]. apply (Hz (y, succ y)).
    apply list_elem_of_filter. split; [by rewrite elem_of_list_to_set|done].
  - intros Hall [y v] [Hy Hin]%list_elem_of_filter. simpl in *. rewrite elem_of_list_to_set in Hy.
    apply count_zero. intros Hx. apply Hy, Hall. by rewrite (entry_successors y v).
Qed.

Lemma pending_snoc done x y :
  y ∉ done -> pending_edges (done ++ [y]) x + count x (succ y) = pending_edges done x.
Proof.
  intros Hy. unfold pending_edges. rewrite list_to_set_app_L. simpl.
  replace (list_to_set done ∪ ({[y]} ∪ ∅)) with ({[y]} ∪ list_to_set done : gset string) by set_solver.
  pose proof (NoDup_fst_map_to_list adj) as Hnd. unfold adjacent.
  destruct (adj !! y) as [v|] eqn:E.
  - apply unseen_spent; [done|by apply elem_of_map_to_list|by rewrite elem_of_list_to_set].
  - rewrite unseen_other; [apply Nat.add_0_r|]. intros ([? v] & -> & Hv)%list_elem_of_fmap.
    apply elem_of_map_to_list in Hv. simpl in *. congruence.
Qed.

Definition degrees_ok (done : list string) deg : Prop :=
  forall x, deg !! x = if decide (x ∈ ids) then Some (Z.of_nat (pending_edges done x)) else None.

Lemma in_degree_ok : degrees_ok [] (in_degree ids adj).
Proof.
  unfold degrees_ok, in_degree, pending_edges. intros x.
  enough (forall l deg, foldl (fun deg target => alter (fun n => n + 1)%Z target deg) deg (concat l.*2) !! x
     = (fun n => n + Z.of_nat (unseen (count x) l (∅ : gset string)))%Z <$> deg !! x) as Hall.
  { rewrite Hall, fromkeys_lookup. case_decide; [|done]. simpl. by rewrite Z.add_0_l. }
  induction l as [|[k v] l IH]; intros deg.
  { simpl. destruct (deg !! x); simpl; [by rewrite Z.add_0_r|done]. }
  rewrite fmap_cons. simpl. rewrite foldl_app, IH. unfold unseen. rewrite filter_cons, decide_True by set_solver.
  simpl. assert (Hv : forall deg, foldl (fun deg target => alter (fun n => n + 1)%Z target deg) deg v !! x
    = (fun n => n + Z.of_nat (count x v))%Z <$> deg !! x).
  { clear. induction v as [|t v IH]; intros deg; simpl.
    - destruct (deg !! x); simpl; [by rewrite Z.add_0_r|done].
    - rewrite IH, count_cons. case_decide as E; [subst t; rewrite lookup_alter_eq|rewrite lookup_alter_ne by done];
        destruct (deg !! x); simpl; try done; f_equal; lia. }
  rewrite Hv. destruct (deg !! x); simpl; [f_equal; lia|done].
Qed.

Lemma degrees_pop done deg deg' y :
  degrees_ok done deg -> y ∉ done ->
  (forall x, deg' !! x = (fun n => n - Z.of_nat (count x (succ y)))%Z <$> deg !! x) ->
  degrees_ok (done ++ [y]) deg'.
Proof.
  intros Hd Hy Hdeg x. rewrite Hdeg, Hd. case_decide; [|done]. simpl.
  pose proof (pending_snoc done x y Hy). f_equal. lia.
Qed.

(** Releasing the neighbours queues those whose last edges go. *)
Lemma release_ok ns deg queue :
  (forall x n, deg !! x = Some n -> (Z.of_nat (count x ns) <= n)%Z) ->
  exists deg' new, release_neighbors ns deg queue = (deg', queue ++ new) /\
    (forall x, deg' !! x = (fun n => n - Z.of_nat (count x ns))%Z <$> deg !! x) /\
    NoDup new /\
    (forall x, x ∈ new <-> deg !! x = Some (Z.of_nat (count x ns)) /\ x ∈ ns).
Proof.
  revert deg queue. induction ns as [|y ns IH]; intros deg queue Hle; simpl.
  { exists deg, []. split_and!; [by rewrite app_nil_r| |constructor|set_solver].
    intros x. destruct (deg !! x); simpl; [by rewrite Z.sub_0_r|done]. }
  destruct (deg !! y) as [k|] eqn:Hy.
  - assert (Hk : (Z.of_nat (count y ns) + 1 <= k)%Z).
    { specialize (Hle y k Hy). rewrite count_cons, decide_True in Hle by done. lia. }
    destruct (IH (<[y:=(k - 1)%Z]> deg) (if (k - 1 =? 0)%Z then queue ++ [y] else queue))
      as (deg' & new & Hr & Hdeg & Hnd & Hnew).
    { intros x n Hx. destruct (decide (y = x)) as [<-|Hne].
      - rewrite lookup_insert_eq in Hx. injection Hx as <-. lia.
      - rewrite lookup_insert_ne in Hx by done. specialize (Hle x n Hx).
        rewrite count_cons, decide_False in Hle by done. lia. }
    exists deg', (if (k - 1 =? 0)%Z then y :: new else new). rewrite Hr.
    assert (Hfresh : (k - 1 = 0)%Z -> y ∉ new).
    { intros E Hin. apply Hnew in Hin as [_ Hin%count_pos]. lia. }
    split_and!.
    + case_match; [by rewrite <-app_assoc|done].
    + intros x. rewrite Hdeg, count_cons. case_decide as E; [subst x|].
      * rewrite lookup_insert_eq, Hy. simpl. f_equal. lia.
      * by rewrite lookup_insert_ne.
    + case_match eqn:E; [|done]. apply Z.eqb_eq in E. constructor; auto.
    + intros x. trans ((k = 1 /\ x = y)%Z \/ x ∈ new).
      { case_match eqn:E; [apply Z.eqb_eq in E|apply Z.eqb_neq in E]; [rewrite elem_of_cons|]; intuition lia. }
      rewrite Hnew, count_cons, elem_of_cons. destruct (decide (y = x)) as [<-|Hne].
      * rewrite lookup_insert_eq, Hy. destruct (decide (y ∈ ns)) as [Hin|Hout].
        -- apply count_pos in Hin as Hp. split; [intros [[-> _]|[[= E] _]]; split; try (by left); f_equal; lia|].
           intros [[= E] _]. right. split; [f_equal; lia|done].
        -- apply count_zero in Hout as Hz. rewrite Hz. split; [intros [[-> _]|[_ ?]]; [split; [done|by left]|done]|].
           intros [[= E] _]. left. split; [lia|done].
      * rewrite lookup_insert_ne by done. simpl. intuition congruence.
  - destruct (IH deg queue) as (deg' & new & Hr & Hdeg & Hnd & Hnew).
    { intros x n Hx. specialize (Hle x n Hx). rewrite count_cons in Hle. case_decide; lia. }
    exists deg', new. split_and!; [done| |done|].
    + intros x. rewrite Hdeg, count_cons. case_decide as E; [subst x; by rewrite Hy|done].
    + intros x. rewrite Hnew, count_cons, elem_of_cons. case_decide as E; [subst x; rewrite Hy; naive_solver|].
      simpl. intuition congruence.
Qed.

(** The sources of the edges into a node, as a list. *)
Definition preds (x : string) : list string :=
  filter (fun y => x ∈ succ y) (map_to_list adj).*1.

Lemma preds_elem x y : y ∈ preds x <-> x ∈ succ y.
Proof.
  unfold preds. rewrite list_elem_of_filter. split; [by intros []|]. intros Hx. split; [done|].
  destruct (successors_entry y) as [E|E]; [rewrite E in Hx; by apply not_elem_of_nil in Hx|].
  apply list_elem_of_fmap. by exists (y, succ y).
Qed.

Record kahn_inv deg (queue res : list string) : Prop := {
  ki_deg : degrees_ok res deg;
  ki_nodup : NoDup (res ++ queue);
  ki_ready : forall x, x ∈ res ++ queue <-> x ∈ ids /\ forall y, x ∈ succ y -> y ∈ res;
  ki_ordered : ordered preds res;
}.

Lemma kahn_init :
  kahn_inv (in_degree ids adj) (filter (fun i => in_degree ids adj !! i = Some 0%Z) (dict_keys ids)) [].
Proof.
  rewrite dict_keys_NoDup by done. pose proof in_degree_ok as Hd.
  split; [done|by apply NoDup_filter| |apply ordered_nil].
  intros x. simpl. rewrite list_elem_of_filter, <-pending_zero, Hd.
  split; [intros [E Hx]; rewrite decide_True in E by done|intros [Hx E]; rewrite decide_True by done]; [|by rewrite E].
  split; [done|]. injection E. lia.
Qed.

Lemma kahn_step deg current queue res :
  kahn_inv deg (current :: queue) res ->
  exists deg' queue', release_neighbors (succ current) deg queue = (deg', queue') /\
    kahn_inv deg' queue' (res ++ [current]).
Proof.
  intros [Hd Hnd Hr Ho].
  assert (Hcur : current ∉ res /\ current ∉ queue /\ NoDup (res ++ queue)).
  { rewrite <-Permutation_middle in Hnd. apply NoDup_cons in Hnd as [Hn Hnd].
    rewrite not_elem_of_app in Hn. tauto. }
  destruct Hcur as (Hcr & Hcq & Hrq).
  destruct (release_ok (succ current) deg queue) as (deg' & new & -> & Hdeg & Hnew & Hin).
  { intros x n Hx. rewrite Hd in Hx. case_decide; [|done]. injection Hx as <-.
    pose proof (pending_snoc res x current Hcr). lia. }
  assert (Hd' : degrees_ok (res ++ [current]) deg') by (by apply (degrees_pop res deg)).
  assert (Hnew_ok : forall x, x ∈ new <->
    x ∈ ids /\ x ∈ succ current /\ forall y, x ∈ succ y -> y ∈ res ++ [current]).
  { intros x. rewrite Hin, Hd, <-pending_zero. pose proof (pending_snoc res x current Hcr).
    case_decide; [|naive_solver]. split.
    - intros [[= E] Hx]. split_and!; [done|done|lia].
    - intros (_ & Hx & E). split; [f_equal; lia|done]. }
  eexists deg', _. split; [done|]. split; [done| | |].
  - rewrite <-app_assoc. simpl. rewrite <-Permutation_middle. rewrite app_assoc. constructor.
    + rewrite !not_elem_of_app. split_and!; [done|done|]. intros [_ Hx]%Hin.
      assert (current ∈ res); [|done]. apply (Hr current); [set_solver|done].
    + apply NoDup_app. split_and!; [done| |done]. intros x Hx (_ & Hx2 & _)%Hnew_ok.
      apply Hcr. apply (Hr x); [set_solver|done].
  - intros x. rewrite !elem_of_app, list_elem_of_singleton.
    assert (Hrx : x ∈ res \/ x = current \/ x ∈ queue <-> x ∈ ids /\ forall y, x ∈ succ y -> y ∈ res).
    { rewrite <-Hr. set_solver. }
    split.
    + intros Hx. assert (Hc : x ∈ new \/ (x ∈ res \/ x = current \/ x ∈ queue)) by tauto.
      destruct Hc as [Hn|[Hi Hall]%Hrx]; [apply Hnew_ok in Hn as (? & ? & ?); auto|].
      split; [done|]. intros y Hy. apply elem_of_app. left. auto.
    + intros [Hx Hall]. destruct (decide (x ∈ succ current)) as [|Hns].
      { right. right. apply Hnew_ok. split_and!; [done..|]. intros y Hy. apply elem_of_app. set_solver. }
      assert (x ∈ res \/ x = current \/ x ∈ queue); [|tauto]. apply Hrx. split; [done|]. intros y Hy.
      specialize (Hall y Hy). rewrite elem_of_app, list_elem_of_singleton in Hall.
      destruct Hall as [?|E]; [done|]. by rewrite E in Hy.
  - apply ordered_snoc. split; [done|]. intros y Hy%preds_elem. apply (Hr current); [set_solver|done].
Qed.

Lemma kahn_loop_ok fuel deg queue res :
  kahn_inv deg queue res -> length ids < fuel + length res ->
  exists res' deg', kahn_loop fuel adj deg queue res = Some res' /\ kahn_inv deg' [] res'.
Proof.
  revert deg queue res. induction fuel as [|fuel IH]; intros deg queue res Hinv Hf.
  - assert (length res <= length ids); [|simpl in Hf; lia]. apply submseteq_length, NoDup_submseteq.
    + destruct Hinv as [_ Hnd _ _]. by apply NoDup_app in Hnd as [? _].
    + intros x Hx. apply (ki_ready _ _ _ Hinv). set_solver.
  - simpl. destruct queue as [|current queue]; [eauto|].
    destruct (kahn_step _ _ _ _ Hinv) as (deg' & queue' & -> & Hinv').
    apply IH; [done|]. rewrite length_app. simpl. lia.
Qed.

(** On a graph whose edges stay inside, the sort succeeds exactly without
    cycles, and then lists every node after its predecessors. *)
Hypothesis Hclosed : forall x y, y ∈ succ x -> x ∈ ids /\ y ∈ ids.

Lemma workflow_sort_cases :
  (exists l, topological_sort ids adj = Ok l /\ l ≡ₚ ids /\ ordered preds l /\ acyclic succ) \/
  (topological_sort ids adj = Err Contains_cycle /\ ~ acyclic succ).
Proof.
  unfold topological_sort. destruct (kahn_loop_ok (S (length ids)) _ _ _ kahn_init) as (res & deg & -> & Hinv).
  { simpl. lia. }
  destruct Hinv as [_ Hnd Hr Ho]. rewrite app_nil_r in Hnd. setoid_rewrite app_nil_r in Hr. simpl. destruct (Nat.eqb_spec (length res) (length ids)) as [E|E].
  - left. exists res.
    assert (Hp : res ≡ₚ ids).
    { apply submseteq_length_Permutation; [|lia]. apply NoDup_submseteq; [done|]. intros x Hx. by apply Hr. }
    split_and!; [done|done|done|]. apply (acyclic_flip preds); [|by setoid_rewrite preds_elem].
    apply (ordered_acyclic preds res Hnd Ho). intros a b Hb%preds_elem. rewrite Hp. by apply (Hclosed b).
  - right. split; [done|]. intros Hac. apply E, Permutation_length.
    apply NoDup_Permutation; [done|done|]. intros x. split; [by intros [? _]%Hr|]. intros Hx.
    apply dec_stable. intros Hn.
    apply (acyclic_no_trap preds (list_to_set (filter (fun i => i ∉ res) ids))).
    { by apply (acyclic_flip succ); [|intros; rewrite preds_elem]. }
    split.
    + intros Hemp. assert (x ∈ (∅ : gset string)); [|set_solver]. rewrite <-Hemp, elem_of_list_to_set.
      by apply list_elem_of_filter.
    + intros z. rewrite elem_of_list_to_set. intros [Hz Hzi]%list_elem_of_filter.
      destruct (decide (Exists (fun y => y ∉ res) (preds z))) as [(y & Hy & Hyr)%Exists_exists|Hno].
      * exists y. rewrite elem_of_list_to_set, list_elem_of_filter. split; [|done]. split; [done|].
        apply preds_elem in Hy. by apply (Hclosed y z).
      * exfalso. apply Hz, Hr. split; [done|]. intros y Hy. destruct (decide (y ∈ res)) as [|Hyr]; [done|].
        exfalso. apply Hno, Exists_exists. exists y. by rewrite preds_elem.
Qed.
End KahnProof.

(** ** Worklists mark what their roots reach *)
Section WorklistProof.
Context {A : Type} (skip : string -> bool)
  (visit : gset string -> string -> result string (list A * list string))
  (adj : Adjacency) (known : string -> Prop) (emit : string -> list A) (next : string -> list string).

(** A visit of a known node emits [emit] and queues what [next] lists, save
    nodes already visited. *)
Hypothesis Hvisit : forall visited x, known x -> exists ns,
  visit visited x = Ok (emit x, ns) /\ length ns <= length (adjacent adj x) /\
  (forall y, y ∈ ns -> y ∈ next x) /\ (forall y, y ∈ next x -> y ∈ ns \/ y ∈ visited).
Hypothesis Hknown : forall x y, known x -> y ∈ next x -> known y.

(** One step through nodes that are not skipped. *)
Definition leads : relation string := fun x y => y ∈ next x /\ skip y = false.

(** Reached from a root without passing through a skipped node. *)
Definition reached (roots : list string) (x : string) : Prop :=
  exists r, r ∈ roots /\ skip r = false /\ rtc leads r x.

Definition emitted (out : list A) (visited : gset string) : Prop :=
  exists order, out = flat_map emit order /\ NoDup order /\ forall x, x ∈ order <-> x ∈ visited.

Record worklist_inv (roots : list string) (visited : gset string) (out : list A) (queue : list string)
    : Prop := {
  wl_known : forall x, x ∈ queue -> known x;
  wl_visited : forall x, x ∈ visited -> reached roots x;
  wl_queue : forall x, x ∈ queue -> skip x = false -> reached roots x;
  wl_closed : forall x y, x ∈ visited -> leads x y -> y ∈ visited \/ y ∈ queue;
  wl_roots : forall r, r ∈ roots -> skip r = false -> r ∈ visited \/ r ∈ queue;
  wl_out : emitted out visited;
}.

Lemma worklist_pop roots visited out x queue :
  worklist_inv roots visited out (x :: queue) ->
  x ∈ visited \/ skip x = true -> worklist_inv roots visited out queue.
Proof.
  intros [Hk Hv Hq Hc Hr Ho] Hx. split; [set_solver|done|set_solver| | |done].
  - intros a b Ha [Hb Hs]. destruct (Hc a b Ha (conj Hb Hs)) as [|[->|]%elem_of_cons]; [by left| |by right].
    destruct Hx; [by left|congruence].
  - intros r Hin Hs. destruct (Hr r Hin Hs) as [|[->|]%elem_of_cons]; [by left| |by right].
    destruct Hx; [by left|congruence].
Qed.

Lemma worklist_visit roots visited out x queue ns :
  worklist_inv roots visited out (x :: queue) -> x ∉ visited -> skip x = false ->
  (forall y, y ∈ ns -> y ∈ next x) ->
  (forall y, y ∈ next x -> y ∈ ns \/ y ∈ {[x]} ∪ visited) ->
  worklist_inv roots ({[x]} ∪ visited) (out ++ emit x) (queue ++ ns).
Proof.
  intros [Hk Hv Hq Hc Hr Ho] Hx Hs Hns Hall.
  assert (Hrx : reached roots x) by (apply Hq; [left|done]).
  split.
  - intros y [Hy|Hy]%elem_of_app; [apply Hk; by right|]. apply (Hknown x); [apply Hk; by left|auto].
  - intros y [->%elem_of_singleton|Hy]%elem_of_union; auto.
  - intros y [Hy|Hy]%elem_of_app Hsy; [apply Hq; [by right|done]|].
    destruct Hrx as (r & ? & ? & Hp). exists r. split_and!; [done|done|]. eapply rtc_r; [done|]. split; auto.
  - intros a b [->%elem_of_singleton|Ha]%elem_of_union Hl.
    + destruct (Hall b (proj1 Hl)); [right; set_solver|by left].
    + destruct (Hc a b Ha Hl) as [|[->|]%elem_of_cons]; set_solver.
  - intros r Hin Hsr. destruct (Hr r Hin Hsr) as [|[->|]%elem_of_cons]; set_solver.
  - destruct Ho as (order & -> & Hnd & Hin). exists (order ++ [x]). split_and!.
    + rewrite flat_map_app. simpl. by rewrite app_nil_r.
    + apply NoDup_app. split_and!; [done| |apply NoDup_singleton].
      intros y Hy ->%list_elem_of_singleton. by apply Hx, Hin.
    + intros y. rewrite elem_of_app, list_elem_of_singleton, Hin. set_solver.
Qed.

Lemma worklist_ok fuel roots visited out queue :
  worklist_inv roots visited out queue ->
  length queue + unseen length (map_to_list adj) visited < fuel ->
  exists visited' out', worklist skip visit fuel visited out queue = Some (Ok (visited', out')) /\
    (forall x, x ∈ visited' <-> reached roots x) /\ emitted out' visited'.
Proof.
  revert visited out queue. induction fuel as [|fuel IH]; intros visited out queue Hinv Hf; [lia|].
  destruct queue as [|x queue]; simpl.
  { exists visited, out. destruct Hinv as [_ Hv _ Hc Hr Ho]. split_and!; [done| |done].
    intros x. split; [apply Hv|]. intros (r & Hin & Hs & Hp).
    assert (Hrv : r ∈ visited) by (by destruct (Hr r Hin Hs) as [|?%not_elem_of_nil]).
    clear -Hc Hp Hrv. induction Hp as [|a b c Hab _ IH]; [done|]. apply IH.
    by destruct (Hc a b Hrv Hab) as [|?%not_elem_of_nil]. }
  destruct (bool_decide (x ∈ visited) || skip x) eqn:Hb.
  - apply IH; [|simpl in Hf; lia]. eapply worklist_pop; [done|].
    apply orb_true_iff in Hb as [Hb%bool_decide_eq_true|]; auto.
  - apply orb_false_iff in Hb as [Hx%bool_decide_eq_false Hs].
    destruct (Hvisit ({[x]} ∪ visited) x) as (ns & -> & Hlen & Hns & Hall); [apply (wl_known _ _ _ _ Hinv); by left|].
    apply IH; [by apply worklist_visit|]. rewrite length_app. simpl in Hf.
    enough (unseen length (map_to_list adj) ({[x]} ∪ visited) + length (adjacent adj x)
      <= unseen length (map_to_list adj) visited) by lia.
    destruct (successors_entry adj x) as [E|E].
    + rewrite E. simpl. rewrite Nat.add_0_r. apply unseen_mono.
    + by apply (unseen_expand length).
Qed.

Lemma search_ok roots :
  (forall r, r ∈ roots -> known r) ->
  exists visited out, search skip visit adj roots = Ok (visited, out) /\
    (forall x, x ∈ visited <-> reached roots x) /\ emitted out visited.
Proof.
  intros Hroots. unfold search.
  destruct (worklist_ok (worklist_fuel adj roots) roots ∅ [] roots) as (v & out & -> & Hv & Ho).
  - split; [done|set_solver| |set_solver|by right|exists []; split_and!; [done|constructor|set_solver]].
    intros x Hx Hs. by exists x.
  - unfold worklist_fuel. pose proof (unseen_le length (map_to_list adj) (∅ : gset string)). lia.
  - by exists v, out.
Qed.
End WorklistProof.

(** [reachable_from] is reachability. *)
Lemma reachable_from_ok start (adjacency : Adjacency) x :
  x ∈ reachable_from start adjacency <-> rtc (edge (adjacent adjacency)) start x.
Proof.
  unfold reachable_from.
  destruct (search_ok (A:=unit) (fun _ => false) (fun visited current => Ok ([], filter (fun n => n ∉ visited)
    (adjacent adjacency current))) adjacency (fun _ => True) (fun _ => []) (adjacent adjacency))
    with (roots := [start]) as (v & out & -> & Hv & _); [|done|done|].
  - intros visited y _. eexists. split; [done|]. split_and!; [apply length_filter| |].
    + by intros z [_ Hz]%list_elem_of_filter.
    + intros z Hz. rewrite list_elem_of_filter. destruct (decide (z ∈ visited)); [by right|by left].
  - simpl. rewrite Hv. unfold reached. split.
    + intros (r & ->%list_elem_of_singleton & _ & Hp). revert Hp. apply rtc_subrel. by intros a b [].
    + intros Hp. exists start. split_and!; [by left|done|]. revert Hp. apply rtc_subrel. by intros a b.
Qed.

(** ** The colouring finds every cycle *)
Lemma list_to_set_middle (l1 l2 : list string) x :
  list_to_set (l1 ++ x :: l2) =@{gset string} {[x]} ∪ list_to_set (l1 ++ l2).
Proof. rewrite !list_to_set_app_L. simpl. set_solver. Qed.

Lemma sum_diag {A} (w : A -> nat) (l : list A) :
  sum_list_with (fun kv => w kv.2) ((fun n => (n, n)) <$> l) = sum_list_with w l.
Proof. induction l as [|x l IH]; [done|]. rewrite fmap_cons. simpl. by rewrite IH. Qed.

Section ColorProof.
Context (ids : list string) (Hids : NoDup ids) (adj : Adjacency).
Hypothesis Hclosed : forall x y, y ∈ adjacent adj x -> y ∈ ids.
Notation succ := (adjacent adj).

(** Grey nodes are on the stack, black ones are done. *)
Definition color_of (done : list string) (stack : list (string * nat)) (x : string) : Color :=
  if decide (x ∈ done) then black else if decide (x ∈ stack.*1) then gray else white.

Record color_inv (color : gmap string Color) (stack : list (string * nat)) (done : list string) : Prop := {
  ci_color : forall x, color !! x = if decide (x ∈ ids) then Some (color_of done stack x) else None;
  ci_nodup : NoDup (done ++ stack.*1);
  ci_ids : forall x, x ∈ done ++ stack.*1 -> x ∈ ids;
  ci_ordered : ordered succ done;
  ci_frames : frames_ok succ done None stack;
}.

Definition color_cost (stack : list (string * nat)) (done : list string) : nat :=
  sum_list_with (fun f => S (length (succ f.1)) - f.2) stack +
  unseen (fun n => S (length (succ n))) ((fun n => (n, n)) <$> ids) (list_to_set (done ++ stack.*1)).

(** A white neighbour is pushed. *)
Lemma color_push color n i rest done d :
  color_inv color ((n, i) :: rest) done -> succ n !! i = Some d -> color !! d = Some white ->
  color_inv (<[d := gray]> color) ((d, 0) :: (n, S i) :: rest) done /\
  color_cost ((d, 0) :: (n, S i) :: rest) done < color_cost ((n, i) :: rest) done.
Proof.
  intros [Hc Hnd Hi Ho Hf] Hd Hw. pose proof (lookup_lt_Some _ _ _ Hd) as Hlt.
  assert (Hdn : d ∈ succ n) by by eapply list_elem_of_lookup_2.
  assert (Hdi : d ∈ ids) by by eapply Hclosed.
  assert (Hfresh : d ∉ done /\ d ∉ n :: rest.*1).
  { rewrite Hc, decide_True in Hw by done. unfold color_of in Hw. repeat case_decide; done. }
  destruct Hfresh as [Hdd Hds]. destruct Hf as (Hil & Ht & _ & Hr). split; [split|].
  - intros x. unfold color_of. simpl. destruct (decide (d = x)) as [<-|Hne].
    + rewrite lookup_insert_eq, decide_True, decide_False, decide_True by set_solver. done.
    + rewrite lookup_insert_ne, Hc by done. unfold color_of. simpl. case_decide; [|done]. do 2 f_equal.
      case_decide; [done|]. apply decide_ext. rewrite (elem_of_cons _ x d). clear -Hne. naive_solver.
  - simpl in *. rewrite <-Permutation_middle. constructor; [|done]. rewrite not_elem_of_app. done.
  - intros x Hx. apply elem_of_app in Hx as [Hx|[->|Hx]%elem_of_cons]; [|done|]; apply Hi; set_solver.
  - done.
  - simpl. split_and!; [lia|set_solver|done|lia| |naive_solver|done].
    intros x. erewrite take_S_r by done. rewrite elem_of_app, list_elem_of_singleton.
    intros [Hx| ->]; [left|by right]. by destruct (Ht x Hx).
  - unfold color_cost. rewrite !fmap_cons. cbn [sum_list_with fst snd].
    opose proof* (unseen_expand (fun n => S (length (succ n))) ((fun n => (n, n)) <$> ids)
      (list_to_set (done ++ n :: rest.*1)) d d) as Hex.
    { apply list_elem_of_fmap. by exists d. }
    { rewrite elem_of_list_to_set. set_solver. }
    rewrite list_to_set_middle. simpl in Hex. lia.
Qed.

(** A black neighbour is passed. *)
Lemma color_pass color n i rest done d :
  color_inv color ((n, i) :: rest) done -> succ n !! i = Some d -> color !! d = Some black ->
  color_inv color ((n, S i) :: rest) done /\
  color_cost ((n, S i) :: rest) done < color_cost ((n, i) :: rest) done.
Proof.
  intros [Hc Hnd Hi Ho Hf] Hd Hb. pose proof (lookup_lt_Some _ _ _ Hd) as Hlt.
  assert (Hdd : d ∈ done).
  { rewrite Hc in Hb. unfold color_of in Hb. repeat case_decide; done. }
  destruct Hf as (Hil & Ht & _ & Hr). split; [split; try done|].
  - simpl. split_and!; [lia| |done|done].
    intros x. erewrite take_S_r by done. rewrite elem_of_app, list_elem_of_singleton.
    intros [Hx| ->]; [by apply Ht|by left].
  - unfold color_cost. simpl. lia.
Qed.

(** A node with no neighbour left turns black. *)
Lemma color_pop color n i rest done :
  color_inv color ((n, i) :: rest) done -> succ n !! i = None ->
  color_inv (<[n := black]> color) rest (done ++ [n]) /\
  color_cost rest (done ++ [n]) < color_cost ((n, i) :: rest) done.
Proof.
  intros [Hc Hnd Hi Ho Hf] Hd%lookup_ge_None. destruct Hf as (Hil & Ht & _ & Hr).
  rewrite fmap_cons in *. cbn [fst] in *. split; [split|].
  - intros x. unfold color_of. destruct (decide (n = x)) as [<-|Hne].
    + rewrite lookup_insert_eq, decide_True, decide_True by set_solver. done.
    + rewrite lookup_insert_ne, Hc by done. unfold color_of. simpl. case_decide; [|done]. do 2 f_equal.
      assert (x ∈ done <-> x ∈ done ++ [n]) as Hx
        by (rewrite elem_of_app, list_elem_of_singleton; clear -Hne; naive_solver).
      rewrite (decide_ext _ _ _ _ Hx). case_decide; [done|]. apply decide_ext.
      rewrite elem_of_cons. clear -Hne. naive_solver.
  - by rewrite <-app_assoc.
  - intros x. rewrite <-app_assoc. apply Hi.
  - apply ordered_snoc. split; [done|]. intros y Hy. rewrite take_ge in Ht by lia. by destruct (Ht y Hy).
  - by apply (frames_ok_done succ done n (Some n)); [|left].
  - unfold color_cost. rewrite fmap_cons, <-app_assoc. cbn [sum_list_with fst snd app]. lia.
Qed.

Lemma color_loop_ok fuel color stack done :
  color_inv color stack done -> color_cost stack done < fuel ->
  (exists color' done', color_loop fuel adj color stack = Some (false, color') /\
    color_inv color' [] done' /\ forall x, x ∈ done ++ stack.*1 -> x ∈ done') \/
  (exists color', color_loop fuel adj color stack = Some (true, color') /\ ~ acyclic succ).
Proof.
  revert color stack done. induction fuel as [|fuel IH]; intros color stack done Hinv Hf; [lia|].
  assert (Hgo : forall color1 stack1 done1, color_inv color1 stack1 done1 /\
    color_cost stack1 done1 < color_cost stack done ->
    (forall x, x ∈ done ++ stack.*1 -> x ∈ done1 ++ stack1.*1) ->
    (exists color' done', color_loop fuel adj color1 stack1 = Some (false, color') /\
      color_inv color' [] done' /\ forall x, x ∈ done ++ stack.*1 -> x ∈ done') \/
    (exists color', color_loop fuel adj color1 stack1 = Some (true, color') /\ ~ acyclic succ)).
  { intros c1 s1 d1 [Hi1 Hc1] Hsub. destruct (IH c1 s1 d1 Hi1) as [(c2 & d2 & ? & ? & ?)|?]; [lia| |by right].
    left. exists c2, d2. auto. }
  destruct stack as [|[n i] rest]; simpl.
  { left. exists color, done. split_and!; [done|done|]. intros x. by rewrite app_nil_r. }
  destruct (succ n !! i) as [d|] eqn:Hd.
  - assert (Hdn : d ∈ succ n) by by eapply list_elem_of_lookup_2.
    destruct (color !! d) as [[]|] eqn:Hcd.
    + eapply Hgo; [by eapply color_push|]. intros x. simpl. set_solver.
    + right. exists color. split; [done|]. apply (cycle_edge_not_acyclic succ n d); [done|].
      apply (frames_path succ done None ((n, i) :: rest) n i rest d eq_refl (ci_frames _ _ _ Hinv)).
      rewrite (ci_color _ _ _ Hinv) in Hcd. unfold color_of in Hcd. by repeat case_decide.
    + eapply Hgo; [by eapply color_pass|done].
    + rewrite (ci_color _ _ _ Hinv), decide_True in Hcd by by eapply Hclosed. done.
  - eapply Hgo; [by eapply color_pop|]. intros x. simpl. set_solver.
Qed.

Lemma color_from_ok fuel starts color done :
  color_inv color [] done -> (forall x, x ∈ starts -> x ∈ ids) ->
  sum_list_with (fun i => S (length (succ i))) ids < fuel ->
  (color_from fuel adj starts color = Some false /\
   exists done', NoDup done' /\ ordered succ done' /\ forall x, x ∈ starts \/ x ∈ done -> x ∈ done') \/
  (color_from fuel adj starts color = Some true /\ ~ acyclic succ).
Proof.
  revert color done. induction starts as [|start starts IH]; intros color done Hinv Hs Hf; simpl.
  { left. split; [done|]. exists done. destruct Hinv as [_ Hnd _ Ho _]. simpl in Hnd. rewrite app_nil_r in Hnd.
    split_and!; [done|done|]. intros x [?%not_elem_of_nil|]; done. }
  assert (Hstart : start ∈ ids) by (apply Hs; left).
  assert (Hfresh : color !! start = Some white <-> start ∉ done).
  { rewrite (ci_color _ _ _ Hinv), decide_True by done. unfold color_of. cbn [fmap list_fmap].
    destruct (decide (start ∈ done)); [by split|]. destruct (decide (start ∈ [])) as [Hn|]; [|by split].
    by apply not_elem_of_nil in Hn. }
  case_decide as Hw; rewrite Hfresh in Hw.
  - assert (Hinv1 : color_inv (<[start := gray]> color) [(start, 0)] done).
    { destruct Hinv as [Hc Hnd Hi Ho _]. split; [| | |done|].
      - intros x. unfold color_of. simpl. destruct (decide (start = x)) as [<-|Hne].
        + rewrite lookup_insert_eq, decide_True, decide_False, decide_True by set_solver. done.
        + rewrite lookup_insert_ne, Hc by done. unfold color_of. simpl. case_decide; [|done]. do 2 f_equal.
          case_decide; [done|]. rewrite !decide_False by set_solver. done.
      - simpl in *. rewrite app_nil_r in Hnd. apply NoDup_app. split_and!; [done|set_solver|apply NoDup_singleton].
      - simpl in *. intros x. rewrite app_nil_r in Hi. set_solver.
      - simpl. split_and!; [lia|set_solver|done|done]. }
    destruct (color_loop_ok fuel _ _ _ Hinv1) as [(c1 & d1 & -> & Hinv2 & Hsub)|(c1 & -> & ?)]; [| |by right].
    { unfold color_cost. simpl.
      opose proof* (unseen_expand (fun n => S (length (succ n))) ((fun n => (n, n)) <$> ids)
        (list_to_set done) start start) as Hex.
      { apply list_elem_of_fmap. by exists start. }
      { by rewrite elem_of_list_to_set. }
      rewrite list_to_set_middle, app_nil_r.
      pose proof (unseen_le (fun n => S (length (succ n))) ((fun n => (n, n)) <$> ids) (list_to_set done)) as Hle.
      rewrite sum_diag in Hle. simpl in *. lia. }
    destruct (IH c1 d1 Hinv2) as [(-> & d2 & ? & ? & Hd2)|?]; [set_solver|done| |by right].
    left. split; [done|]. exists d2. split_and!; [done|done|]. simpl in Hsub. set_solver.
  - destruct (IH color done Hinv) as [(-> & d2 & ? & ? & Hd2)|?]; [set_solver|done| |by right].
    left. split; [done|]. exists d2. split_and!; [done|done|].
    assert (start ∈ done) by (destruct (decide (start ∈ done)); done). set_solver.
Qed.

Hypothesis Hsources : forall x y, y ∈ adjacent adj x -> x ∈ ids.

Lemma color_ids_ok :
  default true (color_from (color_fuel ids adj) adj ids (list_to_map ((fun i => (i, white)) <$> ids))) = true <->
  ~ acyclic succ.
Proof.
  destruct (color_from_ok (color_fuel ids adj) ids (list_to_map ((fun i => (i, white)) <$> ids)) [])
    as [(-> & done & Hnd & Ho & Hin)|[-> Hc]].
  - split; [|constructor|set_solver|apply ordered_nil|done]. intros x. by rewrite fromkeys_lookup.
  - done.
  - unfold color_fuel. lia.
  - simpl. split; [done|]. intros Hn. destruct Hn. apply (ordered_acyclic succ done Hnd Ho).
    intros x y Hy. apply Hin. left. by eapply Hsources.
  - done.
Qed.
End ColorProof.

Lemma has_cycle_ok `{!SetOrder string} (node_ids : gset string) (adjacency : Adjacency) :
  (forall x y, y ∈ adjacent adjacency x -> x ∈ node_ids /\ y ∈ node_ids) ->
  has_cycle node_ids adjacency = true <-> ~ acyclic (adjacent adjacency).
Proof.
  intros Hclosed. unfold has_cycle.
  assert (Hi : forall x, x ∈ iter node_ids <-> x ∈ node_ids).
  { intros x. by rewrite iter_perm, elem_of_elements. }
  apply color_ids_ok.
  - rewrite iter_perm. apply NoDup_elements.
  - intros x y Hy. by apply Hi, (Hclosed x y).
  - intros x y Hy. by apply Hi, (Hclosed x y).
Qed.

(** ** Validation reports exactly what is wrong *)
Section Correctness.
Context {obj : Type} `{PyObject obj} `{!SetOrder string} `{!SetOrder WorkflowEdgeType}.
Implicit Types (d : WorkflowDefinition obj) (n : WorkflowNode obj).

(** The types of a node's outgoing edges. *)
Definition out_types d (i : string) : list WorkflowEdgeType :=
  edge_type <$> filter (fun e => source_node_id e = i) (edges d).

(** The START node does not reach the node. *)
Definition unreached d n : Prop :=
  exists s, s ∈ nodes d /\ node_type s = START /\ ~ rtc (edge (targets d)) (node_id s) (node_id n).

(** What each code of a node's error says of the node. *)
Definition node_offends d (c : ValidationErrorCode) n : Prop :=
  let out := out_types d (node_id n) in
  match c with
  | UNREACHABLE_NODE => node_type n <> END /\ unreached d n
  | END_NOT_REACHABLE => node_type n = END /\ unreached d n
  | CONDITIONAL_MISSING_TRUE => node_type n = CONDITIONAL /\ CONDITIONAL_TRUE ∉ out
  | CONDITIONAL_MISSING_FALSE => node_type n = CONDITIONAL /\ CONDITIONAL_FALSE ∉ out
  | CONDITIONAL_EXTRA_OUTGOING =>
      node_type n = CONDITIONAL /\ exists t, t ∈ out /\ t <> CONDITIONAL_TRUE /\ t <> CONDITIONAL_FALSE
  | SPLIT_TOO_FEW_BRANCHES => node_type n = PARALLEL_SPLIT /\ count PARALLEL_BRANCH out < 2
  | TASK_MISSING_TITLE =>
      node_type n = TASK /\
      forall o, config n !! "title"%string = Some o -> truthy o = true ->
        exists s, as_str o = Some s /\ strip s = EmptyString
  | CYCLE_DETECTED
  | SUBWORKFLOW_REF_MISSING | SUBWORKFLOW_VERSION_UNPINNED | SUBWORKFLOW_NOT_FOUND
  | SUBWORKFLOW_INPUT_MISSING | SUBWORKFLOW_INPUT_UNKNOWN | SUBWORKFLOW_INPUT_TYPE_MISMATCH
  | SUBWORKFLOW_OUTPUT_MISSING | SUBWORKFLOW_OUTPUT_UNKNOWN | SUBWORKFLOW_OUTPUT_TYPE_MISMATCH
  | SUBWORKFLOW_CYCLE_DETECTED => False
  | VERIFICATION_MISSING_PASS => node_type n = VERIFICATION /\ VERIFICATION_PASS ∉ out
  | VERIFICATION_MISSING_FAIL => node_type n = VERIFICATION /\ VERIFICATION_FAIL ∉ out
  | VERIFICATION_MISSING_REFER => node_type n = VERIFICATION /\ VERIFICATION_REFER ∉ out
  | VERIFICATION_DUPLICATE_EDGE =>
      node_type n = VERIFICATION /\
      exists t, t ∈ [VERIFICATION_PASS; VERIFICATION_FAIL; VERIFICATION_REFER] /\ 1 < count t out
  | VERIFICATION_EXTRA_OUTGOING =>
      node_type n = VERIFICATION /\
      exists t, t ∈ out /\ t ∉ [VERIFICATION_PASS; VERIFICATION_FAIL; VERIFICATION_REFER]
  | VERIFICATION_EDGE_OUTSIDE =>
      node_type n <> VERIFICATION /\
      exists t, t ∈ out /\ t ∈ [VERIFICATION_PASS; VERIFICATION_FAIL; VERIFICATION_REFER]
  | VERIFICATION_MISSING_CONFIG =>
      node_type n = VERIFICATION /\
      exists k, k ∈ ["rubric_name"; "evaluator_agent_id"]%string /\
        forall o s, config n !! k = Some o -> as_str o = Some s -> strip s = EmptyString
  end.

Definition offends d (e : WorkflowValidationError) : Prop :=
  match err_node_id e with
  | Some i => exists n, n ∈ nodes d /\ node_id n = i /\ node_offends d (code e) n
  | None => code e = CYCLE_DETECTED /\ ~ acyclic (targets d)
  end.

Lemma error_if_elem b c n e :
  e ∈ error_if b c n <-> b = true /\ e = {| code := c; err_node_id := Some (node_id n) |}.
Proof. unfold error_if. destruct b; rewrite ?list_elem_of_singleton; set_solver. Qed.

Lemma for_nodes_elem t check d e :
  e ∈ for_nodes t check d <-> exists n, n ∈ nodes d /\ node_type n = t /\ e ∈ check n.
Proof.
  unfold for_nodes. rewrite elem_of_flat_map. split; intros (n & Hn & He).
  - case_decide; [eauto|by apply not_elem_of_nil in He].
  - destruct He as [Ht He]. exists n. by rewrite decide_True.
Qed.

Lemma not_nil_elem {A} (P : A -> Prop) `{!forall x, Decision (P x)} (l : list A) :
  negb (bool_decide (filter P l = [])) = true <-> exists x, x ∈ l /\ P x.
Proof.
  rewrite nonblocking. split.
  - intros Hn. destruct (filter P l) as [|x xs] eqn:E; [done|]. exists x.
    assert (Hx : x ∈ filter P l) by (rewrite E; by left). by apply list_elem_of_filter in Hx as [? ?].
  - intros (x & Hx & HP) E. apply (proj1 (filter_nil_iff P l) E x Hx HP).
Qed.

Lemma title_missing_spec t :
  title_missing t = true <->
  forall o, t = Some o -> truthy o = true -> exists s, as_str o = Some s /\ strip s = EmptyString.
Proof.
  unfold title_missing, is_blank. destruct t as [o|]; [|naive_solver].
  rewrite orb_true_iff, negb_true_iff. destruct (truthy o) eqn:Ht.
  - destruct (as_str o) as [s|] eqn:Es; simpl.
    + rewrite bool_decide_eq_true. split.
      * intros [?|E] ? [= <-] _; [done|eauto].
      * intros Hall. right. destruct (Hall o eq_refl Ht) as (s' & E' & ?). congruence.
    + split; [by intros []|]. intros Hall. destruct (Hall o eq_refl Ht) as (? & ? & _). congruence.
  - split; [|auto]. intros _ ? [= <-] ?. congruence.
Qed.

Lemma text_missing_spec t :
  text_missing t = true <->
  forall o s, t = Some o -> as_str o = Some s -> strip s = EmptyString.
Proof.
  unfold text_missing, is_blank. destruct t as [o|]; [|naive_solver].
  simpl. destruct (as_str o) as [s|] eqn:Es; simpl.
  - rewrite bool_decide_eq_true. split; [intros Hs ? ? [= <-] ?; congruence|eauto].
  - split; [|done]. intros _ ? ? [= <-] ?. congruence.
Qed.

Lemma conditional_types t : t ∈ _CONDITIONAL_EDGE_TYPES <-> t = CONDITIONAL_TRUE \/ t = CONDITIONAL_FALSE.
Proof. unfold _CONDITIONAL_EDGE_TYPES. rewrite elem_of_list_to_set. set_solver. Qed.

Lemma verification_types t :
  t ∈ _VERIFICATION_EDGE_TYPES <-> t ∈ [VERIFICATION_PASS; VERIFICATION_FAIL; VERIFICATION_REFER].
Proof. unfold _VERIFICATION_EDGE_TYPES. by rewrite elem_of_list_to_set. Qed.

Lemma iter_elem {A} `{Countable A} `{!SetOrder A} (X : gset A) x : x ∈ iter X <-> x ∈ X.
Proof. by rewrite iter_perm, elem_of_elements. Qed.

(** A check reports node errors with its own codes, and all of them. *)
Definition reports d (codes : ValidationErrorCode -> bool) (errs : list WorkflowValidationError) : Prop :=
  forall e, e ∈ errs <->
    exists n, n ∈ nodes d /\ err_node_id e = Some (node_id n) /\ codes (code e) = true /\
      node_offends d (code e) n.

Lemma reports_for_nodes d t check codes :
  (forall n, n ∈ nodes d -> node_type n = t -> forall e, e ∈ check n <->
    err_node_id e = Some (node_id n) /\ codes (code e) = true /\ node_offends d (code e) n) ->
  (forall c n, codes c = true -> node_offends d c n -> node_type n = t) ->
  reports d codes (for_nodes t check d).
Proof.
  intros Hcheck Hty e. rewrite for_nodes_elem. split.
  - intros (n & Hn & Ht & He). exists n. split; [done|]. by apply Hcheck.
  - intros (n & Hn & Hi & Hc & Ho). exists n. split_and!; [done|by eapply Hty|]. apply Hcheck; eauto.
Qed.

Context d (outgoing : gmap string (list WorkflowEdgeType))
  (Hout : forall i, adjacent outgoing i = out_types d i).

Definition conditional_code (c : ValidationErrorCode) : bool :=
  match c with
  | CONDITIONAL_MISSING_TRUE | CONDITIONAL_MISSING_FALSE | CONDITIONAL_EXTRA_OUTGOING => true
  | _ => false
  end.

Lemma conditional_reports : reports d conditional_code (check_conditional_edges d outgoing).
Proof.
  apply reports_for_nodes; [|intros [] n; naive_solver].
  intros n _ Ht e. rewrite !elem_of_app, !error_if_elem, Hout, not_nil_elem, !nonblocking.
  setoid_rewrite conditional_types. destruct e as [c i].
  split; [intros [|[]]; destruct_and!; simplify_eq/=; naive_solver|].
  intros (Hi & Hc & Ho). simpl in *. subst i. destruct c; simpl in *; try done; naive_solver.
Qed.

Lemma split_reports :
  reports d (fun c => bool_decide (c = SPLIT_TOO_FEW_BRANCHES)) (check_parallel_splits d outgoing).
Proof.
  apply reports_for_nodes; [|intros c n ->%bool_decide_eq_true; naive_solver].
  intros n _ Ht [c i]. rewrite error_if_elem, Hout, bool_decide_eq_true, Nat.ltb_lt. simpl.
  split; [intros [? [= -> ->]]; done|]. intros (-> & -> & ?). naive_solver.
Qed.

Lemma task_reports :
  reports d (fun c => bool_decide (c = TASK_MISSING_TITLE)) (check_task_configs d).
Proof.
  apply reports_for_nodes; [|intros c n ->%bool_decide_eq_true; naive_solver].
  intros n _ Ht [c i]. rewrite error_if_elem, bool_decide_eq_true, title_missing_spec. simpl.
  split; [intros [? [= -> ->]]; done|]. intros (-> & -> & ?). naive_solver.
Qed.

Definition verification_code (c : ValidationErrorCode) : bool :=
  match c with
  | VERIFICATION_MISSING_PASS | VERIFICATION_MISSING_FAIL | VERIFICATION_MISSING_REFER
  | VERIFICATION_DUPLICATE_EDGE | VERIFICATION_EXTRA_OUTGOING => true
  | _ => false
  end.

Lemma verification_reports : reports d verification_code (check_verification_edges d outgoing).
Proof.
  apply reports_for_nodes; [|intros [] n; naive_solver].
  intros n _ Ht e. rewrite !elem_of_app, !error_if_elem, Hout, not_nil_elem, !nonblocking, elem_of_flat_map.
  setoid_rewrite error_if_elem. setoid_rewrite iter_elem. setoid_rewrite verification_types.
  setoid_rewrite Nat.ltb_lt. destruct e as [c i].
  split.
  - intros [|[|[|[(t & ? & ?)|]]]]; destruct_and!; simplify_eq/=; naive_solver.
  - intros (Hi & Hc & Ho). simpl in *. subst i. destruct c; simpl in *; try done; naive_solver.
Qed.

Lemma scope_reports :
  reports d (fun c => bool_decide (c = VERIFICATION_EDGE_OUTSIDE)) (check_verification_edge_scope d outgoing).
Proof.
  intros [c i]. unfold check_verification_edge_scope. rewrite elem_of_flat_map. split.
  - intros (n & Hn & He). case_decide; [by apply not_elem_of_nil in He|].
    rewrite error_if_elem, Hout, not_nil_elem in He. setoid_rewrite verification_types in He.
    destruct He as [? [= -> ->]]. by exists n.
  - intros (n & Hn & Hi & Hc%bool_decide_eq_true & Ho). simpl in *. subst. destruct Ho as [Ht Ho]. exists n.
    split; [done|]. rewrite decide_False, error_if_elem, Hout, not_nil_elem by done.
    setoid_rewrite verification_types. done.
Qed.

Lemma config_reports :
  reports d (fun c => bool_decide (c = VERIFICATION_MISSING_CONFIG)) (check_verification_configs d).
Proof.
  apply reports_for_nodes; [|intros c n ->%bool_decide_eq_true; naive_solver].
  intros n _ Ht [c i]. rewrite elem_of_app, !error_if_elem, bool_decide_eq_true, !text_missing_spec. simpl.
  split.
  - intros [[Hm [= -> ->]]|[Hm [= -> ->]]]; do 3 (split; [done|]).
    + exists "rubric_name"%string. split; [by left|done].
    + exists "evaluator_agent_id"%string. split; [by right; left|done].
  - intros (-> & -> & _ & k & Hk & ?).
    apply elem_of_cons in Hk as [->|Hk]; [by left|]. apply list_elem_of_singleton in Hk as ->. by right.
Qed.

Context (adjacency : Adjacency) (Hadj : forall i, adjacent adjacency i = targets d i) (Hd : graph_valid d).

Definition reach_code (c : ValidationErrorCode) : bool :=
  match c with UNREACHABLE_NODE | END_NOT_REACHABLE => true | _ => false end.

(** The one node of a type. *)
Lemma the_node t n : nodes_of_type t d = [n] ->
  n ∈ nodes d /\ node_type n = t /\ forall m, m ∈ nodes d -> node_type m = t -> m = n.
Proof.
  intros E. assert (Hn : forall m, m ∈ [n] <-> node_type m = t /\ m ∈ nodes d).
  { intros m. rewrite <-E. unfold nodes_of_type. by rewrite list_elem_of_filter. }
  destruct (proj1 (Hn n)) as [? ?]; [by left|]. split_and!; [done|done|].
  intros m ? ?. by apply list_elem_of_singleton, Hn.
Qed.

Lemma reach_reports : reports d reach_code (check_reachability d adjacency).
Proof.
  destruct (gv_start d Hd) as [s Hs], (gv_end d Hd) as [z Hz].
  intros [c i]. unfold check_reachability. rewrite Hs, Hz. simpl.
  destruct (the_node START s Hs) as (Hsn & Hst & Hsu), (the_node END z Hz) as (Hzn & Hzt & Hzu).
  assert (Hun : forall n, node_id n ∉ reachable_from (node_id s) adjacency <-> unreached d n).
  { intros n. rewrite reachable_from_ok. unfold unreached.
    assert (Hr : rtc (edge (adjacent adjacency)) (node_id s) (node_id n) <->
                 rtc (edge (targets d)) (node_id s) (node_id n)).
    { split; apply rtc_subrel; intros a b; unfold edge; by rewrite Hadj. }
    rewrite Hr. split; [eauto|]. intros (s' & Hin & Ht & Hno). by rewrite (Hsu s' Hin Ht) in Hno. }
  rewrite elem_of_app, elem_of_flat_map, error_if_elem, bool_decide_eq_true, Hun. setoid_rewrite error_if_elem.
  setoid_rewrite andb_true_iff. setoid_rewrite nonblocking. setoid_rewrite bool_decide_eq_true. split.
  - intros [(n & Hn & [Hu Hne] & [= -> ->])|[Hu [= -> ->]]]; [exists n; apply Hun in Hu|exists z]; done.
  - intros (n & Hn & -> & Hc & Ho). destruct c; try done; simpl in Ho; destruct Ho as [Ht Hu].
    + left. exists n. rewrite Hun. done.
    + right. rewrite <-(Hzu n Hn Ht). done.
Qed.

Lemma targets_known x y : y ∈ targets d x -> x ∈ node_id <$> nodes d /\ y ∈ node_id <$> nodes d.
Proof. intros (e & He & <- & <-)%targets_elem. by apply (gv_known d Hd). Qed.

Lemma cycle_reported : has_cycle (list_to_set (node_id <$> nodes d)) adjacency = true <-> ~ acyclic (targets d).
Proof.
  rewrite has_cycle_ok.
  - assert (acyclic (adjacent adjacency) <-> acyclic (targets d)) as ->; [|done].
    split; apply acyclic_sub; intros x y; by rewrite Hadj.
  - intros x y. rewrite Hadj, !elem_of_list_to_set. apply targets_known.
Qed.
End Correctness.

Section Theorems.
Context {obj : Type} `{PyObject obj} `{!SetOrder string} `{!SetOrder WorkflowEdgeType}.
Implicit Types (d : WorkflowDefinition obj).

Lemma reports_elem d codes errs : reports d codes errs -> forall e, e ∈ errs <->
  exists n, n ∈ nodes d /\ err_node_id e = Some (node_id n) /\ codes (code e) = true /\
    node_offends d (code e) n.
Proof. done. Qed.

Lemma position_before (l : list string) (preds : string -> list string) x y :
  NoDup l -> ordered preds l -> y ∈ l -> x ∈ preds y -> index_of x l < index_of y l.
Proof. intros. by apply (ordered_index preds). Qed.

(** The order of a definition's nodes, or a cycle. *)
Lemma definition_order d :
  graph_valid d ->
  (exists l, topological_sort (node_id <$> nodes d) (adjacency_of d) = Ok l /\
     l ≡ₚ node_id <$> nodes d /\
     (forall e, e ∈ edges d -> index_of (source_node_id e) l < index_of (target_node_id e) l) /\
     acyclic (targets d)) \/
  (topological_sort (node_id <$> nodes d) (adjacency_of d) = Err Contains_cycle /\ ~ acyclic (targets d)).
Proof.
  intros Hd.
  assert (Hac : acyclic (adjacent (adjacency_of d)) <-> acyclic (targets d)).
  { split; apply acyclic_sub; intros x y; by rewrite adjacency_targets. }
  destruct (workflow_sort_cases (node_id <$> nodes d) (gv_nodes d Hd) (adjacency_of d))
    as [(l & Hl & Hp & Ho & Ha)|[Hl Ha]].
  { intros x y. rewrite adjacency_targets. by apply targets_known. }
  - left. exists l. rewrite <-Hac. split_and!; [done|done| |done].
    intros e He. eapply position_before; [|done| |].
    + rewrite Hp. apply Hd.
    + rewrite Hp. by apply (gv_known d Hd).
    + rewrite preds_elem, adjacency_targets, targets_elem. by exists e.
  - right. by rewrite <-Hac.
Qed.

(** The walk order of a definition exists exactly when its graph has no
    cycle, is then a permutation of its nodes that puts the source of every
    edge before its target, and the colouring search of the validation finds a
    cycle in exactly the definitions that cannot be ordered. *)
Theorem workflow_order_exact d :
  graph_valid d ->
  let ids := node_id <$> nodes d in
  ((exists l, topological_sort ids (adjacency_of d) = Ok l) <-> acyclic (targets d)) /\
  (forall l, topological_sort ids (adjacency_of d) = Ok l ->
    l ≡ₚ ids /\
    forall e, e ∈ edges d -> index_of (source_node_id e) l < index_of (target_node_id e) l) /\
  (has_cycle (list_to_set ids) (adjacency_of d) = true <->
   topological_sort ids (adjacency_of d) = Err Contains_cycle).
Proof.
  intros Hd ids. pose proof (cycle_reported d (adjacency_of d) (adjacency_targets d) Hd) as Hc.
  destruct (definition_order d Hd) as [(l & Hl & Hp & He & Ha)|[Hl Ha]]; subst ids; rewrite Hl, Hc.
  - split_and!; [by split; [|eexists]|by intros ? [= <-]|]. by split.
  - split_and!; [split; [by intros [? [=]]|done]|done|done].
Qed.

(** C15: on a definition its model accepts, [validate_workflow] reports exactly
    the broken rules of [node_offends]: an error names a node if and only if the
    node offends that rule, and the cycle error appears if and only if there is a
    cycle. A conditional offends when it has no TRUE edge, no FALSE edge, or an
    edge of another kind; unlike a verification node, which may have one edge of
    each verdict only, it may have several edges of the same branch
    ([two_true_edges_pass]), although the design document asks for exactly one
    of each. *)
Theorem validate_workflow_exact d :
  graph_valid d -> forall e, e ∈ validate_workflow d <-> offends d e.
Proof.
  intros Hd [c i]. unfold validate_workflow. cbv zeta.
  set (adjacency := foldl _ ∅ _). set (outgoing := foldl _ ∅ _).
  assert (Hadj : forall j, adjacent adjacency j = targets d j).
  { intros j. by apply (appended_successors source_node_id target_node_id). }
  assert (Hout : forall j, adjacent outgoing j = out_types d j).
  { intros j. by apply (appended_successors source_node_id edge_type). }
  pose proof (cycle_reported d adjacency Hadj Hd) as Hcyc.
  rewrite !elem_of_app, (reports_elem _ _ _ (reach_reports d adjacency Hadj Hd)),
    (reports_elem _ _ _ (conditional_reports d outgoing Hout)),
    (reports_elem _ _ _ (split_reports d outgoing Hout)), (reports_elem _ _ _ (task_reports d)),
    (reports_elem _ _ _ (verification_reports d outgoing Hout)),
    (reports_elem _ _ _ (scope_reports d outgoing Hout)), (reports_elem _ _ _ (config_reports d)).
  unfold offends. simpl. destruct i as [i|].
  - split.
    + intros Hall. destruct Hall as [Hall|[Hall|[Hall|[Hall|[Hall|[Hall|[Hall|Hall]]]]]]];
        try (destruct Hall as (n & ? & [= ->] & _ & ?); by exists n).
      case_match; [by apply list_elem_of_singleton in Hall|by apply not_elem_of_nil in Hall].
    + intros (n & Hn & <- & Ho).
      destruct c; try done;
        repeat (first [left; exists n; split_and?; solve [done|auto] | right]); done.
  - trans (c = CYCLE_DETECTED /\ has_cycle (list_to_set (node_id <$> nodes d)) adjacency = true); [|by rewrite Hcyc].
    split.
    + intros Hall. destruct Hall as [Hall|[Hall|[Hall|[Hall|[Hall|[Hall|[Hall|Hall]]]]]]]; try (by destruct Hall as (? & ? & [=] & _)).
      case_match; [|by apply not_elem_of_nil in Hall]. apply list_elem_of_singleton in Hall. by injection Hall as ->.
    + intros [-> ->]. do 7 right. by left.
Qed.

End Theorems.

(** ** A workflow with a branch *)

#[export] Instance elements_order {A} `{Countable A} : SetOrder A := {|
  iter := elements;
  iter_perm X := reflexivity _;
|}.

Section Samples.
Import Plain.

Definition sample_node (i : string) (t : WorkflowNodeType) (c : list (string * pyobj)) : WorkflowNode pyobj := {|
  node_id := i; node_type := t; node_label := i; position_x := 0%Q; position_y := 0%Q;
  config := list_to_map c |}.

Definition sample_edge (s t : string) (ty : WorkflowEdgeType) : WorkflowEdge := {|
  edge_id := s ++ t; source_node_id := s; target_node_id := t; edge_type := ty; edge_label := None |}.

Definition sample_definition (ns : list (WorkflowNode pyobj)) (es : list WorkflowEdge) : WorkflowDefinition pyobj := {|
  wf_id := "w"; wf_name := "w"; wf_description := ""; workflow_type := WorkflowType.SEQUENTIAL_PIPELINE;
  wf_version := "1.0.0"; inputs := []; outputs := []; is_subworkflow := false; nodes := ns; edges := es;
  wf_created_by := "u"; wf_created_at := 0%Z; wf_updated_at := 0%Z; wf_revision := 1%Z |}.

Definition branch_edges : list WorkflowEdge :=
  [sample_edge "s" "c" SEQUENTIAL; sample_edge "c" "f" CONDITIONAL_FALSE; sample_edge "c" "t" CONDITIONAL_TRUE;
   sample_edge "t" "e" SEQUENTIAL; sample_edge "f" "e" SEQUENTIAL].

Definition branching : WorkflowDefinition pyobj :=
  sample_definition
    [sample_node "e" END []; sample_node "s" START [];
     sample_node "c" CONDITIONAL [("condition_expression", Py_str "env == prod")%string];
     sample_node "t" TASK [("title", Py_str "Ship")%string]; sample_node "f" TASK [("title", Py_str "  ")%string]]
    branch_edges.

(** The blank title is the one thing wrong with it. *)
Example branching_errors :
  validate_workflow branching = [{| code := TASK_MISSING_TITLE; err_node_id := Some "f"%string |}].
Proof. by vm_compute. Qed.

Example branching_order :
  topological_sort (node_id <$> nodes branching) (adjacency_of branching) = Ok ["s"; "c"; "f"; "t"; "e"]%string.
Proof. by vm_compute. Qed.

Lemma branching_valid : graph_valid branching.
Proof. apply run_model_validators_ok. by vm_compute. Qed.

(** Two TRUE edges on one conditional, which the design document forbids: the
    model accepts the definition and the validation has nothing to report. *)
Definition two_true_edges : WorkflowDefinition pyobj :=
  sample_definition
    (sample_node "u" TASK [("title", Py_str "Tell")%string] :: sample_node "f" TASK [("title", Py_str "Wait")%string] ::
     filter (fun n => node_id n <> "f"%string) (nodes branching))
    (sample_edge "c" "u" CONDITIONAL_TRUE :: sample_edge "u" "e" SEQUENTIAL :: branch_edges).

Example two_true_edges_pass :
  graph_valid two_true_edges /\ validate_workflow two_true_edges = [] /\
  count CONDITIONAL_TRUE (out_types two_true_edges "c") = 2.
Proof. split; [apply run_model_validators_ok; by vm_compute|]. split; by vm_compute. Qed.

Lemma workflow_order_exact_witness :
  acyclic (targets branching) /\
  index_of "c" ["s"; "c"; "f"; "t"; "e"]%string < index_of "t" ["s"; "c"; "f"; "t"; "e"]%string.
Proof.
  destruct (workflow_order_exact branching branching_valid) as ([Hok _] & Hord & _).
  split; [apply Hok; eexists; apply branching_order|].
  destruct (Hord _ branching_order) as [_ He].
  refine (He (sample_edge "c" "t" CONDITIONAL_TRUE)%string _).
  simpl. do 2 right. by left.
Defined.

Lemma validate_workflow_exact_witness :
  offends branching {| code := TASK_MISSING_TITLE; err_node_id := Some "f"%string |} /\
  ~ offends branching {| code := TASK_MISSING_TITLE; err_node_id := Some "t"%string |}.
Proof.
  pose proof (validate_workflow_exact branching branching_valid) as Hv. rewrite branching_errors in Hv.
  split; [apply Hv; by left|]. intros Hn%Hv. by apply list_elem_of_singleton in Hn.
Defined.

End Samples.
