(* ===== verification/WorkflowRuns.v ===== *)
(** * WorkflowRuns

    Executions of workflows: the models of [engine/workflow/execution_models.py],
    the optimistic store of [persistence/sqlite/workflow_execution_repo.py] and
    the lifecycle functions of [engine/workflow/execution_lifecycle.py], run by
    any number of concurrent callers.

    A lifecycle function is a program over the store: it stops at every await,
    where any other may run. What it raises ends it, and so does a failure of
    the database or a cancellation, which may hit at any await. *)

From stdpp Require Import gmap strings list relations.
From Stdlib Require Import ZArith Ascii Lia.
From S2P Require Import Prelude TaskEnums PlanUnits TaskModel TaskEngine WorkflowModel.
Import TaskStatus.
#[local] Open Scope py_scope.
#[local] Open Scope nat_scope.

Module RunStatus.

Inductive WorkflowExecutionStatus :=
| PENDING | RUNNING | COMPLETED | FAILED | CANCELLED.

#[export] Instance run_status_eq_dec : EqDecision WorkflowExecutionStatus.
Proof. solve_decision. Defined.

Definition members : list WorkflowExecutionStatus :=
  [PENDING; RUNNING; COMPLETED; FAILED; CANCELLED].

Lemma run_status_members_all s : s ∈ members.
Proof. revert s. enum_elem. Qed.

#[export] Instance run_status_countable : Countable WorkflowExecutionStatus :=
  enum_countable members run_status_members_all.

Definition run_status_value (s : WorkflowExecutionStatus) : string :=
  match s with
  | PENDING => "pending"
  | RUNNING => "running"
  | COMPLETED => "completed"
  | FAILED => "failed"
  | CANCELLED => "cancelled"
  end.

#[export] Instance run_status_value_inj : Inj (=) (=) run_status_value.
Proof. intros [] []; simpl; congruence. Qed.

End RunStatus.
Export (hints) RunStatus.

Module NodeStatus.

Inductive WorkflowNodeExecutionStatus :=
| PENDING | SKIPPED | TASK_CREATED | TASK_COMPLETED | TASK_FAILED | COMPLETED |
SUBWORKFLOW_COMPLETED.

#[export] Instance node_status_eq_dec : EqDecision WorkflowNodeExecutionStatus.
Proof. solve_decision. Defined.

Definition members : list WorkflowNodeExecutionStatus :=
  [PENDING; SKIPPED; TASK_CREATED; TASK_COMPLETED; TASK_FAILED; COMPLETED;
   SUBWORKFLOW_COMPLETED].

Lemma node_status_members_all s : s ∈ members.
Proof. revert s. enum_elem. Qed.

#[export] Instance node_status_countable : Countable WorkflowNodeExecutionStatus :=
  enum_countable members node_status_members_all.

Definition node_status_value (s : WorkflowNodeExecutionStatus) : string :=
  match s with
  | PENDING => "pending"
  | SKIPPED => "skipped"
  | TASK_CREATED => "task_created"
  | TASK_COMPLETED => "task_completed"
  | TASK_FAILED => "task_failed"
  | COMPLETED => "completed"
  | SUBWORKFLOW_COMPLETED => "subworkflow_completed"
  end.

#[export] Instance node_status_value_inj : Inj (=) (=) node_status_value.
Proof. intros [] []; simpl; congruence. Qed.

End NodeStatus.
Export (hints) NodeStatus.

(** ** Models *)

Record WorkflowNodeExecution := {
  ne_node_id : string;
  ne_node_type : WorkflowNodeType.WorkflowNodeType;
  ne_status : NodeStatus.WorkflowNodeExecutionStatus;
  ne_task_id : option string;
  ne_skipped_reason : option string;
}.

Definition _TASK_LINKED_STATUSES : gset NodeStatus.WorkflowNodeExecutionStatus :=
  list_to_set [NodeStatus.TASK_CREATED; NodeStatus.TASK_COMPLETED; NodeStatus.TASK_FAILED].

Inductive RunModelError :=
| Linked_not_task (status : NodeStatus.WorkflowNodeExecutionStatus)
| Linked_without_task (status : NodeStatus.WorkflowNodeExecutionStatus)
| Task_not_linked
| Skipped_without_reason
| Reason_not_skipped
| Node_field_blank
| Terminal_without_time
| Time_not_terminal
| Failed_without_error
| Error_not_failed
| Duplicate_node_ids (ids : list string)
| Run_field_blank.

Definition node_fields_ok (ne : WorkflowNodeExecution) : bool :=
  not_blank (ne_node_id ne) && opt_ok not_blank (ne_task_id ne) && opt_ok not_blank (ne_skipped_reason ne).

(** [WorkflowNodeExecution._validate_status_fields]. *)
Definition validate_node (ne : WorkflowNodeExecution) : result RunModelError unit :=
  let* _ :=
    if decide (ne_status ne ∈ _TASK_LINKED_STATUSES) then
      ensure bool_decide (ne_node_type ne = WorkflowNodeType.TASK) else Linked_not_task (ne_status ne) in
      ensure negb (bool_decide (ne_task_id ne = None)) else Linked_without_task (ne_status ne) in
      Ok tt
    else ensure bool_decide (ne_task_id ne = None) else Task_not_linked in Ok tt in
  if decide (ne_status ne = NodeStatus.SKIPPED)
  then ensure negb (bool_decide (ne_skipped_reason ne = None)) else Skipped_without_reason in Ok tt
  else ensure bool_decide (ne_skipped_reason ne = None) else Reason_not_skipped in Ok tt.

Record WorkflowExecution := {
  ex_id : string;
  ex_definition_id : string;
  ex_definition_revision : Z;
  ex_status : RunStatus.WorkflowExecutionStatus;
  node_executions : list WorkflowNodeExecution;
  ex_activated_by : string;
  ex_project : string;
  ex_created_at : Z;
  ex_updated_at : Z;
  ex_completed_at : option Z;
  ex_error : option string;
  ex_version : Z;
}.

Definition terminal_statuses : gset RunStatus.WorkflowExecutionStatus :=
  list_to_set [RunStatus.COMPLETED; RunStatus.FAILED; RunStatus.CANCELLED].

Definition run_fields_ok (e : WorkflowExecution) : bool :=
  not_blank (ex_definition_id e) && (1 <=? ex_definition_revision e)%Z && not_blank (ex_activated_by e) &&
  not_blank (ex_project e) && opt_ok not_blank (ex_error e) && (1 <=? ex_version e)%Z &&
  forallb node_fields_ok (node_executions e).

(** [WorkflowExecution._validate_status_fields]. *)
Definition validate_run_status (e : WorkflowExecution) : result RunModelError unit :=
  let* _ :=
    if decide (ex_status e ∈ terminal_statuses)
    then ensure negb (bool_decide (ex_completed_at e = None)) else Terminal_without_time in Ok tt
    else ensure bool_decide (ex_completed_at e = None) else Time_not_terminal in Ok tt in
  if decide (ex_status e = RunStatus.FAILED)
  then ensure negb (bool_decide (ex_error e = None)) else Failed_without_error in Ok tt
  else ensure bool_decide (ex_error e = None) else Error_not_failed in Ok tt.

Definition validate_unique_node_ids (e : WorkflowExecution) : result RunModelError unit :=
  let node_ids := ne_node_id <$> node_executions e in
  ensure no_dupes node_ids else Duplicate_node_ids (duplicates node_ids) in Ok tt.

Fixpoint validate_nodes (nes : list WorkflowNodeExecution) : result RunModelError unit :=
  match nes with
  | [] => Ok tt
  | ne :: nes => let* _ := validate_node ne in validate_nodes nes
  end.

(** The whole construction: fields, the nodes' own rules, then the rules of the
    execution. *)
Definition validate_execution (e : WorkflowExecution) : result RunModelError unit :=
  ensure run_fields_ok e else Run_field_blank in
  let* _ := validate_nodes (node_executions e) in
  let* _ := validate_run_status e in
  validate_unique_node_ids e.

(** ** The store *)

Notation Rows := (gmap string WorkflowExecution).

Inductive SaveError := DuplicateRecordError | PersistenceVersionConflictError | RecordNotFoundError.

#[export] Instance save_error_eq_dec : EqDecision SaveError.
Proof. solve_decision. Defined.

Definition _insert (rows : Rows) (e : WorkflowExecution) : Rows * result SaveError unit :=
  match rows !! ex_id e with
  | Some _ => (rows, Err DuplicateRecordError)
  | None => (<[ex_id e := e]> rows, Ok tt)
  end.

(** [UPDATE ... WHERE id = ? AND version = ?], and the probe when no row
    matched. *)
Definition _update (rows : Rows) (e : WorkflowExecution) : Rows * result SaveError unit :=
  match rows !! ex_id e with
  | None => (rows, Err RecordNotFoundError)
  | Some row =>
      if (ex_version row =? ex_version e - 1)%Z then (<[ex_id e := e]> rows, Ok tt)
      else (rows, Err PersistenceVersionConflictError)
  end.

Definition save_row (rows : Rows) (e : WorkflowExecution) : Rows * result SaveError unit :=
  if (ex_version e =? 1)%Z then _insert rows e else _update rows e.

(** The rows [find_by_task_id] may return: running, with a node of the task. *)
Definition runs_task (task_id : string) (e : WorkflowExecution) : bool :=
  bool_decide (ex_status e = RunStatus.RUNNING) &&
  bool_decide (Some task_id ∈ ne_task_id <$> node_executions e).

(** ** Programs *)

Inductive RunError :=
| WorkflowExecutionNotFoundError
| WorkflowExecutionAlreadyTerminalError (status : RunStatus.WorkflowExecutionStatus)
| WorkflowExecutionError (status : RunStatus.WorkflowExecutionStatus)
| Task_not_in_execution (task_id : string)
| Save_failed (e : SaveError).

Inductive prog (A : Type) :=
| Return (a : A)
| Raise (e : RunError)
| Get (execution_id : string) (k : option WorkflowExecution -> prog A)
| Find_by_task_id (task_id : string) (k : option WorkflowExecution -> prog A)
| Save (e : WorkflowExecution) (k : result SaveError unit -> prog A)
| Now (k : Z -> prog A).
Arguments Return {A}.
Arguments Raise {A}.
Arguments Get {A}.
Arguments Find_by_task_id {A}.
Arguments Save {A}.
Arguments Now {A}.

Fixpoint bind {A B} (p : prog A) (f : A -> prog B) : prog B :=
  match p with
  | Return a => f a
  | Raise e => Raise e
  | Get i k => Get i (fun o => bind (k o) f)
  | Find_by_task_id t k => Find_by_task_id t (fun o => bind (k o) f)
  | Save e k => Save e (fun r => bind (k r) f)
  | Now k => Now (fun t => bind (k t) f)
  end.

(** [try p except ...]: the handler decides which errors it takes. *)
Fixpoint try_except {A} (p : prog A) (handler : RunError -> option (prog A)) : prog A :=
  match p with
  | Return a => Return a
  | Raise e => default (Raise e) (handler e)
  | Get i k => Get i (fun o => try_except (k o) handler)
  | Find_by_task_id t k => Find_by_task_id t (fun o => try_except (k o) handler)
  | Save e k => Save e (fun r => try_except (k r) handler)
  | Now k => Now (fun t => try_except (k t) handler)
  end.

Notation "'await' x ':=' p 'in' k" := (bind p (fun x => k))
  (at level 200, x name, p at level 100, k at level 200).

Definition repo_get (execution_id : string) : prog (option WorkflowExecution) := Get execution_id Return.
Definition repo_find_by_task_id (task_id : string) : prog (option WorkflowExecution) :=
  Find_by_task_id task_id Return.
Definition repo_save (e : WorkflowExecution) : prog unit :=
  Save e (fun r => match r with Ok _ => Return tt | Err x => Raise (Save_failed x) end).
Definition datetime_now : prog Z := Now Return.

(** ** Lifecycle functions *)

(** [model_copy] with a new status and its time, one version on. *)
Definition copy_status (e : WorkflowExecution) (status : RunStatus.WorkflowExecutionStatus)
    (error : option string) (now version : Z) : WorkflowExecution := {|
  ex_id := ex_id e; ex_definition_id := ex_definition_id e;
  ex_definition_revision := ex_definition_revision e; ex_status := status;
  node_executions := node_executions e; ex_activated_by := ex_activated_by e; ex_project := ex_project e;
  ex_created_at := ex_created_at e; ex_updated_at := now; ex_completed_at := Some now;
  ex_error := error; ex_version := version |}.

Definition cancel_execution (execution_id : string) : prog WorkflowExecution :=
  await execution := repo_get execution_id in
  match execution with
  | None => Raise WorkflowExecutionNotFoundError
  | Some e =>
      if decide (ex_status e ∈ terminal_statuses)
      then Raise (WorkflowExecutionAlreadyTerminalError (ex_status e))
      else
        await now := datetime_now in
        let cancelled := copy_status e RunStatus.CANCELLED (ex_error e) now (ex_version e + 1) in
        await _saved := try_except (repo_save cancelled) (fun x =>
          match x with
          | Save_failed PersistenceVersionConflictError =>
              Some (await _refreshed := repo_get execution_id in Raise x)
          | _ => None
          end) in
        Return cancelled
  end.

Definition _load_running (execution_id : string) : prog WorkflowExecution :=
  await execution := repo_get execution_id in
  match execution with
  | None => Raise WorkflowExecutionNotFoundError
  | Some e =>
      if decide (ex_status e = RunStatus.RUNNING) then Return e
      else Raise (WorkflowExecutionError (ex_status e))
  end.

Definition complete_execution (execution_id : string) : prog WorkflowExecution :=
  await e := _load_running execution_id in
  await now := datetime_now in
  let completed := copy_status e RunStatus.COMPLETED (ex_error e) now (ex_version e + 1) in
  await _saved := repo_save completed in
  Return completed.

Definition fail_execution (execution_id error : string) : prog WorkflowExecution :=
  await e := _load_running execution_id in
  await now := datetime_now in
  let failed := copy_status e RunStatus.FAILED (Some error) now (ex_version e + 1) in
  await _saved := repo_save failed in
  Return failed.

(** ** Task events *)

Inductive MutationType := M_create | M_update | M_transition | M_delete | M_cancel.

#[export] Instance mutation_type_eq_dec : EqDecision MutationType.
Proof. solve_decision. Defined.

(** What the handlers read of a [TaskStateChanged]. *)
Record TaskStateChanged := {
  ev_mutation_type : MutationType;
  ev_task_id : string;
  ev_new_status : option TaskStatus;
}.

Definition _TERMINAL_TASK_STATUSES : gset TaskStatus := list_to_set [COMPLETED; FAILED; CANCELLED].

(** [new_status in {FAILED, CANCELLED}]. *)
Definition task_lost (ev : TaskStateChanged) : bool :=
  bool_decide (ev_new_status ev = Some FAILED) || bool_decide (ev_new_status ev = Some CANCELLED).

Definition _expected_terminal_node_status (ev : TaskStateChanged) : NodeStatus.WorkflowNodeExecutionStatus :=
  if task_lost ev then NodeStatus.TASK_FAILED else NodeStatus.TASK_COMPLETED.

Definition _node_status_for_task (e : WorkflowExecution) (task_id : string)
    : option NodeStatus.WorkflowNodeExecutionStatus :=
  ne_status <$> head (filter (fun ne => ne_task_id ne = Some task_id) (node_executions e)).

Definition set_node_status (task_id : string) (status : NodeStatus.WorkflowNodeExecutionStatus)
    (ne : WorkflowNodeExecution) : WorkflowNodeExecution :=
  if decide (ne_task_id ne = Some task_id) then
    {| ne_node_id := ne_node_id ne; ne_node_type := ne_node_type ne; ne_status := status;
       ne_task_id := ne_task_id ne; ne_skipped_reason := ne_skipped_reason ne |}
  else ne.

Definition copy_nodes (e : WorkflowExecution) (nodes : list WorkflowNodeExecution) (now : Z)
    : WorkflowExecution := {|
  ex_id := ex_id e; ex_definition_id := ex_definition_id e;
  ex_definition_revision := ex_definition_revision e; ex_status := ex_status e;
  node_executions := nodes; ex_activated_by := ex_activated_by e; ex_project := ex_project e;
  ex_created_at := ex_created_at e; ex_updated_at := now; ex_completed_at := ex_completed_at e;
  ex_error := ex_error e; ex_version := (ex_version e + 1)%Z |}.

Definition _update_node_status (e : WorkflowExecution) (task_id : string)
    (status : NodeStatus.WorkflowNodeExecutionStatus) : prog WorkflowExecution :=
  let updated_nodes := set_node_status task_id status <$> node_executions e in
  if bool_decide (Some task_id ∈ ne_task_id <$> node_executions e) then
    await now := datetime_now in
    Return (copy_nodes e updated_nodes now)
  else Raise (Task_not_in_execution task_id).

(** A node that still waits: a task or a subworkflow that is not skipped and
    not completed. *)
Definition node_open (ne : WorkflowNodeExecution) : bool :=
  negb (bool_decide (ne_status ne = NodeStatus.SKIPPED)) &&
  ((bool_decide (ne_node_type ne = WorkflowNodeType.TASK) &&
    negb (bool_decide (ne_status ne = NodeStatus.TASK_COMPLETED))) ||
   (bool_decide (ne_node_type ne = WorkflowNodeType.SUBWORKFLOW) &&
    negb (bool_decide (ne_status ne = NodeStatus.SUBWORKFLOW_COMPLETED)))).

Definition _all_tasks_completed (e : WorkflowExecution) : bool :=
  negb (existsb node_open (node_executions e)).

Definition lost_message (ev : TaskStateChanged) : string :=
  String.append "Task " (String.append (ev_task_id ev)
    (if bool_decide (ev_new_status ev = Some CANCELLED) then " cancelled" else " failed")).

Definition _handle_task_failed (e : WorkflowExecution) (ev : TaskStateChanged) : prog unit :=
  await updated := _update_node_status e (ev_task_id ev) NodeStatus.TASK_FAILED in
  await now := datetime_now in
  repo_save (copy_status updated RunStatus.FAILED (Some (lost_message ev)) now (ex_version updated)).

Definition _finalize_task_completed_terminal (updated : WorkflowExecution) : prog unit :=
  await now := datetime_now in
  repo_save (copy_status updated RunStatus.COMPLETED (ex_error updated) now (ex_version updated)).

Definition _handle_task_completed (e : WorkflowExecution) (ev : TaskStateChanged) : prog unit :=
  await updated := _update_node_status e (ev_task_id ev) NodeStatus.TASK_COMPLETED in
  if _all_tasks_completed updated then _finalize_task_completed_terminal updated
  else repo_save updated.

Definition _dispatch_task_handler (e : WorkflowExecution) (ev : TaskStateChanged) : prog unit :=
  if task_lost ev then _handle_task_failed e ev else _handle_task_completed e ev.

Definition _retry_after_version_conflict (e : WorkflowExecution) (ev : TaskStateChanged) : prog unit :=
  await refreshed := repo_get (ex_id e) in
  match refreshed with
  | None => Return tt
  | Some r =>
      if decide (ex_status r ∈ terminal_statuses) then Return tt else
      if decide (_node_status_for_task r (ev_task_id ev) = Some (_expected_terminal_node_status ev))
      then Return tt
      else try_except (_dispatch_task_handler r ev) (fun x =>
        match x with
        | Save_failed RecordNotFoundError | Save_failed PersistenceVersionConflictError => Some (Return tt)
        | _ => None
        end)
  end.

Definition handle_task_state_changed (ev : TaskStateChanged) : prog unit :=
  if decide (ev_mutation_type ev <> M_transition) then Return tt else
  if negb (from_option (fun s => bool_decide (s ∈ _TERMINAL_TASK_STATUSES)) false (ev_new_status ev))
  then Return tt else
  await execution := repo_find_by_task_id (ev_task_id ev) in
  match execution with
  | None => Return tt
  | Some e =>
      try_except (_dispatch_task_handler e ev) (fun x =>
        match x with
        | Save_failed RecordNotFoundError => Some (Return tt)
        | Save_failed PersistenceVersionConflictError => Some (_retry_after_version_conflict e ev)
        | _ => None
        end)
  end.

(** ** Requests and their programs *)

Inductive Request :=
| R_activate (e : WorkflowExecution)
| R_cancel (execution_id : string)
| R_complete (execution_id : string)
| R_fail (execution_id error : string)
| R_event (ev : TaskStateChanged).

Definition program (r : Request) : prog unit :=
  match r with
  | R_activate e => repo_save e
  | R_cancel i => await _e := cancel_execution i in Return tt
  | R_complete i => await _e := complete_execution i in Return tt
  | R_fail i error => await _e := fail_execution i error in Return tt
  | R_event ev => handle_task_state_changed ev
  end.

(** An activation stores a valid execution at version one; a failure names an
    error. *)
Definition request_ok (r : Request) : Prop :=
  match r with
  | R_activate e => validate_execution e = Ok tt /\ ex_version e = 1%Z
  | R_fail _ error => not_blank error = true
  | _ => True
  end.

(** ** Interleavings *)

(** One step of a program: the store after it, what is left to do and the row it
    wrote. *)
Inductive prog_step {A} (rows : Rows) : prog A -> Rows -> prog A -> option WorkflowExecution -> Prop :=
| step_get i k : prog_step rows (Get i k) rows (k (rows !! i)) None
| step_found task_id k i e :
    rows !! i = Some e -> runs_task task_id e = true ->
    prog_step rows (Find_by_task_id task_id k) rows (k (Some e)) None
| step_missing task_id k :
    (forall i e, rows !! i = Some e -> runs_task task_id e = false) ->
    prog_step rows (Find_by_task_id task_id k) rows (k None) None
| step_saved e k rows' :
    save_row rows e = (rows', Ok tt) -> prog_step rows (Save e k) rows' (k (Ok tt)) (Some e)
| step_refused e k rows' x :
    save_row rows e = (rows', Err x) -> prog_step rows (Save e k) rows' (k (Err x)) None
| step_now k t : prog_step rows (Now k) rows (k t) None.

(** A write of the log: who wrote, for which request, which row. *)
Record Write := { writer : nat; cause : Request; written : WorkflowExecution }.

Record World := {
  rows : Rows;
  pool : gmap nat (Request * prog unit);
  log : list Write;
}.

Definition empty_world : World := {| rows := ∅; pool := ∅; log := [] |}.

Definition log_write (t : nat) (r : Request) (w : option WorkflowExecution) (l : list Write) : list Write :=
  match w with Some e => l ++ [{| writer := t; cause := r; written := e |}] | None => l end.

(** A caller arrives, moves on, or is gone: done, failed or cancelled. *)
Inductive step (w : World) : World -> Prop :=
| step_spawn t r :
    pool w !! t = None -> t ∉ writer <$> log w -> request_ok r ->
    step w {| rows := rows w; pool := <[t := (r, program r)]> (pool w); log := log w |}
| step_run t r p rows' p' wr :
    pool w !! t = Some (r, p) -> prog_step (rows w) p rows' p' wr ->
    step w {| rows := rows'; pool := <[t := (r, p')]> (pool w); log := log_write t r wr (log w) |}
| step_stop t :
    step w {| rows := rows w; pool := delete t (pool w); log := log w |}.

Definition reachable (w : World) : Prop := rtc step empty_world w.

(** ** What a request does at once *)

Definition has_task (task_id : string) (e : WorkflowExecution) : bool :=
  bool_decide (Some task_id ∈ ne_task_id <$> node_executions e).

Definition is_terminal (e : WorkflowExecution) : bool := bool_decide (ex_status e ∈ terminal_statuses).

(** A task that ended, applied to an execution. *)
Definition end_task (ev : TaskStateChanged) (now : Z) (e : WorkflowExecution) : WorkflowExecution :=
  let status := _expected_terminal_node_status ev in
  let updated := copy_nodes e (set_node_status (ev_task_id ev) status <$> node_executions e) now in
  if task_lost ev
  then copy_status updated RunStatus.FAILED (Some (lost_message ev)) now (ex_version updated)
  else if _all_tasks_completed updated
  then copy_status updated RunStatus.COMPLETED (ex_error updated) now (ex_version updated)
  else updated.

(** The row a request makes of the row it finds, where it has an effect. *)
Definition effect (r : Request) (now : Z) (row : option WorkflowExecution) : option WorkflowExecution :=
  match r, row with
  | R_activate e, None => Some e
  | R_cancel i, Some e =>
      if bool_decide (ex_id e = i) && negb (is_terminal e)
      then Some (copy_status e RunStatus.CANCELLED (ex_error e) now (ex_version e + 1)) else None
  | R_complete i, Some e =>
      if bool_decide (ex_id e = i) && bool_decide (ex_status e = RunStatus.RUNNING)
      then Some (copy_status e RunStatus.COMPLETED (ex_error e) now (ex_version e + 1)) else None
  | R_fail i error, Some e =>
      if bool_decide (ex_id e = i) && bool_decide (ex_status e = RunStatus.RUNNING)
      then Some (copy_status e RunStatus.FAILED (Some error) now (ex_version e + 1)) else None
  | R_event ev, Some e =>
      if negb (is_terminal e) && has_task (ev_task_id ev) e then Some (end_task ev now e) else None
  | _, _ => None
  end.

(** The writes of one execution, each the effect of its request on the one
    before. *)
Inductive serial : list Write -> Prop :=
| serial_first w now :
    request_ok (cause w) -> effect (cause w) now None = Some (written w) -> serial [w]
| serial_next l prev w now :
    serial (l ++ [prev]) -> request_ok (cause w) ->
    effect (cause w) now (Some (written prev)) = Some (written w) -> serial (l ++ [prev; w]).

Definition writes_of (i : string) (l : list Write) : list Write :=
  filter (fun w => ex_id (written w) = i) l.

(** ** Programs write only effects *)

(** What a program may still do for its request: [Some seen] before its write,
    with the rows it has read, [None] after. *)
Definition saw (o : option WorkflowExecution) (st : option (list WorkflowExecution))
    : option (list WorkflowExecution) :=
  (fun seen => match o with Some e => e :: seen | None => seen end) <$> st.

Definition may_write (r : Request) (seen : list WorkflowExecution) (e : WorkflowExecution) : Prop :=
  exists now prev, effect r now prev = Some e /\ forall p, prev = Some p -> p ∈ seen.

Fixpoint obeys {A} (r : Request) (st : option (list WorkflowExecution)) (p : prog A)
    (Q : option (list WorkflowExecution) -> A -> Prop)
    (X : option (list WorkflowExecution) -> RunError -> Prop) : Prop :=
  match p with
  | Return a => Q st a
  | Raise e => X st e
  | Get i k => forall o, (forall e, o = Some e -> ex_id e = i) -> obeys r (saw o st) (k o) Q X
  | Find_by_task_id t k => forall o, (forall e, o = Some e -> runs_task t e = true) -> obeys r (saw o st) (k o) Q X
  | Save e k =>
      exists seen, st = Some seen /\ may_write r seen e /\
        obeys r None (k (Ok tt)) Q X /\ forall x, obeys r st (k (Err x)) Q X
  | Now k => forall t, obeys r st (k t) Q X
  end.

Lemma obeys_bind {A B} r st (p : prog A) (f : A -> prog B) Q X :
  obeys r st p (fun st a => obeys r st (f a) Q X) X -> obeys r st (bind p f) Q X.
Proof.
  revert st. induction p as [a|e|i k IH|t k IH|e k IH|k IH]; intros st; simpl; try done; try (intros Hall; eauto).
  destruct Hall as (seen & -> & Hw & Hok & Herr). exists seen. eauto 6.
Qed.

Lemma obeys_try {A} r st (p : prog A) handler Q X :
  obeys r st p Q (fun st e => match handler e with Some q => obeys r st q Q X | None => X st e end) ->
  obeys r st (try_except p handler) Q X.
Proof.
  revert st. induction p as [a|e|i k IH|t k IH|e k IH|k IH]; intros st; simpl; try done; try (intros Hall; eauto).
  - by destruct (handler e).
  - destruct Hall as (seen & -> & Hw & Hok & Herr). exists seen. eauto 6.
Qed.

Lemma obeys_mono {A} r st (p : prog A) (Q Q' : _ -> A -> Prop) (X X' : _ -> RunError -> Prop) :
  (forall st a, Q st a -> Q' st a) -> (forall st e, X st e -> X' st e) ->
  obeys r st p Q X -> obeys r st p Q' X'.
Proof.
  intros HQ HX. revert st. induction p as [a|e|i k IH|t k IH|e k IH|k IH]; intros st; simpl; eauto.
  intros (seen & -> & Hw & Hok & Herr). exists seen. eauto 6.
Qed.

(** A save writes an effect; refused, it leaves the caller as it was. *)
Lemma obeys_save r seen e :
  may_write r seen e ->
  obeys r (Some seen) (repo_save e) (fun st _ => st = None)
    (fun st x => st = Some seen /\ exists y, x = Save_failed y).
Proof. intros Hw. exists seen. split_and!; [done|done|done|]. simpl. eauto. Qed.

Definition any {A} : option (list WorkflowExecution) -> A -> Prop := fun _ _ => True.

(** The handlers of an event write its effect on the row they were given. *)
Lemma obeys_dispatch ev seen e :
  e ∈ seen -> is_terminal e = false ->
  obeys (R_event ev) (Some seen) (_dispatch_task_handler e ev) (fun st _ => st = None) (fun st _ => st = Some seen).
Proof.
  intros He Ht.
  assert (Hw : forall now, has_task (ev_task_id ev) e = true -> may_write (R_event ev) seen (end_task ev now e)).
  { intros now Hk. exists now, (Some e). simpl. rewrite Ht, Hk. split; [done|]. by intros ? [= <-]. }
  unfold _dispatch_task_handler, _handle_task_failed, _handle_task_completed, _finalize_task_completed_terminal,
    _update_node_status. fold (has_task (ev_task_id ev) e).
  destruct (has_task (ev_task_id ev) e) eqn:Hk; [|by destruct (task_lost ev)].
  assert (Hnodes : forall t1 t2, _all_tasks_completed (copy_nodes e
    (set_node_status (ev_task_id ev) NodeStatus.TASK_COMPLETED <$> node_executions e) t1) =
    _all_tasks_completed (copy_nodes e
    (set_node_status (ev_task_id ev) NodeStatus.TASK_COMPLETED <$> node_executions e) t2)) by done.
  unfold end_task, _expected_terminal_node_status in Hw.
  destruct (task_lost ev) eqn:Hl; simpl; intros t1.
  - intros t2. exists seen. split_and!; [done|exact (Hw t2 eq_refl)|done|done].
  - destruct (_all_tasks_completed _) eqn:Ha.
    + simpl. intros t2. exists seen. specialize (Hw t2 eq_refl). rewrite (Hnodes t2 t1), Ha in Hw.
      split_and!; [done|exact Hw|done|done].
    + exists seen. specialize (Hw t1 eq_refl). rewrite Ha in Hw. split_and!; done.
Qed.

Lemma saw_elem o seen e : o = Some e -> exists seen', saw o (Some seen) = Some seen' /\ e ∈ seen'.
Proof. intros ->. eexists. split; [done|left]. Qed.

Lemma obeys_retry ev seen e : obeys (R_event ev) (Some seen) (_retry_after_version_conflict e ev) any any.
Proof.
  unfold _retry_after_version_conflict. apply obeys_bind. unfold repo_get. cbn [obeys].
  intros [r|] _; [|done]. case_decide as Ht; [done|]. case_decide; [done|]. apply obeys_try.
  eapply obeys_mono; [| |apply (obeys_dispatch ev (r :: seen)); [left|]]; [done| |].
  - intros st x _. by destruct x as [| | | |[]].
  - unfold is_terminal. by rewrite bool_decide_eq_false.
Qed.

Lemma obeys_event ev : obeys (R_event ev) (Some []) (handle_task_state_changed ev) any any.
Proof.
  unfold handle_task_state_changed. case_match; [done|]. case_match; [done|].
  apply obeys_bind. unfold repo_find_by_task_id. cbn [obeys]. intros [e|] He; [|done]. apply obeys_try.
  assert (Hrun : is_terminal e = false).
  { specialize (He e eq_refl). unfold runs_task in He. apply andb_true_iff in He as [He%bool_decide_eq_true _].
    unfold is_terminal. by rewrite He. }
  eapply obeys_mono; [| |apply (obeys_dispatch ev [e]); [left|done]]; [done|].
  intros st x ->. destruct x as [| | | |[]]; try done. apply obeys_retry.
Qed.

Lemma program_obeys r : request_ok r -> obeys r (Some []) (program r) any any.
Proof.
  destruct r as [e|i|i|i error|ev]; intros Hok; simpl.
  - exists []. split_and!; [done| |done|done]. exists 0%Z, None. split; [done|]. by intros ?.
  - intros [e|] He; [|done]. specialize (He e eq_refl). case_decide as Ht; simpl; [done|]. intros now.
    exists [e]. split_and!; [done| |done|by intros []].
    exists now, (Some e). simpl. unfold is_terminal. rewrite bool_decide_eq_true_2, bool_decide_eq_false_2 by done.
    split; [done|]. intros ? [= <-]. left.
  - intros [e|] He; [|done]. specialize (He e eq_refl). simpl. case_decide as Ht; simpl; [|done]. intros now.
    exists [e]. split_and!; [done| |done|done]. exists now, (Some e). simpl.
    rewrite !bool_decide_eq_true_2 by done. split; [done|]. intros ? [= <-]. left.
  - intros [e|] He; [|done]. specialize (He e eq_refl). simpl. case_decide as Ht; simpl; [|done]. intros now.
    exists [e]. split_and!; [done| |done|done]. exists now, (Some e). simpl.
    rewrite !bool_decide_eq_true_2 by done. split; [done|]. intros ? [= <-]. left.
  - by apply obeys_event.
Qed.

(** ** Serial histories *)

Lemma effect_hop r now e e' :
  effect r now (Some e) = Some e' ->
  ex_id e' = ex_id e /\ ex_version e' = (ex_version e + 1)%Z /\ is_terminal e = false.
Proof.
  destruct r as [x|i|i|i error|ev]; simpl; try done.
  - destruct (is_terminal e); [by rewrite andb_false_r|]. case_match; [|done]. by intros [= <-].
  - intros He. case_match eqn:E; [|done]. injection He as <-. split_and!; [done|done|].
    apply andb_true_iff in E as [_ E%bool_decide_eq_true]. unfold is_terminal. by rewrite E.
  - intros He. case_match eqn:E; [|done]. injection He as <-. split_and!; [done|done|].
    apply andb_true_iff in E as [_ E%bool_decide_eq_true]. unfold is_terminal. by rewrite E.
  - destruct (is_terminal e); [done|]. simpl. case_match; [|done]. intros [= <-]. unfold end_task.
    by repeat case_match.
Qed.

Lemma effect_first r now e : request_ok r -> effect r now None = Some e -> r = R_activate e /\ ex_version e = 1%Z.
Proof. destruct r; simpl; try done. intros [_ ?] [= <-]. done. Qed.

Lemma serial_versions l :
  serial l -> forall k w, l !! k = Some w -> ex_version (written w) = (Z.of_nat k + 1)%Z.
Proof.
  induction 1 as [w now Hok He|l prev w now Hs IH Hok He]; intros k w' Hk.
  - apply list_lookup_singleton_Some in Hk as [-> <-]. by apply (effect_first _ _ _ Hok) in He as [_ ->].
  - change [prev; w] with ([prev] ++ [w]) in Hk. rewrite app_assoc in Hk.
    apply lookup_app_Some in Hk as [Hk|[Hl Hk]]; [by apply IH|].
    apply list_lookup_singleton_Some in Hk as [Hk <-]. apply effect_hop in He as (_ & -> & _).
    rewrite (IH (length l)) by (rewrite lookup_app_r, Nat.sub_diag by lia; done).
    rewrite length_app in *. simpl in *. lia.
Qed.

(** Two writes of one history with the same version are the same. *)
Lemma serial_version_inj l w w' :
  serial l -> w ∈ l -> w' ∈ l -> ex_version (written w) = ex_version (written w') -> w = w'.
Proof.
  intros Hs [k Hk]%list_elem_of_lookup_1 [k' Hk']%list_elem_of_lookup_1 Hv.
  rewrite (serial_versions l Hs k w Hk), (serial_versions l Hs k' w' Hk') in Hv.
  assert (k = k') as <- by lia. congruence.
Qed.

Lemma save_row_ok db e db' :
  save_row db e = (db', Ok tt) ->
  db' = <[ex_id e := e]> db /\
  if (ex_version e =? 1)%Z then db !! ex_id e = None
  else exists row, db !! ex_id e = Some row /\ ex_version row = (ex_version e - 1)%Z.
Proof.
  unfold save_row, _insert, _update. destruct (ex_version e =? 1)%Z, (db !! ex_id e) as [row|] eqn:E; try done.
  - by intros [= <-].
  - destruct (Z.eqb_spec (ex_version row) (ex_version e - 1)); [|done]. intros [= <-]. eauto.
Qed.

Lemma save_row_err db e db' x : save_row db e = (db', Err x) -> db' = db.
Proof. unfold save_row, _insert, _update. repeat case_match; congruence. Qed.

(** ** The invariant of the interleavings *)

Record world_ok (w : World) : Prop := {
  wo_rows : forall i,
    (rows w !! i = None /\ writes_of i (log w) = []) \/
    (exists l wr, writes_of i (log w) = l ++ [wr] /\ serial (l ++ [wr]) /\ rows w !! i = Some (written wr));
  wo_pool : forall t r p, pool w !! t = Some (r, p) -> request_ok r /\
    ((t ∉ writer <$> log w /\ exists seen, (forall e, e ∈ seen -> e ∈ written <$> log w) /\
        obeys r (Some seen) p any any) \/ obeys r None p any any);
  wo_once : NoDup (writer <$> log w);
}.

Lemma writes_of_elem i l wr : wr ∈ writes_of i l <-> ex_id (written wr) = i /\ wr ∈ l.
Proof. unfold writes_of. by rewrite list_elem_of_filter. Qed.

Lemma stored_row w i e : world_ok w -> rows w !! i = Some e -> ex_id e = i /\ e ∈ written <$> log w.
Proof.
  intros Hw Hi. destruct (wo_rows w Hw i) as [[? _]|(l & wr & Hl & _ & Hr)]; [congruence|].
  assert (wr ∈ writes_of i (log w)) as [Hid Hin]%writes_of_elem by (rewrite Hl; set_solver).
  assert (e = written wr) as -> by congruence. split; [done|]. by apply list_elem_of_fmap_2.
Qed.

(** The row a read brings back is one the log holds. *)
Lemma saw_ok w st o seen :
  world_ok w -> st = Some seen -> (forall e, e ∈ seen -> e ∈ written <$> log w) ->
  (forall e, o = Some e -> exists i, rows w !! i = Some e) ->
  exists seen', saw o st = Some seen' /\ forall e, e ∈ seen' -> e ∈ written <$> log w.
Proof.
  intros Hw -> Hs Ho. destruct o as [e|]; simpl; [|by exists seen]. eexists. split; [done|].
  intros e' [->|?]%elem_of_cons; [|auto]. destruct (Ho e eq_refl) as [i Hi]. by eapply stored_row.
Qed.

(** A step that writes nothing. *)
Lemma read_ok w t r p p' :
  world_ok w -> pool w !! t = Some (r, p) ->
  (forall st, obeys r st p any any -> exists o,
     (forall e, o = Some e -> exists i, rows w !! i = Some e) /\
     (obeys r (saw o st) p' any any \/ obeys r st p' any any)) ->
  world_ok {| rows := rows w; pool := <[t := (r, p')]> (pool w); log := log w |}.
Proof.
  intros Hw Hp Hstep. split; [apply Hw| |apply Hw]. simpl. intros t' r' q.
  destruct (decide (t = t')) as [<-|Hne]; [|rewrite lookup_insert_ne by done; apply Hw].
  rewrite lookup_insert_eq. intros [= <- <-]. destruct (wo_pool w Hw t r p Hp) as [Hr Hob]. split; [done|].
  destruct Hob as [(Ht & seen & Hs & Hob)|Hob]; destruct (Hstep _ Hob) as (o & Ho & Hob').
  - left. split; [done|]. destruct Hob' as [Hob'|Hob']; [|by exists seen].
    destruct (saw_ok w (Some seen) o seen Hw eq_refl Hs Ho) as (seen' & E & Hs'). rewrite E in Hob'. by exists seen'.
  - right. by destruct Hob'.
Qed.

(** A write extends its execution's history by one effect. *)
Lemma write_serial w (seen : list WorkflowExecution) r now e rows' prev t :
  world_ok w -> request_ok r -> (forall x, x ∈ seen -> x ∈ written <$> log w) ->
  effect r now prev = Some e -> (forall p, prev = Some p -> p ∈ seen) ->
  save_row (rows w) e = (rows', Ok tt) ->
  exists l wr, writes_of (ex_id e) (log w ++ [{| writer := t; cause := r; written := e |}]) = l ++ [wr] /\
    serial (l ++ [wr]) /\ e = written wr.
Proof.
  intros Hw Hr Hs He Hprev Hsave. apply save_row_ok in Hsave as [_ Hrow].
  unfold writes_of. rewrite filter_app, filter_cons, decide_True, filter_nil by done.
  fold (writes_of (ex_id e) (log w)). exists (writes_of (ex_id e) (log w)). eexists. split; [done|]. split; [|done].
  destruct prev as [p|].
  - apply effect_hop in He as Hhop. destruct Hhop as (Hid & Hv & _).
    assert (Hp : p ∈ written <$> log w) by (by apply Hs, Hprev).
    apply list_elem_of_fmap in Hp as (wp & -> & Hwp).
    assert (Hin : wp ∈ writes_of (ex_id e) (log w)) by (by apply writes_of_elem).
    destruct (wo_rows w Hw (ex_id e)) as [[_ Hnil]|(l & wl & Hl & Hser & Hlast)].
    { rewrite Hnil in Hin. by apply not_elem_of_nil in Hin. }
    rewrite Hl in *. pose proof (serial_versions _ Hser) as Hvs.
    assert (1 <= ex_version (written wp))%Z.
    { apply list_elem_of_lookup_1 in Hin as [k Hk]. rewrite (Hvs k wp Hk). lia. }
    destruct (Z.eqb_spec (ex_version e) 1); [lia|]. destruct Hrow as (row & Hrow & Hrv).
    assert (wp = wl) as ->.
    { apply (serial_version_inj (l ++ [wl])); [done|done|set_solver|].
      assert (row = written wl) as -> by congruence. lia. }
    rewrite <-app_assoc. by apply (serial_next l wl _ now).
  - apply (effect_first _ _ _ Hr) in He as Hf. destruct Hf as [-> Hv]. rewrite Hv in Hrow. simpl in Hrow.
    destruct (wo_rows w Hw (ex_id e)) as [[_ ->]|(l & wl & _ & _ & ?)]; [|congruence].
    by apply (serial_first _ now).
Qed.

Lemma write_ok w t r p' e rows' (seen : list WorkflowExecution) now prev :
  world_ok w -> request_ok r -> t ∉ writer <$> log w -> (forall x, x ∈ seen -> x ∈ written <$> log w) ->
  effect r now prev = Some e -> (forall p, prev = Some p -> p ∈ seen) ->
  save_row (rows w) e = (rows', Ok tt) -> obeys r None p' any any ->
  world_ok {| rows := rows'; pool := <[t := (r, p')]> (pool w);
              log := log w ++ [{| writer := t; cause := r; written := e |}] |}.
Proof.
  intros Hw Hr Ht Hs He Hprev Hsave Hob. split; simpl.
  - intros i. destruct (write_serial w seen r now e rows' prev t) as (l & wr & Hl & Hser & Hwr); [done..|].
    apply save_row_ok in Hsave as [-> _]. destruct (decide (ex_id e = i)) as [<-|Hne].
    + right. exists l, wr. rewrite lookup_insert_eq. split_and!; [done|done|by f_equal].
    + rewrite lookup_insert_ne by done. unfold writes_of. rewrite filter_app, filter_cons, decide_False by done.
      rewrite filter_nil, app_nil_r. apply Hw.
  - intros t' r' q. destruct (decide (t = t')) as [<-|Hne].
    + rewrite lookup_insert_eq. intros [= <- <-]. split; [done|by right].
    + rewrite lookup_insert_ne by done. intros Hq. destruct (wo_pool w Hw t' r' q Hq) as [Hr' Hob']. split; [done|].
      destruct Hob' as [(Ht' & seen' & Hs' & Hob')|]; [left|by right]. rewrite !fmap_app. split; [set_solver|].
      exists seen'. split; [set_solver|done].
  - rewrite fmap_app. apply NoDup_app. split_and!; [apply Hw|set_solver|apply NoDup_singleton].
Qed.

Lemma world_step w w' : world_ok w -> step w w' -> world_ok w'.
Proof.
  intros Hw Hst. destruct Hst as [t r Hf Ht Hr|t r p rows' p' wr Hp Hps|t].
  - split; [apply Hw| |apply Hw]. simpl. intros t' r' q. destruct (decide (t = t')) as [<-|Hne].
    + rewrite lookup_insert_eq. intros [= <- <-]. split; [done|]. left. split; [done|]. exists [].
      split; [set_solver|by apply program_obeys].
    + rewrite lookup_insert_ne by done. apply Hw.
  - destruct Hps as [i k|task k i e Hi Hrun|task k Hnone|e k rows' Hsave|e k rows' x Hsave|k t0]; simpl.
    + eapply read_ok; [done|done|]. simpl. intros st Hob. exists (rows w !! i).
      split; [eauto|]. left. apply Hob. intros e Hi. by eapply stored_row.
    + eapply read_ok; [done|done|]. simpl. intros st Hob. exists (Some e).
      split; [intros ? [= <-]; eauto|]. left. apply Hob. by intros ? [= <-].
    + eapply read_ok; [done|done|]. simpl. intros st Hob. exists None. split; [done|]. left. by apply Hob.
    + destruct (wo_pool w Hw t r _ Hp) as [Hr [(Ht & seen & Hs & Hob)|(seen & [=] & _)]].
      destruct Hob as (seen' & [= <-] & (now & prev & He & Hprev) & Hok & _). by eapply write_ok.
    + apply save_row_err in Hsave as ->. eapply read_ok; [done|done|]. simpl. intros st (seen & -> & _ & _ & Herr).
      exists None. split; [done|]. right. apply Herr.
    + eapply read_ok; [done|done|]. simpl. intros st Hob. exists None. split; [done|]. by right.
  - split; [apply Hw| |apply Hw]. simpl. intros t' r' q [_ Hq]%lookup_delete_Some. by apply Hw.
Qed.

Lemma reachable_ok w : reachable w -> world_ok w.
Proof.
  unfold reachable. intros Hr. remember empty_world as w0 eqn:E.
  assert (world_ok w0) as Hw.
  { subst w0. split; simpl; [intros i; by left|intros t r p ?; by rewrite lookup_empty in *|constructor]. }
  clear E. induction Hr; [done|]. eauto using world_step.
Qed.

(** ** Effects keep executions valid *)

(** The value is there exactly when the proposition holds. *)
Definition present {A} (P : Prop) (o : option A) : Prop := (P -> o <> None) /\ (~ P -> o = None).

Record node_valid (ne : WorkflowNodeExecution) : Prop := {
  nv_fields : node_fields_ok ne = true;
  nv_linked : ne_status ne ∈ _TASK_LINKED_STATUSES ->
    ne_node_type ne = WorkflowNodeType.TASK /\ ne_task_id ne <> None;
  nv_unlinked : ne_status ne ∉ _TASK_LINKED_STATUSES -> ne_task_id ne = None;
  nv_skipped : present (ne_status ne = NodeStatus.SKIPPED) (ne_skipped_reason ne);
}.

Record run_valid (e : WorkflowExecution) : Prop := {
  rv_fields : not_blank (ex_definition_id e) = true /\ (1 <= ex_definition_revision e)%Z /\
    not_blank (ex_activated_by e) = true /\ not_blank (ex_project e) = true /\
    opt_ok not_blank (ex_error e) = true /\ (1 <= ex_version e)%Z;
  rv_nodes : forall ne, ne ∈ node_executions e -> node_valid ne;
  rv_time : present (ex_status e ∈ terminal_statuses) (ex_completed_at e);
  rv_error : present (ex_status e = RunStatus.FAILED) (ex_error e);
  rv_ids : NoDup (ne_node_id <$> node_executions e);
}.

Lemma validate_node_ok ne : node_fields_ok ne = true -> validate_node ne = Ok tt <-> node_valid ne.
Proof.
  intros Hf. unfold validate_node. rewrite rbind_unit. split.
  - intros [H1 H2]. split; [done| | |].
    + intros Hin. rewrite decide_True, !ensure_ok, bool_decide_eq_true, nonblocking in H1 by done. intuition congruence.
    + intros Hin. rewrite decide_False, ensure_ok, bool_decide_eq_true in H1 by done. intuition congruence.
    + unfold present. case_decide; rewrite ensure_ok in H2; [rewrite nonblocking in H2|rewrite bool_decide_eq_true in H2]; intuition congruence.
  - intros [_ Hl Hu Hs]. unfold present in Hs. split.
    + case_decide as Hin; rewrite !ensure_ok, ?nonblocking, bool_decide_eq_true; intuition congruence.
    + case_decide as Hin; rewrite !ensure_ok, ?nonblocking, ?bool_decide_eq_true; intuition congruence.
Qed.

Lemma validate_nodes_ok nes :
  forallb node_fields_ok nes = true -> validate_nodes nes = Ok tt <-> forall ne, ne ∈ nes -> node_valid ne.
Proof.
  induction nes as [|ne nes IH]; simpl; [intros _; split; [by intros _ ? ?%not_elem_of_nil|done]|].
  intros [Hf Hfs]%andb_true_iff. rewrite rbind_unit, validate_node_ok, IH by done. set_solver.
Qed.

Lemma validate_execution_ok e : validate_execution e = Ok tt <-> run_valid e.
Proof.
  unfold validate_execution, validate_run_status, validate_unique_node_ids, run_fields_ok.
  rewrite ensure_ok, !rbind_unit, !ensure_ok, no_dupes_spec, !andb_true_iff, !Z.leb_le. split.
  - intros (Hf & Hns & (Ht & He) & Hid & _). destruct_and!. split; [done| | | |done].
    + by apply validate_nodes_ok.
    + clear He. unfold present. case_decide; rewrite ensure_ok in Ht; [rewrite nonblocking in Ht|rewrite bool_decide_eq_true in Ht]; intuition congruence.
    + clear Ht. unfold present. case_decide; rewrite ensure_ok in He; [rewrite nonblocking in He|rewrite bool_decide_eq_true in He]; intuition congruence.
  - intros [(? & ? & ? & ? & ? & ?) Hns Ht He Hid]. unfold present in *.
    assert (Hfs : forallb node_fields_ok (node_executions e) = true).
    { apply forallb_forall. intros ne Hne. apply Hns. by apply list_elem_of_In. }
    split_and!; try done.
    + by apply validate_nodes_ok.
    + case_decide; rewrite ensure_ok, ?nonblocking, ?bool_decide_eq_true; intuition congruence.
    + case_decide; rewrite ensure_ok, ?nonblocking, ?bool_decide_eq_true; intuition congruence.
Qed.

Lemma set_node_valid t status ne :
  status ∈ _TASK_LINKED_STATUSES -> node_valid ne -> node_valid (set_node_status t status ne).
Proof.
  intros Hs [Hf Hl Hu Hsk]. unfold set_node_status. case_decide as Ht; [|done].
  assert (Hin : ne_status ne ∈ _TASK_LINKED_STATUSES).
  { destruct (decide (ne_status ne ∈ _TASK_LINKED_STATUSES)) as [|Hn]; [done|]. by rewrite Hu in Ht. }
  destruct (Hl Hin) as [Hty Hne]. split; simpl; [done|done|done|].
  assert (Hnot : forall s, s ∈ _TASK_LINKED_STATUSES -> s <> NodeStatus.SKIPPED).
  { unfold _TASK_LINKED_STATUSES. intros s. rewrite elem_of_list_to_set. set_solver. }
  rewrite (proj2 Hsk (Hnot _ Hin)). split; [|done]. intros E. by apply (Hnot status) in Hs.
Qed.

Lemma copy_status_valid e status error now version :
  run_valid e -> status ∈ terminal_statuses -> present (status = RunStatus.FAILED) error ->
  opt_ok not_blank error = true -> (1 <= version)%Z -> run_valid (copy_status e status error now version).
Proof. intros [Hf Hn Ht He Hid] Hs Herr Hb Hv. split; simpl; [naive_solver|done| |done|done]. by split. Qed.

Lemma copy_nodes_valid e t status now :
  run_valid e -> status ∈ _TASK_LINKED_STATUSES ->
  run_valid (copy_nodes e (set_node_status t status <$> node_executions e) now).
Proof.
  intros [(? & ? & ? & ? & ? & ?) Hn Ht He Hid] Hs. split; simpl; [split_and!; try done; lia| |done|done|].
  - intros ne (ne' & -> & Hne)%list_elem_of_fmap. apply set_node_valid; auto.
  - rewrite <-list_fmap_compose. erewrite list_fmap_ext; [exact Hid|]. intros i ne _. simpl.
    unfold set_node_status. by case_decide.
Qed.

Lemma expected_linked ev : _expected_terminal_node_status ev ∈ _TASK_LINKED_STATUSES.
Proof.
  unfold _expected_terminal_node_status, _TASK_LINKED_STATUSES. rewrite elem_of_list_to_set. case_match; set_solver.
Qed.

Lemma lost_message_not_blank ev : not_blank (lost_message ev) = true.
Proof.
  unfold lost_message, not_blank, is_blank. rewrite nonblocking.
  generalize (String.append (ev_task_id ev)
    (if bool_decide (ev_new_status ev = Some CANCELLED) then " cancelled" else " failed")) as s.
  intros s. change (rstrip (String "T"%char (String.append "ask " s)) <> EmptyString).
  cbn [rstrip]. by destruct (rstrip (String.append "ask " s)).
Qed.

Lemma not_terminal_time e : run_valid e -> is_terminal e = false ->
  ex_status e ∉ terminal_statuses /\ ex_error e = None.
Proof.
  intros [_ _ _ [_ He] _] Ht. unfold is_terminal in Ht. rewrite bool_decide_eq_false in Ht. split; [done|].
  apply He. intros E. apply Ht. rewrite E. unfold terminal_statuses. rewrite elem_of_list_to_set. set_solver.
Qed.

Lemma terminal_member s : s ∈ [RunStatus.COMPLETED; RunStatus.FAILED; RunStatus.CANCELLED] -> s ∈ terminal_statuses.
Proof. unfold terminal_statuses. by rewrite elem_of_list_to_set. Qed.

Lemma end_task_valid ev now e : run_valid e -> is_terminal e = false -> run_valid (end_task ev now e).
Proof.
  intros Hv Ht. destruct (not_terminal_time e Hv Ht) as [_ Herr].
  pose proof (copy_nodes_valid e (ev_task_id ev) _ now Hv (expected_linked ev)) as Hc.
  unfold end_task. cbv zeta. assert (1 <= ex_version e)%Z by apply Hv.
  case_match; [|case_match; [|done]]; (apply copy_status_valid; [done|apply terminal_member; set_solver| | |simpl; lia]).
  - by split.
  - apply lost_message_not_blank.
  - simpl. rewrite Herr. by split.
  - simpl. by rewrite Herr.
Qed.

(** An effect on a valid execution is valid. *)
Lemma effect_valid r now prev e :
  request_ok r -> (forall p, prev = Some p -> run_valid p) -> effect r now prev = Some e -> run_valid e.
Proof.
  intros Hr Hp He. destruct prev as [p|].
  - specialize (Hp p eq_refl). assert (1 <= ex_version p)%Z by apply Hp.
    pose proof (effect_hop _ _ _ _ He) as (_ & _ & Ht). destruct (not_terminal_time p Hp Ht) as [_ Herr].
    destruct r as [x|i|i|i error|ev]; simpl in *; try done; case_match; try done; injection He as <-;
      try (by apply end_task_valid);
      (apply copy_status_valid; [done|apply terminal_member; set_solver| | |lia]);
      rewrite ?Herr; try done; by split.
  - apply (effect_first _ _ _ Hr) in He as Hf. destruct Hf as [-> _]. destruct Hr as [Hr _].
    by apply validate_execution_ok.
Qed.

Lemma serial_valid l : serial l -> forall w, w ∈ l -> run_valid (written w).
Proof.
  induction 1 as [w now Hok He|l prev w now Hs IH Hok He]; intros w' Hw'.
  - apply list_elem_of_singleton in Hw' as ->. by apply (effect_valid (cause w) now None).
  - assert (Hprev : run_valid (written prev)) by (apply IH; set_solver).
    assert (w' ∈ l ++ [prev] \/ w' = w) as [Hin| ->] by (clear -Hw'; set_solver).
    { by apply IH. }
    apply (effect_valid (cause w) now (Some (written prev))); [done| |done]. by intros ? [= <-].
Qed.

(** C3: however the lifecycle calls interleave, the stored executions are what
    the calls make one at a time: the writes of an execution start with its
    activation, each later one is the whole effect of one call on the row of
    the one before, the last is the row in the store, and no call writes
    twice. *)
Theorem runs_serializable (w : World) :
  reachable w ->
  (forall i, (rows w !! i = None /\ writes_of i (log w) = []) \/
     exists l last, writes_of i (log w) = l ++ [last] /\ serial (l ++ [last]) /\
       rows w !! i = Some (written last)) /\
  NoDup (writer <$> log w).
Proof. intros Hr%reachable_ok. split; apply Hr. Qed.

(** Every row any interleaving leaves in the store passes the validation of
    the model it is read back through. *)
Theorem runs_stay_valid (w : World) (i : string) (e : WorkflowExecution) :
  reachable w -> rows w !! i = Some e -> validate_execution e = Ok tt.
Proof.
  intros Hr%reachable_ok Hi. apply validate_execution_ok.
  destruct (wo_rows w Hr i) as [[Hn _]|(l & wr & _ & Hs & Hrow)]; [congruence|].
  assert (e = written wr) as -> by congruence. apply (serial_valid _ Hs). set_solver.
Qed.

Lemma step_keeps_terminal w w' i e :
  world_ok w -> step w w' -> rows w !! i = Some e -> is_terminal e = true -> rows w' !! i = Some e.
Proof.
  intros Hw Hst Hi Ht. pose proof (world_step _ _ Hw Hst) as Hw'.
  destruct Hst as [|t r p rows' p' wr Hp Hps|]; [done| |done].
  destruct Hps as [| | |x k rows' Hsave|x k rows' y Hsave|]; simpl in *; try done.
  - pose proof (save_row_ok _ _ _ Hsave) as [-> Hrow].
    destruct (decide (ex_id x = i)) as [<-|Hne]; [|by rewrite lookup_insert_ne].
    exfalso. destruct (wo_rows _ Hw' (ex_id x)) as [[Hn _]|(l & wr & Hl & Hs & Hrow')]; simpl in *.
    { by rewrite lookup_insert_eq in Hn. }
    destruct (wo_rows _ Hw (ex_id x)) as [[Hn _]|(l0 & wr0 & Hl0 & _ & Hrow0)]; [congruence|].
    unfold writes_of in Hl. rewrite filter_app, filter_cons, decide_True, filter_nil in Hl by done.
    fold (writes_of (ex_id x) (log w)) in Hl. rewrite Hl0 in Hl.
    apply app_inj_tail in Hl as [<- <-]. rewrite <-app_assoc in Hs. simpl in Hs.
    assert (e = written wr0) as -> by congruence. inversion Hs as [w0 now _ _ E|l1 prev w1 now _ _ He E].
    + apply (f_equal length) in E. rewrite length_app in E. simpl in E. lia.
    + change [prev; w1] with ([prev] ++ [w1]) in E. change [wr0; {| writer := t; cause := r; written := x |}] with
        ([wr0] ++ [{| writer := t; cause := r; written := x |}]) in E. rewrite !app_assoc in E.
      apply app_inj_tail in E as [E _]. apply app_inj_tail in E as [_ ->].
      apply effect_hop in He as (_ & _ & Hf). congruence.
  - by apply save_row_err in Hsave as ->.
Qed.

(** An execution that was stored as completed, failed or cancelled stays as
    it is: no call that read it earlier, while it ran, overwrites it. *)
Theorem terminal_run_final (w w' : World) (i : string) (e : WorkflowExecution) :
  reachable w -> rtc step w w' -> rows w !! i = Some e -> ex_status e ∈ terminal_statuses ->
  rows w' !! i = Some e.
Proof.
  intros Hr Hst Hi Ht. apply reachable_ok in Hr. induction Hst as [|w w1 w2 H1 _ IH]; [done|].
  apply IH; [by eapply world_step|]. eapply step_keeps_terminal; [done|done|done|].
  unfold is_terminal. by rewrite bool_decide_eq_true.
Qed.

(** ** A caller alone *)

Definition found (db : Rows) (task_id : string) : option WorkflowExecution :=
  head (filter (fun e => runs_task task_id e = true) (map_to_list db).*2).

(** A program run to its end without interference, at one reading of the
    clock. *)
Fixpoint run_alone {A} (now : Z) (db : Rows) (p : prog A) : Rows * result RunError A :=
  match p with
  | Return a => (db, Ok a)
  | Raise e => (db, Err e)
  | Get i k => run_alone now db (k (db !! i))
  | Find_by_task_id t k => run_alone now db (k (found db t))
  | Save e k => let '(db, r) := save_row db e in run_alone now db (k r)
  | Now k => run_alone now db (k now)
  end.

(** The event says a task ended by a transition. *)
Definition relevant (ev : TaskStateChanged) : bool :=
  bool_decide (ev_mutation_type ev = M_transition) &&
  from_option (fun s => bool_decide (s ∈ _TERMINAL_TASK_STATUSES)) false (ev_new_status ev).

(** The row a request is about. *)
Definition target (r : Request) (db : Rows) : option WorkflowExecution :=
  match r with
  | R_activate e => db !! ex_id e
  | R_cancel i | R_complete i | R_fail i _ => db !! i
  | R_event ev => if relevant ev then found db (ev_task_id ev) else None
  end.

(** What a request without effect answers. *)
Definition refusal (r : Request) (row : option WorkflowExecution) : result RunError unit :=
  match r, row with
  | R_activate _, _ => Err (Save_failed DuplicateRecordError)
  | R_event _, _ => Ok tt
  | _, None => Err WorkflowExecutionNotFoundError
  | R_cancel _, Some e => Err (WorkflowExecutionAlreadyTerminalError (ex_status e))
  | _, Some e => Err (WorkflowExecutionError (ex_status e))
  end.

Definition keyed (db : Rows) : Prop := forall i e, db !! i = Some e -> ex_id e = i /\ (1 <= ex_version e)%Z.

Lemma running_open e : ex_status e = RunStatus.RUNNING -> is_terminal e = false.
Proof. intros E. unfold is_terminal. by rewrite E. Qed.

Lemma run_bind {A B} now db (p : prog A) (f : A -> prog B) :
  run_alone now db (bind p f) =
  match run_alone now db p with (db, Ok a) => run_alone now db (f a) | (db, Err e) => (db, Err e) end.
Proof.
  revert db. induction p as [a|e|i k IH|t k IH|e k IH|k IH]; intros db; simpl; try done.
  destruct (save_row db e). apply IH.
Qed.

Lemma run_try {A} now db (p : prog A) handler :
  run_alone now db (try_except p handler) =
  match run_alone now db p with
  | (db, Ok a) => (db, Ok a)
  | (db, Err e) => match handler e with Some q => run_alone now db q | None => (db, Err e) end
  end.
Proof.
  revert db. induction p as [a|e|i k IH|t k IH|e k IH|k IH]; intros db; simpl; try done.
  - by destruct (handler e).
  - destruct (save_row db e). apply IH.
Qed.

(** A save one version past the stored row. *)
Lemma run_save now db row e :
  keyed db -> db !! ex_id row = Some row -> ex_id e = ex_id row -> ex_version e = (ex_version row + 1)%Z ->
  run_alone now db (repo_save e) = (<[ex_id e := e]> db, Ok tt).
Proof.
  intros Hk Hrow Hid Hv. destruct (Hk _ _ Hrow) as [_ H1]. simpl. unfold save_row, _update.
  destruct (Z.eqb_spec (ex_version e) 1); [lia|]. rewrite Hid, Hrow.
  by destruct (Z.eqb_spec (ex_version row) (ex_version e - 1)); [|lia].
Qed.

Lemma found_row db t e : keyed db -> found db t = Some e -> db !! ex_id e = Some e /\ runs_task t e = true.
Proof.
  intros Hk Hf. assert (Hin : e ∈ filter (fun e => runs_task t e = true) (map_to_list db).*2).
  { unfold found in Hf. destruct (filter _ _); [done|]. injection Hf as ->. by left. }
  apply list_elem_of_filter in Hin as [Hr ([i e'] & -> & Hin)%list_elem_of_fmap].
  apply elem_of_map_to_list in Hin. simpl in *. destruct (Hk _ _ Hin) as [<- _]. done.
Qed.

Lemma run_dispatch now db e ev :
  keyed db -> db !! ex_id e = Some e -> has_task (ev_task_id ev) e = true ->
  run_alone now db (_dispatch_task_handler e ev) =
  (<[ex_id e := end_task ev now e]> db, Ok tt).
Proof.
  intros Hk Hrow Ht. unfold _dispatch_task_handler, _handle_task_failed, _handle_task_completed,
    _finalize_task_completed_terminal, _update_node_status, end_task, _expected_terminal_node_status.
  fold (has_task (ev_task_id ev) e). rewrite Ht. destruct (task_lost ev); rewrite run_bind; cbn [run_alone datetime_now bind].
  - by rewrite (run_save now db e).
  - case_match; cbn [run_alone datetime_now bind]; by rewrite (run_save now db e).
Qed.

Lemma run_load now db i :
  run_alone now db (_load_running i) =
  (db, match db !! i with
       | None => Err WorkflowExecutionNotFoundError
       | Some e => if decide (ex_status e = RunStatus.RUNNING) then Ok e else Err (WorkflowExecutionError (ex_status e))
       end).
Proof. simpl. destruct (db !! i); [case_decide|]; done. Qed.

(** A lifecycle call that nothing interferes with has exactly its effect on
    the row it is about, or leaves the store alone and answers why: unknown,
    already terminal, not running; an event about no running execution, or one
    that is no transition to an end, does nothing. *)
Theorem request_alone_exact (r : Request) (now : Z) (db : Rows) :
  request_ok r -> keyed db ->
  run_alone now db (program r) =
  match effect r now (target r db) with
  | Some e => (<[ex_id e := e]> db, Ok tt)
  | None => (db, refusal r (target r db))
  end.
Proof.
  intros Hok Hk. destruct r as [e|i|i|i error|ev]; cbn [program target effect].
  - destruct Hok as [_ Hv]. simpl. unfold save_row, _insert. rewrite Hv. simpl. by destruct (db !! ex_id e).
  - rewrite run_bind. unfold cancel_execution. rewrite run_bind. cbn [run_alone repo_get]. destruct (db !! i) as [e|] eqn:Hi; [|done].
    destruct (Hk _ _ Hi) as [<- Hv]. rewrite bool_decide_eq_true_2 by done. unfold is_terminal.
    case_decide as Ht; [by rewrite bool_decide_eq_true_2|]. rewrite bool_decide_eq_false_2 by done.
    cbn [negb andb]. rewrite run_bind. cbn [run_alone datetime_now]. rewrite run_bind, run_try.
    by rewrite (run_save now db e).
  - rewrite run_bind. unfold complete_execution. rewrite run_bind, run_load. destruct (db !! i) as [e|] eqn:Hi; [|done].
    destruct (Hk _ _ Hi) as [<- Hv]. rewrite bool_decide_eq_true_2 by done.
    case_decide as Hr; [|by rewrite bool_decide_eq_false_2]. rewrite bool_decide_eq_true_2 by done. cbn [andb].
    rewrite run_bind. cbn [run_alone datetime_now]. rewrite run_bind. by rewrite (run_save now db e).
  - rewrite run_bind. unfold fail_execution. rewrite run_bind, run_load. destruct (db !! i) as [e|] eqn:Hi; [|done].
    destruct (Hk _ _ Hi) as [<- Hv]. rewrite bool_decide_eq_true_2 by done.
    case_decide as Hr; [|by rewrite bool_decide_eq_false_2]. rewrite bool_decide_eq_true_2 by done. cbn [andb].
    rewrite run_bind. cbn [run_alone datetime_now]. rewrite run_bind. by rewrite (run_save now db e).
  - unfold handle_task_state_changed, relevant.
    destruct (decide (ev_mutation_type ev <> M_transition)) as [Hm|Hm]; [by rewrite (bool_decide_eq_false_2 (ev_mutation_type ev = M_transition))|].
    rewrite (bool_decide_eq_true_2 (ev_mutation_type ev = M_transition))
      by (by destruct (decide (ev_mutation_type ev = M_transition))).
    destruct (from_option _ false (ev_new_status ev)); [|done]. cbn [negb andb].
    rewrite run_bind. cbn [run_alone repo_find_by_task_id].
    destruct (found db (ev_task_id ev)) as [e|] eqn:Hf; [|done].
    destruct (found_row _ _ _ Hk Hf) as [Hrow Hrun]. unfold runs_task in Hrun.
    apply andb_true_iff in Hrun as [Hst%bool_decide_eq_true Ht]. fold (has_task (ev_task_id ev) e) in Ht.
    rewrite run_try, run_dispatch, Ht, (running_open e) by done. cbn [negb andb].
    by replace (ex_id (end_task ev now e)) with (ex_id e) by (unfold end_task; by repeat case_match).
Qed.

(** ** The task engine's events *)
Section Events.
Context {obj : Type}.

Definition mutation_type (m : TaskMutation obj) : MutationType :=
  match m with
  | Create _ => M_create
  | Update _ => M_update
  | Transition _ => M_transition
  | Delete _ => M_delete
  | Cancel _ => M_cancel
  end.

(** What [build_state_changed_event] puts in the fields the handlers read. *)
Definition build_state_changed_event (m : TaskMutation obj) (r : TaskMutationResult obj) : TaskStateChanged := {|
  ev_mutation_type := mutation_type m;
  ev_task_id := default "unknown"%string
    (match mutation_task_id m with Some i => Some i | None => task_id <$> result_task r end);
  ev_new_status := match m with Delete _ => None | _ => task_status <$> result_task r end;
|}.

(** A task that is cancelled ends without the workflow being told: the handler
    passes over everything but transitions. *)
Lemma cancelled_task_ignored (m : CancelTaskMutation) (r : TaskMutationResult obj) now db :
  run_alone now db (handle_task_state_changed (build_state_changed_event (Cancel m) r)) = (db, Ok tt).
Proof. done. Qed.

End Events.

(** ** Schedules *)

Inductive action := Spawn (t : nat) (r : Request) | Run (t : nat) (clock : Z) | Stop (t : nat).

Definition request_okb (r : Request) : bool :=
  match r with
  | R_activate e => is_ok (validate_execution e) && (ex_version e =? 1)%Z
  | R_fail _ error => not_blank error
  | _ => true
  end.

Definition advance (clock : Z) (db : Rows) (p : prog unit) : option (Rows * prog unit * option WorkflowExecution) :=
  match p with
  | Return _ | Raise _ => None
  | Get i k => Some (db, k (db !! i), None)
  | Find_by_task_id t k => Some (db, k (found db t), None)
  | Save e k =>
      let '(db, r) := save_row db e in
      Some (db, k r, match r with Ok _ => Some e | Err _ => None end)
  | Now k => Some (db, k clock, None)
  end.

(** One action, where it is possible. *)
Definition act (w : World) (a : action) : World :=
  match a with
  | Spawn t r =>
      if negb (bool_decide (is_Some (pool w !! t))) &&
         negb (bool_decide (t ∈ writer <$> log w)) && request_okb r
      then {| rows := rows w; pool := <[t := (r, program r)]> (pool w); log := log w |} else w
  | Run t clock =>
      match pool w !! t with
      | Some (r, p) =>
          match advance clock (rows w) p with
          | Some (db, p', wr) => {| rows := db; pool := <[t := (r, p')]> (pool w); log := log_write t r wr (log w) |}
          | None => w
          end
      | None => w
      end
  | Stop t => {| rows := rows w; pool := delete t (pool w); log := log w |}
  end.

Lemma request_okb_ok r : request_okb r = true -> request_ok r.
Proof.
  destruct r; simpl; try done. rewrite andb_true_iff, Z.eqb_eq. intros [Hv ?]. split; [|done].
  by destruct (validate_execution e) as [[]|].
Qed.

Lemma act_advance_step clock db p db' p' wr : advance clock db p = Some (db', p', wr) -> prog_step db p db' p' wr.
Proof.
  destruct p as [a|e|i k|t k|e k|k]; simpl; try done.
  - intros [= <- <- <-]. constructor.
  - intros [= <- <- <-]. destruct (found db t) as [e|] eqn:Hf.
    + assert (Hin : e ∈ filter (fun e => runs_task t e = true) (map_to_list db).*2).
      { unfold found in Hf. destruct (filter _ _); [done|]. injection Hf as ->. by left. }
      apply list_elem_of_filter in Hin as [Hr ([i e'] & -> & Hin)%list_elem_of_fmap].
      apply elem_of_map_to_list in Hin. by apply (step_found _ _ _ i).
    + constructor. intros i e Hi. apply not_true_iff_false. intros Hr. apply head_None in Hf.
      apply (proj1 (filter_nil_iff _ _) Hf e); [|done]. apply list_elem_of_fmap. exists (i, e).
      split; [done|]. by apply elem_of_map_to_list.
  - destruct (save_row db e) as [db1 [[]|x]] eqn:Hs; intros [= <- <- <-]; by constructor.
  - intros [= <- <- <-]. constructor.
Qed.

Lemma act_step w a : rtc step w (act w a).
Proof.
  destruct a as [t r|t clock|t]; simpl.
  - case_match eqn:E; [|done]. rewrite !andb_true_iff, !negb_true_iff, !bool_decide_eq_false in E.
    destruct E as [[Hp Ht] Hr]. apply rtc_once. constructor; [|done|by apply request_okb_ok].
    by apply eq_None_not_Some.
  - destruct (pool w !! t) as [[r p]|] eqn:Hp; [|done].
    destruct (advance clock (rows w) p) as [[[db p'] wr]|] eqn:Ha; [|done].
    apply rtc_once. econstructor; [done|]. by eapply act_advance_step.
  - apply rtc_once. constructor.
Qed.

Lemma play_steps w l : rtc step w (foldl act w l).
Proof. revert w. induction l as [|a l IH]; intros w; [done|]. etrans; [apply act_step|apply IH]. Qed.

Lemma play_runs_reachable l : reachable (foldl act empty_world l).
Proof. apply play_steps. Qed.

(** ** Two tasks end at once *)

Definition task_node (i t : string) : WorkflowNodeExecution := {|
  ne_node_id := i; ne_node_type := WorkflowNodeType.TASK; ne_status := NodeStatus.TASK_CREATED;
  ne_task_id := Some t; ne_skipped_reason := None |}.

Definition two_tasks : WorkflowExecution := {|
  ex_id := "x"; ex_definition_id := "w"; ex_definition_revision := 1; ex_status := RunStatus.RUNNING;
  node_executions := [task_node "a" "t1"; task_node "b" "t2"]; ex_activated_by := "u"; ex_project := "p";
  ex_created_at := 0; ex_updated_at := 0; ex_completed_at := None; ex_error := None; ex_version := 1 |}.

Definition done_event (t : string) : TaskStateChanged := {|
  ev_mutation_type := M_transition; ev_task_id := t; ev_new_status := Some COMPLETED |}.

(** Both handlers read the first row; the second to save is refused, reads
    again and completes the execution. *)
Definition race : list action :=
  [Spawn 0 (R_activate two_tasks); Run 0 0;
   Spawn 1 (R_event (done_event "t1")); Spawn 2 (R_event (done_event "t2"));
   Run 1 1; Run 2 1; Run 1 1; Run 2 1; Run 1 1; Run 2 1;
   Run 2 2; Run 2 2; Run 2 2; Run 2 2].

Definition raced : World := foldl act empty_world race.

Example race_completes :
  (fun e => (ex_status e, ex_version e, ne_status <$> node_executions e)) <$> rows raced !! "x"%string =
  Some (RunStatus.COMPLETED, 3%Z, [NodeStatus.TASK_COMPLETED; NodeStatus.TASK_COMPLETED]).
Proof. by vm_compute. Qed.

(** A cancel reads the row while it runs and saves after it completed. *)
Definition late_cancel : World :=
  foldl act empty_world (take 10 race ++ [Spawn 3 (R_cancel "x"); Run 3 3; Run 3 3] ++ drop 10 race)%Z.

Definition completed_run : WorkflowExecution := default two_tasks (rows late_cancel !! "x"%string).

Lemma runs_serializable_witness :
  exists l last, writes_of "x" (log raced) = l ++ [last] /\ serial (l ++ [last]) /\ length l = 2.
Proof.
  destruct (runs_serializable raced (play_runs_reachable race)) as [Hrows _].
  destruct (Hrows "x"%string) as [[_ Hn]|(l & last & Hl & Hs & _)].
  - apply (f_equal length) in Hn. by vm_compute in Hn.
  - exists l, last. split_and!; [done|done|]. apply (f_equal length) in Hl. rewrite length_app in Hl.
    change (length (writes_of "x" (log raced))) with 3 in Hl. simpl in Hl. lia.
Defined.

Lemma runs_stay_valid_witness : validate_execution completed_run = Ok tt.
Proof. apply (runs_stay_valid late_cancel "x"); [apply play_runs_reachable|by vm_compute]. Defined.

Lemma terminal_run_final_witness : rows (foldl act late_cancel [Run 3 3]%Z) !! "x"%string = Some completed_run.
Proof.
  apply (terminal_run_final late_cancel); [apply play_runs_reachable|apply play_steps|by vm_compute|].
  apply (bool_decide_unpack _). by vm_compute.
Defined.

Lemma request_alone_exact_witness :
  (run_alone 5 {["x"%string := two_tasks]} (program (R_event (done_event "t1")))).2 = Ok tt.
Proof.
  rewrite request_alone_exact; [by vm_compute|done|].
  intros i e [<- <-]%lookup_singleton_Some. done.
Defined.
