(* ===== verification/WorkflowBindings.v ===== *)
(** * WorkflowBindings

    How a call of a subworkflow moves values: the input and output bindings of
    [engine/workflow/subworkflow_binding.py]. *)

From stdpp Require Import gmap strings list sorting relations.
From Stdlib Require Import ZArith QArith Ascii Lia.
From S2P Require Import Prelude PlanUnits WorkflowModel.
#[local] Open Scope py_scope.
#[local] Open Scope nat_scope.

(** ** Bindings *)

Inductive BindingError :=
| Empty_path
| Missing_segment (path segment : string)
| Non_mapping (path segment : string)
| No_child_scope (expression : string)
| Unsupported_prefix (expression : string)
| Unknown_bindings (names : list string)
| Wrong_type (name : string) (expected : WorkflowValueType.WorkflowValueType)
| Missing_binding (name : string)
| Cannot_resolve (name : string) (e : BindingError).

Section Bindings.
Context {obj : Type} `{PyObject obj}.
Implicit Types (vars : gmap string obj).

(** The segments after the first are looked up in the value found so far. *)
Fixpoint lookup_parts (path : string) (parts : list string) vars : result BindingError obj :=
  match parts with
  | [] => Err Empty_path
  | part :: parts =>
      match vars !! part with
      | None => Err (Missing_segment path part)
      | Some o =>
          match parts with
          | [] => Ok o
          | next :: _ =>
              match view o with
              | V_mapping m => lookup_parts path parts m
              | _ => Err (Non_mapping path next)
              end
          end
      end
  end.

Definition _lookup_path vars (path : string) : result BindingError obj :=
  ensure negb (bool_decide (path = EmptyString)) else Empty_path in
  lookup_parts path (split_on "."%char path) vars.

Definition _resolve_expression (expression : obj) (parent_vars : gmap string obj)
    (child_vars : option (gmap string obj)) : result BindingError obj :=
  match as_str expression with
  | None => Ok expression
  | Some s =>
      match after_prefix "@parent." s, after_prefix "@child." s, after_prefix "@" s with
      | Some path, _, _ => _lookup_path parent_vars path
      | None, Some path, _ =>
          match child_vars with
          | None => Err (No_child_scope s)
          | Some vars => _lookup_path vars path
          end
      | None, None, Some _ => Err (Unsupported_prefix s)
      | None, None, None => Ok expression
      end
  end.

(** A [KeyError] of the lookup, which the callers wrap. *)
Definition is_key_error (e : BindingError) : bool :=
  match e with Empty_path | Missing_segment _ _ | Non_mapping _ _ => true | _ => false end.

Definition type_ok (value : obj) (expected : WorkflowValueType.WorkflowValueType) : bool :=
  match expected, view value with
  | WorkflowValueType.STRING, V_str _ => true
  | WorkflowValueType.INTEGER, V_int _ => true
  | WorkflowValueType.FLOAT, V_int _ => true
  | WorkflowValueType.FLOAT, V_float _ => true
  | WorkflowValueType.BOOLEAN, V_bool _ => true
  | WorkflowValueType.DATETIME, V_str s => is_valid_iso_datetime s
  | WorkflowValueType.DATETIME, V_datetime => true
  | WorkflowValueType.TASK_REF, V_str s => negb (is_blank s)
  | WorkflowValueType.AGENT_REF, V_str s => negb (is_blank s)
  | WorkflowValueType.JSON, _ => true
  | _, _ => false
  end.

Definition _validate_value_type (name : string) (value : obj)
    (expected : WorkflowValueType.WorkflowValueType) : result BindingError unit :=
  ensure type_ok value expected else Wrong_type name expected in Ok tt.

(** The value a declaration gets, if any: its binding, or its default. *)
Definition bind_declaration (bindings parent_vars : gmap string obj)
    (child_vars : option (gmap string obj)) (decl : WorkflowIODeclaration obj)
    : result BindingError (option obj) :=
  match bindings !! decl_name decl with
  | Some expression =>
      match _resolve_expression expression parent_vars child_vars with
      | Err e => Err (if is_key_error e then Cannot_resolve (decl_name decl) e else e)
      | Ok value =>
          let* _ := _validate_value_type (decl_name decl) value (decl_type decl) in
          Ok (Some value)
      end
  | None =>
      ensure negb (decl_required decl) else Missing_binding (decl_name decl) in
      match has_default decl with
      | None => Ok None
      | Some default =>
          let* _ := _validate_value_type (decl_name decl) default (decl_type decl) in
          Ok (Some default)
      end
  end.

Fixpoint bind_declarations (bindings parent_vars : gmap string obj) (child_vars : option (gmap string obj))
    (declarations : list (WorkflowIODeclaration obj)) (resolved : gmap string obj)
    : result BindingError (gmap string obj) :=
  match declarations with
  | [] => Ok resolved
  | decl :: declarations =>
      let* value := bind_declaration bindings parent_vars child_vars decl in
      bind_declarations bindings parent_vars child_vars declarations
        (match value with Some v => <[decl_name decl := v]> resolved | None => resolved end)
  end.

Definition unknown_bindings (bindings : gmap string obj) (declarations : list (WorkflowIODeclaration obj))
    : list string :=
  sort_str (filter (fun k => k ∉ decl_name <$> declarations) (map_to_list bindings).*1).

Definition resolve_input_bindings (bindings parent_vars : gmap string obj)
    (declarations : list (WorkflowIODeclaration obj)) : result BindingError (gmap string obj) :=
  let unknown := unknown_bindings bindings declarations in
  ensure bool_decide (unknown = []) else Unknown_bindings unknown in
  bind_declarations bindings parent_vars None declarations ∅.

Definition project_output_bindings (bindings child_vars : gmap string obj)
    (declarations : list (WorkflowIODeclaration obj)) (parent_vars : option (gmap string obj))
    : result BindingError (gmap string obj) :=
  let unknown := unknown_bindings bindings declarations in
  ensure bool_decide (unknown = []) else Unknown_bindings unknown in
  bind_declarations bindings (default ∅ parent_vars) (Some child_vars) declarations ∅.
End Bindings.

(** ** What a binding denotes *)

Section Meaning.
Context {obj : Type} `{PyObject obj}.
Implicit Types (vars bindings parent_vars : gmap string obj) (child_vars : option (gmap string obj))
  (decl : WorkflowIODeclaration obj).

(** The value a path of names leads to. *)
Inductive at_path : gmap string obj -> list string -> obj -> Prop :=
| at_leaf vars part o : vars !! part = Some o -> at_path vars [part] o
| at_step vars part o m parts v :
    vars !! part = Some o -> view o = V_mapping m -> at_path m parts v -> at_path vars (part :: parts) v.

Lemma lookup_parts_ok path parts vars v : lookup_parts path parts vars = Ok v <-> at_path vars parts v.
Proof.
  revert vars. induction parts as [|part parts IH]; intros vars; simpl.
  { split; [done|]. by inversion 1. }
  destruct (vars !! part) as [o|] eqn:Ho; [|split; [done|]; inversion 1; congruence].
  destruct parts as [|next parts].
  - split; [intros [= <-]; by apply at_leaf|]. inversion 1 as [|? ? ? ? ? ? ? ? Hp]; subst; [congruence|by inversion Hp].
  - split.
    + destruct (view o) eqn:Hv; try done. intros Hl%IH. by eapply at_step.
    + inversion 1 as [|? ? o' m ? ? Ho' Hm Hp]; subst. assert (o' = o) as -> by congruence.
      rewrite Hm. by apply IH.
Qed.

(** What a declaration is given: the value of its binding, or its default, of
    the declared type. *)
Inductive given bindings parent_vars child_vars decl : obj -> Prop :=
| given_bound expression v :
    bindings !! decl_name decl = Some expression ->
    _resolve_expression expression parent_vars child_vars = Ok v -> type_ok v (decl_type decl) = true ->
    given bindings parent_vars child_vars decl v
| given_default v :
    bindings !! decl_name decl = None -> decl_required decl = false -> has_default decl = Some v ->
    type_ok v (decl_type decl) = true -> given bindings parent_vars child_vars decl v.

(** An optional declaration that nothing gives a value. *)
Definition left_out bindings decl : Prop :=
  bindings !! decl_name decl = None /\ decl_required decl = false /\ has_default decl = None.

Lemma bind_declaration_ok bindings parent_vars child_vars decl o :
  bind_declaration bindings parent_vars child_vars decl = Ok o <->
  match o with
  | Some v => given bindings parent_vars child_vars decl v
  | None => left_out bindings decl
  end.
Proof.
  unfold bind_declaration, _validate_value_type, left_out.
  destruct (bindings !! decl_name decl) as [expression|] eqn:Hb.
  - destruct (_resolve_expression expression parent_vars child_vars) as [v|e] eqn:Hr.
    + destruct (type_ok v (decl_type decl)) eqn:Ht; simpl; destruct o as [u|]; split; try done.
      * intros [= <-]. by eapply given_bound.
      * inversion 1; congruence.
      * by intros [].
      * inversion 1; congruence.
      * by intros [].
    + split; [done|]. destruct o; [inversion 1; congruence|by intros []].
  - destruct (decl_required decl) eqn:Hq; simpl.
    { split; [done|]. destruct o; [inversion 1; congruence|by intros (_ & ? & _)]. }
    destruct (has_default decl) as [d|] eqn:Hd.
    + destruct (type_ok d (decl_type decl)) eqn:Ht; simpl; destruct o as [u|]; split; try done.
      * intros [= <-]. by apply given_default.
      * inversion 1; congruence.
      * by intros (_ & _ & ?).
      * inversion 1; congruence.
      * by intros (_ & _ & ?).
    + destruct o; split; try done. inversion 1; congruence.
Qed.

Lemma given_unique bindings parent_vars child_vars decl v w :
  given bindings parent_vars child_vars decl v -> given bindings parent_vars child_vars decl w -> v = w.
Proof.
  intros Hv%(bind_declaration_ok _ _ _ _ (Some v)) Hw%(bind_declaration_ok _ _ _ _ (Some w)). congruence.
Qed.

(** The variables a list of declarations is given. *)
Definition frame_of bindings parent_vars child_vars (declarations : list (WorkflowIODeclaration obj))
    (r : gmap string obj) : Prop :=
  (forall d, d ∈ declarations ->
     left_out bindings d \/ exists v, given bindings parent_vars child_vars d v) /\
  forall k v, r !! k = Some v <->
    exists d, d ∈ declarations /\ decl_name d = k /\ given bindings parent_vars child_vars d v.

Lemma bind_declarations_ok bindings parent_vars child_vars declarations acc r :
  NoDup (decl_name <$> declarations) -> (forall k, k ∈ decl_name <$> declarations -> acc !! k = None) ->
  bind_declarations bindings parent_vars child_vars declarations acc = Ok r <->
  exists r', frame_of bindings parent_vars child_vars declarations r' /\ r = r' ∪ acc.
Proof.
  revert acc. induction declarations as [|d ds IH]; intros acc Hnd Hacc; simpl.
  { split.
    - intros [= <-]. exists ∅. split; [|by rewrite (left_id_L ∅ _)]. split; [by intros d ?%not_elem_of_nil|].
      intros k v. rewrite lookup_empty. split; [done|]. by intros (d & ?%not_elem_of_nil & _).
    - intros (r' & [_ Hr'] & ->). f_equal. assert (r' = ∅) as ->; [|by rewrite (left_id_L ∅ _)].
      apply map_empty. intros k. destruct (r' !! k) eqn:E; [|done].
      apply Hr' in E as (d & ?%not_elem_of_nil & _). done. }
  rewrite fmap_cons in Hnd. apply NoDup_cons in Hnd as [Hd Hnd]. rewrite rbind_ok.
  assert (Hother : forall k v, (exists d', d' ∈ d :: ds /\ decl_name d' = k /\ given bindings parent_vars child_vars d' v) <->
    (decl_name d = k /\ given bindings parent_vars child_vars d v) \/
    (decl_name d <> k /\ exists d', d' ∈ ds /\ decl_name d' = k /\ given bindings parent_vars child_vars d' v)).
  { intros k v. split.
    - intros (d' & [->|Hin]%elem_of_cons & Hk & Hg); [by left|]. right.
      split; [|by exists d']. intros E. apply Hd, list_elem_of_fmap. exists d'. by rewrite Hk.
    - intros [[Hk Hg]|(_ & d' & ? & ? & ?)]; [exists d; split_and!; [left|done..]|].
      exists d'. split_and!; [by right|done..]. }
  assert (Hfresh : forall k, k ∈ decl_name <$> ds -> k <> decl_name d) by (by intros k ? ->).
  split.
  - intros (o & Ho%bind_declaration_ok & Hr). apply IH in Hr as (r' & [Hall Hr'] & ->); [|done|].
    2:{ intros k Hk. destruct o; [rewrite lookup_insert_ne by (symmetry; auto)|]; apply Hacc; set_solver. }
    destruct o as [v|].
    + exists (<[decl_name d := v]> r'). split; [split|].
      * intros d' [->|?]%elem_of_cons; [right; by exists v|auto].
      * intros k w. rewrite Hother. destruct (decide (decl_name d = k)) as [E|E].
        -- rewrite E, lookup_insert_eq. split; [intros [= <-]; by left|]. intros [[_ Hg]|[? _]]; [|done].
           f_equal. by eapply given_unique.
        -- rewrite lookup_insert_ne, Hr' by done. split; [by right|]. by intros [[? _]|[_ ?]].
      * apply map_eq. intros k. rewrite !lookup_union. destruct (decide (decl_name d = k)) as [<-|E].
        -- rewrite !lookup_insert_eq, Hacc by set_solver. destruct (r' !! decl_name d) as [u|] eqn:Hu; [|done].
           exfalso. apply Hr' in Hu as (d' & Hin & Hk & _). apply Hd, list_elem_of_fmap. by exists d'.
        -- by rewrite !lookup_insert_ne.
    + exists r'. split; [split|done].
      * intros d' [->|?]%elem_of_cons; [by left|auto].
      * intros k w. rewrite Hother, Hr'. split; [|intros [[_ Hg]|[_ ?]]; [|done]].
        -- intros (d' & Hin & Hk & Hg). right. split; [|by exists d'].
           intros E. apply Hd, list_elem_of_fmap. exists d'. by rewrite Hk.
        -- apply (bind_declaration_ok _ _ _ _ (Some w)) in Hg.
           apply (bind_declaration_ok bindings parent_vars child_vars d None) in Ho. congruence.
  - intros (r' & [Hall Hr'] & ->).
    assert (Hd' : exists o, bind_declaration bindings parent_vars child_vars d = Ok o /\ r' !! decl_name d = o).
    { destruct (Hall d) as [Hl|[v Hv]]; [left| |].
      - exists None. split; [by apply bind_declaration_ok|]. destruct (r' !! decl_name d) as [w|] eqn:Hw; [|done].
        apply Hr', Hother in Hw as [[_ Hg]|[? _]]; [|done]. apply (bind_declaration_ok _ _ _ _ (Some w)) in Hg.
        apply (bind_declaration_ok bindings parent_vars child_vars d None) in Hl. congruence.
      - exists (Some v). split; [by apply bind_declaration_ok|]. apply Hr', Hother. by left. }
    destruct Hd' as (o & Ho & Hro). exists o. split; [done|]. apply IH; [done| |].
    { intros k Hk. destruct o; [rewrite lookup_insert_ne by (symmetry; auto)|]; apply Hacc; set_solver. }
    exists (delete (decl_name d) r'). split; [split|].
    + intros d' ?. apply Hall. by right.
    + intros k w. destruct (decide (decl_name d = k)) as [<-|E].
      * rewrite lookup_delete_eq. split; [done|]. intros (d' & Hin & Hk & _). exfalso.
        apply Hd, list_elem_of_fmap. by exists d'.
      * rewrite lookup_delete_ne, Hr', Hother by done. split; [by intros [[? _]|[_ ?]]|by right].
    + apply map_eq. intros k. rewrite !lookup_union. destruct (decide (decl_name d = k)) as [<-|E].
      * rewrite lookup_delete_eq, Hro. destruct o; [rewrite lookup_insert_eq|]; by rewrite ?Hacc by set_solver.
      * rewrite lookup_delete_ne by done. destruct o; [by rewrite lookup_insert_ne|done].
Qed.

Lemma unknown_bindings_nil bindings declarations :
  unknown_bindings bindings declarations = [] <->
  forall k, is_Some (bindings !! k) -> k ∈ decl_name <$> declarations.
Proof.
  unfold unknown_bindings. split.
  - intros E k [v Hk%elem_of_map_to_list]. apply dec_stable. intros Hn.
    assert (k ∈ sort_str (filter (fun k => k ∉ decl_name <$> declarations) (map_to_list bindings).*1)) as Hin.
    { rewrite sort_str_perm, list_elem_of_filter. split; [done|]. apply list_elem_of_fmap. by exists (k, v). }
    rewrite E in Hin. by apply not_elem_of_nil in Hin.
  - intros Hall. replace (filter _ _) with (@nil string); [done|]. symmetry. apply filter_nil_iff.
    intros k ([k' v] & -> & Hk%elem_of_map_to_list)%list_elem_of_fmap. intros Hn. apply Hn, Hall. by exists v.
Qed.
End Meaning.

Section Claims.
Context {obj : Type} `{PyObject obj}.

(** The variables of a subworkflow's frame and what it hands back are
    exactly the declared ones: resolving succeeds when every binding names a
    declaration and every declaration is given a value of its type (its
    binding, read in the caller's scope, or its default) or is optional with
    neither, and the result holds those values and nothing else. Names that are
    not declared do not pass in either direction. *)
Theorem subworkflow_scopes_exact (bindings parent_vars child_vars r : gmap string obj)
    (declarations : list (WorkflowIODeclaration obj)) :
  NoDup (decl_name <$> declarations) ->
  (resolve_input_bindings bindings parent_vars declarations = Ok r <->
   (forall k, is_Some (bindings !! k) -> k ∈ decl_name <$> declarations) /\
   frame_of bindings parent_vars None declarations r) /\
  (project_output_bindings bindings child_vars declarations (Some parent_vars) = Ok r <->
   (forall k, is_Some (bindings !! k) -> k ∈ decl_name <$> declarations) /\
   frame_of bindings parent_vars (Some child_vars) declarations r).
Proof.
  intros Hnd. unfold resolve_input_bindings, project_output_bindings. rewrite !ensure_ok, !bool_decide_eq_true.
  rewrite !unknown_bindings_nil, !bind_declarations_ok by (done || (intros; apply lookup_empty)).
  setoid_rewrite (right_id_L ∅ (∪)). split; (split; intros [? Hr]; split; [done| |done|]).
  - by destruct Hr as (r' & ? & ->).
  - by exists r.
  - by destruct Hr as (r' & ? & ->).
  - by exists r.
Qed.

(** A reference written as [@parent.] and a path of names without dots
    reads exactly the value the path leads to through nested mappings, and
    anything else it raises is a missing or blocked segment, which the bindings
    report as a failed binding. *)
Theorem parent_reference_reads_path (reference : obj) (parts : list string) (parent_vars : gmap string obj)
    (child_vars : option (gmap string obj)) (v : obj) :
  parts <> [] -> parts <> [EmptyString] -> Forall (fun p => mentions "."%char p = false) parts ->
  view reference = V_str (String.append "@parent." (join_with "."%char parts)) ->
  (_resolve_expression reference parent_vars child_vars = Ok v <-> at_path parent_vars parts v) /\
  (forall e, _resolve_expression reference parent_vars child_vars = Err e -> is_key_error e = true).
Proof.
  intros Hne Hnb Hdots Hv. unfold _resolve_expression, as_str. rewrite Hv, after_prefix_app.
  assert (Hpath : join_with "."%char parts <> EmptyString).
  { destruct parts as [|[|a p] [|q parts]]; try done. }
  unfold _lookup_path. rewrite bool_decide_eq_false_2 by done. simpl. rewrite split_join by done.
  split; [apply lookup_parts_ok|]. intros e. clear. generalize (join_with "."%char parts) as path. intros path.
  revert parent_vars. induction parts as [|part parts IH]; intros vars; simpl; [by intros [= <-]|].
  destruct (vars !! part) as [o|]; [|by intros [= <-]]. destruct parts; [done|].
  destruct (view o); try (by intros [= <-]). apply IH.
Qed.

(** A blank default of a reference type is accepted with the definition and
    refused by every call that falls back to it. *)
Lemma blank_reference_default name (o : obj) s t :
  view o = V_str s -> is_blank s = true -> t = WorkflowValueType.TASK_REF \/ t = WorkflowValueType.AGENT_REF ->
  _check_default_type name o t = Ok tt /\ _validate_value_type name o t = Err (Wrong_type name t).
Proof.
  intros Hv Hs [-> | ->]; unfold _check_default_type, _validate_value_type, type_ok; by rewrite Hv, Hs.
Qed.
End Claims.

(** ** Examples *)
Section Examples.
Import Plain.

Definition sample_vars : gmap string pyobj :=
  {["quarter" := Py_int 3; "team" := Py_dict [("lead", Py_str "ada")]]}%string.
Definition sample_inputs : list (WorkflowIODeclaration pyobj) := [
  {| decl_name := "lead"; decl_type := WorkflowValueType.AGENT_REF; decl_required := true;
     decl_default := None; decl_description := "" |};
  {| decl_name := "depth"; decl_type := WorkflowValueType.INTEGER; decl_required := false;
     decl_default := Some (Py_int 2); decl_description := "" |}].
Definition sample_bindings : gmap string pyobj := {["lead" := Py_str "@parent.team.lead"]}%string.

Example split_dots : split_on "."%char "a..b" = ["a"; ""; "b"]%string.
Proof. reflexivity. Qed.
Example resolve_nested :
  resolve_input_bindings sample_bindings sample_vars sample_inputs =
  Ok {["lead" := Py_str "ada"; "depth" := Py_int 2]}%string.
Proof. vm_compute. reflexivity. Qed.
Example resolve_unknown :
  resolve_input_bindings {["leed" := Py_int 1]}%string sample_vars sample_inputs = Err (Unknown_bindings ["leed"%string]).
Proof. vm_compute. reflexivity. Qed.
Example resolve_blocked :
  resolve_input_bindings {["lead" := Py_str "@parent.quarter.lead"]}%string sample_vars sample_inputs =
  Err (Cannot_resolve "lead" (Non_mapping "quarter.lead" "lead")).
Proof. vm_compute. reflexivity. Qed.
Example resolve_missing :
  resolve_input_bindings ∅ sample_vars sample_inputs = Err (Missing_binding "lead").
Proof. vm_compute. reflexivity. Qed.

Lemma subworkflow_scopes_exact_witness :
  NoDup (decl_name <$> sample_inputs) /\
  frame_of sample_bindings sample_vars None sample_inputs
    {["lead" := Py_str "ada"; "depth" := Py_int 2]}%string.
Proof.
  assert (Hnd : NoDup (decl_name <$> sample_inputs)) by (by apply (bool_decide_unpack _); vm_compute).
  split; [exact Hnd|].
  exact (proj2 (proj1 (proj1 (subworkflow_scopes_exact sample_bindings sample_vars ∅
    {["lead" := Py_str "ada"; "depth" := Py_int 2]}%string sample_inputs Hnd)) resolve_nested)).
Defined.

Lemma parent_reference_reads_path_witness :
  at_path sample_vars ["team"; "lead"]%string (Py_str "ada").
Proof.
  refine (proj1 (proj1 (parent_reference_reads_path (Py_str "@parent.team.lead") ["team"; "lead"]%string
    sample_vars None (Py_str "ada") _ _ _ _)) _).
  - discriminate.
  - discriminate.
  - repeat constructor.
  - reflexivity.
  - vm_compute. reflexivity.
Defined.
End Examples.
