(* ===== verification/WorkflowWalk.v ===== *)
(** * WorkflowWalk

    Activating a workflow: the searches and node processors of
    [engine/workflow/execution_activation_helpers.py], the walk state of
    [execution_walk_state.py], the handlers of [execution_node_dispatch.py] and
    the walk of [execution_service.py].

    The walk is a state-passing computation that may raise. What it did before
    it raised stays done: the tasks it created are in its log. *)

From stdpp Require Import gmap strings list sorting relations.
From Stdlib Require Import ZArith QArith Ascii Lia.
From S2P Require Import Prelude TaskEnums PlanUnits Graphs TaskModel.
From S2P Require TaskEngine.
From S2P Require Import ConditionEval WorkflowModel WorkflowGraph WorkflowRuns WorkflowBindings.
Import TaskEngine (CreateTaskData(..), create_data_ok).
Import WorkflowNodeType WorkflowEdgeType.
#[local] Open Scope py_scope.
#[local] Open Scope nat_scope.

Module VerificationVerdict.

Inductive VerificationVerdict :=
| PASS | FAIL | REFER.

#[export] Instance verdict_eq_dec : EqDecision VerificationVerdict.
Proof. solve_decision. Defined.

Definition members : list VerificationVerdict := [PASS; FAIL; REFER].

Definition verdict_value (v : VerificationVerdict) : string :=
  match v with
  | PASS => "pass"
  | FAIL => "fail"
  | REFER => "refer"
  end.

End VerificationVerdict.
Export (hints) VerificationVerdict.
Import VerificationVerdict (VerificationVerdict, verdict_value).

(** [Enum(value)]: the member of a value. *)
Definition of_value {A} (value : A -> string) (members : list A) (s : string) : option A :=
  head (filter (fun a => value a = s) members).

(** ** Searches around a node *)

Definition CONTROL_NODE_TYPES : gset WorkflowNodeType :=
  list_to_set [START; END; AGENT_ASSIGNMENT; CONDITIONAL; PARALLEL_SPLIT; PARALLEL_JOIN; VERIFICATION].

(** An entry of [node_task_ids]: the task of a node, or the terminal tasks of a
    subworkflow. *)
Inductive TaskRef := One (task_id : string) | Many (task_ids : list string).

Definition _flatten_task_ids (value : TaskRef) : list string :=
  match value with One t => [t] | Many ts => ts end.

Notation NodeMap obj := (gmap string (WorkflowNode obj)).

Section Searches.
Context {obj : Type}.
Implicit Types (adjacency reverse_adj : Adjacency) (node_map : NodeMap obj).

Definition find_downstream_task_ids (nid : string) adjacency node_map : result string (list string) :=
  let* found := search (fun _ => false) (fun _ tid =>
    match node_map !! tid with
    | None => Err tid
    | Some target_node =>
        if decide (node_type target_node = TASK) then Ok ([tid], [])
        else if decide (node_type target_node = AGENT_ASSIGNMENT) then Ok ([], [])
        else if decide (node_type target_node ∈ CONTROL_NODE_TYPES) then Ok ([], adjacent adjacency tid)
        else Ok ([], [])
    end) adjacency (adjacent adjacency nid) in
  Ok found.2.

Definition find_upstream_task_ids (nid : string) reverse_adj node_map
    (task_refs : gmap string TaskRef) (skipped : gset string) : result string (list string) :=
  let* found := search (fun i => bool_decide (i ∈ skipped)) (fun _ pred_id =>
    match node_map !! pred_id with
    | None => Err pred_id
    | Some pred_node =>
        if decide (node_type pred_node = TASK \/ node_type pred_node = SUBWORKFLOW) then
          match task_refs !! pred_id with
          | Some value => Ok (_flatten_task_ids value, [])
          | None => Ok ([], adjacent reverse_adj pred_id)
          end
        else if decide (node_type pred_node ∈ CONTROL_NODE_TYPES)
        then Ok ([], adjacent reverse_adj pred_id)
        else Ok ([], [])
    end) reverse_adj (adjacent reverse_adj nid) in
  Ok (sort_str (remove_dups found.2)).

Definition find_skipped_nodes (untaken_target taken_target : string) adjacency : gset string :=
  let taken_reachable := visited_of (search (A:=unit) (fun _ => false)
    (fun _ nid => Ok ([], adjacent adjacency nid)) adjacency [taken_target]) in
  visited_of (search (A:=unit) (fun nid => bool_decide (nid ∈ taken_reachable))
    (fun _ nid => Ok ([], adjacent adjacency nid)) adjacency [untaken_target]).
End Searches.

(** ** Walk state *)

Definition QUALIFIED_ID_SEPARATOR : string := "::".

Definition qualify_id (prefix nid : string) : string :=
  if bool_decide (prefix = EmptyString) then nid
  else String.append prefix (String.append QUALIFIED_ID_SEPARATOR nid).

Record WalkState := {
  node_exec_map : gmap string WorkflowNodeExecution;
  node_task_ids : gmap string TaskRef;
  ordered_keys : list string;
}.

Definition empty_state : WalkState := {| node_exec_map := ∅; node_task_ids := ∅; ordered_keys := [] |}.

Definition _record_node (state : WalkState) (qualified_id : string) (ne : WorkflowNodeExecution) : WalkState := {|
  node_exec_map := <[qualified_id := ne]> (node_exec_map state);
  node_task_ids := match ne_task_id ne with
                   | Some t => <[qualified_id := One t]> (node_task_ids state)
                   | None => node_task_ids state
                   end;
  ordered_keys := if decide (is_Some (node_exec_map state !! qualified_id)) then ordered_keys state
                  else ordered_keys state ++ [qualified_id];
|}.

(** [all(node_map[s].type is END for s in adjacent)]. *)
Fixpoint all_end {obj} (node_map : NodeMap obj) (ids : list string) : result string bool :=
  match ids with
  | [] => Ok true
  | i :: ids =>
      match node_map !! i with
      | None => Err i
      | Some n => if decide (node_type n = END) then all_end node_map ids else Ok false
      end
  end.

(** What a terminal node of a child graph contributes. *)
Definition node_terminal_ids (t : WorkflowNodeType) (entry : option TaskRef) : list string :=
  match t, entry with
  | TASK, Some (One task_id) => [task_id]
  | TASK, _ => []
  | _, Some value => _flatten_task_ids value
  | _, None => []
  end.

Fixpoint terminal_ids {obj} (adjacency : Adjacency) (node_map : NodeMap obj) (child_prefix : string)
    (state : WalkState) (ns : list (WorkflowNode obj)) : result string (list string) :=
  match ns with
  | [] => Ok []
  | n :: ns =>
      if decide (node_type n = TASK \/ node_type n = SUBWORKFLOW) then
        let* is_terminal := all_end node_map (adjacent adjacency (node_id n)) in
        let ids := if is_terminal
          then node_terminal_ids (node_type n) (node_task_ids state !! qualify_id child_prefix (node_id n))
          else [] in
        let* rest := terminal_ids adjacency node_map child_prefix state ns in
        Ok (ids ++ rest)
      else terminal_ids adjacency node_map child_prefix state ns
  end.

Definition node_map_of {obj} (definition : WorkflowDefinition obj) : NodeMap obj :=
  dict_of ((fun n => (node_id n, n)) <$> nodes definition).

Definition collect_terminal_task_ids {obj} (child_definition : WorkflowDefinition obj)
    (child_prefix : string) (state : WalkState) : result string (list string) :=
  let '(adjacency, _, _) := build_adjacency_maps child_definition in
  terminal_ids adjacency (node_map_of child_definition) child_prefix state (nodes child_definition).

(** ** Errors, frames and the walking monad *)

Section Walk.
Context {obj : Type} `{PyObject obj} `{!SetOrder string} `{!SetOrder WorkflowEdgeType}.
Implicit Types (definition : WorkflowDefinition obj) (adjacency reverse_adj : Adjacency)
  (outgoing : gmap string (list (string * WorkflowEdgeType))) (node : WorkflowNode obj)
  (node_map : NodeMap obj).

(** [Unknown_node] is the [KeyError] of a lookup in [node_map]. [Out_of_fuel] is
    the model's: no activation ends in it. *)
Inductive WalkError :=
| Definition_not_found (definition_id : string)
| Definition_invalid (errors : list WorkflowValidationError)
| Graph_cycle
| Unknown_node (id : string)
| Condition_failed (nid : string) (e : ConditionError)
| Unknown_literal (nid field value : string)
| Task_data_invalid (nid : string)
| Create_failed (nid : string)
| No_registry (nid : string)
| Missing_subworkflow_id (nid : string)
| Missing_version (nid : string)
| Inputs_not_dict (nid : string)
| Outputs_not_dict (nid : string)
| SubworkflowDepthExceeded (depth max_depth : nat)
| SubworkflowNotFound (id version : string)
| SubworkflowIOError (e : BindingError)
| Frame_invalid
| Node_execution_invalid (e : RunModelError)
| Execution_invalid (e : RunModelError)
| Execution_not_saved (e : SaveError)
| Out_of_fuel.

Inductive ExecutionFrame := {
  workflow_id : string;
  workflow_version : string;
  variables : gmap string obj;
  parent_frame : option ExecutionFrame;
  depth : nat;
}.

(** The field constraints and [_validate_depth_matches_parent]. *)
Definition new_frame (frame : ExecutionFrame) : result WalkError ExecutionFrame :=
  ensure not_blank (workflow_id frame) && not_blank (workflow_version frame) else Frame_invalid in
  ensure match parent_frame frame with
         | None => depth frame =? 0
         | Some parent => depth frame =? depth parent + 1
         end else Frame_invalid in
  Ok frame.

(** What an activation accumulates: the walk state, and the tasks it had the
    engine create, each with the id it got. *)
Record Walk := { state : WalkState; created : list (CreateTaskData * string) }.

Definition Walking (A : Type) : Type := Walk -> Walk * result WalkError A.

#[export] Instance walking_ret : MRet Walking := fun A a w => (w, Ok a).
#[export] Instance walking_bind : MBind Walking := fun A B f m w =>
  match m w with
  | (w, Ok a) => f a w
  | (w, Err e) => (w, Err e)
  end.

Definition lift {A} (r : result WalkError A) : Walking A := fun w => (w, r).

(** Errors of the pure helpers, as the walk raises them. *)
Definition raised {E A} (f : E -> WalkError) (r : result E A) : Walking A :=
  lift (match r with Ok a => Ok a | Err e => Err (f e) end).

Definition update_state (f : WalkState -> WalkState) : Walking () :=
  fun w => ({| state := f (state w); created := created w |}, Ok ()).
Definition get_state : Walking WalkState := fun w => (w, Ok (state w)).

(** The mutable locals of one frame's walk. *)
Record Local := {
  frame_ctx : gmap string obj;
  frame_node_task_ids : gmap string TaskRef;
  skipped_nodes : gset string;
  pending_assignments : gmap string string;
}.

Definition with_skipped (l : Local) (skipped : gset string) : Local := {|
  frame_ctx := frame_ctx l; frame_node_task_ids := frame_node_task_ids l;
  skipped_nodes := skipped_nodes l ∪ skipped; pending_assignments := pending_assignments l |}.

Definition with_pending (l : Local) (pending : gmap string string) : Local := {|
  frame_ctx := frame_ctx l; frame_node_task_ids := frame_node_task_ids l;
  skipped_nodes := skipped_nodes l; pending_assignments := pending |}.

(** The model's construction of a node execution, with its validator. *)
Definition new_node_execution (ne : WorkflowNodeExecution) : result WalkError WorkflowNodeExecution :=
  ensure node_fields_ok ne else Node_execution_invalid Node_field_blank in
  match validate_node ne with
  | Ok _ => Ok ne
  | Err e => Err (Node_execution_invalid e)
  end.

(** A node execution without a task. *)
Definition plain_execution (nid : string) (t : WorkflowNodeType) (status : NodeStatus.WorkflowNodeExecutionStatus)
    : result WalkError WorkflowNodeExecution :=
  new_node_execution {| ne_node_id := nid; ne_node_type := t; ne_status := status;
                        ne_task_id := None; ne_skipped_reason := None |}.

(** [model_copy(update={"node_id": qualified_id})]. *)
Definition requalify (qualified_id : string) (ne : WorkflowNodeExecution) : WorkflowNodeExecution := {|
  ne_node_id := qualified_id; ne_node_type := ne_node_type ne; ne_status := ne_status ne;
  ne_task_id := ne_task_id ne; ne_skipped_reason := ne_skipped_reason ne |}.

(** ** Branching nodes *)

(** The last target with an edge of the type. *)
Definition target_of (t : WorkflowEdgeType) (outs : list (string * WorkflowEdgeType)) : option string :=
  foldl (fun acc '(target_id, edge_type) => if decide (edge_type = t) then Some target_id else acc) None outs.

(** [evaluate_condition] on the objects of the frame; it always ends. *)
Definition condition_value (expr : string) (ctx : gmap string obj) : result ConditionError bool :=
  default (Ok false) (evaluate_condition truthy str expr ctx).

Definition process_conditional_node (nid : string) node (ctx : gmap string obj) outgoing adjacency
    (l : Local) : result WalkError (Local * WorkflowNodeExecution) :=
  let expr := from_option str "false"%string (config node !! "condition_expression"%string) in
  match condition_value expr ctx with
  | Err e => Err (Condition_failed nid e)
  | Ok res =>
      let true_target := target_of CONDITIONAL_TRUE (adjacent outgoing nid) in
      let false_target := target_of CONDITIONAL_FALSE (adjacent outgoing nid) in
      let '(taken, untaken) := if res then (true_target, false_target) else (false_target, true_target) in
      let l := match untaken, taken with
               | Some u, Some t => with_skipped l (find_skipped_nodes u t adjacency)
               | _, _ => l
               end in
      let* ne := plain_execution nid (node_type node) NodeStatus.COMPLETED in
      Ok (l, ne)
  end.

Definition verdict_edge (v : VerificationVerdict) : WorkflowEdgeType :=
  match v with
  | VerificationVerdict.PASS => VERIFICATION_PASS
  | VerificationVerdict.FAIL => VERIFICATION_FAIL
  | VerificationVerdict.REFER => VERIFICATION_REFER
  end.

Definition process_verification_node (nid : string) node outgoing adjacency (verdict : VerificationVerdict)
    (l : Local) : result WalkError (Local * WorkflowNodeExecution) :=
  let edge_target v := target_of (verdict_edge v) (adjacent outgoing nid) in
  let untaken_targets :=
    omap (fun v => if decide (v = verdict) then None else edge_target v) VerificationVerdict.members in
  let l := match edge_target verdict with
           | Some taken => foldl (fun l u => with_skipped l (find_skipped_nodes u taken adjacency)) l untaken_targets
           | None => l
           end in
  let* ne := plain_execution nid (node_type node) NodeStatus.COMPLETED in
  Ok (l, ne).

(** The override of the node's config; what is no verdict refers. *)
Definition node_verdict node : VerificationVerdict :=
  default VerificationVerdict.REFER
    (of_value verdict_value VerificationVerdict.members
      (from_option str "refer"%string (config node !! "_verdict_override"%string))).

(** ** Task nodes *)

Context (create_task : list (CreateTaskData * string) -> CreateTaskData -> option string).
Context (registry : option (string -> string -> option (WorkflowDefinition obj))).
Context (project activated_by : string) (max_subworkflow_depth : nat).

(** [if raw not in MAP: raise ValueError]. *)
Definition literal {A} (value : A -> string) (members : list A) (nid field raw : string) : result WalkError A :=
  match of_value value members raw with
  | Some a => Ok a
  | None => Err (Unknown_literal nid field raw)
  end.

Definition config_text (config : gmap string obj) (key default : string) : string :=
  from_option str default (config !! key).

Definition parse_task_config (config : gmap string obj) node (nid : string)
    : result WalkError (string * string * TaskType.TaskType * Priority.Priority * Complexity.Complexity) :=
  let title := config_text config "title" (node_label node) in
  let description := config_text config "description" (String.append "Task from workflow node " nid) in
  let* task_type := literal TaskType.task_type_value TaskType.members nid "task_type"
    (config_text config "task_type" "development") in
  let* priority := literal Priority.priority_value Priority.members nid "priority"
    (config_text config "priority" "medium") in
  let* complexity := literal Complexity.complexity_value Complexity.members nid "complexity"
    (config_text config "complexity" "medium") in
  Ok (title, description, task_type, priority, complexity).

(** The engine is called, and the task it made is logged. *)
Definition engine_create_task (nid : string) (d : CreateTaskData) : Walking string := fun w =>
  match create_task (created w) d with
  | Some t => ({| state := state w; created := created w ++ [(d, t)] |}, Ok t)
  | None => (w, Err (Create_failed nid))
  end.

Definition task_data (parsed : string * string * TaskType.TaskType * Priority.Priority * Complexity.Complexity)
    (assigned_to : option string) (dependencies : list string) : CreateTaskData :=
  let '(title, description, task_type, priority, complexity) := parsed in {|
    TaskEngine.data_title := title; TaskEngine.data_description := description;
    TaskEngine.data_type := task_type; TaskEngine.data_priority := priority;
    TaskEngine.data_project := project; TaskEngine.data_created_by := activated_by;
    TaskEngine.data_assigned_to := assigned_to; TaskEngine.data_dependencies := dependencies;
    TaskEngine.data_estimated_complexity := complexity;
    TaskEngine.data_acceptance_criteria := []; TaskEngine.data_budget_limit := 0 |}.

Definition process_task_node (nid : string) node reverse_adj node_map (l : Local)
    : Walking (Local * WorkflowNodeExecution) :=
  parsed ← lift (parse_task_config (config node) node nid);
  let assigned_to := pending_assignments l !! nid in
  upstream_ids ← raised Unknown_node
    (find_upstream_task_ids nid reverse_adj node_map (frame_node_task_ids l) (skipped_nodes l));
  let d := task_data parsed assigned_to upstream_ids in
  _ ← lift (ensure create_data_ok d else Task_data_invalid nid in Ok ());
  t ← engine_create_task nid d;
  ne ← lift (new_node_execution {|
    ne_node_id := nid; ne_node_type := node_type node; ne_status := NodeStatus.TASK_CREATED;
    ne_task_id := Some t; ne_skipped_reason := None |});
  mret ({| frame_ctx := frame_ctx l;
           frame_node_task_ids := <[nid := One t]> (frame_node_task_ids l);
           skipped_nodes := skipped_nodes l;
           pending_assignments := delete nid (pending_assignments l) |}, ne).

(** ** Assignments and subworkflows *)

Definition _handle_agent_assignment (nid qualified_id : string) node adjacency node_map (l : Local)
    : result WalkError (Local * WorkflowNodeExecution) :=
  let* l :=
    match config node !! "agent_name"%string with
    | Some agent_name =>
        if truthy agent_name then
          match find_downstream_task_ids nid adjacency node_map with
          | Ok task_targets =>
              Ok (with_pending l
                (foldl (fun p target_id => <[target_id := str agent_name]> p) (pending_assignments l) task_targets))
          | Err i => Err (Unknown_node i)
          end
        else Ok l
    | None => Ok l
    end in
  let* ne := plain_execution qualified_id (node_type node) NodeStatus.COMPLETED in
  Ok (l, ne).

(** [isinstance(v, str) and v.strip()]. *)
Definition text_of (o : option obj) : option string :=
  match o ≫= as_str with Some s => if is_blank s then None else Some s | None => None end.

Definition dict_of_config (o : option obj) : option (gmap string obj) :=
  match o with
  | Some o => match view o with V_mapping m => Some m | _ => None end
  | None => None
  end.

(** The pin of a subworkflow node and its bindings, checked in order. *)
Definition subworkflow_config (nid : string) (config : gmap string obj)
    : result WalkError (string * string * gmap string obj * gmap string obj) :=
  match text_of (config !! "subworkflow_id"%string) with
  | None => Err (Missing_subworkflow_id nid)
  | Some subworkflow_id =>
      match text_of (config !! "version"%string) with
      | None => Err (Missing_version nid)
      | Some version =>
          match dict_of_config (config !! "input_bindings"%string) with
          | None => Err (Inputs_not_dict nid)
          | Some input_bindings =>
              match dict_of_config (config !! "output_bindings"%string) with
              | None => Err (Outputs_not_dict nid)
              | Some output_bindings => Ok (subworkflow_id, version, input_bindings, output_bindings)
              end
          end
      end
  end.

Section Frame.
(** The walk of a child frame. *)
Context (walk_child : WorkflowDefinition obj -> ExecutionFrame -> string -> Walking (gmap string obj)).

Definition _process_subworkflow_node (nid qualified_id : string) node (frame : ExecutionFrame) (l : Local)
    : Walking (Local * WorkflowNodeExecution) :=
  get ← lift (match registry with None => Err (No_registry nid) | Some get => Ok get end);
  pin ← lift (subworkflow_config nid (config node));
  let '(subworkflow_id, version, input_bindings, output_bindings) := pin in
  let next_depth := depth frame + 1 in
  _ ← lift (ensure next_depth <=? max_subworkflow_depth
    else SubworkflowDepthExceeded next_depth max_subworkflow_depth in Ok ());
  child_definition ← lift (match get subworkflow_id version with
                           | None => Err (SubworkflowNotFound subworkflow_id version)
                           | Some d => Ok d
                           end);
  resolved_inputs ← raised SubworkflowIOError
    (resolve_input_bindings input_bindings (frame_ctx l) (inputs child_definition));
  child_frame ← lift (new_frame {|
    workflow_id := wf_id child_definition; workflow_version := wf_version child_definition;
    variables := resolved_inputs; parent_frame := Some frame; depth := next_depth |});
  child_final_vars ← walk_child child_definition child_frame qualified_id;
  projected ← raised SubworkflowIOError
    (project_output_bindings output_bindings child_final_vars (outputs child_definition) (Some (frame_ctx l)));
  walked ← get_state;
  terminal_ids ← raised Unknown_node (collect_terminal_task_ids child_definition qualified_id walked);
  ne ← lift (plain_execution qualified_id SUBWORKFLOW NodeStatus.SUBWORKFLOW_COMPLETED);
  mret ({| frame_ctx := projected ∪ frame_ctx l;
           frame_node_task_ids := if decide (terminal_ids = []) then frame_node_task_ids l
                                  else <[nid := Many terminal_ids]> (frame_node_task_ids l);
           skipped_nodes := skipped_nodes l;
           pending_assignments := pending_assignments l |}, ne).

(** The handler registered for the node's type. *)
Definition _process_node_in_frame (nid qualified_id : string) node adjacency reverse_adj outgoing
    (frame : ExecutionFrame) node_map (l : Local) : Walking (Local * WorkflowNodeExecution) :=
  let requalified r := match r with Ok (l, ne) => Ok (l, requalify qualified_id ne) | Err e => Err e end in
  match node_type node with
  | START | END | PARALLEL_SPLIT | PARALLEL_JOIN =>
      ne ← lift (plain_execution qualified_id (node_type node) NodeStatus.COMPLETED);
      mret (l, ne)
  | AGENT_ASSIGNMENT => lift (_handle_agent_assignment nid qualified_id node adjacency node_map l)
  | VERIFICATION =>
      lift (requalified (process_verification_node nid node outgoing adjacency (node_verdict node) l))
  | CONDITIONAL =>
      lift (requalified (process_conditional_node nid node (frame_ctx l) outgoing adjacency l))
  | SUBWORKFLOW => _process_subworkflow_node nid qualified_id node frame l
  | TASK =>
      done ← process_task_node nid node reverse_adj node_map l;
      mret (done.1, requalify qualified_id done.2)
  end.

(** The loop of [_walk_frame] over the nodes in topological order. *)
Fixpoint walk_nodes adjacency reverse_adj outgoing (frame : ExecutionFrame) (qualifier_prefix : string)
    node_map (ids : list string) (l : Local) : Walking Local :=
  match ids with
  | [] => mret l
  | nid :: ids =>
      let qualified := qualify_id qualifier_prefix nid in
      node ← lift (match node_map !! nid with Some n => Ok n | None => Err (Unknown_node nid) end);
      l ← (if decide (nid ∈ skipped_nodes l) then
             ne ← lift (new_node_execution {|
               ne_node_id := qualified; ne_node_type := node_type node; ne_status := NodeStatus.SKIPPED;
               ne_task_id := None; ne_skipped_reason := Some "Conditional branch not taken"%string |});
             _ ← update_state (fun s => _record_node s qualified ne);
             mret l
           else
             done ← _process_node_in_frame nid qualified node adjacency reverse_adj outgoing frame node_map l;
             _ ← update_state (fun s => _record_node s qualified done.2);
             mret done.1);
      walk_nodes adjacency reverse_adj outgoing frame qualifier_prefix node_map ids l
  end.
End Frame.

Definition initial_local (frame : ExecutionFrame) : Local := {|
  frame_ctx := variables frame; frame_node_task_ids := ∅; skipped_nodes := ∅; pending_assignments := ∅ |}.

(** Each level of fuel is one level of nesting. *)
Fixpoint _walk_frame (fuel : nat) definition (frame : ExecutionFrame) (qualifier_prefix : string)
    : Walking (gmap string obj) :=
  match fuel with
  | O => lift (Err Out_of_fuel)
  | S fuel =>
      let '(adjacency, reverse_adj, outgoing) := build_adjacency_maps definition in
      sorted_ids ← raised (fun _ => Graph_cycle) (topological_sort (node_id <$> nodes definition) adjacency);
      l ← walk_nodes (_walk_frame fuel) adjacency reverse_adj outgoing frame qualifier_prefix
            (node_map_of definition) sorted_ids (initial_local frame);
      mret (frame_ctx l)
  end.

(** ** Activation *)

Context (definition_repo : string -> option (WorkflowDefinition obj)).

Definition _load_and_validate (definition_id : string) : result WalkError (WorkflowDefinition obj) :=
  match definition_repo definition_id with
  | None => Err (Definition_not_found definition_id)
  | Some definition =>
      let errors := validate_workflow definition in
      ensure bool_decide (errors = []) else Definition_invalid errors in
      Ok definition
  end.

Definition root_frame definition (ctx : gmap string obj) : ExecutionFrame := {|
  workflow_id := wf_id definition; workflow_version := wf_version definition;
  variables := ctx; parent_frame := None; depth := 0 |}.

(** The execution of a finished walk. *)
Definition new_execution definition (execution_id : string) (now : Z) (s : WalkState) : WorkflowExecution :=
  let idle := bool_decide (node_task_ids s = ∅) in {|
  ex_id := execution_id; ex_definition_id := wf_id definition;
  ex_definition_revision := wf_revision definition;
  ex_status := if idle then RunStatus.COMPLETED else RunStatus.RUNNING;
  node_executions := omap (fun key => node_exec_map s !! key) (ordered_keys s);
  ex_activated_by := activated_by; ex_project := project; ex_created_at := now; ex_updated_at := now;
  ex_completed_at := if idle then Some now else None; ex_error := None; ex_version := 1 |}.

(** The walk and the construction; [execution_id] is the fresh [uuid4] and
    [now] the time. *)
Definition prepare (definition_id execution_id : string) (context : gmap string obj) (now : Z)
    : Walking WorkflowExecution :=
  definition ← lift (_load_and_validate definition_id);
  frame ← lift (new_frame (root_frame definition context));
  _ ← _walk_frame (S max_subworkflow_depth) definition frame EmptyString;
  s ← get_state;
  let execution := new_execution definition execution_id now s in
  _ ← lift (match validate_execution execution with Ok _ => Ok () | Err e => Err (Execution_invalid e) end);
  mret execution.

(** The tasks created, the rows and the result. *)
Definition activate (rows : Rows) (definition_id execution_id : string) (context : gmap string obj) (now : Z)
    : list (CreateTaskData * string) * Rows * result WalkError WorkflowExecution :=
  match prepare definition_id execution_id context now {| state := empty_state; created := [] |} with
  | (w, Err e) => (created w, rows, Err e)
  | (w, Ok execution) =>
      match save_row rows execution with
      | (rows, Ok _) => (created w, rows, Ok execution)
      | (rows, Err e) => (created w, rows, Err (Execution_not_saved e))
      end
  end.
End Walk.
