(* ===== verification/WorkflowActivation.v ===== *)
(** * WorkflowActivation

    What an activation does: which nodes a branch leaves behind, which tasks a
    task created_waits for, who it is assigned to, how deep the walk goes, and the run
    it stores. *)

From stdpp Require Import gmap strings list sorting relations.
From Stdlib Require Import ZArith QArith Ascii Lia.
From S2P Require Import Prelude TaskEnums PlanUnits Graphs TaskModel.
From S2P Require TaskEngine.
From S2P Require Import ConditionEval WorkflowModel WorkflowGraph WorkflowRuns WorkflowBindings WorkflowWalk.
Import TaskEngine (CreateTaskData, create_data_ok, data_dependencies).
Import WorkflowNodeType WorkflowEdgeType.
#[local] Open Scope py_scope.
#[local] Open Scope nat_scope.

(** ** The searches *)

(** Reaching while staying out of a set. *)
Lemma reached_avoiding (S : gset string) next roots x :
  reached (fun i => bool_decide (i ∈ S)) next roots x <->
  exists r, r ∈ roots /\ r ∉ S /\ rtc (fun a b => b ∈ next a /\ b ∉ S) r x.
Proof.
  unfold reached. split; intros (r & Hr & Hs & Hp); exists r.
  - apply bool_decide_eq_false in Hs. split_and!; [done|done|]. revert Hp. apply rtc_subrel.
    by intros a b [? ?%bool_decide_eq_false].
  - split_and!; [done|by apply bool_decide_eq_false|]. revert Hp. apply rtc_subrel.
    intros a b [? ?]. split; [done|by apply bool_decide_eq_false].
Qed.

Section Skips.
Implicit Types (adjacency : Adjacency).

(** Reached through the branch not taken and not through the one taken. *)
Definition left_behind adjacency (taken untaken x : string) : Prop :=
  rtc (edge (adjacent adjacency)) untaken x /\ ~ rtc (edge (adjacent adjacency)) taken x.

Lemma follow_all adjacency (skip : string -> bool) roots :
  exists visited out,
    search (A:=unit) skip (fun _ nid => Ok ([], adjacent adjacency nid)) adjacency roots = Ok (visited, out) /\
    forall x, x ∈ visited <-> reached skip (adjacent adjacency) roots x.
Proof.
  destruct (search_ok (A:=unit) skip (fun _ nid => Ok ([], adjacent adjacency nid)) adjacency
    (fun _ => True) (fun _ => []) (adjacent adjacency)) with (roots := roots) as (v & out & -> & Hv & _).
  - intros visited x _. eexists. split; [done|]. split_and!; [done|done|by left].
  - done.
  - done.
  - by exists v, out.
Qed.

Lemma find_skipped_ok untaken taken adjacency x :
  x ∈ find_skipped_nodes untaken taken adjacency <-> left_behind adjacency taken untaken x.
Proof.
  unfold find_skipped_nodes, left_behind.
  destruct (follow_all adjacency (fun _ => false) [taken]) as (T & ? & -> & HT). simpl.
  assert (HT' : forall y, y ∈ T <-> rtc (edge (adjacent adjacency)) taken y).
  { intros y. rewrite HT. unfold reached, leads. split.
    - intros (r & ->%list_elem_of_singleton & _ & Hp). revert Hp. apply rtc_subrel. by intros a b [].
    - intros Hp. exists taken. split_and!; [by left|done|]. revert Hp. apply rtc_subrel. by intros a b. }
  destruct (follow_all adjacency (fun nid => bool_decide (nid ∈ T)) [untaken]) as (S & ? & -> & HS). simpl.
  rewrite HS, <-HT', reached_avoiding. split.
  - intros (r & ->%list_elem_of_singleton & Hr & Hp). split.
    + revert Hp. apply rtc_subrel. by intros a b [].
    + apply rtc_inv_r in Hp as [<-|(y & _ & [_ Hx])]; done.
  - intros [Hp Hx]. exists untaken. split_and!; [by left| |].
    + rewrite HT' in Hx |- *. intros Ht. apply Hx. by etrans.
    + clear HS. revert Hx. induction Hp as [y|y z w Hyz Hp IH]; [by constructor|]. intros Hx.
      eapply rtc_l; [|by apply IH]. split; [done|]. rewrite HT' in Hx |- *.
      intros Ht. apply Hx. by etrans.
Qed.
End Skips.

Lemma target_of_elem t outs i : target_of t outs = Some i -> (i, t) ∈ outs.
Proof.
  unfold target_of. induction outs as [|[j s] outs IH] using rev_ind; [done|].
  rewrite foldl_app. simpl. case_decide as E; intros Hi; apply elem_of_app.
  - right. injection Hi as ->. subst. by left.
  - left. auto.
Qed.

Section Graph.
Context {obj : Type} (d : WorkflowDefinition obj) (Hd : graph_valid d).

Notation ids := (node_id <$> nodes d).

Lemma node_map_lookup i n : node_map_of d !! i = Some n <-> n ∈ nodes d /\ node_id n = i.
Proof.
  unfold node_map_of. pose proof (gv_nodes d Hd) as Hnd. split.
  - intros Hi. assert (i ∈ ((fun n => (node_id n, n)) <$> nodes d).*1) as Hk by (apply dict_of_is_Some; by exists n).
    rewrite <-list_fmap_compose in Hk. apply list_elem_of_fmap in Hk as (m & -> & Hm). simpl in *.
    rewrite (dict_of_fmap node_id (fun n => n)) in Hi by done. injection Hi as <-. done.
  - intros [Hn <-]. by apply (dict_of_fmap node_id (fun n => n)).
Qed.

Lemma node_map_known i : i ∈ ids <-> exists n, node_map_of d !! i = Some n.
Proof. setoid_rewrite node_map_lookup. rewrite list_elem_of_fmap. naive_solver. Qed.

Lemma edges_inside x y : y ∈ adjacent (adjacency_of d) x -> x ∈ ids /\ y ∈ ids.
Proof.
  rewrite adjacency_targets, targets_elem. intros (e & He & <- & <-). by destruct (gv_known d Hd e He) as (_ & ? & ?).
Qed.

Lemma sources_inside i j : i ∈ sources d j -> i ∈ ids /\ j ∈ ids.
Proof. rewrite sources_elem, <-adjacency_targets. apply edges_inside. Qed.

(** The sorted nodes come after their sources. *)
Lemma sorted_order l :
  topological_sort ids (adjacency_of d) = Ok l -> l ≡ₚ ids /\ ordered (sources d) l.
Proof.
  intros Hl. destruct (workflow_sort_cases ids (gv_nodes d Hd) (adjacency_of d) edges_inside)
    as [(l' & Hl' & Hp & Ho & _)|[Hl' _]]; rewrite Hl in Hl'; [|done]. injection Hl' as <-.
  split; [done|]. intros l1 x l2 E y Hy. apply (Ho l1 x l2 E). apply preds_elem.
  by rewrite adjacency_targets, <-sources_elem.
Qed.

(** *** The nearest tasks before a node *)

Implicit Types (refs : gmap string TaskRef) (skipped : gset string).

(** [m] feeds [n]: from [m] a path leads to [n] through nodes that are not
    skipped and have no tasks. *)
Inductive feeds skipped refs : string -> string -> Prop :=
| feeds_edge m n : m ∈ sources d n -> m ∉ skipped -> feeds skipped refs m n
| feeds_hop m p n :
    p ∈ sources d n -> p ∉ skipped -> refs !! p = None -> feeds skipped refs m p -> feeds skipped refs m n.

(** The task [x] is among the nearest before [n]. *)
Definition nearest skipped refs (n x : string) : Prop :=
  exists m ref, feeds skipped refs m n /\ refs !! m = Some ref /\ x ∈ _flatten_task_ids ref.

(** Only nodes that make tasks have an entry. *)
Definition refs_typed refs : Prop :=
  forall n, n ∈ nodes d -> is_Some (refs !! node_id n) -> node_type n = TASK \/ node_type n = SUBWORKFLOW.

Definition back refs (i : string) : list string :=
  match refs !! i with Some _ => [] | None => sources d i end.

Lemma feeds_reached skipped refs m n :
  feeds skipped refs m n <->
  reached (fun i => bool_decide (i ∈ skipped)) (back refs) (sources d n) m.
Proof.
  rewrite reached_avoiding. split.
  - induction 1 as [m n Hm Hs|m p n Hp Hs Hr _ (r & Hin & Hrs & Hpath)]; [by exists m|].
    exists p. split_and!; [done|done|]. eapply rtc_l; [|done]. split; [|done].
    unfold back. by rewrite Hr.
  - intros (r & Hin & Hs & Hpath). revert n Hin Hs.
    induction Hpath as [x|x y z [Hxy Hy] _ IH]; intros n Hin Hs; [by apply feeds_edge|].
    unfold back in Hxy. destruct (refs !! x) eqn:E; [by apply not_elem_of_nil in Hxy|].
    apply (feeds_hop _ _ z x); [done..|]. by apply IH.
Qed.

Lemma node_type_cases (t : WorkflowNodeType) : t ∈ CONTROL_NODE_TYPES \/ t = TASK \/ t = SUBWORKFLOW.
Proof. destruct t; try (right; (by left) || (by right)); left; by apply (bool_decide_unpack _). Qed.

Lemma find_upstream_ok n skipped refs :
  refs_typed refs ->
  exists ups, find_upstream_task_ids n (reverse_of d) (node_map_of d) refs skipped = Ok ups /\
    Sorted str_le ups /\ NoDup ups /\ forall x, x ∈ ups <-> nearest skipped refs n x.
Proof.
  intros Hrefs. unfold find_upstream_task_ids. rewrite (reverse_sources d n).
  match goal with |- context [search ?skip ?visit _ _] =>
    destruct (search_ok skip visit (reverse_of d) (fun i => i ∈ ids)
      (fun i => from_option _flatten_task_ids [] (refs !! i)) (back refs))
      with (roots := sources d n) as (v & out & -> & Hv & order & -> & _ & Hord) end.
  - intros visited x Hx. apply node_map_known in Hx as [nd Hnd]. rewrite Hnd.
    apply node_map_lookup in Hnd as [Hin <-]. specialize (Hrefs nd Hin). unfold back.
    rewrite (reverse_sources d (node_id nd)).
    destruct (refs !! node_id nd) as [ref|] eqn:Er.
    + rewrite decide_True by (by apply Hrefs). eexists. split; [done|]. simpl. split_and!; [lia|set_solver|set_solver].
    + exists (sources d (node_id nd)). split_and!; [|done|done|by left].
      case_decide as Ht; [done|]. rewrite decide_True; [done|]. destruct (node_type_cases (node_type nd)); tauto.
  - intros x y _. unfold back. destruct (refs !! x); [by intros ?%not_elem_of_nil|]. by intros [? _]%sources_inside.
  - intros r Hr. by apply sources_inside in Hr as [].
  - simpl. eexists. split; [done|]. split_and!.
    + apply sort_str_sorted.
    + rewrite sort_str_perm. apply NoDup_remove_dups.
    + intros x. rewrite sort_str_perm, elem_of_remove_dups, elem_of_flat_map. unfold nearest.
      setoid_rewrite Hord. setoid_rewrite Hv. setoid_rewrite <-feeds_reached. split.
      * intros (m & Hm & Hx). destruct (refs !! m) as [ref|] eqn:E; simpl in Hx; [by exists m, ref|].
        by apply not_elem_of_nil in Hx.
      * intros (m & ref & Hm & E & Hx). exists m. by rewrite E.
Qed.

(** Looking back from a node depends only on its ancestors. *)
Lemma feeds_ancestors skipped refs skipped' refs' (past : list string) m n :
  (forall x y, x ∈ past -> y ∈ sources d x -> y ∈ past) -> (forall y, y ∈ sources d n -> y ∈ past) ->
  (forall i, i ∈ past -> (i ∈ skipped <-> i ∈ skipped') /\ refs !! i = refs' !! i) ->
  feeds skipped refs m n -> feeds skipped' refs' m n /\ m ∈ past.
Proof.
  intros Hclosed Hn Hsame. induction 1 as [m n Hm Hs|m p n Hp Hs Hr _ IH].
  - split; [|by apply Hn]. apply feeds_edge; [done|]. by rewrite <-(proj1 (Hsame m (Hn m Hm))).
  - destruct IH as [? ?]; [eauto|]. split; [|done].
    destruct (Hsame p (Hn p Hp)) as [Hsk Hrf]. apply (feeds_hop _ _ m p); [done|by rewrite <-Hsk|congruence|done].
Qed.

Lemma nearest_ancestors skipped refs skipped' refs' (past : list string) n x :
  (forall x y, x ∈ past -> y ∈ sources d x -> y ∈ past) -> (forall y, y ∈ sources d n -> y ∈ past) ->
  (forall i, i ∈ past -> (i ∈ skipped <-> i ∈ skipped') /\ refs !! i = refs' !! i) ->
  nearest skipped refs n x <-> nearest skipped' refs' n x.
Proof.
  intros Hclosed Hn Hsame. unfold nearest. split; intros (m & ref & Hm & Hr & Hx).
  - apply (feeds_ancestors _ _ skipped' refs' past) in Hm as [Hm Hp]; [|done..].
    exists m, ref. split_and!; [done| |done]. by rewrite <-(proj2 (Hsame m Hp)).
  - apply (feeds_ancestors _ _ skipped refs past) in Hm as [Hm Hp]; [|done..|].
    + exists m, ref. split_and!; [done| |done]. by rewrite (proj2 (Hsame m Hp)).
    + intros i Hi. destruct (Hsame i Hi). by split; [symmetry|].
Qed.

(** *** The tasks an assignment reaches *)

Definition kind (i : string) : option WorkflowNodeType := node_type <$> node_map_of d !! i.

(** An assignment passes through a control node that is not an assignment. *)
Definition passes (i : string) : Prop :=
  exists t, kind i = Some t /\ t ∈ CONTROL_NODE_TYPES /\ t <> AGENT_ASSIGNMENT.

Inductive hands : string -> string -> Prop :=
| hands_edge a t : t ∈ targets d a -> kind t = Some TASK -> hands a t
| hands_hop a p t : p ∈ targets d a -> passes p -> hands p t -> hands a t.

Definition onward (i : string) : list string :=
  match kind i with
  | Some t => if decide (t ∈ CONTROL_NODE_TYPES /\ t <> AGENT_ASSIGNMENT) then targets d i else []
  | None => []
  end.

Lemma hands_reached a t :
  hands a t <-> kind t = Some TASK /\ reached (fun _ => false) onward (targets d a) t.
Proof.
  unfold reached, leads. split.
  - induction 1 as [a t Ht Hk|a p t Hp (k & Hk & Hc) _ [Ht (r & Hr & _ & Hpath)]]; (split; [done|]).
    + by exists t.
    + exists p. split_and!; [done|done|]. eapply rtc_l; [|done]. split; [|done]. unfold onward.
      by rewrite Hk, decide_True.
  - intros [Hk (r & Hr & _ & Hpath)]. revert a Hr.
    induction Hpath as [x|x y z [Hxy _] _ IH]; intros a Hr; [by apply hands_edge|].
    unfold onward in Hxy. destruct (kind x) as [k|] eqn:E; [|by apply not_elem_of_nil in Hxy].
    case_decide; [|by apply not_elem_of_nil in Hxy]. apply (hands_hop _ x); [done|by exists k|auto].
Qed.

Lemma targets_inside i j : j ∈ targets d i -> i ∈ ids /\ j ∈ ids.
Proof. rewrite <-adjacency_targets. apply edges_inside. Qed.

Lemma control_no_task t : t ∈ CONTROL_NODE_TYPES -> t <> TASK.
Proof. intros Ht ->. revert Ht. apply (bool_decide_unpack _). by vm_compute. Qed.

Lemma find_downstream_ok a :
  exists ts, find_downstream_task_ids a (adjacency_of d) (node_map_of d) = Ok ts /\
    forall t, t ∈ ts <-> hands a t.
Proof.
  unfold find_downstream_task_ids. rewrite (adjacency_targets d a).
  match goal with |- context [search ?skip ?visit _ _] =>
    destruct (search_ok skip visit (adjacency_of d) (fun i => i ∈ ids)
      (fun i => if decide (kind i = Some TASK) then [i] else []) onward)
      with (roots := targets d a) as (v & out & -> & Hv & order & -> & _ & Hord) end.
  - intros visited x Hx. apply node_map_known in Hx as [nd Hnd]. unfold onward, kind. rewrite Hnd. simpl.
    rewrite (adjacency_targets d x).
    assert (Hnil : forall visited : gset string, length (@nil string) <= length (targets d x) /\
      (forall y, y ∈ @nil string -> y ∈ @nil string) /\ (forall y, y ∈ @nil string -> y ∈ @nil string \/ y ∈ visited))
      by (intros; split_and!; [simpl; lia|done|by left]).
    destruct (decide (node_type nd = TASK)) as [E|E].
    { rewrite E, !(decide_True (P:=Some TASK = Some TASK)), decide_False by (done || by intros [?%control_no_task _]).
      exists []. by split. }
    rewrite (decide_False (P:=Some (node_type nd) = Some TASK)) by congruence.
    destruct (decide (node_type nd = AGENT_ASSIGNMENT)) as [E'|E'].
    { rewrite decide_False by by intros []. exists []. by split. }
    destruct (decide (node_type nd ∈ CONTROL_NODE_TYPES)) as [E''|E''].
    { rewrite decide_True by done. exists (targets d x). split_and!; [done|done|done|by left]. }
    rewrite decide_False by by intros []. exists []. by split.
  - intros x y _. unfold onward. destruct (kind x); [|by intros ?%not_elem_of_nil].
    case_decide; [|by intros ?%not_elem_of_nil]. by intros [_ ?]%targets_inside.
  - intros r Hr. by apply targets_inside in Hr as [].
  - simpl. eexists. split; [done|]. intros t. rewrite elem_of_flat_map, hands_reached.
    setoid_rewrite Hord. setoid_rewrite Hv. split.
    + intros (x & Hx & Ht). case_decide; [|by apply not_elem_of_nil in Ht].
      by apply list_elem_of_singleton in Ht as ->.
    + intros [Hk Hr]. exists t. split; [done|]. rewrite decide_True by done. by left.
Qed.

Lemma hands_path a t : hands a t -> tc (fun x y => y ∈ targets d x) a t.
Proof. induction 1; [by apply tc_once|by eapply tc_l]. Qed.
End Graph.

(** ** Reasoning about walks *)

(** What holds of the outcome of a walk from [w]. *)
Definition wp {A} (m : Walking A) (w : Walk) (Q : A -> Walk -> Prop) (X : WalkError -> Walk -> Prop) : Prop :=
  match m w with
  | (w', Ok a) => Q a w'
  | (w', Err e) => X e w'
  end.

Section Logic.
Context {A B : Type}.
Implicit Types (m : Walking A) (f : A -> Walking B) (Q : A -> Walk -> Prop) (X : WalkError -> Walk -> Prop).

Lemma wp_bind m f w (Q : B -> Walk -> Prop) X :
  wp m w (fun a w' => wp (f a) w' Q X) X -> wp (m ≫= f) w Q X.
Proof. unfold wp, mbind, walking_bind. by destruct (m w) as [w' [a|e]]. Qed.

Lemma wp_ret (a : A) w Q X : Q a w -> wp (mret a) w Q X.
Proof. done. Qed.

Lemma wp_lift (r : result WalkError A) w Q X :
  (forall a, r = Ok a -> Q a w) -> (forall e, r = Err e -> X e w) -> wp (lift r) w Q X.
Proof. unfold wp, lift. destruct r; auto. Qed.

Lemma wp_raised {E} (g : E -> WalkError) (r : result E A) w Q X :
  (forall a, r = Ok a -> Q a w) -> (forall e, r = Err e -> X (g e) w) -> wp (raised g r) w Q X.
Proof. unfold wp, raised, lift. destruct r; auto. Qed.

Lemma wp_mono m w Q Q' X X' :
  wp m w Q X -> (forall a w', Q a w' -> Q' a w') -> (forall e w', X e w' -> X' e w') -> wp m w Q' X'.
Proof. unfold wp. destruct (m w) as [w' [a|e]]; auto. Qed.
End Logic.

(** ** The log and the state stay in order *)

(** Every task is created with valid data, and waits for tasks created before
    it only. *)
Record log_ok (log : list (CreateTaskData * string)) : Prop := {
  lo_data : forall c t, (c, t) ∈ log -> create_data_ok c = true;
  lo_earlier : forall l1 c t l2, log = l1 ++ (c, t) :: l2 -> forall x, x ∈ data_dependencies c -> x ∈ l1.*2;
}.

Lemma log_ok_nil : log_ok [].
Proof. split; [by intros ? ? ?%not_elem_of_nil|]. by intros [] ? ? ? ?. Qed.

Lemma log_ok_snoc log c t :
  log_ok log -> create_data_ok c = true -> (forall x, x ∈ data_dependencies c -> x ∈ log.*2) ->
  log_ok (log ++ [(c, t)]).
Proof.
  intros [Hd He] Hc Hx. split.
  - intros c' t' [?|[= -> ->]%list_elem_of_singleton]%elem_of_app; eauto.
  - intros l1 c' t' l2 E. destruct l2 as [|p l2 _] using rev_ind.
    + apply app_inj_tail in E as [-> [= -> ->]]. done.
    + rewrite app_comm_cons, app_assoc in E. apply app_inj_tail in E as [-> _]. by eapply He.
Qed.

(** The executions recorded so far, for the tasks in [ids]. *)
Record state_ok (s : WalkState) (ids : list string) : Prop := {
  so_keys : NoDup (ordered_keys s);
  so_recorded : forall k, k ∈ ordered_keys s <-> is_Some (node_exec_map s !! k);
  so_valid : forall k ne, node_exec_map s !! k = Some ne ->
    ne_node_id ne = k /\ node_fields_ok ne = true /\ validate_node ne = Ok ();
  so_refs : forall k r, node_task_ids s !! k = Some r -> exists t, r = One t /\ t ∈ ids;
}.

Definition good (w : Walk) : Prop := log_ok (created w) /\ state_ok (state w) (created w).*2.

(** A task that was created has been recorded. *)
Definition recorded (w : Walk) : Prop := created w = [] \/ node_task_ids (state w) <> ∅.

Lemma record_ok s ids k ne :
  state_ok s ids -> ne_node_id ne = k -> node_fields_ok ne = true -> validate_node ne = Ok () ->
  (forall t, ne_task_id ne = Some t -> t ∈ ids) -> state_ok (_record_node s k ne) ids.
Proof.
  intros [Hk Hr Hv Ht] Hid Hf Hval Hin. unfold _record_node. split; cbn [ordered_keys node_exec_map node_task_ids].
  - case_decide as Hs; [done|]. apply NoDup_app. split_and!; [done| |apply NoDup_singleton].
    intros x Hx ->%list_elem_of_singleton. by apply Hs, Hr.
  - intros k'. destruct (decide (k' = k)) as [->|Hne].
    + rewrite lookup_insert_eq. split; [done|]. intros _. case_decide as Hs; [by apply Hr|]. set_solver.
    + rewrite lookup_insert_ne by done. case_decide; [apply Hr|]. rewrite elem_of_app, Hr, list_elem_of_singleton. tauto.
  - intros k' ne'. destruct (decide (k' = k)) as [->|Hne].
    + rewrite lookup_insert_eq. by intros [= <-].
    + rewrite lookup_insert_ne by done. apply Hv.
  - intros k' r. destruct (ne_task_id ne) as [t|]; [|apply Ht].
    destruct (decide (k' = k)) as [->|Hne].
    + rewrite lookup_insert_eq. intros [= <-]. exists t. auto.
    + rewrite lookup_insert_ne by done. apply Ht.
Qed.

Lemma state_ok_mono s ids ids' : (forall x, x ∈ ids -> x ∈ ids') -> state_ok s ids -> state_ok s ids'.
Proof.
  intros Hi [Hk Hr Hv Ht]. split; [done..|]. intros k r (t & -> & Hin)%Ht. exists t. auto.
Qed.

Lemma recorded_record w k ne log :
  (is_Some (ne_task_id ne) \/ recorded {| state := state w; created := log |}) ->
  recorded {| state := _record_node (state w) k ne; created := log |}.
Proof.
  unfold recorded, _record_node. simpl. destruct (ne_task_id ne) as [t|].
  - intros _. right. apply insert_non_empty.
  - intros [[? [=]]|?]; tauto.
Qed.

Lemma strip_nil s : strip s = EmptyString <-> lstrip s = EmptyString.
Proof.
  unfold strip. split; [|by intros ->].
  induction s as [|c s IH]; simpl; [done|]. destruct (is_space c) eqn:Hc; [exact IH|]. simpl. rewrite Hc.
  by destruct (rstrip s).
Qed.

Lemma not_blank_append a b : not_blank b = true -> not_blank (String.append a b) = true.
Proof.
  unfold not_blank, is_blank. rewrite !nonblocking, !strip_nil. intros Hb Hab. apply Hb. clear Hb.
  induction a as [|c a IH]; [done|]. simpl in Hab. destruct (is_space c); [by apply IH|done].
Qed.

Lemma qualify_not_blank prefix i : not_blank i = true -> not_blank (qualify_id prefix i) = true.
Proof. intros Hi. unfold qualify_id. case_bool_decide; [done|]. by do 2 apply not_blank_append. Qed.

(** What the terminal tasks of a child are drawn from. *)
Lemma terminal_ids_drawn {obj} adjacency (node_map : NodeMap obj) prefix s ns ids x :
  terminal_ids adjacency node_map prefix s ns = Ok ids -> x ∈ ids ->
  exists k r, node_task_ids s !! k = Some r /\ x ∈ _flatten_task_ids r.
Proof.
  revert ids. induction ns as [|n ns IH]; intros ids; simpl; [by intros [= <-] ?%not_elem_of_nil|].
  case_decide; [|by apply IH]. rewrite rbind_ok. intros (b & _ & Hr).
  apply rbind_ok in Hr as (rest & Hrest & [= <-]). intros [Hx|Hx]%elem_of_app; [|by eapply IH].
  destruct b; [|by apply not_elem_of_nil in Hx].
  destruct (node_task_ids s !! qualify_id prefix (node_id n)) as [r|] eqn:E;
    [|by destruct (node_type n); apply not_elem_of_nil in Hx].
  exists (qualify_id prefix (node_id n)), r. split; [done|].
  destruct (node_type n), r; done || by apply not_elem_of_nil in Hx.
Qed.

(** ** One frame *)

Section Frame.
Context {obj : Type} `{PyObject obj}.
Context (create_task : list (CreateTaskData * string) -> CreateTaskData -> option string).
Context (registry : option (string -> string -> option (WorkflowDefinition obj))).
Context (project activated_by : string) (max_subworkflow_depth : nat).
Context (d : WorkflowDefinition obj) (Hd : graph_valid d).
Implicit Types (n : WorkflowNode obj) (refs : gmap string TaskRef) (skipped : gset string)
  (ctx : gmap string obj) (l : Local (obj:=obj)).

(** *** Branches *)

(** The branch a node takes and those it leaves, where it has both. *)
Definition decides ctx n : option (string * list string) :=
  let outs := adjacent (outgoing_of d) (node_id n) in
  match node_type n with
  | CONDITIONAL =>
      match condition_value (config_text (config n) "condition_expression" "false") ctx,
            target_of CONDITIONAL_TRUE outs, target_of CONDITIONAL_FALSE outs with
      | Ok true, Some t, Some f => Some (t, [f])
      | Ok false, Some t, Some f => Some (f, [t])
      | _, _, _ => None
      end
  | VERIFICATION =>
      match target_of (verdict_edge (node_verdict n)) outs with
      | Some t => Some (t, omap (fun v => if decide (v = node_verdict n) then None
                                          else target_of (verdict_edge v) outs) VerificationVerdict.members)
      | None => None
      end
  | _ => None
  end.

(** The nodes [n] leaves behind. *)
Definition leaves_behind ctx n (x : string) : Prop :=
  exists t us u, decides ctx n = Some (t, us) /\ u ∈ us /\ left_behind (adjacency_of d) t u x.

Lemma target_of_targets t i u : target_of t (adjacent (outgoing_of d) i) = Some u -> u ∈ targets d i.
Proof.
  intros Hu%target_of_elem. rewrite outgoing_edges in Hu.
  apply list_elem_of_fmap in Hu as (e & [= -> ->] & [Hs He]%list_elem_of_filter).
  apply targets_elem. by exists e.
Qed.

Lemma decides_targets ctx n t us u : decides ctx n = Some (t, us) -> u ∈ us -> u ∈ targets d (node_id n).
Proof.
  unfold decides. intros Hdec Hu. destruct (node_type n); try done.
  - repeat case_match; try done; injection Hdec as <- <-; apply list_elem_of_singleton in Hu as ->;
      by eapply target_of_targets.
  - destruct (target_of (verdict_edge (node_verdict n)) _) as [t'|]; [|done].
    apply (inj Some), pair_eq in Hdec as [_ <-]. apply list_elem_of_omap in Hu as (v & _ & Hv).
    case_decide; [done|]. by eapply target_of_targets.
Qed.

Lemma with_skipped_nil l : with_skipped l ∅ = l.
Proof. destruct l. unfold with_skipped. simpl. f_equal. set_solver. Qed.

Lemma with_skipped_more l X Y : with_skipped (with_skipped l X) Y = with_skipped l (X ∪ Y).
Proof. unfold with_skipped. simpl. f_equal. set_solver. Qed.

Lemma skip_all l taken us :
  exists X, foldl (fun l u => with_skipped l (find_skipped_nodes u taken (adjacency_of d))) l us = with_skipped l X /\
    forall x, x ∈ X <-> exists u, u ∈ us /\ left_behind (adjacency_of d) taken u x.
Proof.
  revert l. induction us as [|u us IH]; intros l; simpl.
  - exists ∅. split; [by rewrite with_skipped_nil|]. set_solver.
  - destruct (IH (with_skipped l (find_skipped_nodes u taken (adjacency_of d)))) as (X & -> & HX).
    eexists. split; [apply with_skipped_more|]. intros x. rewrite elem_of_union, HX, find_skipped_ok. set_solver.
Qed.

Lemma execution_plain i t s ne :
  plain_execution i t s = Ok ne ->
  ne = {| ne_node_id := i; ne_node_type := t; ne_status := s; ne_task_id := None; ne_skipped_reason := None |} /\
  node_fields_ok ne = true /\ validate_node ne = Ok ().
Proof.
  unfold plain_execution, new_node_execution. rewrite ensure_ok. intros [Hf Hv].
  destruct (validate_node _) as [[]|] eqn:E; [|done]. by injection Hv as <-.
Qed.

Definition live_status n : NodeStatus.WorkflowNodeExecutionStatus :=
  match node_type n with
  | TASK => NodeStatus.TASK_CREATED
  | SUBWORKFLOW => NodeStatus.SUBWORKFLOW_COMPLETED
  | _ => NodeStatus.COMPLETED
  end.

(** The execution of a node that was not skipped. *)
Definition node_done (qualified : string) (t : option string) n (ne : WorkflowNodeExecution) : Prop :=
  ne = {| ne_node_id := qualified; ne_node_type := node_type n; ne_status := live_status n;
          ne_task_id := t; ne_skipped_reason := None |} /\
  node_fields_ok ne = true /\ validate_node ne = Ok ().

Lemma requalify_done qualified n ne t i :
  node_done i t n ne -> not_blank qualified = true -> node_done qualified t n (requalify qualified ne).
Proof.
  intros (-> & Hf & Hv) Hq. split_and!; [done| |done].
  unfold node_fields_ok in *. simpl in *. rewrite Hq. by apply andb_true_iff in Hf as [[_ ->]%andb_true_iff _].
Qed.

Lemma conditional_ok n l l' ne :
  node_type n = CONDITIONAL ->
  process_conditional_node (node_id n) n (frame_ctx l) (outgoing_of d) (adjacency_of d) l = Ok (l', ne) ->
  node_done (node_id n) None n ne /\
  exists X, l' = with_skipped l X /\ forall x, x ∈ X <-> leaves_behind (frame_ctx l) n x.
Proof.
  intros Ht. unfold process_conditional_node, leaves_behind, decides. rewrite Ht. unfold config_text.
  destruct (condition_value _ _) as [res|]; [|done].
  set (tt_ := target_of CONDITIONAL_TRUE _). set (ft := target_of CONDITIONAL_FALSE _).
  intros Hr. assert (exists l1 ne1, plain_execution (node_id n) CONDITIONAL NodeStatus.COMPLETED = Ok ne1 /\
    (l1, ne1) = (l', ne) /\ l1 = match (if res then ft else tt_), (if res then tt_ else ft) with
      | Some u, Some t => with_skipped l (find_skipped_nodes u t (adjacency_of d)) | _, _ => l end)
    as (l1 & ne1 & Hp & [= -> ->] & ->).
  { destruct res; apply rbind_ok in Hr as (ne1 & Hp & [= Hl Hn]); eexists _, ne1; split_and!; try done; congruence. }
  apply execution_plain in Hp. split; [unfold node_done, live_status; by rewrite Ht|].
  destruct res, tt_ as [t|], ft as [f|];
    try (exists ∅; rewrite with_skipped_nil; split; [done|]; intros x; split; [by intros ?%not_elem_of_empty|];
         intros (? & ? & ? & [=] & _)).
  - eexists. split; [done|]. intros x. rewrite find_skipped_ok. split.
    + intros Hx. exists t, [f], f. split_and!; [done|by left|done].
    + by intros (? & ? & ? & [= <- <-] & ->%list_elem_of_singleton & ?).
  - eexists. split; [done|]. intros x. rewrite find_skipped_ok. split.
    + intros Hx. exists f, [t], t. split_and!; [done|by left|done].
    + by intros (? & ? & ? & [= <- <-] & ->%list_elem_of_singleton & ?).
Qed.

Lemma verification_ok n l l' ne :
  node_type n = VERIFICATION ->
  process_verification_node (node_id n) n (outgoing_of d) (adjacency_of d) (node_verdict n) l = Ok (l', ne) ->
  node_done (node_id n) None n ne /\
  exists X, l' = with_skipped l X /\ forall x, x ∈ X <-> leaves_behind (frame_ctx l) n x.
Proof.
  intros Ht. unfold process_verification_node, leaves_behind, decides. rewrite Ht, rbind_ok.
  intros (ne1 & Hne%execution_plain & [= <- <-]). split; [unfold node_done, live_status; by rewrite Ht|].
  destruct (target_of (verdict_edge (node_verdict n)) _) as [t|].
  - match goal with |- context [foldl _ l ?us] => destruct (skip_all l t us) as (X & -> & HX) end.
    exists X. split; [done|]. intros x. rewrite HX. split.
    + intros (u & Hu & Hx). by eexists t, _, u.
    + intros (? & ? & u & [= <- <-] & Hu & Hx). by exists u.
  - exists ∅. rewrite with_skipped_nil. split; [done|]. intros x. split; [by intros ?%not_elem_of_empty|].
    by intros (? & ? & ? & ? & _).
Qed.

(** *** One node *)

Definition agent_name_of n : option string :=
  match config n !! "agent_name"%string with
  | Some o => if truthy o then Some (str o) else None
  | None => None
  end.

(** How the handler of [n] changes the locals, and the tasks it creates. *)
Definition advances n l l' (log log' : list (CreateTaskData * string)) : Prop :=
  match node_type n with
  | TASK => exists parsed ups t,
      parse_task_config (config n) n (node_id n) = Ok parsed /\
      find_upstream_task_ids (node_id n) (reverse_of d) (node_map_of d) (frame_node_task_ids l) (skipped_nodes l)
        = Ok ups /\
      log' = log ++ [(task_data project activated_by parsed (pending_assignments l !! node_id n) ups, t)] /\
      l' = {| frame_ctx := frame_ctx l; frame_node_task_ids := <[node_id n := One t]> (frame_node_task_ids l);
              skipped_nodes := skipped_nodes l; pending_assignments := delete (node_id n) (pending_assignments l) |}
  | SUBWORKFLOW => log `prefix_of` log' /\ skipped_nodes l' = skipped_nodes l /\
      pending_assignments l' = pending_assignments l /\
      (frame_node_task_ids l' = frame_node_task_ids l \/
       exists ts, frame_node_task_ids l' = <[node_id n := Many ts]> (frame_node_task_ids l))
  | AGENT_ASSIGNMENT => log' = log /\ exists p, l' = with_pending l p /\
      forall i name, p !! i = Some name <->
        (agent_name_of n = Some name /\ hands d (node_id n) i) \/
        (~ (is_Some (agent_name_of n) /\ hands d (node_id n) i) /\ pending_assignments l !! i = Some name)
  | CONDITIONAL | VERIFICATION => log' = log /\ exists X, l' = with_skipped l X /\
      forall x, x ∈ X <-> leaves_behind (frame_ctx l) n x
  | _ => log' = log /\ l' = l
  end.

(** What the walk relies on: the models of definitions were built, and the
    engine's ids are not blank. *)
Record definition_ok (cd : WorkflowDefinition obj) : Prop := {
  do_validators : run_model_validators cd = Ok ();
  do_nodes : forall n, n ∈ nodes cd -> not_blank (node_id n) = true;
  do_id : not_blank (wf_id cd) = true;
  do_revision : (1 <= wf_revision cd)%Z;
}.

Record services_ok : Prop := {
  sv_registry : forall get i v cd, registry = Some get -> get i v = Some cd -> definition_ok cd;
  sv_engine : forall log c t, create_task log c = Some t -> not_blank t = true;
}.

Lemma definition_graph cd : definition_ok cd -> graph_valid cd.
Proof. intros [Hv _ _ _]. by apply run_model_validators_ok in Hv as (_ & _ & _ & _ & ?). Qed.

(** The entries of a frame are ids of tasks created. *)
Record local_ok l (log : list (CreateTaskData * string)) : Prop := {
  lk_typed : refs_typed d (frame_node_task_ids l);
  lk_created : forall k r x, frame_node_task_ids l !! k = Some r -> x ∈ _flatten_task_ids r -> x ∈ log.*2;
}.

Definition walk_failed (e : WalkError) (w : Walk) : Prop := log_ok (created w) /\ e <> Out_of_fuel.

(** The guarantee a walk of frames of one depth gives. *)
Definition walks (walk : WorkflowDefinition obj -> ExecutionFrame (obj:=obj) -> string -> Walking (gmap string obj))
    (level : nat) : Prop :=
  forall cd frame prefix w, definition_ok cd -> depth frame = level -> level <= max_subworkflow_depth ->
    good w -> recorded w ->
    wp (walk cd frame prefix) w
      (fun _ w' => good w' /\ recorded w' /\ created w `prefix_of` created w') walk_failed.

Lemma good_log w : good w -> log_ok (created w).
Proof. by intros []. Qed.

Lemma plain_execution_fair i t s e : plain_execution i t s = Err e -> e <> Out_of_fuel.
Proof.
  unfold plain_execution, new_node_execution. destruct (node_fields_ok _); [|by intros [= <-]].
  destruct (validate_node _); [done|]. by intros [= <-].
Qed.

Lemma parse_task_config_fair c n i e : parse_task_config c n i = Err e -> e <> Out_of_fuel.
Proof.
  unfold parse_task_config, literal.
  repeat (case_match; simpl; [|by intros [= <-]]). done.
Qed.

Lemma subworkflow_config_fair i c e : subworkflow_config i c = Err e -> e <> Out_of_fuel.
Proof. unfold subworkflow_config. repeat case_match; intros [= <-]; done. Qed.

Lemma prefix_ids (l1 l2 : list (CreateTaskData * string)) x : l1 `prefix_of` l2 -> x ∈ l1.*2 -> x ∈ l2.*2.
Proof. intros [k ->]. rewrite fmap_app. set_solver. Qed.

Lemma local_ok_grow l log log' : log `prefix_of` log' -> local_ok l log -> local_ok l log'.
Proof. intros Hp [Ht Hc]. split; [done|]. intros k r x Hk Hx. eapply prefix_ids; eauto. Qed.

Lemma typed_insert refs n r :
  n ∈ nodes d -> node_type n = TASK \/ node_type n = SUBWORKFLOW -> refs_typed d refs ->
  refs_typed d (<[node_id n := r]> refs).
Proof.
  intros Hn Ht Hrefs m Hm. destruct (decide (node_id m = node_id n)) as [E|E].
  - intros _. assert (m = n) as ->; [|done].
    assert (node_map_of d !! node_id m = Some m) as Hk by by apply node_map_lookup.
    assert (node_map_of d !! node_id n = Some n) as Hk' by by apply node_map_lookup.
    rewrite E in Hk. congruence.
  - rewrite lookup_insert_ne by done. by apply Hrefs.
Qed.

Section Handlers.
Context (Hservices : services_ok).
Context (walk_child : WorkflowDefinition obj -> ExecutionFrame (obj:=obj) -> string -> Walking (gmap string obj)).

(** The task of a node, where it has one. *)
Definition task_ref l (i : string) : option string :=
  match frame_node_task_ids l !! i with Some (One t) => Some t | _ => None end.

(** The guarantee of a handler. *)
Definition handled n l (w : Walk) (qualified : string) (r : Local (obj:=obj) * WorkflowNodeExecution)
    (w' : Walk) : Prop :=
  good w' /\ local_ok r.1 (created w') /\ advances n l r.1 (created w) (created w') /\
  (is_Some (ne_task_id r.2) \/ recorded w') /\ (node_type n <> SUBWORKFLOW -> state w' = state w) /\
  exists t, node_done qualified t n r.2 /\ (forall x, t = Some x -> x ∈ (created w').*2) /\
    t = if decide (node_type n = TASK) then task_ref r.1 (node_id n) else None.

Lemma handled_plain n l l' w qualified ne :
  good w -> recorded w -> local_ok l' (created w) -> advances n l l' (created w) (created w) ->
  node_type n <> TASK -> node_done qualified None n ne -> handled n l w qualified (l', ne) w.
Proof.
  intros Hg Hr Hl Ha Ht Hne. split_and!; [done|done|done|by right|done|]. exists None.
  rewrite decide_False by done. done.
Qed.

Lemma good_create w c t :
  good w -> create_data_ok c = true -> (forall x, x ∈ data_dependencies c -> x ∈ (created w).*2) ->
  good {| state := state w; created := created w ++ [(c, t)] |}.
Proof.
  intros [Hl Hs] Hc Hx. split; simpl; [by apply log_ok_snoc|]. revert Hs. apply state_ok_mono.
  intros x Hin. rewrite fmap_app. set_solver.
Qed.

Lemma task_ok n l w :
  n ∈ nodes d -> node_type n = TASK -> not_blank (node_id n) = true -> good w -> recorded w ->
  local_ok l (created w) ->
  wp (process_task_node create_task project activated_by (node_id n) n (reverse_of d) (node_map_of d) l) w
    (handled n l w (node_id n)) walk_failed.
Proof.
  intros Hn Ht Hnb Hg Hr [Htyped Hcreated]. unfold process_task_node.
  apply wp_bind, wp_lift.
  2:{ intros e He. split; [by apply good_log|]. by eapply parse_task_config_fair. }
  intros parsed Hparsed. destruct (find_upstream_ok d Hd (node_id n) (skipped_nodes l) (frame_node_task_ids l) Htyped)
    as (ups & Hups & _ & _ & Hx).
  apply wp_bind, wp_raised; [|by rewrite Hups]. intros ups' Hups'. rewrite Hups in Hups'. injection Hups' as <-.
  apply wp_bind, wp_lift.
  2:{ intros e. case_match; [done|]. intros [= <-]. by split; [apply good_log|]. }
  intros u Hdata. apply ensure_ok in Hdata as [Hdata _].
  apply wp_bind. unfold wp at 1, engine_create_task.
  destruct (create_task (created w) _) as [t|] eqn:Hcreate; [|by split; [apply good_log|]].
  assert (Hnbt : not_blank t = true) by by eapply (sv_engine Hservices).
  assert (Hdeps : data_dependencies (task_data project activated_by parsed (pending_assignments l !! node_id n) ups) = ups).
  { by destruct parsed as [[[[? ?] ?] ?] ?]. }
  assert (Hgood : good {| state := state w; created := created w ++ [(task_data project activated_by parsed
    (pending_assignments l !! node_id n) ups, t)] |}).
  { apply good_create; [done|done|]. rewrite Hdeps. intros x (m & ref & _ & Hm & Hin)%Hx. eauto. }
  apply wp_bind, wp_lift.
  - intros ne Hne. unfold new_node_execution in Hne. apply ensure_ok in Hne as [Hf Hne].
    destruct (validate_node _) as [[]|] eqn:Hval; [|done]. injection Hne as <-.
    apply wp_ret. split_and!; [done| | |by left; eexists|done|].
    + split; simpl; [apply typed_insert; auto|]. intros k r x. destruct (decide (k = node_id n)) as [->|E].
      * rewrite lookup_insert_eq. intros [= <-] ->%list_elem_of_singleton. rewrite fmap_app. set_solver.
      * rewrite lookup_insert_ne by done. intros Hk Hin. rewrite fmap_app. apply elem_of_app. left. eauto.
    + unfold advances. rewrite Ht. by exists parsed, ups, t.
    + exists (Some t). split_and!.
      * unfold node_done, live_status. rewrite Ht. simpl. by rewrite Ht in *.
      * intros x [= <-]. simpl. rewrite fmap_app. set_solver.
      * rewrite decide_True by done. unfold task_ref. simpl. by rewrite lookup_insert_eq.
  - intros e He. split; [by apply good_log in Hgood|]. unfold new_node_execution in He.
    destruct (node_fields_ok _); [|by injection He as <-]. destruct (validate_node _); [done|]. by injection He as <-.
Qed.

Lemma assignment_ok n l w qualified :
  node_type n = AGENT_ASSIGNMENT -> good w -> recorded w -> local_ok l (created w) ->
  wp (lift (_handle_agent_assignment (node_id n) qualified n (adjacency_of d) (node_map_of d) l)) w
    (handled n l w qualified) walk_failed.
Proof.
  intros Ht Hg Hr Hl. unfold _handle_agent_assignment.
  destruct (find_downstream_ok d Hd (node_id n)) as (ts & Hts & Hin). rewrite Hts.
  apply wp_lift.
  - intros [l' ne] Hok. apply rbind_ok in Hok as (l1 & Hl1 & (ne1 & Hne & [= <- <-])%rbind_ok).
    apply execution_plain in Hne.
    assert (Hpending : exists p, l1 = with_pending l p /\
      forall i name, p !! i = Some name <->
        (agent_name_of n = Some name /\ hands d (node_id n) i) \/
        (~ (is_Some (agent_name_of n) /\ hands d (node_id n) i) /\ pending_assignments l !! i = Some name)).
    { unfold agent_name_of. assert (Hnone : exists p, l = with_pending l p /\ forall i name, p !! i = Some name <->
        (@None string = Some name /\ hands d (node_id n) i) \/
        (~ (is_Some (@None string) /\ hands d (node_id n) i) /\ pending_assignments l !! i = Some name)).
      { exists (pending_assignments l). split; [by destruct l|]. intros i name. split.
        - intros Hi. right. split; [|done]. by intros [[? [=]] _].
        - by intros [[[=] _]|[_ ?]]. }
      destruct (config n !! "agent_name"%string) as [o|]; [|by injection Hl1 as <-].
      destruct (truthy o); [|by injection Hl1 as <-].
      injection Hl1 as <-. eexists. split; [done|]. intros i name. setoid_rewrite <-Hin.
      generalize (pending_assignments l) as p. clear. induction ts as [|t ts IH]; intros p; simpl.
      - split; [intros Hp; right; split; [|done]; by intros [_ ?%not_elem_of_nil]|].
        intros [[_ ?%not_elem_of_nil]|[_ ?]]; done.
      - rewrite IH, elem_of_cons. destruct (decide (t = i)) as [->|E].
        + rewrite lookup_insert_eq. destruct (decide (i ∈ ts)); naive_solver.
        + rewrite lookup_insert_ne by done. naive_solver. }
    destruct Hpending as (p & -> & Hp). apply handled_plain;
      [done|done|by destruct Hl| |by rewrite Ht|unfold node_done, live_status; by rewrite Ht in *].
    unfold advances. rewrite Ht. split; [done|]. by exists p.
  - intros e He. split; [by apply good_log|]. intros ->. revert He.
    destruct (config n !! "agent_name"%string) as [o|]; [destruct (truthy o)|]; simpl;
      (destruct (plain_execution _ _ _) eqn:E; simpl; [done|]; apply plain_execution_fair in E; congruence).
Qed.

Lemma subworkflow_ok n l w qualified frame :
  walks walk_child (S (depth frame)) -> n ∈ nodes d -> node_type n = SUBWORKFLOW -> not_blank qualified = true ->
  good w -> recorded w -> local_ok l (created w) ->
  wp (_process_subworkflow_node registry max_subworkflow_depth walk_child (node_id n) qualified n frame l) w
    (handled n l w qualified) walk_failed.
Proof.
  intros Hwalks Hn Ht Hq Hg Hr Hl. unfold _process_subworkflow_node.
  assert (Hfail : forall e, e <> Out_of_fuel -> walk_failed e w) by (intros; split; [by apply good_log|done]).
  apply wp_bind, wp_lift; [|destruct registry; [done|]; intros e [= <-]; by apply Hfail]. intros get Hget.
  apply wp_bind, wp_lift; [|by intros e He%subworkflow_config_fair; apply Hfail].
  intros [[[subworkflow_id version] input_bindings] output_bindings] _.
  apply wp_bind, wp_lift; [|destruct (_ <=? _); [done|]; intros e [= <-]; by apply Hfail]. intros u Hdepth.
  apply ensure_ok in Hdepth as [Hdepth%Nat.leb_le _].
  apply wp_bind, wp_lift; [|destruct (get _ _); [done|]; intros e [= <-]; by apply Hfail]. intros cd Hcd.
  assert (Hok : definition_ok cd).
  { destruct registry as [get'|] eqn:E; [|done]. injection Hget as <-.
    destruct (get' subworkflow_id version) eqn:E'; [|done]. injection Hcd as <-. by eapply (sv_registry Hservices). }
  apply wp_bind, wp_raised; [|by intros; apply Hfail]. intros resolved _.
  apply wp_bind, wp_lift.
  2:{ intros e He. apply Hfail. intros ->. revert He. unfold new_frame. by repeat case_match. }
  intros child Hchild.
  assert (Hcd' : depth child = S (depth frame)).
  { unfold new_frame in Hchild. apply ensure_ok in Hchild as [_ [_ [= <-]]%ensure_ok]. simpl. lia. }
  apply wp_bind. eapply wp_mono; [apply Hwalks; [done|done|lia|done|done]| |done].
  intros vars w1 (Hg1 & Hr1 & Hp1). clear Hfail.
  assert (Hfail : forall e, e <> Out_of_fuel -> walk_failed e w1) by (intros; split; [by apply good_log|done]).
  apply wp_bind, wp_raised; [|by intros; apply Hfail]. intros projected _.
  apply wp_bind. unfold wp at 1, get_state.
  apply wp_bind, wp_raised; [|by intros; apply Hfail]. intros ids Hids.
  apply wp_bind, wp_lift; [|by intros e He%plain_execution_fair; apply Hfail]. intros ne Hne.
  apply execution_plain in Hne.
  assert (Hdrawn : forall x, x ∈ ids -> x ∈ (created w1).*2).
  { intros x Hx. unfold collect_terminal_task_ids in Hids. destruct (build_adjacency_maps cd) as [[a r] o].
    destruct (terminal_ids_drawn _ _ _ _ _ _ _ Hids Hx) as (k & ref & Hk & Hin).
    destruct (so_refs _ _ (proj2 Hg1) k ref Hk) as (t & -> & Ht1). by apply list_elem_of_singleton in Hin as ->. }
  apply wp_ret. split_and!; [done| | |by right|done|].
  - apply (local_ok_grow _ _ _ Hp1) in Hl as [Htyped Hcreated]. split; simpl.
    + case_decide; [done|]. apply typed_insert; auto.
    + case_decide; [done|]. intros k ref x. destruct (decide (k = node_id n)) as [->|E].
      * rewrite lookup_insert_eq. intros [= <-]. apply Hdrawn.
      * rewrite lookup_insert_ne by done. apply Hcreated.
  - unfold advances. rewrite Ht. split_and!; [done|done|done|]. simpl. case_decide; [by left|right; by eexists].
  - exists None. rewrite (decide_False (P:=node_type n = TASK)) by by rewrite Ht.
    split; [unfold node_done, live_status; by rewrite Ht|by split].
Qed.

(** Every handler meets the guarantee. *)
Lemma process_ok n l w qualified frame :
  walks walk_child (S (depth frame)) -> n ∈ nodes d -> not_blank (node_id n) = true -> not_blank qualified = true ->
  good w -> recorded w -> local_ok l (created w) ->
  wp (_process_node_in_frame create_task registry project activated_by max_subworkflow_depth walk_child
        (node_id n) qualified n (adjacency_of d) (reverse_of d) (outgoing_of d) frame (node_map_of d) l) w
    (handled n l w qualified) walk_failed.
Proof.
  intros Hwalks Hn Hnb Hq Hg Hr Hl. unfold _process_node_in_frame.
  assert (Hfail : forall e, e <> Out_of_fuel -> walk_failed e w) by (intros; split; [by apply good_log|done]).
  assert (Hplain : node_type n ∈ [START; END; PARALLEL_SPLIT; PARALLEL_JOIN] ->
    wp (ne ← lift (plain_execution qualified (node_type n) NodeStatus.COMPLETED); mret (l, ne)) w
      (handled n l w qualified) walk_failed).
  { intros Ht. apply wp_bind, wp_lift; [|by intros e He%plain_execution_fair; apply Hfail]. intros ne Hne.
    apply execution_plain in Hne. apply wp_ret, handled_plain; [done|done|done| | |].
    - clear -Ht. unfold advances. destruct (node_type n); done || set_solver.
    - clear -Ht. destruct (node_type n); done || set_solver.
    - unfold node_done, live_status. clear -Ht Hne. destruct (node_type n); done || set_solver. }
  destruct (node_type n) eqn:Ht; try (apply Hplain; set_solver).
  - apply wp_bind. eapply wp_mono; [by apply task_ok| |done]. intros [l' ne] w' (Hg' & Hl' & Ha & Hre & Hst & t & Hne & Hin).
    apply wp_ret. split_and!; [done|done|done|done|done|]. exists t. split; [by eapply requalify_done|done].
  - by apply assignment_ok.
  - apply wp_lift.
    + intros [l' ne] Hok. destruct (process_conditional_node _ _ _ _ _ _) as [[l1 ne1]|e] eqn:E; [|done].
      injection Hok as <- <-. apply conditional_ok in E as (Hne & X & -> & HX); [|done].
      apply handled_plain; [done|done|by destruct Hl| |by rewrite Ht|by eapply requalify_done].
      unfold advances. rewrite Ht. split; [done|]. by exists X.
    + intros e. destruct (process_conditional_node _ _ _ _ _ _) as [[l1 ne1]|e'] eqn:E; [done|]. intros [= <-].
      apply Hfail. intros ->. revert E. unfold process_conditional_node. rewrite Ht.
      destruct (condition_value _ _) as [res|]; [|done].
      destruct res; (destruct (plain_execution (node_id n) CONDITIONAL NodeStatus.COMPLETED) eqn:E;
        [done|apply plain_execution_fair in E; simpl; congruence]).
  - by apply subworkflow_ok.
  - apply wp_lift.
    + intros [l' ne] Hok. destruct (process_verification_node _ _ _ _ _ _) as [[l1 ne1]|e] eqn:E; [|done].
      injection Hok as <- <-. apply verification_ok in E as (Hne & X & -> & HX); [|done].
      apply handled_plain; [done|done|by destruct Hl| |by rewrite Ht|by eapply requalify_done].
      unfold advances. rewrite Ht. split; [done|]. by exists X.
    + intros e. destruct (process_verification_node _ _ _ _ _ _) as [[l1 ne1]|e'] eqn:E; [done|]. intros [= <-].
      apply Hfail. intros ->. revert E. unfold process_verification_node.
      destruct (plain_execution (node_id n) (node_type n) NodeStatus.COMPLETED) eqn:E; [done|].
      apply plain_execution_fair in E. simpl. congruence.
Qed.
End Handlers.

(** *** The walk of a frame *)

(** [a] is an unskipped assignment of [name] that reaches the task [i]. *)
Definition assigner skipped (a i name : string) : Prop :=
  exists n, n ∈ nodes d /\ node_id n = a /\ node_type n = AGENT_ASSIGNMENT /\ a ∉ skipped /\
    agent_name_of n = Some name /\ hands d a i.

(** The last of the nodes walked that assigns [i]. *)
Definition last_assigner skipped (past : list string) (i name : string) : Prop :=
  exists pre a post, past = pre ++ a :: post /\ assigner skipped a i name /\
    forall b name', b ∈ post -> ~ assigner skipped b i name'.

(** The task of a node that was walked. *)
Definition task_made skipped refs (order : list string) (log : list (CreateTaskData * string)) n : Prop :=
  exists parsed who ups t past rest,
    parse_task_config (config n) n (node_id n) = Ok parsed /\
    (task_data project activated_by parsed who ups, t) ∈ log /\
    refs !! node_id n = Some (One t) /\
    Sorted str_le ups /\ NoDup ups /\ (forall x, x ∈ ups <-> nearest d skipped refs (node_id n) x) /\
    order = past ++ node_id n :: rest /\ forall name, who = Some name <-> last_assigner skipped past (node_id n) name.

Record frame_inv (vars : gmap string obj) (ctx_at : string -> gmap string obj) (past : list string) l
    (log : list (CreateTaskData * string)) : Prop := {
  fi_closed : forall x y, x ∈ past -> y ∈ sources d x -> y ∈ past;
  fi_skips : forall x, x ∈ skipped_nodes l <->
    exists n, n ∈ nodes d /\ node_id n ∈ past /\ node_id n ∉ skipped_nodes l /\
      leaves_behind (ctx_at (node_id n)) n x;
  fi_refs : forall i, is_Some (frame_node_task_ids l !! i) -> i ∈ past;
  fi_tasks : forall n, n ∈ nodes d -> node_type n = TASK -> node_id n ∈ past -> node_id n ∉ skipped_nodes l ->
    task_made (skipped_nodes l) (frame_node_task_ids l) past log n;
  fi_pending : forall i, i ∉ past -> forall name, pending_assignments l !! i = Some name <->
    last_assigner (skipped_nodes l) past i name;
  fi_ctx : (forall n, n ∈ nodes d -> node_type n <> SUBWORKFLOW) ->
    frame_ctx l = vars /\ forall i, i ∈ past -> ctx_at i = vars;
}.

Lemma assigner_ext skipped skipped' a i name :
  (a ∈ skipped <-> a ∈ skipped') -> assigner skipped a i name <-> assigner skipped' a i name.
Proof. intros Ha. unfold assigner. split; intros (n & ? & ? & ? & Hs & ? & ?); exists n; rewrite Ha in *; done. Qed.

Lemma last_assigner_ext skipped skipped' past i name :
  (forall a, a ∈ past -> (a ∈ skipped <-> a ∈ skipped')) ->
  last_assigner skipped past i name <-> last_assigner skipped' past i name.
Proof.
  intros Hs. unfold last_assigner. split; intros (pre & a & post & -> & Ha & Hno); exists pre, a, post;
    (split_and!; [done|by apply (assigner_ext skipped skipped'); [apply Hs; set_solver|]|]);
    intros b name' Hb Hbad; apply (Hno b name' Hb); revert Hbad; apply (assigner_ext skipped skipped'), Hs; set_solver.
Qed.

Lemma last_assigner_snoc skipped past a i name :
  last_assigner skipped (past ++ [a]) i name <->
  assigner skipped a i name \/
  (~ (exists name', assigner skipped a i name') /\ last_assigner skipped past i name).
Proof.
  unfold last_assigner. split.
  - intros (pre & b & post & E & Hb & Hno). destruct post as [|c post _] using rev_ind.
    + apply app_inj_tail in E as [<- ->]. by left.
    + rewrite app_comm_cons, app_assoc in E. apply app_inj_tail in E as [-> ->]. right. split.
      * intros [name' Hc]. apply (Hno c name'); [set_solver|done].
      * exists pre, b, post. split_and!; [done|done|]. intros c' name' Hc'. apply Hno. set_solver.
  - intros [Ha|[Hna (pre & b & post & -> & Hb & Hno)]].
    + exists past, a, []. split_and!; [done|done|]. by intros ? ? ?%not_elem_of_nil.
    + exists pre, b, (post ++ [a]). split_and!; [by rewrite <-app_assoc|done|].
      intros c name' [Hc| ->%list_elem_of_singleton]%elem_of_app; [by apply Hno|]. intros Hc. apply Hna. by exists name'.
Qed.

Lemma task_made_grow skipped refs skipped' refs' past i log log' n :
  (forall x y, x ∈ past -> y ∈ sources d x -> y ∈ past) -> node_id n ∈ past -> log `prefix_of` log' ->
  (forall j, j ∈ past -> (j ∈ skipped <-> j ∈ skipped') /\ refs !! j = refs' !! j) ->
  task_made skipped refs past log n -> task_made skipped' refs' (past ++ [i]) log' n.
Proof.
  intros Hclosed Hn [k ->] Hsame (parsed & who & ups & t & p & rest & Hparse & Hin & Href & Hs & Hnd & Hx & Hp & Hwho).
  exists parsed, who, ups, t, p, (rest ++ [i]). split_and!; [done|set_solver| |done|done| | |].
  - by rewrite <-(proj2 (Hsame _ Hn)).
  - intros x. rewrite Hx. apply (nearest_ancestors d _ _ _ _ past); eauto.
  - by rewrite Hp, <-app_assoc.
  - intros name. rewrite Hwho. apply last_assigner_ext. intros a Ha. apply Hsame. rewrite Hp. set_solver.
Qed.

Lemma frame_inv_start vars log : frame_inv vars (fun _ => vars) [] {| frame_ctx := vars; frame_node_task_ids := ∅;
  skipped_nodes := ∅; pending_assignments := ∅ |} log.
Proof.
  split; simpl; try (by intros ? ? ?%not_elem_of_nil).
  - intros x. split; [set_solver|]. by intros (n & _ & ?%not_elem_of_nil & _).
  - intros i. rewrite lookup_empty. by intros [? ?].
  - by intros n _ _ ?%not_elem_of_nil.
  - intros i _ name. rewrite lookup_empty. split; [done|]. intros (pre & a & post & E & _). by destruct pre.
  - done.
Qed.

Section Step.
Context (vars : gmap string obj) (ctx_at : string -> gmap string obj) (past : list string).
Context (l : Local (obj:=obj)) (log : list (CreateTaskData * string)) (n : WorkflowNode obj).
Context (Hinv : frame_inv vars ctx_at past l log).
Context (Hn : n ∈ nodes d) (Hfresh : node_id n ∉ past) (Hsources : forall y, y ∈ sources d (node_id n) -> y ∈ past).

Lemma closed_snoc x y : x ∈ past ++ [node_id n] -> y ∈ sources d x -> y ∈ past ++ [node_id n].
Proof.
  intros [Hx| ->%list_elem_of_singleton]%elem_of_app Hy; apply elem_of_app; left; [|auto].
  by eapply (fi_closed _ _ _ _ _ Hinv).
Qed.

Lemma id_unique m m' : m ∈ nodes d -> m' ∈ nodes d -> node_id m = node_id m' -> m = m'.
Proof.
  intros Hm Hm' E.
  assert (node_map_of d !! node_id m = Some m) as Hk by by apply node_map_lookup.
  assert (node_map_of d !! node_id m' = Some m') as Hk' by by apply node_map_lookup.
  rewrite E in Hk. congruence.
Qed.

(** The nodes walked have no ancestor that was not. *)
Lemma past_ancestors x y : rtc (edge (adjacent (adjacency_of d))) y x -> x ∈ past -> y ∈ past.
Proof.
  induction 1 as [|x y z Hxy _ IH]; [done|]. intros Hz. apply (fi_closed _ _ _ _ _ Hinv y); [auto|].
  apply sources_elem. by rewrite <-adjacency_targets.
Qed.

(** What a node leaves behind is still ahead. *)
Lemma left_ahead ctx x : leaves_behind ctx n x -> x ∉ past ++ [node_id n].
Proof.
  intros (t & us & u & Hdec & Hu & Hpath & _) Hx. apply (decides_targets ctx n t us u Hdec) in Hu.
  apply sources_elem in Hu. assert (u ∈ past) as Hup.
  { apply elem_of_app in Hx as [Hx| ->%list_elem_of_singleton]; [by eapply past_ancestors|].
    apply rtc_inv_r in Hpath as [->|(z & Hz & Hzi)]; [by apply Hsources|].
    apply (past_ancestors z); [done|]. apply Hsources, sources_elem. by rewrite <-adjacency_targets. }
  apply Hfresh. by eapply (fi_closed _ _ _ _ _ Hinv).
Qed.

(** The variables the node was reached with. *)
Definition ctx_at' (i : string) : gmap string obj := if decide (i = node_id n) then frame_ctx l else ctx_at i.

Lemma ctx_at_past i : i ∈ past -> ctx_at' i = ctx_at i.
Proof. intros Hi. unfold ctx_at'. rewrite decide_False; [done|]. by intros ->. Qed.

Lemma ctx_step ctx :
  ((forall m, m ∈ nodes d -> node_type m <> SUBWORKFLOW) -> ctx = frame_ctx l) ->
  (forall m, m ∈ nodes d -> node_type m <> SUBWORKFLOW) ->
  ctx = vars /\ forall i, i ∈ past ++ [node_id n] -> ctx_at' i = vars.
Proof.
  intros Hctx Hflat. destruct (fi_ctx _ _ _ _ _ Hinv Hflat) as [E Hall]. rewrite Hctx by done. split; [done|].
  intros i Hi. unfold ctx_at'. case_decide; [done|]. apply Hall. set_solver.
Qed.

Lemma skip_step : node_id n ∈ skipped_nodes l -> frame_inv vars ctx_at' (past ++ [node_id n]) l log.
Proof.
  intros Hs. split.
  - apply closed_snoc.
  - intros x. rewrite (fi_skips _ _ _ _ _ Hinv). split; intros (m & Hm & Hp & Hns & Hx); exists m.
    + rewrite ctx_at_past by done. split_and!; try done. set_solver.
    + apply elem_of_app in Hp as [Hp|E%list_elem_of_singleton]; [|by rewrite E in Hns].
      by rewrite ctx_at_past in Hx.
  - intros i Hi. apply elem_of_app. left. by apply (fi_refs _ _ _ _ _ Hinv).
  - intros m Hm Ht [Hp|E%list_elem_of_singleton]%elem_of_app Hns; [|by rewrite E in Hns].
    apply (task_made_grow (skipped_nodes l) (frame_node_task_ids l) _ _ _ _ log); try done.
    + apply (fi_closed _ _ _ _ _ Hinv).
    + by apply (fi_tasks _ _ _ _ _ Hinv).
  - intros i Hi name. rewrite last_assigner_snoc, (fi_pending _ _ _ _ _ Hinv) by set_solver. split.
    + intros Ha. right. split; [|done]. by intros (name' & m & _ & _ & _ & ? & _).
    + by intros [(m & _ & _ & _ & ? & _)|[_ ?]].
  - by apply ctx_step.
Qed.

Section Advance.
Context (l' : Local (obj:=obj)) (log' : list (CreateTaskData * string)).
Context (Hlive : node_id n ∉ skipped_nodes l) (Htyped : refs_typed d (frame_node_task_ids l)).
Context (Hadv : advances n l l' log log').

Lemma advance_skips x :
  x ∈ skipped_nodes l' <-> x ∈ skipped_nodes l \/ leaves_behind (frame_ctx l) n x.
Proof.
  pose proof Hadv as Ha. revert Ha. unfold advances. assert (Hno : node_type n <> CONDITIONAL -> node_type n <> VERIFICATION ->
    ~ leaves_behind (frame_ctx l) n x).
  { intros Hc Hv (t & us & u & Hdec & _). unfold decides in Hdec. by destruct (node_type n). }
  destruct (node_type n); try (intros [_ ->]; naive_solver).
  - intros (parsed & ups & t & _ & _ & _ & ->). simpl. naive_solver.
  - intros (_ & p & -> & _). simpl. naive_solver.
  - intros (_ & X & -> & HX). simpl. by rewrite elem_of_union, HX.
  - intros (_ & -> & _). naive_solver.
  - intros (_ & X & -> & HX). simpl. by rewrite elem_of_union, HX.
Qed.

Lemma advance_refs i : i <> node_id n -> frame_node_task_ids l' !! i = frame_node_task_ids l !! i.
Proof.
  intros Hi. pose proof Hadv as Ha. revert Ha. unfold advances. destruct (node_type n); try (by intros [_ ->]).
  - intros (parsed & ups & t & _ & _ & _ & ->). simpl. by rewrite lookup_insert_ne.
  - by intros (_ & p & -> & _).
  - by intros (_ & X & -> & _).
  - intros (_ & _ & _ & [->|[ts ->]]); [done|]. by rewrite lookup_insert_ne.
  - by intros (_ & X & -> & _).
Qed.

Lemma advance_past i :
  i ∈ past -> (i ∈ skipped_nodes l <-> i ∈ skipped_nodes l') /\
  frame_node_task_ids l !! i = frame_node_task_ids l' !! i.
Proof.
  intros Hi. split.
  - rewrite advance_skips. split; [by left|]. intros [?|Hx]; [done|]. apply left_ahead in Hx. set_solver.
  - symmetry. apply advance_refs. by intros ->.
Qed.

Lemma advance_live : node_id n ∉ skipped_nodes l'.
Proof. rewrite advance_skips. intros [?|Hx]; [done|]. apply left_ahead in Hx. set_solver. Qed.

Lemma advance_log : log `prefix_of` log'.
Proof.
  pose proof Hadv as Ha. revert Ha. unfold advances. destruct (node_type n); try (by intros [-> _]); try (by intros [? _]).
  intros (parsed & ups & t & _ & _ & -> & _). by apply prefix_app_r.
Qed.

Lemma advance_task : node_type n = TASK ->
  task_made (skipped_nodes l') (frame_node_task_ids l') (past ++ [node_id n]) log' n.
Proof.
  intros Ht. pose proof Hadv as Ha. revert Ha. unfold advances. rewrite Ht. intros (parsed & ups & t & Hparse & Hups & Elog & El).
  exists parsed, (pending_assignments l !! node_id n), ups, t, past, [].
  destruct (find_upstream_ok d Hd (node_id n) (skipped_nodes l) (frame_node_task_ids l) Htyped)
    as (ups' & Hups' & Hs & Hnd & Hx). rewrite Hups in Hups'. injection Hups' as <-.
  split_and!; [done|rewrite Elog; set_solver| |done|done| |done|].
  - rewrite El. simpl. by rewrite lookup_insert_eq.
  - intros x. rewrite Hx. apply (nearest_ancestors d _ _ _ _ past); [apply (fi_closed _ _ _ _ _ Hinv)|done|].
    apply advance_past.
  - intros name. rewrite (fi_pending _ _ _ _ _ Hinv) by done. apply last_assigner_ext.
    intros a Ha. by apply advance_past.
Qed.

Lemma assigner_here skipped i name :
  assigner skipped (node_id n) i name <->
  node_type n = AGENT_ASSIGNMENT /\ node_id n ∉ skipped /\ agent_name_of n = Some name /\ hands d (node_id n) i.
Proof.
  unfold assigner. split; [|intros (? & ? & ? & ?); by exists n].
  intros (m & Hm & Hid & ?). assert (m = n) as -> by (by apply id_unique). done.
Qed.

Lemma advance_pending i name : i ∉ past ++ [node_id n] ->
  pending_assignments l' !! i = Some name <-> last_assigner (skipped_nodes l') (past ++ [node_id n]) i name.
Proof.
  intros Hi. rewrite last_assigner_snoc. setoid_rewrite assigner_here.
  rewrite (last_assigner_ext (skipped_nodes l') (skipped_nodes l))
    by (intros a Ha; symmetry; by apply advance_past).
  assert (Hip : i ∉ past) by set_solver. rewrite <-(fi_pending _ _ _ _ _ Hinv) by done.
  pose proof advance_live as Hl'. pose proof Hadv as Ha. revert Ha. unfold advances.
  assert (Hsame : node_type n <> AGENT_ASSIGNMENT ->
    (pending_assignments l' !! i = pending_assignments l !! i) ->
    pending_assignments l' !! i = Some name <->
    (node_type n = AGENT_ASSIGNMENT /\ node_id n ∉ skipped_nodes l' /\ agent_name_of n = Some name /\
       hands d (node_id n) i) \/
    (~ (exists name', node_type n = AGENT_ASSIGNMENT /\ node_id n ∉ skipped_nodes l' /\
         agent_name_of n = Some name' /\ hands d (node_id n) i) /\
     pending_assignments l !! i = Some name)).
  { intros Ha ->. naive_solver. }
  destruct (node_type n); try (intros [_ ->]; by apply Hsame).
  - intros (parsed & ups & t & _ & _ & _ & El). apply Hsame; [done|]. rewrite El. simpl.
    rewrite lookup_delete_ne; [done|]. set_solver.
  - intros (_ & p & El & Hp). rewrite El at 1. simpl. rewrite Hp.
    unfold is_Some. naive_solver.
  - intros (_ & X & El & _). apply Hsame; [done|]. by rewrite El.
  - intros (_ & _ & El & _). apply Hsame; [done|]. by rewrite El.
  - intros (_ & X & El & _). apply Hsame; [done|]. by rewrite El.
Qed.

Lemma node_step : frame_inv vars ctx_at' (past ++ [node_id n]) l' log'.
Proof.
  split.
  - apply closed_snoc.
  - intros x. rewrite advance_skips, (fi_skips _ _ _ _ _ Hinv). split.
    + intros [(m & Hm & Hp & Hns & Hx)|Hx].
      * exists m. rewrite ctx_at_past by done. split_and!; [done|set_solver| |done].
        by rewrite <-(proj1 (advance_past _ Hp)).
      * exists n. split_and!; [done|set_solver|by apply advance_live|]. unfold ctx_at'. by rewrite decide_True.
    + intros (m & Hm & [Hp|E%list_elem_of_singleton]%elem_of_app & Hns & Hx).
      * left. exists m. rewrite ctx_at_past in Hx by done. split_and!; [done|done| |done].
        by rewrite (proj1 (advance_past _ Hp)).
      * right. assert (m = n) as -> by (by apply id_unique). unfold ctx_at' in Hx. by rewrite decide_True in Hx.
  - intros i Hi. apply elem_of_app. destruct (decide (i = node_id n)) as [->|E]; [right; by left|].
    left. apply (fi_refs _ _ _ _ _ Hinv). by rewrite <-advance_refs.
  - intros m Hm Ht [Hp|E%list_elem_of_singleton]%elem_of_app Hns.
    + apply (task_made_grow (skipped_nodes l) (frame_node_task_ids l) _ _ _ _ log).
      * apply (fi_closed _ _ _ _ _ Hinv).
      * done.
      * apply advance_log.
      * apply advance_past.
      * apply (fi_tasks _ _ _ _ _ Hinv); [done..|]. by rewrite (proj1 (advance_past _ Hp)).
    + assert (m = n) as -> by (by apply id_unique). by apply advance_task.
  - intros i Hi name. by apply advance_pending.
  - apply ctx_step. intros Hflat. specialize (Hflat n Hn). pose proof Hadv as Ha. revert Hflat Ha. unfold advances.
    destruct (node_type n); intros Hflat; try (by intros [_ ->]).
    + intros (parsed & ups & t & _ & _ & _ & El). by rewrite El.
    + by intros (_ & p & -> & _).
    + by intros (_ & X & -> & _).
    + done.
    + by intros (_ & X & -> & _).
Qed.
End Advance.
End Step.

Lemma record_good w k t ne :
  good w -> ne_node_id ne = k -> ne_task_id ne = t -> node_fields_ok ne = true -> validate_node ne = Ok () ->
  (forall x, t = Some x -> x ∈ (created w).*2) ->
  is_Some (ne_task_id ne) \/ recorded w ->
  good {| state := _record_node (state w) k ne; created := created w |} /\
  recorded {| state := _record_node (state w) k ne; created := created w |}.
Proof.
  intros [Hl Hs] Hid Ht Hf Hv Hx Hr. split.
  - split; [done|]. simpl. apply record_ok; [done..|]. intros x. rewrite Ht. apply Hx.
  - apply recorded_record. destruct Hr as [?|?]; [by left|right]. by destruct w.
Qed.

(** Without subworkflows the state is the record of the nodes walked. *)
Definition flat : Prop := forall n, n ∈ nodes d -> node_type n <> SUBWORKFLOW.

Definition exec_of l n : WorkflowNodeExecution :=
  if decide (node_id n ∈ skipped_nodes l) then
    {| ne_node_id := node_id n; ne_node_type := node_type n; ne_status := NodeStatus.SKIPPED;
       ne_task_id := None; ne_skipped_reason := Some "Conditional branch not taken"%string |}
  else
    {| ne_node_id := node_id n; ne_node_type := node_type n; ne_status := live_status n;
       ne_task_id := if decide (node_type n = TASK) then task_ref l (node_id n) else None;
       ne_skipped_reason := None |}.

Record flat_inv (past : list string) l (s : WalkState) : Prop := {
  fl_keys : ordered_keys s = past;
  fl_exec : forall n, n ∈ nodes d -> node_id n ∈ past -> node_exec_map s !! node_id n = Some (exec_of l n);
}.

Lemma flat_record past l l' s n :
  flat_inv past l s -> (forall k, k ∈ ordered_keys s <-> is_Some (node_exec_map s !! k)) ->
  n ∈ nodes d -> node_id n ∉ past ->
  (forall i, i ∈ past -> (i ∈ skipped_nodes l <-> i ∈ skipped_nodes l') /\
     frame_node_task_ids l !! i = frame_node_task_ids l' !! i) ->
  flat_inv (past ++ [node_id n]) l' (_record_node s (node_id n) (exec_of l' n)).
Proof.
  intros [Hk He] Hkeys Hn Hfresh Hsame. unfold _record_node. split; cbn [ordered_keys node_exec_map].
  - rewrite decide_False; [by rewrite Hk|]. by rewrite <-Hkeys, Hk.
  - intros m Hm [Hp|E%list_elem_of_singleton]%elem_of_app.
    + rewrite lookup_insert_ne by by intros E; rewrite E in Hfresh. rewrite He by done. f_equal.
      destruct (Hsame _ Hp) as [Hs Hr]. unfold exec_of, task_ref.
      rewrite (decide_ext _ _ _ _ Hs), Hr. done.
    + assert (m = n) as -> by by apply id_unique. by rewrite lookup_insert_eq.
Qed.

(** The loop over the nodes keeps the invariant. *)
Lemma walk_nodes_ok walk_child frame prefix vars (P : Prop) rest past ctx_at l w :
  (P -> prefix = EmptyString) ->
  services_ok -> walks walk_child (S (depth frame)) ->
  (forall n, n ∈ nodes d -> not_blank (node_id n) = true) ->
  ordered (sources d) (past ++ rest) -> NoDup (past ++ rest) -> (forall i, i ∈ rest -> i ∈ node_id <$> nodes d) ->
  frame_inv vars ctx_at past l (created w) -> good w -> recorded w -> local_ok l (created w) ->
  (flat -> P -> flat_inv past l (state w)) ->
  wp (walk_nodes create_task registry project activated_by max_subworkflow_depth walk_child
        (adjacency_of d) (reverse_of d) (outgoing_of d) frame prefix (node_map_of d) rest l) w
    (fun l' w' => good w' /\ recorded w' /\ created w `prefix_of` created w' /\ local_ok l' (created w') /\
       (flat -> P -> flat_inv (past ++ rest) l' (state w')) /\
       exists ctx_at', frame_inv vars ctx_at' (past ++ rest) l' (created w')) walk_failed.
Proof.
  intros HP Hservices Hwalks Hnb. revert past ctx_at l w.
  induction rest as [|i rest IH]; intros past ctx_at l w Ho Hnd Hin Hinv Hg Hr Hl Hflat; simpl.
  { apply wp_ret. rewrite app_nil_r. split_and!; [done|done|done|done|done|]. by exists ctx_at. }
  destruct (node_map_known d Hd i) as [(n & Hn) _]; [apply Hin; by left|]. rewrite Hn.
  apply node_map_lookup in Hn as [Hn <-]; [|done].
  assert (Hsources : forall y, y ∈ sources d (node_id n) -> y ∈ past) by by apply (Ho past (node_id n) rest).
  assert (Hfresh : node_id n ∉ past).
  { apply NoDup_app in Hnd as (_ & Hdis & _). intros Hp. apply (Hdis _ Hp). by left. }
  assert (Hq : not_blank (qualify_id prefix (node_id n)) = true) by by apply qualify_not_blank, Hnb.
  assert (Hnext : forall l' w', frame_inv vars (ctx_at' ctx_at l n) (past ++ [node_id n]) l' (created w') ->
    created w `prefix_of` created w' -> good w' -> recorded w' -> local_ok l' (created w') ->
    (flat -> P -> flat_inv (past ++ [node_id n]) l' (state w')) ->
    wp (walk_nodes create_task registry project activated_by max_subworkflow_depth walk_child
        (adjacency_of d) (reverse_of d) (outgoing_of d) frame prefix (node_map_of d) rest l') w'
    (fun l'' w'' => good w'' /\ recorded w'' /\ created w `prefix_of` created w'' /\ local_ok l'' (created w'') /\
       (flat -> P -> flat_inv (past ++ node_id n :: rest) l'' (state w'')) /\
       exists ctx_at', frame_inv vars ctx_at' (past ++ node_id n :: rest) l'' (created w'')) walk_failed).
  { intros l' w' Hinv' Hp Hg' Hr' Hl' Hflat'. rewrite (cons_middle (node_id n) past rest), app_assoc in *.
    eapply wp_mono; [apply (IH (past ++ [node_id n]) (ctx_at' ctx_at l n)); try done; intros; apply Hin; by right| |done].
    intros l'' w'' (? & ? & ? & ? & ? & ?). split_and!; [done|done|by etrans|done|done|done]. }
  apply wp_bind, wp_lift; [|done]. intros n' [= <-]. apply wp_bind. case_decide as Hs.
  - apply wp_bind, wp_lift.
    + intros ne Hne. unfold new_node_execution in Hne. apply ensure_ok in Hne as [Hf Hne].
      destruct (validate_node _) as [[]|] eqn:Hv; [|done]. injection Hne as <-.
      apply wp_bind. unfold wp at 1, update_state. apply wp_ret.
      match goal with |- context [_record_node _ _ ?ne] =>
        destruct (record_good w (qualify_id prefix (node_id n)) None ne) as [Hg' Hr'];
        [done|done|done|done|done|done|by right|] end.
      apply Hnext; [by eapply skip_step|done|done|done|done|]. intros Hf' HP'. rewrite (HP HP').
      replace {| ne_node_id := _ |} with (exec_of l n) by (unfold exec_of; by rewrite decide_True).
      apply (flat_record past l); auto. apply (so_recorded _ _ (proj2 Hg)).
    + intros e He. split; [by apply good_log|]. intros ->. unfold new_node_execution in He.
      destruct (node_fields_ok _); [|done]. by destruct (validate_node _).
  - apply wp_bind. eapply wp_mono; [by apply process_ok; auto| |done].
    intros [l' ne] w' (Hg' & Hl' & Ha & Hre & Hst & t & (Hne & Hf & Hv) & Hx & Ht). simpl in *.
    apply wp_bind. unfold wp at 1, update_state. apply wp_ret.
    destruct (record_good w' (qualify_id prefix (node_id n)) t ne) as [Hg'' Hr'']; [done|by rewrite Hne|by rewrite Hne|done|done|done|done|].
    assert (Htyped : refs_typed d (frame_node_task_ids l)) by by destruct Hl.
    apply Hnext; [by eapply node_step|by eapply advance_log|done|done|done|]. intros Hf' HP'. rewrite (HP HP') in *. simpl.
    rewrite Hst by by apply Hf'. replace ne with (exec_of l' n).
    + apply (flat_record past l); auto; [apply (so_recorded _ _ (proj2 Hg))|]. by eapply advance_past.
    + unfold exec_of. rewrite Hne, decide_False by by eapply advance_live. by rewrite Ht.
Qed.
End Frame.

(** ** Activations *)

Section Activation.
Context {obj : Type} `{PyObject obj} `{!SetOrder string} `{!SetOrder WorkflowEdgeType}.
Context (create_task : list (CreateTaskData * string) -> CreateTaskData -> option string).
Context (registry : option (string -> string -> option (WorkflowDefinition obj))).
Context (project activated_by : string) (max_subworkflow_depth : nat).
Context (definition_repo : string -> option (WorkflowDefinition obj)).
Context (Hservices : services_ok create_task registry).

Notation walk := (_walk_frame create_task registry project activated_by max_subworkflow_depth).

(** What the walk of one frame leaves, whatever came before it. *)
Definition frame_walked (d : WorkflowDefinition obj) (vars : gmap string obj) (start w : Walk)
    (order : list string) (l : Local (obj:=obj)) (ctx_at : string -> gmap string obj) : Prop :=
  order ≡ₚ node_id <$> nodes d /\ ordered (sources d) order /\ local_ok d l (created w) /\
  frame_inv project activated_by d vars ctx_at order l (created w) /\
  (flat d -> state start = empty_state -> flat_inv d order l (state w)).

Lemma walk_frame_ok fuel d frame w :
  definition_ok d -> walks max_subworkflow_depth (walk fuel) (S (depth frame)) -> good w -> recorded w ->
  forall prefix, wp (walk (S fuel) d frame prefix) w
    (fun _ w' => good w' /\ recorded w' /\ created w `prefix_of` created w' /\
       (prefix = EmptyString -> exists order l ctx_at, frame_walked d (variables frame) w w' order l ctx_at)) walk_failed.
Proof.
  intros Hok Hwalks Hg Hr prefix. pose proof (definition_graph d Hok) as Hd. cbn [_walk_frame].
  replace (build_adjacency_maps d) with (adjacency_of d, reverse_of d, outgoing_of d)
    by (unfold adjacency_of, reverse_of, outgoing_of; by destruct (build_adjacency_maps d) as [[] ]).
  apply wp_bind, wp_raised; [|by intros; split; [apply good_log|]]. intros order Hsort.
  destruct (sorted_order d Hd order Hsort) as [Hp Ho].
  apply wp_bind. eapply wp_mono.
  - apply (walk_nodes_ok create_task registry project activated_by max_subworkflow_depth d Hd (walk fuel) frame
      prefix (variables frame) (prefix = EmptyString /\ state w = empty_state) order [] (fun _ => variables frame) (initial_local frame) w); try done.
    + by intros [].
    + apply (do_nodes d Hok).
    + simpl. rewrite Hp. apply (gv_nodes d Hd).
    + intros i Hi. by rewrite <-Hp.
    + by apply frame_inv_start.
    + split; simpl.
      * intros n _. rewrite lookup_empty. by intros [? ?].
      * intros k r x. by rewrite lookup_empty.
    + intros _ [_ ->]. split; [done|]. by intros ? ? ?%not_elem_of_nil.
  - intros l w' (Hg' & Hr' & Hpre & Hl & Hflat & ctx_at & Hinv). apply wp_ret. split_and!; [done|done|done|].
    intros ->. exists order, l, ctx_at. split_and!; [done|done|done|done|]. intros Hf Hs. by apply Hflat.
  - done.
Qed.

Lemma frame_walks fuel level :
  max_subworkflow_depth < fuel + level -> walks max_subworkflow_depth (walk fuel) level.
Proof.
  revert level. induction fuel as [|fuel IH]; intros level Hf d frame prefix w Hok Hlevel Hle Hg Hr; [lia|].
  eapply wp_mono; [apply walk_frame_ok; [done| |done|done]| |done].
  - apply IH. lia.
  - naive_solver.
Qed.

Lemma good_start : good {| state := empty_state; created := [] |}.
Proof.
  split; [apply log_ok_nil|]. split; simpl; try done.
  - constructor.
  - intros k. rewrite lookup_empty. split; [by intros ?%not_elem_of_nil|by intros [? ?]].
Qed.

Context (Hrepo : forall i d, definition_repo i = Some d -> definition_ok d).

(** A finished activation, before it is stored. *)
Lemma prepare_ok definition_id execution_id context now :
  wp (prepare create_task registry project activated_by max_subworkflow_depth definition_repo
        definition_id execution_id context now) {| state := empty_state; created := [] |}
    (fun e w => exists d order l ctx_at, definition_repo definition_id = Some d /\ good w /\ recorded w /\
       frame_walked d context {| state := empty_state; created := [] |} w order l ctx_at /\
       e = new_execution project activated_by d execution_id now (state w) /\ validate_execution e = Ok ()) walk_failed.
Proof.
  unfold prepare. pose proof good_start as Hg.
  apply wp_bind, wp_lift.
  2:{ intros e He. split; [by apply good_log|]. intros ->. revert He. unfold _load_and_validate.
      destruct (definition_repo definition_id); [|done]. simpl. by case_bool_decide. }
  intros d Hd. assert (definition_repo definition_id = Some d) as Hget.
  { unfold _load_and_validate in Hd. destruct (definition_repo definition_id); [|done].
    by apply ensure_ok in Hd as [_ [= <-]]. }
  apply wp_bind, wp_lift.
  2:{ intros e He. split; [by apply good_log|]. intros ->. revert He. unfold new_frame. by repeat case_match. }
  intros frame Hframe. assert (frame = root_frame d context) as ->.
  { unfold new_frame in Hframe. by apply ensure_ok in Hframe as [_ [_ [= <-]]%ensure_ok]. }
  apply wp_bind. eapply wp_mono; [apply walk_frame_ok; [by eapply Hrepo| |done|by left]| |done].
  { apply frame_walks. simpl. lia. }
  intros vars w (Hg' & Hr' & _ & Hwalked). destruct Hwalked as (order & l & ctx_at & Hwalked); [done|].
  apply wp_bind. unfold wp at 1, get_state. apply wp_bind, wp_lift.
  - intros u Hu. apply wp_ret. exists d, order, l, ctx_at. split_and!; try done.
    by destruct (validate_execution _) as [[]|].
  - intros e He. split; [by apply good_log|]. intros ->. by destruct (validate_execution _).
Qed.

Notation run rows definition_id execution_id context now :=
  (activate create_task registry project activated_by max_subworkflow_depth definition_repo
     rows definition_id execution_id context now).

(** What the outcome of [activate] comes from. *)
Lemma activate_inv rows definition_id execution_id context now log rows' r :
  run rows definition_id execution_id context now = (log, rows', r) ->
  log_ok log /\
  match r with
  | Ok e => exists d order l ctx_at w, definition_repo definition_id = Some d /\ good w /\ recorded w /\ created w = log /\
      frame_walked d context {| state := empty_state; created := [] |} w order l ctx_at /\
      e = new_execution project activated_by d execution_id now (state w) /\ validate_execution e = Ok () /\
      save_row rows e = (rows', Ok ())
  | Err err => rows' = rows /\ err <> Out_of_fuel
  end.
Proof.
  unfold activate. pose proof (prepare_ok definition_id execution_id context now) as Hp. unfold wp in Hp.
  destruct (prepare _ _ _ _ _ _ _ _ _ _) as [w [e|err]].
  - destruct Hp as (d & order & l & ctx_at & Hd & Hg & Hr & Hw & He & Hv).
    destruct (save_row rows e) as [rows1 [[]|x]] eqn:Hs; intros [= <- <- <-]; (split; [by apply good_log|]).
    + exists d, order, l, ctx_at, w. by split_and!.
    + split; [by eapply save_row_err|done].
  - intros [= <- <- <-]. destruct Hp. by split.
Qed.

Lemma idle_state w : good w -> recorded w -> node_task_ids (state w) = ∅ <-> created w = [].
Proof.
  intros [_ Hs] Hr. split.
  - intros E. by destruct Hr.
  - intros E. apply map_empty. intros k. destruct (node_task_ids (state w) !! k) as [r|] eqn:Hk; [|done].
    apply (so_refs _ _ Hs) in Hk as (t & _ & Ht). rewrite E in Ht. by apply not_elem_of_nil in Ht.
Qed.
End Activation.

Section Claims.
Context {obj : Type} `{PyObject obj} `{!SetOrder string} `{!SetOrder WorkflowEdgeType}.
Context (create_task : list (CreateTaskData * string) -> CreateTaskData -> option string).
Context (registry : option (string -> string -> option (WorkflowDefinition obj))).
Context (project activated_by : string) (max_subworkflow_depth : nat).
Context (definition_repo : string -> option (WorkflowDefinition obj)).

Notation run rows definition_id execution_id context now :=
  (activate create_task registry project activated_by max_subworkflow_depth definition_repo
     rows definition_id execution_id context now).

(** C22: an activation ends, at any nesting of subworkflows, and its tasks wait
    only for tasks it created before, also when it fails. When it succeeds it
    stores one new row, a valid execution at version 1 that the run store
    accepts, running exactly when a task was created and completed otherwise;
    when it fails it stores nothing. *)
Theorem activation_outcome (Hservices : services_ok create_task registry)
    (Hrepo : forall i d, definition_repo i = Some d -> definition_ok d) :
  forall rows definition_id execution_id context now log rows' r,
    run rows definition_id execution_id context now = (log, rows', r) ->
    log_ok log /\
    match r with
    | Ok e => request_ok (R_activate e) /\ ex_id e = execution_id /\ rows !! execution_id = None /\
        rows' = <[execution_id := e]> rows /\
        (ex_status e = RunStatus.RUNNING /\ log <> [] \/ ex_status e = RunStatus.COMPLETED /\ log = [])
    | Err err => rows' = rows /\ err <> Out_of_fuel
    end.
Proof.
  intros rows definition_id execution_id context now log rows' r Hrun.
  apply activate_inv in Hrun as [Hlog Hr]; [|done..]. split; [done|]. destruct r as [e|err]; [|done].
  destruct Hr as (d & order & l & ctx_at & w & _ & Hg & Hre & <- & _ & -> & Hv & Hs).
  apply save_row_ok in Hs as [-> Hs]. split_and!; [by split|done|done|done|].
  pose proof (idle_state w Hg Hre) as Hidle. simpl.
  case_bool_decide as E; [right|left]; (split; [done|]); tauto.
Qed.

(** C2: what an activation makes of its definition. The nodes are walked once
    each, after their sources. A node is skipped exactly when some unskipped
    conditional or verification node left it behind: it is reachable from a
    branch not taken and not from the branch taken. Every other task node gets
    one task from its config, assigned to the last assignment that reaches it,
    waiting for exactly the nearest tasks before it (through nodes without
    tasks). Without subworkflows, every condition reads the context, and the
    execution records exactly this, node by node in the order walked. *)
Theorem activated_tasks_exact (Hservices : services_ok create_task registry)
    (Hrepo : forall i d, definition_repo i = Some d -> definition_ok d) :
  forall rows definition_id execution_id context now log rows' e,
    run rows definition_id execution_id context now = (log, rows', Ok e) ->
    exists d order ctx_at l, definition_repo definition_id = Some d /\
      order ≡ₚ node_id <$> nodes d /\ ordered (sources d) order /\
      (forall x, x ∈ skipped_nodes l <-> exists n, n ∈ nodes d /\ node_id n ∉ skipped_nodes l /\
         leaves_behind d (ctx_at (node_id n)) n x) /\
      (forall n, n ∈ nodes d -> node_type n = TASK -> node_id n ∉ skipped_nodes l ->
         task_made project activated_by d (skipped_nodes l) (frame_node_task_ids l) order log n) /\
      (flat d -> (forall i, i ∈ order -> ctx_at i = context) /\
         ne_node_id <$> node_executions e = order /\ forall n, n ∈ nodes d -> exec_of l n ∈ node_executions e).
Proof.
  intros rows definition_id execution_id context now log rows' e Hrun.
  apply activate_inv in Hrun as [_ (d & order & l & ctx_at & w & Hd & _ & _ & <- & Hw & -> & _ & _)]; [|done..].
  destruct Hw as (Hp & Ho & _ & Hinv & Hflat). exists d, order, ctx_at, l.
  assert (Hin : forall n, n ∈ nodes d -> node_id n ∈ order) by (intros; rewrite Hp; by apply list_elem_of_fmap_2).
  split_and!; [done|done|done| | |].
  - intros x. rewrite (fi_skips _ _ _ _ _ _ _ _ Hinv). naive_solver.
  - intros n Hn Ht Hs. apply (fi_tasks _ _ _ _ _ _ _ _ Hinv); auto.
  - intros Hf. destruct (Hflat Hf eq_refl) as [Hk He]. simpl. rewrite Hk.
    split; [by apply (fi_ctx _ _ _ _ _ _ _ _ Hinv)|]. split.
    + assert (Hall : forall i, i ∈ order -> exists ne, node_exec_map (state w) !! i = Some ne /\ ne_node_id ne = i).
      { intros i Hi. rewrite Hp in Hi. apply list_elem_of_fmap in Hi as (n & -> & Hn). exists (exec_of l n).
        split; [auto|]. unfold exec_of. by case_decide. }
      clear -Hall. induction order as [|i order IH]; [done|]. destruct (Hall i) as (ne & Hne & <-); [by left|].
      simpl. rewrite Hne. simpl. f_equal. apply IH. intros j Hj. apply Hall. by right.
    + intros n Hn. apply list_elem_of_omap. exists (node_id n). auto.
Qed.

(** A node of the execution that was not skipped, and the task of a node. *)
Definition ran (e : WorkflowExecution) (i : string) : Prop :=
  exists ne, ne ∈ node_executions e /\ ne_node_id ne = i /\ ne_status ne <> NodeStatus.SKIPPED.
Definition task_at (e : WorkflowExecution) (i t : string) : Prop :=
  exists ne, ne ∈ node_executions e /\ ne_node_id ne = i /\ ne_task_id ne = Some t.

(** Task [x] was created waiting for task [y]. *)
Definition waits_for (log : list (CreateTaskData * string)) (x y : string) : Prop :=
  exists c, (c, x) ∈ log /\ y ∈ data_dependencies c.

(** The edges between nodes that ran. *)
Definition live_edge (d : WorkflowDefinition obj) (e : WorkflowExecution) (i j : string) : Prop :=
  j ∈ targets d i /\ ran e i /\ ran e j.

(** A task waits for the tasks nearest before its node. *)
Lemma made_waits (d : WorkflowDefinition obj) skipped refs order log n t x :
  task_made project activated_by d skipped refs order log n -> refs !! node_id n = Some (One t) ->
  nearest d skipped refs (node_id n) x -> waits_for log t x.
Proof.
  intros (parsed & who & ups & t' & past & rest & _ & Hin & Hr & _ & _ & Hx & _) Ht Hn.
  assert (t' = t) as -> by congruence. eexists. split; [done|].
  destruct parsed as [[[[? ?] ?] ?] ?]. by apply Hx.
Qed.

(** Along a path of nodes that ran, some nearest task waits for the first. *)
Lemma path_waits d order l log e vars ctx_at a ta i :
  graph_valid d -> flat d -> local_ok d l log -> frame_inv project activated_by d vars ctx_at order l log ->
  order ≡ₚ node_id <$> nodes d ->
  (forall j, ran e j -> j ∉ skipped_nodes l) -> frame_node_task_ids l !! a = Some (One ta) ->
  tc (live_edge d e) a i ->
  exists m t, feeds d (skipped_nodes l) (frame_node_task_ids l) m i /\
    frame_node_task_ids l !! m = Some (One t) /\ (t = ta \/ tc (waits_for log) t ta).
Proof.
  intros Hd Hf Hl Hinv Hp Hran Ha. revert i. apply tc_ind_r.
  - intros i (Hi & Hra & _). exists a, ta. split_and!; [|done|by left].
    apply feeds_edge; [by apply sources_elem|auto].
  - intros p i _ (Hi & Hrp & _) (m & t & Hm & Ht & Hw). apply Hran in Hrp as Hps.
    destruct (frame_node_task_ids l !! p) as [r|] eqn:Hrefs.
    + destruct (targets_inside d Hd p i Hi) as [Hpi _]. apply list_elem_of_fmap in Hpi as (n & -> & Hn).
      assert (Htask : node_type n = TASK).
      { destruct (lk_typed _ _ _ Hl n Hn) as [?|Hsub]; [by rewrite Hrefs|done|]. by destruct (Hf n Hn). }
      assert (Hmade : task_made project activated_by d (skipped_nodes l) (frame_node_task_ids l) order log n).
      { apply (fi_tasks _ _ _ _ _ _ _ _ Hinv); [done|done| |done]. rewrite Hp. by apply list_elem_of_fmap_2. }
      assert (exists tp, frame_node_task_ids l !! node_id n = Some (One tp)) as [tp Htp].
      { destruct Hmade as (? & ? & ? & tp & ? & ? & _ & _ & Hr & _). by exists tp. }
      exists (node_id n), tp. split_and!; [|done|].
      * apply feeds_edge; [by apply sources_elem|done].
      * right. assert (waits_for log tp t).
        { apply (made_waits _ _ _ _ _ _ _ _ Hmade Htp). exists m, (One t). split_and!; [done|done|by left]. }
        destruct Hw as [->|Hw]; [by apply tc_once|by eapply tc_l].
    + exists m, t. split_and!; [|done|done]. apply (feeds_hop _ _ _ _ p); [by apply sources_elem|done..].
Qed.

Lemma flat_ran (d : WorkflowDefinition obj) order l (s : WalkState) execution_id now :
  flat_inv d order l s -> order ≡ₚ node_id <$> nodes d ->
  forall ne, ne ∈ node_executions (new_execution project activated_by d execution_id now s) <->
    exists n, n ∈ nodes d /\ ne = exec_of l n.
Proof.
  intros [Hk He] Hp ne. simpl. rewrite Hk, list_elem_of_omap.
  assert (Hin : forall n, n ∈ nodes d -> node_id n ∈ order) by (intros; rewrite Hp; by apply list_elem_of_fmap_2).
  split.
  - intros (i & Hi & Hne). rewrite Hp in Hi. apply list_elem_of_fmap in Hi as (n & -> & Hn).
    exists n. split; [done|]. rewrite He in Hne by auto. by injection Hne as <-.
  - intros (n & Hn & ->). exists (node_id n). auto.
Qed.

(** C21: the order of the drawing becomes the order of the work. In a workflow
    without subworkflows, when a path of nodes that ran leads from one task
    node to another, the second task created_waits for the first, directly or through
    tasks in between, whatever control nodes, joins and branches lie on the
    path. *)
Theorem workflow_paths_become_dependencies (Hservices : services_ok create_task registry)
    (Hrepo : forall i d, definition_repo i = Some d -> definition_ok d) :
  forall rows definition_id execution_id context now log rows' e d a b ta tb,
    run rows definition_id execution_id context now = (log, rows', Ok e) ->
    definition_repo definition_id = Some d -> flat d ->
    tc (live_edge d e) a b -> task_at e a ta -> task_at e b tb -> tc (waits_for log) tb ta.
Proof.
  intros rows definition_id execution_id context now log rows' e d a b ta tb Hrun Hd Hf Hpath Ha Hb.
  apply activate_inv in Hrun as [_ (d' & order & l & ctx_at & w & Hd' & _ & _ & <- & Hw & -> & _ & _)]; [|done..].
  assert (d' = d) as -> by congruence. destruct Hw as (Hp & _ & Hl & Hinv & Hflat).
  pose proof (definition_graph d (Hrepo _ _ Hd)) as Hg.
  pose proof (flat_ran d order l (state w) execution_id now (Hflat Hf eq_refl) Hp) as Hexec.
  assert (Htask : forall i t, task_at (new_execution project activated_by d execution_id now (state w)) i t ->
    exists n, n ∈ nodes d /\ node_id n = i /\ node_type n = TASK /\ i ∉ skipped_nodes l /\
      frame_node_task_ids l !! i = Some (One t)).
  { intros i t (ne & (n & Hn & ->)%Hexec & <- & Ht). exists n. unfold exec_of in *. case_decide as Hs; [done|].
    simpl in *. unfold task_ref in Ht. case_decide; [|done]. split_and!; try done. repeat case_match; congruence. }
  apply Htask in Ha as (na & Hna & <- & Hta & Hsa & Hra). apply Htask in Hb as (nb & Hnb & <- & Htb & Hsb & Hrb).
  destruct (path_waits d order l (created w) (new_execution project activated_by d execution_id now (state w)) _ _
    (node_id na) ta (node_id nb) Hg Hf Hl Hinv Hp) as (m & t & Hm & Ht & Hwait); [|done|done|].
  { intros j (ne & (n & Hn & ->)%Hexec & <- & Hs). unfold exec_of in *. by case_decide. }
  assert (Hmade : task_made project activated_by d (skipped_nodes l) (frame_node_task_ids l) order (created w) nb).
  { apply (fi_tasks _ _ _ _ _ _ _ _ Hinv); [done|done| |done]. rewrite Hp. by apply list_elem_of_fmap_2. }
  assert (waits_for (created w) tb t).
  { apply (made_waits _ _ _ _ _ _ _ _ Hmade Hrb). exists m, (One t). split_and!; [done|done|by left]. }
  destruct Hwait as [->|?]; [by apply tc_once|by eapply tc_l].
Qed.
End Claims.

(** ** Examples *)

Section Samples.
Import Plain.

Definition wf_of (i : string) (ns : list (WorkflowNode pyobj)) (es : list WorkflowEdge) : WorkflowDefinition pyobj := {|
  wf_id := i; wf_name := i; wf_description := EmptyString;
  workflow_type := WorkflowType.SEQUENTIAL_PIPELINE; wf_version := "1.0.0"; inputs := []; outputs := [];
  is_subworkflow := false; nodes := ns; edges := es; wf_created_by := "ada"; wf_created_at := 0;
  wf_updated_at := 0; wf_revision := 1 |}.

Definition task_node_of (i : string) : WorkflowNode pyobj := sample_node i TASK [("title", Py_str i)]%string.
Definition sub_of (i : string) : WorkflowNode pyobj :=
  sample_node i SUBWORKFLOW [("subworkflow_id", Py_str i); ("version", Py_str "1.0.0");
    ("input_bindings", Py_dict []); ("output_bindings", Py_dict [])]%string.

(** Design, then build in production or a dry run, then report. *)
Definition release_wf : WorkflowDefinition pyobj := wf_of "release_wf"
  [sample_node "s" START []; task_node_of "design"; sample_node "who" AGENT_ASSIGNMENT [("agent_name", Py_str "bob")]%string;
   sample_node "prod" CONDITIONAL [("condition_expression", Py_str "env == prod")%string];
   task_node_of "build"; task_node_of "dry"; sample_node "j" PARALLEL_JOIN []; task_node_of "report"; sample_node "e" END []]%string
  [sample_edge "s" "design" SEQUENTIAL; sample_edge "design" "who" SEQUENTIAL; sample_edge "who" "prod" SEQUENTIAL;
   sample_edge "prod" "build" CONDITIONAL_TRUE; sample_edge "prod" "dry" CONDITIONAL_FALSE;
   sample_edge "build" "j" SEQUENTIAL; sample_edge "dry" "j" SEQUENTIAL; sample_edge "j" "report" SEQUENTIAL;
   sample_edge "report" "e" SEQUENTIAL]%string.

(** A subworkflow whose only node is a subworkflow of one task, and one whose
    tasks meet in a join. *)
Definition leaf : WorkflowDefinition pyobj := wf_of "leaf"
  [sample_node "s" START []; task_node_of "x"; sample_node "e" END []]%string
  [sample_edge "s" "x" SEQUENTIAL; sample_edge "x" "e" SEQUENTIAL]%string.
Definition wrapper : WorkflowDefinition pyobj := wf_of "wrapper"
  [sample_node "s" START []; sub_of "leaf"; sample_node "e" END []]%string
  [sample_edge "s" "leaf" SEQUENTIAL; sample_edge "leaf" "e" SEQUENTIAL]%string.
Definition joined : WorkflowDefinition pyobj := wf_of "joined"
  [sample_node "s" START []; task_node_of "x"; sample_node "j" PARALLEL_JOIN []; sample_node "e" END []]%string
  [sample_edge "s" "x" SEQUENTIAL; sample_edge "x" "j" SEQUENTIAL; sample_edge "j" "e" SEQUENTIAL]%string.
Definition calls (sub : string) : WorkflowDefinition pyobj := wf_of "calls"
  [sample_node "s" START []; sub_of sub; task_node_of "after"; sample_node "e" END []]%string
  [sample_edge "s" sub SEQUENTIAL; sample_edge sub "after" SEQUENTIAL; sample_edge "after" "e" SEQUENTIAL]%string.

Definition stored_wfs : gmap string (WorkflowDefinition pyobj) :=
  list_to_map ((fun d => (wf_id d, d)) <$> [release_wf; leaf; wrapper; joined]).
Definition sample_registry : option (string -> string -> option (WorkflowDefinition pyobj)) :=
  Some (fun i v => if decide (v = "1.0.0"%string) then stored_wfs !! i else None).
Definition sample_create (log : list (CreateTaskData * string)) (c : CreateTaskData) : option string :=
  Some (String.append "task " (TaskEngine.data_title c)).

Definition outcome_of (d : WorkflowDefinition pyobj) (context : gmap string pyobj) (max_depth : nat) :=
  activate sample_create sample_registry "p" "ada" max_depth (fun _ => Some d) ∅ "d" "run-1" context 7.
Definition created_waits (o : list (CreateTaskData * string) * Rows * result WalkError WorkflowExecution) :=
  ((fun p => (p.2, data_dependencies p.1, TaskEngine.data_assigned_to p.1)) <$> o.1.1).
Definition recorded_nodes (r : result WalkError WorkflowExecution) :=
  match r with
  | Ok e => (fun ne => (ne_node_id ne, NodeStatus.node_status_value (ne_status ne))) <$> node_executions e
  | Err _ => []
  end.

Definition in_prod : gmap string pyobj := {["env" := Py_str "prod"]}%string.

Example release_waits : created_waits (outcome_of release_wf in_prod 0) =
  [("task design", [], None); ("task build", ["task design"], Some "bob"); ("task report", ["task build"], None)]%string.
Proof. vm_compute. reflexivity. Qed.
Example release_nodes : recorded_nodes (outcome_of release_wf in_prod 0).2 =
  [("s", "completed"); ("design", "task_created"); ("who", "completed"); ("prod", "completed");
   ("build", "task_created"); ("dry", "skipped"); ("j", "completed"); ("report", "task_created"); ("e", "completed")]%string.
Proof. vm_compute. reflexivity. Qed.
Example calls_waits : created_waits (outcome_of (calls "leaf") ∅ 1) =
  [("task x", [], None); ("task after", ["task x"], None)]%string.
Proof. vm_compute. reflexivity. Qed.
Example calls_too_deep : (outcome_of (calls "wrapper") ∅ 1).2 = Err (SubworkflowDepthExceeded 2 1).
Proof. vm_compute. reflexivity. Qed.

(** The terminal tasks of a nested subworkflow, and those that meet in a join,
    are lost: the task after the call does not wait for them. *)
Lemma nested_terminal_lost : created_waits (outcome_of (calls "wrapper") ∅ 2) =
  [("task x", [], None); ("task after", [], None)]%string.
Proof. vm_compute. reflexivity. Qed.
Lemma joined_terminal_lost : created_waits (outcome_of (calls "joined") ∅ 1) =
  [("task x", [], None); ("task after", [], None)]%string.
Proof. vm_compute. reflexivity. Qed.

(** *** Witnesses *)

Lemma sample_engine log c t : sample_create log c = Some t -> not_blank t = true.
Proof.
  intros [= <-]. unfold not_blank, is_blank. by rewrite nonblocking, strip_nil.
Qed.

Definition definition_okb (d : WorkflowDefinition pyobj) : bool :=
  is_ok (run_model_validators d) && forallb (fun n => not_blank (node_id n)) (nodes d) &&
  not_blank (wf_id d) && (1 <=? wf_revision d)%Z.

Lemma definition_okb_ok d : definition_okb d = true -> definition_ok d.
Proof.
  unfold definition_okb. rewrite !andb_true_iff. intros (((Hv & Hn) & Hi) & Hr).
  split; [by destruct (run_model_validators d) as [[]|]| |done|by apply Z.leb_le].
  intros n. rewrite forallb_forall in Hn. rewrite list_elem_of_In. apply Hn.
Qed.

Lemma sample_services : services_ok sample_create sample_registry.
Proof.
  split; [|apply sample_engine]. intros get i v cd [= <-] Hget. case_decide; [|done].
  apply definition_okb_ok. unfold stored_wfs in Hget. apply elem_of_list_to_map_2 in Hget.
  revert Hget. simpl. rewrite !elem_of_cons, elem_of_nil.
  by intros [[= _ ->]|[[= _ ->]|[[= _ ->]|[[= _ ->]|[]]]]]; vm_compute.
Qed.

Lemma sample_repo i d : (fun _ : string => Some release_wf) i = Some d -> definition_ok d.
Proof. intros [= <-]. apply definition_okb_ok. by vm_compute. Qed.

Definition release_run : WorkflowExecution :=
  match (outcome_of release_wf in_prod 0).2 with Ok e => e | Err _ => two_tasks end.

Lemma release_runs :
  outcome_of release_wf in_prod 0 = ((outcome_of release_wf in_prod 0).1.1, (outcome_of release_wf in_prod 0).1.2, Ok release_run).
Proof. by vm_compute. Qed.

Lemma flat_decided (d : WorkflowDefinition pyobj) :
  bool_decide (Forall (fun n => node_type n <> SUBWORKFLOW) (nodes d)) = true -> flat d.
Proof. rewrite bool_decide_eq_true, Forall_forall. done. Qed.

Lemma ran_in e i :
  bool_decide (Exists (fun ne => ne_node_id ne = i /\ ne_status ne <> NodeStatus.SKIPPED) (node_executions e)) = true ->
  ran e i.
Proof. intros (ne & ? & ? & ?)%bool_decide_eq_true%Exists_exists. by exists ne. Qed.

Lemma task_at_in e i t :
  bool_decide (Exists (fun ne => ne_node_id ne = i /\ ne_task_id ne = Some t) (node_executions e)) = true ->
  task_at e i t.
Proof. intros (ne & ? & ? & ?)%bool_decide_eq_true%Exists_exists. by exists ne. Qed.

Lemma activation_outcome_witness :
  log_ok (outcome_of release_wf in_prod 0).1.1 /\ request_ok (R_activate release_run).
Proof.
  destruct (activation_outcome sample_create sample_registry "p" "ada" 0 (fun _ => Some release_wf)
    sample_services sample_repo ∅ "d" "run-1" in_prod 7 _ _ _ release_runs) as [Hlog [Hreq _]].
  by split.
Defined.

Lemma activated_tasks_exact_witness :
  exists order, order ≡ₚ node_id <$> nodes release_wf /\ ne_node_id <$> node_executions release_run = order.
Proof.
  destruct (activated_tasks_exact sample_create sample_registry "p" "ada" 0 (fun _ => Some release_wf)
    sample_services sample_repo ∅ "d" "run-1" in_prod 7 _ _ _ release_runs)
    as (d & order & ctx_at & l & Hd & Hp & _ & _ & _ & Hflat).
  injection Hd as <-. exists order. split; [exact Hp|]. apply Hflat.
  apply flat_decided. by vm_compute.
Defined.

Lemma workflow_paths_become_dependencies_witness :
  tc (waits_for (outcome_of release_wf in_prod 0).1.1) "task report" "task design".
Proof.
  refine (workflow_paths_become_dependencies sample_create sample_registry "p" "ada" 0 (fun _ => Some release_wf)
    sample_services sample_repo ∅ "d" "run-1" in_prod 7 _ _ _ release_wf "design" "report" _ _ release_runs
    eq_refl _ _ _ _).
  - apply flat_decided. by vm_compute.
  - assert (Hstep : forall i j, bool_decide (j ∈ targets release_wf i) = true -> ran release_run i -> ran release_run j ->
      live_edge release_wf release_run i j) by (intros ? ? ?%bool_decide_eq_true ? ?; by split).
    apply (tc_l _ "design" "who"); [|apply (tc_l _ "who" "prod"); [|apply (tc_l _ "prod" "build");
      [|apply (tc_l _ "build" "j"); [|apply tc_once]]]]; apply Hstep; try apply ran_in; by vm_compute.
  - apply task_at_in. by vm_compute.
  - apply task_at_in. by vm_compute.
Defined.
End Samples.
