(* ===== verification/SubworkflowChecks.v ===== *)
(** * SubworkflowChecks

    What is checked when a workflow that calls subworkflows is saved:
    [engine/workflow/validate_subworkflow.py]. *)

From stdpp Require Import gmap strings list sorting relations.
From Stdlib Require Import ZArith Ascii Lia.
From S2P Require Import Prelude Graphs PlanUnits WorkflowModel WorkflowGraph WorkflowBindings.
#[local] Open Scope py_scope.
#[local] Open Scope nat_scope.
Import WorkflowNodeType.

(** The coordinate of a published subworkflow: its id and its version. *)
Definition key : Type := string * string.

Section Checks.
Context {obj : Type} `{PyObject obj}.
Implicit Types (definition : WorkflowDefinition obj) (node : WorkflowNode obj)
  (declarations : list (WorkflowIODeclaration obj)) (bindings : gmap string obj).

(** [node_config.get(field) or {}], which is [{}] unless it is a dict. *)
Definition dict_or_empty (o : option obj) : gmap string obj :=
  match o with
  | Some o => if truthy o then match view o with V_mapping m => m | _ => ∅ end else ∅
  | None => ∅
  end.

(** [version_obj]: absent or [None], a string stripped, or malformed. *)
Definition pinned_version (o : option obj) : option (option string) :=
  match o with
  | None => Some None
  | Some o =>
      match view o with
      | V_none => Some None
      | V_str s => Some (if is_blank s then None else Some (strip s))
      | _ => None
      end
  end.

Definition extract_subworkflow_config (node_config : gmap string obj)
    : option (string * option string * gmap string obj * gmap string obj) :=
  match node_config !! "subworkflow_id"%string ≫= as_str with
  | None => None
  | Some subworkflow_id =>
      if is_blank subworkflow_id then None else
      match pinned_version (node_config !! "version"%string) with
      | None => None
      | Some version =>
          Some (subworkflow_id, version, dict_or_empty (node_config !! "input_bindings"%string),
                dict_or_empty (node_config !! "output_bindings"%string))
      end
  end.

(** ** Bindings against declarations *)

Definition _literal_matches_type (value : obj) (value_type : WorkflowValueType.WorkflowValueType) : bool :=
  match value_type with
  | WorkflowValueType.STRING => match view value with V_str _ => true | _ => false end
  | WorkflowValueType.INTEGER => match view value with V_int _ => true | _ => false end
  | WorkflowValueType.FLOAT => match view value with V_int _ | V_float _ => true | _ => false end
  | WorkflowValueType.BOOLEAN => match view value with V_bool _ => true | _ => false end
  | WorkflowValueType.TASK_REF | WorkflowValueType.AGENT_REF =>
      match view value with V_str s => negb (is_blank s) | _ => false end
  | WorkflowValueType.DATETIME =>
      match view value with V_datetime => true | V_str s => is_valid_iso_datetime s | _ => false end
  | WorkflowValueType.JSON => true
  end.

Definition _is_deferred_expression (value : obj) (direction : string) : bool :=
  match as_str value with
  | None => false
  | Some s =>
      if decide (direction = "input"%string) then startswith "@parent." s
      else startswith "@child." s || startswith "@parent." s
  end.

(** The loop body for one binding: [None] when it is in order. *)
Definition check_binding (declarations : list (WorkflowIODeclaration obj)) (direction : string)
    (unknown_code type_code : ValidationErrorCode) (name : string) (value : obj) : option ValidationErrorCode :=
  match dict_of ((fun d => (decl_name d, d)) <$> declarations) !! name with
  | None => Some unknown_code
  | Some decl =>
      if _is_deferred_expression value direction then None
      else if match as_str value with Some s => startswith "@" s | None => false end then Some type_code
      else if negb (_literal_matches_type value (decl_type decl)) then Some type_code else None
  end.

(** The bindings are visited in the order of their dict, which only orders the
    report. *)
Definition _check_bindings_against_declarations (nid : string) bindings declarations (direction : string)
    (missing_code unknown_code type_code : ValidationErrorCode) : list WorkflowValidationError :=
  let error c := {| code := c; err_node_id := Some nid |} in
  ((fun _ => error missing_code) <$>
    filter (fun d => decl_required d = true /\ bindings !! decl_name d = None) declarations) ++
  (error <$> omap (fun '(name, value) =>
    check_binding declarations direction unknown_code type_code name value) (map_to_list bindings)).

Definition _check_subworkflow_io_for_node (nid : string) (input_bindings output_bindings : gmap string obj)
    (child_inputs child_outputs : list (WorkflowIODeclaration obj)) : list WorkflowValidationError :=
  _check_bindings_against_declarations nid input_bindings child_inputs "input"
    SUBWORKFLOW_INPUT_MISSING SUBWORKFLOW_INPUT_UNKNOWN SUBWORKFLOW_INPUT_TYPE_MISMATCH ++
  _check_bindings_against_declarations nid output_bindings child_outputs "output"
    SUBWORKFLOW_OUTPUT_MISSING SUBWORKFLOW_OUTPUT_UNKNOWN SUBWORKFLOW_OUTPUT_TYPE_MISMATCH.

(** The published versions: [SubworkflowRegistry.get] finds a row by its
    coordinate, or raises [SubworkflowNotFoundError]. *)
Context (registry : gmap key (WorkflowDefinition obj)).

Definition check_node_io node : list WorkflowValidationError :=
  let error c := [{| code := c; err_node_id := Some (node_id node) |}] in
  match extract_subworkflow_config (config node) with
  | None => error SUBWORKFLOW_REF_MISSING
  | Some (subworkflow_id, None, _, _) => error SUBWORKFLOW_VERSION_UNPINNED
  | Some (subworkflow_id, Some version, ib, ob) =>
      match registry !! (subworkflow_id, version) with
      | None => error SUBWORKFLOW_NOT_FOUND
      | Some child => _check_subworkflow_io_for_node (node_id node) ib ob (inputs child) (outputs child)
      end
  end.

Definition validate_subworkflow_io definition : list WorkflowValidationError :=
  flat_map (fun node => if decide (node_type node = SUBWORKFLOW) then check_node_io node else [])
    (nodes definition).

(** ** The reference graph *)

(** The locals [_visit] shares: the coordinates on the path and the ones left,
    the path, and the cycles reported. *)
Record Visits := {
  visiting : gset key;
  finished : gset key;
  path : list key;
  cycles : list (list key);
}.

Definition report (node_key : key) (v : Visits) : Visits := {|
  visiting := visiting v; finished := finished v; path := path v;
  cycles := cycles v ++ [drop (index_of node_key (path v)) (path v) ++ [node_key]] |}.

Definition enter (node_key : key) (v : Visits) : Visits := {|
  visiting := {[node_key]} ∪ visiting v; finished := finished v;
  path := path v ++ [node_key]; cycles := cycles v |}.

Definition leave (node_key : key) (v : Visits) : Visits := {|
  visiting := visiting v ∖ {[node_key]}; finished := {[node_key]} ∪ finished v;
  path := removelast (path v); cycles := cycles v |}.

(** The coordinate a node pins and what is published there. *)
Definition child_of node : option (key * WorkflowDefinition obj) :=
  if decide (node_type node = SUBWORKFLOW) then
    match extract_subworkflow_config (config node) with
    | Some (child_sub_id, Some child_version, _, _) =>
        let child_key := (child_sub_id, child_version) in
        child_definition ← registry !! child_key;
        Some (child_key, child_definition)
    | _ => None
    end
  else None.

Definition visit_nodes (visit : key -> WorkflowDefinition obj -> Visits -> option Visits) :
    list (WorkflowNode obj) -> Visits -> option Visits :=
  fix visit_nodes ns v :=
    match ns with
    | [] => Some v
    | node :: ns =>
        match child_of node with
        | None => visit_nodes ns v
        | Some (child_key, child_definition) =>
            v ← visit child_key child_definition v;
            visit_nodes ns v
        end
    end.

Fixpoint _visit (fuel : nat) (node_key : key) (source_definition : WorkflowDefinition obj) (v : Visits)
    : option Visits :=
  match fuel with
  | 0 => None
  | S fuel =>
      if decide (node_key ∈ visiting v) then Some (report node_key v)
      else if decide (node_key ∈ finished v) then Some v
      else
        v ← visit_nodes (_visit fuel) (nodes source_definition) (enter node_key v);
        Some (leave node_key v)
  end.

(** A nested visit is of a coordinate that is not on the path. *)
Definition visit_fuel : nat := S (S (size registry)).

Definition reference_cycles definition : option (list (list key)) :=
  cycles <$> _visit visit_fuel (wf_id definition, wf_version definition) definition
    {| visiting := ∅; finished := ∅; path := []; cycles := [] |}.

Definition validate_subworkflow_graph definition : list WorkflowValidationError :=
  (fun _ => {| code := SUBWORKFLOW_CYCLE_DETECTED; err_node_id := None |}) <$>
    default [] (reference_cycles definition).

(** [run_subworkflow_validation]: what the save path reports. *)
Definition run_subworkflow_validation definition : list WorkflowValidationError :=
  validate_subworkflow_io definition ++ validate_subworkflow_graph definition.
End Checks.

(** ** The reference graph, as a relation *)

Section References.
Context {obj : Type} `{PyObject obj}.
Context (registry : gmap key (WorkflowDefinition obj)) (definition : WorkflowDefinition obj).

Definition root_key : key := (wf_id definition, wf_version definition).

(** What a coordinate stands for in a check of [definition]: the root is the
    definition at hand, whatever is published under its coordinate. *)
Definition stands_for (k : key) : option (WorkflowDefinition obj) :=
  if decide (k = root_key) then Some definition else registry !! k.

(** The published coordinates that the nodes of [k] pin. *)
Definition references (k : key) : list key :=
  match stands_for k with
  | Some d => omap (fun node => fst <$> child_of registry node) (nodes d)
  | None => []
  end.

(** A report is a closed route that the root leads to. *)
Definition closed_route (c : list key) : Prop :=
  exists k between, c = k :: between ++ [k] /\ Sorted (edge references) c /\ rtc (edge references) root_key k.

Lemma child_of_elem d node k c :
  node ∈ nodes d -> child_of registry node = Some (k, c) ->
  registry !! k = Some c /\ forall p, stands_for p = Some d -> k ∈ references p.
Proof.
  intros Hn Hc. split.
  - revert Hc. unfold child_of. case_decide; [|done].
    destruct (extract_subworkflow_config (config node)) as [[[[i [w|]] ib] ob]|]; try done.
    intros (c' & Hr & [= <- <-])%bind_Some. done.
  - intros p Hp. unfold references. rewrite Hp. apply list_elem_of_omap. exists node. by rewrite Hc.
Qed.
End References.

Lemma Sorted_snoc {A} (R : relation A) l x y : Sorted R (l ++ [x]) -> R x y -> Sorted R (l ++ [x; y]).
Proof.
  induction l as [|a l IH]; simpl; [by repeat constructor|].
  intros [Hs Hh]%Sorted_inv Hr. constructor; [by apply IH|]. destruct l; inversion Hh; by constructor.
Qed.

Lemma Sorted_drop {A} (R : relation A) n (l : list A) : Sorted R l -> Sorted R (drop n l).
Proof.
  revert n. induction l as [|a l IH]; intros [|n] Hs; try done. apply IH. by inversion Hs.
Qed.

Lemma Sorted_app_l {A} (R : relation A) (l k : list A) : Sorted R (l ++ k) -> Sorted R l.
Proof.
  induction l as [|a l IH]; simpl; [constructor|]. intros [Hs Hh]%Sorted_inv.
  constructor; [by apply IH|]. destruct l; [constructor|]. inversion Hh; by constructor.
Qed.

(** Whatever is on a route is led to by its head. *)
Lemma Sorted_reaches {A} (R : relation A) x l y : Sorted R (x :: l) -> y ∈ x :: l -> rtc R x y.
Proof.
  revert x. induction l as [|z l IH]; intros x [Hs Hh]%Sorted_inv Hy.
  - apply list_elem_of_singleton in Hy as ->. done.
  - apply elem_of_cons in Hy as [->|Hy]; [done|]. inversion Hh; subst. eapply rtc_l; [done|by apply IH].
Qed.

Lemma Sorted_cycle {A} (R : relation A) x l : Sorted R (x :: l ++ [x]) -> tc R x x.
Proof.
  intros Hs. destruct l as [|y l].
  - apply Sorted_inv in Hs as [_ Hh]. inversion Hh; subst. by apply tc_once.
  - simpl in Hs. apply Sorted_inv in Hs as [Hs Hh]. inversion Hh; subst.
    eapply tc_rtc_r; [by apply tc_once|]. eapply Sorted_reaches; [exact Hs|].
    apply elem_of_cons. right. apply elem_of_app. right. by apply list_elem_of_singleton.
Qed.

(** ** The search *)
Section Visit.
Context {obj : Type} `{PyObject obj}.
Context (registry : gmap key (WorkflowDefinition obj)) (definition : WorkflowDefinition obj).
#[local] Notation refs := (edge (references registry definition)).
#[local] Notation root := (root_key definition).

(** Where the search stands: the path is a route from the root, what it
    reported are closed routes, and while it has reported nothing, no route
    from what it has left goes on forever. *)
Record visits_ok (v : Visits) : Prop := {
  ok_visiting : forall k, k ∈ visiting v <-> k ∈ path v;
  ok_known : forall k, k ∈ path v -> k = root \/ k ∈ dom registry;
  ok_nodup : NoDup (path v);
  ok_route : Sorted refs (path v);
  ok_cycles : forall c, c ∈ cycles v -> closed_route registry definition c;
  ok_finished : cycles v = [] -> forall k, k ∈ finished v -> sn refs k;
}.

(** [k] can be visited next. *)
Record next_ok (v : Visits) (k : key) (d : WorkflowDefinition obj) : Prop := {
  next_route : Sorted refs (path v ++ [k]);
  next_head : head (path v ++ [k]) = Some root;
  next_known : k ∉ path v -> stands_for registry definition k = Some d;
}.

(** What a visit keeps, and what it has settled when it reports nothing. *)
Record visited (v v' : Visits) : Prop := {
  visited_ok : visits_ok v';
  visited_visiting : visiting v' = visiting v;
  visited_path : path v' = path v;
  visited_finished : finished v ⊆ finished v';
  visited_cycles : cycles v' = [] -> cycles v = [];
}.

Lemma path_reached v k : head (path v) = Some root -> Sorted refs (path v) -> k ∈ path v -> rtc refs root k.
Proof.
  destruct (path v) as [|r l]; [done|]. simpl. intros [= <-] Hs Hk. by eapply Sorted_reaches.
Qed.

Lemma report_ok v k d : visits_ok v -> next_ok v k d -> k ∈ visiting v -> visits_ok (report k v).
Proof.
  intros [Hv Hk Hnd Hr Hc Hf] [Hn Hh Hd] Hin. constructor; simpl; try assumption.
  - intros c [?| ->%list_elem_of_singleton]%elem_of_app; [by apply Hc|]. apply Hv in Hin.
    pose proof (index_of_lookup k (path v) Hin) as Hi.
    exists k, (drop (S (index_of k (path v))) (path v)).
    rewrite (drop_S _ _ _ Hi). split_and!; [done| |].
    + rewrite <-(drop_S _ _ _ Hi). apply (Sorted_drop _ (index_of k (path v))) in Hn.
      rewrite drop_app_le in Hn; [done|]. apply lookup_lt_Some in Hi. lia.
    + apply (path_reached v); [|done..]. destruct (path v); [by apply not_elem_of_nil in Hin|done].
  - destruct (cycles v); by intros.
Qed.

Lemma enter_ok v k d : visits_ok v -> next_ok v k d -> k ∉ visiting v ->
  k = root \/ k ∈ dom registry -> visits_ok (enter k v).
Proof.
  intros [Hv Hk Hnd Hr Hc Hf] [Hn Hh Hd] Hin Hdom. constructor; simpl; try assumption.
  - intros x. rewrite elem_of_union, elem_of_singleton, elem_of_app, list_elem_of_singleton, Hv. tauto.
  - intros x [?| ->%list_elem_of_singleton]%elem_of_app; auto.
  - apply NoDup_app. split_and!; [done| |apply NoDup_singleton].
    intros x Hx ->%list_elem_of_singleton. by rewrite <-Hv in Hx.
Qed.

Lemma leave_ok v v' k d : visits_ok v -> next_ok v k d -> k ∉ visiting v -> visited (enter k v) v' ->
  (cycles v' = [] -> sn refs k) -> visited v (leave k v').
Proof.
  intros [Hv Hk Hnd Hr Hc Hf] [Hn Hh Hd] Hin [[Hv' Hk' Hnd' Hr' Hc' Hf'] Hvis Hp Hfin Hcy] Hsn. simpl in *.
  assert (Hpath : removelast (path v') = path v) by (rewrite Hp; apply removelast_last).
  assert (Hset : visiting v' ∖ {[k]} = visiting v) by (rewrite Hvis; set_solver).
  constructor; simpl; try assumption; [|set_solver].
  constructor; simpl; rewrite ?Hpath, ?Hset; try assumption.
  intros Hnil x [->%elem_of_singleton|Hx]%elem_of_union; [by apply Hsn|by apply Hf'].
Qed.

Lemma next_child v k d node c cd :
  next_ok v k d -> k ∉ path v -> node ∈ nodes d -> child_of registry node = Some (c, cd) ->
  next_ok (enter k v) c cd /\ c ∈ references registry definition k.
Proof.
  intros [Hn Hh Hd] Hin Hnode Hc. destruct (child_of_elem registry definition d node c cd Hnode Hc) as [Hr He].
  assert (Hedge : c ∈ references registry definition k) by (by apply He, Hd). split; [|done].
  constructor; simpl; rewrite <-?app_assoc; simpl.
  - by apply Sorted_snoc.
  - revert Hh. by destruct (path v).
  - intros Hx. unfold stands_for. rewrite decide_False; [done|]. intros ->. apply Hx.
    apply elem_of_app. revert Hh. destruct (path v) as [|r l]; simpl.
    + intros [= ->]. right. by left.
    + intros [= ->]. left. by left.
Qed.

Lemma visited_refl v : visits_ok v -> visited v v.
Proof. by constructor. Qed.

Lemma visited_trans v1 v2 v3 : visited v1 v2 -> visited v2 v3 -> visited v1 v3.
Proof.
  intros [_ Hv Hp Hf Hc] [Ho Hv' Hp' Hf' Hc']. constructor; [done|congruence..| |].
  - by transitivity (finished v2).
  - intros E. by apply Hc, Hc'.
Qed.

Lemma next_visited v v' k d : visited v v' -> next_ok v k d -> next_ok v' k d.
Proof. intros [_ _ Hp _ _] [Hr Hh Hk]. constructor; by rewrite Hp. Qed.

Lemma next_in_registry v k d :
  next_ok v k d -> k ∉ path v -> k = root \/ k ∈ dom registry.
Proof.
  intros [_ _ Hk] Hin. specialize (Hk Hin). unfold stands_for in Hk. case_decide; [by left|right].
  by apply elem_of_dom_2 in Hk.
Qed.

(** What one level of nesting does. *)
Definition visits_well (visit : key -> WorkflowDefinition obj -> Visits -> option Visits) (depth : nat) : Prop :=
  forall k d v, visits_ok v -> next_ok v k d -> depth <= length (path v) ->
    exists v', visit k d v = Some v' /\ visited v v' /\ (cycles v' = [] -> k ∈ finished v').

Lemma visit_nodes_ok visit depth v k d :
  visits_well visit (S depth) -> next_ok v k d -> k ∉ path v -> depth <= length (path v) ->
  forall ns w, ns ⊆ nodes d -> visited (enter k v) w ->
  exists w', visit_nodes registry visit ns w = Some w' /\ visited w w' /\
    (cycles w' = [] -> forall node c cd, node ∈ ns -> child_of registry node = Some (c, cd) -> c ∈ finished w').
Proof.
  intros Hvisit Hnext Hk Hdepth ns. induction ns as [|node ns IH]; intros w Hns Hw; simpl.
  { exists w. split_and!; [done|by apply visited_refl, Hw|]. intros _ node c cd []%not_elem_of_nil. }
  destruct (child_of registry node) as [[c cd]|] eqn:Hc.
  - destruct (next_child v k d node c cd) as [Hn _]; [done..|apply Hns; left|done|].
    destruct (Hvisit c cd w) as (w1 & -> & Hw1 & Hf1); [apply Hw|by eapply next_visited| |].
    { rewrite (visited_path _ _ Hw). simpl. rewrite length_app. simpl. lia. }
    simpl. destruct (IH w1) as (w' & -> & Hw' & Hf); [set_solver|by eapply visited_trans|].
    exists w'. split_and!; [done|by eapply visited_trans|].
    intros E node' c' cd' [-> | Hin]%elem_of_cons Hc'; [|by eapply Hf].
    assert (c' = c) as -> by congruence. by apply (visited_finished _ _ Hw'), Hf1, (visited_cycles _ _ Hw').
  - destruct (IH w) as (w' & -> & Hw' & Hf); [set_solver|done|].
    exists w'. split_and!; [done..|]. intros E node' c' cd' [-> | Hin]%elem_of_cons Hc'; [congruence|by eapply Hf].
Qed.

Lemma nesting_bound v : visits_ok v -> length (path v) <= S (size registry).
Proof.
  intros [_ Hk Hnd _ _ _]. rewrite <-(size_list_to_set (C := gset key)) by done.
  transitivity (size ({[root]} ∪ dom registry : gset key)).
  - apply subseteq_size. intros x Hx%elem_of_list_to_set. apply Hk in Hx as [-> | ?]; set_solver.
  - rewrite <-(size_dom (D := gset key) registry). rewrite union_comm_L. apply size_union_singleton.
Qed.

Lemma visit_ok fuel depth : S (size registry) < fuel + depth -> visits_well (_visit registry fuel) depth.
Proof.
  revert depth. induction fuel as [|fuel IH]; intros depth Hfuel k d v Hv Hnext Hdepth.
  { pose proof (nesting_bound v Hv). lia. }
  simpl. case_decide as Hvis; [|case_decide as Hfin].
  - exists (report k v). assert (cycles (report k v) <> []) by (simpl; by destruct (cycles v)).
    split_and!; [done| |done]. by constructor; [eapply report_ok|..].
  - exists v. split_and!; [done|by apply visited_refl|done].
  - assert (Hk : k ∉ path v) by (by rewrite <-(ok_visiting _ Hv)).
    destruct (visit_nodes_ok (_visit registry fuel) depth v k d) with (ns := nodes d) (w := enter k v)
      as (w & -> & Hw & Hf); [apply IH; lia|done..|apply visited_refl; eapply enter_ok; eauto using next_in_registry|].
    exists (leave k w). simpl. split_and!; [done| |set_solver].
    eapply leave_ok; [done..|]. intros E. constructor. intros c Hc.
    change (c ∈ references registry definition k) in Hc. unfold references in Hc. rewrite (next_known _ _ _ Hnext Hk) in Hc.
    apply list_elem_of_omap in Hc as (node & Hn & Hc).
    destruct (child_of registry node) as [[c' cd]|] eqn:Hcd; [|done]. injection Hc as ->.
    apply (ok_finished _ (visited_ok _ _ Hw) E). by eapply Hf.
Qed.

(** The search ends; what it reports are closed routes; when it reports
    nothing, no route from the root goes on forever. *)
Lemma reference_cycles_ok :
  exists cs, reference_cycles registry definition = Some cs /\
    (forall c, c ∈ cs -> closed_route registry definition c) /\ (cs = [] -> sn refs root).
Proof.
  unfold reference_cycles.
  destruct (visit_ok (visit_fuel registry) 0 ltac:(unfold visit_fuel; lia) root definition
    {| visiting := ∅; finished := ∅; path := []; cycles := [] |}) as (v & Hv & Hok & Hf).
  - constructor; simpl; try (by intros ? ?%not_elem_of_nil).
    + intros k. split; [by intros ?%not_elem_of_empty|by intros ?%not_elem_of_nil].
    + apply NoDup_nil_2.
    + constructor.
    + by intros _ k ?%not_elem_of_empty.
  - constructor; simpl; [repeat constructor|done|]. intros _. unfold stands_for. by rewrite decide_True.
  - simpl. lia.
  - unfold root_key in Hv. rewrite Hv. exists (cycles v). split_and!; [done|apply Hok|].
    intros E. apply (ok_finished _ (visited_ok _ _ Hok) E). by apply Hf.
Qed.
End Visit.

Section ReferenceClaims.
Context {obj : Type} `{PyObject obj}.

(** The check of the reference graph ends on any registry, and is exact:
    it reports nothing exactly when no chain of pinned references from the
    definition comes back to a coordinate it passed, and each report is a
    closed route of references that the definition leads to. *)
Theorem reference_check_exact (registry : gmap key (WorkflowDefinition obj)) (definition : WorkflowDefinition obj) :
  exists cs, reference_cycles registry definition = Some cs /\
    (cs = [] <-> forall k, rtc (edge (references registry definition)) (root_key definition) k ->
                   ~ tc (edge (references registry definition)) k k) /\
    forall c, c ∈ cs -> closed_route registry definition c.
Proof.
  destruct (reference_cycles_ok registry definition) as (cs & Hcs & Hc & Hsn). exists cs.
  split_and!; [done| |done]. split.
  - intros E k Hk. apply sn_no_cycle. eapply sn_step_rtc; [by apply Hsn|done].
  - intros Hno. destruct cs as [|c cs]; [done|exfalso].
    destruct (Hc c) as (k & between & -> & Hs & Hk); [left|]. apply (Hno k Hk). by eapply Sorted_cycle.
Qed.
End ReferenceClaims.

(** ** Static and dynamic bindings *)

Section Bound.
Context {obj : Type} `{PyObject obj}.
Implicit Types (bindings vars parent_vars : gmap string obj) (child_vars : option (gmap string obj))
  (declarations : list (WorkflowIODeclaration obj)).

Lemma literal_check_agrees (v : obj) t : _literal_matches_type v t = type_ok v t.
Proof. unfold _literal_matches_type, type_ok. by destruct t, (view v). Qed.

(** No reference: not a string, or one without the marker. *)
Definition no_reference (v : obj) : Prop := forall s, as_str v = Some s -> startswith "@" s = false.

(** What the save check accepts: every required name is bound, and what is
    bound is declared, and refers, or is a literal of the declared type. *)
Definition binds_well (direction : string) bindings declarations : Prop :=
  (forall d, d ∈ declarations -> decl_required d = true -> is_Some (bindings !! decl_name d)) /\
  forall k v, bindings !! k = Some v -> exists d, d ∈ declarations /\ decl_name d = k /\
    (_is_deferred_expression v direction = true \/ (no_reference v /\ type_ok v (decl_type d) = true)).

Lemma literalb (v : obj) :
  match as_str v with Some s => startswith "@" s | None => false end = false <-> no_reference v.
Proof. unfold no_reference. destruct (as_str v); naive_solver. Qed.

Lemma check_order {A} (deferred marked right : bool) (c : A) :
  (if deferred then None else if marked then Some c else if negb right then Some c else None) = None <->
  deferred = true \/ (marked = false /\ right = true).
Proof. destruct deferred, marked, right; simpl; naive_solver. Qed.

Lemma declared_once declarations (d d' : WorkflowIODeclaration obj) :
  NoDup (decl_name <$> declarations) -> d ∈ declarations -> d' ∈ declarations -> decl_name d = decl_name d' -> d = d'.
Proof.
  intros Hnd Hd Hd' E. pose proof (dict_of_fmap decl_name (fun d => d) declarations d Hnd Hd) as H1.
  rewrite E, (dict_of_fmap decl_name (fun d => d) declarations d' Hnd Hd') in H1. by simplify_eq.
Qed.

Lemma check_binding_none declarations direction unknown_code type_code k v :
  NoDup (decl_name <$> declarations) ->
  check_binding declarations direction unknown_code type_code k v = None <->
  exists d, d ∈ declarations /\ decl_name d = k /\
    (_is_deferred_expression v direction = true \/ (no_reference v /\ type_ok v (decl_type d) = true)).
Proof.
  intros Hnd. unfold check_binding. setoid_rewrite <-literalb.
  destruct (decide (k ∈ decl_name <$> declarations)) as [(d & -> & Hd)%list_elem_of_fmap|Hk].
  - rewrite (dict_of_fmap decl_name (fun d => d)), literal_check_agrees, check_order by done. split.
    + intros Hc. by exists d.
    + intros (d' & Hd' & Hn & Hor). by rewrite (declared_once declarations d' d) in Hor.
  - rewrite dict_of_fresh.
    + split; [done|]. intros (d & Hd & <- & _). by destruct Hk; apply list_elem_of_fmap_2.
    + by rewrite <-list_fmap_compose.
Qed.

Lemma binding_errors_nil nid direction bindings declarations missing_code unknown_code type_code :
  NoDup (decl_name <$> declarations) ->
  _check_bindings_against_declarations nid bindings declarations direction missing_code unknown_code type_code = []
  <-> binds_well direction bindings declarations.
Proof.
  intros Hnd. unfold _check_bindings_against_declarations, binds_well.
  rewrite app_nil, !fmap_nil_iff, filter_nil_iff. f_equiv.
  - apply forall_proper. intros d. destruct (bindings !! decl_name d) eqn:E; [|naive_solver].
    split; [intros; by eexists|]. by intros _ _ [_ ?].
  - split.
    + intros Hnil k v Hk%elem_of_map_to_list.
      destruct (check_binding declarations direction unknown_code type_code k v) as [c|] eqn:E.
      * exfalso. apply (not_elem_of_nil c). rewrite <-Hnil. apply list_elem_of_omap. by exists (k, v).
      * by apply check_binding_none in E.
    + intros Hall. destruct (omap _ _) as [|c l] eqn:E; [done|exfalso].
      assert (Hc : c ∈ c :: l) by left. rewrite <-E in Hc. apply list_elem_of_omap in Hc as ([k v] & Hk & Hc).
      apply elem_of_map_to_list, Hall in Hk. apply (check_binding_none _ _ unknown_code type_code) in Hk; [|done].
      congruence.
Qed.

(** The scope a direction reads: inputs have no child yet. *)
Definition scope_for (direction : string) child_vars : Prop :=
  if decide (direction = "input"%string) then child_vars = None else is_Some child_vars.

Lemma literal_resolves v parent_vars child_vars :
  no_reference v -> _resolve_expression v parent_vars child_vars = Ok v.
Proof.
  unfold no_reference, _resolve_expression. destruct (as_str v) as [s|]; [|done]. intros Hl. specialize (Hl s eq_refl).
  unfold startswith in Hl. apply bool_decide_eq_false, eq_None_not_Some in Hl.
  by rewrite Hl, !(after_prefix_head "@"%char).
Qed.

Lemma resolves_well v w direction parent_vars child_vars :
  scope_for direction child_vars -> _resolve_expression v parent_vars child_vars = Ok w ->
  _is_deferred_expression v direction = true \/ no_reference v.
Proof.
  unfold scope_for, _resolve_expression, _is_deferred_expression, no_reference, startswith. intros Hs.
  destruct (as_str v) as [s|]; [|by right].
  destruct (after_prefix "@parent." s) as [p|] eqn:Ep.
  { left. rewrite (bool_decide_eq_true_2 (is_Some (Some p))) by done. case_decide; [done|apply orb_true_r]. }
  destruct (after_prefix "@child." s) as [c|] eqn:Ec.
  { intros Hr. left. case_decide; [by subst|]. by rewrite bool_decide_eq_true_2. }
  destruct (after_prefix "@" s) as [a|] eqn:Ea; [done|]. intros _. right. intros s' [= <-]. by rewrite Ea.
Qed.

Lemma frame_binds_well direction bindings parent_vars child_vars declarations r :
  scope_for direction child_vars -> (forall k, is_Some (bindings !! k) -> k ∈ decl_name <$> declarations) ->
  frame_of bindings parent_vars child_vars declarations r -> binds_well direction bindings declarations.
Proof.
  intros Hs Hdecl [Hall _]. split.
  - intros d Hd Hq. destruct (Hall d Hd) as [(_ & ? & _)|[v Hv]]; [congruence|]. inversion Hv; [by eexists|congruence].
  - intros k v Hk. assert (Hin : k ∈ decl_name <$> declarations) by (apply Hdecl; by eexists).
    apply list_elem_of_fmap in Hin as (d & -> & Hd). exists d.
    split_and!; [done..|]. destruct (Hall d Hd) as [(? & _)|[u Hu]]; [congruence|].
    inversion Hu as [e u' He Hr Ht|]; [|congruence]. assert (e = v) as -> by congruence. subst u'.
    destruct (resolves_well v u direction parent_vars child_vars) as [?|Hl]; [done..|by left|right].
    split; [done|]. rewrite (literal_resolves v) in Hr by done. by simplify_eq.
Qed.

Lemma bind_declarations_err bindings parent_vars child_vars declarations acc e :
  bind_declarations bindings parent_vars child_vars declarations acc = Err e ->
  exists d, d ∈ declarations /\ bind_declaration bindings parent_vars child_vars d = Err e.
Proof.
  revert acc. induction declarations as [|d ds IH]; intros acc; simpl; [done|].
  destruct (bind_declaration bindings parent_vars child_vars d) as [o|e'] eqn:E; simpl.
  - intros (d' & ? & ?)%IH. exists d'. split; [by right|done].
  - intros [= ->]. exists d. split; [left|done].
Qed.

(** What can still fail in a run: a reference to the run's variables, or a
    blank default of a reference type. *)
Definition left_to_run (direction : string) bindings (d : WorkflowIODeclaration obj) : Prop :=
  (exists v, bindings !! decl_name d = Some v /\ _is_deferred_expression v direction = true) \/
  (bindings !! decl_name d = None /\ exists o s, has_default d = Some o /\ view o = V_str s /\ is_blank s = true /\
     (decl_type d = WorkflowValueType.TASK_REF \/ decl_type d = WorkflowValueType.AGENT_REF)).

Lemma default_type_checked (d : WorkflowIODeclaration obj) o :
  _validate_default_compatible d = Ok tt -> has_default d = Some o -> type_ok o (decl_type d) = false ->
  exists s, view o = V_str s /\ is_blank s = true /\
     (decl_type d = WorkflowValueType.TASK_REF \/ decl_type d = WorkflowValueType.AGENT_REF).
Proof.
  unfold _validate_default_compatible. intros Hv Hd Ht. rewrite Hd in Hv. apply ensure_ok in Hv as [_ Hv].
  unfold _check_default_type, type_ok in *.
  destruct (decl_type d), (view o); try done; try (apply ensure_ok in Hv as [Hv _]; congruence);
    apply negb_false_iff in Ht; eauto.
Qed.

Lemma bound_well_left direction bindings parent_vars child_vars declarations d e :
  binds_well direction bindings declarations -> NoDup (decl_name <$> declarations) -> d ∈ declarations ->
  _validate_default_compatible d = Ok tt ->
  bind_declaration bindings parent_vars child_vars d = Err e -> left_to_run direction bindings d.
Proof.
  intros [Hreq Hb] Hnd Hd Hv. unfold bind_declaration, _validate_value_type, left_to_run.
  destruct (bindings !! decl_name d) as [v|] eqn:E.
  - destruct (Hb _ _ E) as (d' & Hd' & Hn & Hor).
    assert (d' = d) as -> by (by eapply declared_once).
    destruct Hor as [?|[Hl Ht]]; [intros _; left; by exists v|]. by rewrite (literal_resolves v), Ht.
  - destruct (decl_required d) eqn:Hq; [destruct (Hreq d Hd Hq); congruence|]. simpl.
    destruct (has_default d) as [o|] eqn:Ho; [|done].
    destruct (type_ok o (decl_type d)) eqn:Ht; [done|]. intros _. right. split; [done|].
    destruct (default_type_checked d o Hv Ho Ht) as (s & ?). by exists o, s.
Qed.

(** Both directions bind in the same way. *)
Definition bind_known bindings parent_vars child_vars declarations : result BindingError (gmap string obj) :=
  let unknown := unknown_bindings bindings declarations in
  ensure bool_decide (unknown = []) else Unknown_bindings unknown in
  bind_declarations bindings parent_vars child_vars declarations ∅.

Lemma bind_known_ok direction bindings parent_vars child_vars declarations r :
  NoDup (decl_name <$> declarations) -> scope_for direction child_vars ->
  bind_known bindings parent_vars child_vars declarations = Ok r -> binds_well direction bindings declarations.
Proof.
  intros Hnd Hs. unfold bind_known. rewrite ensure_ok, bool_decide_eq_true, unknown_bindings_nil.
  rewrite bind_declarations_ok by (done || (intros; apply lookup_empty)).
  intros [Hk (r' & Hr & _)]. by eapply frame_binds_well.
Qed.

Lemma bind_known_err direction bindings parent_vars child_vars declarations e :
  NoDup (decl_name <$> declarations) -> (forall d, d ∈ declarations -> _validate_default_compatible d = Ok tt) ->
  binds_well direction bindings declarations -> bind_known bindings parent_vars child_vars declarations = Err e ->
  exists d, d ∈ declarations /\ left_to_run direction bindings d.
Proof.
  intros Hnd Hdef Hwell. unfold bind_known. rewrite bool_decide_eq_true_2.
  - intros (d & Hd & Herr)%bind_declarations_err. exists d. split; [done|]. eapply bound_well_left; eauto.
  - apply unknown_bindings_nil. intros k [v Hk]. destruct Hwell as [_ Hb].
    destruct (Hb _ _ Hk) as (d & Hd & <- & _). by apply list_elem_of_fmap_2.
Qed.
End Bound.

Section BindingClaims.
Context {obj : Type} `{PyObject obj}.

(** The binding check of a saved call is exact about what no run can
    change: when it reports an error, every run of the call fails to bind its
    inputs or to hand back its outputs, whatever the variables are; when it
    reports none, a run can only fail on a binding that refers to the run's
    variables, or on a blank default of a reference type, which the
    definition's own validators let through. *)
Theorem io_check_exact (nid : string) (ib ob : gmap string obj) (child : WorkflowDefinition obj) :
  NoDup (decl_name <$> inputs child) -> NoDup (decl_name <$> outputs child) ->
  (forall d, d ∈ inputs child ++ outputs child -> _validate_default_compatible d = Ok tt) ->
  let errors := _check_subworkflow_io_for_node nid ib ob (inputs child) (outputs child) in
  (errors <> [] -> forall parent_vars child_vars resolved projected,
     ~ (resolve_input_bindings ib parent_vars (inputs child) = Ok resolved /\
        project_output_bindings ob child_vars (outputs child) (Some parent_vars) = Ok projected)) /\
  (errors = [] -> forall parent_vars child_vars e,
     (resolve_input_bindings ib parent_vars (inputs child) = Err e ->
        exists d, d ∈ inputs child /\ left_to_run "input" ib d) /\
     (project_output_bindings ob child_vars (outputs child) (Some parent_vars) = Err e ->
        exists d, d ∈ outputs child /\ left_to_run "output" ob d)).
Proof.
  intros Hni Hno Hdef errors. subst errors. unfold _check_subworkflow_io_for_node.
  rewrite app_nil, !binding_errors_nil by done. split.
  - intros Hbad parent_vars child_vars r p [Hr Hp]. apply Hbad. split.
    + by apply (bind_known_ok "input" ib parent_vars None _ r).
    + by apply (bind_known_ok "output" ob parent_vars (Some child_vars) _ p); [|eexists|].
  - intros [Hwi Hwo] parent_vars child_vars e. split; intros Herr.
    + apply (bind_known_err "input" ib parent_vars None _ e); [done| |done..]. set_solver.
    + apply (bind_known_err "output" ob parent_vars (Some child_vars) _ e); [done| |done..]. set_solver.
Qed.
End BindingClaims.

(** ** Examples *)
Section Samples.
Import Plain.

Definition call_of (i subworkflow_id version : string) (input_bindings : list (string * pyobj)) : WorkflowNode pyobj :=
  sample_node i SUBWORKFLOW [("subworkflow_id", Py_str subworkflow_id); ("version", Py_str version);
    ("input_bindings", Py_dict input_bindings); ("output_bindings", Py_dict [])]%string.

Definition published (i version : string) (declared_inputs : list (WorkflowIODeclaration pyobj))
    (ns : list (WorkflowNode pyobj)) : WorkflowDefinition pyobj := {|
  wf_id := i; wf_name := i; wf_description := EmptyString;
  workflow_type := WorkflowType.SEQUENTIAL_PIPELINE; wf_version := version; inputs := declared_inputs; outputs := [];
  is_subworkflow := true; nodes := ns; edges := []; wf_created_by := "ada"; wf_created_at := 0;
  wf_updated_at := 0; wf_revision := 1 |}.

(** Two published versions that call each other, and one that takes inputs. *)
Definition published_wfs : gmap key (WorkflowDefinition pyobj) := {[
  ("ping", "1.0.0") := published "ping" "1.0.0" [] [call_of "a" "pong" "2.0.0" []];
  ("pong", "2.0.0") := published "pong" "2.0.0" [] [call_of "b" "ping" "1.0.0" []; call_of "c" "lead" "1.0.0" []];
  ("lead", "1.0.0") := published "lead" "1.0.0" sample_inputs []]}%string.

Definition caller (calls : list (WorkflowNode pyobj)) : WorkflowDefinition pyobj := published "main" "1.0.0" [] calls.

Example reference_cycle_reported :
  reference_cycles published_wfs (caller [call_of "x" "ping" "1.0.0" []]) =
  Some [[("ping", "1.0.0"); ("pong", "2.0.0"); ("ping", "1.0.0")]]%string.
Proof. vm_compute. reflexivity. Qed.
Example self_call_reported :
  reference_cycles (<[("main", "1.0.0")%string := caller []]> published_wfs)
    (caller [call_of "x" "main" " 1.0.0 " []]) = Some [[("main", "1.0.0"); ("main", "1.0.0")]]%string.
Proof. vm_compute. reflexivity. Qed.
Example unpublished_call_skipped :
  reference_cycles published_wfs (caller [call_of "x" "ping" "9.0.0" []]) = Some [].
Proof. vm_compute. reflexivity. Qed.
Example io_reported :
  code <$> validate_subworkflow_io published_wfs (caller [
    call_of "v" "lead" "1.0.0" [("lead", Py_str "@parent.team.lead"); ("depth", Py_int 3)];
    call_of "w" "lead" "1.0.0" [("depth", Py_bool true); ("width", Py_int 3)];
    call_of "x" "lead" "1.0.0" [("lead", Py_str "@child.lead")];
    call_of "y" "lead" "9.0.0" [];
    call_of "z" "lead" " " []; call_of "z" " " "1.0.0" []])%string =
  [SUBWORKFLOW_INPUT_MISSING; SUBWORKFLOW_INPUT_UNKNOWN; SUBWORKFLOW_INPUT_TYPE_MISMATCH;
   SUBWORKFLOW_INPUT_TYPE_MISMATCH; SUBWORKFLOW_NOT_FOUND; SUBWORKFLOW_VERSION_UNPINNED; SUBWORKFLOW_REF_MISSING].
Proof. vm_compute. reflexivity. Qed.

(** A binding of a boolean to an integer fails in every run; a reference to a
    variable can fail in some. *)
Lemma io_check_exact_witness :
  (forall parent_vars child_vars resolved projected,
     ~ (resolve_input_bindings {["lead" := Py_str "ada"; "depth" := Py_bool true]}%string parent_vars sample_inputs = Ok resolved /\
        project_output_bindings ∅ child_vars [] (Some parent_vars) = Ok projected)) /\
  exists d, d ∈ sample_inputs /\ left_to_run "input" sample_bindings d.
Proof.
  assert (Hnd : NoDup (decl_name <$> sample_inputs)) by (by apply (bool_decide_unpack _); vm_compute).
  assert (Hdef : forall d, d ∈ sample_inputs ++ [] -> _validate_default_compatible d = Ok tt).
  { apply Forall_forall. repeat constructor. }
  split.
  - apply (io_check_exact "x" {["lead" := Py_str "ada"; "depth" := Py_bool true]}%string ∅
      (published "lead" "1.0.0" sample_inputs []) Hnd (NoDup_nil_2) Hdef).
    vm_compute. discriminate.
  - refine (proj1 (proj2 (io_check_exact "x" sample_bindings ∅ (published "lead" "1.0.0" sample_inputs [])
      Hnd (NoDup_nil_2) Hdef) _ ∅ ∅ (Cannot_resolve "lead" (Missing_segment "team.lead" "team")) ) _);
      vm_compute; reflexivity.
Defined.
End Samples.
