(* ===== verification/SubworkflowNesting.v ===== *)
(** * SubworkflowNesting

    The checks at save time and the walk of an activation together: the call
    of a workflow whose reference graph was checked does not nest deeper than
    there are published versions. *)

From stdpp Require Import gmap strings list sorting relations.
From Stdlib Require Import ZArith Lia.
From S2P Require Import Prelude Graphs TaskEnums PlanUnits.
From S2P Require TaskEngine.
From S2P Require Import WorkflowModel WorkflowGraph WorkflowRuns WorkflowBindings.
From S2P Require Import WorkflowWalk WorkflowActivation SubworkflowChecks.
#[local] Open Scope py_scope.
#[local] Open Scope nat_scope.
Import TaskEngine (CreateTaskData, create_data_ok, data_dependencies).
Import WorkflowNodeType WorkflowEdgeType.

(** ** Routes without cycles *)

Section Routes.
Context {A : Type} `{Countable A} (R : relation A).

Lemma route_NoDup (l : list A) :
  Sorted R l -> (forall x, x ∈ l -> ~ tc R x x) -> NoDup l.
Proof.
  induction l as [|x l IH]; intros Hs Hc; [constructor|]. constructor.
  - intros Hx. apply (Hc x); [left|]. destruct l as [|y l]; [by apply not_elem_of_nil in Hx|].
    apply Sorted_inv in Hs as [Hs Hh]. inversion Hh; subst.
    eapply tc_rtc_r; [by apply tc_once|by eapply Sorted_reaches].
  - apply IH; [by inversion Hs|]. intros y Hy. apply Hc. by right.
Qed.

(** Every member but the first is entered by a step. *)
Lemma route_entered (P : A -> Prop) x l :
  (forall a b, R a b -> P b) -> Sorted R (x :: l) -> Forall P l.
Proof.
  intros Hp. revert x. induction l as [|y l IH]; intros x [Hs Hh]%Sorted_inv; [done|].
  inversion Hh; subst. constructor; [by eapply Hp|by eapply IH].
Qed.
End Routes.

(** ** Walks that do not run into the limit *)

Section Calm.
Context {obj : Type} `{PyObject obj} `{!SetOrder string} `{!SetOrder WorkflowEdgeType}.

Definition shallow (e : WalkError) : Prop := forall a b, e <> SubworkflowDepthExceeded a b.

Definition calm {A} (m : Walking A) : Prop := forall w, wp m w (fun _ _ => True) (fun e _ => shallow e).

Lemma calm_lift {A} (r : result WalkError A) : (forall e, r = Err e -> shallow e) -> calm (lift r).
Proof. intros Hr w. by apply wp_lift. Qed.

Lemma calm_bind {A B} (m : Walking A) (f : A -> Walking B) :
  calm m -> (forall a, calm (f a)) -> calm (m ≫= f).
Proof. intros Hm Hf w. apply wp_bind. eapply wp_mono; [apply Hm|intros a w' _; apply Hf|done]. Qed.

Lemma calm_bind_lift {A B} (r : result WalkError A) (f : A -> Walking B) :
  (forall e, r = Err e -> shallow e) -> (forall a, r = Ok a -> calm (f a)) -> calm (lift r ≫= f).
Proof. intros Hr Hf w. apply wp_bind, wp_lift; [intros a Ha; by apply Hf|done]. Qed.

Lemma calm_bind_raised {E A B} (g : E -> WalkError) (r : result E A) (f : A -> Walking B) :
  (forall e, shallow (g e)) -> (forall a, r = Ok a -> calm (f a)) -> calm (raised g r ≫= f).
Proof. intros Hg Hf. apply calm_bind_lift; destruct r; naive_solver. Qed.

Lemma calm_ret {A} (a : A) : calm (mret a : Walking A).
Proof. done. Qed.

Lemma calm_update f : calm (update_state f).
Proof. done. Qed.

Lemma calm_state : calm get_state.
Proof. done. Qed.

(** An error the code of a handler names. *)
Ltac named_error := repeat (case_match || intros [= <-] || done).

Lemma new_node_shallow ne e : new_node_execution ne = Err e -> shallow e.
Proof. unfold new_node_execution. named_error. Qed.

Lemma plain_shallow i t s e : plain_execution i t s = Err e -> shallow e.
Proof. apply new_node_shallow. Qed.

Lemma literal_shallow {A} (value : A -> string) members nid field raw e :
  literal value members nid field raw = Err e -> shallow e.
Proof. unfold literal. named_error. Qed.

Lemma parse_shallow config (n : WorkflowNode obj) nid e : parse_task_config config n nid = Err e -> shallow e.
Proof.
  unfold parse_task_config.
  destruct (literal TaskType.task_type_value _ _ _ _) eqn:E1; simpl; [|intros [= <-]; by eapply literal_shallow].
  destruct (literal Priority.priority_value _ _ _ _) eqn:E2; simpl; [|intros [= <-]; by eapply literal_shallow].
  destruct (literal Complexity.complexity_value _ _ _ _) eqn:E3; simpl; [done|intros [= <-]; by eapply literal_shallow].
Qed.

Lemma subworkflow_config_shallow i (c : gmap string obj) e : subworkflow_config i c = Err e -> shallow e.
Proof. unfold subworkflow_config. named_error. Qed.

(** The last step of a handler that makes no task. *)
Lemma then_plain_shallow {B} i t s (k : WorkflowNodeExecution -> B) e :
  rbind (plain_execution i t s) (fun ne => Ok (k ne)) = Err e -> shallow e.
Proof. destruct (plain_execution i t s) eqn:E; simpl; [done|]. intros [= <-]. by eapply plain_shallow. Qed.

Lemma requalified_shallow {L} i (r : result WalkError (L * WorkflowNodeExecution)) e :
  (forall e, r = Err e -> shallow e) ->
  match r with Ok (l, ne) => Ok (l, requalify i ne) | Err e => Err e end = Err e -> shallow e.
Proof. destruct r as [[l ne]|e']; [done|]. intros Hr [= <-]. by apply Hr. Qed.

(** *** Handlers *)

Context (create_task : list (CreateTaskData * string) -> CreateTaskData -> option string).
Context (project activated_by : string) (max_subworkflow_depth : nat).

Lemma assignment_shallow nid q (n : WorkflowNode obj) adjacency node_map l e :
  _handle_agent_assignment nid q n adjacency node_map l = Err e -> shallow e.
Proof.
  unfold _handle_agent_assignment. destruct (config n !! _) as [o|]; simpl; [|apply then_plain_shallow].
  destruct (truthy o); simpl; [|apply then_plain_shallow].
  destruct (find_downstream_task_ids _ _ _); simpl; [apply then_plain_shallow|by intros [= <-]].
Qed.

Lemma verification_shallow nid (n : WorkflowNode obj) outgoing adjacency v l e :
  process_verification_node nid n outgoing adjacency v l = Err e -> shallow e.
Proof. unfold process_verification_node. apply then_plain_shallow. Qed.

Lemma conditional_shallow nid (n : WorkflowNode obj) ctx outgoing adjacency l e :
  process_conditional_node nid n ctx outgoing adjacency l = Err e -> shallow e.
Proof.
  unfold process_conditional_node. destruct (condition_value _ _) as [res|]; [|by intros [= <-]].
  destruct res; apply then_plain_shallow.
Qed.

Lemma create_calm nid c : calm (engine_create_task create_task nid c).
Proof. intros w. unfold wp, engine_create_task. by destruct (create_task _ _). Qed.

Lemma task_calm nid (n : WorkflowNode obj) reverse_adj node_map l :
  calm (process_task_node create_task project activated_by nid n reverse_adj node_map l).
Proof.
  unfold process_task_node. apply calm_bind_lift; [apply parse_shallow|]. intros parsed _.
  apply calm_bind_raised; [done|]. intros ids _. apply calm_bind_lift; [intros e; named_error|]. intros u _.
  apply calm_bind; [apply create_calm|]. intros t. apply calm_bind_lift; [apply new_node_shallow|].
  intros ne _. apply calm_ret.
Qed.

(** *** The walk of checked workflows *)

Context (registry : gmap key (WorkflowDefinition obj)) (definition : WorkflowDefinition obj).
Context (Hplain : forall i v, is_Some (registry !! (i, v)) -> strip v = v).
Context (Hclean : sn (edge (references registry definition)) (root_key definition)).
Context (Hlimit : size registry < max_subworkflow_depth).
#[local] Notation refs := (edge (references registry definition)).
#[local] Notation root := (root_key definition).
#[local] Notation get := (fun i v => registry !! (i, v)).

(** The frames above and including this one are a route from the root. *)
Definition on_route (d : WorkflowDefinition obj) (frame : ExecutionFrame (obj:=obj)) : Prop :=
  exists above k, Sorted refs (above ++ [k]) /\ head (above ++ [k]) = Some root /\
    stands_for registry definition k = Some d /\ WorkflowWalk.depth frame = length above.

Lemma route_acyclic l x : head l = Some root -> Sorted refs l -> x ∈ l -> ~ tc refs x x.
Proof.
  destruct l as [|r l]; [done|]. intros [= ->] Hs Hx. apply sn_no_cycle.
  eapply sn_step_rtc; [done|by eapply Sorted_reaches].
Qed.

Lemma entered_published a b : refs a b -> b ∈ dom registry.
Proof.
  unfold edge, references. destruct (stands_for registry definition a) as [d|]; [|by intros ?%not_elem_of_nil].
  intros (n & Hn & Hb)%list_elem_of_omap. destruct (child_of registry n) as [[k c]|] eqn:Hc; [|done].
  injection Hb as <-. destruct (child_of_elem registry definition d n k c Hn Hc) as [Hr _]. by eapply elem_of_dom_2.
Qed.

Lemma route_depth d frame : on_route d frame -> WorkflowWalk.depth frame <= size registry.
Proof.
  intros (above & k & Hs & Hh & _ & ->). set (l := above ++ [k]) in *.
  assert (Hnd : NoDup l) by (apply (route_NoDup refs); [done|intros; by eapply route_acyclic]).
  assert (Hlen : length l = S (length above)) by (subst l; rewrite length_app; simpl; lia).
  destruct l as [|r l']; [done|]. simpl in Hlen. injection Hlen as <-. apply NoDup_cons in Hnd as [_ Hnd].
  rewrite <-(size_list_to_set (C := gset key)), <-(size_dom (D := gset key) registry) by done.
  apply subseteq_size. intros x Hx%elem_of_list_to_set.
  assert (Hall : Forall (fun b => b ∈ dom registry) l')
    by (eapply route_entered; [apply entered_published|done]).
  by apply (proj1 (Forall_forall _ _) Hall).
Qed.

(** A call the walk follows is one the check followed. *)
Lemma call_checked (n : WorkflowNode obj) nid i v ib ob cd :
  node_type n = SUBWORKFLOW -> subworkflow_config nid (config n) = Ok (i, v, ib, ob) ->
  registry !! (i, v) = Some cd -> child_of registry n = Some ((i, v), cd).
Proof.
  intros Ht Hc Hr. unfold child_of. rewrite decide_True by done.
  unfold subworkflow_config, text_of in Hc. unfold extract_subworkflow_config, pinned_version.
  destruct (config n !! "subworkflow_id"%string ≫= as_str) as [s|]; [|done].
  destruct (is_blank s); [done|]. destruct (config n !! "version"%string) as [o|]; [|done]. simpl in Hc.
  unfold as_str in Hc. destruct (view o) as [| | | |v'| | |]; try done. destruct (is_blank v'); [done|].
  destruct (dict_of_config (config n !! "input_bindings"%string)); [|done].
  destruct (dict_of_config (config n !! "output_bindings"%string)); [|done]. injection Hc as -> -> _ _.
  rewrite (Hplain i v) by by eexists. by rewrite Hr.
Qed.

Lemma nested_on_route d frame (n : WorkflowNode obj) nid i v ib ob cd child :
  on_route d frame -> n ∈ nodes d -> node_type n = SUBWORKFLOW ->
  subworkflow_config nid (config n) = Ok (i, v, ib, ob) -> registry !! (i, v) = Some cd ->
  WorkflowWalk.depth child = S (WorkflowWalk.depth frame) -> on_route cd child.
Proof.
  intros (above & k & Hs & Hh & Hk & Hd) Hn Ht Hc Hr Hchild. pose proof (call_checked n nid i v ib ob cd Ht Hc Hr) as Hcall.
  destruct (child_of_elem registry definition d n (i, v) cd Hn Hcall) as [_ He]. specialize (He k Hk).
  assert (Hs' : Sorted refs (above ++ [k; (i, v)])) by by apply Sorted_snoc.
  exists (above ++ [k]), (i, v). rewrite <-app_assoc. simpl. split_and!; [done|by destruct above| |].
  - unfold stands_for. rewrite decide_False; [done|]. intros E. eapply (route_acyclic (above ++ [k; (i, v)]) root).
    + by destruct above.
    + done.
    + rewrite <-E. apply elem_of_app. right. right. by left.
    + destruct above as [|r above]; simpl in *; injection Hh as ->; rewrite E in Hs'.
      * by apply (Sorted_cycle refs root []).
      * apply (Sorted_cycle refs root (above ++ [k])). by rewrite <-app_assoc.
  - rewrite length_app. simpl. lia.
Qed.

Definition walks_calmly (walk : WorkflowDefinition obj -> ExecutionFrame -> string -> Walking (gmap string obj)) : Prop :=
  forall d frame prefix, on_route d frame -> calm (walk d frame prefix).

Lemma subworkflow_calm walk nid q d (n : WorkflowNode obj) frame l :
  walks_calmly walk -> on_route d frame -> n ∈ nodes d -> node_type n = SUBWORKFLOW ->
  calm (_process_subworkflow_node (Some get) max_subworkflow_depth walk nid q n frame l).
Proof.
  intros Hwalk Hroute Hn Ht. pose proof (route_depth d frame Hroute) as Hdepth. unfold _process_subworkflow_node.
  apply calm_bind_lift; [done|]. intros g [= <-]. apply calm_bind_lift; [apply subworkflow_config_shallow|].
  intros [[[i v] ib] ob] Hc. apply calm_bind_lift.
  { intros e. replace (WorkflowWalk.depth frame + 1 <=? max_subworkflow_depth) with true; [done|].
    symmetry. apply Nat.leb_le. lia. }
  intros u _. apply calm_bind_lift; [intros e; destruct (registry !! (i, v)); [done|by intros [= <-]]|].
  intros cd Hcd. apply calm_bind_raised; [done|]. intros resolved _. apply calm_bind_lift.
  { intros e. unfold new_frame. named_error. }
  intros child Hchild. apply calm_bind.
  { apply Hwalk. eapply (nested_on_route d frame n nid i v ib ob); [done|done|done|done| |].
    - destruct (registry !! (i, v)); naive_solver.
    - unfold new_frame in Hchild. apply ensure_ok in Hchild as [_ [_ [= <-]]%ensure_ok]. simpl. lia. }
  intros vars. apply calm_bind_raised; [done|]. intros projected _. apply calm_bind; [apply calm_state|]. intros s.
  apply calm_bind_raised; [done|]. intros ids _. apply calm_bind_lift; [apply plain_shallow|]. intros ne _.
  apply calm_ret.
Qed.

Lemma process_calm walk nid q d (n : WorkflowNode obj) adjacency reverse_adj outgoing frame node_map l :
  walks_calmly walk -> on_route d frame -> n ∈ nodes d ->
  calm (_process_node_in_frame create_task (Some get) project activated_by max_subworkflow_depth walk
    nid q n adjacency reverse_adj outgoing frame node_map l).
Proof.
  intros Hwalk Hroute Hn. unfold _process_node_in_frame. destruct (node_type n) eqn:Ht;
    try (apply calm_bind_lift; [apply plain_shallow|intros; apply calm_ret]).
  - apply calm_bind; [apply task_calm|]. intros done_. apply calm_ret.
  - apply calm_lift, assignment_shallow.
  - apply calm_lift. intros e. apply requalified_shallow, conditional_shallow.
  - by eapply subworkflow_calm.
  - apply calm_lift. intros e. apply requalified_shallow, verification_shallow.
Qed.

Lemma node_map_member (d : WorkflowDefinition obj) i n : node_map_of d !! i = Some n -> n ∈ nodes d.
Proof.
  unfold node_map_of, dict_of. intros Hi%elem_of_list_to_map_2. apply elem_of_reverse, list_elem_of_fmap in Hi.
  by destruct Hi as (m & [= _ ->] & Hm).
Qed.

Lemma walk_nodes_calm walk d adjacency reverse_adj outgoing frame prefix ids l :
  walks_calmly walk -> on_route d frame ->
  calm (walk_nodes create_task (Some get) project activated_by max_subworkflow_depth walk
    adjacency reverse_adj outgoing frame prefix (node_map_of d) ids l).
Proof.
  intros Hwalk Hroute. revert l. induction ids as [|i ids IH]; intros l; simpl; [apply calm_ret|].
  apply calm_bind_lift; [intros e; named_error|]. intros n Hn.
  assert (n ∈ nodes d) by (apply (node_map_member d i); destruct (node_map_of d !! i); naive_solver).
  apply calm_bind; [|intros; apply IH]. case_decide.
  - apply calm_bind_lift; [apply new_node_shallow|]. intros ne _. apply calm_bind; [apply calm_update|].
    intros u. apply calm_ret.
  - apply calm_bind; [by eapply process_calm|]. intros ne. apply calm_bind; [apply calm_update|].
    intros u. apply calm_ret.
Qed.

Lemma frames_calm fuel :
  walks_calmly (_walk_frame create_task (Some get) project activated_by max_subworkflow_depth fuel).
Proof.
  induction fuel as [|fuel IH]; intros d frame prefix Hroute; simpl; [by apply calm_lift; intros e [= <-]|].
  destruct (build_adjacency_maps d) as [[adjacency reverse_adj] outgoing].
  apply calm_bind_raised; [done|]. intros ids _.
  apply calm_bind; [by apply walk_nodes_calm|]. intros l. apply calm_ret.
Qed.

Lemma prepare_calm (repo : string -> option (WorkflowDefinition obj)) definition_id execution_id context now :
  repo definition_id = Some definition ->
  calm (prepare create_task (Some get) project activated_by max_subworkflow_depth repo
    definition_id execution_id context now).
Proof.
  intros Hrepo. unfold prepare. apply calm_bind_lift.
  { intros e. unfold _load_and_validate. rewrite Hrepo. named_error. }
  intros d Hd. unfold _load_and_validate in Hd. rewrite Hrepo in Hd. apply ensure_ok in Hd as [_ [= <-]].
  apply calm_bind_lift; [intros e; unfold new_frame; named_error|]. intros frame Hframe.
  apply calm_bind.
  { apply frames_calm. exists [], root. split_and!; [repeat constructor|done| |].
    - unfold stands_for. by rewrite decide_True.
    - unfold new_frame in Hframe. by apply ensure_ok in Hframe as [_ [_ [= <-]]%ensure_ok]. }
  intros vars. apply calm_bind; [apply calm_state|]. intros s.
  apply calm_bind_lift; [intros e; named_error|]. intros u _. apply calm_ret.
Qed.
End Calm.

Section NestingClaims.
Context {obj : Type} `{PyObject obj} `{!SetOrder string} `{!SetOrder WorkflowEdgeType}.

(** A workflow whose reference graph passes the save check nests its calls
    no deeper than there are published versions: with a limit above their
    number, activating it is never refused for its depth, whatever the services
    around the walk do. Published versions have no spaces around them. *)
Theorem checked_calls_within_limit
    (create_task : list (CreateTaskData * string) -> CreateTaskData -> option string)
    (project activated_by : string) (max_subworkflow_depth : nat)
    (registry : gmap key (WorkflowDefinition obj)) (repo : string -> option (WorkflowDefinition obj))
    (definition : WorkflowDefinition obj) (rows : Rows) (definition_id execution_id : string)
    (context : gmap string obj) (now : Z) (a b : nat) :
  (forall i v, is_Some (registry !! (i, v)) -> strip v = v) ->
  repo definition_id = Some definition ->
  validate_subworkflow_graph registry definition = [] ->
  size registry < max_subworkflow_depth ->
  (activate create_task (Some (fun i v => registry !! (i, v))) project activated_by max_subworkflow_depth repo
     rows definition_id execution_id context now).2 <> Err (SubworkflowDepthExceeded a b).
Proof.
  intros Hplain Hrepo Hgraph Hlimit. destruct (reference_cycles_ok registry definition) as (cs & Hcs & _ & Hsn).
  unfold validate_subworkflow_graph in Hgraph. rewrite Hcs, fmap_nil_iff in Hgraph.
  pose proof (prepare_calm create_task project activated_by max_subworkflow_depth registry definition Hplain
    (Hsn Hgraph) Hlimit repo definition_id execution_id context now Hrepo {| state := empty_state; created := [] |}) as Hc.
  unfold activate, wp in *. destruct (prepare _ _ _ _ _ _ _ _ _ _ _) as [w [e|e]].
  - by destruct (save_row rows e) as [rows' [[]|]].
  - simpl. intros [= ->]. by apply (Hc a b).
Qed.
End NestingClaims.

(** ** Examples *)
Section Samples.
Import Plain.

Definition main_of (call : WorkflowNode pyobj) : WorkflowDefinition pyobj := {|
  wf_id := "main"; wf_name := "main"; wf_description := EmptyString;
  workflow_type := WorkflowType.SEQUENTIAL_PIPELINE; wf_version := "1.0.0"; inputs := []; outputs := [];
  is_subworkflow := false; nodes := [sample_node "s" START []; call; sample_node "e" END []]%string;
  edges := [sample_edge "s" (node_id call) SEQUENTIAL; sample_edge (node_id call) "e" SEQUENTIAL]%string;
  wf_created_by := "ada"; wf_created_at := 0; wf_updated_at := 0; wf_revision := 1 |}.

Definition nested_wfs : gmap key (WorkflowDefinition pyobj) := {[
  ("leaf", "1.0.0") := leaf; ("wrapper", "1.0.0") := wrapper]}%string.

Definition activated (d : WorkflowDefinition pyobj) (max_depth : nat) :=
  (activate sample_create (Some (fun i v => nested_wfs !! (i, v))) "p" "ada" max_depth (fun _ => Some d)
     ∅ "d" "run-1" ∅ 7).2.

Lemma checked_calls_within_limit_witness :
  activated (main_of (sub_of "wrapper")) 3 <> Err (SubworkflowDepthExceeded 2 1).
Proof.
  apply (checked_calls_within_limit sample_create "p" "ada" 3 nested_wfs
    (fun _ => Some (main_of (sub_of "wrapper"))) (main_of (sub_of "wrapper"))).
  - intros i v. unfold nested_wfs.
    rewrite !lookup_insert_is_Some, lookup_singleton_is_Some. intros [[= <- <-]|[_ [= <- <-]]]; reflexivity.
  - reflexivity.
  - vm_compute. reflexivity.
  - apply Nat.ltb_lt. vm_compute. reflexivity.
Defined.

(** The save check strips the pinned version; the activation and the scan for
    parents do not, so a padded pin passes the one and is not found by the
    other. *)
Lemma padded_pin_passes_check :
  let d := main_of (call_of "c" "leaf" " 1.0.0" []) in
  run_subworkflow_validation nested_wfs d = [] /\ activated d 3 = Err (SubworkflowNotFound "leaf" " 1.0.0").
Proof. split; vm_compute; reflexivity. Qed.

(** Nor does the check miss absent bindings, which the activation refuses. *)
Lemma absent_bindings_pass_check :
  let d := main_of (sample_node "c" SUBWORKFLOW [("subworkflow_id", Py_str "leaf"); ("version", Py_str "1.0.0")]%string) in
  run_subworkflow_validation nested_wfs d = [] /\ activated d 3 = Err (Inputs_not_dict "c").
Proof. split; vm_compute; reflexivity. Qed.
End Samples.
