(* ===== verification/Autonomy.v ===== *)
(** * Autonomy

    What agents may do unasked: autonomy levels and action types
    ([core/autonomy_enums.py], [security/autonomy/enums.py],
    [security/action_types.py]), the presets of
    [security/autonomy/models.py] and their resolution
    ([security/autonomy/resolver.py], [core/effective_autonomy.py]). *)

From stdpp Require Import gmap strings list.
From Stdlib Require Import Lia ZArith Ascii.
From S2P Require Import Prelude.
#[local] Open Scope py_scope.
#[local] Open Scope nat_scope.

Module AutonomyLevel.

Inductive AutonomyLevel :=
| FULL | SEMI | SUPERVISED | LOCKED.

#[export] Instance autonomy_level_eq_dec : EqDecision AutonomyLevel.
Proof. solve_decision. Defined.

Definition members : list AutonomyLevel :=
  [FULL; SEMI; SUPERVISED; LOCKED].

Lemma autonomy_level_members_all s : s ∈ members.
Proof. revert s. enum_elem. Qed.

#[export] Instance autonomy_level_countable : Countable AutonomyLevel :=
  enum_countable members autonomy_level_members_all.

Definition autonomy_level_value (s : AutonomyLevel) : string :=
  match s with
  | FULL => "full"
  | SEMI => "semi"
  | SUPERVISED => "supervised"
  | LOCKED => "locked"
  end.

#[export] Instance autonomy_level_value_inj : Inj (=) (=) autonomy_level_value.
Proof. intros [] []; simpl; congruence. Qed.

End AutonomyLevel.
Export (hints) AutonomyLevel.

Module ActionType.

Inductive ActionType :=
| CODE_READ | CODE_WRITE | CODE_CREATE | CODE_DELETE | CODE_REFACTOR |
TEST_WRITE | TEST_RUN | DOCS_WRITE | DESIGN_GENERATE | DESIGN_DELETE |
VCS_COMMIT | VCS_PUSH | VCS_BRANCH | DEPLOY_STAGING | DEPLOY_PRODUCTION |
PUBLISH_STAGING | PUBLISH_PRODUCTION | COMMS_INTERNAL | COMMS_EXTERNAL |
BUDGET_SPEND | BUDGET_EXCEED | ORG_HIRE | ORG_FIRE | ORG_PROMOTE | ORG_DELEGATE
| VCS_READ | DB_QUERY | DB_MUTATE | DB_ADMIN | ARCH_DECIDE |
PLAN_EXTEND_WORKSTREAM | TOOL_CREATE | MEMORY_READ | KNOWLEDGE_INGEST |
KNOWLEDGE_REINDEX | BROWSER_NAVIGATE | BROWSER_SCREENSHOT | BROWSER_DIFF |
BROWSER_ACCESSIBILITY_SCAN | BROWSER_SPEC | EXTERNAL_DATA_REQUEST | RESEARCH_RUN
| DESKTOP_LAUNCH | DESKTOP_CLICK | DESKTOP_TYPE | DESKTOP_KEY |
DESKTOP_SCREENSHOT | DESKTOP_SCROLL.

#[export] Instance action_type_eq_dec : EqDecision ActionType.
Proof. solve_decision. Defined.

Definition members : list ActionType :=
  [CODE_READ; CODE_WRITE; CODE_CREATE; CODE_DELETE; CODE_REFACTOR; TEST_WRITE;
   TEST_RUN; DOCS_WRITE; DESIGN_GENERATE; DESIGN_DELETE; VCS_COMMIT; VCS_PUSH;
   VCS_BRANCH; DEPLOY_STAGING; DEPLOY_PRODUCTION; PUBLISH_STAGING;
   PUBLISH_PRODUCTION; COMMS_INTERNAL; COMMS_EXTERNAL; BUDGET_SPEND;
   BUDGET_EXCEED; ORG_HIRE; ORG_FIRE; ORG_PROMOTE; ORG_DELEGATE; VCS_READ;
   DB_QUERY; DB_MUTATE; DB_ADMIN; ARCH_DECIDE; PLAN_EXTEND_WORKSTREAM;
   TOOL_CREATE; MEMORY_READ; KNOWLEDGE_INGEST; KNOWLEDGE_REINDEX;
   BROWSER_NAVIGATE; BROWSER_SCREENSHOT; BROWSER_DIFF;
   BROWSER_ACCESSIBILITY_SCAN; BROWSER_SPEC; EXTERNAL_DATA_REQUEST;
   RESEARCH_RUN; DESKTOP_LAUNCH; DESKTOP_CLICK; DESKTOP_TYPE; DESKTOP_KEY;
   DESKTOP_SCREENSHOT; DESKTOP_SCROLL].

Lemma action_type_members_all s : s ∈ members.
Proof. revert s. enum_elem. Qed.

#[export] Instance action_type_countable : Countable ActionType :=
  enum_countable members action_type_members_all.

Definition action_type_value (s : ActionType) : string :=
  match s with
  | CODE_READ => "code:read"
  | CODE_WRITE => "code:write"
  | CODE_CREATE => "code:create"
  | CODE_DELETE => "code:delete"
  | CODE_REFACTOR => "code:refactor"
  | TEST_WRITE => "test:write"
  | TEST_RUN => "test:run"
  | DOCS_WRITE => "docs:write"
  | DESIGN_GENERATE => "design:generate"
  | DESIGN_DELETE => "design:delete"
  | VCS_COMMIT => "vcs:commit"
  | VCS_PUSH => "vcs:push"
  | VCS_BRANCH => "vcs:branch"
  | DEPLOY_STAGING => "deploy:staging"
  | DEPLOY_PRODUCTION => "deploy:production"
  | PUBLISH_STAGING => "publish:staging"
  | PUBLISH_PRODUCTION => "publish:production"
  | COMMS_INTERNAL => "comms:internal"
  | COMMS_EXTERNAL => "comms:external"
  | BUDGET_SPEND => "budget:spend"
  | BUDGET_EXCEED => "budget:exceed"
  | ORG_HIRE => "org:hire"
  | ORG_FIRE => "org:fire"
  | ORG_PROMOTE => "org:promote"
  | ORG_DELEGATE => "org:delegate"
  | VCS_READ => "vcs:read"
  | DB_QUERY => "db:query"
  | DB_MUTATE => "db:mutate"
  | DB_ADMIN => "db:admin"
  | ARCH_DECIDE => "arch:decide"
  | PLAN_EXTEND_WORKSTREAM => "plan:extend_workstream"
  | TOOL_CREATE => "tool:create"
  | MEMORY_READ => "memory:read"
  | KNOWLEDGE_INGEST => "knowledge:ingest"
  | KNOWLEDGE_REINDEX => "knowledge:reindex"
  | BROWSER_NAVIGATE => "browser:navigate"
  | BROWSER_SCREENSHOT => "browser:screenshot"
  | BROWSER_DIFF => "browser:diff"
  | BROWSER_ACCESSIBILITY_SCAN => "browser:accessibility_scan"
  | BROWSER_SPEC => "browser:spec"
  | EXTERNAL_DATA_REQUEST => "external_data:request"
  | RESEARCH_RUN => "research:run"
  | DESKTOP_LAUNCH => "desktop:launch"
  | DESKTOP_CLICK => "desktop:click"
  | DESKTOP_TYPE => "desktop:type"
  | DESKTOP_KEY => "desktop:key"
  | DESKTOP_SCREENSHOT => "desktop:screenshot"
  | DESKTOP_SCROLL => "desktop:scroll"
  end.

#[export] Instance action_type_value_inj : Inj (=) (=) action_type_value.
Proof.
  apply (members_value_inj _ members action_type_members_all).
  by apply (bool_decide_unpack _); vm_compute.
Qed.

End ActionType.
Export (hints) ActionType.

Module ActionTypeCategory.

Inductive ActionTypeCategory :=
| CODE | TEST | DOCS | DESIGN | VCS | DEPLOY | PUBLISH | COMMS | BUDGET | ORG |
DB | ARCH | PLAN | TOOL | MEMORY | KNOWLEDGE | BROWSER | EXTERNAL_DATA | DESKTOP
| RESEARCH.

#[export] Instance action_category_eq_dec : EqDecision ActionTypeCategory.
Proof. solve_decision. Defined.

Definition members : list ActionTypeCategory :=
  [CODE; TEST; DOCS; DESIGN; VCS; DEPLOY; PUBLISH; COMMS; BUDGET; ORG; DB;
   ARCH; PLAN; TOOL; MEMORY; KNOWLEDGE; BROWSER; EXTERNAL_DATA; DESKTOP;
   RESEARCH].

Lemma action_category_members_all s : s ∈ members.
Proof. revert s. enum_elem. Qed.

#[export] Instance action_category_countable : Countable ActionTypeCategory :=
  enum_countable members action_category_members_all.

Definition action_category_value (s : ActionTypeCategory) : string :=
  match s with
  | CODE => "code"
  | TEST => "test"
  | DOCS => "docs"
  | DESIGN => "design"
  | VCS => "vcs"
  | DEPLOY => "deploy"
  | PUBLISH => "publish"
  | COMMS => "comms"
  | BUDGET => "budget"
  | ORG => "org"
  | DB => "db"
  | ARCH => "arch"
  | PLAN => "plan"
  | TOOL => "tool"
  | MEMORY => "memory"
  | KNOWLEDGE => "knowledge"
  | BROWSER => "browser"
  | EXTERNAL_DATA => "external_data"
  | DESKTOP => "desktop"
  | RESEARCH => "research"
  end.

#[export] Instance action_category_value_inj : Inj (=) (=) action_category_value.
Proof. intros [] []; simpl; congruence. Qed.

End ActionTypeCategory.
Export (hints) ActionTypeCategory.

Import AutonomyLevel ActionType.

(** ** Levels *)

Definition _AUTONOMY_RANK (l : AutonomyLevel) : Z :=
  match l with
  | LOCKED => 0
  | SUPERVISED => 1
  | SEMI => 2
  | FULL => 3
  end.

Definition _RANK_TO_AUTONOMY (rank : Z) : option AutonomyLevel :=
  find (fun l => bool_decide (_AUTONOMY_RANK l = rank)) AutonomyLevel.members.

Definition compare_autonomy (a b : AutonomyLevel) : Z := _AUTONOMY_RANK a - _AUTONOMY_RANK b.

(** [None] is the [KeyError] of a rank no level has. *)
Definition step_down_autonomy (level : AutonomyLevel) : option AutonomyLevel :=
  let rank := _AUTONOMY_RANK level in
  if decide (rank = 0%Z) then Some level else _RANK_TO_AUTONOMY (rank - 1).

(** ** Action types *)

(** [s.split(":")[0]]. *)
Definition prefix_of_type (s : string) : string := default EmptyString (head (split_on ":"%char s)).

Definition _BUILTIN_TYPES : gset string := list_to_set (action_type_value <$> ActionType.members).

Definition _build_category_map : gmap string (gset string) :=
  foldl (fun groups member =>
    let category := prefix_of_type (action_type_value member) in
    <[category := default ∅ (groups !! category) ∪ {[action_type_value member]}]> groups) ∅ ActionType.members.

Definition _CATEGORY_MAP : gmap string (gset string) := _build_category_map.

Definition WORKTREE_CONFINED_ACTION_TYPES : gset string := list_to_set (action_type_value <$>
  [CODE_READ; CODE_WRITE; CODE_CREATE; CODE_DELETE; CODE_REFACTOR; TEST_WRITE; TEST_RUN; DOCS_WRITE;
   VCS_READ; VCS_COMMIT; VCS_BRANCH; DB_QUERY; COMMS_INTERNAL]).

Inductive AutonomyError :=
| Custom_type_malformed (ct : string)
| Unknown_action_type (action_type : string)
| Category_format (action_type : string)
| Category_empty (action_type : string)
| Preset_overlap
| Level_not_in_presets (level : AutonomyLevel)
| No_preset (level : AutonomyLevel)
| Effective_overlap.

Record ActionTypeRegistry := { _custom_types : gset string; _all_types : gset string }.

Definition endswith_colon (s : string) : bool :=
  match last (split_on ":"%char s) with Some EmptyString => mentions ":"%char s | _ => false end.

Definition custom_type_ok (ct : string) : bool :=
  (occurrences ":"%char ct =? 1) && negb (startswith ":" ct) && negb (endswith_colon ct).

(** The first malformed type in the order of the set is named. *)
Definition new_registry (custom_types : gset string) : result AutonomyError ActionTypeRegistry :=
  match find (fun ct => negb (custom_type_ok ct)) (elements custom_types) with
  | Some ct => Err (Custom_type_malformed ct)
  | None => Ok {| _custom_types := custom_types; _all_types := _BUILTIN_TYPES ∪ custom_types |}
  end.

Definition is_registered (r : ActionTypeRegistry) (action_type : string) : bool :=
  bool_decide (action_type ∈ _all_types r).

Definition validate_action_type (r : ActionTypeRegistry) (action_type : string) : result AutonomyError unit :=
  ensure is_registered r action_type else Unknown_action_type action_type in Ok tt.

Definition expand_category (r : ActionTypeRegistry) (category : string) (builtin_only : bool) : gset string :=
  let builtin := default ∅ (_CATEGORY_MAP !! category) in
  if builtin_only then builtin
  else builtin ∪ filter (fun ct => prefix_of_type ct = category) (_custom_types r).

Definition get_category (action_type : string) : result AutonomyError string :=
  ensure occurrences ":"%char action_type =? 1 else Category_format action_type in
  match split_on ":"%char action_type with
  | [category; action] =>
      ensure negb (bool_decide (category = EmptyString)) && negb (bool_decide (action = EmptyString))
        else Category_empty action_type in
      Ok category
  | _ => Err (Category_format action_type)
  end.

(** ** Presets *)

Record AutonomyPreset := {
  preset_level : AutonomyLevel;
  preset_auto_approve : list string;
  preset_human_approval : list string;
  preset_security_agent : bool;
}.

(** The constructor with [_validate_disjoint]. *)
Definition new_preset (p : AutonomyPreset) : result AutonomyError AutonomyPreset :=
  ensure bool_decide (list_to_set (preset_auto_approve p) ∩ list_to_set (preset_human_approval p) = (∅ : gset string))
    else Preset_overlap in
  Ok p.

Definition FULL_PRESET : AutonomyPreset := {|
  preset_level := FULL; preset_auto_approve := ["all"]; preset_human_approval := [];
  preset_security_agent := false |}%string.

Definition SEMI_PRESET : AutonomyPreset := {|
  preset_level := SEMI;
  preset_auto_approve := ["code"; "test"; "docs"; "vcs:read"; "vcs:commit"; "vcs:branch"; "comms:internal"; "db:query"];
  preset_human_approval := ["deploy"; "publish"; "org"; "budget"; "comms:external"; "tool"; "vcs:push"; "design";
    "plan:extend_workstream"];
  preset_security_agent := true |}%string.

Definition SUPERVISED_PRESET : AutonomyPreset := {|
  preset_level := SUPERVISED;
  preset_auto_approve := ["code"; "test"; "docs"; "vcs:read"; "vcs:commit"; "vcs:branch"; "db:query"];
  preset_human_approval := ["vcs:push"; "deploy"; "publish"; "comms"; "budget"; "org"; "db:mutate"; "db:admin";
    "arch:decide"; "plan:extend_workstream"; "tool"; "design"];
  preset_security_agent := true |}%string.

Definition LOCKED_PRESET : AutonomyPreset := {|
  preset_level := LOCKED; preset_auto_approve := []; preset_human_approval := ["all"];
  preset_security_agent := true |}%string.

Definition BUILTIN_PRESETS : gmap string AutonomyPreset := dict_of
  [(autonomy_level_value FULL, FULL_PRESET); (autonomy_level_value SEMI, SEMI_PRESET);
   (autonomy_level_value SUPERVISED, SUPERVISED_PRESET); (autonomy_level_value LOCKED, LOCKED_PRESET)].

Record AutonomyConfig := { config_level : AutonomyLevel; presets : gmap string AutonomyPreset }.

Definition new_config (c : AutonomyConfig) : result AutonomyError AutonomyConfig :=
  ensure bool_decide (is_Some (presets c !! autonomy_level_value (config_level c)))
    else Level_not_in_presets (config_level c) in
  Ok c.

(** ** Resolution *)

Record EffectiveAutonomy := {
  level : AutonomyLevel;
  auto_approve_actions : gset string;
  human_approval_actions : gset string;
  security_agent : bool;
}.

(** The constructor with its [_validate_disjoint]. *)
Definition new_effective (e : EffectiveAutonomy) : result AutonomyError EffectiveAutonomy :=
  ensure bool_decide (auto_approve_actions e ∩ human_approval_actions e = ∅) else Effective_overlap in
  Ok e.

(** What a pattern adds: everything, the types of a category, or itself,
    registered or not. *)
Definition expand_pattern (r : ActionTypeRegistry) (builtin_only : bool) (pattern : string) : gset string :=
  if decide (pattern = "all"%string) then _all_types r
  else
    let category_types := expand_category r pattern builtin_only in
    if decide (category_types = ∅) then {[pattern]} else category_types.

Definition _expand_patterns (r : ActionTypeRegistry) (patterns : list string) (builtin_only : bool) : gset string :=
  foldl (fun res pattern => res ∪ expand_pattern r builtin_only pattern) ∅ patterns.

Definition _resolve_preset (c : AutonomyConfig) (l : AutonomyLevel) : result AutonomyError AutonomyPreset :=
  match presets c !! autonomy_level_value l with
  | Some preset => Ok preset
  | None => Err (No_preset l)
  end.

(** [a or b]; no level is an empty string. *)
Definition first_given {A} (a b : option A) : option A := match a with Some _ => a | None => b end.

Definition resolved_level (c : AutonomyConfig) (agent_level project_level department_level : option AutonomyLevel)
    : AutonomyLevel :=
  default (config_level c) (first_given (first_given agent_level project_level) department_level).

Definition resolve (r : ActionTypeRegistry) (c : AutonomyConfig)
    (agent_level department_level project_level : option AutonomyLevel) : result AutonomyError EffectiveAutonomy :=
  let l := resolved_level c agent_level project_level department_level in
  let* preset := _resolve_preset c l in
  new_effective {|
    level := l;
    auto_approve_actions := _expand_patterns r (preset_auto_approve preset) true;
    human_approval_actions := _expand_patterns r (preset_human_approval preset) false;
    security_agent := preset_security_agent preset |}.

(** ** What patterns cover *)

Lemma step_down_lower l :
  exists l', step_down_autonomy l = Some l' /\ (l = LOCKED /\ l' = LOCKED \/ compare_autonomy l' l = (-1)%Z).
Proof. destruct l; eexists; (split; [reflexivity|]); [by right..|by left]. Qed.

Lemma split_on_nonempty c s : split_on c s <> [].
Proof. destruct s as [|a s]; simpl; [done|]. destruct (Ascii.eqb a c); [done|]. by destruct (split_on c s). Qed.

Lemma prefix_plain s : mentions ":"%char (prefix_of_type s) = false.
Proof.
  unfold prefix_of_type. induction s as [|a s IH]; [done|]. cbn [split_on].
  destruct (Ascii.eqb a ":") eqn:E; [done|].
  destruct (split_on ":" s) as [|p ps] eqn:Hs; [by apply split_on_nonempty in Hs|].
  change (mentions ":" p = false) in IH. change (Ascii.eqb a ":" || mentions ":" p = false). by rewrite E.
Qed.

Lemma category_map_elem c x :
  x ∈ default ∅ (_CATEGORY_MAP !! c) <-> x ∈ _BUILTIN_TYPES /\ prefix_of_type x = c.
Proof.
  unfold _CATEGORY_MAP, _build_category_map, _BUILTIN_TYPES.
  rewrite elem_of_list_to_set, list_elem_of_fmap.
  assert (Hgen : forall (ms : list ActionType) (groups : gmap string (gset string)),
    x ∈ default ∅ (foldl (fun groups member =>
      let category := prefix_of_type (action_type_value member) in
      <[category := default ∅ (groups !! category) ∪ {[action_type_value member]}]> groups) groups ms !! c) <->
    x ∈ default ∅ (groups !! c) \/ (exists m, x = action_type_value m /\ m ∈ ms) /\ prefix_of_type x = c).
  { induction ms as [|m ms IH]; intros groups; simpl.
    - split; [by left|]. intros [?|[(m & _ & ?%not_elem_of_nil) _]]; done.
    - rewrite IH. setoid_rewrite elem_of_cons. destruct (decide (prefix_of_type (action_type_value m) = c)) as [<-|E].
      + rewrite lookup_insert_eq. unfold default at 1, from_option at 1, id at 1. rewrite elem_of_union, elem_of_singleton.
        naive_solver.
      + rewrite lookup_insert_ne by done. naive_solver. }
  rewrite Hgen, lookup_empty. split; [|by right]. intros [[]%not_elem_of_empty|Hx]; exact Hx.
Qed.

#[local] Opaque _CATEGORY_MAP _BUILTIN_TYPES.

(** A pattern of the presets: a full type, or a category with built-in types. *)
Definition plain_pattern (pat : string) : bool :=
  negb (bool_decide (pat = "all"%string)) &&
  (mentions ":"%char pat || negb (bool_decide (default ∅ (_CATEGORY_MAP !! pat) = ∅))).

(** What a pattern covers by itself. *)
Definition pattern_types (pat : string) : gset string :=
  let types := default ∅ (_CATEGORY_MAP !! pat) in if decide (types = ∅) then {[pat]} else types.

Lemma expand_pattern_plain r bo pat :
  plain_pattern pat = true ->
  expand_pattern r bo pat =
    pattern_types pat ∪ (if bo then ∅ else filter (fun ct => prefix_of_type ct = pat) (_custom_types r)).
Proof.
  unfold plain_pattern, expand_pattern, expand_category, pattern_types.
  rewrite andb_true_iff, orb_true_iff, !nonblocking. intros [Hall Hp]. rewrite decide_False by done.
  destruct bo; [by rewrite (right_id_L ∅ _)|]. set (builtin := default ∅ _) in *. set (customs := filter _ _).
  destruct (decide (builtin = ∅)) as [E|E].
  - destruct Hp as [Hp|Hp]; [|by destruct (Hp E)]. assert (customs = ∅) as ->.
    { apply set_eq. intros x. subst customs. rewrite elem_of_filter. split; [|done]. intros [<- _].
      by rewrite prefix_plain in Hp. }
    by rewrite E, (left_id_L ∅ _), decide_True, (right_id_L ∅ _).
  - rewrite decide_False; [done|]. set_solver.
Qed.

Lemma expand_patterns_elem r bo pats x :
  x ∈ _expand_patterns r pats bo <-> exists pat, pat ∈ pats /\ x ∈ expand_pattern r bo pat.
Proof.
  unfold _expand_patterns.
  assert (Hgen : forall (acc : gset string), x ∈ foldl (fun res pattern => res ∪ expand_pattern r bo pattern) acc pats <->
    x ∈ acc \/ exists pat, pat ∈ pats /\ x ∈ expand_pattern r bo pat).
  { induction pats as [|pat pats IH]; intros acc; simpl; [set_solver|]. rewrite IH. set_solver. }
  rewrite Hgen. set_solver.
Qed.

(** The types the patterns name without any custom type. *)
Definition patterns_types (pats : list string) : gset string := ⋃ (pattern_types <$> pats).

Lemma expand_plain_elem r bo pats x :
  forallb plain_pattern pats = true ->
  x ∈ _expand_patterns r pats bo <->
  x ∈ patterns_types pats \/ (bo = false /\ x ∈ _custom_types r /\ prefix_of_type x ∈ pats).
Proof.
  rewrite forallb_forall. intros Hp. unfold patterns_types.
  rewrite expand_patterns_elem, elem_of_union_list. setoid_rewrite list_elem_of_fmap.
  assert (Hone : forall pat, pat ∈ pats -> x ∈ expand_pattern r bo pat <->
    x ∈ pattern_types pat \/ (bo = false /\ x ∈ _custom_types r /\ prefix_of_type x = pat)).
  { intros pat Hin. rewrite expand_pattern_plain by (apply Hp; by apply list_elem_of_In). destruct bo; set_solver. }
  split.
  - intros (pat & Hin & [?|(? & ? & ?)]%Hone); [left; set_solver|right; set_solver|done].
  - intros [(X & (pat & -> & Hin) & Hx)|(Hb & Hx & Hin)].
    + exists pat. split; [done|]. apply Hone; auto.
    + exists (prefix_of_type x). split; [done|]. apply Hone; auto.
Qed.

(** A built-in type of a category that is named is covered by itself. *)
Lemma category_covered pats x :
  x ∈ _BUILTIN_TYPES -> prefix_of_type x ∈ pats -> x ∈ patterns_types pats.
Proof.
  intros Hx Hp. unfold patterns_types. apply elem_of_union_list. exists (pattern_types (prefix_of_type x)).
  split; [by apply list_elem_of_fmap_2|]. unfold pattern_types.
  pose proof (proj2 (category_map_elem (prefix_of_type x) x) (conj Hx eq_refl)) as Hin.
  destruct (decide _) as [E|E]; [|exact Hin]. rewrite E in Hin. destruct (not_elem_of_empty x Hin).
Qed.


Lemma expand_all r bo : expand_pattern r bo "all" = _all_types r.
Proof. done. Qed.

#[local] Opaque patterns_types pattern_types expand_pattern _expand_patterns.

(** ** The built-in presets *)

Definition preset_of (l : AutonomyLevel) : AutonomyPreset :=
  match l with
  | FULL => FULL_PRESET
  | SEMI => SEMI_PRESET
  | SUPERVISED => SUPERVISED_PRESET
  | LOCKED => LOCKED_PRESET
  end.

Definition granted (r : ActionTypeRegistry) (l : AutonomyLevel) : gset string :=
  _expand_patterns r (preset_auto_approve (preset_of l)) true.
Definition withheld (r : ActionTypeRegistry) (l : AutonomyLevel) : gset string :=
  _expand_patterns r (preset_human_approval (preset_of l)) false.

Lemma builtin_preset l : BUILTIN_PRESETS !! autonomy_level_value l = Some (preset_of l).
Proof. by destruct l; vm_compute. Qed.

(** What is computed once, on the patterns alone. *)
Lemma preset_tables :
  forallb (fun l => forallb plain_pattern (preset_auto_approve (preset_of l) ++ preset_human_approval (preset_of l)))
    [SEMI; SUPERVISED] = true /\
  patterns_types (preset_auto_approve SUPERVISED_PRESET) ⊆ patterns_types (preset_auto_approve SEMI_PRESET) /\
  patterns_types (preset_auto_approve SEMI_PRESET) ⊆ _BUILTIN_TYPES /\
  patterns_types (preset_auto_approve SUPERVISED_PRESET) ⊆ WORKTREE_CONFINED_ACTION_TYPES /\
  patterns_types (preset_human_approval SEMI_PRESET) ⊆ patterns_types (preset_human_approval SUPERVISED_PRESET) /\
  patterns_types (preset_human_approval SUPERVISED_PRESET) ⊆ _BUILTIN_TYPES /\
  patterns_types (preset_auto_approve SEMI_PRESET) ## patterns_types (preset_human_approval SEMI_PRESET) /\
  patterns_types (preset_auto_approve SUPERVISED_PRESET) ## patterns_types (preset_human_approval SUPERVISED_PRESET) /\
  forallb (fun p => mentions ":"%char p || bool_decide (p ∈ preset_human_approval SUPERVISED_PRESET))
    (preset_human_approval SEMI_PRESET) = true.
Proof.
  split_and!; try (by apply (bool_decide_unpack _); vm_compute); by vm_compute.
Qed.

Lemma middle_levels l l' :
  (compare_autonomy l l' <= 0)%Z -> l <> l' -> l <> LOCKED -> l' <> FULL -> l = SUPERVISED /\ l' = SEMI.
Proof. destruct l, l'; unfold compare_autonomy; simpl; try done; lia. Qed.

Section Registered.
Context (custom : gset string) (r : ActionTypeRegistry).
Context (Hr : new_registry custom = Ok r).

Lemma registry_types : _custom_types r = custom /\ _all_types r = _BUILTIN_TYPES ∪ custom.
Proof. unfold new_registry in Hr. destruct (find _ _); [done|]. by injection Hr as <-. Qed.

Lemma middle_plain l : l = SEMI \/ l = SUPERVISED ->
  forallb plain_pattern (preset_auto_approve (preset_of l)) = true /\
  forallb plain_pattern (preset_human_approval (preset_of l)) = true.
Proof.
  intros Hl. destruct preset_tables as (Hp & _). rewrite forallb_forall in Hp.
  assert (Hin : In l [SEMI; SUPERVISED]) by (simpl; destruct Hl; auto).
  apply Hp in Hin. by rewrite forallb_app, andb_true_iff in Hin.
Qed.

Lemma granted_middle l x : l = SEMI \/ l = SUPERVISED ->
  x ∈ granted r l <-> x ∈ patterns_types (preset_auto_approve (preset_of l)).
Proof.
  intros Hl. unfold granted. rewrite expand_plain_elem by apply (middle_plain l Hl).
  split; [by intros [?|[? _]]|by left].
Qed.

Lemma withheld_middle l x : l = SEMI \/ l = SUPERVISED ->
  x ∈ withheld r l <-> x ∈ patterns_types (preset_human_approval (preset_of l)) \/
    (x ∈ custom /\ prefix_of_type x ∈ preset_human_approval (preset_of l)).
Proof.
  intros Hl. unfold withheld. rewrite expand_plain_elem by apply (middle_plain l Hl).
  destruct registry_types as [-> _]. tauto.
Qed.

Lemma granted_full x : x ∈ granted r FULL <-> x ∈ _all_types r.
Proof.
  unfold granted. rewrite expand_patterns_elem. simpl. setoid_rewrite list_elem_of_singleton.
  split; [intros (? & -> & Hx); by rewrite expand_all in Hx|]. intros Hx. exists "all"%string. by rewrite expand_all.
Qed.

Lemma withheld_locked x : x ∈ withheld r LOCKED <-> x ∈ _all_types r.
Proof.
  unfold withheld. rewrite expand_patterns_elem. simpl. setoid_rewrite list_elem_of_singleton.
  split; [intros (? & -> & Hx); by rewrite expand_all in Hx|]. intros Hx. exists "all"%string. by rewrite expand_all.
Qed.

Lemma granted_locked x : x ∉ granted r LOCKED.
Proof. unfold granted. rewrite expand_patterns_elem. simpl. by intros (? & []%not_elem_of_nil & _). Qed.

Lemma withheld_full x : x ∉ withheld r FULL.
Proof. unfold withheld. rewrite expand_patterns_elem. simpl. by intros (? & []%not_elem_of_nil & _). Qed.

Lemma granted_builtin l x : l <> FULL -> x ∈ granted r l -> x ∈ _BUILTIN_TYPES.
Proof.
  destruct preset_tables as (_ & Hsub & Hb & _). intros Hl Hx. destruct l.
  - by destruct Hl.
  - exact (Hb x (proj1 (granted_middle SEMI x (or_introl eq_refl)) Hx)).
  - exact (Hb x (Hsub x (proj1 (granted_middle SUPERVISED x (or_intror eq_refl)) Hx))).
  - destruct (granted_locked x Hx).
Qed.

Lemma registered_elem x : x ∈ _all_types r <-> x ∈ _BUILTIN_TYPES \/ x ∈ custom.
Proof. destruct registry_types as [_ ->]. apply elem_of_union. Qed.

Lemma withheld_registered l x : x ∈ withheld r l -> x ∈ _all_types r.
Proof.
  destruct preset_tables as (_ & _ & _ & _ & Hsub & Hb & _). intros Hx. destruct l.
  - destruct (withheld_full x Hx).
  - destruct (proj1 (withheld_middle SEMI x (or_introl eq_refl)) Hx) as [Hp|[Hc _]].
    + exact (proj2 (registered_elem x) (or_introl (Hb x (Hsub x Hp)))).
    + exact (proj2 (registered_elem x) (or_intror Hc)).
  - destruct (proj1 (withheld_middle SUPERVISED x (or_intror eq_refl)) Hx) as [Hp|[Hc _]].
    + exact (proj2 (registered_elem x) (or_introl (Hb x Hp))).
    + exact (proj2 (registered_elem x) (or_intror Hc)).
  - exact (proj1 (withheld_locked x) Hx).
Qed.

Lemma middle_disjoint l x : l = SEMI \/ l = SUPERVISED ->
  patterns_types (preset_auto_approve (preset_of l)) ## patterns_types (preset_human_approval (preset_of l)) ->
  x ∈ granted r l -> x ∉ withheld r l.
Proof.
  intros Hl Hd Hg Hw. assert (Hx : x ∈ _BUILTIN_TYPES).
  { apply (granted_builtin l); [by destruct Hl as [-> | ->]|exact Hg]. }
  apply (granted_middle l x Hl) in Hg. destruct (proj1 (withheld_middle l x Hl) Hw) as [Hp|[_ Hp]].
  - exact (Hd x Hg Hp).
  - exact (Hd x Hg (category_covered _ x Hx Hp)).
Qed.

Lemma levels_disjoint l : granted r l ∩ withheld r l = ∅.
Proof.
  destruct preset_tables as (_ & _ & _ & _ & _ & _ & Hd1 & Hd2 & _).
  apply set_eq. intros x. rewrite elem_of_intersection. split; [|intros Hx; destruct (not_elem_of_empty x Hx)].
  intros [Hg Hw]. destruct l.
  - destruct (withheld_full x Hw).
  - destruct (middle_disjoint SEMI x (or_introl eq_refl) Hd1 Hg Hw).
  - destruct (middle_disjoint SUPERVISED x (or_intror eq_refl) Hd2 Hg Hw).
  - destruct (granted_locked x Hg).
Qed.

(** One level up grants at least as much and withholds at most as much. *)
Lemma granted_nested l l' x : (compare_autonomy l l' <= 0)%Z -> x ∈ granted r l -> x ∈ granted r l'.
Proof.
  intros Hle Hx. destruct (decide (l = l')) as [<-|Hne]; [exact Hx|].
  destruct (decide (l = LOCKED)) as [->|Hl]; [destruct (granted_locked x Hx)|].
  destruct (decide (l' = FULL)) as [->|Hl'].
  { apply (proj2 (granted_full x)), registered_elem. left. apply (granted_builtin l); [congruence|exact Hx]. }
  destruct (middle_levels l l' Hle Hne Hl Hl') as [-> ->].
  apply granted_middle in Hx; [|by right]. apply granted_middle; [by left|].
  destruct preset_tables as (_ & Ha & _). exact (Ha x Hx).
Qed.

Lemma withheld_nested l l' x : (compare_autonomy l l' <= 0)%Z -> x ∈ withheld r l' -> x ∈ withheld r l.
Proof.
  intros Hle Hx. destruct (decide (l = l')) as [<-|Hne]; [exact Hx|].
  destruct (decide (l' = FULL)) as [->|Hl']; [destruct (withheld_full x Hx)|].
  destruct (decide (l = LOCKED)) as [->|Hl]; [exact (proj2 (withheld_locked x) (withheld_registered l' x Hx))|].
  destruct (middle_levels l l' Hle Hne Hl Hl') as [-> ->].
  destruct preset_tables as (_ & _ & _ & _ & Hh & _ & _ & _ & Hc).
  apply withheld_middle; [by right|]. apply withheld_middle in Hx as [Hx|[Hx Hp]]; [| |by left].
  - left. exact (Hh x Hx).
  - right. split; [exact Hx|]. rewrite forallb_forall in Hc. specialize (Hc _ (proj1 (list_elem_of_In _ _) Hp)).
    apply orb_true_iff in Hc as [Hc|Hc%bool_decide_eq_true]; [by rewrite prefix_plain in Hc|exact Hc].
Qed.
End Registered.

(** The most specific of the levels given. *)
Definition deciding_level (c : AutonomyConfig) (agent project department : option AutonomyLevel) : AutonomyLevel :=
  match agent, project, department with
  | Some l, _, _ => l
  | None, Some l, _ => l
  | None, None, Some l => l
  | None, None, None => config_level c
  end.

Lemma builtin_resolution custom r c a d p :
  new_registry custom = Ok r -> presets c = BUILTIN_PRESETS ->
  resolve r c a d p = Ok {|
    level := deciding_level c a p d;
    auto_approve_actions := granted r (deciding_level c a p d);
    human_approval_actions := withheld r (deciding_level c a p d);
    security_agent := preset_security_agent (preset_of (deciding_level c a p d)) |}.
Proof.
  intros Hr Hc. unfold resolve. replace (resolved_level c a p d) with (deciding_level c a p d) by (by destruct a, p, d).
  set (l := deciding_level c a p d). unfold _resolve_preset. rewrite Hc, builtin_preset. simpl.
  unfold new_effective. simpl. fold (granted r l) (withheld r l).
  rewrite bool_decide_eq_true_2; [reflexivity|exact (levels_disjoint custom r Hr l)].
Qed.

Section ResolutionClaims.

(** With the built-in presets, resolution succeeds whatever custom types
    are registered and whichever of the four levels decides: the most specific
    level given wins, the two action sets are disjoint, only FULL ever grants a
    custom type, FULL grants everything and LOCKED withholds everything, what
    SUPERVISED grants stays in the worktree, and a stricter level grants no
    more and withholds no less than a laxer one. *)
Theorem presets_grant_by_level (custom : gset string) (r : ActionTypeRegistry) (c : AutonomyConfig)
    (agent department project : option AutonomyLevel) :
  new_registry custom = Ok r -> presets c = BUILTIN_PRESETS ->
  exists e, resolve r c agent department project = Ok e /\
    level e = deciding_level c agent project department /\
    (forall x, x ∈ auto_approve_actions e -> x ∉ human_approval_actions e) /\
    (forall x, x ∈ auto_approve_actions e -> x ∈ _BUILTIN_TYPES \/ (level e = FULL /\ x ∈ custom)) /\
    (level e = FULL -> forall x, x ∈ auto_approve_actions e <-> x ∈ _BUILTIN_TYPES \/ x ∈ custom) /\
    (level e = LOCKED -> forall x, x ∈ human_approval_actions e <-> x ∈ _BUILTIN_TYPES \/ x ∈ custom) /\
    (level e = SUPERVISED -> forall x, x ∈ auto_approve_actions e -> x ∈ WORKTREE_CONFINED_ACTION_TYPES) /\
    (forall agent' department' project' e', resolve r c agent' department' project' = Ok e' ->
       (compare_autonomy (level e) (level e') <= 0)%Z ->
       (forall x, x ∈ auto_approve_actions e -> x ∈ auto_approve_actions e') /\
       (forall x, x ∈ human_approval_actions e' -> x ∈ human_approval_actions e)).
Proof.
  intros Hr Hc. eexists. split; [exact (builtin_resolution custom r c _ _ _ Hr Hc)|].
  cbn [level auto_approve_actions human_approval_actions].
  set (l := deciding_level c agent project department). split; [reflexivity|]. split; [|split; [|split; [|split; [|split]]]].
  - intros x Hg Hw. apply (not_elem_of_empty (C:=gset string) x). rewrite <-(levels_disjoint custom r Hr l).
    by apply elem_of_intersection.
  - intros x Hx. destruct (decide (l = FULL)) as [E|E]; [|left; exact (granted_builtin r l x E Hx)].
    rewrite E in Hx. apply granted_full, (registered_elem custom r Hr) in Hx as [?|?]; auto.
  - intros E x. rewrite E, granted_full. exact (registered_elem custom r Hr x).
  - intros E x. rewrite E, withheld_locked. exact (registered_elem custom r Hr x).
  - intros E x Hx. rewrite E in Hx. apply (granted_middle r) in Hx; [|by right].
    destruct preset_tables as (_ & _ & _ & Hsub & _). exact (Hsub x Hx).
  - intros a' d' p' e' He' Hle. rewrite (builtin_resolution custom r c a' d' p' Hr Hc) in He'. injection He' as <-.
    split; intros x; [exact (granted_nested custom r Hr l _ x Hle)|exact (withheld_nested custom r Hr l _ x Hle)].
Qed.
End ResolutionClaims.

#[local] Transparent _CATEGORY_MAP _BUILTIN_TYPES patterns_types pattern_types expand_pattern _expand_patterns.

Lemma presets_grant_by_level_witness :
  exists r e, new_registry {["deploy:canary"%string]} = Ok r /\
    resolve r {| config_level := SUPERVISED; presets := BUILTIN_PRESETS |} None (Some LOCKED) None = Ok e /\
    level e = LOCKED /\ "deploy:canary"%string ∈ human_approval_actions e.
Proof.
  set (r := {| _custom_types := {["deploy:canary"%string]}; _all_types := _BUILTIN_TYPES ∪ {["deploy:canary"%string]} |}).
  assert (Hr : new_registry {["deploy:canary"%string]} = Ok r).
  { unfold new_registry. rewrite elements_singleton. reflexivity. }
  destruct (presets_grant_by_level {["deploy:canary"%string]} r
    {| config_level := SUPERVISED; presets := BUILTIN_PRESETS |} None (Some LOCKED) None Hr eq_refl)
    as (e & He & Hl & _ & _ & _ & Hw & _).
  exists r, e. split; [exact Hr|]. split; [exact He|]. split; [exact Hl|].
  apply (Hw Hl). right. apply elem_of_singleton. reflexivity.
Defined.
