(* ===== verification/SecurityModel.v ===== *)
(** * SecurityModel

    The values of the security service ([security/models.py], the
    configuration of [security/config/], [core/critical_errors.py]), the risk
    taxonomy ([security/risk_map.py]) and the synchronous rules
    ([rules/policy_validator.py], [rules/custom_policy_rule.py],
    [rules/engine.py], assembled by [engine/_security_factory.py]).

    A reason is the value its text is formatted from, as exceptions are
    elsewhere; clock readings are left out. The pattern detectors are
    parameters: any functions of the context that may raise. *)

From stdpp Require Import gmap strings list.
From Stdlib Require Import Lia ZArith QArith Ascii.
From S2P Require Import Prelude Autonomy.
#[local] Open Scope py_scope.
#[local] Open Scope nat_scope.
Import AutonomyLevel ActionType.

Module ApprovalRiskLevel.

Inductive ApprovalRiskLevel :=
| LOW | MEDIUM | HIGH | CRITICAL.

#[export] Instance risk_level_eq_dec : EqDecision ApprovalRiskLevel.
Proof. solve_decision. Defined.

Definition members : list ApprovalRiskLevel :=
  [LOW; MEDIUM; HIGH; CRITICAL].

Lemma risk_level_members_all s : s ∈ members.
Proof. revert s. enum_elem. Qed.

#[export] Instance risk_level_countable : Countable ApprovalRiskLevel :=
  enum_countable members risk_level_members_all.

Definition risk_level_value (s : ApprovalRiskLevel) : string :=
  match s with
  | LOW => "low"
  | MEDIUM => "medium"
  | HIGH => "high"
  | CRITICAL => "critical"
  end.

#[export] Instance risk_level_value_inj : Inj (=) (=) risk_level_value.
Proof. intros [] []; simpl; congruence. Qed.

End ApprovalRiskLevel.
Export (hints) ApprovalRiskLevel.

Module SecurityVerdictType.

Inductive SecurityVerdictType :=
| ALLOW | DENY | ESCALATE.

#[export] Instance verdict_type_eq_dec : EqDecision SecurityVerdictType.
Proof. solve_decision. Defined.

Definition members : list SecurityVerdictType :=
  [ALLOW; DENY; ESCALATE].

Lemma verdict_type_members_all s : s ∈ members.
Proof. revert s. enum_elem. Qed.

#[export] Instance verdict_type_countable : Countable SecurityVerdictType :=
  enum_countable members verdict_type_members_all.

Definition verdict_type_value (s : SecurityVerdictType) : string :=
  match s with
  | ALLOW => "allow"
  | DENY => "deny"
  | ESCALATE => "escalate"
  end.

#[export] Instance verdict_type_value_inj : Inj (=) (=) verdict_type_value.
Proof. intros [] []; simpl; congruence. Qed.

End SecurityVerdictType.
Export (hints) SecurityVerdictType.

Module EvaluationConfidence.

Inductive EvaluationConfidence :=
| HIGH | LOW.

#[export] Instance confidence_eq_dec : EqDecision EvaluationConfidence.
Proof. solve_decision. Defined.

Definition members : list EvaluationConfidence :=
  [HIGH; LOW].

Lemma confidence_members_all s : s ∈ members.
Proof. revert s. enum_elem. Qed.

#[export] Instance confidence_countable : Countable EvaluationConfidence :=
  enum_countable members confidence_members_all.

Definition confidence_value (s : EvaluationConfidence) : string :=
  match s with
  | HIGH => "high"
  | LOW => "low"
  end.

#[export] Instance confidence_value_inj : Inj (=) (=) confidence_value.
Proof. intros [] []; simpl; congruence. Qed.

End EvaluationConfidence.
Export (hints) EvaluationConfidence.

Module SecurityEnforcementMode.

Inductive SecurityEnforcementMode :=
| ACTIVE | SHADOW | DISABLED.

#[export] Instance enforcement_mode_eq_dec : EqDecision SecurityEnforcementMode.
Proof. solve_decision. Defined.

Definition members : list SecurityEnforcementMode :=
  [ACTIVE; SHADOW; DISABLED].

Lemma enforcement_mode_members_all s : s ∈ members.
Proof. revert s. enum_elem. Qed.

#[export] Instance enforcement_mode_countable : Countable SecurityEnforcementMode :=
  enum_countable members enforcement_mode_members_all.

Definition enforcement_mode_value (s : SecurityEnforcementMode) : string :=
  match s with
  | ACTIVE => "active"
  | SHADOW => "shadow"
  | DISABLED => "disabled"
  end.

#[export] Instance enforcement_mode_value_inj : Inj (=) (=) enforcement_mode_value.
Proof. intros [] []; simpl; congruence. Qed.

End SecurityEnforcementMode.
Export (hints) SecurityEnforcementMode.

Module LlmFallbackErrorPolicy.

Inductive LlmFallbackErrorPolicy :=
| USE_RULE_VERDICT | ESCALATE | DENY.

#[export] Instance llm_error_policy_eq_dec : EqDecision LlmFallbackErrorPolicy.
Proof. solve_decision. Defined.

Definition members : list LlmFallbackErrorPolicy :=
  [USE_RULE_VERDICT; ESCALATE; DENY].

Lemma llm_error_policy_members_all s : s ∈ members.
Proof. revert s. enum_elem. Qed.

#[export] Instance llm_error_policy_countable : Countable LlmFallbackErrorPolicy :=
  enum_countable members llm_error_policy_members_all.

Definition llm_error_policy_value (s : LlmFallbackErrorPolicy) : string :=
  match s with
  | USE_RULE_VERDICT => "use_rule_verdict"
  | ESCALATE => "escalate"
  | DENY => "deny"
  end.

#[export] Instance llm_error_policy_value_inj : Inj (=) (=) llm_error_policy_value.
Proof. intros [] []; simpl; congruence. Qed.

End LlmFallbackErrorPolicy.
Export (hints) LlmFallbackErrorPolicy.

Module VerdictReasonVisibility.

Inductive VerdictReasonVisibility :=
| FULL | GENERIC | CATEGORY.

#[export] Instance reason_visibility_eq_dec : EqDecision VerdictReasonVisibility.
Proof. solve_decision. Defined.

Definition members : list VerdictReasonVisibility :=
  [FULL; GENERIC; CATEGORY].

Lemma reason_visibility_members_all s : s ∈ members.
Proof. revert s. enum_elem. Qed.

#[export] Instance reason_visibility_countable : Countable VerdictReasonVisibility :=
  enum_countable members reason_visibility_members_all.

Definition reason_visibility_value (s : VerdictReasonVisibility) : string :=
  match s with
  | FULL => "full"
  | GENERIC => "generic"
  | CATEGORY => "category"
  end.

#[export] Instance reason_visibility_value_inj : Inj (=) (=) reason_visibility_value.
Proof. intros [] []; simpl; congruence. Qed.

End VerdictReasonVisibility.
Export (hints) VerdictReasonVisibility.

Module SafetyClassification.

Inductive SafetyClassification :=
| SAFE | SUSPICIOUS | BLOCKED.

#[export] Instance safety_classification_eq_dec : EqDecision SafetyClassification.
Proof. solve_decision. Defined.

Definition members : list SafetyClassification :=
  [SAFE; SUSPICIOUS; BLOCKED].

Lemma safety_classification_members_all s : s ∈ members.
Proof. revert s. enum_elem. Qed.

#[export] Instance safety_classification_countable : Countable SafetyClassification :=
  enum_countable members safety_classification_members_all.

Definition safety_classification_value (s : SafetyClassification) : string :=
  match s with
  | SAFE => "safe"
  | SUSPICIOUS => "suspicious"
  | BLOCKED => "blocked"
  end.

#[export] Instance safety_classification_value_inj : Inj (=) (=) safety_classification_value.
Proof. intros [] []; simpl; congruence. Qed.

End SafetyClassification.
Export (hints) SafetyClassification.

Module PermissionTier.

Inductive PermissionTier :=
| SAFE_TOOL | IN_PROJECT | CLASSIFIER_GATED.

#[export] Instance permission_tier_eq_dec : EqDecision PermissionTier.
Proof. solve_decision. Defined.

Definition members : list PermissionTier :=
  [SAFE_TOOL; IN_PROJECT; CLASSIFIER_GATED].

Lemma permission_tier_members_all s : s ∈ members.
Proof. revert s. enum_elem. Qed.

#[export] Instance permission_tier_countable : Countable PermissionTier :=
  enum_countable members permission_tier_members_all.

Definition permission_tier_value (s : PermissionTier) : string :=
  match s with
  | SAFE_TOOL => "safe_tool"
  | IN_PROJECT => "in_project"
  | CLASSIFIER_GATED => "classifier_gated"
  end.

#[export] Instance permission_tier_value_inj : Inj (=) (=) permission_tier_value.
Proof. intros [] []; simpl; congruence. Qed.

End PermissionTier.
Export (hints) PermissionTier.

Module DenialAction.

Inductive DenialAction :=
| RETRY | ESCALATE.

#[export] Instance denial_action_eq_dec : EqDecision DenialAction.
Proof. solve_decision. Defined.

Definition members : list DenialAction :=
  [RETRY; ESCALATE].

Lemma denial_action_members_all s : s ∈ members.
Proof. revert s. enum_elem. Qed.

#[export] Instance denial_action_countable : Countable DenialAction :=
  enum_countable members denial_action_members_all.

Definition denial_action_value (s : DenialAction) : string :=
  match s with
  | RETRY => "retry"
  | ESCALATE => "escalate"
  end.

#[export] Instance denial_action_value_inj : Inj (=) (=) denial_action_value.
Proof. intros [] []; simpl; congruence. Qed.

End DenialAction.
Export (hints) DenialAction.

Module ToolCategory.

Inductive ToolCategory :=
| FILE_SYSTEM | CODE_EXECUTION | VERSION_CONTROL | WEB | DATABASE | TERMINAL |
DESIGN | COMMUNICATION | ANALYTICS | DEPLOYMENT | MEMORY | ONTOLOGY | MCP |
BROWSER | EXTERNAL_DATA | DESKTOP | OTHER.

#[export] Instance tool_category_eq_dec : EqDecision ToolCategory.
Proof. solve_decision. Defined.

Definition members : list ToolCategory :=
  [FILE_SYSTEM; CODE_EXECUTION; VERSION_CONTROL; WEB; DATABASE; TERMINAL;
   DESIGN; COMMUNICATION; ANALYTICS; DEPLOYMENT; MEMORY; ONTOLOGY; MCP;
   BROWSER; EXTERNAL_DATA; DESKTOP; OTHER].

Lemma tool_category_members_all s : s ∈ members.
Proof. revert s. enum_elem. Qed.

#[export] Instance tool_category_countable : Countable ToolCategory :=
  enum_countable members tool_category_members_all.

Definition tool_category_value (s : ToolCategory) : string :=
  match s with
  | FILE_SYSTEM => "file_system"
  | CODE_EXECUTION => "code_execution"
  | VERSION_CONTROL => "version_control"
  | WEB => "web"
  | DATABASE => "database"
  | TERMINAL => "terminal"
  | DESIGN => "design"
  | COMMUNICATION => "communication"
  | ANALYTICS => "analytics"
  | DEPLOYMENT => "deployment"
  | MEMORY => "memory"
  | ONTOLOGY => "ontology"
  | MCP => "mcp"
  | BROWSER => "browser"
  | EXTERNAL_DATA => "external_data"
  | DESKTOP => "desktop"
  | OTHER => "other"
  end.

#[export] Instance tool_category_value_inj : Inj (=) (=) tool_category_value.
Proof. intros [] []; simpl; congruence. Qed.

End ToolCategory.
Export (hints) ToolCategory.

Module OutputScanPolicyType.

Inductive OutputScanPolicyType :=
| REDACT | WITHHOLD | LOG_ONLY | AUTONOMY_TIERED.

#[export] Instance output_scan_policy_eq_dec : EqDecision OutputScanPolicyType.
Proof. solve_decision. Defined.

Definition members : list OutputScanPolicyType :=
  [REDACT; WITHHOLD; LOG_ONLY; AUTONOMY_TIERED].

Lemma output_scan_policy_members_all s : s ∈ members.
Proof. revert s. enum_elem. Qed.

#[export] Instance output_scan_policy_countable : Countable OutputScanPolicyType :=
  enum_countable members output_scan_policy_members_all.

Definition output_scan_policy_value (s : OutputScanPolicyType) : string :=
  match s with
  | REDACT => "redact"
  | WITHHOLD => "withhold"
  | LOG_ONLY => "log_only"
  | AUTONOMY_TIERED => "autonomy_tiered"
  end.

#[export] Instance output_scan_policy_value_inj : Inj (=) (=) output_scan_policy_value.
Proof. intros [] []; simpl; congruence. Qed.

End OutputScanPolicyType.
Export (hints) OutputScanPolicyType.

Module ScanOutcome.

Inductive ScanOutcome :=
| CLEAN | REDACTED | WITHHELD | LOG_ONLY.

#[export] Instance scan_outcome_eq_dec : EqDecision ScanOutcome.
Proof. solve_decision. Defined.

Definition members : list ScanOutcome :=
  [CLEAN; REDACTED; WITHHELD; LOG_ONLY].

Lemma scan_outcome_members_all s : s ∈ members.
Proof. revert s. enum_elem. Qed.

#[export] Instance scan_outcome_countable : Countable ScanOutcome :=
  enum_countable members scan_outcome_members_all.

Definition scan_outcome_value (s : ScanOutcome) : string :=
  match s with
  | CLEAN => "clean"
  | REDACTED => "redacted"
  | WITHHELD => "withheld"
  | LOG_ONLY => "log_only"
  end.

#[export] Instance scan_outcome_value_inj : Inj (=) (=) scan_outcome_value.
Proof. intros [] []; simpl; congruence. Qed.

End ScanOutcome.
Export (hints) ScanOutcome.

Import OutputScanPolicyType (OutputScanPolicyType).
Import ScanOutcome (ScanOutcome).
Import ApprovalRiskLevel (ApprovalRiskLevel, risk_level_value).
Import SecurityVerdictType (SecurityVerdictType, verdict_type_value).
Import EvaluationConfidence (EvaluationConfidence).
Import SecurityEnforcementMode (SecurityEnforcementMode).
Import LlmFallbackErrorPolicy (LlmFallbackErrorPolicy).
Import VerdictReasonVisibility (VerdictReasonVisibility).
Import SafetyClassification (SafetyClassification, safety_classification_value).
Import PermissionTier (PermissionTier).
Import DenialAction (DenialAction, denial_action_value).
Import ToolCategory (ToolCategory, tool_category_value).

(** ** Risk *)

Definition DEFAULT_RISK_MAP : gmap string ApprovalRiskLevel := dict_of (
  ((fun a => (action_type_value a, ApprovalRiskLevel.CRITICAL)) <$>
    [DEPLOY_PRODUCTION; PUBLISH_PRODUCTION; DB_ADMIN; ORG_FIRE]) ++
  ((fun a => (action_type_value a, ApprovalRiskLevel.HIGH)) <$>
    [DEPLOY_STAGING; PUBLISH_STAGING; DB_MUTATE; CODE_DELETE; DESIGN_DELETE; VCS_PUSH; COMMS_EXTERNAL;
     EXTERNAL_DATA_REQUEST; BUDGET_EXCEED; TOOL_CREATE; ORG_DELEGATE; ORG_HIRE]) ++
  ((fun a => (action_type_value a, ApprovalRiskLevel.MEDIUM)) <$>
    [CODE_CREATE; CODE_WRITE; CODE_REFACTOR; VCS_COMMIT; ARCH_DECIDE; PLAN_EXTEND_WORKSTREAM; KNOWLEDGE_INGEST;
     RESEARCH_RUN; ORG_PROMOTE; BUDGET_SPEND; DESIGN_GENERATE; DESKTOP_LAUNCH]) ++
  ((fun a => (action_type_value a, ApprovalRiskLevel.LOW)) <$>
    [CODE_READ; VCS_READ; TEST_RUN; TEST_WRITE; DOCS_WRITE; VCS_BRANCH; COMMS_INTERNAL; DB_QUERY; MEMORY_READ;
     KNOWLEDGE_REINDEX; BROWSER_NAVIGATE; BROWSER_SCREENSHOT; BROWSER_DIFF; BROWSER_ACCESSIBILITY_SCAN;
     BROWSER_SPEC; DESKTOP_CLICK; DESKTOP_TYPE; DESKTOP_KEY; DESKTOP_SCREENSHOT; DESKTOP_SCROLL])).

(** The classifier over a map; an unknown type is [HIGH]. *)
Definition classify (risk_map : gmap string ApprovalRiskLevel) (action_type : string) : ApprovalRiskLevel :=
  default ApprovalRiskLevel.HIGH (risk_map !! action_type).

(** [dict.update]. *)
Definition MapBackedRiskClassifier (base_map custom_map : option (gmap string ApprovalRiskLevel))
    : gmap string ApprovalRiskLevel :=
  default ∅ custom_map ∪ default ∅ base_map.

Definition default_risk_classifier (custom_map : option (gmap string ApprovalRiskLevel))
    : gmap string ApprovalRiskLevel :=
  MapBackedRiskClassifier (Some DEFAULT_RISK_MAP) custom_map.

(** ** Exceptions *)

(** [MemoryError] and [RecursionError] pass every broad handler, bare or nested
    in an exception group. *)
Inductive Raised := Ordinary | Critical | Critical_group.

#[export] Instance raised_eq_dec : EqDecision Raised.
Proof. solve_decision. Defined.

Definition _contains_critical (e : Raised) : bool := negb (bool_decide (e = Ordinary)).

(** [except Exception as exc: reraise_critical(exc); ...]. *)
Definition reraise_critical {A} (r : result Raised A) (handler : result Raised A) : result Raised A :=
  match r with
  | Ok a => Ok a
  | Err e => if _contains_critical e then Err e else handler
  end.

(** ** Values *)

(** What the language model returns for a field. *)
Inductive LlmValue :=
| Llm_str (s : string)
| Llm_hashable
| Llm_unhashable.

(** Why the evaluator gave no verdict of its own. *)
Inductive LlmFailure :=
| No_model_configured
| Timed_out
| Call_failed
| No_tool_call
| Invalid_verdict (raw : LlmValue)
| Invalid_risk_level (raw : LlmValue).

Inductive Reason :=
| Text (s : string)
| Subsystem_disabled
| Rule_engine_failed
| Rule_failed (name : string)
| Hard_denied (action_type : string)
| Auto_approved (action_type : string)
| Custom_matched (name action_type description : string)
| No_rule_triggered
| Llm_reason (raw : LlmValue)
| Llm_failed (why : LlmFailure) (policy : LlmFallbackErrorPolicy)
| Llm_fallback_failed (r : Reason) (why : LlmFailure)
| Evaluator_raised (r : Reason) (policy : LlmFallbackErrorPolicy)
| Visible_category (verdict : SecurityVerdictType) (risk : ApprovalRiskLevel)
| Visible_generic (verdict : SecurityVerdictType)
| Human_required (level : AutonomyLevel)
| Escalation_unavailable (r : Reason)
| Store_error (r : Reason)
| Blocked_retry (r : Reason)
| Auto_rejected (r : Reason)
| Shadowed (original : SecurityVerdictType)
| Mcp_destructive (names : list string)
| Output_findings (findings : list string).

Record SecurityVerdict := {
  verdict : SecurityVerdictType;
  reason : Reason;
  risk_level : ApprovalRiskLevel;
  confidence : EvaluationConfidence;
  matched_rules : list string;
  approval_id : option string;
  agent_visible_reason : option Reason;
}.

(** [_check_approval_id]. *)
Definition approval_id_ok (v : SecurityVerdict) : bool :=
  bool_decide (verdict v = SecurityVerdictType.ESCALATE) || bool_decide (approval_id v = None).

(** A verdict with the default confidence, no approval and no visible reason. *)
Definition rule_verdict (t : SecurityVerdictType) (r : Reason) (risk : ApprovalRiskLevel) (rules : list string)
    : SecurityVerdict :=
  {| verdict := t; reason := r; risk_level := risk; confidence := EvaluationConfidence.HIGH; matched_rules := rules;
     approval_id := None; agent_visible_reason := None |}.

(** Tool arguments: nested dictionaries and lists; a value of another type is
    skipped by whoever walks them. *)
Inductive Arg :=
| Arg_str (s : string)
| Arg_dict (entries : list (string * Arg))
| Arg_list (items : list Arg)
| Arg_other.

Record SecurityContext := {
  tool_name : string;
  tool_category : ToolCategory;
  action_type : string;
  arguments : list (string * Arg);
  agent_id : option string;
  task_id : option string;
  agent_provider_name : option string;
  agent_model_id : option string;
}.

(** The constructor: [NotBlankStr] fields and [_check_action_type_format]. *)
Definition new_context (c : SecurityContext) : result Raised SecurityContext :=
  ensure negb (is_blank (tool_name c)) && negb (is_blank (action_type c)) &&
    forallb (fun o => match o with Some s => negb (is_blank s) | None => true end)
      [agent_id c; task_id c; agent_provider_name c; agent_model_id c] else Ordinary in
  ensure mentions ":"%char (action_type c) else Ordinary in
  Ok c.

(** ** Configuration *)

Record LlmFallbackConfig := {
  llm_enabled : bool;
  on_error : LlmFallbackErrorPolicy;
  reason_visibility : VerdictReasonVisibility;
}.

Record SecurityPolicyRule := {
  policy_name : string;
  policy_description : string;
  policy_action_types : list string;
  policy_verdict : SecurityVerdictType;
  policy_risk_level : ApprovalRiskLevel;
  policy_enabled : bool;
}.

Record RuleEngineConfig := {
  credential_patterns_enabled : bool;
  data_leak_detection_enabled : bool;
  destructive_op_detection_enabled : bool;
  mcp_destructive_op_detection_enabled : bool;
  path_traversal_detection_enabled : bool;
  max_argument_length : Z;
  custom_allow_bypasses_detectors : bool;
}.

Record SafetyClassifierConfig := {
  safety_enabled : bool;
  auto_reject_blocked : bool;
  max_consecutive_denials : Z;
  max_total_denials : Z;
  safe_tool_categories : list string;
}.

Record UncertaintyCheckConfig := {
  uncertainty_enabled : bool;
  low_confidence_threshold : Q;
}.

Record SecurityConfig := {
  enabled : bool;
  enforcement_mode : SecurityEnforcementMode;
  rule_engine : RuleEngineConfig;
  llm_fallback : LlmFallbackConfig;
  audit_enabled : bool;
  post_tool_scanning_enabled : bool;
  hard_deny_action_types : list string;
  auto_approve_action_types : list string;
  output_scan_policy_type : OutputScanPolicyType;
  custom_policies : list SecurityPolicyRule;
  safety_classifier : SafetyClassifierConfig;
  uncertainty_check : UncertaintyCheckConfig;
}.

Inductive SecurityConfigError :=
| Policy_name_blank
| Policy_action_type (name at_ : string)
| Bound_violated
| Action_types_overlap
| Duplicate_policy (name : string)
| Unsafe_bypass (names : list string)
| Autonomy_without_config
| Autonomy_while_disabled.

Definition action_type_format_ok (at_ : string) : bool :=
  match split_on ":"%char at_ with
  | [category; action] => negb (is_blank category) && negb (is_blank action)
  | _ => false
  end.

(** [SecurityPolicyRule] with its [_check_action_type_format]. *)
Definition check_policy (p : SecurityPolicyRule) : result SecurityConfigError unit :=
  ensure negb (is_blank (policy_name p)) else Policy_name_blank in
  match find (fun at_ => negb (action_type_format_ok at_)) (policy_action_types p) with
  | Some at_ => Err (Policy_action_type (policy_name p) at_)
  | None => Ok tt
  end.

Fixpoint check_policies (ps : list SecurityPolicyRule) : result SecurityConfigError unit :=
  match ps with
  | [] => Ok tt
  | p :: ps => let* _ := check_policy p in check_policies ps
  end.

(** The bounds of the fields of the component models. *)
Definition field_bounds_ok (c : SecurityConfig) : bool :=
  (0 <? max_argument_length (rule_engine c))%Z && (1 <=? max_consecutive_denials (safety_classifier c))%Z &&
  (1 <=? max_total_denials (safety_classifier c))%Z &&
  Qle_bool 0 (low_confidence_threshold (uncertainty_check c)) &&
  Qle_bool (low_confidence_threshold (uncertainty_check c)) 1.

Definition _check_disjoint_action_types (c : SecurityConfig) : result SecurityConfigError unit :=
  ensure bool_decide ((list_to_set (hard_deny_action_types c) : gset string) ∩
    list_to_set (auto_approve_action_types c) = ∅) else Action_types_overlap in
  Ok tt.

Fixpoint unique_names (seen : gset string) (ps : list SecurityPolicyRule) : result SecurityConfigError unit :=
  match ps with
  | [] => Ok tt
  | p :: ps =>
      ensure negb (bool_decide (policy_name p ∈ seen)) else Duplicate_policy (policy_name p) in
      unique_names (seen ∪ {[policy_name p]}) ps
  end.

Definition _check_unique_custom_policy_names (c : SecurityConfig) : result SecurityConfigError unit :=
  unique_names ∅ (custom_policies c).

Definition unsafe_policy (p : SecurityPolicyRule) : bool :=
  policy_enabled p && bool_decide (policy_verdict p ∈ [SecurityVerdictType.ALLOW; SecurityVerdictType.ESCALATE]).

Definition _check_no_allow_or_escalate_bypass (c : SecurityConfig) : result SecurityConfigError unit :=
  if negb (custom_allow_bypasses_detectors (rule_engine c)) then Ok tt
  else
    let unsafe_policies := policy_name <$> List.filter unsafe_policy (custom_policies c) in
    ensure bool_decide (unsafe_policies = []) else Unsafe_bypass (sort_str unsafe_policies) in
    Ok tt.

(** The constructor: the fields, then the validators in their order. *)
Definition new_security_config (c : SecurityConfig) : result SecurityConfigError SecurityConfig :=
  let* _ := check_policies (custom_policies c) in
  ensure field_bounds_ok c else Bound_violated in
  let* _ := _check_disjoint_action_types c in
  let* _ := _check_unique_custom_policy_names c in
  let* _ := _check_no_allow_or_escalate_bypass c in
  Ok c.

