(* ===== verification/SecurityRules.v ===== *)
(** * SecurityRules

    The synchronous rules of the security service: the walk of tool arguments
    ([rules/_utils.py]), the external-MCP detector
    ([rules/mcp_destructive_op_detector.py]), the policy lists, the custom
    policies, and the engine that runs them in order ([rules/engine.py],
    [engine/_security_factory.py]). The four detectors that match regular
    expressions against the arguments are parameters. *)

From stdpp Require Import gmap strings list.
From Stdlib Require Import Lia ZArith QArith Ascii Sorted.
From S2P Require Import Prelude SecurityModel.
#[local] Open Scope py_scope.
#[local] Open Scope nat_scope.
Import SecurityModel.ApprovalRiskLevel (ApprovalRiskLevel).
Import SecurityModel.SecurityVerdictType (SecurityVerdictType).
Import SecurityModel.EvaluationConfidence (EvaluationConfidence).
Import SecurityModel.ToolCategory (ToolCategory).

(** ** The walk *)

Definition _MAX_RECURSION_DEPTH : nat := 20.

(** The dictionary case is [walk_string_values] one level down. *)
Fixpoint _walk_value (value : Arg) (depth : nat) : list string :=
  if _MAX_RECURSION_DEPTH <=? depth then []
  else
    match value with
    | Arg_str s => [s]
    | Arg_dict entries =>
        if _MAX_RECURSION_DEPTH <=? S depth then []
        else flat_map (fun e => _walk_value e.2 (S depth)) entries
    | Arg_list items => flat_map (fun item => _walk_value item (S depth)) items
    | Arg_other => []
    end.

Definition walk_string_values (arguments : list (string * Arg)) (depth : nat) : list string :=
  if _MAX_RECURSION_DEPTH <=? depth then []
  else flat_map (fun e => _walk_value e.2 depth) arguments.

(** ** The external-MCP detector *)

Definition _DESTRUCTIVE_VERBS : list string :=
  ["replace"; "delete"; "destroy"; "drop"; "purge"; "remove"; "revoke"; "wipe"; "terminate"; "teardown";
   "uninstall"; "deprovision"; "decommission"; "overwrite"; "truncate"; "disable"; "erase"; "expire"; "reset"].

Definition _CRITICAL_VERBS : list string := ["purge"; "wipe"; "destroy"; "decommission"; "deprovision"; "drop"].

Definition char_between (lo hi : ascii) (c : ascii) : bool :=
  (nat_of_ascii lo <=? nat_of_ascii c) && (nat_of_ascii c <=? nat_of_ascii hi).
Definition is_upper : ascii -> bool := char_between "A" "Z".
Definition is_lower_or_digit (c : ascii) : bool := char_between "a" "z" c || char_between "0" "9" c.

Definition lower_ascii (c : ascii) : ascii := if is_upper c then ascii_of_nat (nat_of_ascii c + 32) else c.
Fixpoint lower_text (s : string) : string :=
  match s with EmptyString => EmptyString | String c s => String (lower_ascii c) (lower_text s) end.

(** The split at separators and at the boundary between a lower-case letter
    or digit ([prev]) and a capital: the token under way and those after it. *)
Fixpoint _TOKEN_SPLIT (prev : bool) (s : string) : string * list string :=
  match s with
  | EmptyString => (EmptyString, [])
  | String c s =>
      let '(token, rest) := _TOKEN_SPLIT (is_lower_or_digit c) s in
      if is_upper c || is_lower_or_digit c then
        if prev && is_upper c then (EmptyString, String c token :: rest) else (String c token, rest)
      else (EmptyString, token :: rest)
  end.

Definition tokens (value : string) : list string :=
  let '(token, rest) := _TOKEN_SPLIT false value in
  lower_text <$> List.filter (fun t => negb (bool_decide (t = EmptyString))) (token :: rest).

Definition _destructive_tokens (value : string) : gset string :=
  list_to_set (List.filter (fun t => bool_decide (t ∈ _DESTRUCTIVE_VERBS)) (tokens value)).

Definition _MCP_RULE_NAME : string := "mcp_destructive_op_detector".

(** The destructive verbs of a call. *)
Definition found_verbs (context : SecurityContext) : gset string :=
  foldl (fun found value => found ∪ _destructive_tokens value) (_destructive_tokens (tool_name context))
    (walk_string_values (arguments context) 0).

Definition mcp_evaluate (context : SecurityContext) : option SecurityVerdict :=
  if negb (bool_decide (tool_category context = ToolCategory.MCP)) then None
  else
    let found := found_verbs context in
    if decide (found = ∅) then None
    else
      let names := sort_str (elements found) in
      let risk := if bool_decide (found ∩ list_to_set _CRITICAL_VERBS = ∅) then ApprovalRiskLevel.HIGH
        else ApprovalRiskLevel.CRITICAL in
      Some (rule_verdict SecurityVerdictType.ESCALATE (Mcp_destructive names) risk [_MCP_RULE_NAME]).

(** ** Rules *)

Definition Evaluate : Type := SecurityContext -> result Raised (option SecurityVerdict).

Record SecurityRule := { rule_name : string; evaluate_rule : Evaluate }.

Definition _RULE_NAME : string := "policy_validator".

Definition PolicyValidator (hard_deny auto_approve : gset string) : SecurityRule := {|
  rule_name := _RULE_NAME;
  evaluate_rule := fun context =>
    if decide (action_type context ∈ hard_deny) then
      Ok (Some (rule_verdict SecurityVerdictType.DENY (Hard_denied (action_type context)) ApprovalRiskLevel.CRITICAL
        [_RULE_NAME]))
    else if decide (action_type context ∈ auto_approve) then
      Ok (Some (rule_verdict SecurityVerdictType.ALLOW (Auto_approved (action_type context)) ApprovalRiskLevel.LOW
        [_RULE_NAME]))
    else Ok None |}.

Definition custom_rule_name (p : SecurityPolicyRule) : string := String.append "custom_policy:" (policy_name p).

Definition CustomPolicyRule (p : SecurityPolicyRule) : SecurityRule := {|
  rule_name := custom_rule_name p;
  evaluate_rule := fun context =>
    if negb (policy_enabled p) then Ok None
    else if negb (bool_decide (action_type context ∈ policy_action_types p)) then Ok None
    else Ok (Some (rule_verdict (policy_verdict p)
      (Custom_matched (policy_name p) (action_type context) (policy_description p)) (policy_risk_level p)
      [custom_rule_name p])) |}.

Definition _SOFT_ALLOW_RULES : list string := [_RULE_NAME].

(** A rule that raises denies. *)
Definition _safe_evaluate (rule : SecurityRule) (context : SecurityContext)
    : result Raised (option SecurityVerdict) :=
  reraise_critical (evaluate_rule rule context)
    (Ok (Some (rule_verdict SecurityVerdictType.DENY (Rule_failed (rule_name rule)) ApprovalRiskLevel.CRITICAL
      [rule_name rule]))).

(** The loop of [evaluate]: the last soft allow is kept, any other verdict
    returns. *)
Fixpoint run_rules (risk_map : gmap string ApprovalRiskLevel) (rules : list SecurityRule)
    (soft_allow : option SecurityVerdict) (context : SecurityContext) : result Raised SecurityVerdict :=
  match rules with
  | [] =>
      match soft_allow with
      | Some v => Ok v
      | None => Ok {| verdict := SecurityVerdictType.ALLOW; reason := No_rule_triggered;
          risk_level := classify risk_map (action_type context); confidence := EvaluationConfidence.LOW;
          matched_rules := []; approval_id := None; agent_visible_reason := None |}
      end
  | rule :: rules =>
      let* outcome := _safe_evaluate rule context in
      match outcome with
      | None => run_rules risk_map rules soft_allow context
      | Some v =>
          if bool_decide (verdict v = SecurityVerdictType.ALLOW) && bool_decide (rule_name rule ∈ _SOFT_ALLOW_RULES)
          then run_rules risk_map rules (Some v) context
          else Ok v
      end
  end.

Record RuleEngine := { engine_rules : list SecurityRule; engine_risk_map : gmap string ApprovalRiskLevel }.

Definition evaluate (e : RuleEngine) (context : SecurityContext) : result Raised SecurityVerdict :=
  run_rules (engine_risk_map e) (engine_rules e) None context.

Definition MCPDestructiveOpDetector : SecurityRule :=
  {| rule_name := _MCP_RULE_NAME; evaluate_rule := fun context => Ok (mcp_evaluate context) |}.

(** The detectors that match regular expressions. *)
Record Detectors := {
  CredentialDetector : SecurityRule;
  PathTraversalDetector : SecurityRule;
  DestructiveOpDetector : SecurityRule;
  DataLeakDetector : SecurityRule;
}.

Definition custom_rules (cfg : SecurityConfig) : list SecurityRule :=
  CustomPolicyRule <$> List.filter policy_enabled (custom_policies cfg).

Definition enabled_detectors (d : Detectors) (re_cfg : RuleEngineConfig) : list SecurityRule :=
  (if credential_patterns_enabled re_cfg then [CredentialDetector d] else []) ++
  (if path_traversal_detection_enabled re_cfg then [PathTraversalDetector d] else []) ++
  (if destructive_op_detection_enabled re_cfg then [DestructiveOpDetector d] else []) ++
  (if mcp_destructive_op_detection_enabled re_cfg then [MCPDestructiveOpDetector] else []) ++
  (if data_leak_detection_enabled re_cfg then [DataLeakDetector d] else []).

Definition _build_rule_engine (d : Detectors) (cfg : SecurityConfig) : RuleEngine :=
  let re_cfg := rule_engine cfg in
  let policy_validator := PolicyValidator (list_to_set (hard_deny_action_types cfg))
    (list_to_set (auto_approve_action_types cfg)) in
  {| engine_rules :=
       [policy_validator] ++
       (if custom_allow_bypasses_detectors re_cfg then custom_rules cfg else []) ++
       enabled_detectors d re_cfg ++
       (if negb (custom_allow_bypasses_detectors re_cfg) then custom_rules cfg else []);
     engine_risk_map := default_risk_classifier None |}.

(** ** What the walk visits *)

Lemma arg_nested_ind (P : Arg -> Prop) :
  (forall s, P (Arg_str s)) -> (forall d, (forall k v, (k, v) ∈ d -> P v) -> P (Arg_dict d)) ->
  (forall l, (forall v, v ∈ l -> P v) -> P (Arg_list l)) -> P Arg_other -> forall v, P v.
Proof.
  intros Hs Hd Hl Ho. fix IH 1. intros [s|d|l|]; [apply Hs| | |apply Ho].
  - apply Hd. induction d as [|[k' w] d IHd]; [intros k v H; destruct (not_elem_of_nil _ H)|].
    intros k v [[= -> ->]|Hin]%elem_of_cons; [apply IH|exact (IHd _ _ Hin)].
  - apply Hl. induction l as [|w l IHl]; [intros v H; destruct (not_elem_of_nil _ H)|].
    intros v [->|Hin]%elem_of_cons; [apply IH|exact (IHl _ Hin)].
Qed.

(** The string lies [n] containers deep in the value. *)
Inductive nested : nat -> Arg -> string -> Prop :=
| nested_here s : nested 0 (Arg_str s) s
| nested_dict n k v entries s : (k, v) ∈ entries -> nested n v s -> nested (S n) (Arg_dict entries) s
| nested_list n v items s : v ∈ items -> nested n v s -> nested (S n) (Arg_list items) s.

Lemma deep_enough : 0 < _MAX_RECURSION_DEPTH.
Proof. unfold _MAX_RECURSION_DEPTH. lia. Qed.

#[local] Opaque _MAX_RECURSION_DEPTH.
Lemma walk_value_nested v depth s :
  s ∈ _walk_value v depth <-> exists n, nested n v s /\ depth + n < _MAX_RECURSION_DEPTH.
Proof.
  revert depth. induction v as [t|entries IH|items IH|] using arg_nested_ind; intros depth; simpl;
    destruct (Nat.leb_spec _MAX_RECURSION_DEPTH depth) as [Hd|Hd].
  all: try (split; [by intros ?%not_elem_of_nil|intros (n & _ & ?); lia]).
  - rewrite list_elem_of_singleton. split; [intros ->; exists 0; split; [constructor|lia]|].
    intros (n & Hn & _). by inversion Hn.
  - destruct (Nat.leb_spec _MAX_RECURSION_DEPTH (S depth)) as [Hd'|Hd'].
    + split; [by intros ?%not_elem_of_nil|]. intros (n & Hn & ?). inversion Hn; subst; lia.
    + rewrite elem_of_flat_map. split.
      * intros ([k w] & Hin & (n & Hn & ?)%(IH k)); [|done]. exists (S n). split; [by econstructor|lia].
      * intros (n & Hn & ?). inversion Hn; subst. eexists (_, _). split; [done|]. eapply IH; [done|].
        eexists. split; [done|lia].
  - rewrite elem_of_flat_map. split.
    + intros (w & Hin & (n & Hn & ?)%IH); [|done]. exists (S n). split; [by econstructor|lia].
    + intros (n & Hn & ?). inversion Hn; subst. eexists. split; [done|]. eapply IH; [done|].
      eexists. split; [done|lia].
  - split; [by intros ?%not_elem_of_nil|]. intros (n & Hn & _). by inversion Hn.
Qed.

Lemma walk_strings_nested args s :
  s ∈ walk_string_values args 0 <->
  exists k v n, (k, v) ∈ args /\ nested n v s /\ n < _MAX_RECURSION_DEPTH.
Proof.
  unfold walk_string_values. destruct (Nat.leb_spec _MAX_RECURSION_DEPTH 0) as [H|_];
    [exfalso; revert H; apply Nat.nle_gt; exact deep_enough|].
  rewrite elem_of_flat_map. setoid_rewrite walk_value_nested. split.
  - intros ([k v] & Hin & n & ? & ?). by exists k, v, n.
  - intros (k & v & n & ? & ? & ?). exists (k, v). eauto.
Qed.

#[local] Transparent _MAX_RECURSION_DEPTH.

(** ** Tokens *)

Lemma destructive_elem value t : t ∈ _destructive_tokens value <-> t ∈ tokens value /\ t ∈ _DESTRUCTIVE_VERBS.
Proof.
  unfold _destructive_tokens. rewrite elem_of_list_to_set, !list_elem_of_In, filter_In.
  by rewrite bool_decide_eq_true, list_elem_of_In.
Qed.

Lemma found_elem context t :
  t ∈ found_verbs context <->
  t ∈ _DESTRUCTIVE_VERBS /\ (t ∈ tokens (tool_name context) \/
    exists value, value ∈ walk_string_values (arguments context) 0 /\ t ∈ tokens value).
Proof.
  unfold found_verbs. set (values := walk_string_values _ _).
  assert (Hgen : forall acc, t ∈ foldl (fun found value => found ∪ _destructive_tokens value) acc values <->
    t ∈ acc \/ exists value, value ∈ values /\ t ∈ _destructive_tokens value).
  { induction values as [|v vs IH]; intros acc; simpl; [set_solver|]. rewrite IH. set_solver. }
  rewrite Hgen, destructive_elem. setoid_rewrite destructive_elem. naive_solver.
Qed.

(** A word of capitals, lower-case letters and digits without an inner
    boundary. *)
Fixpoint plain_word (prev : bool) (s : string) : bool :=
  match s with
  | EmptyString => true
  | String c s => (is_upper c || is_lower_or_digit c) && negb (prev && is_upper c) &&
      plain_word (is_lower_or_digit c) s
  end.

Lemma upper_not_lower c : is_upper c = true -> is_lower_or_digit c = false.
Proof.
  destruct c as [[] [] [] [] [] [] [] []]; vm_compute; congruence.
Qed.

Lemma split_word_end prev s : plain_word prev s = true -> _TOKEN_SPLIT prev s = (s, []).
Proof.
  revert prev. induction s as [|c s IH]; intros prev; simpl; [done|]. intros H.
  apply andb_prop in H as [[Hc Hb]%andb_prop Hs]. rewrite (IH _ Hs), Hc.
  by rewrite negb_true_iff in Hb; rewrite Hb.
Qed.

(** A separator ends the word. *)
Lemma split_word prev s sep rest :
  plain_word prev s = true -> is_upper sep = false -> is_lower_or_digit sep = false ->
  _TOKEN_SPLIT prev (String.append s (String sep rest)) =
    (s, (_TOKEN_SPLIT false rest).1 :: (_TOKEN_SPLIT false rest).2).
Proof.
  intros Hw Hu Hl. revert prev Hw. induction s as [|c s IH]; intros prev Hw; simpl.
  - rewrite Hu, Hl. simpl. by destruct (_TOKEN_SPLIT false rest).
  - simpl in Hw. apply andb_prop in Hw as [[Hc Hb]%andb_prop Hs]. rewrite (IH _ Hs), Hc.
    by rewrite negb_true_iff in Hb; rewrite Hb.
Qed.

(** Words joined by one separator are the tokens, in lower case. *)
Lemma tokens_joined sep words :
  is_upper sep = false -> is_lower_or_digit sep = false -> words <> [] ->
  Forall (fun w => w <> EmptyString /\ plain_word false w = true) words ->
  tokens (join_with sep words) = lower_text <$> words.
Proof.
  intros Hu Hl Hne Hw. unfold tokens.
  assert (Hsplit : (_TOKEN_SPLIT false (join_with sep words)).1 :: (_TOKEN_SPLIT false (join_with sep words)).2 = words).
  { induction Hw as [|w ws [Hw Hp] Hws IH]; [done|]. destruct ws as [|w' ws]; [by simpl; rewrite split_word_end|].
    change (join_with sep (w :: w' :: ws)) with (String.append w (String sep (join_with sep (w' :: ws)))).
    rewrite split_word by done. simpl fst. simpl snd. f_equal. by apply IH. }
  destruct (_TOKEN_SPLIT _ _) as [token rest] eqn:E. simpl in Hsplit. rewrite Hsplit. f_equal.
  clear -Hw. induction Hw as [|w ws [Hw _] _ IH]; simpl; [done|]. by rewrite bool_decide_eq_false_2, IH.
Qed.

(** ** The order of the engine *)

(** A rule that never clears a call. *)
Definition objects_only (rule : SecurityRule) : Prop :=
  forall context v, evaluate_rule rule context = Ok (Some v) -> verdict v <> SecurityVerdictType.ALLOW.

(** The first answer of a list of rules. *)
Fixpoint first_answer (rules : list SecurityRule) (context : SecurityContext)
    : result Raised (option SecurityVerdict) :=
  match rules with
  | [] => Ok None
  | rule :: rules =>
      let* outcome := _safe_evaluate rule context in
      match outcome with Some v => Ok (Some v) | None => first_answer rules context end
  end.

(** The first enabled policy that names the action type. *)
Definition matching_policy (cfg : SecurityConfig) (context : SecurityContext) : option SecurityPolicyRule :=
  find (fun p => policy_enabled p && bool_decide (action_type context ∈ policy_action_types p)) (custom_policies cfg).

Definition custom_verdict (context : SecurityContext) (p : SecurityPolicyRule) : SecurityVerdict :=
  rule_verdict (policy_verdict p) (Custom_matched (policy_name p) (action_type context) (policy_description p))
    (policy_risk_level p) [custom_rule_name p].

(** What the lists and the taxonomy say when nothing else speaks. *)
Definition listed_verdict (cfg : SecurityConfig) (context : SecurityContext) : SecurityVerdict :=
  if bool_decide (action_type context ∈ auto_approve_action_types cfg) then
    rule_verdict SecurityVerdictType.ALLOW (Auto_approved (action_type context)) ApprovalRiskLevel.LOW [_RULE_NAME]
  else {| verdict := SecurityVerdictType.ALLOW; reason := No_rule_triggered;
    risk_level := classify (default_risk_classifier None) (action_type context);
    confidence := EvaluationConfidence.LOW; matched_rules := []; approval_id := None; agent_visible_reason := None |}.

Definition reference_evaluate (d : Detectors) (cfg : SecurityConfig) (context : SecurityContext)
    : result Raised SecurityVerdict :=
  if bool_decide (action_type context ∈ hard_deny_action_types cfg) then
    Ok (rule_verdict SecurityVerdictType.DENY (Hard_denied (action_type context)) ApprovalRiskLevel.CRITICAL
      [_RULE_NAME])
  else
    let custom := custom_verdict context <$> matching_policy cfg context in
    let bypass := custom_allow_bypasses_detectors (rule_engine cfg) in
    match (if bypass then custom else None) with
    | Some v => Ok v
    | None =>
        let* objection := first_answer (enabled_detectors d (rule_engine cfg)) context in
        Ok (default (default (listed_verdict cfg context) (if bypass then None else custom)) objection)
    end.

(** An answer of the rule ends the run. *)
Definition decisive (rule : SecurityRule) : Prop := objects_only rule \/ rule_name rule ∉ _SOFT_ALLOW_RULES.

Lemma failed_denies rule context v :
  _safe_evaluate rule context = Ok (Some v) ->
  evaluate_rule rule context = Ok (Some v) \/ verdict v = SecurityVerdictType.DENY.
Proof. unfold _safe_evaluate. destruct (evaluate_rule rule context) as [o|[]]; simpl; intros H; inv_result; auto. Qed.

Lemma run_decisive m rules rest soft context :
  (forall rule, rule ∈ rules -> decisive rule) ->
  run_rules m (rules ++ rest) soft context =
    (let* answer := first_answer rules context in
     match answer with Some v => Ok v | None => run_rules m rest soft context end).
Proof.
  induction rules as [|rule rules IH]; intros Hr; [done|]. simpl.
  destruct (_safe_evaluate rule context) as [[v|]|e] eqn:E; simpl; [| |done].
  - destruct (bool_decide _ && bool_decide _) eqn:Hb; [|done]. exfalso.
    apply andb_prop in Hb as [Hv%bool_decide_eq_true Hn%bool_decide_eq_true].
    destruct (Hr rule) as [Ho|Ho]; [by left| |by apply Ho].
    destruct (failed_denies _ _ _ E) as [Ha|Ha]; [by apply (Ho context v)|by rewrite Ha in Hv].
  - apply IH. intros r Hin. apply Hr. by right.
Qed.

Lemma custom_decisive cfg rule : rule ∈ custom_rules cfg -> decisive rule.
Proof.
  unfold custom_rules. intros (p & -> & _)%list_elem_of_fmap. right. simpl. unfold custom_rule_name.
  intros H%list_elem_of_singleton. simpl in H. by injection H.
Qed.

Lemma first_custom cfg context :
  first_answer (custom_rules cfg) context = Ok (custom_verdict context <$> matching_policy cfg context).
Proof.
  unfold custom_rules, matching_policy. induction (custom_policies cfg) as [|p ps IH]; [done|]. simpl.
  destruct (policy_enabled p) eqn:Hp; simpl; [|exact IH]. unfold _safe_evaluate at 1. simpl. rewrite Hp. simpl.
  destruct (bool_decide _); simpl; [done|exact IH].
Qed.

Lemma mcp_objects_only : objects_only MCPDestructiveOpDetector.
Proof.
  intros context v. simpl. unfold mcp_evaluate. destruct (negb _); [done|]. destruct (decide _); [done|].
  intros H. by inv_result.
Qed.

Lemma elem_of_switch {A} (b : bool) (x y : A) : x ∈ (if b then [y] else []) <-> b = true /\ x = y.
Proof. destruct b; [rewrite list_elem_of_singleton|rewrite elem_of_nil]; naive_solver. Qed.

Section Engine.
Context (d : Detectors).
Context (Hd : forall rule, rule ∈ [CredentialDetector d; PathTraversalDetector d; DestructiveOpDetector d;
  DataLeakDetector d] -> objects_only rule).

Lemma enabled_objects_only cfg rule : rule ∈ enabled_detectors d cfg -> objects_only rule.
Proof.
  unfold enabled_detectors. rewrite !elem_of_app, !elem_of_switch.
  intros H; repeat destruct H as [H|H]; destruct H as [_ ->];
    first [exact mcp_objects_only|apply Hd; rewrite !elem_of_cons; tauto].
Qed.

(** After the lists, the rest of the engine. *)
Definition after_lists (cfg : SecurityConfig) (soft : option SecurityVerdict) (context : SecurityContext)
    : result Raised SecurityVerdict :=
  run_rules (default_risk_classifier None)
    ((if custom_allow_bypasses_detectors (rule_engine cfg) then custom_rules cfg else []) ++
     enabled_detectors d (rule_engine cfg) ++
     (if negb (custom_allow_bypasses_detectors (rule_engine cfg)) then custom_rules cfg else [])) soft context.

Lemma after_lists_answer cfg soft context :
  after_lists cfg soft context =
    (let custom := custom_verdict context <$> matching_policy cfg context in
     let bypass := custom_allow_bypasses_detectors (rule_engine cfg) in
     match (if bypass then custom else None) with
     | Some v => Ok v
     | None =>
         let* objection := first_answer (enabled_detectors d (rule_engine cfg)) context in
         match objection, (if bypass then None else custom) with
         | Some v, _ => Ok v
         | None, Some v => Ok v
         | None, None => run_rules (default_risk_classifier None) [] soft context
         end
     end).
Proof.
  unfold after_lists. assert (He : forall r, r ∈ enabled_detectors d (rule_engine cfg) -> decisive r).
  { intros r Hr. left. by eapply enabled_objects_only. }
  pose proof (custom_decisive cfg) as Hc. destruct (custom_allow_bypasses_detectors _); simpl.
  - rewrite run_decisive, first_custom by done. simpl. destruct (matching_policy cfg context); simpl; [done|].
    rewrite run_decisive by done. by destruct (first_answer _ _) as [[]|].
  - rewrite run_decisive by done. destruct (first_answer _ _) as [[v|]|]; simpl; try done.
    rewrite <-(app_nil_r (custom_rules cfg)), run_decisive, first_custom by done. simpl.
    by destruct (matching_policy cfg context).
Qed.

(** The engine says what the order of its parts says. *)
Lemma engine_reference cfg context :
  evaluate (_build_rule_engine d cfg) context = reference_evaluate d cfg context.
Proof.
  unfold reference_evaluate.
  change (evaluate (_build_rule_engine d cfg) context) with
    (let* outcome := _safe_evaluate (PolicyValidator (list_to_set (hard_deny_action_types cfg))
       (list_to_set (auto_approve_action_types cfg))) context in
     match outcome with
     | None => after_lists cfg None context
     | Some v => if bool_decide (verdict v = SecurityVerdictType.ALLOW) && bool_decide (_RULE_NAME ∈ _SOFT_ALLOW_RULES)
         then after_lists cfg (Some v) context else Ok v
     end).
  unfold _safe_evaluate, listed_verdict. simpl.
  destruct (decide _) as [H|H]; rewrite elem_of_list_to_set in H; [by rewrite bool_decide_eq_true_2|].
  rewrite bool_decide_eq_false_2 by done.
  destruct (decide _) as [H'|H']; rewrite elem_of_list_to_set in H'; simpl; rewrite after_lists_answer;
    cbv zeta;
    (destruct (if custom_allow_bypasses_detectors _ then _ else None); simpl; [reflexivity|]);
    (destruct (first_answer _ _) as [[v|]|e]; simpl; [reflexivity| |reflexivity]);
    (destruct (if custom_allow_bypasses_detectors _ then None else _); simpl; [reflexivity|]).
  - by rewrite bool_decide_eq_true_2.
  - by rewrite bool_decide_eq_false_2.
Qed.

(** ** What clears a call *)

Lemma first_answer_none rules context :
  first_answer rules context = Ok None <-> forall rule, rule ∈ rules -> evaluate_rule rule context = Ok None.
Proof.
  induction rules as [|rule rules IH]; simpl.
  { split; [by intros _ r ?%not_elem_of_nil|done]. }
  unfold _safe_evaluate at 1. setoid_rewrite elem_of_cons.
  destruct (evaluate_rule rule context) as [[v|]|[]] eqn:E; simpl.
  1, 3, 4, 5: split; [done|intros H; by rewrite (H rule (or_introl eq_refl)) in E].
  rewrite IH. naive_solver.
Qed.

Lemma first_answer_objects rules context v :
  (forall rule, rule ∈ rules -> objects_only rule) -> first_answer rules context = Ok (Some v) ->
  verdict v <> SecurityVerdictType.ALLOW.
Proof.
  induction rules as [|rule rules IH]; intros Hr; simpl; [done|].
  destruct (_safe_evaluate rule context) as [[w|]|e] eqn:E; simpl; [| |done].
  - intros H. inv_result. destruct (failed_denies _ _ _ E) as [Ha|Ha]; [|by rewrite Ha].
    apply (Hr rule) in Ha; [done|by left].
  - apply IH. intros r Hin. apply Hr. by right.
Qed.

(** A configuration that passed its validators has no clearing policy ahead
    of the detectors. *)
Lemma bypass_denies cfg context p :
  new_security_config cfg = Ok cfg -> custom_allow_bypasses_detectors (rule_engine cfg) = true ->
  matching_policy cfg context = Some p -> policy_verdict p = SecurityVerdictType.DENY.
Proof.
  unfold new_security_config, _check_no_allow_or_escalate_bypass. intros Hc Hb (Hin & Hp)%find_some.
  apply andb_prop in Hp as [He _]. destruct (check_policies _); [|done]. simpl in Hc.
  destruct (field_bounds_ok cfg); [|done]. destruct (_check_disjoint_action_types cfg); [|done]. simpl in Hc.
  destruct (_check_unique_custom_policy_names cfg); [|done]. simpl in Hc. rewrite Hb in Hc. simpl in Hc.
  destruct (bool_decide _) eqn:Hu; [|done]. apply bool_decide_eq_true, fmap_nil_iff in Hu.
  destruct (unsafe_policy p) eqn:Hs.
  - assert (Hf : In p []) by (rewrite <-Hu; by apply filter_In). destruct Hf.
  - unfold unsafe_policy in Hs. rewrite He in Hs. apply bool_decide_eq_false in Hs.
    destruct (policy_verdict p); [|done|]; destruct Hs; set_solver.
Qed.

Lemma listed_allows cfg context : verdict (listed_verdict cfg context) = SecurityVerdictType.ALLOW.
Proof. unfold listed_verdict. by destruct (bool_decide _). Qed.

(** What clears a call, for a validated configuration. *)
Lemma engine_clears (cfg : SecurityConfig) (context : SecurityContext) :
  new_security_config cfg = Ok cfg ->
  (exists v, evaluate (_build_rule_engine d cfg) context = Ok v /\ verdict v = SecurityVerdictType.ALLOW) <->
  action_type context ∉ hard_deny_action_types cfg /\
  (forall rule, rule ∈ enabled_detectors d (rule_engine cfg) -> evaluate_rule rule context = Ok None) /\
  (forall p, matching_policy cfg context = Some p -> policy_verdict p = SecurityVerdictType.ALLOW).
Proof.
  intros Hc. rewrite engine_reference, <-first_answer_none. unfold reference_evaluate.
  destruct (bool_decide _) eqn:Hh; [apply bool_decide_eq_true in Hh|apply bool_decide_eq_false in Hh].
  { split; [|tauto]. intros (v & H & Ha). by inv_result. }
  pose proof (first_answer_objects (enabled_detectors d (rule_engine cfg)) context) as Ho.
  destruct (custom_allow_bypasses_detectors (rule_engine cfg)) eqn:Hb.
  - destruct (matching_policy cfg context) as [p|] eqn:Hm; simpl.
    + pose proof (bypass_denies cfg context p Hc Hb Hm) as Hp. split.
      * intros (v & H & Ha). inv_result. simpl in Ha. by rewrite Hp in Ha.
      * intros (_ & _ & H). rewrite (H p eq_refl) in Hp. done.
    + destruct (first_answer _ _) as [[v|]|e] eqn:Hf; simpl.
      * split; [|naive_solver]. intros (v' & H & Ha). inv_result.
        by destruct (Ho v' (enabled_objects_only _)).
      * split; [naive_solver|]. intros _. eexists. split; [done|]. apply listed_allows.
      * split; naive_solver.
  - destruct (first_answer _ _) as [[v|]|e] eqn:Hf; simpl; [| |split; naive_solver].
    + split; [|naive_solver]. intros (v' & H & Ha). inv_result. by destruct (Ho v' (enabled_objects_only _)).
    + destruct (matching_policy cfg context) as [p|]; simpl.
      * split; [|naive_solver]. intros (v & H & Ha). inv_result. simpl in Ha. naive_solver.
      * split; [naive_solver|]. intros _. eexists. split; [done|]. apply listed_allows.
Qed.
(** C24: with detectors that only object, as the four in the code that are made
    of regular expressions do, the assembled engine, with its soft allows, its
    bypass switch and its failures turned into denials, answers every call as
    the reference does: hard denials, then custom policies if they bypass, then
    the first objection of a detector, then custom policies if they do not, then
    the auto-approve list and the default. Built from a validated configuration
    it clears a call exactly when its action type is not hard-denied, every
    enabled detector looked at it and said nothing, and the first enabled custom
    policy that names the action type, if any, is an ALLOW. *)
Theorem engine_clears_exact (cfg : SecurityConfig) (context : SecurityContext) :
  evaluate (_build_rule_engine d cfg) context = reference_evaluate d cfg context /\
  (new_security_config cfg = Ok cfg ->
   (exists v, evaluate (_build_rule_engine d cfg) context = Ok v /\ verdict v = SecurityVerdictType.ALLOW) <->
   action_type context ∉ hard_deny_action_types cfg /\
   (forall rule, rule ∈ enabled_detectors d (rule_engine cfg) -> evaluate_rule rule context = Ok None) /\
   (forall p, matching_policy cfg context = Some p -> policy_verdict p = SecurityVerdictType.ALLOW)).
Proof. split; [apply engine_reference|apply engine_clears]. Qed.
End Engine.

(** A verb the call names: a token of the tool name, or of a string in the
    arguments fewer than twenty containers deep. *)
Definition names_verb (context : SecurityContext) (t : string) : Prop :=
  t ∈ _DESTRUCTIVE_VERBS /\ (t ∈ tokens (tool_name context) \/
    exists k v n s, (k, v) ∈ arguments context /\ nested n v s /\ n < _MAX_RECURSION_DEPTH /\ t ∈ tokens s).

Lemma found_exact context t : t ∈ found_verbs context <-> names_verb context t.
Proof.
  rewrite found_elem. unfold names_verb. setoid_rewrite walk_strings_nested. naive_solver.
Qed.

Lemma critical_found context :
  found_verbs context ∩ list_to_set _CRITICAL_VERBS = ∅ <->
  ~ exists t, names_verb context t /\ t ∈ _CRITICAL_VERBS.
Proof.
  setoid_rewrite <-found_exact. rewrite set_eq. setoid_rewrite elem_of_intersection.
  setoid_rewrite elem_of_list_to_set. split.
  - intros H (t & ? & ?). by destruct (not_elem_of_empty (C:=gset string) t); apply H.
  - intros H t. split; [|intros Ht; by destruct (not_elem_of_empty t Ht)]. intros Ht. destruct H. by exists t.
Qed.

(** The external-MCP detector escalates exactly the MCP calls that name a
    destructive verb as a whole token of the tool name or of a string nested
    fewer than twenty containers deep in the arguments; the reason lists those
    verbs in order, and the risk is critical exactly when one of them is. *)
Theorem mcp_detector_exact (context : SecurityContext) :
  match mcp_evaluate context with
  | None => tool_category context <> ToolCategory.MCP \/ (forall t, ~ names_verb context t)
  | Some v =>
      tool_category context = ToolCategory.MCP /\ verdict v = SecurityVerdictType.ESCALATE /\
      (exists names, reason v = Mcp_destructive names /\ names <> [] /\ Sorted str_le names /\ NoDup names /\
         forall t, t ∈ names <-> names_verb context t) /\
      (risk_level v = ApprovalRiskLevel.CRITICAL <-> exists t, names_verb context t /\ t ∈ _CRITICAL_VERBS) /\
      (risk_level v = ApprovalRiskLevel.HIGH <-> ~ exists t, names_verb context t /\ t ∈ _CRITICAL_VERBS)
  end.
Proof.
  unfold mcp_evaluate. destruct (bool_decide _) eqn:Hm; simpl;
    [apply bool_decide_eq_true in Hm|apply bool_decide_eq_false in Hm; by left].
  destruct (decide (found_verbs context = ∅)) as [E|E].
  { right. intros t Ht%found_exact. rewrite E in Ht. by apply not_elem_of_empty in Ht. }
  split; [done|]. split; [done|]. split.
  - exists (sort_str (elements (found_verbs context))). split; [done|].
    pose proof (sort_str_perm (elements (found_verbs context))) as Hp. split; [|split; [|split]].
    + intros H. rewrite H in Hp. apply E, leibniz_equiv, elements_empty_iff. by apply Permutation_nil_r.
    + apply sort_str_sorted.
    + rewrite Hp. apply NoDup_elements.
    + intros t. rewrite Hp, elem_of_elements. apply found_exact.
  - cbn [risk_level rule_verdict]. rewrite <-critical_found. pose proof (critical_found context) as Hc.
    case_bool_decide as Hf; split; split; intros Hx; try done.
    + destruct (proj1 Hc Hf Hx).
    + destruct (set_choose_L _ Hf) as [t [Ht%found_exact Hy]%elem_of_intersection]. exists t. split; [done|].
      exact (proj1 (elem_of_list_to_set (C:=gset string) t _CRITICAL_VERBS) Hy).
Qed.

(** ** Examples *)

Definition quiet (name : string) : SecurityRule := {| rule_name := name; evaluate_rule := fun _ => Ok None |}.

(** A leak detector that looks for one file, and a destructive-operation
    detector that fails on it. *)
Definition sample_detectors : Detectors := {|
  CredentialDetector := quiet "credential_detector";
  PathTraversalDetector := quiet "path_traversal_detector";
  DestructiveOpDetector := {| rule_name := "destructive_op_detector"; evaluate_rule := fun context =>
    if bool_decide ("/boom"%string ∈ walk_string_values (arguments context) 0) then Err Ordinary else Ok None |};
  DataLeakDetector := {| rule_name := "data_leak_detector"; evaluate_rule := fun context =>
    Ok (if bool_decide ("/etc/shadow"%string ∈ walk_string_values (arguments context) 0)
        then Some (rule_verdict SecurityVerdictType.DENY (Text "sensitive path") ApprovalRiskLevel.HIGH
          ["data_leak_detector"%string]) else None) |};
|}.

Lemma sample_objects_only rule :
  rule ∈ [CredentialDetector sample_detectors; PathTraversalDetector sample_detectors;
    DestructiveOpDetector sample_detectors; DataLeakDetector sample_detectors] -> objects_only rule.
Proof.
  rewrite !elem_of_cons, elem_of_nil. intros [->|[->|[->|[->|[]]]]] context v; simpl; try done.
  - by destruct (bool_decide _).
  - destruct (bool_decide _); intros H; by inv_result.
Qed.

(** [SecurityConfig()]. *)
Definition default_security_config : SecurityConfig := {|
  enabled := true;
  enforcement_mode := SecurityModel.SecurityEnforcementMode.ACTIVE;
  rule_engine := {| credential_patterns_enabled := true; data_leak_detection_enabled := true;
    destructive_op_detection_enabled := true; mcp_destructive_op_detection_enabled := true;
    path_traversal_detection_enabled := true; max_argument_length := 100000;
    custom_allow_bypasses_detectors := false |};
  llm_fallback := {| llm_enabled := false; on_error := SecurityModel.LlmFallbackErrorPolicy.ESCALATE;
    reason_visibility := SecurityModel.VerdictReasonVisibility.GENERIC |};
  audit_enabled := true;
  post_tool_scanning_enabled := true;
  hard_deny_action_types := ["deploy:production"; "db:admin"; "org:fire"];
  auto_approve_action_types := ["code:read"; "docs:write"];
  output_scan_policy_type := SecurityModel.OutputScanPolicyType.AUTONOMY_TIERED;
  custom_policies := [];
  safety_classifier := {| safety_enabled := false; auto_reject_blocked := true; max_consecutive_denials := 3;
    max_total_denials := 20; safe_tool_categories := ["code:read"; "docs:write"] |};
  uncertainty_check := {| uncertainty_enabled := false; low_confidence_threshold := 1 # 2 |};
|}%string.

Definition call (category : ToolCategory) (tool action : string) (args : list (string * Arg)) : SecurityContext := {|
  tool_name := tool; tool_category := category; action_type := action; arguments := args;
  agent_id := Some "agent-1"%string; task_id := Some "task-1"%string; agent_provider_name := None;
  agent_model_id := None |}.

Example default_config_valid : new_security_config default_security_config = Ok default_security_config.
Proof. vm_compute. reflexivity. Qed.

Example camel_case_verb :
  found_verbs (call ToolCategory.MCP "mcp_chat_call" "external_data:request"
    [("request", Arg_dict [("action", Arg_list [Arg_str "deleteChannel"])])]%string) = {["delete"%string]}.
Proof. by apply (bool_decide_unpack _); vm_compute. Qed.

(** An auto-approved read is scanned all the same. *)
Example auto_approved_read_scanned :
  evaluate (_build_rule_engine sample_detectors default_security_config)
    (call ToolCategory.FILE_SYSTEM "read_file" "code:read" [("path", Arg_str "/etc/shadow")]%string) =
  Ok (rule_verdict SecurityVerdictType.DENY (Text "sensitive path") ApprovalRiskLevel.HIGH ["data_leak_detector"%string]).
Proof. vm_compute. reflexivity. Qed.

Lemma engine_clears_exact_witness :
  exists v, evaluate (_build_rule_engine sample_detectors default_security_config)
    (call ToolCategory.FILE_SYSTEM "read_file" "code:read" [("path", Arg_str "main.py")]%string) = Ok v /\
    verdict v = SecurityVerdictType.ALLOW.
Proof.
  apply (proj2 (engine_clears_exact sample_detectors sample_objects_only default_security_config _) default_config_valid).
  split; [by apply (bool_decide_unpack _); vm_compute|]. split; [|done].
  apply first_answer_none. vm_compute. reflexivity.
Defined.
