(* ===== verification/DenialTracker.v ===== *)
(** * DenialTracker

    Deny-and-continue counts per agent ([security/denial_tracker.py]): how
    often an agent was denied in a row and in all, and when the next denial
    goes to a human instead. *)

From stdpp Require Import gmap strings list.
From Stdlib Require Import Lia ZArith.
From S2P Require Import Prelude SecurityModel.
#[local] Open Scope py_scope.
#[local] Open Scope Z_scope.
Import SecurityModel.DenialAction (DenialAction).

Record _AgentDenialCounts := { consecutive : Z; total : Z }.

Record DenialTracker := {
  _max_consecutive : Z;
  _max_total : Z;
  _counts : gmap string _AgentDenialCounts;
}.

Inductive TrackerError := Max_consecutive_below_one (n : Z) | Max_total_below_one (n : Z).

Definition new_tracker (max_consecutive max_total : Z) : result TrackerError DenialTracker :=
  ensure negb (max_consecutive <? 1) else Max_consecutive_below_one max_consecutive in
  ensure negb (max_total <? 1) else Max_total_below_one max_total in
  Ok {| _max_consecutive := max_consecutive; _max_total := max_total; _counts := ∅ |}.

Definition with_counts (t : DenialTracker) (counts : gmap string _AgentDenialCounts) : DenialTracker :=
  {| _max_consecutive := _max_consecutive t; _max_total := _max_total t; _counts := counts |}.

Definition record_denial (t : DenialTracker) (agent_id : string) : DenialAction * DenialTracker :=
  let counts := default {| consecutive := 0; total := 0 |} (_counts t !! agent_id) in
  let counts := {| consecutive := consecutive counts + 1; total := total counts + 1 |} in
  let t := with_counts t (<[agent_id := counts]> (_counts t)) in
  if (_max_consecutive t <=? consecutive counts) || (_max_total t <=? total counts)
  then (SecurityModel.DenialAction.ESCALATE, t) else (SecurityModel.DenialAction.RETRY, t).

Definition reset_consecutive (t : DenialTracker) (agent_id : string) : DenialTracker :=
  match _counts t !! agent_id with
  | Some counts =>
      if 0 <? consecutive counts
      then with_counts t (<[agent_id := {| consecutive := 0; total := total counts |}]> (_counts t)) else t
  | None => t
  end.

Definition get_counts (t : DenialTracker) (agent_id : string) : Z * Z :=
  match _counts t !! agent_id with
  | Some counts => (consecutive counts, total counts)
  | None => (0, 0)
  end.

(** ** Histories *)

Inductive Event := Denied (agent_id : string) | Cleared (agent_id : string).

#[export] Instance event_eq_dec : EqDecision Event.
Proof. solve_decision. Defined.

Definition tell (t : DenialTracker) (e : Event) : option DenialAction * DenialTracker :=
  match e with
  | Denied a => let '(action, t) := record_denial t a in (Some action, t)
  | Cleared a => (None, reset_consecutive t a)
  end.

(** The tracker after a history, and its answers, oldest first. *)
Fixpoint replay (t : DenialTracker) (history : list Event) : DenialTracker * list (Event * option DenialAction) :=
  match history with
  | [] => (t, [])
  | e :: history =>
      let '(answer, t) := tell t e in
      let '(t, answers) := replay t history in
      (t, (e, answer) :: answers)
  end.

(** The denials of an agent, and those since it was last cleared: what the
    history says, newest event last. *)
Definition denials (a : string) (history : list Event) : Z := Z.of_nat (count (Denied a) history).
Definition streak (a : string) (history : list Event) : Z :=
  foldl (fun n e => if decide (e = Denied a) then n + 1 else if decide (e = Cleared a) then 0 else n) 0 history.

Lemma denials_snoc a history e : denials a (history ++ [e]) = denials a history + (if decide (e = Denied a) then 1 else 0).
Proof. unfold denials. rewrite count_app, count_cons, count_nil. case_decide; lia. Qed.

Lemma streak_snoc a history e :
  streak a (history ++ [e]) =
  (if decide (e = Denied a) then streak a history + 1 else if decide (e = Cleared a) then 0 else streak a history).
Proof. unfold streak. by rewrite foldl_app. Qed.

Lemma streak_le_denials a history : 0 <= streak a history <= denials a history.
Proof.
  induction history as [|e history IH] using rev_ind; [done|]. rewrite streak_snoc, denials_snoc.
  repeat case_decide; lia.
Qed.

(** The tracker stands where the history put it. *)
Definition stands (t : DenialTracker) (max_consecutive max_total : Z) (history : list Event) : Prop :=
  _max_consecutive t = max_consecutive /\ _max_total t = max_total /\
  forall a, get_counts t a = (streak a history, denials a history).

Lemma get_counts_insert t a c b :
  get_counts (with_counts t (<[a := c]> (_counts t))) b =
  if decide (a = b) then (consecutive c, total c) else get_counts t b.
Proof.
  unfold get_counts. simpl. case_decide as E; [subst; by rewrite lookup_insert_eq|by rewrite lookup_insert_ne].
Qed.

Lemma record_stands t mc mt history a :
  stands t mc mt history ->
  stands (record_denial t a).2 mc mt (history ++ [Denied a]) /\
  ((record_denial t a).1 = SecurityModel.DenialAction.ESCALATE <->
     mc <= streak a history + 1 \/ mt <= denials a history + 1).
Proof.
  intros (Hc & Ht & Hs). unfold record_denial. set (counts := default _ _).
  assert (Hcounts : consecutive counts = streak a history /\ total counts = denials a history).
  { pose proof (Hs a) as Ha. unfold get_counts in Ha. subst counts. destruct (_counts t !! a); by inversion Ha. }
  destruct Hcounts as [E1 E2]. cbn [_max_consecutive _max_total with_counts consecutive total].
  match goal with |- context [if ?b then _ else _] => destruct b eqn:Hb end;
    rewrite ?orb_true_iff, ?orb_false_iff, ?Z.leb_le, ?Z.leb_gt in Hb; simpl.
  all: split; [split; [done|split; [done|]]|split; intros; try done; lia].
  all: intros b; rewrite get_counts_insert, streak_snoc, denials_snoc; simpl;
    case_decide as E; [subst; rewrite !decide_True by done; f_equal; lia|].
  all: rewrite !decide_False by congruence; rewrite Hs; f_equal; lia.
Qed.

Lemma reset_stands t mc mt history a :
  stands t mc mt history -> stands (reset_consecutive t a) mc mt (history ++ [Cleared a]).
Proof.
  intros (Hc & Ht & Hs). unfold reset_consecutive. pose proof (Hs a) as Ha. unfold get_counts in Ha.
  assert (Hgen : forall t', _max_consecutive t' = mc -> _max_total t' = mt ->
    (forall b, get_counts t' b = if decide (a = b) then (0, denials a history) else get_counts t b) ->
    stands t' mc mt (history ++ [Cleared a])).
  { intros t' H1 H2 H3. split; [done|]. split; [done|]. intros b. rewrite H3, streak_snoc, denials_snoc.
    rewrite !(decide_False (P := Cleared a = Denied b)) by done. case_decide as E.
    - subst. rewrite decide_True by done. f_equal; lia.
    - rewrite decide_False by congruence. rewrite Hs. f_equal; lia. }
  assert (Hsame : streak a history = 0 -> stands t mc mt (history ++ [Cleared a])).
  { intros H0. apply Hgen; try done. intros b. case_decide; [subst; by rewrite Hs, H0|done]. }
  destruct (_counts t !! a) as [c|]; [|apply Hsame; by inversion Ha]. inversion Ha as [[H1 H2]].
  destruct (Z.ltb_spec 0 (consecutive c)) as [Hpos|Hpos].
  - apply Hgen; [done|done|]. intros b. rewrite get_counts_insert. simpl. by rewrite H2.
  - apply Hsame. pose proof (streak_le_denials a history). lia.
Qed.

Definition retry_answers (a : string) (answers : list (Event * option DenialAction)) : Z :=
  Z.of_nat (count (Denied a, Some SecurityModel.DenialAction.RETRY) answers).

Lemma replay_stands t mc mt past history :
  stands t mc mt past ->
  let '(t', answers) := replay t history in
  stands t' mc mt (past ++ history) /\
  answers.*1 = history /\
  (forall i a answer, answers !! i = Some (Denied a, answer) ->
     answer = Some SecurityModel.DenialAction.ESCALATE <->
     mc <= streak a (past ++ take i history) + 1 \/ mt <= denials a (past ++ take i history) + 1) /\
  (forall i a answer, answers !! i = Some (Denied a, answer) -> is_Some answer).
Proof.
  revert t past. induction history as [|e history IH]; intros t past Ht; simpl.
  { rewrite app_nil_r. split; [done|]. split; [done|]. split; intros [|i] a answer; done. }
  destruct (tell t e) as [answer t1] eqn:Htell.
  assert (H1 : stands t1 mc mt (past ++ [e]) /\ (forall a, e = Denied a -> exists act, answer = Some act /\
    (act = SecurityModel.DenialAction.ESCALATE <-> mc <= streak a past + 1 \/ mt <= denials a past + 1))).
  { destruct e as [a|a]; simpl in Htell.
    - pose proof (record_stands t mc mt past a Ht) as [Hs Ha]. destruct (record_denial t a) as [act t2].
      inversion Htell; subst. split; [done|]. intros b [= <-]. by exists act.
    - inversion Htell; subst. split; [by apply reset_stands|done]. }
  destruct H1 as [Hs Ha]. specialize (IH t1 (past ++ [e]) Hs). destruct (replay t1 history) as [t2 answers].
  rewrite <-!app_assoc in IH. destruct IH as (IH1 & IH2 & IH3 & IH4). split; [done|]. split; [by rewrite <-IH2|]. split.
  - intros [|i] a ans; simpl.
    + intros [= -> ->]. rewrite app_nil_r. destruct (Ha a eq_refl) as (act & -> & Hact). rewrite <-Hact. naive_solver.
    + intros Hi. rewrite (IH3 i a ans Hi). by rewrite <-app_assoc.
  - intros [|i] a ans; simpl; [|apply IH4]. intros [= -> ->]. destruct (Ha a eq_refl) as (act & -> & _). by eexists.
Qed.

(** Retries given to an agent are denials below both limits. *)
Lemma retries_bounded t mc mt past history a :
  stands t mc mt past -> 1 <= mc -> 1 <= mt ->
  let answers := (replay t history).2 in
  denials a past + retry_answers a answers <= Z.max (denials a past) (mt - 1).
Proof.
  revert t past. induction history as [|e history IH]; intros t past Ht Hc1 Ht1; simpl.
  { unfold retry_answers. simpl. change (count (Denied a, Some SecurityModel.DenialAction.RETRY) []) with 0%nat. lia. }
  destruct (tell t e) as [answer t1] eqn:Htell. simpl.
  assert (Hs : stands t1 mc mt (past ++ [e])).
  { destruct e as [b|b]; simpl in Htell.
    - pose proof (record_stands t mc mt past b Ht) as [Hs _]. destruct (record_denial t b). by inversion Htell; subst.
    - inversion Htell; subst. by apply reset_stands. }
  pose proof (IH t1 (past ++ [e]) Hs Hc1 Ht1) as H. simpl in H. rewrite denials_snoc in H.
  destruct (replay t1 history) as [t2 answers] eqn:Hr. simpl in *. unfold retry_answers in *. rewrite count_cons.
  destruct (decide ((e, answer) = (Denied a, Some SecurityModel.DenialAction.RETRY))) as [[= -> ->]|Hne];
    [|case_decide; lia].
  rewrite decide_True in H by done. simpl in Htell.
  pose proof (record_stands t mc mt past a Ht) as [_ Hact]. destruct (record_denial t a) as [act t3].
  inversion Htell; subst. simpl in Hact.
  assert (~ (mc <= streak a past + 1 \/ mt <= denials a past + 1)) by (rewrite <-Hact; done). lia.
Qed.

(** After any history, the counts of an agent are its denials since it
    was last cleared and its denials in all, whatever other agents did; a
    denial is sent to a human exactly when it brings one of the two to its
    limit and answered with a retry otherwise, so no agent is ever given more
    retries than one less than the limit in all. *)
Theorem denial_counts_exact (max_consecutive max_total : Z) (t : DenialTracker) (history : list Event) :
  new_tracker max_consecutive max_total = Ok t ->
  let '(t', answers) := replay t history in
  (forall a, get_counts t' a = (streak a history, denials a history)) /\
  answers.*1 = history /\
  (forall i a answer, answers !! i = Some (Denied a, answer) ->
     answer = Some (if decide (max_consecutive <= streak a (take i history) + 1 \/
       max_total <= denials a (take i history) + 1)
       then SecurityModel.DenialAction.ESCALATE else SecurityModel.DenialAction.RETRY)) /\
  (forall a, retry_answers a answers <= max_total - 1).
Proof.
  unfold new_tracker. destruct (Z.ltb_spec max_consecutive 1) as [|Hc]; [done|].
  destruct (Z.ltb_spec max_total 1) as [|Hm]; [done|]. simpl. intros Ht. inv_result.
  assert (Hs : stands {| _max_consecutive := max_consecutive; _max_total := max_total; _counts := ∅ |}
    max_consecutive max_total []).
  { split; [done|]. split; [done|]. intros a. unfold get_counts. simpl. by rewrite lookup_empty. }
  pose proof (replay_stands _ _ _ _ history Hs) as Hr.
  pose proof (fun a => retries_bounded _ _ _ _ history a Hs Hc Hm) as Hb.
  destruct (replay _ history) as [t' answers]. destruct Hr as ((_ & _ & H1) & H2 & H3 & H4).
  split; [exact H1|]. split; [exact H2|]. split.
  - intros i a answer Hi. pose proof (H3 i a answer Hi) as He. destruct (H4 i a answer Hi) as [act ->].
    case_decide as E; [by apply He|]. destruct act; [done|]. by destruct E; apply He.
  - intros a. specialize (Hb a). simpl in Hb. unfold denials in Hb at 1 2. simpl in Hb. lia.
Qed.

Lemma denial_counts_exact_witness :
  exists t, new_tracker 2 3 = Ok t /\
    (replay t [Denied "a"; Denied "b"; Cleared "a"; Denied "a"; Denied "a"]%string).2 =
      [(Denied "a", Some SecurityModel.DenialAction.RETRY); (Denied "b", Some SecurityModel.DenialAction.RETRY);
       (Cleared "a", None); (Denied "a", Some SecurityModel.DenialAction.RETRY);
       (Denied "a", Some SecurityModel.DenialAction.ESCALATE)]%string /\
    get_counts (replay t [Denied "a"; Denied "b"]%string).1 "a" = (1, 1).
Proof.
  exists {| _max_consecutive := 2; _max_total := 3; _counts := ∅ |}. split; [reflexivity|]. split; [vm_compute; reflexivity|].
  pose proof (denial_counts_exact 2 3 {| _max_consecutive := 2; _max_total := 3; _counts := ∅ |}
    [Denied "a"; Denied "b"]%string eq_refl) as H.
  destruct (replay _ _) as [t' answers]. exact (proj1 H "a"%string).
Defined.
