(* ===== verification/AuditLog.v ===== *)
(** * AuditLog

    The bounded in-memory log of security evaluations ([security/audit.py])
    and its entries ([security/models.py]). Metrics are left out. *)

From stdpp Require Import gmap strings list.
From Stdlib Require Import Lia ZArith.
From S2P Require Import Prelude SecurityModel.
#[local] Open Scope py_scope.
#[local] Open Scope nat_scope.
Import SecurityModel.ApprovalRiskLevel (ApprovalRiskLevel).
Import SecurityModel.SecurityVerdictType (SecurityVerdictType).
Import SecurityModel.EvaluationConfidence (EvaluationConfidence).
Import SecurityModel.ToolCategory (ToolCategory).

(** [AuditVerdictStr]: the verdict of an evaluation, or [output_scan]. *)
Inductive AuditVerdictStr :=
| Evaluated (v : SecurityVerdictType)
| OUTPUT_SCAN_VERDICT.

#[export] Instance audit_verdict_eq_dec : EqDecision AuditVerdictStr.
Proof. solve_decision. Defined.

Record AuditEntry := {
  entry_id : string;
  entry_timestamp : Z;
  entry_agent_id : option string;
  entry_task_id : option string;
  entry_tool_name : string;
  entry_tool_category : ToolCategory;
  entry_action_type : string;
  entry_arguments_hash : string;
  entry_verdict : AuditVerdictStr;
  entry_risk_level : ApprovalRiskLevel;
  entry_reason : Reason;
  entry_matched_rules : list string;
  entry_confidence : EvaluationConfidence;
  entry_approval_id : option string;
}.

(** [_entries], oldest first. *)
Record AuditLog := { _max_entries : nat; _entries : list AuditEntry; _total_recorded : nat }.

Inductive AuditError :=
| Max_entries_below_one (n : Z)
| Limit_below_one (n : Z)
| Since_after_until.

Definition new_audit_log (max_entries : Z) : result AuditError AuditLog :=
  ensure negb (max_entries <? 1)%Z else Max_entries_below_one max_entries in
  Ok {| _max_entries := Z.to_nat max_entries; _entries := []; _total_recorded := 0 |}.

Definition clear (l : AuditLog) : AuditLog :=
  {| _max_entries := _max_entries l; _entries := []; _total_recorded := 0 |}.

(** [deque(maxlen=n).append]: the oldest leaves a full deque. *)
Definition deque_append {A} (maxlen : nat) (x : A) (entries : list A) : list A :=
  let entries := entries ++ [x] in drop (length entries - maxlen) entries.

Definition record (l : AuditLog) (entry : AuditEntry) : AuditLog := {|
  _max_entries := _max_entries l;
  _entries := deque_append (_max_entries l) entry (_entries l);
  _total_recorded := S (_total_recorded l) |}.

Record AuditQuery := {
  query_agent_id : option string;
  query_tool_name : option string;
  query_verdict : option AuditVerdictStr;
  query_risk_level : option ApprovalRiskLevel;
  query_action_type : option string;
  query_since : option Z;
  query_until : option Z;
  query_limit : Z;
}.

(** A filter that is given and fails skips the entry. *)
Definition filter_passes {A} (test : A -> bool) (filter : option A) : bool :=
  match filter with Some x => test x | None => true end.

Definition matches (q : AuditQuery) (e : AuditEntry) : bool :=
  filter_passes (fun a => bool_decide (entry_agent_id e = Some a)) (query_agent_id q) &&
  filter_passes (fun n => bool_decide (entry_tool_name e = n)) (query_tool_name q) &&
  filter_passes (fun v => bool_decide (entry_verdict e = v)) (query_verdict q) &&
  filter_passes (fun r => bool_decide (entry_risk_level e = r)) (query_risk_level q) &&
  filter_passes (fun t => bool_decide (entry_action_type e = t)) (query_action_type q) &&
  filter_passes (fun s => s <=? entry_timestamp e)%Z (query_since q) &&
  filter_passes (fun u => entry_timestamp e <=? u)%Z (query_until q).

(** The loop over the reversed deque, with the results so far. *)
Fixpoint collect (q : AuditQuery) (entries results : list AuditEntry) : list AuditEntry :=
  match entries with
  | [] => results
  | e :: entries =>
      if negb (matches q e) then collect q entries results
      else
        let results := results ++ [e] in
        if (query_limit q <=? Z.of_nat (length results))%Z then results else collect q entries results
  end.

Definition query (l : AuditLog) (q : AuditQuery) : result AuditError (list AuditEntry) :=
  ensure negb (query_limit q <? 1)%Z else Limit_below_one (query_limit q) in
  ensure negb (match query_since q, query_until q with Some s, Some u => (u <? s)%Z | _, _ => false end)
    else Since_after_until in
  Ok (collect q (reverse (_entries l)) []).

Definition count_entries (l : AuditLog) : nat := length (_entries l).
Definition total_recorded (l : AuditLog) : nat := _total_recorded l.

(** ** What the log holds *)

(** The last [n] of a list. *)
Definition lastn {A} (n : nat) (xs : list A) : list A := drop (length xs - n) xs.

Lemma lastn_short {A} n (xs : list A) : length xs <= n -> lastn n xs = xs.
Proof. intros H. unfold lastn. by replace (length xs - n) with 0 by lia. Qed.

Lemma append_lastn {A} n (x : A) xs : deque_append n x (lastn n xs) = lastn n (xs ++ [x]).
Proof.
  unfold deque_append, lastn. rewrite !length_app, length_drop. simpl.
  destruct (le_lt_dec (length xs) n).
  - by replace (length xs - n) with 0 by lia; rewrite drop_0, Nat.sub_0_r.
  - rewrite <-(drop_app_le xs [x] (length xs - n)), drop_drop by lia. f_equal. lia.
Qed.

Lemma record_all_entries l history xs :
  _entries l = lastn (_max_entries l) xs ->
  let l' := foldl record l history in
  _entries l' = lastn (_max_entries l) (xs ++ history) /\ _max_entries l' = _max_entries l /\
  _total_recorded l' = _total_recorded l + length history.
Proof.
  revert l xs. induction history as [|e history IH]; intros l xs Hl; simpl.
  - rewrite app_nil_r. split; [done|split; [done|lia]].
  - destruct (IH (record l e) (xs ++ [e])) as (H1 & H2 & H3).
    + simpl. by rewrite Hl, append_lastn.
    + rewrite H1, H2, H3. simpl. rewrite <-app_assoc. split; [done|split; [done|lia]].
Qed.

Lemma collect_take q entries results :
  (Z.of_nat (length results) < query_limit q)%Z ->
  collect q entries results = take (Z.to_nat (query_limit q)) (results ++ List.filter (matches q) entries).
Proof.
  revert results. induction entries as [|e entries IH]; intros results Hr; simpl.
  - rewrite app_nil_r, take_ge; [done|lia].
  - destruct (matches q e); simpl; [|by apply IH]. destruct (Z.leb_spec (query_limit q) (Z.of_nat (length (results ++ [e])))).
    + change (e :: List.filter (matches q) entries) with ([e] ++ List.filter (matches q) entries).
      rewrite (app_assoc results), take_app_length'; [done|]. rewrite length_app in *. simpl in *. lia.
    + rewrite IH by done. by rewrite <-app_assoc.
Qed.

(** After any number of records, the log holds the last [max_entries] of
    them in order and has counted them all, and a query answers the newest
    matching entries first, all of them or the first [limit]; it is refused
    exactly for a limit below one or a window that ends before it starts. *)
Theorem audit_log_exact (max_entries : Z) (l : AuditLog) (history : list AuditEntry) (q : AuditQuery) :
  new_audit_log max_entries = Ok l ->
  let l' := foldl record l history in
  let kept := lastn (Z.to_nat max_entries) history in
  _entries l' = kept /\ total_recorded l' = length history /\
  count_entries l' = Nat.min (Z.to_nat max_entries) (length history) /\
  query l' q =
    (if (query_limit q <? 1)%Z then Err (Limit_below_one (query_limit q))
     else if match query_since q, query_until q with Some s, Some u => (u <? s)%Z | _, _ => false end
     then Err Since_after_until
     else Ok (take (Z.to_nat (query_limit q)) (List.filter (matches q) (reverse kept)))).
Proof.
  unfold new_audit_log. destruct (Z.ltb_spec max_entries 1); [done|]. simpl. intros Hl. inv_result.
  match goal with |- context [foldl record ?l history] => destruct (record_all_entries l history []) as (H1 & H2 & H3) end;
    [done|]. simpl in H1, H3. split; [exact H1|]. split; [exact H3|]. split.
  - unfold count_entries. rewrite H1. unfold lastn. rewrite length_drop. lia.
  - unfold query. rewrite H1. destruct (Z.ltb_spec (query_limit q) 1); simpl; [done|].
    destruct (match query_since q with Some _ => _ | None => _ end); simpl; [done|].
    rewrite collect_take; [done|]. simpl. lia.
Qed.

Definition sample_entry (n : Z) (tool : string) (v : SecurityVerdictType) : AuditEntry := {|
  entry_id := "e"; entry_timestamp := n; entry_agent_id := Some "agent-1"%string; entry_task_id := None;
  entry_tool_name := tool; entry_tool_category := SecurityModel.ToolCategory.OTHER; entry_action_type := "code:read";
  entry_arguments_hash := "0"; entry_verdict := Evaluated v;
  entry_risk_level := SecurityModel.ApprovalRiskLevel.LOW; entry_reason := No_rule_triggered; entry_matched_rules := [];
  entry_confidence := SecurityModel.EvaluationConfidence.LOW; entry_approval_id := None |}.

Lemma audit_log_exact_witness :
  let e1 := sample_entry 1 "t" SecurityModel.SecurityVerdictType.ALLOW in
  let e2 := sample_entry 2 "t" SecurityModel.SecurityVerdictType.DENY in
  let e3 := sample_entry 3 "t" SecurityModel.SecurityVerdictType.ALLOW in
  exists l, new_audit_log 2 = Ok l /\ _entries (foldl record l [e1; e2; e3]) = [e2; e3].
Proof.
  eexists. split; [reflexivity|].
  exact (proj1 (audit_log_exact 2 _ _ {| query_agent_id := None; query_tool_name := None; query_verdict := None;
    query_risk_level := None; query_action_type := None; query_since := None; query_until := None; query_limit := 1 |}
    eq_refl)).
Defined.
