(* ===== verification/OutputScan.v ===== *)
(** * OutputScan

    What happens to a tool's output: the scanner
    ([security/output_scanner.py], its patterns are parameters), the response
    policies ([security/output_scan_policy.py] and their factory), and the
    handling of a sensitive result by the invoker
    ([tools/scan_result_handler.py]). *)

From stdpp Require Import gmap strings list.
From Stdlib Require Import Lia ZArith.
From S2P Require Import Prelude Autonomy SecurityModel.
#[local] Open Scope py_scope.
#[local] Open Scope nat_scope.
Import Autonomy.AutonomyLevel (AutonomyLevel).
Import SecurityModel.ScanOutcome (ScanOutcome).
Import SecurityModel.OutputScanPolicyType (OutputScanPolicyType).

Record OutputScanResult := {
  has_sensitive_data : bool;
  findings : list string;
  redacted_content : option string;
  outcome : ScanOutcome;
}.

(** [_check_consistency]. *)
Definition scan_consistent (r : OutputScanResult) : bool :=
  (if negb (has_sensitive_data r) then
     bool_decide (findings r = []) && bool_decide (redacted_content r = None) &&
     bool_decide (outcome r ∉ [SecurityModel.ScanOutcome.REDACTED; SecurityModel.ScanOutcome.WITHHELD])
   else if bool_decide (outcome r = SecurityModel.ScanOutcome.CLEAN) then false
   else negb (bool_decide (findings r = []))) &&
  negb (bool_decide (outcome r = SecurityModel.ScanOutcome.REDACTED) && bool_decide (redacted_content r = None)) &&
  negb (bool_decide (outcome r = SecurityModel.ScanOutcome.WITHHELD) && negb (bool_decide (redacted_content r = None))) &&
  negb (bool_decide (outcome r = SecurityModel.ScanOutcome.LOG_ONLY) && has_sensitive_data r).

(** [OutputScanResult(outcome=o)]. *)
Definition empty_result (o : ScanOutcome) : OutputScanResult :=
  {| has_sensitive_data := false; findings := []; redacted_content := None; outcome := o |}.

(** ** The scanner *)

(** A compiled pattern: [search] and [sub] with the redaction mark. *)
Record Pattern := { pattern_name : string; search : string -> bool; sub : string -> string }.

(** The loop: detection on the original, substitution on the copy. *)
Fixpoint scan_patterns (patterns : list Pattern) (output redacted : string) (found : list string)
    : list string * string :=
  match patterns with
  | [] => (found, redacted)
  | p :: patterns =>
      if search p output then scan_patterns patterns output (sub p redacted) (found ++ [pattern_name p])
      else scan_patterns patterns output redacted found
  end.

Definition scan_text (patterns : list Pattern) (output : string) : OutputScanResult :=
  let '(found, redacted) := scan_patterns patterns output output [] in
  if decide (found = []) then empty_result SecurityModel.ScanOutcome.CLEAN
  else {| has_sensitive_data := true; findings := sort_str (elements (list_to_set found : gset string));
    redacted_content := Some redacted; outcome := SecurityModel.ScanOutcome.REDACTED |}.

(** ** Policies *)

Inductive OutputScanResponsePolicy :=
| RedactPolicy
| WithholdPolicy
| LogOnlyPolicy
| AutonomyTieredPolicy (effective_autonomy : option EffectiveAutonomy).

Definition withhold (r : OutputScanResult) : OutputScanResult :=
  if negb (has_sensitive_data r) then r
  else {| has_sensitive_data := has_sensitive_data r; findings := findings r; redacted_content := None;
    outcome := SecurityModel.ScanOutcome.WITHHELD |}.

Definition log_only (r : OutputScanResult) : OutputScanResult :=
  if has_sensitive_data r then empty_result SecurityModel.ScanOutcome.LOG_ONLY
  else empty_result SecurityModel.ScanOutcome.CLEAN.

(** [_DEFAULT_AUTONOMY_POLICY_MAP], over the plain policies. *)
Definition _DEFAULT_AUTONOMY_POLICY_MAP (l : AutonomyLevel) : OutputScanResult -> OutputScanResult :=
  match l with
  | Autonomy.AutonomyLevel.FULL => log_only
  | Autonomy.AutonomyLevel.SEMI | Autonomy.AutonomyLevel.SUPERVISED => id
  | Autonomy.AutonomyLevel.LOCKED => withhold
  end.

Definition apply (policy : OutputScanResponsePolicy) (r : OutputScanResult) : OutputScanResult :=
  match policy with
  | RedactPolicy => r
  | WithholdPolicy => withhold r
  | LogOnlyPolicy => log_only r
  | AutonomyTieredPolicy None => withhold r
  | AutonomyTieredPolicy (Some a) => _DEFAULT_AUTONOMY_POLICY_MAP (level a) r
  end.

Definition build_output_scan_policy (t : OutputScanPolicyType) (effective_autonomy : option EffectiveAutonomy)
    : OutputScanResponsePolicy :=
  match t with
  | SecurityModel.OutputScanPolicyType.REDACT => RedactPolicy
  | SecurityModel.OutputScanPolicyType.WITHHOLD => WithholdPolicy
  | SecurityModel.OutputScanPolicyType.LOG_ONLY => LogOnlyPolicy
  | SecurityModel.OutputScanPolicyType.AUTONOMY_TIERED => AutonomyTieredPolicy effective_autonomy
  end.

(** ** The invoker's side *)

(** What the agent is given; metadata of a result is left out. *)
Inductive Content :=
| Raw (s : string)
| Withheld_by_policy
| Withheld_fail_closed.

(** [handle_sensitive_scan]: the content and whether it is an error. *)
Definition handle_sensitive_scan (is_error : bool) (r : OutputScanResult) : Content * bool :=
  if decide (outcome r = SecurityModel.ScanOutcome.WITHHELD) then (Withheld_by_policy, true)
  else match redacted_content r with
    | Some content => (Raw content, is_error)
    | None => (Withheld_fail_closed, true)
    end.

(** What becomes of an output under a policy. *)
Definition delivered (r : OutputScanResult) (output : string) (is_error : bool) : Content * bool :=
  if has_sensitive_data r then handle_sensitive_scan is_error r else (Raw output, is_error).

(** ** What reaches the agent *)

(** The copy with every matching pattern substituted, in order. *)
Definition redaction (patterns : list Pattern) (output : string) : string :=
  foldl (fun copy p => sub p copy) output (List.filter (fun p => search p output) patterns).

Lemma scan_patterns_exact patterns output copy found :
  scan_patterns patterns output copy found =
  (found ++ (pattern_name <$> List.filter (fun p => search p output) patterns),
   foldl (fun copy p => sub p copy) copy (List.filter (fun p => search p output) patterns)).
Proof.
  revert copy found. induction patterns as [|p ps IH]; intros copy found; simpl; [by rewrite app_nil_r|].
  destruct (search p output); rewrite IH; simpl; [by rewrite <-app_assoc|done].
Qed.

(** The strictest response of the four levels, at no level. *)
Definition response_level (t : OutputScanPolicyType) (a : option EffectiveAutonomy) : OutputScanPolicyType :=
  match t, a with
  | SecurityModel.OutputScanPolicyType.AUTONOMY_TIERED, None => SecurityModel.OutputScanPolicyType.WITHHOLD
  | SecurityModel.OutputScanPolicyType.AUTONOMY_TIERED, Some a =>
      match level a with
      | Autonomy.AutonomyLevel.FULL => SecurityModel.OutputScanPolicyType.LOG_ONLY
      | Autonomy.AutonomyLevel.SEMI | Autonomy.AutonomyLevel.SUPERVISED => SecurityModel.OutputScanPolicyType.REDACT
      | Autonomy.AutonomyLevel.LOCKED => SecurityModel.OutputScanPolicyType.WITHHOLD
      end
  | _, _ => t
  end.

(** An output no pattern matches reaches the agent as it is under every
    policy; one that matches is replaced by its redaction, withheld as an
    error, or passed on unchanged, as the configured policy says, where the
    tiered policy withholds when there is no level to read; and every result
    on the way is one its own validator accepts. *)
Theorem scanned_output_exact (patterns : list Pattern) (output : string) (is_error : bool)
    (t : OutputScanPolicyType) (a : option EffectiveAutonomy) :
  let r := scan_text patterns output in
  let r' := apply (build_output_scan_policy t a) r in
  scan_consistent r = true /\ scan_consistent r' = true /\
  (has_sensitive_data r = true <-> exists p, p ∈ patterns /\ search p output = true) /\
  delivered r' output is_error =
    (if negb (has_sensitive_data r) then (Raw output, is_error)
     else match response_level t a with
       | SecurityModel.OutputScanPolicyType.REDACT => (Raw (redaction patterns output), is_error)
       | SecurityModel.OutputScanPolicyType.LOG_ONLY => (Raw output, is_error)
       | _ => (Withheld_by_policy, true)
       end).
Proof.
  intros r r'. subst r r'. unfold scan_text. rewrite scan_patterns_exact. simpl. fold (redaction patterns output).
  destruct (decide (pattern_name <$> List.filter (fun p => search p output) patterns = [])) as [E|E].
  - apply fmap_nil_iff in E. split; [done|]. split; [by destruct t, a as [[[] ? ? ?]|]|]. split.
    + split; [done|]. intros (p & Hp & Hs). assert (Hf : In p []) by
        (rewrite <-E; apply filter_In; split; [by apply list_elem_of_In|done]). destruct Hf.
    + by destruct t, a as [[[] ? ? ?]|].
  - set (names := sort_str _). assert (Hn : names <> []).
    { subst names. intros H. pose proof (sort_str_perm (elements (list_to_set
        (pattern_name <$> List.filter (fun p => search p output) patterns) : gset string))) as Hp.
      rewrite H in Hp. symmetry in Hp. apply Permutation_nil_r, elements_empty_iff in Hp.
      destruct (pattern_name <$> _) as [|n ns]; [done|]. set_solver. }
    assert (Hc : forall o c, o <> SecurityModel.ScanOutcome.CLEAN -> o <> SecurityModel.ScanOutcome.LOG_ONLY ->
      (o = SecurityModel.ScanOutcome.REDACTED <-> is_Some c) ->
      scan_consistent {| has_sensitive_data := true; findings := names; redacted_content := c; outcome := o |} = true).
    { intros o c H1 H2 H3. unfold scan_consistent. simpl. rewrite (bool_decide_eq_false_2 (names = [])) by done.
      destruct o, c; try done; exfalso.
      - by destruct (proj1 H3 eq_refl).
      - discriminate (proj2 H3 (ex_intro _ _ eq_refl)). }
    assert (Hr : scan_consistent {| has_sensitive_data := true; findings := names;
      redacted_content := Some (redaction patterns output); outcome := SecurityModel.ScanOutcome.REDACTED |} = true)
      by (by apply Hc).
    assert (Hw : scan_consistent {| has_sensitive_data := true; findings := names; redacted_content := None;
      outcome := SecurityModel.ScanOutcome.WITHHELD |} = true) by (apply Hc; [done|done|]; split; [intros [=]|intros [? [=]]]).
    split; [done|]. split; [by destruct t, a as [[[] ? ? ?]|]|]. split.
    + split; [|done]. intros _. destruct (List.filter _ patterns) as [|p ps] eqn:Hf; [done|]. exists p.
      assert (Hin : In p (p :: ps)) by (by left). rewrite <-Hf in Hin. apply filter_In in Hin as [Hin Hs].
      split; [by apply list_elem_of_In|done].
    + by destruct t, a as [[[] ? ? ?]|].
Qed.
