(* ===== verification/SecOps.v ===== *)
(** * SecOps

    The security service ([security/service.py] with its escalation and
    safety mixins, [security/llm_evaluator.py] and its support,
    [security/safety_classifier.py]'s tiers) as the factory assembles it
    ([make_security_interceptor]).

    An operation threads the state the service mutates (denial counts, audit
    log, approval queue), which an exception does not roll back. What the
    collaborators outside the service answer during one evaluation is a
    [World]: the bound model and its reply, the safety classifier, the
    uncertainty checker, the approval store, the serialiser of arguments. *)

From stdpp Require Import gmap strings list.
From Stdlib Require Import Lia ZArith QArith Ascii.
From S2P Require Import Prelude Autonomy SecurityModel SecurityRules DenialTracker AuditLog OutputScan.
#[local] Open Scope py_scope.
#[local] Open Scope nat_scope.
Import Autonomy.AutonomyLevel (AutonomyLevel).
Import SecurityModel.ApprovalRiskLevel (ApprovalRiskLevel).
Import SecurityModel.SecurityVerdictType (SecurityVerdictType, verdict_type_value).
Import SecurityModel.EvaluationConfidence (EvaluationConfidence).
Import SecurityModel.SecurityEnforcementMode (SecurityEnforcementMode).
Import SecurityModel.LlmFallbackErrorPolicy (LlmFallbackErrorPolicy).
Import SecurityModel.SafetyClassification (SafetyClassification, safety_classification_value).
Import SecurityModel.PermissionTier (PermissionTier).
Import SecurityModel.DenialAction (DenialAction, denial_action_value).
Import SecurityModel.ToolCategory (ToolCategory, tool_category_value).

Module ApprovalStatus.

Inductive ApprovalStatus :=
| PENDING | APPROVED | REJECTED | EXPIRED.

#[export] Instance approval_status_eq_dec : EqDecision ApprovalStatus.
Proof. solve_decision. Defined.

Definition members : list ApprovalStatus :=
  [PENDING; APPROVED; REJECTED; EXPIRED].

Lemma approval_status_members_all s : s ∈ members.
Proof. revert s. enum_elem. Qed.

#[export] Instance approval_status_countable : Countable ApprovalStatus :=
  enum_countable members approval_status_members_all.

Definition approval_status_value (s : ApprovalStatus) : string :=
  match s with
  | PENDING => "pending"
  | APPROVED => "approved"
  | REJECTED => "rejected"
  | EXPIRED => "expired"
  end.

#[export] Instance approval_status_value_inj : Inj (=) (=) approval_status_value.
Proof. intros [] []; simpl; congruence. Qed.

End ApprovalStatus.
Export (hints) ApprovalStatus.

Module ApprovalSource.

Inductive ApprovalSource :=
| PARKED_CONTEXT | REVIEW_GATE | CONVERSATIONAL_INTAKE | CONVERSATIONAL_INVITE |
PLAN_REVIEW.

#[export] Instance approval_source_eq_dec : EqDecision ApprovalSource.
Proof. solve_decision. Defined.

Definition members : list ApprovalSource :=
  [PARKED_CONTEXT; REVIEW_GATE; CONVERSATIONAL_INTAKE; CONVERSATIONAL_INVITE;
   PLAN_REVIEW].

Lemma approval_source_members_all s : s ∈ members.
Proof. revert s. enum_elem. Qed.

#[export] Instance approval_source_countable : Countable ApprovalSource :=
  enum_countable members approval_source_members_all.

Definition approval_source_value (s : ApprovalSource) : string :=
  match s with
  | PARKED_CONTEXT => "parked_context"
  | REVIEW_GATE => "review_gate"
  | CONVERSATIONAL_INTAKE => "conversational_intake"
  | CONVERSATIONAL_INVITE => "conversational_invite"
  | PLAN_REVIEW => "plan_review"
  end.

#[export] Instance approval_source_value_inj : Inj (=) (=) approval_source_value.
Proof. intros [] []; simpl; congruence. Qed.

End ApprovalSource.
Export (hints) ApprovalSource.

Import ApprovalStatus (ApprovalStatus).
Import ApprovalSource (ApprovalSource).

(** ** State *)

(** [str()] of a value, as it is stored in the metadata. *)
Inductive MetaValue :=
| Meta_str (s : string)
| Meta_int (n : Z)
| Meta_float (q : Q).

Notation Metadata := (gmap string MetaValue).

(** The fields the service sets; the decision fields keep their defaults.
    The title is formatted from the tool name. *)
Record ApprovalItem := {
  item_id : string;
  item_action_type : string;
  item_title : string;
  item_description : Reason;
  item_requested_by : string;
  item_risk_level : ApprovalRiskLevel;
  item_source : ApprovalSource;
  item_status : ApprovalStatus;
  item_task_id : option string;
  item_metadata : Metadata;
}.

Record SecState := {
  tracker : option DenialTracker;
  audit_log : AuditLog;
  approvals : list ApprovalItem;
}.

Definition with_tracker (s : SecState) (t : option DenialTracker) : SecState :=
  {| tracker := t; audit_log := audit_log s; approvals := approvals s |}.
Definition with_audit (s : SecState) (l : AuditLog) : SecState :=
  {| tracker := tracker s; audit_log := l; approvals := approvals s |}.
Definition with_item (s : SecState) (item : ApprovalItem) : SecState :=
  {| tracker := tracker s; audit_log := audit_log s; approvals := approvals s ++ [item] |}.

Definition M (A : Type) : Type := SecState -> result Raised A * SecState.

Definition ret {A} (a : A) : M A := fun s => (Ok a, s).
Definition raise {A} (e : Raised) : M A := fun s => (Err e, s).
Definition lift {A} (r : result Raised A) : M A := fun s => (r, s).
Definition bind {A B} (m : M A) (k : A -> M B) : M B := fun s =>
  match m s with
  | (Ok a, s) => k a s
  | (Err e, s) => (Err e, s)
  end.
Notation "'let!' x ':=' m 'in' k" := (bind m (fun x => k))
  (at level 200, x name, m at level 100, k at level 200) : py_scope.

(** ** Collaborators *)

Inductive LlmCall :=
| Response (tool_calls : list (string * gmap string LlmValue))
| Timeout_error
| Call_raised (e : Raised).

Record SafetyClassifierResult := {
  classification : SafetyClassification;
  stripped_description : string;
  classification_reason : string;
}.

Record UncertaintyResult := {
  provider_count : Z;
  confidence_score : Q;
  keyword_overlap : option Q;
  embedding_similarity : option Q;
}.

Record World := {
  approval_uuid : string;
  entry_uuid : string;
  now : Z;
  _hash_arguments : list (string * Arg) -> result Raised string;
  _resolve_binding : result Raised bool;
  complete : SecurityContext -> LlmCall;
  classify_answer : Reason -> string -> string -> ApprovalRiskLevel -> result Raised SafetyClassifierResult;
  check_answer : string -> result Raised UncertaintyResult;
  add_answer : ApprovalItem -> result Raised unit;
  metrics_answer : result Raised unit;
}.

Record SecOpsService := {
  _config : SecurityConfig;
  _rule_engine : RuleEngine;
  _approval_store : bool;
  _effective_autonomy : option EffectiveAutonomy;
  _risk_classifier : option (gmap string ApprovalRiskLevel);
  _llm_evaluator : bool;
  _safety_classifier : bool;
  _uncertainty_checker : bool;
  _output_scan_policy : OutputScanResponsePolicy;
}.

(** ** The evaluator *)

Definition with_verdict (v : SecurityVerdict) (t : SecurityVerdictType) (r : Reason) (risk : ApprovalRiskLevel)
    : SecurityVerdict :=
  {| verdict := t; reason := r; risk_level := risk; confidence := confidence v; matched_rules := matched_rules v;
     approval_id := approval_id v; agent_visible_reason := agent_visible_reason v |}.

Definition with_approval (v : SecurityVerdict) (id : string) : SecurityVerdict :=
  {| verdict := verdict v; reason := reason v; risk_level := risk_level v; confidence := confidence v;
     matched_rules := matched_rules v; approval_id := Some id; agent_visible_reason := agent_visible_reason v |}.

Definition low_verdict (t : SecurityVerdictType) (r : Reason) : SecurityVerdict :=
  {| verdict := t; reason := r; risk_level := SecurityModel.ApprovalRiskLevel.HIGH;
     confidence := SecurityModel.EvaluationConfidence.LOW; matched_rules := []; approval_id := None;
     agent_visible_reason := None |}.

Definition _apply_error_policy (c : LlmFallbackConfig) (rule_verdict : SecurityVerdict) (why : LlmFailure)
    : SecurityVerdict :=
  match on_error c with
  | SecurityModel.LlmFallbackErrorPolicy.ESCALATE =>
      low_verdict SecurityModel.SecurityVerdictType.ESCALATE (Llm_failed why (on_error c))
  | SecurityModel.LlmFallbackErrorPolicy.DENY =>
      low_verdict SecurityModel.SecurityVerdictType.DENY (Llm_failed why (on_error c))
  | SecurityModel.LlmFallbackErrorPolicy.USE_RULE_VERDICT =>
      with_verdict rule_verdict (verdict rule_verdict) (Llm_fallback_failed (reason rule_verdict) why)
        (risk_level rule_verdict)
  end.

Definition _compute_agent_reason (c : LlmFallbackConfig) (t : SecurityVerdictType) (risk : ApprovalRiskLevel)
    (full_reason : Reason) : Reason :=
  match reason_visibility c with
  | SecurityModel.VerdictReasonVisibility.FULL => full_reason
  | SecurityModel.VerdictReasonVisibility.CATEGORY => Visible_category t risk
  | SecurityModel.VerdictReasonVisibility.GENERIC => Visible_generic t
  end.

(** [raw in frozenset], then the map: a value that cannot be hashed raises. *)
Definition parse_enum {E} (value : E -> string) (members : list E) (raw : LlmValue) : result Raised (option E) :=
  match raw with
  | Llm_str s => Ok (find (fun e => bool_decide (value e = s)) members)
  | Llm_hashable => Ok None
  | Llm_unhashable => Err Ordinary
  end.

Definition _parse_tool_call_args (c : LlmFallbackConfig) (args : gmap string LlmValue) (rule_verdict : SecurityVerdict)
    : result Raised SecurityVerdict :=
  let raw_verdict := default (Llm_str "") (args !! "verdict"%string) in
  let raw_risk := default (Llm_str "") (args !! "risk_level"%string) in
  let raw_reason := default (Llm_str "") (args !! "reason"%string) in
  let* parsed := parse_enum verdict_type_value SecurityModel.SecurityVerdictType.members raw_verdict in
  match parsed with
  | None => Ok (_apply_error_policy c rule_verdict (Invalid_verdict raw_verdict))
  | Some t =>
      let* parsed := parse_enum SecurityModel.ApprovalRiskLevel.risk_level_value
        SecurityModel.ApprovalRiskLevel.members raw_risk in
      match parsed with
      | None => Ok (_apply_error_policy c rule_verdict (Invalid_risk_level raw_risk))
      | Some risk => Ok {| verdict := t; reason := Llm_reason raw_reason; risk_level := risk;
          confidence := SecurityModel.EvaluationConfidence.HIGH; matched_rules := ["security_verdict"%string];
          approval_id := None; agent_visible_reason := Some (_compute_agent_reason c t risk (Llm_reason raw_reason)) |}
      end
  end.

Definition _parse_llm_response (c : LlmFallbackConfig) (tool_calls : list (string * gmap string LlmValue))
    (rule_verdict : SecurityVerdict) : result Raised SecurityVerdict :=
  match find (fun tc => bool_decide (tc.1 = "security_verdict"%string)) tool_calls with
  | Some tc => _parse_tool_call_args c tc.2 rule_verdict
  | None => Ok (_apply_error_policy c rule_verdict No_tool_call)
  end.

Definition evaluate_llm (c : LlmFallbackConfig) (w : World) (context : SecurityContext) (rule_verdict : SecurityVerdict)
    : result Raised SecurityVerdict :=
  let* bound := _resolve_binding w in
  if negb bound then Ok (_apply_error_policy c rule_verdict No_model_configured)
  else
    match complete w context with
    | Timeout_error => Ok (_apply_error_policy c rule_verdict Timed_out)
    | Call_raised e => reraise_critical (Err e) (Ok (_apply_error_policy c rule_verdict Call_failed))
    | Response tool_calls => _parse_llm_response c tool_calls rule_verdict
    end.

(** ** Safety classification *)

(** [s or default]. *)
Definition or_str (s : option string) (d : string) : string :=
  match s with
  | Some EmptyString | None => d
  | Some s => s
  end.

Definition classify_tier (c : SafetyClassifierConfig) (action_type : string) : PermissionTier :=
  if decide (action_type ∈ safe_tool_categories c) then SecurityModel.PermissionTier.SAFE_TOOL
  else SecurityModel.PermissionTier.CLASSIFIER_GATED.

Definition _build_deny_reason (base_reason : Reason) (metadata : Metadata) : Reason :=
  match metadata !! "denial_action"%string with
  | Some (Meta_str action) =>
      if decide (action = denial_action_value SecurityModel.DenialAction.RETRY)
      then Blocked_retry base_reason else Auto_rejected base_reason
  | _ => Auto_rejected base_reason
  end.

Definition _handle_blocked_denial (agent_id : string) (metadata : Metadata) : M (bool * Metadata) := fun s =>
  match tracker s with
  | None => (Ok (true, metadata), s)
  | Some t =>
      let '(action, t) := record_denial t agent_id in
      let '(consecutive, total) := get_counts t agent_id in
      let metadata := <["denial_total" := Meta_int total]>
        (<["denial_consecutive" := Meta_int consecutive]>
          (<["denial_action" := Meta_str (denial_action_value action)]> metadata))%string in
      (Ok (negb (bool_decide (action = SecurityModel.DenialAction.ESCALATE)), metadata), with_tracker s (Some t))
  end.

Definition _process_classification (c : SafetyClassifierConfig) (cls : SafetyClassification)
    (context : SecurityContext) (metadata : Metadata) : M (bool * Metadata) :=
  let agent := or_str (agent_id context) "unknown" in
  if bool_decide (cls = SecurityModel.SafetyClassification.BLOCKED) && auto_reject_blocked c
  then _handle_blocked_denial agent metadata
  else fun s => (Ok (false, metadata), with_tracker s ((fun t => reset_consecutive t agent) <$> tracker s)).

Definition classified (r : SafetyClassifierResult) (metadata : Metadata) : Metadata :=
  <["safety_reason" := Meta_str (classification_reason r)]>
    (<["stripped_description" := Meta_str (stripped_description r)]>
      (<["safety_classification" := Meta_str (safety_classification_value (classification r))]> metadata))%string.

(** Whether to reject, and the metadata. *)
Definition _run_safety_classifier (c : SafetyClassifierConfig) (w : World) (context : SecurityContext)
    (v : SecurityVerdict) (metadata : Metadata) : M (bool * Metadata) :=
  if bool_decide (classify_tier c (action_type context) = SecurityModel.PermissionTier.SAFE_TOOL)
  then ret (false, metadata)
  else
    match classify_answer w (reason v) (action_type context) (tool_name context) (risk_level v) with
    | Ok r => _process_classification c (classification r) context (classified r metadata)
    | Err e => lift (reraise_critical (Err e) (Ok (false, metadata)))
    end.

Definition set_float (key : string) (q : option Q) (metadata : Metadata) : Metadata :=
  match q with Some q => <[key := Meta_float q]> metadata | None => metadata end.

Definition _run_uncertainty_check (c : UncertaintyCheckConfig) (w : World) (prompt : string) (metadata : Metadata)
    : result Raised Metadata :=
  match check_answer w prompt with
  | Ok r =>
      let metadata := <["uncertainty_provider_count" := Meta_int (provider_count r)]>%string metadata in
      let metadata :=
        if (2 <=? provider_count r)%Z then
          let metadata := <["confidence_score" := Meta_float (confidence_score r)]>%string metadata in
          if negb (Qle_bool (low_confidence_threshold c) (confidence_score r))
          then <["low_confidence" := Meta_str "true"]>%string metadata else metadata
        else <["uncertainty_check_skipped" := Meta_str "true"]>%string metadata in
      Ok (set_float "embedding_similarity" (embedding_similarity r)
        (set_float "keyword_overlap" (keyword_overlap r) metadata))
  | Err e => reraise_critical (Err e) (Ok (<["uncertainty_check_error" := Meta_str "true"]>%string metadata))
  end.

(** ** Escalation *)

(** A nonempty [stripped_description]. *)
Definition stripped_of (metadata : Metadata) : option string :=
  match metadata !! "stripped_description"%string with
  | Some (Meta_str EmptyString) => None
  | Some (Meta_str s) => Some s
  | _ => None
  end.

(** The constructor refuses a blank description. *)
Definition new_item (item : ApprovalItem) : result Raised ApprovalItem :=
  ensure negb (match item_description item with Text s => is_blank s | _ => false end) else Ordinary in
  Ok item.

Definition denied_as (v : SecurityVerdict) (r : Reason) : SecurityVerdict :=
  with_verdict v SecurityModel.SecurityVerdictType.DENY r (risk_level v).

Definition approval_item (w : World) (context : SecurityContext) (v : SecurityVerdict) (description : Reason)
    (metadata : Metadata) : ApprovalItem := {|
  item_id := approval_uuid w;
  item_action_type := action_type context;
  item_title := tool_name context;
  item_description := description;
  item_requested_by := or_str (agent_id context) "system";
  item_risk_level := risk_level v;
  item_source := ApprovalSource.PARKED_CONTEXT;
  item_status := ApprovalStatus.PENDING;
  item_task_id := task_id context;
  item_metadata := metadata |}.

(** [approval_store.add]. *)
Definition add (w : World) (item : ApprovalItem) : M unit := fun s =>
  match add_answer w item with
  | Ok tt => (Ok tt, with_item s item)
  | Err e => (Err e, s)
  end.

(** The classification, then the item. *)
Definition enqueue (svc : SecOpsService) (w : World) (context : SecurityContext) (v : SecurityVerdict)
    (metadata : Metadata) : M SecurityVerdict :=
  let stripped := stripped_of metadata in
  let! metadata :=
    match (if _uncertainty_checker svc then stripped else None) with
    | Some prompt => lift (_run_uncertainty_check (uncertainty_check (_config svc)) w prompt metadata)
    | None => ret metadata
    end in
  let description := if _safety_classifier svc then match stripped with Some t => Text t | None => reason v end
    else reason v in
  let! item := lift (new_item (approval_item w context v description metadata)) in
  fun s =>
    match add w item s with
    | (Ok tt, s) => (Ok (with_approval v (approval_uuid w)), s)
    | (Err e, s) => (reraise_critical (Err e) (Ok (denied_as v (Store_error (reason v)))), s)
    end.

Definition _handle_escalation (svc : SecOpsService) (w : World) (context : SecurityContext) (v : SecurityVerdict)
    : M SecurityVerdict :=
  if negb (_approval_store svc) then ret (denied_as v (Escalation_unavailable (reason v)))
  else
    let metadata : Metadata := <["tool_category" := Meta_str (tool_category_value (tool_category context))]>
      (<["tool_name" := Meta_str (tool_name context)]> ∅)%string in
    if _safety_classifier svc then
      let! outcome := _run_safety_classifier (safety_classifier (_config svc)) w context v metadata in
      if fst outcome then ret (denied_as v (_build_deny_reason (reason v) (snd outcome)))
      else enqueue svc w context v (snd outcome)
    else enqueue svc w context v metadata.

(** ** Evaluation *)

Definition full_autonomy (svc : SecOpsService) : bool :=
  match _effective_autonomy svc with
  | Some a => bool_decide (level a = Autonomy.AutonomyLevel.FULL)
  | None => false
  end.

Definition _maybe_llm_fallback (svc : SecOpsService) (w : World) (context : SecurityContext) (v : SecurityVerdict)
    : result Raised SecurityVerdict :=
  if negb (bool_decide (confidence v = SecurityModel.EvaluationConfidence.LOW)) then Ok v
  else if negb (bool_decide (verdict v = SecurityModel.SecurityVerdictType.ALLOW)) then Ok v
  else if negb (llm_enabled (llm_fallback (_config svc))) then Ok v
  else if negb (_llm_evaluator svc) then Ok v
  else if full_autonomy svc then Ok v
  else
    reraise_critical (evaluate_llm (llm_fallback (_config svc)) w context v)
      (let policy := on_error (llm_fallback (_config svc)) in
       match policy with
       | SecurityModel.LlmFallbackErrorPolicy.DENY =>
           Ok (with_verdict v SecurityModel.SecurityVerdictType.DENY (Evaluator_raised (reason v) policy)
             SecurityModel.ApprovalRiskLevel.HIGH)
       | SecurityModel.LlmFallbackErrorPolicy.ESCALATE =>
           Ok (with_verdict v SecurityModel.SecurityVerdictType.ESCALATE (Evaluator_raised (reason v) policy)
             SecurityModel.ApprovalRiskLevel.HIGH)
       | SecurityModel.LlmFallbackErrorPolicy.USE_RULE_VERDICT => Ok v
       end).

Definition _apply_autonomy_augmentation (svc : SecOpsService) (context : SecurityContext) (v : SecurityVerdict)
    : SecurityVerdict :=
  match _effective_autonomy svc with
  | None => v
  | Some autonomy =>
      if negb (bool_decide (verdict v = SecurityModel.SecurityVerdictType.ALLOW)) then v
      else if decide (action_type context ∈ auto_approve_actions autonomy) then v
      else if decide (action_type context ∈ human_approval_actions autonomy) then
        with_verdict v SecurityModel.SecurityVerdictType.ESCALATE (Human_required (level autonomy))
          (match _risk_classifier svc with
           | Some risk_map => classify risk_map (action_type context)
           | None => SecurityModel.ApprovalRiskLevel.HIGH
           end)
      else v
  end.

Definition audit_entry (w : World) (context : SecurityContext) (hash : string) (v : SecurityVerdict) : AuditEntry := {|
  entry_id := entry_uuid w;
  entry_timestamp := now w;
  entry_agent_id := agent_id context;
  entry_task_id := task_id context;
  entry_tool_name := tool_name context;
  entry_tool_category := tool_category context;
  entry_action_type := action_type context;
  entry_arguments_hash := hash;
  entry_verdict := Evaluated (verdict v);
  entry_risk_level := risk_level v;
  entry_reason := reason v;
  entry_matched_rules := matched_rules v;
  entry_confidence := confidence v;
  entry_approval_id := approval_id v |}.

(** The entry is appended before the gauge is set, and an ordinary failure of
    the gauge is logged. *)
Definition _record_audit (w : World) (context : SecurityContext) (v : SecurityVerdict) : M unit :=
  let! hash := lift (_hash_arguments w (arguments context)) in
  fun s => (reraise_critical (metrics_answer w) (Ok tt),
    with_audit s (record (audit_log s) (audit_entry w context hash v))).

Definition maybe_audit (svc : SecOpsService) (w : World) (context : SecurityContext) (v : SecurityVerdict) : M unit :=
  if audit_enabled (_config svc) then _record_audit w context v else ret tt.

Definition shadowed (svc : SecOpsService) (v : SecurityVerdict) : SecurityVerdict :=
  if bool_decide (enforcement_mode (_config svc) = SecurityModel.SecurityEnforcementMode.SHADOW) &&
    negb (bool_decide (verdict v = SecurityModel.SecurityVerdictType.ALLOW))
  then {| verdict := SecurityModel.SecurityVerdictType.ALLOW; reason := Shadowed (verdict v);
    risk_level := risk_level v; confidence := confidence v; matched_rules := matched_rules v; approval_id := None;
    agent_visible_reason := None |}
  else v.

Definition off (svc : SecOpsService) : bool :=
  negb (enabled (_config svc)) ||
  bool_decide (enforcement_mode (_config svc) = SecurityModel.SecurityEnforcementMode.DISABLED).

(** Steps 2 to 4: what the rules, the evaluator and autonomy make of a call. *)
Definition judge (svc : SecOpsService) (w : World) (context : SecurityContext) : result Raised SecurityVerdict :=
  let* v := reraise_critical (evaluate (_rule_engine svc) context)
    (Ok (rule_verdict SecurityModel.SecurityVerdictType.DENY Rule_engine_failed
      SecurityModel.ApprovalRiskLevel.CRITICAL [])) in
  let* v := _maybe_llm_fallback svc w context v in
  Ok (_apply_autonomy_augmentation svc context v).

(** Step 5. *)
Definition escalate (svc : SecOpsService) (w : World) (context : SecurityContext) (v : SecurityVerdict)
    : M SecurityVerdict :=
  if bool_decide (verdict v = SecurityModel.SecurityVerdictType.ESCALATE)
  then _handle_escalation svc w context v else ret v.

Definition evaluate_pre_tool (svc : SecOpsService) (w : World) (context : SecurityContext) : M SecurityVerdict :=
  if off svc then
    let v := rule_verdict SecurityModel.SecurityVerdictType.ALLOW Subsystem_disabled
      SecurityModel.ApprovalRiskLevel.LOW [] in
    let! _ := maybe_audit svc w context v in
    ret v
  else
    let! v := lift (judge svc w context) in
    let! v := escalate svc w context v in
    let! _ := maybe_audit svc w context v in
    ret (shadowed svc v).

(** ** Output *)

Definition scan_entry (w : World) (context : SecurityContext) (hash : string) (r : OutputScanResult) : AuditEntry := {|
  entry_id := entry_uuid w;
  entry_timestamp := now w;
  entry_agent_id := agent_id context;
  entry_task_id := task_id context;
  entry_tool_name := tool_name context;
  entry_tool_category := tool_category context;
  entry_action_type := action_type context;
  entry_arguments_hash := hash;
  entry_verdict := OUTPUT_SCAN_VERDICT;
  entry_risk_level := SecurityModel.ApprovalRiskLevel.HIGH;
  entry_reason := Output_findings (findings r);
  entry_matched_rules := [];
  entry_confidence := SecurityModel.EvaluationConfidence.HIGH;
  entry_approval_id := None |}.

Definition scan_output (svc : SecOpsService) (patterns : list Pattern) (w : World) (context : SecurityContext)
    (output : string) : M OutputScanResult :=
  if negb (post_tool_scanning_enabled (_config svc)) then ret (empty_result SecurityModel.ScanOutcome.CLEAN)
  else
    let r := scan_text patterns output in
    let! _ :=
      if has_sensitive_data r && audit_enabled (_config svc) then
        let! hash := lift (_hash_arguments w (arguments context)) in
        fun s => (reraise_critical (metrics_answer w) (Ok tt),
          with_audit s (record (audit_log s) (scan_entry w context hash r)))
      else ret tt in
    ret (apply (_output_scan_policy svc) r).

(** ** Assembly *)

(** [SecurityLlmInfra]: whether it carries a model resolver. *)
Record SecurityLlmInfra := { has_model_resolver : bool }.

(** The service and its denial tracker. *)
Definition make_security_interceptor (d : Detectors) (security_config : option SecurityConfig) (approval_store : bool)
    (effective_autonomy : option EffectiveAutonomy) (llm_infra : option SecurityLlmInfra)
    : result SecurityConfigError (option (SecOpsService * option DenialTracker)) :=
  match security_config with
  | None =>
      match effective_autonomy with
      | Some _ => Err Autonomy_without_config
      | None => Ok None
      end
  | Some cfg =>
      if negb (enabled cfg) then
        match effective_autonomy with
        | Some _ => Err Autonomy_while_disabled
        | None => Ok None
        end
      else
        let infra := bool_decide (is_Some llm_infra) in
        let safety := infra && safety_enabled (safety_classifier cfg) in
        let* denials :=
          if safety then
            match new_tracker (max_consecutive_denials (safety_classifier cfg))
                (max_total_denials (safety_classifier cfg)) with
            | Ok t => Ok (Some t)
            | Err _ => Err Bound_violated
            end
          else Ok None in
        Ok (Some ({|
          _config := cfg;
          _rule_engine := _build_rule_engine d cfg;
          _approval_store := approval_store;
          _effective_autonomy := effective_autonomy;
          _risk_classifier := Some (default_risk_classifier None);
          _llm_evaluator := infra && llm_enabled (llm_fallback cfg);
          _safety_classifier := safety;
          _uncertainty_checker :=
            match llm_infra with Some i => has_model_resolver i | None => false end &&
            uncertainty_enabled (uncertainty_check cfg);
          _output_scan_policy := build_output_scan_policy (output_scan_policy_type cfg) effective_autonomy |}, denials))
  end.
