(* ===== verification/SecOpsProofs.v ===== *)
(** * SecOpsProofs

    What the security service promises: which calls it allows, what an
    evaluation leaves in the audit log and the approval queue, and that
    ordinary failures end in a verdict. *)

From stdpp Require Import gmap strings list.
From Stdlib Require Import Lia ZArith QArith Ascii.
From S2P Require Import Prelude Autonomy SecurityModel SecurityRules DenialTracker AuditLog OutputScan SecOps.
#[local] Open Scope py_scope.
#[local] Open Scope nat_scope.
Import Autonomy.AutonomyLevel (AutonomyLevel).
Import SecurityModel.ApprovalRiskLevel (ApprovalRiskLevel).
Import SecurityModel.SecurityVerdictType (SecurityVerdictType, verdict_type_value).
Import SecurityModel.EvaluationConfidence (EvaluationConfidence).
Import SecurityModel.SecurityEnforcementMode (SecurityEnforcementMode).
Import SecurityModel.LlmFallbackErrorPolicy (LlmFallbackErrorPolicy).
Import SecurityModel.ToolCategory (ToolCategory).
Import SecOps.ApprovalStatus (ApprovalStatus).

(** ** What the evaluator answers *)

(** The verdict the model submitted, when it submitted one that parses. *)
Definition llm_answer (w : World) (context : SecurityContext) : option SecurityVerdictType :=
  match _resolve_binding w, complete w context with
  | Ok true, Response tool_calls =>
      match find (fun tc => bool_decide (tc.1 = "security_verdict"%string)) tool_calls with
      | Some tc =>
          match parse_enum verdict_type_value SecurityModel.SecurityVerdictType.members
                  (default (Llm_str "") (tc.2 !! "verdict"%string)),
                parse_enum SecurityModel.ApprovalRiskLevel.risk_level_value SecurityModel.ApprovalRiskLevel.members
                  (default (Llm_str "") (tc.2 !! "risk_level"%string)) with
          | Ok (Some t), Ok (Some _) => Some t
          | _, _ => None
          end
      | None => None
      end
  | _, _ => None
  end.

Definition is_allow (v : SecurityVerdict) : Prop := verdict v = SecurityModel.SecurityVerdictType.ALLOW.

Definition clears_on_error (c : LlmFallbackConfig) : Prop :=
  on_error c = SecurityModel.LlmFallbackErrorPolicy.USE_RULE_VERDICT.

Lemma error_policy_allows c rv why : is_allow rv -> is_allow (_apply_error_policy c rv why) <-> clears_on_error c.
Proof. unfold is_allow, _apply_error_policy, clears_on_error. intros Hv. by destruct (on_error c). Qed.

(** The verdict of an asked evaluator, its failures included. *)
Lemma evaluator_allows c w context rv r v :
  is_allow rv ->
  reraise_critical (evaluate_llm c w context rv) r = Ok v ->
  (forall v', r = Ok v' -> is_allow v' <-> clears_on_error c) ->
  is_allow v <->
    llm_answer w context = Some SecurityModel.SecurityVerdictType.ALLOW \/
    (llm_answer w context = None /\ clears_on_error c).
Proof.
  intros Hrv He Hr. unfold llm_answer.
  assert (Hpol : forall why, (Ok (_apply_error_policy c rv why) : result Raised SecurityVerdict) = Ok v -> is_allow v <->
    None = Some SecurityModel.SecurityVerdictType.ALLOW \/ (None = (None : option SecurityVerdictType) /\ clears_on_error c)).
  { intros why H. inv_result. rewrite error_policy_allows by done. naive_solver. }
  assert (Hraise : r = Ok v -> is_allow v <->
    None = Some SecurityModel.SecurityVerdictType.ALLOW \/ (None = (None : option SecurityVerdictType) /\ clears_on_error c)).
  { intros H. rewrite (Hr v H). naive_solver. }
  unfold evaluate_llm in He. destruct (_resolve_binding w) as [[]|[]]; simpl in He; [| |by apply Hraise|done|done].
  2: by apply (Hpol No_model_configured).
  destruct (complete w context) as [tcs| |[]]; simpl in He; [|by eapply Hpol|by eapply Hpol|done|done].
  unfold _parse_llm_response in He. destruct (find _ tcs) as [tc|]; [|by eapply Hpol].
  unfold _parse_tool_call_args in He.
  destruct (parse_enum verdict_type_value _ _) as [[t|]|[]]; simpl in He; [|by eapply Hpol|by apply Hraise|done|done].
  destruct (parse_enum SecurityModel.ApprovalRiskLevel.risk_level_value _ _) as [[risk|]|[]]; simpl in He;
    [|by eapply Hpol|by apply Hraise|done|done].
  inv_result. unfold is_allow. simpl. naive_solver.
Qed.

(** ** A service the factory made *)

Record made (d : Detectors) (cfg : SecurityConfig) (svc : SecOpsService) : Prop := {
  made_config : _config svc = cfg;
  made_engine : _rule_engine svc = _build_rule_engine d cfg;
  made_enabled : enabled cfg = true;
}.

Lemma interceptor_made d cfg store a infra svc tr :
  make_security_interceptor d (Some cfg) store a infra = Ok (Some (svc, tr)) ->
  made d cfg svc /\ _approval_store svc = store /\ _effective_autonomy svc = a /\
  _llm_evaluator svc = bool_decide (is_Some infra) && llm_enabled (llm_fallback cfg).
Proof.
  simpl. destruct (enabled cfg) eqn:He; simpl; [|by destruct a].
  match goal with |- context [rbind ?r _] => destruct r as [t|] end; simpl; [|done].
  intros H. inv_result. split; [by constructor|done].
Qed.

(** Whether a cleared call is put to the evaluator. *)
Definition asks (svc : SecOpsService) (context : SecurityContext) : bool :=
  match matching_policy (_config svc) context with Some _ => false | None => true end &&
  negb (bool_decide (action_type context ∈ auto_approve_action_types (_config svc))) &&
  llm_enabled (llm_fallback (_config svc)) && _llm_evaluator svc && negb (full_autonomy svc).

(** Reserved to humans by the agent's autonomy. *)
Definition reserved (svc : SecOpsService) (context : SecurityContext) : Prop :=
  exists a, _effective_autonomy svc = Some a /\ action_type context ∈ human_approval_actions a /\
    action_type context ∉ auto_approve_actions a.

Lemma augmentation_allows svc context v :
  is_allow (_apply_autonomy_augmentation svc context v) <-> is_allow v /\ ~ reserved svc context.
Proof.
  unfold _apply_autonomy_augmentation, reserved. destruct (_effective_autonomy svc) as [a|]; [|naive_solver].
  destruct (bool_decide _) eqn:Hv; simpl; [apply bool_decide_eq_true in Hv|apply bool_decide_eq_false in Hv].
  2: { split; [done|]. by intros [? _]. }
  destruct (decide (action_type context ∈ auto_approve_actions a)) as [Ha|Ha]; [naive_solver|].
  destruct (decide (action_type context ∈ human_approval_actions a)) as [Hh|Hh]; [|naive_solver].
  unfold is_allow. simpl. split; [done|]. intros [_ H]. destruct H. eauto.
Qed.

Section Made.
Context (d : Detectors) (cfg : SecurityConfig) (svc : SecOpsService).
Context (Hd : forall rule, rule ∈ [CredentialDetector d; PathTraversalDetector d; DestructiveOpDetector d;
  DataLeakDetector d] -> objects_only rule).
Context (Hsvc : made d cfg svc).

Lemma engine_confidence context v :
  evaluate (_rule_engine svc) context = Ok v -> is_allow v ->
  confidence v = SecurityModel.EvaluationConfidence.LOW <->
    matching_policy cfg context = None /\ action_type context ∉ auto_approve_action_types cfg.
Proof.
  rewrite (made_engine _ _ _ Hsvc), engine_reference by exact Hd. unfold reference_evaluate, is_allow.
  destruct (bool_decide _); [intros H; inv_result; simpl; done|]. cbv zeta.
  pose proof (first_answer_objects (enabled_detectors d (rule_engine cfg)) context) as Ho.
  pose proof (enabled_objects_only d Hd (rule_engine cfg)) as He.
  destruct (matching_policy cfg context) as [p|]; simpl.
  - intros Hv Ha. assert (v = custom_verdict context p) as ->; [|split; [done|naive_solver]].
    destruct (custom_allow_bypasses_detectors _); simpl in Hv; [by inv_result|].
    destruct (first_answer _ _) as [[v'|]|]; simpl in Hv; [|by inv_result|done].
    inv_result. by destruct (Ho v He).
  - intros Hv Ha. replace (if custom_allow_bypasses_detectors (rule_engine cfg) then None else None : option SecurityVerdict)
      with (None : option SecurityVerdict) in Hv by (by destruct (custom_allow_bypasses_detectors _)).
    destruct (first_answer _ _) as [[v'|]|]; simpl in Hv; [inv_result; by destruct (Ho v He)| |done].
    inv_result; unfold listed_verdict;
      (destruct (bool_decide _) eqn:Hb; [apply bool_decide_eq_true in Hb|apply bool_decide_eq_false in Hb]);
      simpl; naive_solver.
Qed.

Lemma fallback_allows w context v v' :
  _maybe_llm_fallback svc w context v = Ok v' ->
  is_allow v' <-> is_allow v /\
    (confidence v = SecurityModel.EvaluationConfidence.LOW -> llm_enabled (llm_fallback (_config svc)) = true ->
     _llm_evaluator svc = true -> full_autonomy svc = false ->
     llm_answer w context = Some SecurityModel.SecurityVerdictType.ALLOW \/
     (llm_answer w context = None /\ clears_on_error (llm_fallback (_config svc)))).
Proof.
  unfold _maybe_llm_fallback, is_allow. case_bool_decide as Hc; simpl; [|intros H; inv_result; tauto].
  case_bool_decide as Hv; simpl; [|intros H; inv_result; tauto].
  destruct (llm_enabled _); simpl; [|intros H; inv_result; naive_solver].
  destruct (_llm_evaluator svc); simpl; [|intros H; inv_result; naive_solver].
  destruct (full_autonomy svc); simpl; [intros H; inv_result; naive_solver|]. intros H.
  pose proof (evaluator_allows _ _ _ _ _ _ Hv H) as Hev. unfold is_allow in Hev. rewrite Hev; [naive_solver|].
  intros v0. unfold clears_on_error. destruct (on_error _); intros H0; inv_result; simpl; naive_solver.
Qed.

(** What [judge] clears. *)
Lemma judge_allows w context v :
  new_security_config cfg = Ok cfg -> judge svc w context = Ok v ->
  is_allow v <->
    action_type context ∉ hard_deny_action_types cfg /\
    (forall rule, rule ∈ enabled_detectors d (rule_engine cfg) -> evaluate_rule rule context = Ok None) /\
    (forall p, matching_policy cfg context = Some p ->
       policy_verdict p = SecurityModel.SecurityVerdictType.ALLOW) /\
    (asks svc context = true ->
       llm_answer w context = Some SecurityModel.SecurityVerdictType.ALLOW \/
       (llm_answer w context = None /\ clears_on_error (llm_fallback cfg))) /\
    ~ reserved svc context.
Proof.
  intros Hcfg. pose proof (engine_clears d Hd cfg context Hcfg) as Hex.
  pose proof (engine_confidence context) as Hconf. rewrite <-(made_engine _ _ _ Hsvc) in Hex. unfold judge.
  set (cleared := exists v, evaluate (_rule_engine svc) context = Ok v /\ verdict v = SecurityModel.SecurityVerdictType.ALLOW) in Hex.
  set (heard := asks svc context = true -> llm_answer w context = Some SecurityModel.SecurityVerdictType.ALLOW \/
    (llm_answer w context = None /\ clears_on_error (llm_fallback cfg))).
  intros Hv. enough (is_allow v <-> (cleared /\ heard) /\ ~ reserved svc context) by tauto. revert Hv.
  assert (Hstep : forall v0 v1, _maybe_llm_fallback svc w context v0 = Ok v1 ->
    (is_allow v0 <-> cleared) ->
    (is_allow v0 -> evaluate (_rule_engine svc) context = Ok v0) ->
    v = _apply_autonomy_augmentation svc context v1 ->
    is_allow v <-> (cleared /\ heard) /\ ~ reserved svc context).
  { intros v0 v1 Hf Hv0 Heq ->. rewrite augmentation_allows, (fallback_allows w context v0 v1 Hf), <-Hv0.
    pose proof (made_config _ _ _ Hsvc) as Hc. rewrite Hc. apply and_iff_compat_r.
    assert (Hasks : is_allow v0 -> asks svc context = true <-> confidence v0 = SecurityModel.EvaluationConfidence.LOW /\
      llm_enabled (llm_fallback cfg) = true /\ _llm_evaluator svc = true /\ full_autonomy svc = false).
    { intros Ha. rewrite (Hconf v0 (Heq Ha) Ha). unfold asks. rewrite Hc, !andb_true_iff, nonblocking, negb_true_iff.
      destruct (matching_policy cfg context); naive_solver. }
    subst heard. split; intros [Ha Hx]; (split; [exact Ha|]).
    - intros Hk. apply (Hasks Ha) in Hk as (? & ? & ? & ?). by apply Hx.
    - intros. apply Hx. by apply (Hasks Ha). }
  destruct (evaluate (_rule_engine svc) context) as [v0|[]] eqn:He; [simpl| |done|done].
  - destruct (_maybe_llm_fallback svc w context v0) as [v1|] eqn:Hf; simpl; [|done]. intros H. inv_result.
    eapply Hstep; [exact Hf| | |reflexivity]; unfold is_allow, cleared; naive_solver.
  - intros H. simpl in H. inv_result. set (dead := rule_verdict _ _ _ _).
    apply (Hstep dead dead); [reflexivity| | |reflexivity]; unfold is_allow, cleared; simpl; naive_solver.
Qed.
End Made.

(** ** Escalation *)

(** Only the denial counts move. *)
Definition same_records (s s' : SecState) : Prop := audit_log s' = audit_log s /\ approvals s' = approvals s.

Lemma safety_step c w context v md s r s' :
  _run_safety_classifier c w context v md s = (r, s') ->
  same_records s s' /\ (forall e, r = Err e -> e <> Ordinary) /\
  (forall outcome t, r = Ok outcome -> stripped_of (snd outcome) = Some t -> stripped_of md = None ->
     exists a, classify_answer w (reason v) (action_type context) (tool_name context) (risk_level v) = Ok a /\
       stripped_description a = t).
Proof.
  unfold _run_safety_classifier. case_bool_decide as Ht; unfold ret, lift.
  { intros H. inv_result. split; [done|]. split; [done|]. intros outcome t H. inv_result. simpl. congruence. }
  destruct (classify_answer _ _ _ _ _) as [a|e] eqn:Ha.
  2: { destruct e; simpl; intros H; inv_result; (split; [done|]); split; try (by intros ? [= <-]); intros outcome t H;
       inv_result; simpl; congruence. }
  assert (Hs : forall m : Metadata, m !! "stripped_description"%string =
      classified a md !! "stripped_description"%string -> forall t, stripped_of m = Some t -> stripped_description a = t).
  { intros m Hm t. unfold stripped_of. rewrite Hm. unfold classified. rewrite lookup_insert_ne, lookup_insert_eq by done.
    destruct (stripped_description a); intros H; by inv_result. }
  unfold _process_classification. destruct (bool_decide _ && _); unfold _handle_blocked_denial.
  - destruct (tracker s) as [t0|]; [destruct (record_denial t0 _) as [act t1]; destruct (get_counts t1 _) as [n1 n2]|];
      intros H; inv_result; (split; [done|]); (split; [done|]); intros outcome t H Ho _; inv_result; simpl in Ho;
      exists a; (split; [done|]); eapply Hs; try exact Ho; by rewrite ?lookup_insert_ne by done.
  - intros H. inv_result. split; [done|]. split; [done|]. intros outcome t H Ho _. inv_result. exists a.
    split; [done|]. by eapply Hs.
Qed.

(** Nothing a collaborator was asked for makes a blank description. *)
Definition sound_strings (w : World) : Prop :=
  forall r at_ tn risk a, classify_answer w r at_ tn risk = Ok a ->
    stripped_description a = EmptyString \/ is_blank (stripped_description a) = false.

Definition queued (w : World) (context : SecurityContext) (v : SecurityVerdict) (s s' : SecState) : Prop :=
  exists description md, approvals s' = approvals s ++ [approval_item w context v description md].

Definition text_ok (r : Reason) : Prop := match r with Text t => is_blank t = false | _ => True end.

Lemma enqueue_outcome svc w context v md s r s' :
  enqueue svc w context v md s = (r, s') -> verdict v = SecurityModel.SecurityVerdictType.ESCALATE ->
  audit_log s' = audit_log s /\
  match r with
  | Ok v' => (v' = with_approval v (approval_uuid w) /\ queued w context v s s') \/
      (v' = denied_as v (Store_error (reason v)) /\ approvals s' = approvals s)
  | Err e => approvals s' = approvals s /\
      (text_ok (reason v) -> (forall t, stripped_of md = Some t -> is_blank t = false) -> e <> Ordinary)
  end.
Proof.
  unfold enqueue, bind, lift, ret. intros H Hv.
  match type of H with context [match ?m s with _ => _ end] => assert (Hm : exists r0, m s = (r0, s) /\
    forall e, r0 = Err e -> e <> Ordinary) end.
  { destruct (if _uncertainty_checker svc then _ else _) as [p|]; [|by eexists].
    eexists. split; [reflexivity|]. unfold _run_uncertainty_check. intros e.
    by destruct (check_answer w p) as [a|[]]; simpl; intros [= <-]. }
  destruct Hm as ([md'|e] & Hm & He); rewrite Hm in H; [|inv_result; split; [done|]; split; [done|]; intros; by apply He].
  unfold new_item in H. simpl in H. destruct (negb _) eqn:Hb; [|inv_result; split; [done|]; split; [done|]].
  - unfold add in H. destruct (add_answer w _) as [[]|[]]; inv_result; simpl; (split; [done|]).
    + left. split; [done|]. by eexists _, _.
    + by right.
    + split; [done|done].
    + split; [done|done].
  - intros Htext Hstr. exfalso. destruct (_safety_classifier svc).
    + destruct (stripped_of md) as [t|] eqn:Hs; [by rewrite (Hstr t eq_refl) in Hb|].
      unfold text_ok in Htext. destruct (reason v); try done. by rewrite Htext in Hb.
    + unfold text_ok in Htext. destruct (reason v); try done. by rewrite Htext in Hb.
Qed.

Lemma handle_escalation_outcome svc w context v s r s' :
  _handle_escalation svc w context v s = (r, s') -> verdict v = SecurityModel.SecurityVerdictType.ESCALATE ->
  audit_log s' = audit_log s /\
  match r with
  | Ok v' => (v' = with_approval v (approval_uuid w) /\ _approval_store svc = true /\ queued w context v s s') \/
      (verdict v' = SecurityModel.SecurityVerdictType.DENY /\ approvals s' = approvals s)
  | Err e => approvals s' = approvals s /\ (text_ok (reason v) -> sound_strings w -> e <> Ordinary)
  end.
Proof.
  unfold _handle_escalation. intros H Hv. destruct (_approval_store svc); simpl in H; [|unfold ret in H; inv_result; auto].
  set (md0 := <["tool_category"%string := _]> _) in H.
  assert (Hmd0 : stripped_of md0 = None) by done. destruct (_safety_classifier svc).
  - unfold bind at 1 in H. destruct (_run_safety_classifier _ w context v md0 s) as [out s1] eqn:Hs.
    destruct (safety_step _ _ _ _ _ _ _ _ Hs) as ([Ha1 Ha2] & He & Hstr). destruct out as [[rej md]|e]; simpl in H.
    2: { inv_result. split; [done|]. split; [done|]. intros _ _. by apply He. }
    destruct rej; [unfold ret in H; inv_result; split; [done|]; by right|].
    apply enqueue_outcome in H as [Hl Ho]; [|done]. rewrite Ha1 in Hl. split; [done|]. unfold queued in *. rewrite Ha2 in Ho.
    destruct r as [v'|e].
    + destruct Ho as [[? ?]|[-> ?]]; [by left|by right].
    + destruct Ho as [Ho He2]. split; [done|]. intros Ht Hw. apply He2; [done|]. intros t Hst.
      destruct (Hstr _ t eq_refl Hst Hmd0) as (a & Hans & Ht'). destruct (Hw _ _ _ _ _ Hans) as [Hb|Hb]; subst t; [|done].
      simpl in Hst. rewrite Hb in Hst. unfold stripped_of in Hst. by destruct (md !! _) as [[[]| |]|].
  - apply enqueue_outcome in H as [Hl Ho]; [|done]. split; [done|]. destruct r as [v'|e].
    + destruct Ho as [[? ?]|[-> ?]]; [by left|by right].
    + destruct Ho as [Ho He]. split; [done|]. intros Ht _. apply He; [done|]. intros t Hst. by rewrite Hmd0 in Hst.
Qed.

Lemma audit_outcome svc w context v s r s' :
  maybe_audit svc w context v s = (r, s') ->
  approvals s' = approvals s /\
  match r with
  | Ok _ => if audit_enabled (_config svc) then exists hash, _hash_arguments w (arguments context) = Ok hash /\
      audit_log s' = record (audit_log s) (audit_entry w context hash v) else audit_log s' = audit_log s
  | Err e => e <> Ordinary \/ _hash_arguments w (arguments context) = Err e
  end.
Proof.
  unfold maybe_audit, _record_audit, bind, lift, ret. destruct (audit_enabled (_config svc)); [|intros H; by inv_result].
  destruct (_hash_arguments w _) as [hash|e]; intros H; [|inv_result; auto].
  destruct (metrics_answer w) as [[]|[]]; simpl in H; inv_result; simpl; eauto.
Qed.

(** The stages of an evaluation that is not switched off. *)
Lemma evaluate_stages svc w context s r s' :
  off svc = false -> evaluate_pre_tool svc w context s = (r, s') ->
  (exists e, judge svc w context = Err e /\ r = Err e /\ s' = s) \/
  exists v r1 s1, judge svc w context = Ok v /\ escalate svc w context v s = (r1, s1) /\
    match r1 with
    | Err e => r = Err e /\ s' = s1
    | Ok v1 => exists r2, maybe_audit svc w context v1 s1 = (r2, s') /\
        r = match r2 with Ok _ => Ok (shadowed svc v1) | Err e => Err e end
    end.
Proof.
  intros Hoff. unfold evaluate_pre_tool. rewrite Hoff. unfold bind at 1, lift.
  destruct (judge svc w context) as [v|e]; intros H; [|left; inv_result; by eexists]. right.
  unfold bind in H. destruct (escalate svc w context v s) as [r1 s1] eqn:He. exists v, r1, s1.
  split; [done|]. split; [done|]. destruct r1 as [v1|e]; [|by inv_result].
  destruct (maybe_audit svc w context v1 s1) as [r2 s2]. exists r2. destruct r2; unfold ret in H; by inv_result.
Qed.

Lemma escalate_outcome svc w context v s r s' :
  escalate svc w context v s = (r, s') ->
  audit_log s' = audit_log s /\
  match r with
  | Ok v' => (verdict v = SecurityModel.SecurityVerdictType.ESCALATE /\ v' = with_approval v (approval_uuid w) /\
        _approval_store svc = true /\ queued w context v s s') \/
      (verdict v' <> SecurityModel.SecurityVerdictType.ESCALATE /\ approvals s' = approvals s /\
        (is_allow v' <-> is_allow v))
  | Err e => approvals s' = approvals s /\ (text_ok (reason v) -> sound_strings w -> e <> Ordinary)
  end.
Proof.
  unfold escalate, is_allow. case_bool_decide as Hv; intros H.
  - apply handle_escalation_outcome in H as [Ha H]; [|done]. split; [done|]. destruct r as [v'|e]; [|done].
    destruct H as [[-> ?]|[Hd ?]]; [by left|right]. rewrite Hd, Hv. done.
  - unfold ret in H. inv_result. split; [done|]. by right.
Qed.

Lemma active_not_shadowed svc v :
  enforcement_mode (_config svc) = SecurityModel.SecurityEnforcementMode.ACTIVE -> shadowed svc v = v.
Proof. unfold shadowed. by intros ->. Qed.

Section MadeClaims.
Context (d : Detectors) (cfg : SecurityConfig) (store : bool) (a : option EffectiveAutonomy)
  (infra : option SecurityLlmInfra) (svc : SecOpsService) (tr : option DenialTracker).
Context (Hd : forall rule, rule ∈ [CredentialDetector d; PathTraversalDetector d; DestructiveOpDetector d;
  DataLeakDetector d] -> objects_only rule).
Context (Hcfg : new_security_config cfg = Ok cfg).
Context (Hsvc : make_security_interceptor d (Some cfg) store a infra = Ok (Some (svc, tr))).
Context (Hactive : enforcement_mode cfg = SecurityModel.SecurityEnforcementMode.ACTIVE).

Lemma made_on : off svc = false.
Proof.
  destruct (interceptor_made _ _ _ _ _ _ _ Hsvc) as ([Hc _ He] & _). unfold off. by rewrite Hc, He, Hactive.
Qed.

(** Whether the agent's autonomy is FULL. *)
Definition acts_freely (a : option EffectiveAutonomy) : bool :=
  match a with Some e => bool_decide (level e = Autonomy.AutonomyLevel.FULL) | None => false end.

(** C5: with the security service assembled from a validated configuration in
    active mode, with detectors that only object (as those of the code do), a
    call is allowed exactly when its action type is not
    hard-denied, every enabled detector examined it and said nothing, the
    first custom policy that names it is an ALLOW, the language model, where
    it is asked (no policy and no list spoke, an evaluator is wired, the agent
    is not on FULL autonomy), submitted an allow or failed under the policy
    that keeps the rules' verdict, and the agent's autonomy does not reserve
    the action type to humans. In particular neither the model nor autonomy
    ever lifts what a rule objected to. *)
Theorem call_allowed_exact (w : World) (context : SecurityContext) (s s' : SecState) (v : SecurityVerdict) :
  evaluate_pre_tool svc w context s = (Ok v, s') ->
  verdict v = SecurityModel.SecurityVerdictType.ALLOW <->
    action_type context ∉ hard_deny_action_types cfg /\
    (forall rule, rule ∈ enabled_detectors d (rule_engine cfg) -> evaluate_rule rule context = Ok None) /\
    (forall p, matching_policy cfg context = Some p ->
       policy_verdict p = SecurityModel.SecurityVerdictType.ALLOW) /\
    (matching_policy cfg context = None -> action_type context ∉ auto_approve_action_types cfg ->
       llm_enabled (llm_fallback cfg) = true -> infra <> None -> acts_freely a = false ->
       llm_answer w context = Some SecurityModel.SecurityVerdictType.ALLOW \/
       (llm_answer w context = None /\ clears_on_error (llm_fallback cfg))) /\
    (forall e, a = Some e -> action_type context ∈ human_approval_actions e ->
       action_type context ∈ auto_approve_actions e).
Proof.
  destruct (interceptor_made _ _ _ _ _ _ _ Hsvc) as (Hm & _ & Ha & Hl). pose proof (made_config _ _ _ Hm) as Hc.
  intros H. apply evaluate_stages in H; [|exact made_on].
  destruct H as [(e & _ & ? & _)|(v0 & r1 & s1 & Hj & He & H)]; [done|]. apply escalate_outcome in He as [_ He].
  destruct r1 as [v1|]; [|by destruct H]. destruct H as ([[]|] & _ & H); [injection H as ->|done].
  rewrite active_not_shadowed by (by rewrite Hc).
  transitivity (is_allow v0).
  { unfold is_allow. destruct He as [(Hv & -> & _)|(_ & _ & He)]; [simpl; by rewrite Hv|exact He]. }
  rewrite (judge_allows d _ svc Hd Hm w context v0 Hcfg Hj).
  assert (Hasks : asks svc context = true <-> matching_policy cfg context = None /\
    action_type context ∉ auto_approve_action_types cfg /\ llm_enabled (llm_fallback cfg) = true /\ infra <> None /\
    acts_freely a = false).
  { unfold asks, full_autonomy. rewrite Hc, Hl, Ha, !andb_true_iff, nonblocking, bool_decide_eq_true, negb_true_iff.
    fold (acts_freely a).
    rewrite (not_eq_None_Some infra : infra <> None <-> is_Some infra). destruct (matching_policy cfg context); naive_solver. }
  assert (Hres : ~ reserved svc context <-> forall e, a = Some e -> action_type context ∈ human_approval_actions e ->
    action_type context ∈ auto_approve_actions e).
  { unfold reserved. rewrite Ha. split.
    - intros Hn e -> Hh. destruct (decide (action_type context ∈ auto_approve_actions e)) as [|Hx]; [done|].
      destruct Hn. by exists e.
    - intros Hx (e & -> & Hh & Hn). by apply Hn, Hx. }
  rewrite Hasks, Hres. clear. tauto.
Qed.

(** C25: every evaluation of an assembled service that returns decided one
    verdict, which it returns
    unless the mode is SHADOW, where an objection is returned as ALLOW: when
    auditing is on it leaves exactly one audit entry, with the verdict decided;
    a decided ESCALATE carries the id of exactly one new approval item, pending,
    marked as backing a parked run, with the call's action type, risk and task,
    also in shadow mode; any other decided verdict leaves the approval queue as
    it was; and without an approval store nothing escalates. *)
Theorem evaluation_recorded (w : World) (context : SecurityContext) (s s' : SecState) (v : SecurityVerdict) :
  evaluate_pre_tool svc w context s = (Ok v, s') ->
  exists decided, v = shadowed svc decided /\
  (enforcement_mode cfg <> SecurityModel.SecurityEnforcementMode.SHADOW -> v = decided) /\
  (if audit_enabled cfg then exists hash, _hash_arguments w (arguments context) = Ok hash /\
     audit_log s' = record (audit_log s) (audit_entry w context hash decided)
   else audit_log s' = audit_log s) /\
  (verdict decided = SecurityModel.SecurityVerdictType.ESCALATE ->
     store = true /\ approval_id decided = Some (approval_uuid w) /\
     exists description md, approvals s' = approvals s ++ [approval_item w context decided description md]) /\
  (verdict decided <> SecurityModel.SecurityVerdictType.ESCALATE -> approvals s' = approvals s).
Proof.
  destruct (interceptor_made _ _ _ _ _ _ _ Hsvc) as (Hm & Hst & _). pose proof (made_config _ _ _ Hm) as Hc.
  assert (Hshadow : forall v0, enforcement_mode cfg <> SecurityModel.SecurityEnforcementMode.SHADOW -> shadowed svc v0 = v0).
  { intros v0 Hne. unfold shadowed. by rewrite Hc, bool_decide_false. }
  intros H. destruct (off svc) eqn:Hoff.
  - unfold evaluate_pre_tool in H. rewrite Hoff in H. unfold bind, ret in H.
    destruct (maybe_audit _ _ _ _ _) as [[[]|e] s1] eqn:Haud; [injection H as <- <-|done].
    apply audit_outcome in Haud as [Hap Haud]. rewrite Hc in Haud. eexists. split; [|split; [done|split; [exact Haud|done]]].
    symmetry. unfold shadowed. by rewrite andb_false_r.
  - apply evaluate_stages in H; [|done].
    destruct H as [(e & _ & ? & _)|(v0 & r1 & s1 & _ & He & H)]; [done|]. apply escalate_outcome in He as [Hlog He].
    destruct r1 as [v1|]; [|by destruct H]. destruct H as ([[]|] & Haud & H); [injection H as ->|done].
    apply audit_outcome in Haud as [Hap Haud]. rewrite Hc, Hlog in Haud.
    exists v1. split_and!; [done|by apply Hshadow|exact Haud| |]; rewrite Hap;
      (destruct He as [(Hv & -> & Hstore & (de & md & Hq))|(Hv & Hq & _)]; [|done]).
    + intros _. split; [congruence|]. split; [done|]. by exists de, md.
    + simpl. by rewrite Hv.
Qed.
End MadeClaims.

(** ** Failures *)

Definition texts_ok (rule : SecurityRule) : Prop :=
  forall context v, evaluate_rule rule context = Ok (Some v) -> text_ok (reason v).

Lemma run_rules_text m rules soft context v :
  (forall rule, rule ∈ rules -> texts_ok rule) -> (forall v0, soft = Some v0 -> text_ok (reason v0)) ->
  run_rules m rules soft context = Ok v -> text_ok (reason v).
Proof.
  revert soft. induction rules as [|rule rules IH]; intros soft Hr Hsoft; simpl.
  - destruct soft; intros H; inv_result; [by apply Hsoft|done].
  - destruct (_safe_evaluate rule context) as [[v0|]|] eqn:E; simpl; [| |done].
    + assert (Hv0 : text_ok (reason v0)).
      { unfold _safe_evaluate in E. destruct (evaluate_rule rule context) as [o|[]] eqn:Ho; simpl in E; inv_result;
          [|done]. eapply (Hr rule); [by left|done]. }
      destruct (_ && _); [apply IH|intros H; by inv_result].
      * intros r Hin. apply Hr. by right.
      * intros v1 H. by inv_result.
    + apply IH; [|done]. intros r Hin. apply Hr. by right.
Qed.

Lemma built_texts d cfg rule :
  (forall rule, rule ∈ [CredentialDetector d; PathTraversalDetector d; DestructiveOpDetector d;
    DataLeakDetector d] -> texts_ok rule) ->
  rule ∈ engine_rules (_build_rule_engine d cfg) -> texts_ok rule.
Proof.
  intros Hd. simpl. assert (Hcustom : forall r, r ∈ custom_rules cfg -> texts_ok r).
  { unfold custom_rules. intros r (p & -> & _)%list_elem_of_fmap context v. simpl.
    destruct (negb (policy_enabled p)); [done|]. destruct (negb _); intros H; by inv_result. }
  rewrite elem_of_cons, !elem_of_app. unfold enabled_detectors. rewrite !elem_of_app, !elem_of_switch.
  assert (Hmcp : texts_ok MCPDestructiveOpDetector).
  { intros context v. simpl. unfold mcp_evaluate. destruct (negb _); [done|]. destruct (decide _); [done|].
    intros H. by inv_result. }
  intros [->|[H|[H|H]]].
  - intros context v. simpl. repeat case_decide; intros Hx; by inv_result.
  - destruct (custom_allow_bypasses_detectors _); [by apply Hcustom|by apply not_elem_of_nil in H].
  - repeat destruct H as [H|H]; destruct H as [_ ->]; first [exact Hmcp|apply Hd; rewrite !elem_of_cons; tauto].
  - destruct (negb (custom_allow_bypasses_detectors _)); [by apply Hcustom|by apply not_elem_of_nil in H].
Qed.

Lemma fallback_text svc w context v v' :
  text_ok (reason v) -> _maybe_llm_fallback svc w context v = Ok v' -> text_ok (reason v').
Proof.
  intros Hv. unfold _maybe_llm_fallback.
  repeat (destruct (negb _); [intros Hx; by inv_result|]). destruct (full_autonomy svc); [intros H; by inv_result|].
  set (c := llm_fallback _).
  assert (Hpol : forall why v1, (Ok (_apply_error_policy c v why) : result Raised SecurityVerdict) = Ok v1 ->
    text_ok (reason v1)).
  { intros why v1 H. inv_result. unfold _apply_error_policy. by destruct (on_error c). }
  assert (Hev : forall v1, evaluate_llm c w context v = Ok v1 -> text_ok (reason v1)).
  { intros v1. unfold evaluate_llm. destruct (_resolve_binding w) as [[]|]; simpl; [|apply Hpol|done].
    destruct (complete w context) as [tcs| |[]]; simpl; [|apply Hpol|apply Hpol|done|done].
    unfold _parse_llm_response. destruct (find _ tcs) as [tc|]; [|apply Hpol]. unfold _parse_tool_call_args.
    destruct (parse_enum verdict_type_value _ _) as [[t|]|]; simpl; [|apply Hpol|done].
    destruct (parse_enum SecurityModel.ApprovalRiskLevel.risk_level_value _ _) as [[risk|]|]; simpl;
      [|apply Hpol|done]. intros H. by inv_result. }
  destruct (evaluate_llm c w context v) as [v1|[]]; simpl; [intros H; inv_result; by apply Hev| |done|done].
  destruct (on_error c); intros H; by inv_result.
Qed.

Lemma judge_text svc w context v :
  (forall rule, rule ∈ engine_rules (_rule_engine svc) -> texts_ok rule) ->
  judge svc w context = Ok v -> text_ok (reason v).
Proof.
  intros Hr. unfold judge.
  assert (Haug : forall v0 v1, text_ok (reason v0) -> _maybe_llm_fallback svc w context v0 = Ok v1 ->
    text_ok (reason (_apply_autonomy_augmentation svc context v1))).
  { intros v0 v1 Hv0 Hf. pose proof (fallback_text _ _ _ _ _ Hv0 Hf) as Hv1. unfold _apply_autonomy_augmentation.
    destruct (_effective_autonomy svc); [|done]. destruct (negb _); [exact Hv1|].
    destruct (decide _); [exact Hv1|]. destruct (decide _); [exact I|exact Hv1]. }
  destruct (evaluate (_rule_engine svc) context) as [v0|[]] eqn:He; [simpl| |done|done].
  - destruct (_maybe_llm_fallback svc w context v0) as [v1|] eqn:Hf; simpl; [|done]. intros H. inv_result.
    eapply Haug; [|exact Hf]. unfold evaluate in He. eapply run_rules_text; [exact Hr| |exact He]. intros ? [=].
  - intros H. simpl in H. inv_result. set (dead := rule_verdict _ _ _ _). by apply (Haug dead dead).
Qed.

Lemma judge_raises svc w context e : judge svc w context = Err e -> e <> Ordinary.
Proof.
  unfold judge. assert (Hre : forall r h, (forall e, h = Err e -> e <> Ordinary) ->
    reraise_critical r h = (Err e : result Raised SecurityVerdict) -> e <> Ordinary).
  { intros [v|[]] h Hh; simpl; [done| |by intros [= <-]|by intros [= <-]]. apply Hh. }
  destruct (reraise_critical (evaluate _ context) _) as [v|e0] eqn:He.
  - cbn [rbind]. destruct (_maybe_llm_fallback svc w context v) as [v1|e1] eqn:Hf; simpl; [done|]. intros [= ->].
    revert Hf. unfold _maybe_llm_fallback. repeat (destruct (negb _); [done|]). destruct (full_autonomy svc); [done|].
    apply Hre. by destruct (on_error _).
  - simpl. intros [= ->]. by apply Hre in He.
Qed.

(** C26: whatever the detectors, the model, the classifier, the uncertainty
    checker, the approval store and the gauge do, an evaluation by an
    assembled service ends in a verdict: the only exceptions that leave it are
    critical ones, provided the arguments can be serialised and the classifier
    strips no reason to whitespace. *)
Theorem evaluation_ends_in_verdict (d : Detectors) (cfg : SecurityConfig) (store : bool) (a : option EffectiveAutonomy)
    (infra : option SecurityLlmInfra) (svc : SecOpsService) (tr : option DenialTracker)
    (w : World) (context : SecurityContext) (s s' : SecState) (e : Raised) :
  make_security_interceptor d (Some cfg) store a infra = Ok (Some (svc, tr)) ->
  (forall rule, rule ∈ [CredentialDetector d; PathTraversalDetector d; DestructiveOpDetector d;
     DataLeakDetector d] -> texts_ok rule) ->
  sound_strings w -> (forall args e, _hash_arguments w args = Err e -> e <> Ordinary) ->
  evaluate_pre_tool svc w context s = (Err e, s') -> e <> Ordinary.
Proof.
  intros Hsvc Hd Hw Hh H. destruct (interceptor_made _ _ _ _ _ _ _ Hsvc) as (Hm & _).
  assert (Haud : forall v s0 s1 r, maybe_audit svc w context v s0 = (Err r, s1) -> r <> Ordinary).
  { intros v s0 s1 r [_ [?|Hr]]%audit_outcome; [done|by eapply Hh]. }
  destruct (off svc) eqn:Hoff.
  { unfold evaluate_pre_tool in H. rewrite Hoff in H. unfold bind in H.
    destruct (maybe_audit _ _ _ _ s) as [[u|e0] s0] eqn:Ha; unfold ret in H; [done|]. inv_result. by eapply Haud. }
  apply evaluate_stages in H; [|done].
  destruct H as [(e0 & Hj & [= ->] & _)|(v0 & r1 & s1 & Hj & He & H)]; [by eapply judge_raises|].
  apply escalate_outcome in He as [_ He]. destruct r1 as [v1|e1].
  - destruct H as ([|e2] & Ha & H); [done|]. injection H as ->. by eapply Haud.
  - destruct H as [[= ->] _]. apply He; [|done]. eapply judge_text; [|exact Hj].
    rewrite (made_engine _ _ _ Hm). intros rule. by apply built_texts.
Qed.

(** ** Examples *)

Definition calm_world : World := {|
  approval_uuid := "approval-1"; entry_uuid := "entry-1"; now := 0;
  _hash_arguments := fun _ => Ok "hash"%string;
  _resolve_binding := Ok false;
  complete := fun _ => Timeout_error;
  classify_answer := fun _ _ _ _ => Ok {| classification := SecurityModel.SafetyClassification.BLOCKED;
    stripped_description := "[PII]"; classification_reason := "looks unsafe" |};
  check_answer := fun _ => Err Ordinary;
  add_answer := fun _ => Ok tt;
  metrics_answer := Err Ordinary |}%string.

(** What the presets give a SUPERVISED agent. *)
Definition supervised : option EffectiveAutonomy :=
  match new_registry ∅ with
  | Ok r =>
      match resolve r {| config_level := Autonomy.AutonomyLevel.SUPERVISED; presets := BUILTIN_PRESETS |} None None None with
      | Ok e => Some e
      | Err _ => None
      end
  | Err _ => None
  end.

Definition with_mode (m : SecurityEnforcementMode) (c : SecurityConfig) : SecurityConfig := {|
  enabled := enabled c; enforcement_mode := m; rule_engine := rule_engine c; llm_fallback := llm_fallback c;
  audit_enabled := audit_enabled c; post_tool_scanning_enabled := post_tool_scanning_enabled c;
  hard_deny_action_types := hard_deny_action_types c; auto_approve_action_types := auto_approve_action_types c;
  output_scan_policy_type := output_scan_policy_type c; custom_policies := custom_policies c;
  safety_classifier := safety_classifier c; uncertainty_check := uncertainty_check c |}.

Definition sample_service (cfg : SecurityConfig) (a : option EffectiveAutonomy) : SecOpsService := {|
  _config := cfg; _rule_engine := _build_rule_engine sample_detectors cfg; _approval_store := true;
  _effective_autonomy := a; _risk_classifier := Some (default_risk_classifier None); _llm_evaluator := false;
  _safety_classifier := false; _uncertainty_checker := false;
  _output_scan_policy := build_output_scan_policy (output_scan_policy_type cfg) a |}.

Lemma sample_service_made cfg a :
  enabled cfg = true ->
  make_security_interceptor sample_detectors (Some cfg) true a None = Ok (Some (sample_service cfg a, None)).
Proof. simpl. by intros ->. Qed.

Definition fresh_state : SecState :=
  {| tracker := None; audit_log := {| _max_entries := 10; _entries := []; _total_recorded := 0 |}; approvals := [] |}.

Definition outcome_of {A} (r : result Raised A * SecState) : result Raised A := fst r.

Example supervised_push_escalates :
  match outcome_of (evaluate_pre_tool (sample_service default_security_config supervised) calm_world
    (call SecurityModel.ToolCategory.VERSION_CONTROL "git_push" "vcs:push" []) fresh_state) with
  | Ok v => verdict v = SecurityModel.SecurityVerdictType.ESCALATE /\ approval_id v = Some "approval-1"%string
  | Err _ => False
  end.
Proof. vm_compute. split; reflexivity. Qed.

(** A high-risk action that no list of the preset names is allowed without
    asking anyone. *)
Lemma unlisted_action_allowed :
  classify DEFAULT_RISK_MAP "external_data:request" = SecurityModel.ApprovalRiskLevel.HIGH /\
  match outcome_of (evaluate_pre_tool (sample_service default_security_config supervised) calm_world
    (call SecurityModel.ToolCategory.EXTERNAL_DATA "external_api" "external_data:request" []) fresh_state) with
  | Ok v => verdict v = SecurityModel.SecurityVerdictType.ALLOW
  | Err _ => False
  end.
Proof. vm_compute. split; reflexivity. Qed.

(** In shadow mode the call runs and its approval item waits all the same. *)
Lemma shadow_mode_queues :
  let '(r, s) := evaluate_pre_tool (sample_service
      (with_mode SecurityModel.SecurityEnforcementMode.SHADOW default_security_config) supervised) calm_world
    (call SecurityModel.ToolCategory.VERSION_CONTROL "git_push" "vcs:push" []) fresh_state in
  match r with
  | Ok v => verdict v = SecurityModel.SecurityVerdictType.ALLOW
  | Err _ => False
  end /\ (item_status <$> approvals s) = [ApprovalStatus.PENDING].
Proof. vm_compute. split; reflexivity. Qed.

(** A BLOCKED classification that is not rejected counts as a success. *)
Lemma unrejected_block_resets (t : DenialTracker) (s : SecState) (context : SecurityContext) (md : Metadata) :
  tracker s = Some t ->
  (_process_classification {| safety_enabled := true; auto_reject_blocked := false; max_consecutive_denials := 3;
      max_total_denials := 20; safe_tool_categories := [] |} SecurityModel.SafetyClassification.BLOCKED context md s).2 =
    with_tracker s (Some (reset_consecutive t (or_str (agent_id context) "unknown"))).
Proof. intros Ht. unfold _process_classification. simpl. by rewrite Ht. Qed.

Lemma call_allowed_exact_witness :
  exists v s', evaluate_pre_tool (sample_service default_security_config supervised) calm_world
    (call SecurityModel.ToolCategory.FILE_SYSTEM "write_file" "code:write" [("path", Arg_str "main.py")]%string)
    fresh_state = (Ok v, s') /\ verdict v = SecurityModel.SecurityVerdictType.ALLOW /\
  action_type (call SecurityModel.ToolCategory.FILE_SYSTEM "write_file" "code:write"
    [("path", Arg_str "main.py")]%string) ∉ hard_deny_action_types default_security_config.
Proof.
  destruct (evaluate_pre_tool (sample_service default_security_config supervised) calm_world
    (call SecurityModel.ToolCategory.FILE_SYSTEM "write_file" "code:write" [("path", Arg_str "main.py")]%string)
    fresh_state) as [r s'] eqn:E.
  destruct r as [v|e]; [|exfalso; assert (H : is_ok (outcome_of (evaluate_pre_tool (sample_service default_security_config supervised)
    calm_world (call SecurityModel.ToolCategory.FILE_SYSTEM "write_file" "code:write" [("path", Arg_str "main.py")]%string)
    fresh_state)) = true) by (vm_compute; reflexivity); rewrite E in H; discriminate H].
  assert (Hv : match outcome_of (evaluate_pre_tool (sample_service default_security_config supervised) calm_world
    (call SecurityModel.ToolCategory.FILE_SYSTEM "write_file" "code:write" [("path", Arg_str "main.py")]%string)
    fresh_state) with Ok v => verdict v | Err _ => SecurityModel.SecurityVerdictType.DENY end =
    SecurityModel.SecurityVerdictType.ALLOW) by (vm_compute; reflexivity).
  rewrite E in Hv. exists v, s'. split; [reflexivity|]. split; [exact Hv|].
  exact (proj1 (proj1 (call_allowed_exact sample_detectors default_security_config true supervised None _ None
    sample_objects_only default_config_valid (sample_service_made default_security_config supervised eq_refl) eq_refl
    calm_world _ fresh_state s' v E) Hv)).
Defined.

Lemma evaluation_recorded_witness :
  exists v s', evaluate_pre_tool (sample_service default_security_config supervised) calm_world
    (call SecurityModel.ToolCategory.VERSION_CONTROL "git_push" "vcs:push" []) fresh_state = (Ok v, s') /\
  approval_id v = Some "approval-1"%string.
Proof.
  destruct (evaluate_pre_tool (sample_service default_security_config supervised) calm_world
    (call SecurityModel.ToolCategory.VERSION_CONTROL "git_push" "vcs:push" []) fresh_state) as [r s'] eqn:E.
  pose proof supervised_push_escalates as Hv. unfold outcome_of in Hv. rewrite E in Hv. destruct r as [v|]; [|destruct Hv].
  exists v, s'. split; [reflexivity|].
  destruct (evaluation_recorded sample_detectors default_security_config true supervised None _ None
    (sample_service_made default_security_config supervised eq_refl) calm_world _ fresh_state s' v E)
    as (decided & _ & Hv' & _ & Hesc & _). rewrite (Hv' ltac:(discriminate)) in *. apply (Hesc (proj1 Hv)).
Defined.

(** A world whose gauge dies of memory. *)
Definition dying_world : World := {|
  approval_uuid := "approval-1"; entry_uuid := "entry-1"; now := 0; _hash_arguments := fun _ => Ok "hash"%string;
  _resolve_binding := Ok false; complete := fun _ => Timeout_error; classify_answer := fun _ _ _ _ => Err Ordinary;
  check_answer := fun _ => Err Ordinary; add_answer := fun _ => Ok tt; metrics_answer := Err Critical |}%string.

Lemma evaluation_ends_in_verdict_witness :
  exists e s', evaluate_pre_tool (sample_service default_security_config supervised) dying_world
    (call SecurityModel.ToolCategory.VERSION_CONTROL "git_push" "vcs:push" []) fresh_state = (Err e, s') /\ e <> Ordinary.
Proof.
  destruct (evaluate_pre_tool (sample_service default_security_config supervised) dying_world
    (call SecurityModel.ToolCategory.VERSION_CONTROL "git_push" "vcs:push" []) fresh_state) as [r s'] eqn:E.
  destruct r as [v|e].
  { exfalso. assert (H : is_ok (outcome_of (evaluate_pre_tool (sample_service default_security_config supervised) dying_world
      (call SecurityModel.ToolCategory.VERSION_CONTROL "git_push" "vcs:push" []) fresh_state)) = false)
      by (vm_compute; reflexivity). rewrite E in H. discriminate H. }
  exists e, s'. split; [reflexivity|].
  eapply (evaluation_ends_in_verdict sample_detectors default_security_config true supervised None _ None dying_world _ fresh_state s' e
    (sample_service_made default_security_config supervised eq_refl)); [|intros r at_ tn risk a [=]|intros args e0 [=]|exact E].
  intros rule. rewrite !elem_of_cons, elem_of_nil. intros [->|[->|[->|[->|[]]]]] context v; simpl; intros H;
    try discriminate H.
  - by destruct (bool_decide _).
  - destruct (bool_decide _); [injection H as <-; reflexivity|discriminate H].
Defined.
