(* ===== verification/ToolPermissions.v ===== *)
(** * ToolPermissions

    Which tools an agent may call, and what they may do
    ([tools/permissions.py], [tools/sub_constraint_enforcer.py],
    [core/tool_constraints.py], the permissions of [core/agent.py]). Names
    are compared after [strip] and case folding, which is lower-casing on
    ASCII. *)

From stdpp Require Import gmap strings list.
From Stdlib Require Import Lia Ascii.
From S2P Require Import Prelude Autonomy SecurityModel SecurityRules.
#[local] Open Scope py_scope.
#[local] Open Scope nat_scope.
Import SecurityModel.ToolCategory (ToolCategory).
Import Autonomy.ActionType (action_type_value).

Module ToolAccessLevel.

Inductive ToolAccessLevel :=
| SANDBOXED | RESTRICTED | STANDARD | ELEVATED | CUSTOM.

#[export] Instance access_level_eq_dec : EqDecision ToolAccessLevel.
Proof. solve_decision. Defined.

Definition members : list ToolAccessLevel :=
  [SANDBOXED; RESTRICTED; STANDARD; ELEVATED; CUSTOM].

Lemma access_level_members_all s : s ∈ members.
Proof. revert s. enum_elem. Qed.

#[export] Instance access_level_countable : Countable ToolAccessLevel :=
  enum_countable members access_level_members_all.

Definition access_level_value (s : ToolAccessLevel) : string :=
  match s with
  | SANDBOXED => "sandboxed"
  | RESTRICTED => "restricted"
  | STANDARD => "standard"
  | ELEVATED => "elevated"
  | CUSTOM => "custom"
  end.

#[export] Instance access_level_value_inj : Inj (=) (=) access_level_value.
Proof. intros [] []; simpl; congruence. Qed.

End ToolAccessLevel.
Export (hints) ToolAccessLevel.

Module FileSystemScope.

Inductive FileSystemScope :=
| WORKSPACE_ONLY | PROJECT_DIRECTORY | FULL.

#[export] Instance fs_scope_eq_dec : EqDecision FileSystemScope.
Proof. solve_decision. Defined.

Definition members : list FileSystemScope :=
  [WORKSPACE_ONLY; PROJECT_DIRECTORY; FULL].

Lemma fs_scope_members_all s : s ∈ members.
Proof. revert s. enum_elem. Qed.

#[export] Instance fs_scope_countable : Countable FileSystemScope :=
  enum_countable members fs_scope_members_all.

Definition fs_scope_value (s : FileSystemScope) : string :=
  match s with
  | WORKSPACE_ONLY => "workspace_only"
  | PROJECT_DIRECTORY => "project_directory"
  | FULL => "full"
  end.

#[export] Instance fs_scope_value_inj : Inj (=) (=) fs_scope_value.
Proof. intros [] []; simpl; congruence. Qed.

End FileSystemScope.
Export (hints) FileSystemScope.

Module NetworkMode.

Inductive NetworkMode :=
| NONE | ALLOWLIST_ONLY | OPEN.

#[export] Instance network_mode_eq_dec : EqDecision NetworkMode.
Proof. solve_decision. Defined.

Definition members : list NetworkMode :=
  [NONE; ALLOWLIST_ONLY; OPEN].

Lemma network_mode_members_all s : s ∈ members.
Proof. revert s. enum_elem. Qed.

#[export] Instance network_mode_countable : Countable NetworkMode :=
  enum_countable members network_mode_members_all.

Definition network_mode_value (s : NetworkMode) : string :=
  match s with
  | NONE => "none"
  | ALLOWLIST_ONLY => "allowlist_only"
  | OPEN => "open"
  end.

#[export] Instance network_mode_value_inj : Inj (=) (=) network_mode_value.
Proof. intros [] []; simpl; congruence. Qed.

End NetworkMode.
Export (hints) NetworkMode.

Module GitAccess.

Inductive GitAccess :=
| LOCAL_ONLY | READ_AND_BRANCH | FULL.

#[export] Instance git_access_eq_dec : EqDecision GitAccess.
Proof. solve_decision. Defined.

Definition members : list GitAccess :=
  [LOCAL_ONLY; READ_AND_BRANCH; FULL].

Lemma git_access_members_all s : s ∈ members.
Proof. revert s. enum_elem. Qed.

#[export] Instance git_access_countable : Countable GitAccess :=
  enum_countable members git_access_members_all.

Definition git_access_value (s : GitAccess) : string :=
  match s with
  | LOCAL_ONLY => "local_only"
  | READ_AND_BRANCH => "read_and_branch"
  | FULL => "full"
  end.

#[export] Instance git_access_value_inj : Inj (=) (=) git_access_value.
Proof. intros [] []; simpl; congruence. Qed.

End GitAccess.
Export (hints) GitAccess.

Module CodeExecutionIsolation.

Inductive CodeExecutionIsolation :=
| CONTAINERIZED | PROCESS.

#[export] Instance code_isolation_eq_dec : EqDecision CodeExecutionIsolation.
Proof. solve_decision. Defined.

Definition members : list CodeExecutionIsolation :=
  [CONTAINERIZED; PROCESS].

Lemma code_isolation_members_all s : s ∈ members.
Proof. revert s. enum_elem. Qed.

#[export] Instance code_isolation_countable : Countable CodeExecutionIsolation :=
  enum_countable members code_isolation_members_all.

Definition code_isolation_value (s : CodeExecutionIsolation) : string :=
  match s with
  | CONTAINERIZED => "containerized"
  | PROCESS => "process"
  end.

#[export] Instance code_isolation_value_inj : Inj (=) (=) code_isolation_value.
Proof. intros [] []; simpl; congruence. Qed.

End CodeExecutionIsolation.
Export (hints) CodeExecutionIsolation.

Module TerminalAccess.

Inductive TerminalAccess :=
| NONE | RESTRICTED_COMMANDS | FULL.

#[export] Instance terminal_access_eq_dec : EqDecision TerminalAccess.
Proof. solve_decision. Defined.

Definition members : list TerminalAccess :=
  [NONE; RESTRICTED_COMMANDS; FULL].

Lemma terminal_access_members_all s : s ∈ members.
Proof. revert s. enum_elem. Qed.

#[export] Instance terminal_access_countable : Countable TerminalAccess :=
  enum_countable members terminal_access_members_all.

Definition terminal_access_value (s : TerminalAccess) : string :=
  match s with
  | NONE => "none"
  | RESTRICTED_COMMANDS => "restricted_commands"
  | FULL => "full"
  end.

#[export] Instance terminal_access_value_inj : Inj (=) (=) terminal_access_value.
Proof. intros [] []; simpl; congruence. Qed.

End TerminalAccess.
Export (hints) TerminalAccess.

Import ToolAccessLevel (ToolAccessLevel).
Import FileSystemScope (FileSystemScope).
Import NetworkMode (NetworkMode).
Import GitAccess (GitAccess).
Import CodeExecutionIsolation (CodeExecutionIsolation).
Import TerminalAccess (TerminalAccess).

Definition normalize_identifier (value : string) : string := lower_text (strip value).

(** ** Sub-constraints *)

Record ToolSubConstraints := {
  file_system : FileSystemScope;
  network : NetworkMode;
  git : GitAccess;
  code_execution : CodeExecutionIsolation;
  terminal : TerminalAccess;
  requires_approval_for : list string;
  network_allowlist : list string;
}.

(** The fields a caller set, as [model_dump(exclude_unset=True)] gives them. *)
Record SetFields := {
  set_file_system : option FileSystemScope;
  set_network : option NetworkMode;
  set_git : option GitAccess;
  set_code_execution : option CodeExecutionIsolation;
  set_terminal : option TerminalAccess;
  set_requires_approval : option (list string);
  set_network_allowlist : option (list string);
}.

Definition default_constraints : ToolSubConstraints := {|
  file_system := FileSystemScope.PROJECT_DIRECTORY; network := NetworkMode.OPEN; git := GitAccess.FULL;
  code_execution := CodeExecutionIsolation.CONTAINERIZED; terminal := TerminalAccess.RESTRICTED_COMMANDS;
  requires_approval_for := []; network_allowlist := [] |}.

(** The set fields over a base. *)
Definition overlay (base : ToolSubConstraints) (o : SetFields) : ToolSubConstraints := {|
  file_system := default (file_system base) (set_file_system o);
  network := default (network base) (set_network o);
  git := default (git base) (set_git o);
  code_execution := default (code_execution base) (set_code_execution o);
  terminal := default (terminal base) (set_terminal o);
  requires_approval_for := default (requires_approval_for base) (set_requires_approval o);
  network_allowlist := default (network_allowlist base) (set_network_allowlist o) |}.

Definition _LEVEL_SUB_CONSTRAINTS (l : ToolAccessLevel) : option ToolSubConstraints :=
  match l with
  | ToolAccessLevel.SANDBOXED => Some {|
      file_system := FileSystemScope.WORKSPACE_ONLY; network := NetworkMode.NONE; git := GitAccess.LOCAL_ONLY;
      code_execution := CodeExecutionIsolation.CONTAINERIZED; terminal := TerminalAccess.NONE;
      requires_approval_for := []; network_allowlist := [] |}
  | ToolAccessLevel.RESTRICTED => Some {|
      file_system := FileSystemScope.PROJECT_DIRECTORY; network := NetworkMode.ALLOWLIST_ONLY;
      git := GitAccess.READ_AND_BRANCH; code_execution := CodeExecutionIsolation.CONTAINERIZED;
      terminal := TerminalAccess.NONE; requires_approval_for := ["deploy:"; "publish:"; "db:mutate"]%string;
      network_allowlist := [] |}
  | ToolAccessLevel.STANDARD => Some {|
      file_system := FileSystemScope.PROJECT_DIRECTORY; network := NetworkMode.OPEN; git := GitAccess.FULL;
      code_execution := CodeExecutionIsolation.CONTAINERIZED; terminal := TerminalAccess.RESTRICTED_COMMANDS;
      requires_approval_for := []; network_allowlist := [] |}
  | ToolAccessLevel.ELEVATED => Some {|
      file_system := FileSystemScope.FULL; network := NetworkMode.OPEN; git := GitAccess.FULL;
      code_execution := CodeExecutionIsolation.CONTAINERIZED; terminal := TerminalAccess.FULL;
      requires_approval_for := []; network_allowlist := [] |}
  | ToolAccessLevel.CUSTOM => None
  end.

Inductive ConstraintError := Custom_needs_constraints | No_defaults (l : ToolAccessLevel).

Definition get_sub_constraints (l : ToolAccessLevel) (custom_constraints : option SetFields)
    : result ConstraintError ToolSubConstraints :=
  match custom_constraints with
  | Some o =>
      if decide (l = ToolAccessLevel.CUSTOM) then Ok (overlay default_constraints o)
      else Ok (overlay (default default_constraints (_LEVEL_SUB_CONSTRAINTS l)) o)
  | None =>
      if decide (l = ToolAccessLevel.CUSTOM) then Err Custom_needs_constraints
      else match _LEVEL_SUB_CONSTRAINTS l with
        | Some c => Ok c
        | None => Err (No_defaults l)
        end
  end.

(** ** The enforcer *)

Inductive Dimension := Network | Terminal | Git_push (a : GitAccess) | Git_clone | Requires_approval.

(** The dimension stands for the constraint's name and its reason; only the
    last asks for approval. *)
Record SubConstraintViolation := { violated : Dimension; violation_requires_approval : bool }.

Definition _GIT_PUSH_ACTIONS : list string := [action_type_value Autonomy.ActionType.VCS_PUSH].
Definition _GIT_CLONE_TOOL_NAMES : list string := ["git_clone"%string].
Definition _NETWORK_ACTION_TYPES : list string := action_type_value <$>
  [Autonomy.ActionType.COMMS_EXTERNAL; Autonomy.ActionType.EXTERNAL_DATA_REQUEST;
   Autonomy.ActionType.DEPLOY_STAGING; Autonomy.ActionType.DEPLOY_PRODUCTION;
   Autonomy.ActionType.PUBLISH_STAGING; Autonomy.ActionType.PUBLISH_PRODUCTION].

Definition denies (d : Dimension) : option SubConstraintViolation :=
  Some {| violated := d; violation_requires_approval := false |}.

Definition _check_network (c : ToolSubConstraints) (tool_name action_type : string) : option SubConstraintViolation :=
  if negb (bool_decide (network c = NetworkMode.NONE)) then None
  else if bool_decide (action_type ∈ _NETWORK_ACTION_TYPES) || bool_decide (tool_name ∈ _GIT_CLONE_TOOL_NAMES)
  then denies Network else None.

Definition _check_terminal (c : ToolSubConstraints) (category : ToolCategory) : option SubConstraintViolation :=
  if bool_decide (terminal c = TerminalAccess.NONE) && bool_decide (category = SecurityModel.ToolCategory.TERMINAL)
  then denies Terminal else None.

Definition _check_git (c : ToolSubConstraints) (tool_name action_type : string) : option SubConstraintViolation :=
  match git c with
  | GitAccess.FULL => None
  | GitAccess.LOCAL_ONLY =>
      if decide (action_type ∈ _GIT_PUSH_ACTIONS) then denies (Git_push GitAccess.LOCAL_ONLY)
      else if decide (tool_name ∈ _GIT_CLONE_TOOL_NAMES) then denies Git_clone else None
  | GitAccess.READ_AND_BRANCH =>
      if decide (action_type ∈ _GIT_PUSH_ACTIONS) then denies (Git_push GitAccess.READ_AND_BRANCH) else None
  end.

Definition _check_requires_approval (c : ToolSubConstraints) (action_type : string) : option SubConstraintViolation :=
  match find (fun prefix => startswith prefix action_type) (requires_approval_for c) with
  | Some _ => Some {| violated := Requires_approval; violation_requires_approval := true |}
  | None => None
  end.

(** The first violation, in the order of the checks. *)
Definition enforcer_check (c : ToolSubConstraints) (tool_name : string) (category : ToolCategory) (action_type : string)
    : option SubConstraintViolation :=
  match _check_network c tool_name action_type with
  | Some v => Some v
  | None => match _check_terminal c category with
    | Some v => Some v
    | None => match _check_git c tool_name action_type with
      | Some v => Some v
      | None => _check_requires_approval c action_type
      end
    end
  end.

(** ** The checker *)

Definition _LEVEL_CATEGORIES (l : ToolAccessLevel) : list ToolCategory :=
  match l with
  | ToolAccessLevel.SANDBOXED =>
      [SecurityModel.ToolCategory.FILE_SYSTEM; SecurityModel.ToolCategory.CODE_EXECUTION;
       SecurityModel.ToolCategory.VERSION_CONTROL; SecurityModel.ToolCategory.MEMORY]
  | ToolAccessLevel.RESTRICTED =>
      [SecurityModel.ToolCategory.FILE_SYSTEM; SecurityModel.ToolCategory.CODE_EXECUTION;
       SecurityModel.ToolCategory.VERSION_CONTROL; SecurityModel.ToolCategory.WEB; SecurityModel.ToolCategory.MEMORY]
  | ToolAccessLevel.STANDARD =>
      [SecurityModel.ToolCategory.FILE_SYSTEM; SecurityModel.ToolCategory.CODE_EXECUTION;
       SecurityModel.ToolCategory.VERSION_CONTROL; SecurityModel.ToolCategory.WEB;
       SecurityModel.ToolCategory.TERMINAL; SecurityModel.ToolCategory.ANALYTICS; SecurityModel.ToolCategory.MEMORY;
       SecurityModel.ToolCategory.BROWSER; SecurityModel.ToolCategory.EXTERNAL_DATA;
       SecurityModel.ToolCategory.DESKTOP]
  | ToolAccessLevel.ELEVATED => SecurityModel.ToolCategory.members
  | ToolAccessLevel.CUSTOM => []
  end.

Record ToolPermissionChecker := {
  _access_level : ToolAccessLevel;
  _allowed : gset string;
  _denied : gset string;
  _denied_categories : list ToolCategory;
  _sub_enforcer : option ToolSubConstraints;
}.

Record ToolPermissions := {
  access_level : ToolAccessLevel;
  allowed : list string;
  denied : list string;
  denied_categories : list ToolCategory;
  sub_constraints : option SetFields;
}.

Inductive PermissionError := Allowed_and_denied | Constraints (e : ConstraintError).

(** [_validate_no_overlap]. *)
Definition new_permissions (p : ToolPermissions) : result PermissionError ToolPermissions :=
  ensure bool_decide ((list_to_set (normalize_identifier <$> allowed p) : gset string) ∩
    list_to_set (normalize_identifier <$> denied p) = ∅) else Allowed_and_denied in
  Ok p.

Definition from_permissions (p : ToolPermissions) : result PermissionError ToolPermissionChecker :=
  let* enforcer :=
    if bool_decide (access_level p = ToolAccessLevel.CUSTOM) && negb (bool_decide (is_Some (sub_constraints p)))
    then Ok None
    else match get_sub_constraints (access_level p) (sub_constraints p) with
      | Ok c => Ok (Some c)
      | Err e => Err (Constraints e)
      end in
  Ok {| _access_level := access_level p; _allowed := list_to_set (normalize_identifier <$> allowed p);
    _denied := list_to_set (normalize_identifier <$> denied p); _denied_categories := denied_categories p;
    _sub_enforcer := enforcer |}.

Definition is_permitted (c : ToolPermissionChecker) (tool_name : string) (category : ToolCategory) : bool :=
  let name_lower := normalize_identifier tool_name in
  if decide (name_lower ∈ _denied c) then false
  else if decide (name_lower ∈ _allowed c) then true
  else if decide (category ∈ _denied_categories c) then false
  else if decide (_access_level c = ToolAccessLevel.CUSTOM) then false
  else bool_decide (category ∈ _LEVEL_CATEGORIES (_access_level c)).

Inductive DenialReason :=
| Explicitly_denied (tool_name : string)
| Category_denied (category : ToolCategory)
| Not_in_allowed_list (tool_name : string)
| Not_at_level (category : ToolCategory) (l : ToolAccessLevel).

Definition denial_reason (c : ToolPermissionChecker) (tool_name : string) (category : ToolCategory) : DenialReason :=
  if decide (normalize_identifier tool_name ∈ _denied c) then Explicitly_denied tool_name
  else if decide (category ∈ _denied_categories c) then Category_denied category
  else if decide (_access_level c = ToolAccessLevel.CUSTOM) then Not_in_allowed_list tool_name
  else Not_at_level category (_access_level c).

Definition check_sub_constraints (c : ToolPermissionChecker) (tool_name : string) (category : ToolCategory)
    (action_type : string) : option SubConstraintViolation :=
  match _sub_enforcer c with
  | None => None
  | Some constraints => enforcer_check constraints tool_name category action_type
  end.

(** ** What a level gives *)

(** Where a level stands in the hierarchy; [CUSTOM] is outside it. *)
Definition level_rank (l : ToolAccessLevel) : option nat :=
  match l with
  | ToolAccessLevel.SANDBOXED => Some 0
  | ToolAccessLevel.RESTRICTED => Some 1
  | ToolAccessLevel.STANDARD => Some 2
  | ToolAccessLevel.ELEVATED => Some 3
  | ToolAccessLevel.CUSTOM => None
  end.

Lemma level_categories_nested l l' m n cat :
  level_rank l = Some m -> level_rank l' = Some n -> m <= n -> cat ∈ _LEVEL_CATEGORIES l -> cat ∈ _LEVEL_CATEGORIES l'.
Proof.
  intros Hl Hl' Hmn. assert (H : bool_decide (cat ∈ _LEVEL_CATEGORIES l) = true -> bool_decide (cat ∈ _LEVEL_CATEGORIES l') = true).
  { destruct l, l'; simpl in Hl, Hl'; inv_result; try lia; destruct cat; vm_compute; congruence. }
  intros Hc. by apply (bool_decide_eq_true_1 _), H, bool_decide_eq_true_2.
Qed.

(** The permissions of another level with the same lists. *)
Definition at_level (l : ToolAccessLevel) (p : ToolPermissions) : ToolPermissions := {|
  access_level := l; allowed := allowed p; denied := denied p; denied_categories := denied_categories p;
  sub_constraints := sub_constraints p |}.

Lemma checker_lists p c :
  from_permissions p = Ok c ->
  _access_level c = access_level p /\ _denied_categories c = denied_categories p /\
  (forall n, n ∈ _allowed c <-> n ∈ normalize_identifier <$> allowed p) /\
  (forall n, n ∈ _denied c <-> n ∈ normalize_identifier <$> denied p).
Proof.
  unfold from_permissions. intros H. apply rbind_ok in H as (e & _ & H). inv_result. simpl.
  split; [done|]. split; [done|]. split; intros n; apply elem_of_list_to_set.
Qed.

(** An agent may call a tool exactly when the tool's name is on its
    allowed list, or neither the name nor the category is withheld and the
    access level grants the category; names are compared without regard to
    case and surrounding space; a withheld name is never permitted; and with
    the same lists a higher level of the hierarchy permits at least what a
    lower one does. *)
Theorem tool_permission_exact (p : ToolPermissions) (c : ToolPermissionChecker) :
  new_permissions p = Ok p -> from_permissions p = Ok c ->
  (forall name category, is_permitted c name category = true <->
     normalize_identifier name ∈ normalize_identifier <$> allowed p \/
     (normalize_identifier name ∉ normalize_identifier <$> denied p /\ category ∉ denied_categories p /\
      category ∈ _LEVEL_CATEGORIES (access_level p))) /\
  (forall name category, normalize_identifier name ∈ normalize_identifier <$> denied p ->
     is_permitted c name category = false) /\
  (forall l c' m n name category, from_permissions (at_level l p) = Ok c' ->
     level_rank (access_level p) = Some m -> level_rank l = Some n -> m <= n ->
     is_permitted c name category = true -> is_permitted c' name category = true).
Proof.
  intros Hp Hc.
  assert (Hdisj : forall n, n ∈ normalize_identifier <$> allowed p -> n ∉ normalize_identifier <$> denied p).
  { unfold new_permissions in Hp. apply ensure_ok in Hp as [Hd%bool_decide_eq_true _]. intros n Ha Hn.
    apply (not_elem_of_empty (C:=gset string) n). rewrite <-Hd. apply elem_of_intersection.
    split; by apply elem_of_list_to_set. }
  assert (Hexact : forall q d, from_permissions q = Ok d -> allowed q = allowed p -> denied q = denied p ->
    denied_categories q = denied_categories p -> forall name category, is_permitted d name category = true <->
     normalize_identifier name ∈ normalize_identifier <$> allowed p \/
     (normalize_identifier name ∉ normalize_identifier <$> denied p /\ category ∉ denied_categories p /\
      category ∈ _LEVEL_CATEGORIES (access_level q))).
  { intros q d Hq E1 E2 E3 name category. destruct (checker_lists q d Hq) as (H1 & H2 & H3 & H4).
    unfold is_permitted. rewrite H1, H2, E3. destruct (decide (normalize_identifier name ∈ _denied d)) as [Hn|Hn].
    { apply H4 in Hn. rewrite E2 in Hn. split; [done|]. intros [Ha|[? _]]; [by apply Hdisj in Ha|done]. }
    rewrite H4, E2 in Hn. destruct (decide (normalize_identifier name ∈ _allowed d)) as [Ha|Ha];
      rewrite H3, E1 in Ha; [tauto|].
    destruct (decide (category ∈ denied_categories p)); [split; [done|tauto]|].
    destruct (decide (access_level q = ToolAccessLevel.CUSTOM)) as [->|].
    - simpl. rewrite elem_of_nil. split; [done|tauto].
    - rewrite bool_decide_eq_true. tauto. }
  split; [by apply Hexact|]. split.
  - intros name category Hn. apply not_true_iff_false. rewrite (Hexact p c) by done.
    intros [Ha|[? _]]; [by apply Hdisj in Ha|done].
  - intros l c' m n name category Hc' Hm Hn Hmn. rewrite (Hexact p c), (Hexact (at_level l p) c') by done.
    intros [?|(? & ? & ?)]; [by left|]. right. split; [done|]. split; [done|].
    by eapply (level_categories_nested _ _ m n).
Qed.

Definition sample_permissions : ToolPermissions := {|
  access_level := ToolAccessLevel.SANDBOXED; allowed := ["DB_Migrate "%string]; denied := ["git_push"%string];
  denied_categories := []; sub_constraints := None |}.

(** An allowed database tool runs in the sandbox unasked; one level up it
    needs an approval. *)
Example sandbox_asks_less :
  match from_permissions sample_permissions, from_permissions (at_level ToolAccessLevel.RESTRICTED sample_permissions) with
  | Ok low, Ok high =>
      is_permitted low "db_migrate" SecurityModel.ToolCategory.DATABASE = true /\
      check_sub_constraints low "db_migrate" SecurityModel.ToolCategory.DATABASE "db:mutate" = None /\
      check_sub_constraints high "db_migrate" SecurityModel.ToolCategory.DATABASE "db:mutate" =
        Some {| violated := Requires_approval; violation_requires_approval := true |}
  | _, _ => False
  end.
Proof. vm_compute. repeat split. Qed.

Lemma tool_permission_exact_witness :
  exists c, from_permissions sample_permissions = Ok c /\
    is_permitted c " Git_Push" SecurityModel.ToolCategory.VERSION_CONTROL = false.
Proof.
  eexists. split; [reflexivity|].
  apply (tool_permission_exact sample_permissions); [vm_compute; reflexivity|reflexivity|].
  apply (bool_decide_unpack _). vm_compute. exact I.
Defined.
