(* ===== verification/ToolInvoker.v ===== *)
(** * ToolInvoker

    What one tool call goes through ([tools/invoker.py] with its validation
    mixin and the recording bridge): lookup, permission, sub-constraints,
    transport fault, parameters, security, policy, execution, HTML guard,
    parking, output scan.

    The invoker is written against an interception strategy, the protocol of
    [security/protocol.py]; the security service is an instance. What the
    tool, the schema validator, the policy engine and the HTML parser answer
    to a call is its [CallWorld]. Batches of calls are in [ToolBatch]. *)

From stdpp Require Import gmap strings list.
From Stdlib Require Import Lia ZArith Ascii.
From S2P Require Import Prelude SecurityModel SecurityRules OutputScan SecOps SecOpsProofs ToolPermissions.
#[local] Open Scope py_scope.
#[local] Open Scope nat_scope.
Import SecurityModel.ApprovalRiskLevel (ApprovalRiskLevel, risk_level_value).
Import SecurityModel.ToolCategory (ToolCategory).

(** ** The interception protocol *)

Class SecurityInterceptionStrategy (S : Type) := {
  pre_tool : SecurityContext -> S -> result Raised SecurityVerdict * S;
  post_tool : SecurityContext -> string -> S -> result Raised OutputScanResult * S;
}.

(** An interceptor that escalates has queued an approval for the call. *)
Class ParksEscalations (S : Type) `{SecurityInterceptionStrategy S} (queue : S -> list ApprovalItem) := {
  escalation_queued context s v s' :
    pre_tool context s = (Ok v, s') -> verdict v = SecurityModel.SecurityVerdictType.ESCALATE ->
    exists item, queue s' = queue s ++ [item] /\ approval_id v = Some (item_id item) /\
      item_status item = SecOps.ApprovalStatus.PENDING /\ item_action_type item = action_type context /\
      item_risk_level item = risk_level v;
}.

(** The security service; each request meets the next world. *)
Definition in_next_world {A} (ws : nat -> World) (m : World -> M A) (s : SecState * nat)
    : result Raised A * (SecState * nat) :=
  let '(r, s') := m (ws (snd s)) (fst s) in (r, (s', S (snd s))).

Definition secops_strategy (svc : SecOpsService) (patterns : list Pattern) (ws : nat -> World)
    : SecurityInterceptionStrategy (SecState * nat) := {|
  pre_tool := fun context => in_next_world ws (fun w => evaluate_pre_tool svc w context);
  post_tool := fun context output => in_next_world ws (fun w => scan_output svc patterns w context output);
|}.

(** ** Calls and results *)

Record ToolCall := { call_id : string; call_name : string; call_arguments : list (string * Arg) }.

Record BaseTool := { base_name : string; base_category : ToolCategory; base_action_type : string }.

Inductive Message :=
| Not_registered (name : string)
| Permission_denied (why : DenialReason)
| Uncopyable_arguments
| Sub_constraint_escalation (v : SubConstraintViolation) (approval : string)
| Sub_constraint_denied (v : SubConstraintViolation)
| Transport_check_failed
| Transport_fault (fault : string)
| Parameters_refused (detail : string)
| Validation_failed
| Security_failed
| Escalation_unattributable
| Security_escalation (r : Reason) (approval : string)
| Security_denied (r : Reason)
| Policy_failed
| Policy_denied (r : string)
| Execution_failed
| Parking_without_approval
| Parking_untracked
| Html_withheld
| Scan_failed
| Output (c : Content)
| Not_run_pending_approval.

Record ToolResult := {
  tool_call_id : string;
  content : Message;
  is_error : bool;
  is_timeout : bool;
  is_unresolved : bool;
}.

(** [_validate_timeout_implies_error]. *)
Definition result_ok (r : ToolResult) : bool :=
  (is_error r || negb (is_timeout r)) && (is_error r || negb (is_unresolved r)) && negb (is_timeout r && is_unresolved r).

Definition error_result (call : ToolCall) (m : Message) : ToolResult :=
  {| tool_call_id := call_id call; content := m; is_error := true; is_timeout := false; is_unresolved := false |}.

(** The keys of a result's metadata that the invoker reads. *)
Record ExecMetadata := {
  requires_parking : bool;
  parking_approval_id : option string;
  parking_risk_level : option string;
  parking_action_type : option string;
  clarification : bool;
  timed_out : bool;
}.

Inductive EscalationReason :=
| Constraint_reason (v : SubConstraintViolation)
| Security_reason (r : Reason)
| Agent_requested_approval
| Agent_requested_clarification.

Record EscalationInfo := {
  esc_approval_id : string;
  esc_tool_call_id : string;
  esc_tool_name : string;
  esc_action_type : string;
  esc_risk_level : ApprovalRiskLevel;
  esc_reason : EscalationReason;
  esc_clarification : bool;
}.

(** [_validate_params]: the raw arguments stand, or the validated or decoded
    ones replace them, or the call is refused. *)
Inductive ParamOutcome := Params_raw | Params_replaced | Params_refused (detail : string).

Record PolicyDecision := { policy_allow : bool; policy_reason : string }.

(** What a tool that ran returned: text, and its metadata. *)
Record ToolReply := { reply_text : string; reply_is_error : bool; reply_metadata : ExecMetadata }.

Record Guarded := { guard_rejected : bool; guard_content : string }.

(** The three deep copies of the arguments, the decoder, and the rest. *)
Record CallWorld := {
  constraint_copy : result Raised unit;
  fault_answer : result Raised (option string);
  decode_answer : result Raised unit;
  params_answer : result Raised ParamOutcome;
  context_copy : result Raised unit;
  policy_answer : result Raised PolicyDecision;
  execution_copy : result Raised unit;
  execute_answer : result Raised ToolReply;
  guard_tool_output : string -> result Raised Guarded;
  record_answer : result Raised unit;
}.

Record ToolInvoker := {
  _registry : gmap string BaseTool;
  _permission_checker : option ToolPermissionChecker;
  _security_interceptor : bool;
  _agent_id : option string;
  _task_id : option string;
  _agent_binding : option (string * string);
  _policy_engine : bool;
  _policy_enforces : bool;
}.

(** What the scanner reads in place of a refused page. *)
Definition _HTML_GUARD_WITHHELD : string :=
  "Tool output withheld: it looked like an HTML document and could not be judged safely (an external entity declaration, or markup the parser refused). Retry the read, or ask the operator if it persists.".

(** ** State *)

Section Pipeline.
Context {S : Type} `{SecurityInterceptionStrategy S}.

(** The interceptor's state, the escalations, and the calls whose tool was
    executed. *)
Record InvokerState := { interceptor : S; pending : list EscalationInfo; ran : list ToolCall }.

Inductive Exit := Raises (e : Raised) | Returns (r : ToolResult).

Definition Step (A : Type) : Type := InvokerState -> result Exit A * InvokerState.

Definition done_ {A} (a : A) : Step A := fun st => (Ok a, st).
Definition return_ {A} (call : ToolCall) (m : Message) : Step A := fun st => (Err (Returns (error_result call m)), st).
Definition then_ {A B} (m : Step A) (k : A -> Step B) : Step B := fun st =>
  match m st with
  | (Ok a, st) => k a st
  | (Err x, st) => (Err x, st)
  end.
Notation "'let?' x ':=' m 'in' k" := (then_ m (fun x => k))
  (at level 200, x name, m at level 100, k at level 200) : py_scope.

Definition append_pending (e : EscalationInfo) : Step unit := fun st =>
  (Ok tt, {| interceptor := interceptor st; pending := pending st ++ [e]; ran := ran st |}).

Definition mark_ran (call : ToolCall) : Step unit := fun st =>
  (Ok tt, {| interceptor := interceptor st; pending := pending st; ran := ran st ++ [call] |}).

(** An answer under [except Exception]: critical ones leave, ordinary ones
    end the call with a message. *)
Definition guarded {A} (call : ToolCall) (on_failure : Message) (r : result Raised A) : Step A := fun st =>
  match r with
  | Ok a => (Ok a, st)
  | Err e => if _contains_critical e then (Err (Raises e), st) else (Err (Returns (error_result call on_failure)), st)
  end.

(** ** The checks *)

(** No handler around it: whatever is raised leaves. *)
Definition unguarded {A} (r : result Raised A) : Step A := fun st =>
  match r with
  | Ok a => (Ok a, st)
  | Err e => (Err (Raises e), st)
  end.

Definition _lookup_tool (inv : ToolInvoker) (call : ToolCall) : Step BaseTool := fun st =>
  match _registry inv !! call_name call with
  | Some tool => (Ok tool, st)
  | None => (Err (Returns {| tool_call_id := call_id call; content := Not_registered (call_name call);
      is_error := true; is_timeout := false; is_unresolved := true |}), st)
  end.

Definition _check_permission (inv : ToolInvoker) (tool : BaseTool) (call : ToolCall) : Step unit :=
  match _permission_checker inv with
  | None => done_ tt
  | Some c =>
      if is_permitted c (base_name tool) (base_category tool) then done_ tt
      else return_ call (Permission_denied (denial_reason c (base_name tool) (base_category tool)))
  end.

Definition _safe_deepcopy_args (copy : result Raised unit) (call : ToolCall) : Step unit :=
  guarded call Uncopyable_arguments copy.

Definition sub_constraint_id (call : ToolCall) : string := String.append "sub-constraint-" (call_id call).

Definition _check_sub_constraints (inv : ToolInvoker) (w : CallWorld) (tool : BaseTool) (call : ToolCall) : Step unit :=
  match _permission_checker inv with
  | None => done_ tt
  | Some c =>
      let? _ := _safe_deepcopy_args (constraint_copy w) call in
      match check_sub_constraints c (base_name tool) (base_category tool) (base_action_type tool) with
      | None => done_ tt
      | Some v =>
          if violation_requires_approval v then
            let? _ := append_pending {| esc_approval_id := sub_constraint_id call; esc_tool_call_id := call_id call;
              esc_tool_name := call_name call; esc_action_type := base_action_type tool;
              esc_risk_level := SecurityModel.ApprovalRiskLevel.HIGH; esc_reason := Constraint_reason v;
              esc_clarification := false |} in
            return_ call (Sub_constraint_escalation v (sub_constraint_id call))
          else return_ call (Sub_constraint_denied v)
      end
  end.

Definition check_transport (w : CallWorld) (call : ToolCall) : Step unit :=
  let? fault := guarded call Transport_check_failed (fault_answer w) in
  match fault with
  | None => done_ tt
  | Some f => return_ call (Transport_fault f)
  end.

(** Whether the arguments were replaced. *)
Definition _validate_params (w : CallWorld) (call : ToolCall) : Step bool :=
  let? _ := unguarded (decode_answer w) in
  let? outcome := guarded call Validation_failed (params_answer w) in
  match outcome with
  | Params_raw => done_ false
  | Params_replaced => done_ true
  | Params_refused detail => return_ call (Parameters_refused detail)
  end.

Definition _build_security_context (inv : ToolInvoker) (w : CallWorld) (tool : BaseTool) (call : ToolCall)
    : result Raised SecurityContext :=
  let* _ := context_copy w in
  new_context {| tool_name := base_name tool; tool_category := base_category tool; action_type := base_action_type tool;
    arguments := call_arguments call; agent_id := _agent_id inv; task_id := _task_id inv;
    agent_provider_name := fst <$> _agent_binding inv; agent_model_id := snd <$> _agent_binding inv |}.

Definition run_interceptor {A} (call : ToolCall) (on_failure : Message) (m : S -> result Raised A * S) : Step A := fun st =>
  let '(r, s) := m (interceptor st) in
  guarded call on_failure r {| interceptor := s; pending := pending st; ran := ran st |}.

Definition visible_reason (v : SecurityVerdict) : Reason := default (reason v) (agent_visible_reason v).

(** The context when an interceptor is set and allowed the call. *)
Definition _check_security (inv : ToolInvoker) (w : CallWorld) (tool : BaseTool) (call : ToolCall)
    : Step (option SecurityContext) :=
  if negb (_security_interceptor inv) then done_ None
  else
    let? context := guarded call Security_failed (_build_security_context inv w tool call) in
    let? v := run_interceptor call Security_failed (pre_tool context) in
    match verdict v with
    | SecurityModel.SecurityVerdictType.ALLOW => done_ (Some context)
    | SecurityModel.SecurityVerdictType.ESCALATE =>
        match approval_id v with
        | None => return_ call Escalation_unattributable
        | Some id =>
            let? _ := append_pending {| esc_approval_id := id; esc_tool_call_id := call_id call;
              esc_tool_name := call_name call; esc_action_type := base_action_type tool;
              esc_risk_level := risk_level v; esc_reason := Security_reason (reason v); esc_clarification := false |} in
            return_ call (Security_escalation (visible_reason v) id)
        end
    | SecurityModel.SecurityVerdictType.DENY => return_ call (Security_denied (visible_reason v))
    end.

Definition _check_policy (inv : ToolInvoker) (w : CallWorld) (call : ToolCall) : Step unit :=
  if negb (_policy_engine inv) then done_ tt
  else
    match policy_answer w with
    | Err e =>
        if _contains_critical e then fun st => (Err (Raises e), st)
        else if _policy_enforces inv then return_ call Policy_failed else done_ tt
    | Ok decision =>
        if policy_allow decision then done_ tt
        else if _policy_enforces inv then return_ call (Policy_denied (policy_reason decision)) else done_ tt
    end.

(** Up to [tool.execute]. Replaced arguments are copied outside any handler. *)
Definition start_tool (w : CallWorld) (call : ToolCall) (replaced : bool) : Step unit :=
  let? _ := if replaced then unguarded (execution_copy w) else _safe_deepcopy_args (execution_copy w) call in
  mark_ran call.

Definition _execute_tool (w : CallWorld) (call : ToolCall) (replaced : bool) : Step ToolReply :=
  let? _ := start_tool w call replaced in
  guarded call Execution_failed (execute_answer w).

(** The content as a message and as text, and whether it is an error now. *)
Definition _apply_html_guard (w : CallWorld) (reply : ToolReply) : Step (Message * string * bool) :=
  if reply_is_error reply || bool_decide (reply_text reply = EmptyString)
  then done_ (Output (Raw (reply_text reply)), reply_text reply, reply_is_error reply)
  else
    let? g := unguarded (guard_tool_output w (reply_text reply)) in
    done_ (if guard_rejected g then (Html_withheld, _HTML_GUARD_WITHHELD, true)
      else (Output (Raw (guard_content g)), guard_content g, false)).

Definition risk_of (value : string) : option ApprovalRiskLevel :=
  find (fun r => bool_decide (risk_level_value r = value)) SecurityModel.ApprovalRiskLevel.members.

(** [not metadata.get("approval_id")], and the validators of the record. *)
Definition _track_parking_metadata (tool : BaseTool) (call : ToolCall) (md : ExecMetadata) : Step unit :=
  if negb (requires_parking md) then done_ tt
  else
    match parking_approval_id md with
    | None | Some EmptyString => return_ call Parking_without_approval
    | Some id =>
        let action := default (base_action_type tool) (parking_action_type md) in
        match risk_of (default "high"%string (parking_risk_level md)) with
        | Some risk =>
            if is_blank id || is_blank action then return_ call Parking_untracked
            else append_pending {| esc_approval_id := id; esc_tool_call_id := call_id call;
              esc_tool_name := base_name tool; esc_action_type := action; esc_risk_level := risk;
              esc_reason := if clarification md then Agent_requested_clarification else Agent_requested_approval;
              esc_clarification := clarification md |}
        | None => return_ call Parking_untracked
        end
    end.

(** A scan that fails withholds the output; the flag of a timeout stays. *)
Definition _scan_output (call : ToolCall) (context : SecurityContext) (text : string) (m : Message) (error : bool)
    : Step (Message * bool) := fun st =>
  match post_tool context text (interceptor st) with
  | (Ok r, s) =>
      (Ok (if has_sensitive_data r
           then let '(c, e) := handle_sensitive_scan error r in (Output c, e) else (m, error)),
       {| interceptor := s; pending := pending st; ran := ran st |})
  | (Err e, s) =>
      (if _contains_critical e then Err (Raises e) else Ok (Scan_failed, true),
       {| interceptor := s; pending := pending st; ran := ran st |})
  end.

Definition _build_result (call : ToolCall) (m : Message) (error timeout : bool) : ToolResult :=
  {| tool_call_id := call_id call; content := m; is_error := error || timeout; is_timeout := timeout;
     is_unresolved := false |}.

Definition pipeline (inv : ToolInvoker) (w : CallWorld) (call : ToolCall) : Step ToolResult :=
  let? tool := _lookup_tool inv call in
  let? _ := _check_permission inv tool call in
  let? _ := _check_sub_constraints inv w tool call in
  let? _ := check_transport w call in
  let? replaced := _validate_params w call in
  let? context := _check_security inv w tool call in
  let? _ := _check_policy inv w call in
  let? reply := _execute_tool w call replaced in
  let? guarded := _apply_html_guard w reply in
  let '(m, text, error) := guarded in
  let? _ := _track_parking_metadata tool call (reply_metadata reply) in
  let? out := match context with
    | Some context => _scan_output call context text m error
    | None => done_ (m, error)
    end in
  done_ (_build_result call (fst out) (snd out) (timed_out (reply_metadata reply))).

Definition _build_invocation_result (inv : ToolInvoker) (w : CallWorld) (call : ToolCall) (st : InvokerState)
    : result Raised ToolResult * InvokerState :=
  match pipeline inv w call st with
  | (Ok r, st) | (Err (Returns r), st) => (Ok r, st)
  | (Err (Raises e), st) => (Err e, st)
  end.

(** The bridge swallows ordinary failures of the tracker and the metrics. *)
Definition record_tool_invocation (w : CallWorld) (r : ToolResult) : result Raised ToolResult :=
  match record_answer w with
  | Err e => if _contains_critical e then Err e else Ok r
  | Ok _ => Ok r
  end.

Definition _invoke_single (inv : ToolInvoker) (w : CallWorld) (call : ToolCall) (st : InvokerState)
    : result Raised ToolResult * InvokerState :=
  match _build_invocation_result inv w call st with
  | (Ok r, st) => (record_tool_invocation w r, st)
  | (Err e, st) => (Err e, st)
  end.

(** [invoke]: the escalations are cleared first. *)
Definition invoke (inv : ToolInvoker) (w : CallWorld) (call : ToolCall) (st : InvokerState)
    : result Raised ToolResult * InvokerState :=
  _invoke_single inv w call {| interceptor := interceptor st; pending := []; ran := ran st |}.
End Pipeline.
Arguments InvokerState : clear implicits.

(** ** What a check may do *)

Section Outcomes.
Context {S : Type} `{SecurityInterceptionStrategy S}.
Implicit Types st : InvokerState S.

Lemma then_inv {A B} (m : Step A) (k : A -> Step B) st r st' :
  then_ m k st = (r, st') ->
  (exists a st1, m st = (Ok a, st1) /\ k a st1 = (r, st')) \/ (exists x, m st = (Err x, st') /\ r = Err x).
Proof. unfold then_. destruct (m st) as [[a|x] st1]; [eauto|]. intros [= <- <-]. eauto. Qed.

Definition refusal (call : ToolCall) (r : ToolResult) : Prop :=
  tool_call_id r = call_id call /\ is_error r = true /\ is_timeout r = false.

(** At most one escalation, and it is the call's. *)
Definition added (call : ToolCall) st st' (Q : EscalationInfo -> Prop) : Prop :=
  pending st' = pending st \/
  exists e, pending st' = pending st ++ [e] /\ esc_tool_call_id e = call_id call /\ Q e.

(** An escalation of the constraints or of the tool, not of the interceptor. *)
Definition not_security (e : EscalationInfo) : Prop := forall r, esc_reason e <> Security_reason r.

(** A security escalation repeats a verdict that names an approval. *)
Definition backed st st' (e : EscalationInfo) : Prop :=
  forall r, esc_reason e = Security_reason r ->
    exists context v, (pre_tool context (interceptor st) = (Ok v, interceptor st')) /\
      verdict v = SecurityModel.SecurityVerdictType.ESCALATE /\ approval_id v = Some (esc_approval_id e) /\
      reason v = r /\ risk_level v = esc_risk_level e /\ action_type context = esc_action_type e.

Definition grows (call : ToolCall) st st' : Prop := added call st st' (backed st st').

(** A check that runs nothing: it passes with what [P] says, or it ends the
    call and [P] is out of reach. *)
Inductive checked {A} (call : ToolCall) st (P : A -> InvokerState S -> Prop) : result Exit A * InvokerState S -> Prop :=
| check_passed a st1 : P a st1 -> ran st1 = ran st -> pending st1 = pending st -> checked call st P (Ok a, st1)
| check_refused r st1 : (forall a st2, ~ P a st2) -> refusal call r -> ran st1 = ran st -> grows call st st1 ->
    checked call st P (Err (Returns r), st1)
| check_raised e st1 : (forall a st2, ~ P a st2) -> ran st1 = ran st -> pending st1 = pending st ->
    checked call st P (Err (Raises e), st1).

Lemma grows_refl call st : grows call st st.
Proof. by left. Qed.

Lemma refused_result call m : refusal call (error_result call m).
Proof. done. Qed.
#[local] Hint Resolve grows_refl refused_result : core.
#[local] Hint Constructors checked : core.

Lemma guarded_checked {A} call m (answer : result Raised A) st :
  checked call st (fun a st1 => answer = Ok a /\ st1 = st) (guarded call m answer st).
Proof.
  unfold guarded. destruct answer as [a|e]; [by constructor|].
  destruct (_contains_critical e); [apply check_raised|apply check_refused]; try done; auto; by intros ? ? [].
Qed.

Lemma unguarded_checked {A} call (answer : result Raised A) st :
  checked call st (fun a st1 => answer = Ok a /\ st1 = st) (unguarded answer st).
Proof. unfold unguarded. destruct answer as [a|e]; constructor; auto; by intros ? ? []. Qed.

(** A check after an answer. *)
Lemma then_checked {A B} call (m : Step A) (k : A -> Step B) (P : A -> Prop) (Q : A -> B -> InvokerState S -> Prop) st :
  checked call st (fun a st1 => P a /\ st1 = st) (m st) ->
  (forall a1 a2, P a1 -> P a2 -> a1 = a2) ->
  (forall a, P a -> checked call st (Q a) (k a st)) ->
  checked call st (fun b st2 => exists a, P a /\ Q a b st2) (then_ m k st).
Proof.
  unfold then_. intros Hm Hfun Hk. destruct Hm as [a st1 [HP ->] _ _|r st1 Hn ? ? ?|e st1 Hn ? ?].
  2, 3: constructor; auto; intros ? ? (a & HP & _); by apply (Hn a st).
  destruct (Hk _ HP) as [b st2 HQ ? ?|r st2 Hn ? ? ?|e st2 Hn ? ?]; constructor; auto; try by exists a.
  all: intros ? ? (a' & HP' & HQ); assert (a' = a) as -> by (by apply Hfun); by eapply Hn.
Qed.

Lemma checked_iff {A} call st (P Q : A -> InvokerState S -> Prop) x :
  (forall a st1, P a st1 <-> Q a st1) -> checked call st P x -> checked call st Q x.
Proof.
  intros HPQ [a st1 HP|r st1 Hn|e st1 Hn]; [|apply check_refused; auto|apply check_raised; auto].
  - apply check_passed; [by apply HPQ|done|done].
  - intros a st2 HQ. by apply (Hn a st2), HPQ.
  - intros a st2 HQ. by apply (Hn a st2), HPQ.
Qed.

(** ** What each check requires *)

Definition with_interceptor st (s : S) : InvokerState S :=
  {| interceptor := s; pending := pending st; ran := ran st |}.

Definition permitted (inv : ToolInvoker) (tool : BaseTool) : Prop :=
  forall c, _permission_checker inv = Some c -> is_permitted c (base_name tool) (base_category tool) = true.

Definition unconstrained (inv : ToolInvoker) (w : CallWorld) (tool : BaseTool) : Prop :=
  forall c, _permission_checker inv = Some c ->
    constraint_copy w = Ok tt /\
    check_sub_constraints c (base_name tool) (base_category tool) (base_action_type tool) = None.

Definition well_formed (w : CallWorld) (replaced : bool) : Prop :=
  fault_answer w = Ok None /\ decode_answer w = Ok tt /\
  params_answer w = Ok (if replaced then Params_replaced else Params_raw).

Definition interceptor_allows (inv : ToolInvoker) (w : CallWorld) (tool : BaseTool) (call : ToolCall) st
    (o : option SecurityContext) st1 : Prop :=
  if _security_interceptor inv then
    exists context v s, _build_security_context inv w tool call = Ok context /\
      pre_tool context (interceptor st) = (Ok v, s) /\ verdict v = SecurityModel.SecurityVerdictType.ALLOW /\
      o = Some context /\ st1 = with_interceptor st s
  else o = None /\ st1 = st.

Definition policy_allows (inv : ToolInvoker) (w : CallWorld) : Prop :=
  _policy_engine inv = true ->
  match policy_answer w with
  | Ok d => policy_allow d = true \/ _policy_enforces inv = false
  | Err e => e = Ordinary /\ _policy_enforces inv = false
  end.

Ltac check_passes := apply check_passed; [naive_solver|done|done].
Ltac check_refuses := apply check_refused; [intros ? ?; naive_solver|done|done|by left].
Ltac check_raises := apply check_raised; [intros ? ?; naive_solver|done|done].

Lemma lookup_checked inv call st :
  checked call st (fun tool st1 => _registry inv !! call_name call = Some tool /\ st1 = st) (_lookup_tool inv call st).
Proof. unfold _lookup_tool. destruct (_registry inv !! call_name call); [check_passes|check_refuses]. Qed.

Lemma permission_checked inv tool call st :
  checked call st (fun _ st1 => permitted inv tool /\ st1 = st) (_check_permission inv tool call st).
Proof.
  unfold _check_permission, permitted. destruct (_permission_checker inv) as [c|]; [|check_passes].
  destruct (is_permitted c _ _) eqn:E; [check_passes|]. apply check_refused; [|done|done|by left].
  intros ? ? [Hp _]. specialize (Hp c eq_refl). congruence.
Qed.

Lemma sub_constraints_checked inv w tool call st :
  checked call st (fun _ st1 => unconstrained inv w tool /\ st1 = st) (_check_sub_constraints inv w tool call st).
Proof.
  unfold _check_sub_constraints, unconstrained. destruct (_permission_checker inv) as [c|]; [|check_passes].
  eapply checked_iff; [|apply (then_checked call _ _ _ (fun _ _ st1 =>
    check_sub_constraints c (base_name tool) (base_category tool) (base_action_type tool) = None /\ st1 = st) st
    (guarded_checked call Uncopyable_arguments (constraint_copy w) st))].
  - intros [] st1. split.
    + intros ([] & Hc & Hv & ->). split; [|done]. by intros ? [= <-].
    + intros [Hall ->]. destruct (Hall c eq_refl). by exists tt.
  - by intros [] [].
  - intros [] _. destruct (check_sub_constraints c _ _ _) as [v|] eqn:Ev; [|by constructor].
    destruct (violation_requires_approval v); unfold then_, append_pending, return_.
    + apply check_refused; [by intros ? ? [? _]|done|done|]. right. by eexists.
    + apply check_refused; [by intros ? ? [? _]|done|done|]. by left.
Qed.

Lemma transport_checked w call st :
  checked call st (fun _ st1 => fault_answer w = Ok None /\ st1 = st) (check_transport w call st).
Proof.
  eapply checked_iff; [|apply (then_checked call _ _ _ (fun fault _ st1 => fault = None /\ st1 = st) st
    (guarded_checked call Transport_check_failed (fault_answer w) st))].
  - intros [] st1. naive_solver.
  - intros ? ? -> ?. by simplify_eq.
  - intros fault _. destruct fault; [|by constructor].
    apply check_refused; [by intros ? ? [? _]|done|done|by left].
Qed.

Lemma params_checked w call st :
  checked call st (fun (replaced : bool) st1 => (decode_answer w = Ok tt /\
    params_answer w = Ok (if replaced then Params_replaced else Params_raw)) /\ st1 = st) (_validate_params w call st).
Proof.
  eapply checked_iff; [|apply (then_checked call _ _ _ (fun _ (replaced : bool) st1 =>
    params_answer w = Ok (if replaced then Params_replaced else Params_raw) /\ st1 = st) st
    (unguarded_checked call (decode_answer w) st))].
  - intros replaced st1. split; [intros ([] & Hd & ? & ->); done|]. intros [[? ?] ->]. by exists tt.
  - by intros [] [].
  - intros [] _. eapply checked_iff; [|apply (then_checked call _ _ _ (fun outcome (replaced : bool) st1 =>
      outcome = (if replaced then Params_replaced else Params_raw) /\ st1 = st) st
      (guarded_checked call Validation_failed (params_answer w) st))].
    + intros replaced st1. split; [intros (? & ? & -> & ->); done|]. intros [? ->]. by eexists.
    + intros ? ? -> ?. by simplify_eq.
    + intros outcome _. destruct outcome; [by constructor|by constructor|].
      apply check_refused; [by intros [] ? [? _]|done|done|by left].
Qed.

Ltac no_allow := intros ? ? (? & ? & ? & ? & ? & ? & _ & _); congruence.

Lemma context_action inv w tool call context :
  _build_security_context inv w tool call = Ok context -> action_type context = base_action_type tool.
Proof.
  unfold _build_security_context, new_context. destruct (context_copy w); [|done]. cbn [rbind].
  repeat (case_match; [|done]). by intros [= <-].
Qed.

Lemma security_checked inv w tool call st :
  checked call st (interceptor_allows inv w tool call st) (_check_security inv w tool call st).
Proof.
  unfold _check_security, interceptor_allows. destruct (_security_interceptor inv); simpl; [|check_passes].
  unfold guarded at 1, then_ at 1. destruct (_build_security_context inv w tool call) as [context|e] eqn:Hctx.
  2: { destruct (_contains_critical e); [apply check_raised; [no_allow|done|done]|apply check_refused; [no_allow|done|done|by left]]. }
  unfold then_ at 1, run_interceptor. destruct (pre_tool context (interceptor st)) as [[v|e] s] eqn:Hp; simpl.
  2: { destruct (_contains_critical e); [apply check_raised; [no_allow|done|done]|apply check_refused; [no_allow|done|done|by left]]. }
  fold (with_interceptor st s). destruct (verdict v) eqn:Hv.
  - apply check_passed; [|done|done]. by exists context, v, s.
  - apply check_refused; [no_allow|done|done|by left].
  - destruct (approval_id v) eqn:Hid; [|apply check_refused; [no_allow|done|done|by left]].
    apply check_refused; [no_allow|done|done|]. right.
    eexists. split; [reflexivity|]. split; [done|]. intros r [= <-]. exists context, v. simpl. split_and!; try congruence.
    by apply context_action in Hctx.
Qed.

Lemma policy_checked inv w call st :
  checked call st (fun _ st1 => policy_allows inv w /\ st1 = st) (_check_policy inv w call st).
Proof.
  unfold _check_policy, policy_allows. destruct (_policy_engine inv); simpl; [|check_passes].
  destruct (policy_answer w) as [d|e].
  - destruct (policy_allow d); [check_passes|]. destruct (_policy_enforces inv); [check_refuses|check_passes].
  - destruct e; simpl; [|check_raises|check_raises]. destruct (_policy_enforces inv); [check_refuses|check_passes].
Qed.

Lemma policy_quiet inv w call st : snd (_check_policy inv w call st) = st.
Proof.
  unfold _check_policy. destruct (negb _); [done|]. destruct (policy_answer w) as [d|e].
  - destruct (policy_allow d), (_policy_enforces inv); done.
  - by destruct (_contains_critical e), (_policy_enforces inv).
Qed.

(** ** What an executed call does *)

Definition executed (call : ToolCall) st : InvokerState S :=
  {| interceptor := interceptor st; pending := pending st; ran := ran st ++ [call] |}.

Lemma execute_checked {B} w call replaced (k : ToolReply -> Step B) st :
  (execution_copy w = Ok tt /\ then_ (_execute_tool w call replaced) k st =
     then_ (guarded call Execution_failed (execute_answer w)) k (executed call st)) \/
  (execution_copy w <> Ok tt /\ exists x, then_ (_execute_tool w call replaced) k st = (Err x, st) /\
     forall r, x = Returns r -> refusal call r).
Proof.
  unfold _execute_tool, start_tool, then_, unguarded, _safe_deepcopy_args, guarded.
  destruct replaced, (execution_copy w) as [[]|e]; [by left| |by left|].
  - right. split; [done|]. by eexists.
  - right. split; [done|]. simpl.
    destruct (_contains_critical e); eexists; (split; [reflexivity|]); intros r [= <-]; done.
Qed.

(** The text a reader is shown. *)
Definition visible (w : CallWorld) (reply : ToolReply) (text : string) : Prop :=
  (reply_text reply = EmptyString /\ text = EmptyString) \/
  exists g, guard_tool_output w (reply_text reply) = Ok g /\ guard_rejected g = false /\ text = guard_content g.

(** What may be handed over as a success. *)
Definition vetted (o : option SecurityContext) (w : CallWorld) (s : S) (r : ToolResult) : Prop :=
  exists reply text, execute_answer w = Ok reply /\ reply_is_error reply = false /\
    timed_out (reply_metadata reply) = false /\ visible w reply text /\
    match o with
    | None => content r = Output (Raw text)
    | Some context =>
        exists found s', post_tool context text s = (Ok found, s') /\
          if has_sensitive_data found
          then outcome found <> SecurityModel.ScanOutcome.WITHHELD /\
            exists copy, redacted_content found = Some copy /\ content r = Output (Raw copy)
          else content r = Output (Raw text)
    end.

(** How an executed call ends. *)
Record finished (o : option SecurityContext) (w : CallWorld) (call : ToolCall) st
    (x : result Exit ToolResult * InvokerState S) : Prop := {
  finished_ran : ran (snd x) = ran st;
  finished_added : added call st (snd x) not_security;
  finished_result r : fst x = Ok r \/ fst x = Err (Returns r) -> tool_call_id r = call_id call /\ result_ok r = true;
  finished_refusal r : fst x = Err (Returns r) -> is_error r = true;
  finished_vetted r : fst x = Ok r -> is_error r = false -> vetted o w (interceptor st) r;
}.

Lemma finished_raise o w call st e st' :
  ran st' = ran st -> added call st st' not_security -> finished o w call st (Err (Raises e), st').
Proof. split; simpl; [done|done| | |]; intros r; [by intros [|]|done|done]. Qed.

Lemma finished_stop o w call st m st' :
  ran st' = ran st -> added call st st' not_security -> finished o w call st (Err (Returns (error_result call m)), st').
Proof. split; simpl; [done|done| | |]; intros r; [by intros [|[= <-]]|by intros [= <-]|done]. Qed.

(** The part after the tool. *)
Definition after_tool (w : CallWorld) (tool : BaseTool) (call : ToolCall) (o : option SecurityContext)
    (reply : ToolReply) : Step ToolResult :=
  then_ (_apply_html_guard w reply) (fun guarded =>
    let '(m, text, error) := guarded in
    then_ (_track_parking_metadata tool call (reply_metadata reply)) (fun _ =>
      then_ (match o with Some context => _scan_output call context text m error | None => done_ (m, error) end)
        (fun out => done_ (_build_result call (fst out) (snd out) (timed_out (reply_metadata reply)))))).

Lemma guard_outcome w reply st :
  (exists e, _apply_html_guard w reply st = (Err (Raises e), st)) \/
  exists m text error, _apply_html_guard w reply st = (Ok (m, text, error), st) /\
    (error = false -> reply_is_error reply = false /\ visible w reply text /\ m = Output (Raw text)).
Proof.
  unfold _apply_html_guard, visible. destruct (reply_is_error reply) eqn:He; simpl.
  { right. eexists _, _, _. split; [reflexivity|done]. }
  case_bool_decide as Ht.
  { right. eexists _, _, _. split; [reflexivity|]. intros _. rewrite Ht. split; [done|]. split; [by left|done]. }
  unfold then_, unguarded. destruct (guard_tool_output w (reply_text reply)) as [g|e] eqn:Hg; [right|left; by eexists].
  unfold done_. destruct (guard_rejected g) eqn:Hr; eexists _, _, _; (split; [reflexivity|]); [done|].
  intros _. split; [done|]. split; [right; by exists g|done].
Qed.

Lemma parking_outcome tool call md st :
  (exists m, _track_parking_metadata tool call md st = (Err (Returns (error_result call m)), st)) \/
  exists st', _track_parking_metadata tool call md st = (Ok tt, st') /\ ran st' = ran st /\
    interceptor st' = interceptor st /\ added call st st' not_security.
Proof.
  unfold _track_parking_metadata. destruct (requires_parking md); simpl.
  2: { right. exists st. split_and!; [done|done|done|by left]. }
  destruct (parking_approval_id md) as [[|ch id]|]; [left; by eexists| |left; by eexists].
  destruct (risk_of _); [|left; by eexists]. destruct (_ || _); [left; by eexists|]. right.
  eexists. split; [reflexivity|]. split; [done|]. split; [done|]. right.
  eexists. split; [reflexivity|]. split; [done|]. intros r. simpl. by destruct (clarification md).
Qed.

Lemma built_ok call m error timeout : result_ok (_build_result call m error timeout) = true.
Proof. by destruct error, timeout. Qed.

Lemma after_tool_finished w tool call o reply st :
  execute_answer w = Ok reply -> finished o w call st (after_tool w tool call o reply st).
Proof.
  intros Hx. unfold after_tool, then_ at 1.
  destruct (guard_outcome w reply st) as [[e ->]|(m & text & error & -> & Hg)]; [apply finished_raise; [done|by left]|].
  unfold then_ at 1. destruct (parking_outcome tool call (reply_metadata reply) st)
    as [[m' ->]|(st1 & -> & Hr & Hi & Hp)]; [apply finished_stop; [done|by left]|].
  destruct o as [context|]; unfold then_, done_.
  - unfold _scan_output. rewrite Hi. destruct (post_tool context text (interceptor st)) as [[found|e] s] eqn:Hs.
    + split; simpl; [done|done| | |].
      * intros r [[= <-]|]; [|done]. split; [by destruct (has_sensitive_data found)|apply built_ok].
      * done.
      * intros r [= <-]. unfold _build_result. simpl. rewrite orb_false_iff. intros [He Ht].
        exists reply, text. unfold handle_sensitive_scan in *.
        destruct (has_sensitive_data found) eqn:Hsens; [destruct (decide _); [done|];
          destruct (redacted_content found) eqn:Hred; [|done]|]; simpl in He; destruct (Hg He) as (? & ? & ->);
          repeat (split; [done|]); exists found, s; rewrite Hsens; split; try done. split; [done|]. by eexists.
    + destruct (_contains_critical e); [by apply finished_raise|].
      split; simpl; [done|done| | |]; intros r; [|done|by intros [= <-]].
      intros [[= <-]|]; [|done]. split; [done|apply built_ok].
  - split; simpl; [done|done| | |].
    + intros r [[= <-]|]; [|done]. split; [done|apply built_ok].
    + done.
    + intros r [= <-]. unfold _build_result. simpl. rewrite orb_false_iff. intros [He Ht]. destruct (Hg He) as (? & ? & ->).
      by exists reply, text.
Qed.

(** ** The whole pipeline *)

(** What has to hold for the tool to run, with the context and the state the
    interceptor leaves. *)
Definition cleared (inv : ToolInvoker) (w : CallWorld) (call : ToolCall) st (o : option SecurityContext) st1 : Prop :=
  exists tool, _registry inv !! call_name call = Some tool /\ permitted inv tool /\ unconstrained inv w tool /\
    (exists replaced, well_formed w replaced) /\ interceptor_allows inv w tool call st o st1 /\
    policy_allows inv w /\ execution_copy w = Ok tt.

Record stopped (call : ToolCall) st (x : result Exit ToolResult * InvokerState S) : Prop := {
  stopped_ran : ran (snd x) = ran st;
  stopped_grows : grows call st (snd x);
  stopped_early r : fst x <> Ok r;
  stopped_refusal r : fst x = Err (Returns r) -> refusal call r;
}.

Definition ends (inv : ToolInvoker) (w : CallWorld) (call : ToolCall) st (x : result Exit ToolResult * InvokerState S)
    : Prop :=
  (exists o st1, cleared inv w call st o st1 /\ ran st1 = ran st /\ pending st1 = pending st /\
     finished o w call (executed call st1) x) \/
  ((forall o st1, ~ cleared inv w call st o st1) /\ stopped call st x).

(** A check that stops the call stops the pipeline. *)
Lemma check_then {A} inv w call st (P : A -> InvokerState S -> Prop) (m : Step A) (k : A -> Step ToolResult) :
  checked call st P (m st) ->
  ((forall a st1, ~ P a st1) -> forall o st1, ~ cleared inv w call st o st1) ->
  (forall a st1, P a st1 -> ran st1 = ran st -> pending st1 = pending st -> ends inv w call st (k a st1)) ->
  ends inv w call st (then_ m k st).
Proof.
  unfold then_. intros Hm Hno Hk. destruct Hm as [a st1|r st1 Hn|e st1 Hn]; [by apply Hk| |]; right;
    (split; [by apply Hno|]); split; simpl; try done.
  - by intros r0 [= <-].
  - by left.
Qed.

Lemma interceptor_allows_fun inv w tool call st o1 st1 o2 st2 :
  interceptor_allows inv w tool call st o1 st1 -> interceptor_allows inv w tool call st o2 st2 -> o1 = o2 /\ st1 = st2.
Proof.
  unfold interceptor_allows. destruct (_security_interceptor inv); [|by intros [-> ->] [-> ->]].
  intros (c1 & v1 & s1 & H1 & H2 & _ & -> & ->) (c2 & v2 & s2 & H3 & H4 & _ & -> & ->). assert (c1 = c2) as -> by congruence.
  assert (s1 = s2) as -> by congruence. done.
Qed.

Lemma pipeline_ends inv w call st : ends inv w call st (pipeline inv w call st).
Proof.
  unfold pipeline.
  eapply check_then; [apply lookup_checked| |].
  { intros Hn o st1 (tool & Hl & _). by apply (Hn tool st). }
  intros tool st1 [Hl ->] _ _.
  assert (Hthis : forall P : Prop, (forall o st1, cleared inv w call st o st1 -> P) <->
      (forall o st1, permitted inv tool -> unconstrained inv w tool -> (exists b, well_formed w b) ->
         interceptor_allows inv w tool call st o st1 -> policy_allows inv w -> execution_copy w = Ok tt -> P)).
  { intros P. split.
    - intros Hc o st1 ? ? ? ? ? ?. apply (Hc o st1). exists tool. tauto.
    - intros Hc o st1 (tool' & Hl' & ? & ? & ? & ? & ? & ?). rewrite Hl in Hl'. injection Hl' as <-. by eapply Hc. }
  eapply check_then; [apply permission_checked| |].
  { intros Hn. refine (proj2 (Hthis False) _). intros ? ? Hp _ _ _ _ _. by apply (Hn tt st). }
  intros [] st1 [Hp ->] _ _.
  eapply check_then; [apply sub_constraints_checked| |].
  { intros Hn. refine (proj2 (Hthis False) _). intros ? ? _ Hu _ _ _ _. by apply (Hn tt st). }
  intros [] st1 [Hu ->] _ _.
  eapply check_then; [apply transport_checked| |].
  { intros Hn. refine (proj2 (Hthis False) _). intros ? ? _ _ (b & Hf & _) _ _ _. by apply (Hn tt st). }
  intros [] st1 [Hf ->] _ _.
  eapply check_then; [apply params_checked| |].
  { intros Hn. refine (proj2 (Hthis False) _). intros ? ? _ _ (b & _ & Hd) _ _ _. by apply (Hn b st). }
  intros replaced st1 [Hd ->] _ _.
  eapply (check_then inv w call st (interceptor_allows inv w tool call st)); [apply security_checked| |].
  { intros Hn. refine (proj2 (Hthis False) _). intros o st1 _ _ _ Hi _ _. by apply (Hn o st1). }
  intros o st1 Hi Hran Hpend.
  unfold then_ at 1. pose proof (policy_quiet inv w call st1) as Hq.
  destruct (policy_checked inv w call st1) as [[] st2 [Hpol ->] _ _|r st2 Hn Hr ? Hg|e st2 Hn ? Hpe]; simpl in Hq; subst.
  2, 3: right; split; [refine (proj2 (Hthis False) _); intros ? ? _ _ _ _ Hpol _; by apply (Hn tt st1)|];
    split; simpl; try congruence; try (left; congruence); by intros ? [= <-].
  destruct (execute_checked w call replaced (after_tool w tool call o) st1) as [[He Hrun]|(He & x & Hrun & Hx)].
  - left. exists o, st1. split; [exists tool; split_and!; try done; exists replaced; by destruct Hd|]. split; [done|]. split; [done|].
    change (finished o w call (executed call st1) (then_ (_execute_tool w call replaced) (after_tool w tool call o) st1)).
    rewrite Hrun. unfold then_, guarded. destruct (execute_answer w) as [reply|e] eqn:Hx; [by apply after_tool_finished|].
    destruct (_contains_critical e); [apply finished_raise|apply finished_stop]; try done; try (by left).
  - right. split; [refine (proj2 (Hthis False) _); by intros|].
    change (stopped call st (then_ (_execute_tool w call replaced) (after_tool w tool call o) st1)). rewrite Hrun.
    split; simpl; [done|by left|done|]. intros r [= ->]. by apply Hx.
Qed.

(** ** Claims *)

Lemma invoke_ends inv w call st r st' :
  _invoke_single inv w call st = (r, st') ->
  exists x, ends inv w call st (x, st') /\
    forall res, r = Ok res -> x = Ok res \/ x = Err (Returns res).
Proof.
  unfold _invoke_single, _build_invocation_result. pose proof (pipeline_ends inv w call st) as He.
  destruct (pipeline inv w call st) as [[res|[e|res]] st1]; intros Hr.
  1, 3: injection Hr as <- <-; eexists; (split; [exact He|]); intros res'; unfold record_tool_invocation; destruct (record_answer w) as [|e];
    [by intros [= <-]; auto|destruct (_contains_critical e); [done|intros [= <-]; auto]].
  injection Hr as <- <-. by eexists.
Qed.

(** C12: one call through the invoker runs its tool exactly when the name is
    registered, the level permits it, no sub-constraint is violated, the
    transport and the schema accept the arguments, the interceptor, if there
    is one, says ALLOW, and an enforcing policy engine allows it; a call that
    runs runs once. Either way it leaves at most one escalation, its own. *)
Theorem tool_runs_exact inv w call st r st' :
  _invoke_single inv w call st = (r, st') ->
  (ran st' = ran st ++ [call] <-> exists o st1, cleared inv w call st o st1) /\
  (ran st' = ran st <-> forall o st1, ~ cleared inv w call st o st1) /\
  (pending st' = pending st \/
   exists e, pending st' = pending st ++ [e] /\ esc_tool_call_id e = call_id call).
Proof.
  intros Hr. destruct (invoke_ends _ _ _ _ _ _ Hr) as (x & [(o & st1 & Hc & Hran & Hpend & [Hf Ha _ _ _])|[Hn Hs]] & _).
  - simpl in *. rewrite Hran in Hf. rewrite Hf. split; [|split].
    + split; [by eauto|done].
    + split; [|by intros Hn; destruct (Hn _ _ Hc)]. intros Heq%(f_equal length). rewrite length_app in Heq. simpl in Heq. lia.
    + destruct Ha as [Ha|(e & Ha & He & _)]; [left; simpl in Ha; congruence|right; exists e]. simpl in Ha. by rewrite Ha, Hpend.
  - destruct Hs as [Hs Hg _ _]. simpl in *. rewrite Hs. split; [|split].
    + split; [|intros (o & st1 & Hc); by destruct (Hn _ _ Hc)].
      intros Heq%(f_equal length). rewrite length_app in Heq. simpl in Heq. lia.
    + done.
    + destruct Hg as [Hg|(e & Hg & He & _)]; [by left|right; by exists e].
Qed.

(** Every result of the invoker is the call's own and well formed, and
    one that is not an error was earned: the call was cleared, the tool
    replied without an error or a timeout, the reader sees the guarded text,
    and, when an interceptor is set, its scanner found nothing or left the
    redacted copy that is delivered in its place. Every failure of a check, a
    guard or a scanner is an error result or an exception. *)
Theorem success_is_vetted inv w call st res st' :
  _invoke_single inv w call st = (Ok res, st') ->
  tool_call_id res = call_id call /\ result_ok res = true /\
  (is_error res = false ->
     exists o st1, cleared inv w call st o st1 /\ vetted o w (interceptor st1) res).
Proof.
  intros Hr. destruct (invoke_ends _ _ _ _ _ _ Hr)
    as (x & [(o & st1 & Hc & _ & _ & [_ _ Hf Her Hv])|[Hn [_ _ He Hs]]] & Hx);
    destruct (Hx res eq_refl) as [Hres|Hres]; simpl in *.
  - destruct (Hf res (or_introl Hres)) as [? ?]. split; [done|]. split; [done|]. intros Hok. exists o, st1. split; [done|].
    by apply (Hv res).
  - destruct (Hf res (or_intror Hres)) as [? ?]. split; [done|]. split; [done|]. intros Hok. by rewrite (Her res Hres) in Hok.
  - by destruct (He res).
  - destruct (Hs res Hres) as (? & He' & Ht). split; [done|].
    unfold result_ok. rewrite He', Ht. split; [done|]. intros [=].
Qed.

(** C23: with an interceptor that parks what it escalates, an escalation the
    invoker reports for security is alone, nothing ran, the call's result is
    an error, and it names the one approval item that was queued meanwhile,
    pending, for the call's action type and risk. *)
Theorem security_escalation_backed (queue : S -> list ApprovalItem) `{!ParksEscalations S queue} inv w call st r st' e why :
  invoke inv w call st = (r, st') -> e ∈ pending st' -> esc_reason e = Security_reason why ->
  pending st' = [e] /\ ran st' = ran st /\ (forall res, r = Ok res -> is_error res = true) /\
  exists item, queue (interceptor st') = queue (interceptor st) ++ [item] /\ item_id item = esc_approval_id e /\
    item_status item = SecOps.ApprovalStatus.PENDING /\ item_action_type item = esc_action_type e /\
    item_risk_level item = esc_risk_level e.
Proof.
  unfold invoke. intros Hr Hin Hwhy. destruct (invoke_ends _ _ _ _ _ _ Hr)
    as (x & [(o & st1 & _ & _ & Hp & [_ [Ha|(e' & Ha & _ & Hns)] _ _ _])|[_ [Hran Hg He Hs]]] & Hx); simpl in *.
  - rewrite Ha, Hp in Hin. by apply not_elem_of_nil in Hin.
  - rewrite Ha, Hp in Hin. apply list_elem_of_singleton in Hin as ->. by destruct (Hns why).
  - destruct Hg as [Hg|(e' & Hg & _ & Hb)]; simpl in Hg; rewrite Hg in Hin; [by apply not_elem_of_nil in Hin|].
    apply list_elem_of_singleton in Hin as ->. split; [done|]. split; [done|]. split.
    + intros res Hres. destruct (Hx res Hres) as [Hx'|Hx']; [by destruct (He res)|by apply Hs].
    + destruct (Hb why Hwhy) as (context & v & Hpre & Hv & Hid & _ & Hrisk & Hact).
      destruct (escalation_queued _ _ _ _ Hpre Hv) as (item & Hq & Hi & ? & ? & ?). exists item. simpl in *.
      rewrite Hid in Hi. injection Hi as Hi. split_and!; congruence.
Qed.
End Outcomes.

(** ** The security service parks what it escalates *)

Lemma secops_parks svc patterns ws :
  @ParksEscalations _ (secops_strategy svc patterns ws) (fun s => approvals (fst s)).
Proof.
  constructor. intros context [s n] v [s' n'] Hpre Hv. simpl in *. unfold in_next_world in Hpre. simpl in Hpre.
  destruct (evaluate_pre_tool svc (ws n) context s) as [r s1] eqn:E. injection Hpre as -> <- <-.
  destruct (off svc) eqn:Hoff.
  { unfold evaluate_pre_tool in E. rewrite Hoff in E. unfold bind in E.
    destruct (maybe_audit _ _ _ _ _) as [[u|e] s2]; unfold ret in E; [|done]. injection E as <- _. done. }
  apply evaluate_stages in E; [|done].
  destruct E as [(e & _ & [=] & _)|(v0 & r1 & s2 & _ & He & E)]. apply escalate_outcome in He as [_ He].
  destruct r1 as [v1|]; [|by destruct E]. destruct E as ([[]|] & Haud & [=]). subst v.
  apply audit_outcome in Haud as [Hap _].
  assert (Hsh : shadowed svc v1 = v1) by (revert Hv; unfold shadowed; by destruct (_ && _)). rewrite Hsh in *. rewrite Hap.
  destruct He as [(_ & -> & _ & (de & md & Hq))|(Hne & _)]; [|done]. rewrite Hq.
  eexists. split; [reflexivity|]. done.
Qed.

(** ** Examples *)

#[local] Instance sample_strategy : SecurityInterceptionStrategy (SecState * nat) :=
  secops_strategy (sample_service default_security_config supervised) [] (fun _ => calm_world).

#[local] Instance sample_parks : ParksEscalations (SecState * nat) (fun s => approvals (fst s)) :=
  secops_parks _ _ _.

Definition sample_tools : gmap string BaseTool := {[
  "write_file" := {| base_name := "write_file"; base_category := SecurityModel.ToolCategory.FILE_SYSTEM;
    base_action_type := "code:write" |};
  "read_file" := {| base_name := "read_file"; base_category := SecurityModel.ToolCategory.FILE_SYSTEM;
    base_action_type := "code:read" |};
  "git_push" := {| base_name := "git_push"; base_category := SecurityModel.ToolCategory.VERSION_CONTROL;
    base_action_type := "vcs:push" |} ]}%string.

Definition sample_invoker : ToolInvoker := {|
  _registry := sample_tools; _permission_checker := None; _security_interceptor := true;
  _agent_id := Some "agent-1"; _task_id := Some "task-1"; _agent_binding := None;
  _policy_engine := false; _policy_enforces := false |}%string.

Definition plain_metadata : ExecMetadata := {|
  requires_parking := false; parking_approval_id := None; parking_risk_level := None; parking_action_type := None;
  clarification := false; timed_out := false |}.

Definition calm_call (execute : result Raised ToolReply) : CallWorld := {|
  constraint_copy := Ok tt; fault_answer := Ok None; decode_answer := Ok tt; params_answer := Ok Params_replaced;
  context_copy := Ok tt; policy_answer := Ok {| policy_allow := true; policy_reason := "allow" |};
  execution_copy := Ok tt; execute_answer := execute;
  guard_tool_output := fun s => Ok {| guard_rejected := false; guard_content := s |}; record_answer := Err Ordinary |}%string.

Definition replies (text : string) : result Raised ToolReply :=
  Ok {| reply_text := text; reply_is_error := false; reply_metadata := plain_metadata |}.

Definition sample_call (id name : string) : ToolCall := {| call_id := id; call_name := name; call_arguments := [] |}.

Definition idle : InvokerState (SecState * nat) := {| interceptor := (fresh_state, 0); pending := []; ran := [] |}.

Definition shown (x : result Raised ToolResult * InvokerState (SecState * nat)) : option Message * list string * list string :=
  (match fst x with Ok r => Some (content r) | Err _ => None end, esc_approval_id <$> pending (snd x), call_id <$> ran (snd x)).

Example write_runs :
  shown (invoke sample_invoker (calm_call (replies "written")) (sample_call "c1" "write_file") idle) =
  (Some (Output (Raw "written")), [], ["c1"])%string.
Proof. vm_compute. reflexivity. Qed.

Example push_parks :
  shown (invoke sample_invoker (calm_call (replies "pushed")) (sample_call "c2" "git_push") idle) =
  (Some (Security_escalation (Human_required Autonomy.AutonomyLevel.SUPERVISED) "approval-1"), ["approval-1"], [])%string.
Proof. vm_compute. reflexivity. Qed.

(** A name no tool answers to. *)
Example unknown_tool_unresolved :
  shown (invoke sample_invoker (calm_call (replies "x")) (sample_call "c3" "no_such_tool") idle) =
  (Some (Not_registered "no_such_tool"), [], [])%string.
Proof. vm_compute. reflexivity. Qed.

(** ** Witnesses *)

Lemma tool_runs_exact_witness :
  exists o st1, cleared sample_invoker (calm_call (replies "written")) (sample_call "c1" "write_file")%string idle o st1.
Proof.
  apply (proj1 (proj1 (tool_runs_exact sample_invoker (calm_call (replies "written")) (sample_call "c1" "write_file")%string
    idle _ _ (surjective_pairing _)))).
  vm_compute. reflexivity.
Defined.

Lemma success_is_vetted_witness :
  exists res st', _invoke_single sample_invoker (calm_call (replies "written")) (sample_call "c1" "write_file")%string
    idle = (Ok res, st') /\ result_ok res = true.
Proof.
  destruct (_invoke_single sample_invoker (calm_call (replies "written")) (sample_call "c1" "write_file")%string idle)
    as [[res|e] st'] eqn:E.
  - exists res, st'. split; [reflexivity|]. exact (proj1 (proj2 (success_is_vetted _ _ _ _ _ _ E))).
  - exfalso. assert (H : is_ok (fst (_invoke_single sample_invoker (calm_call (replies "written"))
      (sample_call "c1" "write_file")%string idle)) = true) by (vm_compute; reflexivity). rewrite E in H. discriminate H.
Defined.

Lemma security_escalation_backed_witness :
  let x := invoke sample_invoker (calm_call (replies "pushed")) (sample_call "c2" "git_push")%string idle in
  ran (snd x) = [] /\ exists e, pending (snd x) = [e].
Proof.
  intros x. destruct (pending (snd x)) as [|e l] eqn:Hp.
  - exfalso. assert (H : length (pending (snd x)) = 1) by (vm_compute; reflexivity). rewrite Hp in H. discriminate H.
  - assert (Hin : e ∈ pending (snd x)) by (rewrite Hp; apply list_elem_of_here).
    assert (Hr : match head (pending (snd x)) with Some e => esc_reason e | None => Agent_requested_approval end =
      Security_reason (Human_required Autonomy.AutonomyLevel.SUPERVISED)) by (vm_compute; reflexivity).
    rewrite Hp in Hr.
    destruct (security_escalation_backed (fun s => approvals (fst s)) sample_invoker _ _ idle (fst x) (snd x) e _
      (surjective_pairing x) Hin Hr) as (H1 & H2 & _).
    split; [exact H2|]. rewrite <-Hp. exists e. exact H1.
Defined.
