(* ===== verification/ToolBatch.v ===== *)
(** * ToolBatch

    A turn's tool calls ([ToolInvoker.invoke_all] of [tools/invoker.py]): the
    batch is cut into stages, a run of read-only calls side by side and every
    other call alone; each call is a process that gives up control between the
    stages of its pipeline, and the calls of a stage interleave under the
    semaphore. A fatal error or an escalation ends the batch after its stage. *)

From stdpp Require Import gmap strings list relations sorting.
From Stdlib Require Import Lia ZArith Ascii.
From S2P Require Import Prelude Autonomy SecurityModel SecurityRules OutputScan SecOps SecOpsProofs ToolPermissions ToolInvoker.
#[local] Open Scope py_scope.
#[local] Open Scope nat_scope.

Notation "'let?' x ':=' m 'in' k" := (then_ m (fun x => k))
  (at level 200, x name, m at level 100, k at level 200) : py_scope.

(** ** Stages *)

Definition READ_ONLY_ACTION_TYPES : list string :=
  Autonomy.ActionType.action_type_value <$> [Autonomy.ActionType.CODE_READ; Autonomy.ActionType.VCS_READ; Autonomy.ActionType.DB_QUERY;
    Autonomy.ActionType.MEMORY_READ].

Definition _is_read_only (inv : ToolInvoker) (call : ToolCall) : bool :=
  match _registry inv !! call_name call with
  | None => true
  | Some tool => bool_decide (base_action_type tool ∈ READ_ONLY_ACTION_TYPES)
  end.

Notation Indexed := (nat * ToolCall)%type.

Definition close_reads (acc : list (list Indexed) * list Indexed) : list (list Indexed) :=
  if bool_decide (snd acc = []) then fst acc else fst acc ++ [snd acc].

Definition stage_call (inv : ToolInvoker) (acc : list (list Indexed) * list Indexed) (ic : Indexed)
    : list (list Indexed) * list Indexed :=
  if _is_read_only inv (snd ic) then (fst acc, snd acc ++ [ic]) else (close_reads acc ++ [[ic]], []).

Definition enumerate {A} (l : list A) : list (nat * A) := imap pair l.

Definition _stages (inv : ToolInvoker) (calls : list ToolCall) : list (list Indexed) :=
  close_reads (foldl (stage_call inv) ([], []) (enumerate calls)).

(** ** A call as a process *)

Section Batch.
Context {S : Type} `{SecurityInterceptionStrategy S}.
Notation Step := (ToolInvoker.Step (S := S)).

(** What a call does up to its next [await], and what it does after it. *)
Inductive Proc :=
| Halt (r : result Raised ToolResult)
| Seg (effect : InvokerState S -> InvokerState S) (next : InvokerState S -> Proc).

Definition recording (w : CallWorld) (r : ToolResult) : Proc :=
  Seg id (fun _ => Halt (record_tool_invocation w r)).

Definition seg {A} (w : CallWorld) (m : Step A) (k : A -> Proc) : Proc :=
  Seg (fun st => snd (m st)) (fun st =>
    match fst (m st) with
    | Ok a => k a
    | Err (Returns r) => recording w r
    | Err (Raises e) => Halt (Err e)
    end).

Definition gate (inv : ToolInvoker) (w : CallWorld) (call : ToolCall) : Step BaseTool :=
  let? tool := _lookup_tool inv call in
  let? _ := _check_permission inv tool call in
  let? _ := _check_sub_constraints inv w tool call in
  done_ tool.

Definition validate_call (w : CallWorld) (call : ToolCall) : Step bool :=
  let? _ := check_transport w call in
  _validate_params w call.

Definition receive (w : CallWorld) (tool : BaseTool) (call : ToolCall) : Step (ToolReply * Message * string * bool) :=
  let? reply := guarded call Execution_failed (execute_answer w) in
  let? shown := _apply_html_guard w reply in
  let? _ := _track_parking_metadata tool call (reply_metadata reply) in
  done_ (reply, fst (fst shown), snd (fst shown), snd shown).

Definition deliver (call : ToolCall) (context : option SecurityContext) (x : ToolReply * Message * string * bool)
    : Step ToolResult :=
  let '(reply, m, text, error) := x in
  let? out := match context with
    | Some context => _scan_output call context text m error
    | None => done_ (m, error)
    end in
  done_ (_build_result call (fst out) (snd out) (timed_out (reply_metadata reply))).

Definition call_process (inv : ToolInvoker) (w : CallWorld) (call : ToolCall) : Proc :=
  seg w (gate inv w call) (fun tool =>
  seg w (validate_call w call) (fun replaced =>
  seg w (_check_security inv w tool call) (fun context =>
  seg w (_check_policy inv w call) (fun _ =>
  seg w (start_tool w call replaced) (fun _ =>
  seg w (receive w tool call) (fun reply =>
  seg w (deliver call context reply) (recording w))))))).

Definition resume (p : Proc) (st : InvokerState S) : InvokerState S * Proc :=
  match p with
  | Halt _ => (st, p)
  | Seg effect next => (effect st, next st)
  end.

(** Nobody else in between. *)
Fixpoint run_alone (p : Proc) (st : InvokerState S) : result Raised ToolResult * InvokerState S :=
  match p with
  | Halt r => (r, st)
  | Seg effect next => run_alone (next st) (effect st)
  end.

(** ** The batch *)

Inductive CallTask := Waiting | Running (p : Proc) | Over.

Definition is_running (t : nat * ToolCall * CallTask) : bool := match snd t with Running _ => true | _ => false end.
Definition is_over (t : nat * ToolCall * CallTask) : bool := match snd t with Over => true | _ => false end.

(** [fatal_errors] holds what [_run_guarded] caught, [escaped] what it let
    through to the task group. *)
Record Batch := {
  shared : InvokerState S;
  results : gmap nat ToolResult;
  fatal_errors : list Raised;
  escaped : list Raised;
  tasks : list (nat * ToolCall * CallTask);
  later : list (list Indexed);
  escalations_before : nat;
}.

Inductive BatchError :=
| Invalid_max_concurrency (n : Z)
| Fatal (e : Raised)
| Fatal_group (es : list Raised)
| Task_group (es : list Raised)
| Missing_result (i : nat).

Section Run.
Context (proc : nat -> ToolCall -> Proc) (inv : ToolInvoker) (slots : option nat) (calls : list ToolCall).

Definition put (b : Batch) (k : nat) (t : nat * ToolCall * CallTask) : Batch := {|
  shared := shared b; results := results b; fatal_errors := fatal_errors b; escaped := escaped b;
  tasks := <[k := t]> (tasks b); later := later b; escalations_before := escalations_before b |}.

Definition has_slot (b : Batch) : bool :=
  match slots with
  | None => true
  | Some n => length (List.filter is_running (tasks b)) <? n
  end.

(** [_run_guarded] around one resumption: a result is stored, a bare critical
    error is collected, anything else leaves. *)
Definition _run_guarded (b : Batch) (k i : nat) (c : ToolCall) (p : Proc) : Batch :=
  let '(st, p) := resume p (shared b) in
  match p with
  | Seg _ _ => {| shared := st; results := results b; fatal_errors := fatal_errors b; escaped := escaped b;
      tasks := <[k := (i, c, Running p)]> (tasks b); later := later b; escalations_before := escalations_before b |}
  | Halt r =>
      {| shared := st;
         results := match r with Ok res => <[i := res]> (results b) | Err _ => results b end;
         fatal_errors := match r with Err Critical => fatal_errors b ++ [Critical] | _ => fatal_errors b end;
         escaped := match r with
           | Err Ordinary => escaped b ++ [Ordinary]
           | Err Critical_group => escaped b ++ [Critical_group]
           | _ => escaped b
           end;
         tasks := <[k := (i, c, Over)]> (tasks b); later := later b; escalations_before := escalations_before b |}
  end.

Definition waiting_stage (s : list Indexed) : list (nat * ToolCall * CallTask) := (fun ic => (ic, Waiting)) <$> s.

Definition open_stage (b : Batch) (s : list Indexed) (rest : list (list Indexed)) : Batch := {|
  shared := shared b; results := results b; fatal_errors := fatal_errors b; escaped := escaped b;
  tasks := waiting_stage s; later := rest; escalations_before := length (pending (shared b)) |}.

Definition all_over (b : Batch) : bool := forallb is_over (tasks b).

Definition unfailed (b : Batch) : bool := bool_decide (fatal_errors b = []) && bool_decide (escaped b = []).

Definition parked (b : Batch) : bool := escalations_before b <? length (pending (shared b)).

Inductive Act := Start (k : nat) | Resume (k : nat) | Cancel (k : nat) | Next.

(** What the event loop may do. A task that an exception left behind is
    cancelled, at any of its awaits. *)
Definition loop_act (b : Batch) (a : Act) : option Batch :=
  match a with
  | Start k =>
      match tasks b !! k with
      | Some (i, c, Waiting) => if has_slot b then Some (put b k (i, c, Running (proc i c))) else None
      | _ => None
      end
  | Resume k =>
      match tasks b !! k with
      | Some (i, c, Running p) => Some (_run_guarded b k i c p)
      | _ => None
      end
  | Cancel k =>
      match tasks b !! k with
      | Some (i, c, Waiting) | Some (i, c, Running _) =>
          if bool_decide (escaped b = []) then None else Some (put b k (i, c, Over))
      | _ => None
      end
  | Next =>
      if all_over b && unfailed b && negb (parked b) then
        match later b with
        | s :: rest => Some (open_stage b s rest)
        | [] => None
        end
      else None
  end.

Definition step (b b' : Batch) : Prop := exists a, loop_act b a = Some b'.

Definition not_run (c : ToolCall) : ToolResult :=
  {| tool_call_id := call_id c; content := Not_run_pending_approval; is_error := true; is_timeout := false;
     is_unresolved := false |}.

Definition _withhold_after_park (stages : list (list Indexed)) (m : gmap nat ToolResult) : gmap nat ToolResult :=
  foldl (fun m ic => <[fst ic := not_run (snd ic)]> m) m (concat stages).

Definition _raise_fatal_errors (es : list Raised) : option BatchError :=
  match es with
  | [] => None
  | [e] => Some (Fatal e)
  | es => Some (Fatal_group es)
  end.

(** [tuple(results[i] for i in range(len(calls)))]. *)
Definition collect (m : gmap nat ToolResult) : result BatchError (list ToolResult) :=
  foldr (fun i acc => match m !! i with Some r => let* l := acc in Ok (r :: l) | None => Err (Missing_result i) end)
    (Ok []) (seq 0 (length calls)).

(** The end of [invoke_all], once [_run_stages] has returned or raised. *)
Definition batch_outcome (b : Batch) : option (result BatchError (list ToolResult)) :=
  if negb (all_over b) then None
  else if negb (bool_decide (escaped b = [])) then Some (Err (Task_group (escaped b)))
  else match _raise_fatal_errors (fatal_errors b) with
    | Some e => Some (Err e)
    | None =>
        if parked b then Some (collect (_withhold_after_park (later b) (results b)))
        else if bool_decide (later b = []) then Some (collect (results b))
        else None
    end.

Definition call_id_order (id : string) : nat :=
  foldl (fun acc ic => if bool_decide (call_id (snd ic) = id) then fst ic else acc) (length calls) (enumerate calls).

Fixpoint insert_by {A} (key : A -> nat) (x : A) (l : list A) : list A :=
  match l with
  | [] => [x]
  | y :: l' => if key x <? key y then x :: l else y :: insert_by key x l'
  end.

(** [list.sort(key=...)]. *)
Definition sort_by {A} (key : A -> nat) (l : list A) : list A := foldl (fun acc x => insert_by key x acc) [] l.

Definition sorted_escalations (l : list EscalationInfo) : list EscalationInfo :=
  sort_by (fun e => call_id_order (esc_tool_call_id e)) l.

Definition cleared_pending (st : InvokerState S) : InvokerState S :=
  {| interceptor := interceptor st; pending := []; ran := ran st |}.

Definition first_batch (st : InvokerState S) (s : list Indexed) (rest : list (list Indexed)) : Batch := {|
  shared := cleared_pending st; results := ∅; fatal_errors := []; escaped := [];
  tasks := waiting_stage s; later := rest; escalations_before := 0 |}.
End Run.

(** [invoke_all] may return [r] and leave [st']. *)
Inductive invoke_all (inv : ToolInvoker) (ws : nat -> CallWorld) (calls : list ToolCall) (max_concurrency : option Z)
    (st : InvokerState S) : result BatchError (list ToolResult) -> InvokerState S -> Prop :=
| invoke_all_invalid n :
    max_concurrency = Some n -> (n < 1)%Z ->
    invoke_all inv ws calls max_concurrency st (Err (Invalid_max_concurrency n)) (cleared_pending st)
| invoke_all_empty :
    (forall n, max_concurrency = Some n -> (1 <= n)%Z) -> calls = [] ->
    invoke_all inv ws calls max_concurrency st (Ok []) (cleared_pending st)
| invoke_all_runs s rest b r :
    (forall n, max_concurrency = Some n -> (1 <= n)%Z) -> _stages inv calls = s :: rest ->
    rtc (step (fun i c => call_process inv (ws i) c) (Z.to_nat <$> max_concurrency)) (first_batch st s rest) b ->
    batch_outcome calls b = Some r ->
    invoke_all inv ws calls max_concurrency st r
      (match r with
       | Ok _ => {| interceptor := interceptor (shared b); pending := sorted_escalations calls (pending (shared b));
           ran := ran (shared b) |}
       | Err _ => shared b
       end).
End Batch.

(** ** How a batch is cut *)

Definition reads (inv : ToolInvoker) (s : list Indexed) : Prop := Forall (fun ic => _is_read_only inv (snd ic) = true) s.

Definition well_staged (inv : ToolInvoker) (s : list Indexed) : Prop :=
  s <> [] /\ ((exists ic, s = [ic] /\ _is_read_only inv (snd ic) = false) \/ reads inv s).

(** Two neighbours are never both reads. *)
Definition maximal (inv : ToolInvoker) (stages : list (list Indexed)) : Prop :=
  forall k s1 s2, stages !! k = Some s1 -> stages !! (S k) = Some s2 -> ~ (reads inv s1 /\ reads inv s2).

Lemma maximal_snoc inv l s :
  maximal inv l -> (forall s1, last l = Some s1 -> ~ reads inv s1 \/ ~ reads inv s) -> maximal inv (l ++ [s]).
Proof.
  intros Hm Hl k s1 s2 H1 H2 [Hr1 Hr2]. apply lookup_app_Some in H2 as [H2|[Hk H2]].
  - assert (H1' : l !! k = Some s1).
    { apply lookup_app_Some in H1 as [?|[Hk _]]; [done|]. apply lookup_lt_Some in H2. lia. }
    by apply (Hm k s1 s2).
  - apply list_lookup_singleton_Some in H2 as [Hk' <-]. assert (Hlast : last l = Some s1).
    { rewrite last_lookup. replace (pred (length l)) with k by lia.
      apply lookup_app_Some in H1 as [?|[? _]]; [done|lia]. }
    by destruct (Hl s1 Hlast).
Qed.

Record cut (inv : ToolInvoker) (l : list Indexed) (acc : list (list Indexed) * list Indexed) : Prop := {
  cut_all : concat (fst acc) ++ snd acc = l;
  cut_staged : Forall (well_staged inv) (fst acc);
  cut_reads : reads inv (snd acc);
  cut_maximal : maximal inv (fst acc);
  cut_last s : last (fst acc) = Some s -> ~ reads inv s;
}.

Lemma close_cut inv l acc :
  cut inv l acc ->
  concat (close_reads acc) = l /\ Forall (well_staged inv) (close_reads acc) /\ maximal inv (close_reads acc).
Proof.
  intros [Ha Hs Hr Hm Hl]. unfold close_reads. case_bool_decide as He.
  - rewrite He, app_nil_r in Ha. done.
  - split; [by rewrite concat_app; simpl; rewrite app_nil_r|]. split.
    + apply Forall_app. split; [done|]. constructor; [|done]. split; [done|by right].
    + apply maximal_snoc; [done|]. intros s1 ?. left. by apply Hl.
Qed.

Lemma stage_call_cut inv l acc ic : cut inv l acc -> cut inv (l ++ [ic]) (stage_call inv acc ic).
Proof.
  intros Hc. unfold stage_call. destruct (_is_read_only inv (snd ic)) eqn:E.
  - destruct Hc as [Ha Hs Hr Hm Hl]. split; simpl; try done.
    + by rewrite app_assoc, Ha.
    + apply Forall_app. split; [done|by constructor].
  - destruct (close_cut _ _ _ Hc) as (Ha & Hs & Hm).
    assert (Hx : ~ reads inv [ic]). { unfold reads. rewrite Forall_singleton, E. discriminate. }
    split; simpl.
    + by rewrite app_nil_r, concat_app, Ha.
    + apply Forall_app. split; [done|]. constructor; [|done]. split; [done|]. left. by exists ic.
    + constructor.
    + apply maximal_snoc; [done|]. by right.
    + intros s. rewrite last_snoc. by intros [= <-].
Qed.

Lemma stages_cut inv l acc l0 :
  cut inv l0 acc -> cut inv (l0 ++ l) (foldl (stage_call inv) acc l).
Proof.
  revert acc l0. induction l as [|ic l IH]; intros acc l0 Hc; simpl; [by rewrite app_nil_r|].
  replace (l0 ++ ic :: l) with ((l0 ++ [ic]) ++ l) by (by rewrite <-app_assoc). apply IH. by apply stage_call_cut.
Qed.

Lemma stages_ok inv calls :
  concat (_stages inv calls) = enumerate calls /\ Forall (well_staged inv) (_stages inv calls) /\
  maximal inv (_stages inv calls).
Proof.
  unfold _stages. apply close_cut. apply (stages_cut inv (enumerate calls) ([], []) []).
  split; simpl; [done|constructor|constructor|intros k s1 s2; by rewrite lookup_nil|done].
Qed.

Lemma enumerate_lookup {A} (l : list A) i x : (i, x) ∈ enumerate l <-> l !! i = Some x.
Proof.
  unfold enumerate. rewrite list_elem_of_lookup. setoid_rewrite list_lookup_imap_Some. split.
  - by intros (k & y & Hy & [= -> ->]).
  - intros Hi. exists i, x. done.
Qed.

Lemma enumerate_indices {A} (l : list A) : (enumerate l).*1 = seq 0 (length l).
Proof.
  unfold enumerate. apply list_eq. intros i. rewrite list_lookup_fmap, list_lookup_imap.
  destruct (l !! i) as [x|] eqn:E; simpl; symmetry.
  - apply lookup_lt_Some in E. by apply lookup_seq.
  - apply lookup_ge_None in E. by apply lookup_seq_ge.
Qed.

(** [_stages] keeps every call of the batch, in order and once; a stage is
    one call that may change something or a non-empty run of read-only calls,
    and no two neighbouring stages could be one. *)
Theorem stages_exact inv calls :
  concat (_stages inv calls) = enumerate calls /\
  (forall s, s ∈ _stages inv calls ->
     (exists i c, s = [(i, c)] /\ _is_read_only inv c = false) \/
     (s <> [] /\ forall i c, (i, c) ∈ s -> _is_read_only inv c = true)) /\
  (forall pre s1 s2 post, _stages inv calls = pre ++ s1 :: s2 :: post ->
     exists i c, ((i, c) ∈ s1 \/ (i, c) ∈ s2) /\ _is_read_only inv c = false).
Proof.
  destruct (stages_ok inv calls) as (Hall & Hs & Hm). split; [done|]. split.
  - intros s Hin. destruct (proj1 (Forall_forall _ _) Hs s Hin) as [Hne [([i c] & -> & Hc)|Hr]]; [left; by exists i, c|right].
    split; [done|]. intros i c Hi. by apply (proj1 (Forall_forall _ _) Hr (i, c)).
  - intros pre s1 s2 post He.
    assert (Hin : forall s, s = s1 \/ s = s2 -> well_staged inv s).
    { intros s Hs'. apply (proj1 (Forall_forall _ _) Hs). rewrite He. set_solver. }
    destruct (Hin s1 (or_introl eq_refl)) as [_ [([i c] & -> & Hc)|Hr1]]; [exists i, c; split; [left; constructor|done]|].
    destruct (Hin s2 (or_intror eq_refl)) as [_ [([i c] & -> & Hc)|Hr2]]; [exists i, c; split; [right; constructor|done]|].
    destruct (Hm (length pre) s1 s2); [..|done]; rewrite He.
    + by apply list_lookup_middle.
    + rewrite lookup_app_r by lia. by replace (S (length pre) - length pre) with 1 by lia.
Qed.

(** ** What a process may do *)

Section Sound.
Context {S : Type} `{SecurityInterceptionStrategy S}.
Implicit Types st : InvokerState S.

(** A call's process runs its tool at most once, parks for itself only, and
    answers with its own id. *)
Inductive sound (c : ToolCall) : bool -> Proc (S := S) -> Prop :=
| sound_halt may_run r :
    (forall res, r = Ok res -> tool_call_id res = call_id c /\ result_ok res = true) -> sound c may_run (Halt r)
| sound_seg may_run (runs : InvokerState S -> bool) effect next :
    (forall st, runs st = true -> may_run = true) ->
    (forall st, ran (effect st) = ran st ++ (if runs st then [c] else [])) ->
    (forall st, pending (effect st) = pending st \/
       exists e, pending (effect st) = pending st ++ [e] /\ esc_tool_call_id e = call_id c) ->
    (forall st, sound c (may_run && negb (runs st)) (next st)) ->
    sound c may_run (Seg effect next).

Lemma sound_recording c may_run w r :
  tool_call_id r = call_id c -> result_ok r = true -> sound c may_run (recording w r).
Proof.
  intros Hid Hok. apply sound_seg with (runs := fun _ => false); simpl.
  - done.
  - intros st. by rewrite app_nil_r.
  - by left.
  - intros _. apply sound_halt. unfold record_tool_invocation. intros res.
    destruct (record_answer w) as [|e]; [by intros [= <-]|]. destruct (_contains_critical e); [done|by intros [= <-]].
Qed.

(** What [sound_seg] asks of a step that runs nothing. *)
Definition quiet {A} (c : ToolCall) (m : Step (S := S) A) (P : A -> Prop) : Prop :=
  forall st, ran (snd (m st)) = ran st /\
    (pending (snd (m st)) = pending st \/
     exists e, pending (snd (m st)) = pending st ++ [e] /\ esc_tool_call_id e = call_id c) /\
    match fst (m st) with
    | Ok a => P a
    | Err (Returns r) => tool_call_id r = call_id c /\ result_ok r = true
    | Err (Raises _) => True
    end.

Lemma sound_quiet {A} c may_run w (m : Step A) (k : A -> Proc) P :
  quiet c m P -> (forall a, P a -> sound c may_run (k a)) -> sound c may_run (seg w m k).
Proof.
  intros Hm Hk. apply sound_seg with (runs := fun _ => false); simpl.
  - done.
  - intros st. rewrite app_nil_r. by destruct (Hm st).
  - intros st. by destruct (Hm st) as (_ & ? & _).
  - intros st. rewrite andb_true_r. destruct (Hm st) as (_ & _ & Hr). destruct (fst (m st)) as [a|[e|r]]; [by apply Hk| |].
    + by apply sound_halt.
    + destruct Hr. by apply sound_recording.
Qed.

Lemma checked_quiet {A} c (m : Step (S := S) A) (P : InvokerState S -> A -> InvokerState S -> Prop) :
  (forall st, checked c st (P st) (m st)) -> quiet c m (fun _ => True).
Proof.
  intros Hm st. destruct (Hm st) as [a st1 _ ? ?|r st1 _ (? & He & Ht) ? Hg|e st1 _ ? ?]; simpl.
  - split; [done|]. split; [by left|done].
  - split; [done|]. split; [|by unfold result_ok; rewrite He, Ht].
    destruct Hg as [?|(e & ? & ? & _)]; [by left|right; by exists e].
  - split; [done|]. split; [by left|done].
Qed.

(** Two steps of which the first parks nothing. *)
Lemma then_quiet {A B} c (m : Step A) (k : A -> Step B) P Q :
  (forall st, pending (snd (m st)) = pending st) -> quiet c m P -> (forall a, P a -> quiet c (k a) Q) ->
  quiet c (then_ m k) Q.
Proof.
  intros Hp Hm Hk st. unfold then_. pose proof (Hm st) as (Hr & _ & Ha). specialize (Hp st).
  destruct (m st) as [[a|x] st1]; simpl in *.
  - destruct (Hk a Ha st1) as (Hr1 & Hp1 & Ha1). split; [congruence|]. split; [by rewrite <-Hp|done].
  - split; [done|]. split; [by left|]. by destruct x.
Qed.

Lemma then_quiet_r {A B} c (m : Step A) (k : A -> Step B) P (Q : B -> Prop) :
  quiet c m P -> (forall a st, snd (k a st) = st) ->
  (forall a st, P a -> match fst (k a st) with
    | Ok b => Q b
    | Err (Returns r) => tool_call_id r = call_id c /\ result_ok r = true
    | Err (Raises _) => True
    end) ->
  quiet c (then_ m k) Q.
Proof.
  intros Hm Hs Hk st. unfold then_. pose proof (Hm st) as (Hr & Hp & Ha). destruct (m st) as [[a|x] st1]; simpl in *.
  - rewrite Hs. split; [done|]. split; [done|]. by apply Hk.
  - split; [done|]. split; [done|]. by destruct x.
Qed.

Lemma quiet_weaken {A} c (m : Step A) (P Q : A -> Prop) : quiet c m P -> (forall a, P a -> Q a) -> quiet c m Q.
Proof.
  intros Hm HPQ st. destruct (Hm st) as (? & ? & Ha). split; [done|]. split; [done|].
  destruct (fst (m st)) as [a|[e|r]]; auto.
Qed.

Lemma still_quiet {A} c (m : Step A) (P : A -> Prop) :
  (forall st, snd (m st) = st) ->
  (forall st, match fst (m st) with
    | Ok a => P a
    | Err (Returns r) => tool_call_id r = call_id c /\ result_ok r = true
    | Err (Raises _) => True
    end) -> quiet c m P.
Proof. intros Hs Ha st. rewrite Hs. split; [done|]. split; [by left|apply Ha]. Qed.

Lemma guarded_still {A} c m (r : result Raised A) st : snd (guarded c m r st) = st.
Proof. unfold guarded. destruct r as [a|e]; [done|]. by destruct (_contains_critical e). Qed.

Lemma guarded_quiet {A} c m (r : result Raised A) : quiet c (guarded c m r) (fun _ => True).
Proof.
  apply still_quiet; [apply guarded_still|]. intros st. unfold guarded. destruct r as [a|e]; [done|].
  by destruct (_contains_critical e).
Qed.

Lemma gate_quiet inv w c : quiet c (gate inv w c) (fun _ => True).
Proof.
  unfold gate. apply then_quiet with (P := fun _ => True).
  - intros st. unfold _lookup_tool. by destruct (_registry inv !! call_name c).
  - eapply checked_quiet; intros st; apply lookup_checked.
  - intros tool _. apply then_quiet with (P := fun _ => True).
    + intros st. unfold _check_permission. destruct (_permission_checker inv) as [p|]; [|done]. by destruct (is_permitted p _ _).
    + eapply checked_quiet; intros st; apply permission_checked.
    + intros [] _. apply then_quiet_r with (P := fun _ => True); [|done|done]. eapply checked_quiet; intros st; apply sub_constraints_checked.
Qed.

Lemma validate_quiet w c : quiet c (validate_call w c) (fun _ => True).
Proof.
  unfold validate_call. apply then_quiet with (P := fun _ => True).
  - intros st. unfold check_transport, then_. pose proof (guarded_still c Transport_check_failed (fault_answer w) st) as Hst.
    destruct (guarded _ _ _ st) as [[[f|]|x] st1]; simpl in *; by subst.
  - eapply checked_quiet; intros st; apply transport_checked.
  - intros [] _. eapply checked_quiet; intros st; apply params_checked.
Qed.

Lemma parking_quiet tool c md : quiet c (_track_parking_metadata tool c md) (fun _ => True).
Proof.
  intros st. destruct (parking_outcome tool c md st) as [[m ->]|(st' & -> & Hr & _ & Ha)]; simpl.
  - split; [done|]. split; [by left|done].
  - split; [done|]. split; [|done]. destruct Ha as [?|(e & ? & ? & _)]; [by left|right; by exists e].
Qed.

Lemma receive_quiet w tool c : quiet c (receive w tool c) (fun _ => True).
Proof.
  unfold receive. apply then_quiet with (P := fun _ => True); [intros st; by rewrite guarded_still|apply guarded_quiet|].
  intros reply _. apply then_quiet with (P := fun _ => True).
  - intros st. by destruct (guard_outcome w reply st) as [[e ->]|(m & text & error & -> & _)].
  - apply still_quiet; intros st; by destruct (guard_outcome w reply st) as [[e ->]|(m & text & error & -> & _)].
  - intros x _. by apply then_quiet_r with (P := fun _ => True); [apply parking_quiet|done|].
Qed.

Lemma deliver_quiet c o x : quiet c (deliver c o x) (fun r => tool_call_id r = call_id c /\ result_ok r = true).
Proof.
  destruct x as [[[reply m] text] error]. unfold deliver.
  apply then_quiet_r with (P := fun _ => True); [|done|by intros out st _; split; [done|apply built_ok]].
  destruct o as [context|]; [|by apply still_quiet]. intros st. unfold _scan_output.
  destruct (post_tool context text (interceptor st)) as [[found|e] s]; simpl; [split; [done|]; split; [by left|done]|].
  destruct (_contains_critical e); simpl; (split; [done|]; split; [by left|done]).
Qed.

Definition copied (w : CallWorld) : bool := is_ok (execution_copy w).

Lemma start_tool_outcome w c replaced st :
  if copied w then start_tool w c replaced st = (Ok tt, executed c st)
  else exists x, start_tool w c replaced st = (Err x, st) /\ forall r, x = Returns r -> refusal c r.
Proof.
  unfold copied, start_tool, then_, unguarded, _safe_deepcopy_args, guarded, mark_ran.
  destruct replaced, (execution_copy w) as [[]|e]; simpl; [done|by eexists|done|].
  destruct (_contains_critical e); eexists; (split; [reflexivity|]); intros r [= <-]; done.
Qed.

Lemma start_tool_sound w c replaced k :
  (forall u, sound c false (k u)) -> sound c true (seg w (start_tool w c replaced) k).
Proof.
  intros Hk. pose proof (start_tool_outcome w c replaced) as Ho. apply sound_seg with (runs := fun _ => copied w).
  - done.
  - intros st. specialize (Ho st). destruct (copied w); [by rewrite Ho|].
    destruct Ho as (x & -> & _). by rewrite app_nil_r.
  - intros st. left. specialize (Ho st). destruct (copied w); [by rewrite Ho|]. by destruct Ho as (x & -> & _).
  - intros st. specialize (Ho st). destruct (copied w); [rewrite Ho; apply Hk|].
    destruct Ho as (x & -> & Hx). simpl. destruct x as [e|r]; [by apply sound_halt|].
    destruct (Hx r eq_refl) as (? & He & Ht). apply sound_recording; [done|]. unfold result_ok. by rewrite He, Ht.
Qed.

Lemma call_process_sound inv w c : sound c true (call_process inv w c).
Proof.
  unfold call_process.
  eapply sound_quiet; [apply gate_quiet|]. intros tool _.
  eapply sound_quiet; [apply validate_quiet|]. intros replaced _.
  eapply sound_quiet; [eapply checked_quiet; intros st; apply security_checked|]. intros o _.
  eapply sound_quiet; [eapply checked_quiet; intros st; apply policy_checked|]. intros [] _.
  apply start_tool_sound. intros [].
  eapply sound_quiet; [apply receive_quiet|]. intros x _.
  eapply sound_quiet; [apply deliver_quiet|]. intros r [? ?]. by apply sound_recording.
Qed.

Lemma run_seg {A} w (m : Step (S := S) A) k st :
  run_alone (seg w m k) st =
  match m st with
  | (Ok a, st) => run_alone (k a) st
  | (Err (Returns r), st) => (record_tool_invocation w r, st)
  | (Err (Raises e), st) => (Err e, st)
  end.
Proof. simpl. by destruct (m st) as [[a|[e|r]] st1]. Qed.

(** A call that nobody interrupts does what [_invoke_single] does: cutting
    the pipeline at its awaits adds and loses no behaviour. *)
Theorem process_alone_exact inv w c st : run_alone (call_process inv w c) st = _invoke_single inv w c st.
Proof.
  unfold call_process, _invoke_single, _build_invocation_result, pipeline, gate, validate_call, receive, deliver,
    _execute_tool, then_, done_.
  rewrite run_seg. destruct (_lookup_tool inv c st) as [[tool|[e|r]] st1]; [|done|done].
  destruct (_check_permission inv tool c st1) as [[[]|[e|r]] st2]; [|done|done].
  destruct (_check_sub_constraints inv w tool c st2) as [[[]|[e|r]] st3]; [|done|done].
  rewrite run_seg. destruct (check_transport w c st3) as [[[]|[e|r]] st4]; [|done|done].
  destruct (_validate_params w c st4) as [[replaced|[e|r]] st5]; [|done|done].
  rewrite run_seg. destruct (_check_security inv w tool c st5) as [[o|[e|r]] st6]; [|done|done].
  rewrite run_seg. destruct (_check_policy inv w c st6) as [[[]|[e|r]] st7]; [|done|done].
  rewrite run_seg. destruct (start_tool w c replaced st7) as [[[]|[e|r]] st8]; [|done|done].
  rewrite run_seg. destruct (guarded c Execution_failed (execute_answer w) st8) as [[reply|[e|r]] st9]; [|done|done].
  destruct (_apply_html_guard w reply st9) as [[[[m text] error]|[e|r]] st10]; [|done|done]. cbn [fst snd].
  destruct (_track_parking_metadata tool c (reply_metadata reply) st10) as [[[]|[e|r]] st11]; [|done|done].
  rewrite run_seg. destruct o as [context|]; [|done].
  by destruct (_scan_output c context text m error st11) as [[out|[e|r]] st12].
Qed.
End Sound.

(** ** Invariant of a batch *)

Section Invariant.
Context {S : Type} `{SecurityInterceptionStrategy S}.
Context (proc : nat -> ToolCall -> Proc (S := S)) (inv : ToolInvoker) (slots : option nat) (calls : list ToolCall)
  (st0 : InvokerState S).
Context (Hsound : forall i c, sound c true (proc i c)).
Implicit Types b : Batch (S := S).

(** Every call from [i] to [j] only reads. *)
Definition reads_between (i j : nat) : Prop :=
  forall k c, i <= k <= j -> calls !! k = Some c -> _is_read_only inv c = true.

(** [x] may come before [y]. *)
Definition in_order (x y : nat) : Prop := x < y \/ reads_between y x.

Definition staged (done_ : list (list Indexed)) (ts : list (nat * ToolCall * CallTask (S := S))) (rest : list (list Indexed))
    : Prop :=
  _stages inv calls = done_ ++ (fst <$> ts) :: rest.

Lemma staged_split done_ ts rest :
  staged done_ ts rest -> concat done_ ++ (fst <$> ts) ++ concat rest = enumerate calls.
Proof.
  intros Hs. destruct (stages_ok inv calls) as (Ha & _ & _). rewrite Hs, concat_app in Ha. done.
Qed.

Lemma staged_lookup done_ ts rest k i c t :
  staged done_ ts rest -> ts !! k = Some (i, c, t) -> i = length (concat done_) + k /\ calls !! i = Some c.
Proof.
  intros Hs%staged_split Hk.
  assert (He : enumerate calls !! (length (concat done_) + k) = Some (i, c)).
  { rewrite <-Hs, lookup_app_r by lia. replace (length (concat done_) + k - length (concat done_)) with k by lia.
    rewrite lookup_app_l; [by rewrite list_lookup_fmap, Hk|]. rewrite length_fmap. by eapply lookup_lt_Some. }
  unfold enumerate in He. apply list_lookup_imap_Some in He as (x & Hx & [= -> ->]). done.
Qed.

Lemma staged_length done_ ts rest :
  staged done_ ts rest -> length (concat done_) + length ts + length (concat rest) = length calls.
Proof.
  intros Hs%staged_split. apply (f_equal length) in Hs. unfold enumerate in Hs.
  rewrite !length_app, length_fmap, length_imap in Hs. lia.
Qed.

Lemma staged_elem done_ ts rest i c t :
  staged done_ ts rest -> (i, c, t) ∈ ts ->
  calls !! i = Some c /\ length (concat done_) <= i < length (concat done_) + length ts.
Proof.
  intros Hs [k Hk]%list_elem_of_lookup. destruct (staged_lookup _ _ _ _ _ _ _ Hs Hk) as [-> ?]. split; [done|].
  apply lookup_lt_Some in Hk. lia.
Qed.

Lemma staged_inside done_ ts rest i :
  staged done_ ts rest -> length (concat done_) <= i < length (concat done_) + length ts ->
  exists c t, ts !! (i - length (concat done_)) = Some (i, c, t).
Proof.
  intros Hs Hi. destruct (lookup_lt_is_Some_2 ts (i - length (concat done_))) as [[[i' c] t] Hk]; [lia|].
  destruct (staged_lookup _ _ _ _ _ _ _ Hs Hk) as [-> _]. exists c, t. by rewrite Hk; repeat f_equal; lia.
Qed.

Lemma staged_reads done_ ts rest i1 i2 :
  staged done_ ts rest -> length (concat done_) <= i1 -> i1 < i2 -> i2 < length (concat done_) + length ts ->
  reads_between i1 i2.
Proof.
  intros Hs H1 H2 H3 k c Hk Hc. destruct (staged_inside _ _ _ k Hs) as (c' & t & Hin); [lia|].
  destruct (staged_lookup _ _ _ _ _ _ _ Hs Hin) as [_ Hc']. rewrite Hc in Hc'. injection Hc' as <-.
  destruct (stages_ok inv calls) as (_ & Hw & _). rewrite Hs in Hw. apply Forall_app in Hw as [_ Hw].
  apply Forall_cons in Hw as [[_ [(ic & Hone & _)|Hr]] _].
  - apply (f_equal length) in Hone. rewrite length_fmap in Hone. simpl in Hone. lia.
  - apply (proj1 (Forall_forall _ _) Hr (k, c)). apply list_elem_of_fmap. exists (k, c, t). split; [done|].
    by eapply list_elem_of_lookup_2.
Qed.

Lemma put_staged done_ ts rest k i c t t' :
  staged done_ ts rest -> ts !! k = Some (i, c, t) -> staged done_ (<[k := (i, c, t')]> ts) rest.
Proof.
  unfold staged. intros -> Hk. rewrite list_fmap_insert. simpl. rewrite list_insert_id; [done|].
  by rewrite list_lookup_fmap, Hk.
Qed.

Lemma put_elem (ts : list (nat * ToolCall * CallTask (S := S))) k x y : x ∈ <[k := y]> ts -> x = y \/ x ∈ ts.
Proof.
  intros [j Hj]%list_elem_of_lookup. apply list_lookup_insert_Some in Hj as [(-> & -> & _)|[_ Hj]]; [by left|right].
  by eapply list_elem_of_lookup_2.
Qed.

Lemma put_running (ts : list (nat * ToolCall * CallTask (S := S))) k x y :
  ts !! k = Some x ->
  length (List.filter is_running (<[k := y]> ts)) + (if is_running x then 1 else 0) =
  length (List.filter is_running ts) + (if is_running y then 1 else 0).
Proof.
  revert k. induction ts as [|z ts IH]; intros [|k]; simpl; [done|done| |].
  - intros [= ->]. destruct (is_running x), (is_running y); simpl; lia.
  - intros Hk. specialize (IH k Hk). destruct (is_running z); simpl; lia.
Qed.

(** An index whose call is finished, one whose call has begun, and an
    escalation of a call that has. *)
Definition held (done_ : list (list Indexed)) (ts : list (nat * ToolCall * CallTask (S := S))) (i : nat) (c : ToolCall) : Prop :=
  i < length (concat done_) \/ ts !! (i - length (concat done_)) = Some (i, c, Over).

Definition begun (done_ : list (list Indexed)) (ts : list (nat * ToolCall * CallTask (S := S))) (i : nat) : Prop :=
  i < length (concat done_) \/ exists c t, (i, c, t) ∈ ts /\ t <> Waiting.

Definition owned (ts : list (nat * ToolCall * CallTask (S := S))) (e : EscalationInfo) : Prop :=
  exists i c t, (i, c, t) ∈ ts /\ t <> Waiting /\ esc_tool_call_id e = call_id c.

(** What has happened: the results and errors, what ran and what is parked. *)
Record batch_inv (done_ : list (list Indexed)) (order : list nat) b : Prop := {
  bi_staged : staged done_ (tasks b) (later b);
  bi_done i : i < length (concat done_) -> is_Some (results b !! i);
  bi_over k i c : tasks b !! k = Some (i, c, Over) -> unfailed b = true -> is_Some (results b !! i);
  bi_results i r : results b !! i = Some r ->
    exists c, calls !! i = Some c /\ tool_call_id r = call_id c /\ result_ok r = true /\
      held done_ (tasks b) i c;
  bi_fatal e : e ∈ fatal_errors b -> e = Critical;
  bi_escaped e : e ∈ escaped b -> e <> Critical;
  bi_slots n : slots = Some n -> length (List.filter is_running (tasks b)) <= n;
  bi_before : escalations_before b = 0;
  bi_pending e : e ∈ pending (shared b) -> owned (tasks b) e;
  bi_ran : ran (shared b) = ran st0 ++ omap (fun i => calls !! i) order;
  bi_nodup : NoDup order;
  bi_order : StronglySorted in_order order;
  bi_started i : i ∈ order -> begun done_ (tasks b) i;
  bi_running k i c p : tasks b !! k = Some (i, c, Running p) ->
    exists may_run, sound c may_run p /\ (may_run = true -> i ∉ order);
}.

Lemma staged_unique done_ ts rest k i c t c' t' :
  staged done_ ts rest -> ts !! k = Some (i, c, t) -> (i, c', t') ∈ ts -> c' = c /\ t' = t.
Proof.
  intros Hs Hk [k' Hk']%list_elem_of_lookup. destruct (staged_lookup _ _ _ _ _ _ _ Hs Hk) as [Hi _].
  destruct (staged_lookup _ _ _ _ _ _ _ Hs Hk') as [Hi' _]. assert (k' = k) as -> by lia. rewrite Hk in Hk'.
  by injection Hk' as -> ->.
Qed.

Lemma started_put (ts : list (nat * ToolCall * CallTask (S := S))) k i0 c0 t0 t' i c t :
  ts !! k = Some (i0, c0, t0) -> t' <> Waiting -> (i, c, t) ∈ ts -> t <> Waiting ->
  exists t1, (i, c, t1) ∈ <[k := (i0, c0, t')]> ts /\ t1 <> Waiting.
Proof.
  intros Hk Ht' [j Hj]%list_elem_of_lookup Ht. destruct (decide (j = k)) as [->|Hne].
  - rewrite Hk in Hj. injection Hj as -> -> ->. exists t'. split; [|done].
    apply list_elem_of_lookup. exists k. apply list_lookup_insert_eq. by eapply lookup_lt_Some.
  - exists t. split; [|done]. apply list_elem_of_lookup. exists j. by rewrite list_lookup_insert_ne.
Qed.

Lemma owned_put (ts : list (nat * ToolCall * CallTask (S := S))) k i0 c0 t0 t' e :
  ts !! k = Some (i0, c0, t0) -> t' <> Waiting -> owned ts e -> owned (<[k := (i0, c0, t')]> ts) e.
Proof.
  intros Hk Ht' (i & c & t & Hin & Ht & He). destruct (started_put _ _ _ _ _ _ _ _ _ Hk Ht' Hin Ht) as (t1 & ? & ?).
  by exists i, c, t1.
Qed.

Lemma begun_put done_ (ts : list (nat * ToolCall * CallTask (S := S))) k i0 c0 t0 t' i :
  ts !! k = Some (i0, c0, t0) -> t' <> Waiting -> begun done_ ts i -> begun done_ (<[k := (i0, c0, t')]> ts) i.
Proof.
  intros Hk Ht' [?|(c & t & Hin & Ht)]; [by left|right].
  destruct (started_put _ _ _ _ _ _ _ _ _ Hk Ht' Hin Ht) as (t1 & ? & ?). by exists c, t1.
Qed.

Lemma held_put done_ (ts : list (nat * ToolCall * CallTask (S := S))) k i0 c0 t0 y i c :
  ts !! k = Some (i0, c0, t0) -> t0 <> Over -> held done_ ts i c -> held done_ (<[k := y]> ts) i c.
Proof.
  intros Hk Ht0 [?|Ho]; [by left|right]. rewrite list_lookup_insert_ne; [done|].
  intros Heq. rewrite <-Heq, Hk in Ho. by injection Ho.
Qed.

Lemma task_put_lookup (ts : list (nat * ToolCall * CallTask (S := S))) k x y j z :
  ts !! k = Some x -> <[k := y]> ts !! j = Some z -> (j = k /\ z = y) \/ (j <> k /\ ts !! j = Some z).
Proof.
  intros Hk [(-> & <- & _)|[? ?]]%list_lookup_insert_Some; [by left|by right].
Qed.

(** Starting a task, or cancelling one. *)
Lemma start_inv done_ order b k i c :
  batch_inv done_ order b -> tasks b !! k = Some (i, c, Waiting) -> has_slot slots b = true ->
  batch_inv done_ order (put b k (i, c, Running (proc i c))).
Proof.
  intros Hi Hk Hslot. destruct (staged_lookup _ _ _ _ _ _ _ (bi_staged _ _ _ Hi) Hk) as [Hki _].
  split; simpl; try apply Hi.
  - eapply put_staged; [apply Hi|exact Hk].
  - intros j i1 c1 Hj Hc. destruct (task_put_lookup _ _ _ _ _ _ Hk Hj) as [[_ [=]]|[_ Hj']].
    by eapply (bi_over _ _ _ Hi).
  - intros j r Hr. destruct (bi_results _ _ _ Hi j r Hr) as (c1 & H1 & H2 & H3 & H4). exists c1. split_and!; try done.
    by eapply held_put.
  - intros n Hn. pose proof (put_running (tasks b) k _ (i, c, Running (proc i c)) Hk) as Hrun. simpl in Hrun.
    unfold has_slot in Hslot. rewrite Hn in Hslot. apply Nat.ltb_lt in Hslot. lia.
  - intros e He. by eapply owned_put; [exact Hk| |apply Hi].
  - intros x Hx. by eapply begun_put; [exact Hk| |apply Hi].
  - intros j i1 c1 p Hj. destruct (task_put_lookup _ _ _ _ _ _ Hk Hj) as [[_ [= -> -> ->]]|[_ Hj']].
    + exists true. split; [apply Hsound|]. intros _ Ho. destruct (bi_started _ _ _ Hi i Ho) as [?|(c1 & t1 & Hin & Ht)]; [lia|].
      by destruct (staged_unique _ _ _ _ _ _ _ _ _ (bi_staged _ _ _ Hi) Hk Hin) as [_ ->].
    + by eapply (bi_running _ _ _ Hi).
Qed.

Lemma cancel_inv done_ order b k i c t :
  batch_inv done_ order b -> tasks b !! k = Some (i, c, t) -> t <> Over -> escaped b <> [] ->
  batch_inv done_ order (put b k (i, c, Over)).
Proof.
  intros Hi Hk Ht Hesc. split; simpl; try apply Hi.
  - eapply put_staged; [apply Hi|exact Hk].
  - intros j i1 c1 Hj. unfold unfailed. rewrite andb_true_iff, !bool_decide_eq_true. by intros [_ ?].
  - intros j r Hr. destruct (bi_results _ _ _ Hi j r Hr) as (c1 & H1 & H2 & H3 & H4). exists c1. split_and!; try done.
    by eapply held_put.
  - intros n Hn. pose proof (put_running (tasks b) k _ (i, c, Over) Hk) as Hrun. pose proof (bi_slots _ _ _ Hi n Hn).
    simpl in Hrun. lia.
  - intros e He. by eapply owned_put; [exact Hk| |apply Hi].
  - intros x Hx. by eapply begun_put; [exact Hk| |apply Hi].
  - intros j i1 c1 p Hj. destruct (task_put_lookup _ _ _ _ _ _ Hk Hj) as [[_ [=]]|[_ Hj']]. by eapply (bi_running _ _ _ Hi).
Qed.

(** One resumption. *)
Lemma halt_inv done_ order b k i c may_run r :
  batch_inv done_ order b -> tasks b !! k = Some (i, c, Running (Halt r)) -> sound (S := S) c may_run (Halt r) ->
  batch_inv done_ order (_run_guarded b k i c (Halt r)).
Proof.
  intros Hi Hk Hs. destruct (staged_lookup _ _ _ _ _ _ _ (bi_staged _ _ _ Hi) Hk) as [Hki Hc].
  assert (Hres : forall res, r = Ok res -> tool_call_id res = call_id c /\ result_ok res = true) by (by inversion Hs).
  assert (Hkl : k < length (tasks b)) by (by eapply lookup_lt_Some).
  assert (Hgrow : forall j, is_Some (results b !! j) ->
    is_Some ((match r with Ok res => <[i := res]> (results b) | Err _ => results b end) !! j)).
  { intros j Hj. destruct r as [res|]; [|done]. destruct (decide (j = i)) as [->|]; [by rewrite lookup_insert_eq|].
    by rewrite lookup_insert_ne. }
  split; simpl; try apply Hi.
  - eapply put_staged; [apply Hi|exact Hk].
  - intros j Hj. by apply Hgrow, Hi.
  - intros j i1 c1 Hj. destruct (task_put_lookup _ _ _ _ _ _ Hk Hj) as [[-> [= -> ->]]|[_ Hj']].
    + destruct r as [res|[]]; unfold unfailed; simpl; [by rewrite lookup_insert_eq| | |];
        rewrite andb_true_iff, !bool_decide_eq_true; intros [Ha Hb]; exfalso;
        first [by apply app_nil in Ha as [_ ?]|by apply app_nil in Hb as [_ ?]].
    + intros Hcl. apply Hgrow. apply (bi_over _ _ _ Hi j i1 c1 Hj').
      destruct r as [res|[]]; unfold unfailed in *; simpl in Hcl; [done| | |];
        rewrite andb_true_iff, !bool_decide_eq_true in *; destruct Hcl as [Ha Hb];
        first [by apply app_nil in Ha as [_ ?]|by apply app_nil in Hb as [_ ?]].
  - intros j res Hr. destruct (decide (j = i)) as [->|Hne].
    + exists c. split; [done|].
      destruct r as [res'|e].
      * rewrite lookup_insert_eq in Hr. injection Hr as ->. destruct (Hres res eq_refl). split_and!; try done. right.
        replace (i - length (concat done_)) with k by lia. by apply list_lookup_insert_eq.
      * exfalso. destruct (bi_results _ _ _ Hi i res Hr) as (c1 & _ & _ & _ & [?|Ho]); [lia|].
        replace (i - length (concat done_)) with k in Ho by lia. by rewrite Hk in Ho.
    + assert (Hr' : results b !! j = Some res) by (destruct r; [by rewrite lookup_insert_ne in Hr|done]).
      destruct (bi_results _ _ _ Hi j res Hr') as (c1 & H1 & H2 & H3 & H4). exists c1. split_and!; try done.
      by eapply held_put.
  - intros e. destruct r as [res|[]]; try apply Hi. rewrite elem_of_app, list_elem_of_singleton.
    intros [?|?]; [by apply (bi_fatal _ _ _ Hi)|done].
  - intros e. destruct r as [res|[]]; try apply Hi; rewrite elem_of_app, list_elem_of_singleton;
      (intros [?| ->]; [by apply (bi_escaped _ _ _ Hi)|done]).
  - intros n Hn. pose proof (put_running (tasks b) k _ (i, c, Over) Hk) as Hrun. pose proof (bi_slots _ _ _ Hi n Hn).
    simpl in Hrun. lia.
  - intros e He. by eapply owned_put; [exact Hk| |apply Hi].
  - intros x Hx. by eapply begun_put; [exact Hk| |apply Hi].
  - intros j i1 c1 p Hj. destruct (task_put_lookup _ _ _ _ _ _ Hk Hj) as [[_ [=]]|[_ Hj']]. by eapply (bi_running _ _ _ Hi).
Qed.

Lemma sorted_snoc {A} (R : A -> A -> Prop) l x :
  StronglySorted R l -> (forall y, y ∈ l -> R y x) -> StronglySorted R (l ++ [x]).
Proof.
  induction 1 as [|y l Hl IH Hy]; simpl; intros Hx; [by repeat constructor|]. constructor.
  - apply IH. intros z Hz. apply Hx. by constructor.
  - apply Forall_app. split; [done|]. constructor; [apply Hx; by constructor|done].
Qed.

Lemma seg_inv done_ order b k i c may_run effect next :
  batch_inv done_ order b -> tasks b !! k = Some (i, c, Running (Seg effect next)) ->
  sound c may_run (Seg effect next) -> (may_run = true -> i ∉ order) ->
  exists order', batch_inv done_ order' {|
    shared := effect (shared b); results := results b; fatal_errors := fatal_errors b; escaped := escaped b;
    tasks := <[k := (i, c, Running (next (shared b)))]> (tasks b); later := later b;
    escalations_before := escalations_before b |}.
Proof.
  intros Hi Hk Hs Hfresh. destruct (staged_lookup _ _ _ _ _ _ _ (bi_staged _ _ _ Hi) Hk) as [Hki Hc].
  revert Hki. inversion Hs as [|? runs ? ? Hmay Hran Hpend Hnext]; subst. intros Hki. specialize (Hran (shared b)). specialize (Hpend (shared b)).
  specialize (Hnext (shared b)). specialize (Hmay (shared b)).
  assert (Hthis : (i, c, Running (Seg effect next)) ∈ tasks b) by (by eapply list_elem_of_lookup_2).
  exists (if runs (shared b) then order ++ [i] else order).
  split; simpl; try apply Hi.
  - eapply put_staged; [apply Hi|exact Hk].
  - intros j i1 c1 Hj Hcl. destruct (task_put_lookup _ _ _ _ _ _ Hk Hj) as [[_ [=]]|[_ Hj']]. by eapply (bi_over _ _ _ Hi).
  - intros j r Hr. destruct (bi_results _ _ _ Hi j r Hr) as (c1 & H1 & H2 & H3 & H4). exists c1. split_and!; try done.
    by eapply held_put.
  - intros n Hn. pose proof (put_running (tasks b) k _ (i, c, Running (next (shared b))) Hk) as Hrun.
    pose proof (bi_slots _ _ _ Hi n Hn). simpl in Hrun. lia.
  - intros e He. eapply owned_put; [exact Hk|done|].
    destruct Hpend as [Hp|(e' & Hp & Hid)]; rewrite Hp in He; [by apply Hi|].
    apply elem_of_app in He as [He|He%list_elem_of_singleton]; [by apply Hi|subst e']. by exists i, c, (Running (Seg effect next)).
  - rewrite Hran, (bi_ran _ _ _ Hi). destruct (runs (shared b)); [|by rewrite app_nil_r].
    rewrite omap_app. simpl. by rewrite Hc, <-app_assoc.
  - destruct (runs (shared b)); [|apply Hi]. apply NoDup_app. split; [apply Hi|]. split; [|apply NoDup_singleton].
    intros x Hx ->%list_elem_of_singleton. by apply Hfresh; [apply Hmay|].
  - destruct (runs (shared b)); [|apply Hi]. apply sorted_snoc; [apply Hi|]. intros x Hx. unfold in_order.
    destruct (decide (x < i)); [by left|right]. destruct (bi_started _ _ _ Hi x Hx) as [?|(c1 & t1 & Hin & Ht)]; [lia|].
    destruct (staged_elem _ _ _ _ _ _ (bi_staged _ _ _ Hi) Hin) as [Hcx Hbx].
    destruct (decide (x = i)) as [->|Hne]; [|eapply staged_reads; [apply Hi|lia|lia|lia]].
    exfalso. by apply Hfresh; [apply Hmay; destruct (runs (shared b))|].
  - intros x Hx. assert (Hx' : x ∈ order \/ x = i) by (destruct (runs (shared b)); set_solver).
    eapply begun_put; [exact Hk|done|]. destruct Hx' as [Hx'| ->]; [by apply Hi|]. right. by eexists _, _.
  - intros j i1 c1 p Hj. destruct (task_put_lookup _ _ _ _ _ _ Hk Hj) as [[_ [= -> -> ->]]|[Hjk Hj']].
    + exists (may_run && negb (runs (shared b))). split; [done|]. intros [Hm Hr]%andb_true_iff.
      destruct (runs (shared b)); [done|]. by apply Hfresh.
    + destruct (bi_running _ _ _ Hi j i1 c1 p Hj') as (m & Hsm & Hfr). exists m. split; [done|]. intros Hm.
      destruct (runs (shared b)); [|by apply Hfr]. rewrite elem_of_app, list_elem_of_singleton.
      intros [?|Heq]; [by apply Hfr|]. destruct (staged_lookup _ _ _ _ _ _ _ (bi_staged _ _ _ Hi) Hj') as [? _]. lia.
Qed.

Lemma settled_over b k i c t : all_over b = true -> tasks b !! k = Some (i, c, t) -> t = Over.
Proof.
  unfold all_over. rewrite forallb_forall. intros Hall Hk. specialize (Hall (i, c, t)).
  rewrite <-list_elem_of_In in Hall. specialize (Hall (list_elem_of_lookup_2 _ _ _ Hk)). by destruct t.
Qed.

Lemma settled_results done_ order b i :
  batch_inv done_ order b -> all_over b = true -> unfailed b = true ->
  i < length (concat done_) + length (tasks b) -> is_Some (results b !! i).
Proof.
  intros Hi Hset Hcl Hlt. destruct (decide (i < length (concat done_))); [by apply Hi|].
  destruct (staged_inside _ _ _ i (bi_staged _ _ _ Hi)) as (c & t & Hk); [lia|].
  rewrite (settled_over _ _ _ _ _ Hset Hk) in Hk. by eapply (bi_over _ _ _ Hi).
Qed.

Lemma held_lt done_ order b i c : batch_inv done_ order b -> held done_ (tasks b) i c ->
  i < length (concat done_) + length (tasks b).
Proof. intros Hi [?|Ho]; [lia|]. apply lookup_lt_Some in Ho. lia. Qed.

Lemma begun_lt done_ order b i : batch_inv done_ order b -> begun done_ (tasks b) i ->
  i < length (concat done_) + length (tasks b).
Proof.
  intros Hi [?|(c & t & Hin & _)]; [lia|]. apply (staged_elem _ _ _ _ _ _ (bi_staged _ _ _ Hi)) in Hin. lia.
Qed.

Lemma waiting_fst (s : list Indexed) : fst <$> (waiting_stage s : list (nat * ToolCall * CallTask (S := S))) = s.
Proof. unfold waiting_stage. rewrite <-list_fmap_compose. apply list_fmap_id. Qed.

Lemma waiting_only (s : list Indexed) x :
  x ∈ (waiting_stage s : list (nat * ToolCall * CallTask (S := S))) -> snd x = Waiting.
Proof. unfold waiting_stage. rewrite list_elem_of_fmap. by intros (ic & -> & _). Qed.

Lemma waiting_idle (s : list Indexed) :
  List.filter is_running (waiting_stage s : list (nat * ToolCall * CallTask (S := S))) = [].
Proof. by induction s. Qed.

Lemma next_inv done_ order b s rest :
  batch_inv done_ order b -> all_over b = true -> unfailed b = true -> parked b = false -> later b = s :: rest ->
  batch_inv (done_ ++ [fst <$> tasks b]) order (open_stage b s rest).
Proof.
  intros Hi Hset Hcl Hpark Hl.
  assert (Hlen : length (concat (done_ ++ [fst <$> tasks b])) = length (concat done_) + length (tasks b)).
  { rewrite concat_app, length_app. simpl. rewrite app_nil_r, length_fmap. done. }
  assert (Hpend : pending (shared b) = []).
  { unfold parked in Hpark. rewrite (bi_before _ _ _ Hi) in Hpark. apply Nat.ltb_ge in Hpark. apply length_zero_iff_nil. lia. }
  assert (Hw : forall k x, (waiting_stage s : list (nat * ToolCall * CallTask (S := S))) !! k = Some x -> snd x = Waiting).
  { intros k x Hx. apply (waiting_only s), (list_elem_of_lookup_2 _ _ _ Hx). }
  split; simpl; try apply Hi.
  - unfold staged. rewrite waiting_fst, <-app_assoc. simpl. rewrite <-Hl. apply Hi.
  - intros i. rewrite Hlen. by apply (settled_results _ _ _ _ Hi).
  - intros k i c Hk. by specialize (Hw _ _ Hk).
  - intros i r Hr. destruct (bi_results _ _ _ Hi i r Hr) as (c & H1 & H2 & H3 & H4). exists c. split_and!; try done.
    left. rewrite Hlen. by eapply held_lt.
  - intros n Hn. rewrite waiting_idle. simpl. lia.
  - by rewrite Hpend.
  - intros e. rewrite Hpend. by intros ?%not_elem_of_nil.
  - intros i Ho. left. rewrite Hlen. eapply begun_lt; [exact Hi|by apply Hi].
  - intros k i c p Hk. by specialize (Hw _ _ Hk).
Qed.

(** A segment that ends the call settles it at once. *)
Lemma resume_inv done_ order b k i c may_run effect next :
  batch_inv done_ order b -> tasks b !! k = Some (i, c, Running (Seg effect next)) ->
  sound c may_run (Seg effect next) -> (may_run = true -> i ∉ order) ->
  exists order', batch_inv done_ order' (_run_guarded b k i c (Seg effect next)).
Proof.
  intros Hi Hk Hs Hfresh. destruct (seg_inv _ _ _ _ _ _ _ _ _ Hi Hk Hs Hfresh) as [order' Hi']. exists order'.
  unfold _run_guarded. simpl. destruct (next (shared b)) as [r|effect' next'] eqn:Hn; [|done].
  assert (Hk' : <[k := (i, c, Running (Halt r))]> (tasks b) !! k = Some (i, c, Running (Halt r))).
  { apply list_lookup_insert_eq. by eapply lookup_lt_Some. }
  destruct (bi_running _ _ _ Hi' k i c (Halt r) Hk') as (m & Hsm & _).
  pose proof (halt_inv _ _ _ _ _ _ _ _ Hi' Hk' Hsm) as Hh. unfold _run_guarded in Hh. simpl in Hh.
  by rewrite list_insert_insert_eq in Hh.
Qed.

Lemma act_inv done_ order b a b' :
  batch_inv done_ order b -> loop_act proc slots b a = Some b' -> exists done1 order1, batch_inv done1 order1 b'.
Proof.
  intros Hi Ha. destruct a as [k|k|k|]; simpl in Ha.
  - destruct (tasks b !! k) as [[[i c] [|p|]]|] eqn:Hk; try done. destruct (has_slot slots b) eqn:Hs; [|done].
    injection Ha as <-. exists done_, order. by apply start_inv.
  - destruct (tasks b !! k) as [[[i c] [|p|]]|] eqn:Hk; try done. injection Ha as <-. exists done_.
    destruct (bi_running _ _ _ Hi k i c p Hk) as (m & Hsm & Hfr). destruct p as [r|effect next].
    + exists order. by eapply halt_inv.
    + by eapply resume_inv.
  - exists done_, order. destruct (tasks b !! k) as [[[i c] [|p|]]|] eqn:Hk; try done; case_bool_decide; try done;
      injection Ha as <-; by eapply cancel_inv.
  - destruct (all_over b) eqn:Hset; [|done]. destruct (unfailed b) eqn:Hcl; [|done]. destruct (parked b) eqn:Hp; [done|].
    simpl in Ha. destruct (later b) as [|s rest] eqn:Hl; [done|]. injection Ha as <-. eexists _, _. by apply next_inv.
Qed.

Lemma first_inv s rest : _stages inv calls = s :: rest -> batch_inv [] [] (first_batch st0 s rest).
Proof.
  intros Hs. split; simpl; try done.
  - unfold staged. by rewrite waiting_fst.
  - lia.
  - intros k i c Hk. by pose proof (waiting_only s _ (list_elem_of_lookup_2 _ _ _ Hk)).
  - intros e He. by apply not_elem_of_nil in He.
  - intros e He. by apply not_elem_of_nil in He.
  - intros n Hn. rewrite waiting_idle. simpl. lia.
  - intros e He. by apply not_elem_of_nil in He.
  - by rewrite app_nil_r.
  - constructor.
  - constructor.
  - intros i Hi. by apply not_elem_of_nil in Hi.
  - intros k i c p Hk. by pose proof (waiting_only s _ (list_elem_of_lookup_2 _ _ _ Hk)).
Qed.

Lemma batch_reachable_inv s rest b :
  _stages inv calls = s :: rest -> rtc (step proc slots) (first_batch st0 s rest) b ->
  exists done_ order, batch_inv done_ order b.
Proof.
  intros Hs Hb. pose proof (first_inv s rest Hs) as H0. revert H0. generalize ([] : list (list Indexed)), ([] : list nat).
  induction Hb as [|b1 b2 b3 [a Ha] _ IH]; intros d o Hi; [by exists d, o|].
  destruct (act_inv _ _ _ _ _ Hi Ha) as (d' & o' & Hi'). by eapply IH.
Qed.

(** ** Results *)

Lemma collect_ok m l : collect calls m = Ok l -> length l = length calls /\ forall i, i < length calls -> l !! i = m !! i.
Proof.
  unfold collect. assert (Hgen : forall k n l0,
    foldr (fun i acc => match m !! i with Some r => let* l := acc in Ok (r :: l) | None => Err (Missing_result i) end)
      (Ok []) (seq k n) = Ok l0 -> length l0 = n /\ forall i, i < n -> l0 !! i = m !! (k + i)).
  { intros k n. revert k. induction n as [|n IH]; intros k l0; simpl; [intros [= <-]; by split; [|lia]|].
    destruct (m !! k) as [r|] eqn:Hk; [|done]. intros (l1 & H1 & [= <-])%rbind_ok. destruct (IH (Datatypes.S k) l1 H1) as [Hl Hi].
    split; [simpl; lia|]. intros [|i] Hlt; simpl; [by rewrite Nat.add_0_r, Hk|]. rewrite Hi by lia. f_equal. lia. }
  intros Hc. by apply (Hgen 0).
Qed.

Lemma collect_total m : (forall i, i < length calls -> is_Some (m !! i)) -> is_ok (collect calls m) = true.
Proof.
  unfold collect. generalize (length calls) as n. intros n Hm. assert (Hgen : forall j k, k + j <= n ->
    is_ok (foldr (fun i acc => match m !! i with Some r => let* l := acc in Ok (r :: l) | None => Err (Missing_result i) end)
      (Ok []) (seq k j)) = true).
  { induction j as [|j IH]; intros k Hk; simpl; [done|]. destruct (Hm k) as [r ->]; [lia|].
    specialize (IH (Datatypes.S k)). destruct (foldr _ _ _); [done|]. apply IH. lia. }
  apply Hgen. lia.
Qed.

Lemma withhold_lookup stages m i :
  (forall j c, (j, c) ∈ concat stages -> calls !! j = Some c) ->
  _withhold_after_park stages m !! i = if decide (i ∈ (concat stages).*1) then not_run <$> calls !! i else m !! i.
Proof.
  unfold _withhold_after_park. generalize (concat stages) as l. intros l. revert m.
  induction l as [|[j c] l IH]; intros m Hl.
  { destruct (decide _) as [Hin|]; [by apply not_elem_of_nil in Hin|done]. }
  cbn [foldl fst snd]. rewrite IH by (intros j' c' Hin; apply Hl; by constructor). rewrite fmap_cons.
  destruct (decide (i ∈ l.*1)) as [Hin|Hin].
  - rewrite decide_True; [done|]. by apply elem_of_cons; right.
  - destruct (decide (i = j)) as [->|Hne].
    + rewrite lookup_insert_eq, decide_True by (apply elem_of_cons; by left). by rewrite (Hl j c) by constructor.
    + rewrite lookup_insert_ne by done. rewrite decide_False; [done|]. by intros [?|?]%elem_of_cons.
Qed.

Lemma later_indices done_ ts rest i :
  staged done_ ts rest ->
  i ∈ (concat rest).*1 <-> length (concat done_) + length ts <= i < length calls.
Proof.
  intros Hs. pose proof (staged_length _ _ _ Hs) as Hn. apply staged_split in Hs.
  apply (f_equal (fmap fst)) in Hs. rewrite enumerate_indices, !fmap_app in Hs.
  assert (Hr : (concat rest).*1 = seq (length (concat done_) + length ts) (length (concat rest))).
  { apply (f_equal (drop (length (concat done_) + length ts))) in Hs. rewrite app_assoc, drop_app_length' in Hs
      by (rewrite length_app, !length_fmap; done).
    rewrite Hs. rewrite <-Hn. rewrite (seq_app (length (concat done_) + length ts)), drop_app_length' by (by rewrite length_seq).
    done. }
  rewrite Hr, elem_of_seq. lia.
Qed.

(** What a batch that returned has done: the calls before [n] were attempted. *)
Record batch_done (st : InvokerState S) (l : list ToolResult) (n : nat) (order : list nat) : Prop := {
  bd_bound : n <= length calls;
  bd_results i c : calls !! i = Some c ->
    exists r, l !! i = Some r /\ tool_call_id r = call_id c /\ result_ok r = true /\ (n <= i -> r = not_run c);
  bd_ran : ran st = ran st0 ++ omap (fun i => calls !! i) order;
  bd_nodup : NoDup order;
  bd_order : StronglySorted in_order order;
  bd_attempted i : i ∈ order -> i < n;
  bd_parked : n < length calls -> pending st <> [];
  bd_pending e : e ∈ pending st -> exists i c, i < n /\ calls !! i = Some c /\ esc_tool_call_id e = call_id c /\
    (i = n - 1 \/ reads_between i (n - 1));
}.

Lemma inv_results done_ order b m l n :
  batch_inv done_ order b -> n = length (concat done_) + length (tasks b) ->
  (forall i c, calls !! i = Some c -> m !! i = if decide (n <= i) then Some (not_run c) else results b !! i) ->
  all_over b = true -> unfailed b = true -> collect calls m = Ok l -> (n < length calls -> pending (shared b) <> []) ->
  batch_done (shared b) l n order.
Proof.
  intros Hi Hn Hm Hset Hcl Hl Hp. destruct (collect_ok _ _ Hl) as [Hlen Hlook].
  pose proof (staged_length _ _ _ (bi_staged _ _ _ Hi)) as Htot. split; try apply Hi.
  - lia.
  - intros i c Hc. pose proof (lookup_lt_Some _ _ _ Hc) as Hlt. rewrite (Hlook i Hlt), (Hm i c Hc).
    destruct (decide (n <= i)) as [Hni|Hni]; [by exists (not_run c)|].
    destruct (settled_results _ _ _ i Hi Hset Hcl) as [r Hr]; [lia|]. exists r. rewrite Hr.
    destruct (bi_results _ _ _ Hi i r Hr) as (c' & Hc' & ? & ? & _). rewrite Hc in Hc'. injection Hc' as <-.
    by split_and!.
  - intros i Ho. rewrite Hn. eapply begun_lt; [exact Hi|by apply Hi].
  - done.
  - intros e He. destruct (bi_pending _ _ _ Hi e He) as (i & c & t & Hin & _ & Hid).
    destruct (staged_elem _ _ _ _ _ _ (bi_staged _ _ _ Hi) Hin) as [Hc Hb]. exists i, c. split; [lia|]. split_and!; try done.
    destruct (decide (i = n - 1)); [by left|right]. eapply staged_reads; [apply Hi|lia|lia|lia].
Qed.

Lemma outcome_done done_ order b l :
  batch_inv done_ order b -> batch_outcome calls b = Some (Ok l) -> exists n, batch_done (shared b) l n order.
Proof.
  intros Hi. unfold batch_outcome. destruct (all_over b) eqn:Hset; simpl; [|done].
  case_bool_decide as Hesc; simpl; [|done]. destruct (fatal_errors b) as [|e1 [|e2 es]] eqn:Hf; simpl; [|done|done].
  assert (Hcl : unfailed b = true) by (unfold unfailed; by rewrite Hesc, Hf).
  set (n := length (concat done_) + length (tasks b)).
  pose proof (staged_length _ _ _ (bi_staged _ _ _ Hi)) as Htot.
  assert (Helem : forall j c, (j, c) ∈ concat (later b) -> calls !! j = Some c).
  { intros j c Hin. apply enumerate_lookup. rewrite <-(staged_split _ _ _ (bi_staged _ _ _ Hi)). set_solver. }
  destruct (parked b) eqn:Hp; [|case_bool_decide as Hl; [|done]]; intros [= Hc]; exists n.
  - eapply inv_results; try done.
    + intros i c Hic. rewrite withhold_lookup by done. pose proof (lookup_lt_Some _ _ _ Hic).
      destruct (decide (i ∈ _)) as [Hin|Hin]; rewrite (later_indices _ _ _ _ (bi_staged _ _ _ Hi)) in Hin;
        destruct (decide (n <= i)); try lia; [by rewrite Hic|done].
    + intros _ Hnil. unfold parked in Hp. rewrite Hnil, Nat.ltb_lt in Hp. simpl in Hp. lia.
  - rewrite Hl in Htot. simpl in Htot. eapply inv_results; try done.
    + intros i c Hic. pose proof (lookup_lt_Some _ _ _ Hic). destruct (decide (n <= i)); [lia|done].
    + lia.
Qed.

(** The errors a batch may end with; a result is never missing. *)
Definition batch_error (e : BatchError) : Prop :=
  match e with
  | Fatal x => x = Critical
  | Fatal_group es => 2 <= length es /\ forall x, x ∈ es -> x = Critical
  | Task_group es => es <> [] /\ forall x, x ∈ es -> x <> Critical
  | _ => False
  end.

Lemma is_ok_err {E A} (r : result E A) e : is_ok r = true -> r <> Err e.
Proof. by destruct r. Qed.

Lemma outcome_error done_ order b e :
  batch_inv done_ order b -> batch_outcome calls b = Some (Err e) -> batch_error e.
Proof.
  intros Hi. unfold batch_outcome. destruct (all_over b) eqn:Hset; simpl; [|done].
  case_bool_decide as Hesc; simpl; [|intros [= <-]; split; [done|apply Hi]].
  pose proof (bi_fatal _ _ _ Hi) as Hfat. destruct (fatal_errors b) as [|e1 [|e2 es]] eqn:Hf; simpl.
  2: { intros [= <-]. apply Hfat. by constructor. }
  2: { intros [= <-]. split; [simpl; lia|done]. }
  assert (Hcl : unfailed b = true) by (unfold unfailed; by rewrite Hesc, Hf).
  pose proof (staged_length _ _ _ (bi_staged _ _ _ Hi)) as Htot.
  assert (Hall : forall i, i < length (concat done_) + length (tasks b) -> is_Some (results b !! i))
    by (intros i; by apply (settled_results _ _ _ i Hi Hset Hcl)).
  destruct (parked b) eqn:Hp; [|case_bool_decide as Hl; [|done]]; intros [= Hc]; exfalso; revert Hc; apply is_ok_err;
    apply collect_total; intros i Hlt.
  - rewrite withhold_lookup.
    2: { intros j c Hin. apply enumerate_lookup. rewrite <-(staged_split _ _ _ (bi_staged _ _ _ Hi)). set_solver. }
    destruct (decide (i ∈ _)) as [Hin|Hin].
    + destruct (lookup_lt_is_Some_2 calls i Hlt) as [c ->]. by eexists.
    + rewrite (later_indices _ _ _ _ (bi_staged _ _ _ Hi)) in Hin. apply Hall. lia.
  - rewrite Hl in Htot. simpl in Htot. apply Hall. lia.
Qed.

(** ** A batch ends *)

Inductive lower_task : nat * ToolCall * CallTask (S := S) -> nat * ToolCall * CallTask (S := S) -> Prop :=
| lower_start i c : lower_task (i, c, Running (proc i c)) (i, c, Waiting)
| lower_cancel i c : lower_task (i, c, Over) (i, c, Waiting)
| lower_over i c p : lower_task (i, c, Over) (i, c, Running p)
| lower_seg i c effect next st : lower_task (i, c, Running (next st)) (i, c, Running (Seg effect next)).

Lemma lower_over_acc i c : Acc lower_task (i, c, Over).
Proof. constructor. intros y Hy. inversion Hy. Qed.

Lemma lower_running_acc i c p : Acc lower_task (i, c, Running p).
Proof.
  induction p as [r|effect next IH]; constructor; intros y Hy; inversion Hy; subst; try apply lower_over_acc. apply IH.
Qed.

Lemma lower_acc x : Acc lower_task x.
Proof.
  destruct x as [[i c] [|p|]]; [|apply lower_running_acc|apply lower_over_acc].
  constructor. intros y Hy. inversion Hy; subst; [apply lower_running_acc|apply lower_over_acc].
Qed.

Definition one_lower (ts ts' : list (nat * ToolCall * CallTask (S := S))) : Prop :=
  exists k x y, ts' !! k = Some x /\ lower_task y x /\ ts = <[k := y]> ts'.

Lemma one_lower_acc ts : Acc one_lower ts.
Proof.
  induction ts as [|x ts IH]; [constructor; by intros ? (k & x & y & ? & _)|].
  revert x. assert (Hgen : forall x, Acc lower_task x -> Acc one_lower (x :: ts)); [|intros x; apply Hgen, lower_acc].
  induction IH as [ts Hts IHts]. intros x Hx. induction Hx as [x Hx IHx]. constructor.
  intros ts' ([|k] & x' & y & Hk & Hl & ->); simpl in *.
  - injection Hk as ->. by apply IHx.
  - apply IHts; [|by constructor]. by exists k, x', y.
Qed.

Lemma act_lower b a b' :
  loop_act proc slots b a = Some b' ->
  (later b' = later b /\ one_lower (tasks b') (tasks b)) \/ length (later b') < length (later b).
Proof.
  unfold one_lower. destruct a as [k|k|k|]; simpl; intros Ha.
  - left. destruct (tasks b !! k) as [[[i c] [|p|]]|] eqn:Hk; try done. destruct (has_slot slots b); [|done].
    injection Ha as <-. split; [done|]. eexists k, _, _. split; [exact Hk|]. split; [constructor|done].
  - left. destruct (tasks b !! k) as [[[i c] [|p|]]|] eqn:Hk; try done. injection Ha as <-. unfold _run_guarded.
    destruct p as [r|effect next]; simpl; [|destruct (next (shared b)) eqn:Hn; simpl];
      (split; [done|]); eexists k, _, _; (split; [exact Hk|]); (split; [|reflexivity]); try apply lower_over.
    rewrite <-Hn. apply lower_seg.
  - left. destruct (tasks b !! k) as [[[i c] [|p|]]|] eqn:Hk; try done; case_bool_decide; try done; injection Ha as <-;
      (split; [done|]); eexists k, _, _; (split; [exact Hk|]); (split; [|reflexivity]);
      first [apply lower_cancel|apply lower_over].
  - right. destruct (_ && _); [|done]. destruct (later b) as [|s rest]; [done|]. injection Ha as <-. simpl. lia.
Qed.

Lemma batch_acc b : Acc (fun b2 b1 => step proc slots b1 b2) b.
Proof.
  assert (Hgen : forall n b1, length (later b1) < n -> Acc (fun b2 b1 => step proc slots b1 b2) b1); [|apply (Hgen (Datatypes.S (length (later b)))); lia].
  induction n as [|n IH]; intros b1 Hlt; [lia|].
  assert (Hts : forall ts b2, tasks b2 = ts -> length (later b2) <= n -> Acc (fun b2 b1 => step proc slots b1 b2) b2).
  { intros ts. induction (one_lower_acc ts) as [ts _ IHts]. intros b2 <- Hl. constructor. intros b3 [a Ha].
    destruct (act_lower _ _ _ Ha) as [[Hsame Hone]|Hless]; [|apply IH; lia].
    apply (IHts _ Hone); [done|by rewrite Hsame]. }
  eapply Hts; [reflexivity|lia].
Qed.

Lemma batch_progress b :
  (forall n, slots = Some n -> 1 <= n) -> batch_outcome calls b = None -> exists b', step proc slots b b'.
Proof.
  intros Hslots Ho. unfold batch_outcome in Ho. destruct (all_over b) eqn:Hset; simpl in Ho.
  - case_bool_decide as Hesc; simpl in Ho; [|done]. destruct (fatal_errors b) as [|e1 [|e2 es]] eqn:Hf; simpl in Ho; [|done|done].
    destruct (parked b) eqn:Hp; [done|]. case_bool_decide as Hl; [done|]. destruct (later b) as [|s rest] eqn:Hlb; [done|].
    eexists _, Next. simpl. unfold unfailed. rewrite Hset, Hp, Hesc, Hf, Hlb. simpl. done.
  - destruct (List.filter is_running (tasks b)) as [|x l] eqn:Hrun.
    + assert (Hx : exists x, x ∈ tasks b /\ is_over x = false).
      { unfold all_over in Hset. induction (tasks b) as [|x ts IH]; simpl in *; [done|].
        destruct (is_over x) eqn:Hx; [|exists x; split; [by constructor|done]].
        destruct (is_running x); [done|]. destruct (IH Hset Hrun) as (y & ? & ?). exists y. split; [by constructor|done]. }
      destruct Hx as ([[i c] t] & Hin & Hnot). apply list_elem_of_lookup in Hin as [k Hk].
      destruct t as [|p|]; [|exfalso|done].
      * eexists _, (Start k). simpl. rewrite Hk. unfold has_slot. rewrite Hrun.
        destruct slots as [n|] eqn:Hn; [|done]. specialize (Hslots n eq_refl). simpl.
        rewrite (proj2 (Nat.ltb_lt 0 n)) by lia. done.
      * assert (Hin : In (i, c, Running p) (List.filter is_running (tasks b))).
        { apply filter_In. split; [|done]. apply list_elem_of_In. by eapply list_elem_of_lookup_2. }
        by rewrite Hrun in Hin.
    + assert (Hin : In x (tasks b) /\ is_running x = true) by (apply filter_In; rewrite Hrun; by left).
      destruct Hin as [Hin Hr]. apply list_elem_of_In, list_elem_of_lookup in Hin as [k Hk].
      destruct x as [[i c] [|p|]]; [done| |done]. eexists _, (Resume k). simpl. by rewrite Hk.
Qed.
End Invariant.

(** ** The order of the escalations *)

Section Sort.
Context {A : Type} (key : A -> nat).

Lemma keyed_insert_perm x l : insert_by key x l ≡ₚ x :: l.
Proof.
  induction l as [|y l IH]; simpl; [done|]. destruct (key x <? key y); [done|]. rewrite IH. by rewrite Permutation_swap.
Qed.

Lemma insert_by_sorted x l :
  StronglySorted (fun a b => key a <= key b) l -> StronglySorted (fun a b => key a <= key b) (insert_by key x l).
Proof.
  induction 1 as [|y l Hl IH Hy]; simpl; [by repeat constructor|]. destruct (key x <? key y) eqn:Hk.
  - apply Nat.ltb_lt in Hk. constructor; [by constructor|]. constructor; [lia|].
    eapply Forall_impl; [exact Hy|]. simpl. lia.
  - apply Nat.ltb_ge in Hk. constructor; [done|]. rewrite keyed_insert_perm. by constructor.
Qed.

(** Equal keys keep their order. *)
Lemma insert_by_stable x l k :
  StronglySorted (fun a b => key a <= key b) l ->
  List.filter (fun a => key a =? k) (insert_by key x l) =
  List.filter (fun a => key a =? k) l ++ (if key x =? k then [x] else []).
Proof.
  induction 1 as [|y l Hl IH Hy]; simpl; [done|]. destruct (key x <? key y) eqn:Hk; simpl.
  - apply Nat.ltb_lt in Hk. destruct (key x =? k) eqn:Hx; [|by rewrite app_nil_r]. apply Nat.eqb_eq in Hx.
    rewrite (proj2 (Nat.eqb_neq (key y) k)) by lia. assert (Hnil : List.filter (fun a => key a =? k) l = []).
    { clear -Hy Hx Hk. induction Hy as [|z l Hz Hy IH]; simpl; [done|]. rewrite (proj2 (Nat.eqb_neq (key z) k)) by lia. done. }
    by rewrite Hnil.
  - rewrite IH. by destruct (key y =? k).
Qed.

Lemma sort_by_acc l acc :
  StronglySorted (fun a b => key a <= key b) acc ->
  foldl (fun acc x => insert_by key x acc) acc l ≡ₚ acc ++ l /\
  StronglySorted (fun a b => key a <= key b) (foldl (fun acc x => insert_by key x acc) acc l) /\
  forall k, List.filter (fun a => key a =? k) (foldl (fun acc x => insert_by key x acc) acc l) =
    List.filter (fun a => key a =? k) (acc ++ l).
Proof.
  revert acc. induction l as [|x l IH]; intros acc Hacc; simpl; [by rewrite app_nil_r|].
  destruct (IH _ (insert_by_sorted x acc Hacc)) as (Hp & Hs & Hf). split; [|split; [done|]].
  - rewrite Hp, keyed_insert_perm. simpl. by rewrite Permutation_middle.
  - intros k. rewrite Hf, !List.filter_app, insert_by_stable by done. simpl. rewrite <-app_assoc. by destruct (key x =? k).
Qed.

Lemma sort_by_exact l :
  sort_by key l ≡ₚ l /\ StronglySorted (fun a b => key a <= key b) (sort_by key l) /\
  forall k, List.filter (fun a => key a =? k) (sort_by key l) = List.filter (fun a => key a =? k) l.
Proof. apply (sort_by_acc l []). constructor. Qed.
End Sort.

(** ** Claims *)

Section Claims.
Context {S : Type} `{SecurityInterceptionStrategy S}.
Context (inv : ToolInvoker) (ws : nat -> CallWorld) (calls : list ToolCall) (max_concurrency : option Z)
  (st : InvokerState S).

Definition process (i : nat) (c : ToolCall) : Proc (S := S) := call_process inv (ws i) c.

(** A state the event loop can bring the batch to. *)
Definition reached (b : Batch) : Prop :=
  exists s rest, _stages inv calls = s :: rest /\
    rtc (step process (Z.to_nat <$> max_concurrency)) (first_batch st s rest) b.

Lemma reached_inv b : reached b ->
  exists done_ order, batch_inv inv (Z.to_nat <$> max_concurrency) calls st done_ order b.
Proof.
  intros (s & rest & Hs & Hb). eapply batch_reachable_inv; [|exact Hs|exact Hb]. intros i c. apply call_process_sound.
Qed.

(** C4: whatever the event loop does, while a call of a batch is in flight
    every earlier call has its result and no later call has begun, unless all
    the calls in between, both included, are read-only; so a call that may
    change something is in flight alone, in its place. Never more calls are
    in flight than [max_concurrency] allows. *)
Theorem calls_respect_order b j c p :
  reached b -> (j, c, Running p) ∈ tasks b ->
  calls !! j = Some c /\
  (forall i, i < j -> is_Some (results b !! i) \/
     forall k c', i <= k <= j -> calls !! k = Some c' -> _is_read_only inv c' = true) /\
  (forall i, j < i -> (results b !! i = None /\ forall c' p', (i, c', Running p') ∉ tasks b) \/
     forall k c', j <= k <= i -> calls !! k = Some c' -> _is_read_only inv c' = true) /\
  (forall n, max_concurrency = Some n -> length (List.filter is_running (tasks b)) <= Z.to_nat n).
Proof.
  intros Hb Hin. destruct (reached_inv b Hb) as (done_ & order & Hi). pose proof (bi_staged _ _ _ _ _ _ _ Hi) as Hs.
  destruct (staged_elem _ _ _ _ _ _ _ _ Hs Hin) as [Hc Hj]. split; [done|]. split; [|split].
  - intros i Hlt. destruct (decide (i < length (concat done_))); [left; by apply (bi_done _ _ _ _ _ _ _ Hi)|right].
    change (reads_between inv calls i j). eapply staged_reads; [exact Hs|lia|lia|lia].
  - intros i Hlt. destruct (decide (i < length (concat done_) + length (tasks b))).
    + right. change (reads_between inv calls j i). eapply staged_reads; [exact Hs|lia|lia|lia].
    + left. split.
      * destruct (results b !! i) as [r|] eqn:Hr; [|done]. destruct (bi_results _ _ _ _ _ _ _ Hi i r Hr) as (c1 & _ & _ & _ & Hh).
        pose proof (held_lt _ _ _ _ _ _ _ _ _ Hi Hh). lia.
      * intros c' p' Hin'. destruct (staged_elem _ _ _ _ _ _ _ _ Hs Hin'). lia.
  - intros n Hn. apply (bi_slots _ _ _ _ _ _ _ Hi). by rewrite Hn.
Qed.

(** C13: a batch that returns gives one well-formed result per call, in the
    order of the calls and with their ids. There is a cut [n]: the calls from
    [n] on are answered as withheld and none of them was run, and there are
    some only if an escalation is pending; before it the tools ran at most
    once per call, in the order the calls were issued in except among
    neighbouring read-only calls. Every pending escalation belongs to a call
    of the last stage that was run, and they are sorted by call. *)
Theorem batch_results_exact l st' :
  invoke_all inv ws calls max_concurrency st (Ok l) st' ->
  length l = length calls /\
  (exists n order, batch_done inv calls st st' l n order) /\
  StronglySorted (fun e1 e2 => call_id_order calls (esc_tool_call_id e1) <= call_id_order calls (esc_tool_call_id e2))
    (pending st').
Proof.
  intros Hr. inversion Hr as [|Hm Hc Hl Hst|s rest b r Hm Hs Hb Ho Hr' Hst]; subst.
  - split; [done|]. split; [|constructor]. exists 0, []. split; simpl; try done.
    + by rewrite app_nil_r.
    + constructor.
    + constructor.
    + intros i Hi. by apply not_elem_of_nil in Hi.
    + lia.
    + intros e He. by apply not_elem_of_nil in He.
  - destruct (reached_inv b) as (done_ & order & Hi); [by exists s, rest|].
    eapply (outcome_done process) in Hi; [|intros; apply call_process_sound|exact Ho]. destruct Hi as [n [Hb1 Hb2 Hb3 Hb4 Hb5 Hb6 Hb7 Hb8]].
    destruct (sort_by_exact (fun e => call_id_order calls (esc_tool_call_id e)) (pending (shared b))) as (Hp & Hsorted & _).
    split; [|split; [|exact Hsorted]].
    + unfold batch_outcome in Ho. destruct (negb _); [done|]. destruct (negb _); [done|].
      destruct (_raise_fatal_errors _); [done|]. destruct (parked b); [|destruct (bool_decide _); [|done]];
        injection Ho as Ho; by apply collect_ok in Ho as [? _].
    + exists n, order. split; simpl; try done.
      * intros Hn Hnil. apply (Hb7 Hn). unfold sorted_escalations in Hnil. rewrite Hnil in Hp. by apply Permutation_nil_l in Hp.
      * intros e He. apply Hb8. unfold sorted_escalations in He. by rewrite Hp in He.
Qed.

(** A batch raises for one of four reasons: a bound below one, before
    anything runs; one critical error, unwrapped; several, as a group; or what
    escaped from a call, as the task group's. No result is ever missing. *)
Theorem batch_errors_exact e st' :
  invoke_all inv ws calls max_concurrency st (Err e) st' ->
  match e with
  | Invalid_max_concurrency n => max_concurrency = Some n /\ (n < 1)%Z /\ ran st' = ran st
  | Fatal x => x = Critical
  | Fatal_group es => 2 <= length es /\ forall x, x ∈ es -> x = Critical
  | Task_group es => es <> [] /\ forall x, x ∈ es -> x <> Critical
  | Missing_result _ => False
  end.
Proof.
  intros Hr. inversion Hr as [n Hm Hn| |s rest b r Hm Hs Hb Ho Hr' Hst]; subst; [done|].
  destruct (reached_inv b) as (done_ & order & Hi); [by exists s, rest|].
  eapply (outcome_error process) in Hi; [|intros; apply call_process_sound|exact Ho]. by destruct e.
Qed.

(** C27: no schedule runs a batch forever and none gets stuck: from wherever
    the event loop has brought it, every sequence of steps is finite and some
    sequence brings the batch to its outcome, when what a call awaits (its tool,
    the interceptor) answers, with a result or an exception, and the bound, if
    there is one, lets one call at a time. *)
Theorem batch_ends b :
  (forall n, max_concurrency = Some n -> (1 <= n)%Z) -> reached b ->
  Acc (fun b2 b1 => step process (Z.to_nat <$> max_concurrency) b1 b2) b /\
  exists b', rtc (step process (Z.to_nat <$> max_concurrency)) b b' /\ is_Some (batch_outcome calls b').
Proof.
  intros Hm Hb. pose proof (batch_acc process (Z.to_nat <$> max_concurrency) b) as Hacc. split; [done|]. clear Hb.
  induction Hacc as [b _ IH]. destruct (batch_outcome calls b) as [r|] eqn:Ho; [by exists b|].
  destruct (batch_progress process (Z.to_nat <$> max_concurrency) calls b) as [b1 Hs]; [|done|].
  - intros n Hn. destruct max_concurrency as [m|]; [|done]. injection Hn as <-. specialize (Hm m eq_refl). lia.
  - destruct (IH b1 Hs) as (b2 & Hb2 & Ho2). exists b2. split; [by eapply rtc_l|done].
Qed.
End Claims.

(** ** Examples *)

#[local] Instance batch_strategy : SecurityInterceptionStrategy (SecState * nat) :=
  secops_strategy (sample_service default_security_config supervised) [] (fun _ => calm_world).

Fixpoint play {S} `{SecurityInterceptionStrategy S} (proc : nat -> ToolCall -> Proc (S := S)) (slots : option nat)
    (l : list Act) (b : Batch) : option Batch :=
  match l with
  | [] => Some b
  | a :: l => match loop_act proc slots b a with Some b => play proc slots l b | None => None end
  end.

Lemma play_rtc {S} `{SecurityInterceptionStrategy S} (proc : nat -> ToolCall -> Proc (S := S)) slots l b b' :
  play proc slots l b = Some b' -> rtc (step proc slots) b b'.
Proof.
  revert b. induction l as [|a l IH]; intros b; simpl; [by intros [= ->]|].
  destruct (loop_act proc slots b a) as [b1|] eqn:Ha; [|done]. intros Hp. eapply rtc_l; [by exists a|by apply IH].
Qed.

Definition turn : list ToolCall :=
  [sample_call "c1" "read_file"; sample_call "c2" "no_such_tool"; sample_call "c3" "git_push";
   sample_call "c4" "write_file"]%string.

Definition turn_worlds : nat -> CallWorld := fun _ => calm_call (replies "text").

Definition first_of (calls : list ToolCall) : Batch (S := SecState * nat) :=
  match _stages sample_invoker calls with
  | s :: rest => first_batch idle s rest
  | [] => first_batch idle [] []
  end.

Definition played (ws : nat -> CallWorld) (calls : list ToolCall) (l : list Act) : Batch (S := SecState * nat) :=
  default (first_of calls) (play (process sample_invoker ws) (Some 2) l (first_of calls)).

(** Two reads side by side, then a push that parks. *)
Definition reads_begun : list Act := [Start 0; Start 1; Resume 0; Resume 1; Resume 0].
Definition turn_schedule : list Act :=
  reads_begun ++ [Resume 1; Resume 0; Resume 0; Resume 0; Resume 0; Resume 0; Resume 0; Next;
    Start 0; Resume 0; Resume 0; Resume 0; Resume 0].

Example turn_withholds :
  (match batch_outcome turn (played turn_worlds turn turn_schedule) with Some (Ok l) => content <$> l | _ => [] end,
   call_id <$> ran (shared (played turn_worlds turn turn_schedule))) =
  ([Output (Raw "text"); Not_registered "no_such_tool";
    Security_escalation (Human_required Autonomy.AutonomyLevel.SUPERVISED) "approval-1"; Not_run_pending_approval],
   ["c1"])%string.
Proof. vm_compute. reflexivity. Qed.

(** A tool that dies of memory, in a stage with another read. *)
Definition dying_worlds : nat -> CallWorld := fun i =>
  if i =? 0 then calm_call (Err Critical) else turn_worlds i.
Definition dying_schedule : list Act :=
  [Start 0; Start 1; Resume 0; Resume 1; Resume 0; Resume 1; Resume 0; Resume 0; Resume 0; Resume 0].

Example dying_turn_raises : batch_outcome turn (played dying_worlds turn dying_schedule) = Some (Err (Fatal Critical)).
Proof. vm_compute. reflexivity. Qed.

(** ** Witnesses *)

Lemma played_reached ws l :
  is_Some (play (process sample_invoker ws) (Some 2) l (first_of turn)) ->
  reached sample_invoker ws turn (Some 2%Z) idle (played ws turn l).
Proof.
  intros [b Hb]. unfold played. rewrite Hb. exists (take 2 (enumerate turn)), [[(2, sample_call "c3" "git_push")];
    [(3, sample_call "c4" "write_file")]]%string. split; [reflexivity|]. by eapply play_rtc.
Qed.

Lemma calls_respect_order_witness :
  exists p, (1, sample_call "c2" "no_such_tool"%string, Running p) ∈ tasks (played turn_worlds turn reads_begun) /\
    (forall n, Some 2%Z = Some n ->
      length (List.filter is_running (tasks (played turn_worlds turn reads_begun))) <= Z.to_nat n).
Proof.
  assert (Hk : match tasks (played turn_worlds turn reads_begun) !! 1 with
    | Some (i, c, Running _) => (i, c) = (1, sample_call "c2" "no_such_tool"%string) | _ => False end)
    by (vm_compute; reflexivity).
  destruct (tasks (played turn_worlds turn reads_begun) !! 1) as [[[i c] [|p|]]|] eqn:E; [destruct Hk| |destruct Hk|destruct Hk].
  injection Hk as -> ->. apply list_elem_of_lookup_2 in E. exists p. split; [exact E|].
  refine (proj2 (proj2 (proj2 (calls_respect_order sample_invoker turn_worlds turn (Some 2%Z) idle _ _ _ p _ E)))).
  apply played_reached. vm_compute. eexists. reflexivity.
Defined.

Lemma batch_results_exact_witness :
  exists l st', invoke_all sample_invoker turn_worlds turn (Some 2%Z) idle (Ok l) st' /\ length l = 4.
Proof.
  destruct (batch_outcome turn (played turn_worlds turn turn_schedule)) as [[l|e]|] eqn:E.
  2, 3: exfalso; assert (H : match batch_outcome turn (played turn_worlds turn turn_schedule) with
    Some (Ok _) => true | _ => false end = true) by (vm_compute; reflexivity); rewrite E in H; discriminate H.
  assert (Hr : is_Some (play (process sample_invoker turn_worlds) (Some 2) turn_schedule (first_of turn)))
    by (vm_compute; eexists; reflexivity).
  destruct (played_reached turn_worlds turn_schedule Hr) as (s & rest & Hs & Hb).
  assert (Hall : invoke_all sample_invoker turn_worlds turn (Some 2%Z) idle (Ok l) _)
    by (eapply (invoke_all_runs _ _ _ _ _ s rest _ (Ok l)); [intros n [= <-]; lia|exact Hs|exact Hb|exact E]).
  eexists l, _. split; [exact Hall|]. exact (proj1 (batch_results_exact _ _ _ _ _ _ _ Hall)).
Defined.

Lemma batch_errors_exact_witness :
  exists st', invoke_all sample_invoker dying_worlds turn (Some 2%Z) idle (Err (Fatal Critical)) st' /\ Critical = Critical.
Proof.
  assert (Hr : is_Some (play (process sample_invoker dying_worlds) (Some 2) dying_schedule (first_of turn)))
    by (vm_compute; eexists; reflexivity).
  destruct (played_reached dying_worlds dying_schedule Hr) as (s & rest & Hs & Hb).
  assert (Hall : invoke_all sample_invoker dying_worlds turn (Some 2%Z) idle (Err (Fatal Critical)) _)
    by (eapply (invoke_all_runs _ _ _ _ _ s rest _ (Err (Fatal Critical)));
      [intros n [= <-]; lia|exact Hs|exact Hb|vm_compute; reflexivity]).
  eexists. split; [exact Hall|]. exact (batch_errors_exact _ _ _ _ _ _ _ Hall).
Defined.

Lemma batch_ends_witness :
  exists b', rtc (step (process sample_invoker turn_worlds) (Z.to_nat <$> Some 2%Z)) (played turn_worlds turn reads_begun) b' /\
    is_Some (batch_outcome turn b').
Proof.
  refine (proj2 (batch_ends sample_invoker turn_worlds turn (Some 2%Z) idle _ _ _)); [intros n [= <-]; lia|].
  apply played_reached. vm_compute. eexists. reflexivity.
Defined.
