(* ===== verification/EngineQueue.v ===== *)
(** * EngineQueue

    The queue in front of the single writer and the engine's lifecycle
    ([engine/task_engine.py] and [engine/task_engine_loops.py]): admission, the
    processing loop, the observer loop, [start], [stop] with its drains, and
    every way a drain can go wrong. The events of [engine/task_engine_events.py].
    An action is what one task does between two of its awaits; the clock is not
    modelled, so a wait may time out whenever it is still waiting. *)

From stdpp Require Import gmap strings list sorting relations.
From Stdlib Require Import ZArith QArith Lia.
From S2P Require Import Prelude StateMachine PlanTransitions TaskEnums TaskTransitions PlanUnits TaskModel TaskEngine TaskEngineProofs.
From S2P Require SecurityModel.
Import TaskStatus.
Import SecurityModel (Raised, Ordinary, Critical, Critical_group).
#[local] Open Scope nat_scope.

(** ** Configuration *)

Record TaskEngineConfig := {
  cfg_max_queue_size : Z;
  observer_queue_size : option Z;
  drain_timeout_seconds : Q;
  publish_snapshots : bool;
}.

Definition config_ok (c : TaskEngineConfig) : bool :=
  (0 <=? cfg_max_queue_size c)%Z && opt_ok (fun n => (0 <=? n)%Z) (observer_queue_size c) &&
  negb (Qle_bool (drain_timeout_seconds c) 0) && Qle_bool (drain_timeout_seconds c) 300.

Definition effective_observer_queue_size (c : TaskEngineConfig) : Z :=
  match observer_queue_size c with Some n => n | None => cfg_max_queue_size c end.

Section Queue.
Context {obj : Type} `{Runtime obj} {R : Type} `{!TaskRepository (obj:=obj) R}.
#[local] Notation Engine := (TaskEngine.Engine R).
#[local] Notation TaskMutation := (TaskEngine.TaskMutation obj).
#[local] Notation TaskMutationResult := (TaskEngine.TaskMutationResult obj).

(** ** Events *)

Definition mutation_type (m : TaskMutation) : string :=
  match m with
  | Create _ => "create" | Update _ => "update" | Transition _ => "transition" | Delete _ => "delete"
  | Cancel _ => "cancel"
  end.

Definition requested_by (m : TaskMutation) : string :=
  match m with
  | Create m => create_requested_by m
  | Update m => update_requested_by m
  | Transition m => transition_requested_by m
  | Delete m => delete_requested_by m
  | Cancel m => cancel_requested_by m
  end.

(** [getattr(mutation, "reason", None)]. *)
Definition mutation_reason (m : TaskMutation) : option string :=
  match m with
  | Transition m => Some (transition_reason m)
  | Cancel m => Some (cancel_reason m)
  | _ => None
  end.

Record TaskStateChanged := {
  event_mutation_type : string;
  event_request_id : string;
  event_requested_by : string;
  event_task_id : string;
  event_task : option (Task obj);
  event_previous_status : option TaskStatus;
  event_new_status : option TaskStatus;
  event_version : Z;
  event_reason : option string;
  event_timestamp : Z;
}.

Definition build_state_changed_event (now : Z) (m : TaskMutation) (r : TaskMutationResult) : TaskStateChanged :=
  let task_id := match mutation_task_id m with Some i => Some i | None => TaskModel.task_id <$> result_task r end in
  {| event_mutation_type := mutation_type m;
     event_request_id := request_id m;
     event_requested_by := requested_by m;
     event_task_id := match task_id with Some EmptyString | None => "unknown" | Some i => i end;
     event_task := result_task r;
     event_previous_status := previous_status r;
     event_new_status := match m with Delete _ => None | _ => task_status <$> result_task r end;
     event_version := result_version r;
     event_reason := mutation_reason m;
     event_timestamp := now |}.

(** ** State *)

(** The future a caller of [submit] awaits. *)
Inductive Future :=
| Pending
| Answered (r : TaskMutationResult)
| Failed (e : Raised)
| Cancelled_by_caller.

Definition is_done (f : Future) : bool := match f with Pending => false | _ => true end.

Record _MutationEnvelope := { mutation : TaskMutation; future : Future }.

(** What a turn of a processing loop did to the engine: the whole mutation, or
    the part before an interrupted call, whose own effect may have landed. *)
Inductive Turn :=
| Whole (env : Env)
| Part (env : Env) (c : Call) (landed : bool).

(** An envelope is named by its place in the order of admission. *)
Record Inbox := {
  _queue : list nat;
  envelopes : list _MutationEnvelope;
  _in_flight : option nat;
}.

Inductive LoopPhase :=
| Polling
| Dispatching (id : nat)
| Publishing (id : nat) (ev : TaskStateChanged)
| Ended
| Loop_cancelled
| Died (e : Raised).

(** A background task: [cancel_requested] since [Task.cancel], [swallowed] when
    the code it awaits has absorbed a cancellation. *)
Record Loop := { phase : LoopPhase; cancel_requested : bool; swallowed : bool }.

Record Writer := {
  engine : Engine;
  turns : list (nat * Turn);
  loops : list Loop;
  _processing_task : option nat;
}.

Inductive ObserverPhase :=
| Waiting
| Notifying (ev : TaskStateChanged) (k : nat)
| Obs_ended
| Obs_cancelled
| Obs_died (e : Raised).

Record ObserverLoop := { obs_phase : ObserverPhase; obs_cancel_requested : bool; obs_swallowed : bool }.

(** [None] in the queue is the sentinel of [_drain_all]; [notified] lists the
    calls made to observers. *)
Record Observing := {
  _observers : list string;
  _observer_queue : list (option TaskStateChanged);
  observer_loops : list ObserverLoop;
  _observer_task : option nat;
  notified : list (string * TaskStateChanged);
}.

(** Who holds the lifecycle lock: a [stop], at the await it is in, or a [start]
    whose rollback awaits the tasks it cancelled. *)
Inductive Holder :=
| Drain_wait
| Drain_cancel (saved_in_flight : option nat)
| Put_sentinel
| Observer_wait
| Observer_cancel
| Rolling_back (processing observer : option nat).

Record Lifecycle := {
  _running : bool;
  _unrestartable : bool;
  _max_queue_size : Z;
  holder : option Holder;
}.

Record State := { inbox : Inbox; writer : Writer; observing : Observing; lifecycle : Lifecycle }.

Definition with_inbox (b : Inbox) (s : State) : State :=
  {| inbox := b; writer := writer s; observing := observing s; lifecycle := lifecycle s |}.
Definition with_writer (w : Writer) (s : State) : State :=
  {| inbox := inbox s; writer := w; observing := observing s; lifecycle := lifecycle s |}.
Definition with_observing (o : Observing) (s : State) : State :=
  {| inbox := inbox s; writer := writer s; observing := o; lifecycle := lifecycle s |}.
Definition with_lifecycle (l : Lifecycle) (s : State) : State :=
  {| inbox := inbox s; writer := writer s; observing := observing s; lifecycle := l |}.

(** ** Helpers *)

Definition map_inbox (f : Inbox -> Inbox) (s : State) : State := with_inbox (f (inbox s)) s.

Definition resolve (id : nat) (f : _MutationEnvelope -> Future) (l : list _MutationEnvelope)
    : list _MutationEnvelope :=
  alter (fun e => if is_done (future e) then e else {| mutation := mutation e; future := f e |}) id l.

Definition answer (id : nat) (f : _MutationEnvelope -> Future) (b : Inbox) : Inbox :=
  {| _queue := _queue b; envelopes := resolve id f (envelopes b); _in_flight := _in_flight b |}.

Definition set_in_flight (x : option nat) (b : Inbox) : Inbox :=
  {| _queue := _queue b; envelopes := envelopes b; _in_flight := x |}.

Definition set_loop (i : nat) (l : Loop) (s : State) : State :=
  let w := writer s in
  with_writer {| engine := engine w; turns := turns w; loops := <[i := l]> (loops w);
    _processing_task := _processing_task w |} s.

Definition fresh_loop (p : LoopPhase) : Loop := {| phase := p; cancel_requested := false; swallowed := false |}.

(** The loop goes on to another phase; what was asked of it stays asked. *)
Definition enter (p : LoopPhase) (l : Loop) : Loop :=
  {| phase := p; cancel_requested := cancel_requested l; swallowed := swallowed l |}.

Definition finished (p : LoopPhase) : bool :=
  match p with Ended | Loop_cancelled | Died _ => true | _ => false end.

Definition obs_finished (p : ObserverPhase) : bool :=
  match p with Obs_ended | Obs_cancelled | Obs_died _ => true | _ => false end.

(** [Task.cancel], which a finished task ignores. *)
Definition cancel_loop (i : nat) (s : State) : State :=
  match loops (writer s) !! i with
  | Some l => if finished (phase l) then s
              else set_loop i {| phase := phase l; cancel_requested := true; swallowed := swallowed l |} s
  | None => s
  end.

Definition set_processing_task (t : option nat) (s : State) : State :=
  let w := writer s in
  with_writer {| engine := engine w; turns := turns w; loops := loops w; _processing_task := t |} s.

Definition set_observer_loop (j : nat) (l : ObserverLoop) (o : Observing) : Observing :=
  {| _observers := _observers o; _observer_queue := _observer_queue o;
     observer_loops := <[j := l]> (observer_loops o); _observer_task := _observer_task o; notified := notified o |}.

Definition cancel_observer (j : nat) (s : State) : State :=
  match observer_loops (observing s) !! j with
  | Some l => if obs_finished (obs_phase l) then s
              else with_observing (set_observer_loop j
                {| obs_phase := obs_phase l; obs_cancel_requested := true; obs_swallowed := obs_swallowed l |}
                (observing s)) s
  | None => s
  end.

Definition set_observer_task (t : option nat) (s : State) : State :=
  let o := observing s in
  with_observing {| _observers := _observers o; _observer_queue := _observer_queue o;
    observer_loops := observer_loops o; _observer_task := t; notified := notified o |} s.

Definition push_event (x : option TaskStateChanged) (s : State) : State :=
  let o := observing s in
  with_observing {| _observers := _observers o; _observer_queue := _observer_queue o ++ [x];
    observer_loops := observer_loops o; _observer_task := _observer_task o; notified := notified o |} s.

Definition set_holder (h : option Holder) (s : State) : State :=
  let l := lifecycle s in
  with_lifecycle {| _running := _running l; _unrestartable := _unrestartable l;
    _max_queue_size := _max_queue_size l; holder := h |} s.

Definition set_running (b : bool) (s : State) : State :=
  let l := lifecycle s in
  with_lifecycle {| _running := b; _unrestartable := _unrestartable l;
    _max_queue_size := _max_queue_size l; holder := holder l |} s.

Definition mark_unrestartable (s : State) : State :=
  let l := lifecycle s in
  with_lifecycle {| _running := _running l; _unrestartable := true;
    _max_queue_size := _max_queue_size l; holder := holder l |} s.

(** ** A turn, whole or interrupted *)

Definition with_failures (f : Call -> bool) (env : Env) : Env :=
  {| factories := factories env; call_fails := f; plans_preflight := plans_preflight env;
     plans_at_delete := plans_at_delete env; plans_reread := plans_reread env;
     other_constraint := other_constraint env |}.

Definition dispatch_until (c : Call) (env : Env) (m : TaskMutation) (e : Engine) :=
  dispatch (with_failures (fun c' => bool_decide (c' = c)) env) m e.

(** The mutation gets as far as the call [c]. *)
Definition reaches (c : Call) (env : Env) (m : TaskMutation) (e : Engine) : bool :=
  negb (is_ok (snd (dispatch_until c env m e))).

Definition interrupted (c : Call) (landed : bool) (env : Env) (m : TaskMutation) (e : Engine) : Engine :=
  let before := fst (dispatch_until c env m e) in
  if landed then set_tasks (tasks (fst (dispatch (with_failures (fun _ => false) env) m e))) before else before.

Definition run_turn (m : TaskMutation) (t : Turn) (e : Engine) : Engine :=
  match t with
  | Whole env => fst (_process_one env m e)
  | Part env c landed => interrupted c landed env m e
  end.

Definition take_turn (id : nat) (m : TaskMutation) (t : Turn) (s : State) : State :=
  let w := writer s in
  with_writer {| engine := run_turn m t (engine w); turns := turns w ++ [(id, t)]; loops := loops w;
    _processing_task := _processing_task w |} s.

(** ** The calls of the engine's users *)

Inductive EngineError :=
| TaskEngineNotRunningError
| TaskEngineQueueFullError
| Negative_queue_size (n : Z)
| Unrestartable
| Already_running
| Invalid_timeout (q : Q).

#[local] Open Scope py_scope.

Definition submit (m : TaskMutation) (s : State) : result EngineError State :=
  let b := inbox s in
  let l := lifecycle s in
  ensure _running l else TaskEngineNotRunningError in
  ensure negb ((0 <? _max_queue_size l)%Z && (_max_queue_size l <=? Z.of_nat (length (_queue b)))%Z)
    else TaskEngineQueueFullError in
  Ok (with_inbox {| _queue := _queue b ++ [length (envelopes b)];
    envelopes := envelopes b ++ [{| mutation := m; future := Pending |}]; _in_flight := _in_flight b |} s).

Definition set_max_queue_size (n : Z) (s : State) : result EngineError State :=
  let l := lifecycle s in
  ensure negb (n <? 0)%Z else Negative_queue_size n in
  Ok (with_lifecycle {| _running := _running l; _unrestartable := _unrestartable l; _max_queue_size := n;
    holder := holder l |} s).

Definition register_observer (callback : string) (s : State) : State :=
  let o := observing s in
  with_observing {| _observers := _observers o ++ [callback]; _observer_queue := _observer_queue o;
    observer_loops := observer_loops o; _observer_task := _observer_task o; notified := notified o |} s.

Definition has_observer_type (isinstance : string -> bool) (s : State) : bool :=
  existsb isinstance (_observers (observing s)).

Definition may_start (s : State) : result EngineError unit :=
  ensure negb (_unrestartable (lifecycle s)) else Unrestartable in
  ensure negb (_running (lifecycle s)) else Already_running in
  Ok tt.

Definition spawn_processing (s : State) : State :=
  let w := writer s in
  with_writer {| engine := engine w; turns := turns w; loops := loops w ++ [fresh_loop Polling];
    _processing_task := Some (length (loops w)) |} s.

Definition fresh_observer : ObserverLoop :=
  {| obs_phase := Waiting; obs_cancel_requested := false; obs_swallowed := false |}.

Definition spawn_observer (s : State) : State :=
  let o := observing s in
  with_observing {| _observers := _observers o; _observer_queue := _observer_queue o;
    observer_loops := observer_loops o ++ [fresh_observer]; _observer_task := Some (length (observer_loops o));
    notified := notified o |} s.

Definition start (s : State) : result EngineError State :=
  let* _ := may_start s in
  Ok (set_running true (spawn_observer (spawn_processing s))).

(** [start] when creating a task raises after [created] of the two: a task
    created here is cancelled before its first step, and an older task whose
    handle is still in place is cancelled with it and awaited. *)
Definition start_fails (created : nat) (s : State) : result EngineError State :=
  let* _ := may_start s in
  let p := if created =? 0 then _processing_task (writer s) else None in
  let o := if created <? 2 then _observer_task (observing s) else None in
  let s := match p with Some i => cancel_loop i s | None => s end in
  let s := match o with Some j => cancel_observer j s | None => s end in
  Ok (set_holder (Some (Rolling_back p o)) s).

Definition timeout_ok (timeout : option Q) : bool := opt_ok (fun q => negb (Qle_bool q 0)) timeout.

(** [stop] up to its first await, with the lifecycle lock in hand. *)
Definition stop (timeout : option Q) (s : State) : result EngineError State :=
  ensure timeout_ok timeout else Invalid_timeout (default 0%Q timeout) in
  if _running (lifecycle s) then
    Ok (set_holder (Some (match _processing_task (writer s) with Some _ => Drain_wait | None => Put_sentinel end))
      (set_running false s))
  else Ok s.

(** ** The processing loop *)

Section Loops.
Context (config : TaskEngineConfig) (message_bus : bool).

Definition _shutdown_result (e : _MutationEnvelope) : TaskMutationResult :=
  failed (request_id (mutation e)) Shut_down internal.

Definition loop_error_result (e : _MutationEnvelope) : TaskMutationResult :=
  failed (request_id (mutation e)) Loop_error internal.

Definition shut_down (id : nat) (l : list _MutationEnvelope) : list _MutationEnvelope :=
  resolve id (fun e => Answered (_shutdown_result e)) l.

Definition _fail_remaining_futures (saved_in_flight : option nat) (b : Inbox) : Inbox :=
  let in_flight := match saved_in_flight with Some _ => saved_in_flight | None => _in_flight b end in
  let l := match in_flight with Some id => shut_down id (envelopes b) | None => envelopes b end in
  {| _queue := []; envelopes := foldl (fun l id => shut_down id l) l (_queue b); _in_flight := None |}.

Definition observer_queue_full (s : State) : bool :=
  let n := effective_observer_queue_size config in
  (0 <? n)%Z && (n <=? Z.of_nat (length (_observer_queue (observing s))))%Z.

(** [if self._observers: put_nowait(event)], which drops the event when the
    queue is full. *)
Definition offer (ev : TaskStateChanged) (s : State) : State :=
  if bool_decide (_observers (observing s) = []) || observer_queue_full s then s else push_event (Some ev) s.

(** [finally: self._in_flight = None], and the loop's next phase. *)
Definition leave_turn (i : nat) (l : Loop) (p : LoopPhase) (s : State) : State :=
  set_loop i (enter p l) (map_inbox (set_in_flight None) s).

(** The [except] clauses of [_processing_loop] for what leaves [_process_one]:
    a bare critical error ends the loop, anything else is answered. *)
Definition loop_handler (i : nat) (l : Loop) (id : nat) (e : Raised) (s : State) : State :=
  match e with
  | Critical => leave_turn i l (Died Critical) (map_inbox (answer id (fun _ => Failed Critical)) s)
  | _ => leave_turn i l Polling (map_inbox (answer id (fun x => Answered (loop_error_result x))) s)
  end.

(** [publish_snapshot]: no bus, no message; a failure of the bus is swallowed
    unless it is critical. *)
Definition publish_snapshot (bus_answer : result Raised unit) : result Raised unit :=
  if message_bus then SecurityModel.reraise_critical bus_answer (Ok tt) else Ok tt.

(** The rest of [_process_one] once the snapshot is out or skipped. *)
Definition after_snapshot (i : nat) (l : Loop) (id : nat) (ev : TaskStateChanged) (r : result Raised unit)
    (s : State) : State :=
  match r with
  | Ok _ => leave_turn i l Polling (offer ev s)
  | Err e => loop_handler i l id e s
  end.

Definition loop_get (i : nat) (s : State) : option State :=
  match loops (writer s) !! i, _queue (inbox s) with
  | Some (Build_Loop Polling false _ as l), id :: queue =>
      Some (set_loop i (enter (Dispatching id) l)
        (with_inbox {| _queue := queue; envelopes := envelopes (inbox s); _in_flight := Some id |} s))
  | _, _ => None
  end.

(** [while self._running or not self._queue.empty()]. *)
Definition loop_exit (i : nat) (s : State) : option State :=
  match loops (writer s) !! i, _queue (inbox s) with
  | Some (Build_Loop Polling false _ as l), [] =>
      if _running (lifecycle s) then None else Some (set_loop i (enter Ended l) s)
  | _, _ => None
  end.

(** [uuid4] draws an id no task has. *)
Definition fresh_env (env : Env) (e : Engine) : bool :=
  bool_decide (repo_get (tasks e) (uuid4 (factories env)) = None).

(** [_process_one] up to the publication of its snapshot. *)
Definition loop_dispatch (i : nat) (env : Env) (now : Z) (s : State) : option State :=
  match loops (writer s) !! i with
  | Some (Build_Loop (Dispatching id) false _ as l) =>
      x ← envelopes (inbox s) !! id;
      if fresh_env env (engine (writer s)) then
        let m := mutation x in
        let r := snd (_process_one env m (engine (writer s))) in
        let s := map_inbox (answer id (fun _ => Answered r)) (take_turn id m (Whole env) s) in
        Some (if success r && (publish_snapshots config || negb (bool_decide (_observers (observing s) = []))) then
          let ev := build_state_changed_event now m r in
          if publish_snapshots config && message_bus then set_loop i (enter (Publishing id ev) l) s
          else after_snapshot i l id ev (Ok tt) s
        else leave_turn i l Polling s)
      else None
  | _ => None
  end.

(** A critical error, or a group that nests one, out of the call [c]. *)
Definition loop_raises (i : nat) (env : Env) (c : Call) (landed : bool) (e : Raised) (s : State) : option State :=
  match loops (writer s) !! i with
  | Some (Build_Loop (Dispatching id) false _ as l) =>
      x ← envelopes (inbox s) !! id;
      if SecurityModel._contains_critical e && reaches c env (mutation x) (engine (writer s)) then
        Some (loop_handler i l id e (take_turn id (mutation x) (Part env c landed) s))
      else None
  | _ => None
  end.

Definition loop_published (i : nat) (bus_answer : result Raised unit) (s : State) : option State :=
  match loops (writer s) !! i with
  | Some (Build_Loop (Publishing id ev) false _ as l) =>
      Some (after_snapshot i l id ev (publish_snapshot bus_answer) s)
  | _ => None
  end.

(** The cancellation reaches the loop in the call [c]. *)
Definition loop_cut (i : nat) (env : Env) (c : Call) (landed : bool) (s : State) : option State :=
  match loops (writer s) !! i with
  | Some (Build_Loop (Dispatching id) true _ as l) =>
      x ← envelopes (inbox s) !! id;
      if reaches c env (mutation x) (engine (writer s)) then
        Some (leave_turn i l Loop_cancelled (take_turn id (mutation x) (Part env c landed) s))
      else None
  | _ => None
  end.

(** The cancellation reaches the loop waiting for work or publishing. *)
Definition loop_cancel (i : nat) (s : State) : option State :=
  match loops (writer s) !! i with
  | Some (Build_Loop Polling true _ as l) => Some (set_loop i (enter Loop_cancelled l) s)
  | Some (Build_Loop (Publishing _ _) true _ as l) => Some (leave_turn i l Loop_cancelled s)
  | _ => None
  end.

(** The awaited call absorbs the cancellation and goes on. *)
Definition loop_swallow (i : nat) (s : State) : option State :=
  match loops (writer s) !! i with
  | Some (Build_Loop (Dispatching _ as p) true _) | Some (Build_Loop (Publishing _ _ as p) true _) =>
      Some (set_loop i {| phase := p; cancel_requested := false; swallowed := true |} s)
  | _ => None
  end.

(** ** The observer loop *)

(** The next observer to call, or back to waiting. *)
Definition next_observer (ev : TaskStateChanged) (k : nat) (o : Observing) : ObserverPhase :=
  if k <? length (_observers o) then Notifying ev k else Waiting.

Definition set_obs_phase (j : nat) (p : ObserverPhase) (l : ObserverLoop) (o : Observing) : Observing :=
  set_observer_loop j
    {| obs_phase := p; obs_cancel_requested := obs_cancel_requested l; obs_swallowed := obs_swallowed l |} o.

Definition observer_get (j : nat) (s : State) : option State :=
  let o := observing s in
  match observer_loops o !! j, _observer_queue o with
  | Some (Build_ObserverLoop Waiting false _ as l), x :: queue =>
      let o' := {| _observers := _observers o; _observer_queue := queue; observer_loops := observer_loops o;
        _observer_task := _observer_task o; notified := notified o |} in
      Some (with_observing (set_obs_phase j match x with None => Obs_ended | Some ev => next_observer ev 0 o end l o') s)
  | _, _ => None
  end.

(** One call of [_notify_observers]: an ordinary failure is swallowed, a
    critical one ends the loop. *)
Definition observer_call (j : nat) (outcome : result Raised unit) (s : State) : option State :=
  let o := observing s in
  match observer_loops o !! j with
  | Some (Build_ObserverLoop (Notifying ev k) false _ as l) =>
      callback ← _observers o !! k;
      let o' := {| _observers := _observers o; _observer_queue := _observer_queue o;
        observer_loops := observer_loops o; _observer_task := _observer_task o;
        notified := notified o ++ [(callback, ev)] |} in
      Some (with_observing (set_obs_phase j
        match SecurityModel.reraise_critical outcome (Ok tt) with
        | Ok _ => next_observer ev (k + 1) o
        | Err e => Obs_died e
        end l o') s)
  | _ => None
  end.

Definition observer_cancelled (j : nat) (s : State) : option State :=
  match observer_loops (observing s) !! j with
  | Some (Build_ObserverLoop (Waiting | Notifying _ _) true _ as l) =>
      Some (with_observing (set_obs_phase j Obs_cancelled l (observing s)) s)
  | _ => None
  end.

Definition observer_swallow (j : nat) (s : State) : option State :=
  match observer_loops (observing s) !! j with
  | Some (Build_ObserverLoop (Notifying _ _ as p) true _) =>
      Some (with_observing (set_observer_loop j
        {| obs_phase := p; obs_cancel_requested := false; obs_swallowed := true |} (observing s)) s)
  | _ => None
  end.

(** ** The drains of [stop] *)

(** The task whose handle is [t] has ended, and how. *)
Definition processing_phase (s : State) : option LoopPhase :=
  i ← _processing_task (writer s); phase <$> loops (writer s) !! i.

Definition observer_phase (s : State) : option ObserverPhase :=
  j ← _observer_task (observing s); obs_phase <$> observer_loops (observing s) !! j.

Definition cancel_processing (s : State) : State :=
  match _processing_task (writer s) with Some i => cancel_loop i s | None => s end.

Definition cancel_observing (s : State) : State :=
  match _observer_task (observing s) with Some j => cancel_observer j s | None => s end.

Definition fail_remaining (saved : option nat) (s : State) : State :=
  map_inbox (_fail_remaining_futures saved) s.

(** The processing stage of [_drain_all] is over, or raised. *)
Definition processing_drained (s : State) : State := set_holder (Some Put_sentinel) (set_processing_task None s).
Definition processing_raised (s : State) : State := set_holder None (set_processing_task None s).

(** [_drain_processing] at its first await, the loop having ended. *)
Definition drain_done (s : State) : option State :=
  match holder (lifecycle s), processing_phase s with
  | Some Drain_wait, Some Ended => Some (processing_drained s)
  | Some Drain_wait, Some (Died _) => Some (processing_raised (fail_remaining (_in_flight (inbox s)) s))
  | Some Drain_wait, Some Loop_cancelled =>
      Some (mark_unrestartable (processing_raised (fail_remaining (_in_flight (inbox s)) s)))
  | _, _ => None
  end.

Definition drain_timeout (s : State) : option State :=
  match holder (lifecycle s) with
  | Some Drain_wait => Some (set_holder (Some (Drain_cancel (_in_flight (inbox s)))) (cancel_processing s))
  | _ => None
  end.

(** The cancelled loop has ended: [_fail_remaining_futures], unless the loop
    died of a critical error, which leaves before it. *)
Definition drain_cancelled (s : State) : option State :=
  match holder (lifecycle s), processing_phase s with
  | Some (Drain_cancel saved), Some (Ended | Loop_cancelled) => Some (processing_drained (fail_remaining saved s))
  | Some (Drain_cancel _), Some (Died _) => Some (processing_raised s)
  | _, _ => None
  end.

(** [_drain_observer] up to its await. *)
Definition drain_observer (s : State) : State :=
  set_holder (match _observer_task (observing s) with Some _ => Some Observer_wait | None => None end) s.

Definition put_sentinel (s : State) : option State :=
  match holder (lifecycle s) with
  | Some Put_sentinel => if observer_queue_full s then None else Some (drain_observer (push_event None s))
  | _ => None
  end.

Definition put_timeout (s : State) : option State :=
  match holder (lifecycle s) with
  | Some Put_sentinel => if observer_queue_full s then Some (drain_observer s) else None
  | _ => None
  end.

Definition observer_raised (s : State) : State := set_holder None (set_observer_task None s).

Definition observer_drained (s : State) : option State :=
  match holder (lifecycle s), observer_phase s with
  | Some Observer_wait, Some (Obs_ended | Obs_died _)
  | Some Observer_cancel, Some (Obs_ended | Obs_died _ | Obs_cancelled) => Some (observer_raised s)
  | Some Observer_wait, Some Obs_cancelled => Some (mark_unrestartable (observer_raised s))
  | _, _ => None
  end.

Definition observer_timeout (s : State) : option State :=
  match holder (lifecycle s) with
  | Some Observer_wait => Some (set_holder (Some Observer_cancel) (cancel_observing s))
  | _ => None
  end.

(** The task that runs [stop] is cancelled, by its caller or by the hard
    deadline. Where it awaits a task it has itself cancelled, that task gets the
    cancellation and [stop] goes on. *)
Definition stop_interrupted (s : State) : option State :=
  match holder (lifecycle s) with
  | Some Drain_wait => Some (mark_unrestartable (processing_raised (fail_remaining (_in_flight (inbox s)) s)))
  | Some (Drain_cancel _) => Some (cancel_processing s)
  | Some Put_sentinel => if observer_queue_full s then Some (mark_unrestartable (set_holder None s)) else None
  | Some Observer_wait => Some (mark_unrestartable (observer_raised s))
  | Some Observer_cancel => Some (cancel_observing s)
  | _ => None
  end.

(** The rollback of [start] has awaited what it cancelled. *)
Definition rolled_back (s : State) : option State :=
  match holder (lifecycle s) with
  | Some (Rolling_back p o) =>
      let p_over := match p with
        | Some i => match loops (writer s) !! i with Some l => finished (phase l) | None => true end
        | None => true end in
      let o_over := match o with
        | Some j => match observer_loops (observing s) !! j with Some l => obs_finished (obs_phase l) | None => true end
        | None => true end in
      if p_over && o_over then Some (set_holder None (set_observer_task None (set_processing_task None s))) else None
  | _ => None
  end.

(** ** Actions *)

(** What users of the engine do, and what the environment forces on it. *)
Inductive External :=
| Submit (m : TaskMutation)
| Caller_gives_up (id : nat)
| Set_max_queue_size (n : Z)
| Register_observer (callback : string)
| Start
| Start_fails (created : nat)
| Stop (timeout : option Q)
| Stop_interrupted.

(** What the loops and a stop in progress do by themselves. *)
Inductive Internal :=
| Loop_get (i : nat)
| Loop_exit (i : nat)
| Loop_dispatch (i : nat) (env : Env) (now : Z)
| Loop_raises (i : nat) (env : Env) (c : Call) (landed : bool) (e : Raised)
| Loop_published (i : nat) (bus_answer : result Raised unit)
| Loop_cut (i : nat) (env : Env) (c : Call) (landed : bool)
| Loop_cancel (i : nat)
| Loop_swallow (i : nat)
| Observer_get (j : nat)
| Observer_call (j : nat) (outcome : result Raised unit)
| Observer_cancelled (j : nat)
| Observer_swallow (j : nat)
| Drain_done
| Drain_timeout
| Drain_cancelled
| Put_sentinel_done
| Put_timeout
| Observer_drained
| Observer_timeout
| Rolled_back.

(** A call that is refused leaves the engine as it was. *)
Definition attempt (s : State) (r : result EngineError State) : option State :=
  Some (match r with Ok s' => s' | Err _ => s end).

(** The lifecycle lock is free. *)
Definition unlocked (s : State) : bool := bool_decide (holder (lifecycle s) = None).

(** [start] holds the admission lock while it rolls back. *)
Definition admitting (s : State) : bool :=
  match holder (lifecycle s) with Some (Rolling_back _ _) => false | _ => true end.

Definition external (a : External) (s : State) : option State :=
  match a with
  | Submit m => if mutation_ok m && admitting s then attempt s (submit m s) else None
  | Caller_gives_up id => Some (map_inbox (answer id (fun _ => Cancelled_by_caller)) s)
  | Set_max_queue_size n => attempt s (set_max_queue_size n s)
  | Register_observer callback => Some (register_observer callback s)
  | Start => if unlocked s then attempt s (start s) else None
  | Start_fails created => if unlocked s then attempt s (start_fails created s) else None
  | Stop timeout => if unlocked s || negb (timeout_ok timeout) then attempt s (stop timeout s) else None
  | Stop_interrupted => stop_interrupted s
  end.

Definition internal_act (a : Internal) (s : State) : option State :=
  match a with
  | Loop_get i => loop_get i s
  | Loop_exit i => loop_exit i s
  | Loop_dispatch i env now => loop_dispatch i env now s
  | Loop_raises i env c landed e => loop_raises i env c landed e s
  | Loop_published i r => loop_published i r s
  | Loop_cut i env c landed => loop_cut i env c landed s
  | Loop_cancel i => loop_cancel i s
  | Loop_swallow i => loop_swallow i s
  | Observer_get j => observer_get j s
  | Observer_call j r => observer_call j r s
  | Observer_cancelled j => observer_cancelled j s
  | Observer_swallow j => observer_swallow j s
  | Drain_done => drain_done s
  | Drain_timeout => drain_timeout s
  | Drain_cancelled => drain_cancelled s
  | Put_sentinel_done => put_sentinel s
  | Put_timeout => put_timeout s
  | Observer_drained => observer_drained s
  | Observer_timeout => observer_timeout s
  | Rolled_back => rolled_back s
  end.

Definition act (a : External + Internal) (s : State) : option State :=
  match a with inl a => external a s | inr a => internal_act a s end.

Definition step (s s' : State) : Prop := exists a, act a s = Some s'.

(** [__init__], on the store as it is. *)
Definition __init__ (e : Engine) : State := {|
  inbox := {| _queue := []; envelopes := []; _in_flight := None |};
  writer := {| engine := e; turns := []; loops := []; _processing_task := None |};
  observing := {| _observers := []; _observer_queue := []; observer_loops := []; _observer_task := None; notified := [] |};
  lifecycle := {| _running := false; _unrestartable := false; _max_queue_size := cfg_max_queue_size config;
    holder := None |};
|}.

Definition reachable (e : Engine) (s : State) : Prop := rtc step (__init__ e) s.

End Loops.
End Queue.
