(* ===== verification/EngineQueueProofs.v ===== *)
(** * EngineQueueProofs

    Invariants of the task engine's queue: one processing loop lives at a time,
    envelopes move through the pipeline in the order of their admission, and
    every answer is the result of a turn or says that there was none. *)

From stdpp Require Import gmap strings list sorting relations.
From Stdlib Require Import ZArith QArith Lia.
From S2P Require Import Prelude StateMachine PlanTransitions TaskEnums TaskTransitions PlanUnits TaskModel TaskEngine TaskEngineProofs EngineQueue.
From S2P Require SecurityModel.
Import TaskStatus.
Import SecurityModel (Raised, Ordinary, Critical, Critical_group).
#[local] Open Scope nat_scope.

(** The cases of an action that went through. *)
Ltac act_cases Hact :=
  repeat (case_match; simplify_option_eq; try done); simplify_option_eq.

Ltac loop_cases Hact :=
  unfold loop_get, loop_exit, loop_dispatch, loop_raises, loop_published, loop_cut, loop_cancel, loop_swallow,
    observer_get, observer_call, observer_cancelled, observer_swallow, after_snapshot, loop_handler, leave_turn,
    offer in Hact;
  act_cases Hact.

Ltac stop_cases Hact :=
  unfold drain_done, drain_timeout, drain_cancelled, put_sentinel, put_timeout, observer_drained, observer_timeout,
    rolled_back in Hact;
  act_cases Hact.

Section Queue.
Context {obj : Type} `{Runtime obj} {R : Type} `{!TaskRepository (obj:=obj) R}.
Context (config : TaskEngineConfig) (message_bus : bool).
#[local] Notation State := (EngineQueue.State (obj:=obj) (R:=R)).

Definition live (l : Loop (obj:=obj)) : Prop := finished (phase l) = false.

Record control (s : State) : Prop := {
  ctl_handle i : _processing_task (writer s) = Some i -> i < length (loops (writer s));
  ctl_single i j li lj :
    loops (writer s) !! i = Some li -> loops (writer s) !! j = Some lj -> live li -> live lj -> i = j;
  ctl_owner i l :
    loops (writer s) !! i = Some l -> live l ->
    _processing_task (writer s) = Some i \/ _unrestartable (lifecycle s) = true;
  ctl_phase :
    match _running (lifecycle s), _unrestartable (lifecycle s), holder (lifecycle s), _processing_task (writer s) with
    | true, false, None, Some _
    | false, _, None, None
    | false, false, Some (Drain_wait | Drain_cancel _), Some _
    | false, false, Some (Put_sentinel | Observer_wait | Observer_cancel | Rolling_back None _), None => True
    | _, _, _, _ => False
    end;
}.

Lemma control_init e : control (__init__ config e).
Proof. split; simpl; try done. Qed.

Definition same_control (s s' : State) : Prop :=
  _processing_task (writer s') = _processing_task (writer s) /\
  _running (lifecycle s') = _running (lifecycle s) /\
  _unrestartable (lifecycle s') = _unrestartable (lifecycle s) /\
  holder (lifecycle s') = holder (lifecycle s).

(** Nothing of the loops or the lifecycle, or one live loop moving. *)
Definition loop_moves (s s' : State) : Prop :=
  same_control s s' /\
  (loops (writer s') = loops (writer s) \/
   exists i l l', loops (writer s) !! i = Some l /\ live l /\ loops (writer s') = <[i := l']> (loops (writer s))).

Lemma control_moves (s s' : State) : control s -> loop_moves s s' -> control s'.
Proof.
  intros [Hh Hs Ho Hp] ((Eh & Er & Eu & El) & HL).
  assert (Hl : forall j lj', loops (writer s') !! j = Some lj' -> live lj' ->
    exists lj, loops (writer s) !! j = Some lj /\ live lj).
  { intros j lj' Hj Hv. destruct HL as [HL|(i & l & l' & Hi & Hl & HL)]; rewrite HL in Hj; [by eauto|].
    apply list_lookup_insert_Some in Hj as [(<- & -> & _)|[_ Hj]]; eauto. }
  assert (Hn : length (loops (writer s')) = length (loops (writer s))).
  { destruct HL as [E|(i & l & l' & _ & _ & E)]; rewrite E; [done|apply length_insert]. }
  split.
  - intros i. rewrite Eh, Hn. apply Hh.
  - intros i j li lj Hi Hj Hvi Hvj. destruct (Hl _ _ Hi Hvi) as (? & ? & ?). destruct (Hl _ _ Hj Hvj) as (? & ? & ?).
    by eapply Hs.
  - intros i l Hi Hv. destruct (Hl _ _ Hi Hv) as (? & ? & ?). rewrite Eh, Eu. by eapply Ho.
  - by rewrite Er, Eu, El, Eh.
Qed.

Lemma loop_act_moves (a : Internal) (s s' : State) :
  internal_act config message_bus a s = Some s' ->
  match a with
  | Drain_done | Drain_timeout | Drain_cancelled | Put_sentinel_done | Put_timeout | Observer_drained
  | Observer_timeout | Rolled_back => True
  | _ => loop_moves s s'
  end.
Proof.
  intros Hact. destruct a; try exact I; simpl in Hact.
  all: loop_cases Hact.
  all: split; [done|].
  all: first [left; reflexivity|right; eexists _, _, _; split_and!; [eassumption|done|reflexivity]].
Qed.

Lemma cancel_loop_moves i (s : State) : loop_moves s (cancel_loop i s).
Proof.
  unfold cancel_loop. repeat case_match; (split; [done|]); [by left| |by left].
  right. by eexists _, _, _.
Qed.

Lemma cancel_observer_moves j (s : State) : loop_moves s (cancel_observer j s).
Proof. unfold cancel_observer. repeat case_match; (split; [done|]); by left. Qed.

Lemma moves_refl (s : State) : loop_moves s s.
Proof. split; [done|by left]. Qed.

Lemma cancel_processing_moves (s : State) : loop_moves s (cancel_processing s).
Proof. unfold cancel_processing. case_match; [apply cancel_loop_moves|apply moves_refl]. Qed.

Lemma cancel_observing_moves (s : State) : loop_moves s (cancel_observing s).
Proof. unfold cancel_observing. case_match; [apply cancel_observer_moves|apply moves_refl]. Qed.

(** A new loop, when none is live. *)
Lemma control_start (s : State) :
  control s -> _running (lifecycle s) = false -> _unrestartable (lifecycle s) = false -> holder (lifecycle s) = None ->
  control (set_running true (spawn_observer (spawn_processing s))).
Proof.
  intros [Hh Hs Ho Hp] Hr Hu Hl. rewrite Hr, Hu, Hl in Hp.
  destruct (_processing_task (writer s)) eqn:Ht; [done|].
  assert (Hd : forall i l, loops (writer s) !! i = Some l -> ~ live l).
  { intros i l Hi Hv. destruct (Ho i l Hi Hv); congruence. }
  assert (Hn : forall i l, (loops (writer s) ++ [fresh_loop Polling]) !! i = Some l -> live l -> i = length (loops (writer s))).
  { intros i l [Hi|[Hk Hi]]%lookup_app_Some Hv; [by destruct (Hd i l)|].
    apply list_lookup_singleton_Some in Hi as [Hi _]. lia. }
  split; simpl.
  - intros i [= <-]. rewrite length_app. simpl. lia.
  - intros i j li lj Hi Hj Hvi Hvj. by rewrite (Hn i li), (Hn j lj).
  - intros i l Hi Hv. left. by rewrite (Hn i l).
  - by rewrite Hu, Hl.
Qed.

(** The handle is dropped: the loop has ended or the engine is unrestartable. *)
Lemma control_release (s s' : State) :
  control s -> loops (writer s') = loops (writer s) -> _processing_task (writer s') = None ->
  _running (lifecycle s') = false -> (forall p o, holder (lifecycle s') = Some (Rolling_back p o) -> p = None) ->
  match holder (lifecycle s') with Some (Drain_wait | Drain_cancel _) => False | _ => True end ->
  (_unrestartable (lifecycle s') = true -> holder (lifecycle s') = None) ->
  (_unrestartable (lifecycle s) = true -> _unrestartable (lifecycle s') = true) ->
  (_unrestartable (lifecycle s') = true \/ forall i l, _processing_task (writer s) = Some i ->
    loops (writer s) !! i = Some l -> ~ live l) ->
  control s'.
Proof.
  intros [Hh Hs Ho Hp] El Eh Er Hrb Hd Hu Hu' Hend. split.
  - by rewrite Eh.
  - rewrite El. apply Hs.
  - rewrite El. intros i l Hi Hv. right. destruct Hend as [|Hend]; [done|].
    destruct (Ho i l Hi Hv) as [Ht|]; [|auto]. by destruct (Hend i l Ht Hi).
  - rewrite Er, Eh. destruct (_unrestartable (lifecycle s')); [by rewrite Hu|].
    destruct (holder (lifecycle s')) as [[]|]; try done. by rewrite (Hrb _ _ eq_refl).
Qed.

Lemma phase_ended (s : State) p i l :
  processing_phase s = Some p -> finished p = true ->
  _processing_task (writer s) = Some i -> loops (writer s) !! i = Some l -> ~ live l.
Proof. unfold processing_phase, live. intros Hp Hf Ht Hl. rewrite Ht in Hp. simpl in Hp. rewrite Hl in Hp. simpl in Hp. simplify_eq. congruence. Qed.

(** The lock is passed on between the stages of a stop after its first. *)
Lemma control_stage (s s' : State) :
  control s -> loops (writer s') = loops (writer s) -> _processing_task (writer s') = _processing_task (writer s) ->
  _processing_task (writer s) = None ->
  _running (lifecycle s) = false -> _running (lifecycle s') = false ->
  match holder (lifecycle s') with
  | None => _unrestartable (lifecycle s) = true -> _unrestartable (lifecycle s') = true
  | Some (Observer_wait | Observer_cancel | Rolling_back None _) =>
      _unrestartable (lifecycle s) = false /\ _unrestartable (lifecycle s') = false
  | _ => False
  end -> control s'.
Proof.
  intros [Hh Hs Ho Hp] El Eh En Er Er' Hst. split.
  - by rewrite Eh, En.
  - rewrite El. apply Hs.
  - rewrite El, Eh. intros i l Hi Hv. destruct (Ho i l Hi Hv) as [?|Hu]; [by left|right].
    rewrite Hu in Hst. destruct (holder (lifecycle s')) as [[| | | | |[]]|]; naive_solver.
  - rewrite Er', Eh, En. destruct (holder (lifecycle s')) as [[| | | | |[]]|]; try done; destruct (_unrestartable (lifecycle s')); naive_solver.
Qed.

Lemma stop_act_control a (s s' : State) :
  internal_act config message_bus a s = Some s' -> control s -> control s'.
Proof.
  intros Hact Hc. pose proof (loop_act_moves _ _ _ Hact) as Hm. pose proof (ctl_phase _ Hc) as Hp.
  destruct a; try (by apply (control_moves _ _ Hc)); clear Hm; simpl in Hact.
  all: unfold drain_done, drain_timeout, drain_cancelled, put_sentinel, put_timeout, observer_drained, observer_timeout, rolled_back in Hact.
  all: destruct (holder (lifecycle s)) as [[]|] eqn:Hh; try done;
    destruct (_running (lifecycle s)) eqn:Hr, (_unrestartable (lifecycle s)) eqn:Hu, (_processing_task (writer s)) eqn:Ht; try done.
  - destruct (processing_phase s) as [[]|] eqn:Hph; try done; injection Hact as <-.
    all: apply (control_release s); simpl; rewrite ?Hr, ?Hu; try done.
    all: right; intros i l Hi Hl; eapply phase_ended; eauto.
  - injection Hact as <-. destruct (cancel_processing_moves s) as [(Eh & Er & Eu & El) Hl].
    destruct (control_moves _ _ Hc (cancel_processing_moves s)) as [Hh' Hs' Ho' Hp']. split; try done.
    simpl. by rewrite Er, Eu, Eh, Hr, Hu, Ht.
  - destruct (processing_phase s) as [[]|] eqn:Hph; try done; injection Hact as <-.
    all: apply (control_release s); simpl; rewrite ?Hr, ?Hu; try done.
    all: right; intros i l Hi Hl; eapply phase_ended; eauto.
  - destruct (observer_queue_full _ _); [done|]. injection Hact as <-.
    apply (control_stage s); simpl; try done. by destruct (_observer_task (observing s)).
  - destruct (observer_queue_full _ _); [|done]. injection Hact as <-.
    apply (control_stage s); simpl; try done. by destruct (_observer_task (observing s)).
  - destruct (observer_phase s) as [[]|]; try done; injection Hact as <-; apply (control_stage s); simpl; try done; try by rewrite Hu.
  - destruct (observer_phase s) as [[]|]; try done; injection Hact as <-; apply (control_stage s); simpl; try done; by rewrite Hu.
  - injection Hact as <-. destruct (control_moves _ _ Hc (cancel_observing_moves s)) as [Hh' Hs' Ho' Hp']. split; try done.
    destruct (cancel_observing_moves s) as [(Eh & Er & Eu & El) _]. simpl. by rewrite Er, Eu, Eh, Hr, Hu, Ht.
  - by destruct processing.
  - destruct processing; [done|]. case_match; [|done]. injection Hact as <-. apply (control_stage s); simpl; congruence || done.
Qed.

Lemma external_control a (s s' : State) : external config a s = Some s' -> control s -> control s'.
Proof.
  intros Hact Hc. pose proof (ctl_phase _ Hc) as Hp. destruct a; simpl in Hact.
  - unfold submit, attempt in Hact. act_cases Hact; (apply (control_moves _ _ Hc); split; [done|by left]).
  - injection Hact as <-. apply (control_moves _ _ Hc); split; [done|by left].
  - unfold set_max_queue_size, attempt in Hact. act_cases Hact; (apply (control_moves _ _ Hc); split; [done|by left]).
  - injection Hact as <-. apply (control_moves _ _ Hc); split; [done|by left].
  - unfold start, may_start, attempt, unlocked, rbind in Hact. act_cases Hact; try done.
    by apply control_start.
  - unfold start_fails, attempt, unlocked in Hact. case_bool_decide as Hl; [|done]. injection Hact as <-.
    unfold may_start, rbind. destruct (_unrestartable (lifecycle s)) eqn:Hu, (_running (lifecycle s)) eqn:Hr; try done.
    rewrite Hl in Hp. destruct (_processing_task (writer s)) as [t|] eqn:Ht; [done|]. simpl.
    replace (if created =? 0 then None else None) with (@None nat) by by destruct (created =? 0).
    set (o := if created <? 2 then _ else None). set (s1 := match o with Some j => cancel_observer j s | None => s end).
    assert (Hm : loop_moves s s1) by (unfold s1; destruct o; [apply cancel_observer_moves|apply moves_refl]).
    pose proof (control_moves _ _ Hc Hm) as Hc1. destruct Hm as [(Eh & Er & Eu & El) _].
    apply (control_stage s1); simpl; congruence || done || (split; congruence).
  - destruct (unlocked s || _); [|done]. unfold stop, attempt in Hact. destruct (timeout_ok timeout); [|by injection Hact as <-].
    destruct (_running (lifecycle s)) eqn:Hr; injection Hact as <-; [|done].
    destruct (_unrestartable (lifecycle s)) eqn:Hu; [done|].
    destruct (holder (lifecycle s)) eqn:Hl; [done|]. destruct (_processing_task (writer s)) eqn:Ht; [|done].
    destruct Hc as [Hh Hs Ho _]. split; try done. simpl. by rewrite Hu, Ht.
  - unfold stop_interrupted in Hact. destruct (holder (lifecycle s)) as [[]|] eqn:Hh; try done.
    all: destruct (_running (lifecycle s)) eqn:Hr, (_unrestartable (lifecycle s)) eqn:Hu, (_processing_task (writer s)) eqn:Ht; try done.
    + injection Hact as <-. apply (control_release s); simpl; rewrite ?Hr, ?Hu; try done. by left.
    + injection Hact as <-. apply (control_moves _ _ Hc), cancel_processing_moves.
    + case_match; [|done]. injection Hact as <-. by apply (control_stage s).
    + injection Hact as <-. by apply (control_stage s).
    + injection Hact as <-. apply (control_moves _ _ Hc), cancel_observing_moves.
Qed.

Lemma act_control a (s s' : State) : act config message_bus a s = Some s' -> control s -> control s'.
Proof. destruct a as [a|a]; [apply external_control|apply stop_act_control]. Qed.

(** ** The pipeline: turns taken, the turn in progress, the queue *)

Definition dispatching (l : Loop (obj:=obj)) : list nat := match phase l with Dispatching id => [id] | _ => [] end.

Definition pipeline (s : State) : list nat :=
  (turns (writer s)).*1 ++ flat_map dispatching (loops (writer s)) ++ _queue (inbox s).

Record ordered (s : State) : Prop := {
  ord_sorted : StronglySorted lt (pipeline s);
  ord_admitted : Forall (fun id => id < length (envelopes (inbox s))) (pipeline s);
}.

Lemma flat_map_only {A B} (f : A -> list B) l i x :
  l !! i = Some x -> (forall j y, l !! j = Some y -> j <> i -> f y = []) -> flat_map f l = f x.
Proof.
  revert i. induction l as [|a l IH]; intros i Hi Ho; [done|]. simpl. destruct i as [|i]; simpl in Hi.
  - injection Hi as ->. replace (flat_map f l) with (@nil B); [apply app_nil_r|].
    symmetry. apply flat_map_nil. intros y [j Hj]%list_elem_of_lookup. by apply (Ho (S j)).
  - rewrite (Ho 0 a) by done. apply (IH i); [done|]. intros j y Hj Hn. apply (Ho (S j)); [done|lia].
Qed.

Lemma dispatching_only (s : State) i l :
  control s -> loops (writer s) !! i = Some l -> live l -> flat_map dispatching (loops (writer s)) = dispatching l.
Proof.
  intros Hc Hi Hv. apply (flat_map_only _ _ i); [done|]. intros j y Hj Hn.
  destruct (phase y) eqn:Hp; unfold dispatching; rewrite Hp; try done. destruct Hn.
  apply (ctl_single _ Hc j i y l); try done. unfold live. by rewrite Hp.
Qed.

Lemma dispatching_set (s : State) i l l' :
  control s -> loops (writer s) !! i = Some l -> live l ->
  flat_map dispatching (<[i := l']> (loops (writer s))) = dispatching l'.
Proof.
  intros Hc Hi Hv. apply (flat_map_only _ _ i); [apply list_lookup_insert_eq; by eapply lookup_lt_Some|].
  intros j y Hj Hn. rewrite list_lookup_insert_ne in Hj by done.
  destruct (phase y) eqn:Hp; unfold dispatching; rewrite Hp; try done. destruct Hn.
  apply (ctl_single _ Hc j i y l); try done. unfold live. by rewrite Hp.
Qed.

Lemma resolve_length id f (l : list (_MutationEnvelope (obj:=obj))) : length (resolve id f l) = length l.
Proof. apply length_alter. Qed.

Ltac pipe :=
  repeat match goal with
  | Hc : control ?s, Hl : loops (writer ?s) !! ?i = Some ?l |- context [flat_map dispatching (<[?i := ?l']> (loops (writer ?s)))] =>
      rewrite (dispatching_set s i l l' Hc Hl eq_refl), ?(dispatching_only s i l Hc Hl eq_refl)
  end; simpl; rewrite ?fmap_app, ?resolve_length, <-?app_assoc; simpl.

Lemma loop_act_pipeline a (s s' : State) :
  internal_act config message_bus a s = Some s' -> control s ->
  match a with
  | Drain_done | Drain_timeout | Drain_cancelled | Put_sentinel_done | Put_timeout | Observer_drained
  | Observer_timeout | Rolled_back => True
  | _ => sublist (pipeline s') (pipeline s) /\ length (envelopes (inbox s')) = length (envelopes (inbox s))
  end.
Proof.
  intros Hact Hc. destruct a; try exact I; simpl in Hact; loop_cases Hact.
  all: unfold pipeline; simpl; pipe.
  all: try (split; [|done]).
  all: try match goal with E : _queue _ = _ :: _ |- _ => rewrite E end.
  all: try reflexivity.
Qed.

Lemma flat_map_insert_same {A B} (f : A -> list B) l i x x' :
  l !! i = Some x -> f x' = f x -> flat_map f (<[i := x']> l) = flat_map f l.
Proof.
  revert i. induction l as [|a l IH]; intros [|i] Hi Hf; simpl in *; try done; [by simplify_eq; rewrite Hf|by rewrite IH].
Qed.

Lemma cancel_loop_pipeline i (s : State) :
  pipeline (cancel_loop i s) = pipeline s /\ inbox (cancel_loop i s) = inbox s.
Proof.
  unfold cancel_loop. destruct (loops (writer s) !! i) as [l|] eqn:Hl; [|done]. destruct (finished _); [done|].
  split; [|done]. unfold pipeline. simpl. by erewrite flat_map_insert_same.
Qed.

Lemma cancel_processing_pipeline (s : State) :
  pipeline (cancel_processing s) = pipeline s /\ inbox (cancel_processing s) = inbox s.
Proof. unfold cancel_processing. case_match; [apply cancel_loop_pipeline|done]. Qed.

Lemma cancel_observer_pipeline j (s : State) :
  pipeline (cancel_observer j s) = pipeline s /\ inbox (cancel_observer j s) = inbox s.
Proof. unfold cancel_observer. by repeat case_match. Qed.

Lemma cancel_observing_pipeline (s : State) :
  pipeline (cancel_observing s) = pipeline s /\ inbox (cancel_observing s) = inbox s.
Proof. unfold cancel_observing. case_match; [apply cancel_observer_pipeline|done]. Qed.

Lemma shut_down_all_length q (l : list (_MutationEnvelope (obj:=obj))) :
  length (foldl (fun l id => shut_down id l) l q) = length l.
Proof. revert l. induction q as [|id q IH]; intros l; simpl; [done|]. rewrite IH. apply resolve_length. Qed.

Definition shrinks (s s' : State) : Prop :=
  sublist (pipeline s') (pipeline s) /\ length (envelopes (inbox s')) = length (envelopes (inbox s)).

Lemma shrinks_same (s s' : State) : pipeline s' = pipeline s -> inbox s' = inbox s -> shrinks s s'.
Proof. intros Hp Hb. split; [by rewrite Hp|by rewrite Hb]. Qed.

(** Flushing empties the queue. *)
Lemma fail_remaining_shrinks saved (s s' : State) :
  inbox s' = _fail_remaining_futures saved (inbox s) -> writer s' = writer s \/ writer s' = writer (set_processing_task None s) ->
  shrinks s s'.
Proof.
  intros Hb Hw. split.
  - unfold pipeline. rewrite Hb. simpl.
    assert ((turns (writer s')).*1 = (turns (writer s)).*1 /\ loops (writer s') = loops (writer s)) as [-> ->]
      by (destruct Hw as [->| ->]; done).
    rewrite app_nil_r, app_assoc. apply sublist_inserts_r. done.
  - rewrite Hb. simpl. rewrite shut_down_all_length. unfold shut_down. repeat case_match; by rewrite ?resolve_length.
Qed.

Lemma stop_act_pipeline a (s s' : State) :
  internal_act config message_bus a s = Some s' -> control s -> shrinks s s'.
Proof.
  intros Hact Hc. pose proof (loop_act_pipeline _ _ _ Hact Hc) as Hl. destruct a; try exact Hl; clear Hl; simpl in Hact.
  all: stop_cases Hact.
  all: try (by apply shrinks_same).
  all: try (by eapply fail_remaining_shrinks; [reflexivity|by right]).
  - apply (shrinks_same s); [apply cancel_processing_pipeline|apply cancel_processing_pipeline].
  - apply (shrinks_same s); [apply cancel_observing_pipeline|apply cancel_observing_pipeline].
Qed.

Lemma start_pipeline (s : State) : pipeline (set_running true (spawn_observer (spawn_processing s))) = pipeline s.
Proof. unfold pipeline. simpl. by rewrite flat_map_app, app_nil_r. Qed.

Lemma external_pipeline a (s s' : State) :
  external config a s = Some s' -> control s ->
  shrinks s s' \/ (exists m, a = Submit m /\ pipeline s' = pipeline s ++ [length (envelopes (inbox s))] /\
    envelopes (inbox s') = envelopes (inbox s) ++ [{| mutation := m; future := Pending |}]).
Proof.
  intros Hact Hc. destruct a; simpl in Hact.
  - unfold submit, attempt in Hact. act_cases Hact; try (left; by apply shrinks_same).
    right. exists m. split_and!; [done| |done]. unfold pipeline. simpl. by rewrite <-!app_assoc.
  - injection Hact as <-. left. split; [done|]. simpl. apply resolve_length.
  - unfold set_max_queue_size, attempt in Hact. act_cases Hact; left; by apply shrinks_same.
  - injection Hact as <-. left. by apply shrinks_same.
  - unfold start, may_start, attempt, rbind in Hact. act_cases Hact; left; apply shrinks_same; try done. apply start_pipeline.
  - unfold start_fails, may_start, attempt in Hact. left.
    destruct (unlocked s); [|done]. injection Hact as <-. destruct (_unrestartable (lifecycle s)), (_running (lifecycle s)); try by apply shrinks_same.
    simpl. set (p := if created =? 0 then _ else None). set (o := if created <? 2 then _ else None).
    set (s1 := match p with Some i => cancel_loop i s | None => s end).
    assert (pipeline s1 = pipeline s /\ inbox s1 = inbox s) as [E1 E2] by (unfold s1; destruct p; [apply cancel_loop_pipeline|done]).
    destruct o as [j|]; [|by apply shrinks_same].
    destruct (cancel_observer_pipeline j s1) as [E3 E4]. apply shrinks_same; simpl; [etrans; [exact E3|done]|congruence].
  - unfold stop, attempt in Hact. left. act_cases Hact; by apply shrinks_same.
  - unfold stop_interrupted in Hact. left. destruct (holder (lifecycle s)) as [[]|]; try done.
    + injection Hact as <-. by eapply fail_remaining_shrinks; [reflexivity|right].
    + injection Hact as <-. apply shrinks_same; apply cancel_processing_pipeline.
    + case_match; [|done]. injection Hact as <-. by apply shrinks_same.
    + injection Hact as <-. by apply shrinks_same.
    + injection Hact as <-. apply shrinks_same; apply cancel_observing_pipeline.
Qed.

Lemma forall_sublist {A} (P : A -> Prop) (l1 l2 : list A) : sublist l1 l2 -> Forall P l2 -> Forall P l1.
Proof. induction 1; intros Hl; [done| |]; apply Forall_cons in Hl as [? ?]; [constructor|]; auto. Qed.

Lemma sorted_sublist (l1 l2 : list nat) : sublist l1 l2 -> StronglySorted lt l2 -> StronglySorted lt l1.
Proof.
  induction 1 as [|x l1 l2 Hs IH|x l1 l2 Hs IH]; intros Hl; [done| |].
  - apply StronglySorted_inv in Hl as [Hl Hx]. constructor; [by apply IH|]. by eapply forall_sublist.
  - apply StronglySorted_inv in Hl as [Hl _]. by apply IH.
Qed.

Lemma lt_sorted_snoc (l : list nat) n : StronglySorted lt l -> Forall (fun x => x < n) l -> StronglySorted lt (l ++ [n]).
Proof.
  induction 1 as [|x l Hl IH Hx]; intros Hn; simpl; [by repeat constructor|].
  apply Forall_cons in Hn as [Hn Hn']. constructor; [by apply IH|]. apply Forall_app. by repeat constructor.
Qed.

Lemma act_ordered a (s s' : State) :
  act config message_bus a s = Some s' -> control s -> ordered s -> ordered s'.
Proof.
  intros Hact Hc [Hs Ha].
  assert (shrinks s s' \/ exists m, pipeline s' = pipeline s ++ [length (envelopes (inbox s))] /\
    envelopes (inbox s') = envelopes (inbox s) ++ [{| mutation := m; future := Pending |}]) as [[Hp Hn]|(m & Hp & He)].
  { destruct a as [a|a]; simpl in Hact; [|left; by eapply stop_act_pipeline].
    destruct (external_pipeline _ _ _ Hact Hc) as [?|(m & _ & ?)]; eauto. }
  - split; [by eapply sorted_sublist|]. rewrite Hn. by eapply forall_sublist.
  - split; rewrite Hp; [by apply lt_sorted_snoc|]. rewrite He, length_app. simpl.
    apply Forall_app. split; [|repeat constructor; lia]. eapply Forall_impl; [exact Ha|]. simpl. lia.
Qed.


(** ** What the turns did, and what the callers were told *)

Notation Eng := (Engine R).
Notation Mutation := (TaskMutation obj).
Notation Result := (TaskMutationResult obj).

Definition turn_ok (m : Mutation) (t : Turn) (e : Eng) : Prop :=
  match t with
  | Whole env => mutation_ok m = true /\ fresh_env env e = true
  | Part env c _ => reaches c env m e = true
  end.

(** The turns taken one after the other, from [e0]; [ms] are the admitted
    mutations by id. *)
Inductive performed (ms : list Mutation) (e0 : Eng) : list (nat * Turn) -> Eng -> Prop :=
| performed_nil : performed ms e0 [] e0
| performed_snoc ts e id m t :
    performed ms e0 ts e -> ms !! id = Some m -> turn_ok m t e ->
    performed ms e0 (ts ++ [(id, t)]) (run_turn m t e).

(** [r] is the result of the turn of envelope [id]. *)
Definition explained (ms : list Mutation) (e0 : Eng) (ts : list (nat * Turn)) (id : nat) (m : Mutation) (r : Result) : Prop :=
  exists ts1 env ts2 e, ts = ts1 ++ (id, Whole env) :: ts2 /\ performed ms e0 ts1 e /\
    r = (_process_one env m e).2.

Definition truthful (ms : list Mutation) (e0 : Eng) (ts : list (nat * Turn)) (id : nat) (m : Mutation) (r : Result) : Prop :=
  explained ms e0 ts id m r \/ r = failed (request_id m) Shut_down internal \/
  r = failed (request_id m) Loop_error internal.

Definition answers (P : nat -> Mutation -> Result -> Prop) (l : list (_MutationEnvelope (obj:=obj))) : Prop :=
  forall id x r, l !! id = Some x -> future x = Answered r -> P id (mutation x) r.

Definition bodies (l : list (_MutationEnvelope (obj:=obj))) : list Mutation := mutation <$> l.

Lemma bodies_resolve id f l : bodies (resolve id f l) = bodies l.
Proof.
  unfold bodies, resolve. apply list_eq. intros j. rewrite !list_lookup_fmap.
  destruct (decide (j = id)) as [->|Hn]; [rewrite list_lookup_alter_eq|by rewrite list_lookup_alter_ne].
  destruct (l !! id) as [x|]; [|done]. simpl. by destruct (is_done (future x)).
Qed.

Lemma answers_resolve (P : nat -> Mutation -> Result -> Prop) id f l :
  (forall x r, l !! id = Some x -> f x = Answered r -> P id (mutation x) r) -> answers P l -> answers P (resolve id f l).
Proof.
  intros Hf Hl j x r Hj Hr. unfold resolve in Hj. destruct (decide (j = id)) as [->|Hn].
  - rewrite list_lookup_alter_eq in Hj. destruct (l !! id) as [y|] eqn:Hy; [|done]. simpl in Hj. injection Hj as <-.
    destruct (is_done (future y)) eqn:Hd; rewrite ?Hd in Hr; [exact (Hl id y r Hy Hr)|exact (Hf y r eq_refl Hr)].
  - rewrite list_lookup_alter_ne in Hj by done. exact (Hl j x r Hj Hr).
Qed.

Lemma performed_prefix ms ms' e0 ts e : (forall id m, ms !! id = Some m -> ms' !! id = Some m) ->
  performed ms e0 ts e -> performed ms' e0 ts e.
Proof. intros Hm. induction 1; econstructor; eauto. Qed.

Lemma truthful_later ms ms' e0 ts ts' id m r : (forall id m, ms !! id = Some m -> ms' !! id = Some m) ->
  truthful ms e0 ts id m r -> truthful ms' e0 (ts ++ ts') id m r.
Proof.
  intros Hm [(ts1 & env & ts2 & e & -> & Hp & Hr)|Hr]; [left|by right].
  exists ts1, env, (ts2 ++ ts'), e. rewrite <-app_assoc. split_and!; [done|by eapply performed_prefix|done].
Qed.

Lemma answers_mono (P Q : nat -> Mutation -> Result -> Prop) l :
  (forall id m r, P id m r -> Q id m r) -> answers P l -> answers Q l.
Proof. intros HPQ Hl id x r Hx Hr. eauto. Qed.

Record honest (e0 : Eng) (e : Eng) (ts : list (nat * Turn)) (l : list (_MutationEnvelope (obj:=obj))) : Prop := {
  hon_ok : Forall (fun m => mutation_ok m = true) (bodies l);
  hon_turns : performed (bodies l) e0 ts e;
  hon_answers : answers (truthful (bodies l) e0 ts) l;
}.

(** A future settled with anything but the result of a turn. *)
Definition no_result (f : _MutationEnvelope (obj:=obj) -> Future (obj:=obj)) : Prop :=
  forall x r, f x = Answered r -> r = _shutdown_result x \/ r = loop_error_result x.

Lemma honest_resolve e0 e ts l id f : no_result f -> honest e0 e ts l -> honest e0 e ts (resolve id f l).
Proof.
  intros Hf [Ho Ht Ha]. split; rewrite ?bodies_resolve; try done.
  apply answers_resolve; [|done]. intros x r _ Hr. right. by apply Hf.
Qed.

Lemma honest_shut_down e0 e ts l id : honest e0 e ts l -> honest e0 e ts (shut_down id l).
Proof. apply honest_resolve. intros x r [= <-]. by left. Qed.

Lemma honest_fail_remaining e0 e ts saved (b : Inbox (obj:=obj)) :
  honest e0 e ts (envelopes b) -> honest e0 e ts (envelopes (_fail_remaining_futures saved b)).
Proof.
  intros Hb. simpl.
  assert (Hq : forall q l, honest e0 e ts l -> honest e0 e ts (foldl (fun l id => shut_down id l) l q)).
  { induction q as [|id q IH]; intros l Hl; simpl; [done|]. by apply IH, honest_shut_down. }
  apply Hq. repeat case_match; try done; by apply honest_shut_down.
Qed.

Lemma honest_turn e0 e ts l id x t :
  honest e0 e ts l -> l !! id = Some x -> (forall env, t = Whole env -> fresh_env env e = true) ->
  (forall env c landed, t = Part env c landed -> reaches c env (mutation x) e = true) ->
  honest e0 (run_turn (mutation x) t e) (ts ++ [(id, t)]) l.
Proof.
  intros [Ho Ht Ha] Hx Hw Hp. assert (Hb : bodies l !! id = Some (mutation x)) by (unfold bodies; by rewrite list_lookup_fmap, Hx).
  split; [done| |].
  - constructor; [done..|]. destruct t; simpl; [|by eapply Hp]. split; [|by apply Hw]. by eapply Forall_lookup_1 in Ho.
  - eapply answers_mono; [|exact Ha]. intros ? ? ?. by apply truthful_later.
Qed.

Lemma honest_answer e0 e ts l id x env :
  honest e0 e ts l -> l !! id = Some x -> fresh_env env e = true ->
  honest e0 (_process_one env (mutation x) e).1 (ts ++ [(id, Whole env)])
    (resolve id (fun _ => Answered (_process_one env (mutation x) e).2) l).
Proof.
  intros Hl Hx Hf. pose proof (hon_turns _ _ _ _ Hl) as Ht.
  destruct (honest_turn e0 e ts l id x (Whole env) Hl Hx) as [Ho Ht' Ha]; [by intros ? [= <-]|done|].
  split; rewrite ?bodies_resolve; try done. apply answers_resolve; [|done]. intros y r Hy [= <-]. left.
  exists ts, env, [], e. simplify_eq. by split_and!.
Qed.

Definition state_honest (e0 : Eng) (s : State) : Prop :=
  honest e0 (engine (writer s)) (turns (writer s)) (envelopes (inbox s)).

Lemma honest_same e0 (s s' : State) :
  state_honest e0 s -> engine (writer s') = engine (writer s) -> turns (writer s') = turns (writer s) ->
  envelopes (inbox s') = envelopes (inbox s) -> state_honest e0 s'.
Proof. unfold state_honest. by intros Hs -> -> ->. Qed.

Lemma honest_settled e0 (s s' : State) id f :
  state_honest e0 s -> no_result f -> engine (writer s') = engine (writer s) -> turns (writer s') = turns (writer s) ->
  envelopes (inbox s') = resolve id f (envelopes (inbox s)) -> state_honest e0 s'.
Proof. unfold state_honest. intros Hs Hf -> -> ->. by apply honest_resolve. Qed.

Lemma honest_flushed e0 (s s' : State) saved :
  state_honest e0 s -> engine (writer s') = engine (writer s) -> turns (writer s') = turns (writer s) ->
  inbox s' = _fail_remaining_futures saved (inbox s) -> state_honest e0 s'.
Proof. unfold state_honest. intros Hs -> -> ->. by apply honest_fail_remaining. Qed.

(** A turn cut short, with its future left alone or settled otherwise. *)
Lemma honest_part e0 (s s' : State) id x env c landed :
  state_honest e0 s -> envelopes (inbox s) !! id = Some x -> reaches c env (mutation x) (engine (writer s)) = true ->
  engine (writer s') = interrupted c landed env (mutation x) (engine (writer s)) ->
  turns (writer s') = turns (writer s) ++ [(id, Part env c landed)] ->
  envelopes (inbox s') = envelopes (inbox s) \/
    (exists f, no_result f /\ envelopes (inbox s') = resolve id f (envelopes (inbox s))) ->
  state_honest e0 s'.
Proof.
  unfold state_honest. intros Hs Hx Hr -> -> Hl.
  assert (Ht : honest e0 (interrupted c landed env (mutation x) (engine (writer s)))
    (turns (writer s) ++ [(id, Part env c landed)]) (envelopes (inbox s))).
  { apply (honest_turn _ _ _ _ _ x (Part env c landed)); [done|done|done|]. by intros ? ? ? [= <- <- <-]. }
  destruct Hl as [->|(f & Hf & ->)]; [done|by apply honest_resolve].
Qed.

Lemma cancel_loop_writer i (s : State) :
  engine (writer (cancel_loop i s)) = engine (writer s) /\ turns (writer (cancel_loop i s)) = turns (writer s).
Proof. unfold cancel_loop. by repeat case_match. Qed.

Lemma stop_acts_same a (s s' : State) :
  internal_act config message_bus a s = Some s' ->
  match a with
  | Drain_done | Drain_timeout | Drain_cancelled | Put_sentinel_done | Put_timeout | Observer_drained
  | Observer_timeout | Rolled_back =>
      engine (writer s') = engine (writer s) /\ turns (writer s') = turns (writer s) /\
      (envelopes (inbox s') = envelopes (inbox s) \/ exists saved, inbox s' = _fail_remaining_futures saved (inbox s))
  | _ => True
  end.
Proof.
  intros Hact. destruct a; try exact I; simpl in Hact.
  all: stop_cases Hact; try (split_and!; [done|done|by first [left; reflexivity|right; eexists; reflexivity]]).
  - unfold cancel_processing. case_match; [|by auto]. split; [apply cancel_loop_writer|]. simpl. split; [apply cancel_loop_writer|].
    left. simpl. f_equal. by apply cancel_loop_pipeline.
  - unfold cancel_observing, cancel_observer. repeat case_match; by auto.
Qed.

Lemma act_honest e0 a (s s' : State) :
  act config message_bus a s = Some s' -> state_honest e0 s -> state_honest e0 s'.
Proof.
  intros Hact Hs. destruct a as [a|a].
  - destruct a; simpl in Hact.
    + unfold submit, attempt in Hact. act_cases Hact; try done. unfold state_honest in *. simpl.
      destruct Hs as [Ho Ht Ha]. split; unfold bodies in *; rewrite ?fmap_app.
      * apply Forall_app. split; [done|]. repeat constructor. by apply andb_prop in H0 as [? _].
      * eapply performed_prefix; [|exact Ht]. intros id' m' Hm'. by apply lookup_app_l_Some.
      * intros id x r [Hx|[_ Hx]]%lookup_app_Some Hr; [|by apply list_lookup_singleton_Some in Hx as [_ <-]].
        rewrite <-(app_nil_r (turns _)). eapply truthful_later; [|by eapply Ha].
        intros id' m' Hm'. by apply lookup_app_l_Some.
    + injection Hact as <-. eapply (honest_settled _ s); try done. intros x r [=].
    + unfold set_max_queue_size, attempt in Hact. act_cases Hact; by apply (honest_same e0 s).
    + injection Hact as <-. by apply (honest_same e0 s).
    + unfold start, may_start, attempt, rbind in Hact. act_cases Hact; by apply (honest_same e0 s).
    + unfold start_fails, may_start, attempt, rbind, cancel_loop, cancel_observer in Hact. act_cases Hact; by apply (honest_same e0 s).
    + unfold stop, attempt in Hact. act_cases Hact; by apply (honest_same e0 s).
    + unfold stop_interrupted, cancel_processing, cancel_loop, cancel_observing, cancel_observer in Hact.
      act_cases Hact; try (by apply (honest_same e0 s)). by eapply (honest_flushed e0 s).
  - pose proof (stop_acts_same _ _ _ Hact) as Hstop.
    destruct a; simpl in Hact;
      try (destruct Hstop as (He & Ht & [Hb|[saved Hb]]); [by eapply honest_same|by eapply honest_flushed]); clear Hstop; loop_cases Hact.
    all: try (by apply (honest_same e0 s)).
    all: try (by apply honest_answer).
    all: try (eapply (honest_settled e0 s); [done| |reflexivity..]; intros x r Hr; by simplify_eq; auto).
    all: eapply (honest_part e0 s); [done|eassumption|eassumption|reflexivity|reflexivity|].
    all: try (by left).
    all: right; eexists; split; [|reflexivity]; intros x r Hr; by simplify_eq; auto.
Qed.

End Queue.
