(* ===== verification/EngineQueueDrain.v ===== *)
(** * EngineQueueDrain

    Who waits for an answer: every pending envelope is queued, in flight or
    saved by the drain that cancelled its turn, and nothing is left pending once
    the engine has stopped; kept by every action of the queue. *)

From stdpp Require Import gmap strings list sorting relations.
From Stdlib Require Import ZArith QArith Lia.
From S2P Require Import Prelude StateMachine PlanTransitions TaskEnums TaskTransitions PlanUnits TaskModel TaskEngine EngineQueue EngineQueueProofs.
From S2P Require TaskEngineProofs.
From S2P Require SecurityModel.
Import TaskStatus.
Import SecurityModel (Raised, Ordinary, Critical, Critical_group).
#[local] Open Scope nat_scope.

Section Queue.
Context {obj : Type} `{Runtime obj} {R : Type} `{!TaskRepository (obj:=obj) R}.
Context (config : TaskEngineConfig) (message_bus : bool).
#[local] Notation State := (EngineQueue.State (obj:=obj) (R:=R)).

(** ** Who still waits for an answer *)

Definition pending (b : Inbox (obj:=obj)) (id : nat) : Prop := future <$> envelopes b !! id = Some Pending.

Definition busy (l : Loop (obj:=obj)) : option nat :=
  match phase l with Dispatching id | Publishing id _ => Some id | _ => None end.

Definition draining (h : option Holder) : bool := match h with Some (Drain_wait | Drain_cancel _) => true | _ => false end.

Definition clean (s : State) : Prop := forall i l, loops (writer s) !! i = Some l -> swallowed l = false.

Definition unharmed (s : State) : Prop := forall i l e, loops (writer s) !! i = Some l -> phase l <> Died e.

Record settled (s : State) : Prop := {
  set_flight id : _in_flight (inbox s) = Some id -> exists i l, loops (writer s) !! i = Some l /\ busy l = Some id;
  set_publishing i l id ev : loops (writer s) !! i = Some l -> phase l = Publishing id ev -> ~ pending (inbox s) id;
  set_dispatching i l id : loops (writer s) !! i = Some l -> phase l = Dispatching id -> pending (inbox s) id ->
    _in_flight (inbox s) = Some id;
  set_cancel i l : loops (writer s) !! i = Some l -> live l -> cancel_requested l = true ->
    exists saved, holder (lifecycle s) = Some (Drain_cancel saved) /\
      (swallowed l = false -> saved = _in_flight (inbox s));
  set_pending id : clean s -> pending (inbox s) id -> id ∈ _queue (inbox s) \/ _in_flight (inbox s) = Some id \/
    holder (lifecycle s) = Some (Drain_cancel (Some id));
  set_ended i l : _processing_task (writer s) = Some i -> loops (writer s) !! i = Some l -> phase l = Ended ->
    _running (lifecycle s) = false /\ _queue (inbox s) = [];
  set_asked i l saved : holder (lifecycle s) = Some (Drain_cancel saved) -> _processing_task (writer s) = Some i ->
    loops (writer s) !! i = Some l -> live l -> cancel_requested l = true \/ swallowed l = true;
  set_died i l e saved : clean s -> holder (lifecycle s) = Some (Drain_cancel saved) ->
    _processing_task (writer s) = Some i -> loops (writer s) !! i = Some l -> phase l = Died e -> saved = None;
  set_stopped : _running (lifecycle s) = false -> draining (holder (lifecycle s)) = false -> unharmed s ->
    _queue (inbox s) = [] /\ _in_flight (inbox s) = None;
}.

Lemma busy_live l id : busy l = Some id -> live l.
Proof. unfold busy, live. by destruct (phase l). Qed.

Lemma pending_resolve (b : Inbox (obj:=obj)) id f id' l :
  envelopes b = l -> future <$> resolve id f l !! id' = Some Pending ->
  pending b id' /\ (id' = id -> (forall x, f x <> Pending) -> False).
Proof.
  intros Hl Hp. unfold pending, resolve in *. rewrite Hl. destruct (decide (id' = id)) as [->|Hn].
  - rewrite list_lookup_alter_eq in Hp. destruct (l !! id) as [x|]; [|done]. simpl in *.
    destruct (is_done (future x)) eqn:Hd; simpl in Hp; [by injection Hp as Hp; rewrite Hp in Hd|].
    split; [by destruct (future x)|]. intros _ Hf. injection Hp as Hp. by destruct (Hf x).
  - rewrite list_lookup_alter_ne in Hp by done. by split.
Qed.

Lemma fail_remaining_pending saved (b : Inbox (obj:=obj)) id :
  pending (_fail_remaining_futures saved b) id ->
  pending b id /\ id ∉ _queue b /\ match saved with Some x => id <> x | None => _in_flight b <> Some id end.
Proof.
  unfold pending at 1. simpl.
  assert (Hq : forall q (l : list (_MutationEnvelope (obj:=obj))), future <$> foldl (fun l id => shut_down id l) l q !! id = Some Pending ->
    future <$> l !! id = Some Pending /\ id ∉ q).
  { idtac. induction q as [|x q IH]; intros l Hl; simpl in Hl; [split; [done|apply not_elem_of_nil]|].
    apply IH in Hl as [Hl Hx].
    destruct (pending_resolve {| _queue := []; envelopes := l; _in_flight := None |} _ _ _ l eq_refl Hl) as [Hp Hne].
    split; [exact Hp|]. apply not_elem_of_cons. split; [|done]. intros ->. by apply Hne. }
  intros [Hl Hx]%Hq. destruct saved as [x|]; [|destruct (_in_flight b) as [x|]].
  - destruct (pending_resolve b _ _ _ _ eq_refl Hl) as [Hp Hne]. split_and!; [done|done|]. intros ->. by apply Hne.
  - destruct (pending_resolve b _ _ _ _ eq_refl Hl) as [Hp Hne]. split_and!; [done|done|]. intros [= ->]. by apply Hne.
  - done.
Qed.

Section Move.
Context (s s' : State) (i : nat) (l l' : Loop (obj:=obj)).
Hypothesis Hc : control s.
Hypothesis Hs : settled s.
Hypothesis Hi : loops (writer s) !! i = Some l.
Hypothesis Hv : live l.
Hypothesis Hloops : loops (writer s') = <[i := l']> (loops (writer s)).
Hypothesis Hsame : same_control s s'.

Lemma moved_lookup j lj : loops (writer s') !! j = Some lj ->
  (j = i /\ lj = l') \/ (loops (writer s) !! j = Some lj /\ ~ live lj).
Proof.
  rewrite Hloops. intros [(-> & -> & _)|[Hn Hj]]%list_lookup_insert_Some; [by left|right]. split; [done|].
  intros Hvj. by destruct (ctl_single _ Hc i j l lj).
Qed.

Lemma flight_here id : _in_flight (inbox s) = Some id -> busy l = Some id.
Proof.
  intros (j & lj & Hj & Hb)%(set_flight _ Hs).
  destruct (ctl_single _ Hc j i lj l Hj Hi (busy_live _ _ Hb) Hv). by simplify_eq.
Qed.

Lemma moved_clean : swallowed l' = swallowed l -> clean s' -> clean s.
Proof.
  intros Hsw Hcl j lj Hj. destruct (decide (j = i)) as [->|Hn].
  - simplify_eq. rewrite <-Hsw. apply (Hcl i). rewrite Hloops. apply list_lookup_insert_eq. by eapply lookup_lt_Some.
  - apply (Hcl j). rewrite Hloops. by rewrite list_lookup_insert_ne.
Qed.

Lemma moved_unharmed : unharmed s' -> unharmed s.
Proof.
  intros Hu j lj e Hj Hd. destruct (decide (j = i)) as [->|Hn].
  - simplify_eq. unfold live in Hv. by rewrite Hd in Hv.
  - apply (Hu j lj e); [|done]. rewrite Hloops. by rewrite list_lookup_insert_ne.
Qed.

(** The end of a turn. *)
Lemma settled_leave id p :
  busy l = Some id -> l' = enter p l -> busy l' = None -> p <> Ended ->
  (cancel_requested l = true -> p = Loop_cancelled) ->
  _queue (inbox s') = _queue (inbox s) -> _in_flight (inbox s') = None ->
  (forall j, pending (inbox s') j -> pending (inbox s) j) ->
  (pending (inbox s') id -> clean s -> holder (lifecycle s) = Some (Drain_cancel (Some id))) ->
  settled s'.
Proof.
  intros Hb Hl' Hb' He Hca Hq Hf Hp Hid. destruct Hsame as (Eh & Er & Eu & El). split.
  - by rewrite Hf.
  - intros j lj x ev [[-> ->]|[Hj Hn]]%moved_lookup Hph; [unfold busy in Hb'; by rewrite Hph in Hb'|].
    destruct Hn. unfold live. by rewrite Hph.
  - intros j lj x [[-> ->]|[Hj Hn]]%moved_lookup Hph; [unfold busy in Hb'; by rewrite Hph in Hb'|].
    destruct Hn. unfold live. by rewrite Hph.
  - intros j lj [[-> ->]|[Hj Hn]]%moved_lookup Hlv Hcr; [exfalso; rewrite Hl' in Hcr, Hlv; unfold live in Hlv; simpl in *; by rewrite Hca in Hlv|done].
  - intros j Hcl Hj. apply moved_clean in Hcl; [|by rewrite Hl']. rewrite El, Hq.
    destruct (set_pending _ Hs j Hcl (Hp j Hj)) as [?|[Hfl|?]]; [by left| |by auto].
    apply flight_here in Hfl. assert (j = id) as -> by congruence. auto.
  - rewrite Eh, Er, Hq. intros t lt Ht [[-> ->]|[Hj _]]%moved_lookup Hph; [by rewrite Hl' in Hph|]. by eapply set_ended.
  - rewrite El, Eh. intros t lt saved Hh Ht [[-> ->]|[Hj Hn1]]%moved_lookup Hlv; [|done]. rewrite Hl'. simpl. by eapply set_asked.
  - rewrite El, Eh. intros t lt e saved Hcl%moved_clean Hh Ht [[-> ->]|[Hj Hn1]]%moved_lookup Hph; [|by eapply set_died|by rewrite Hl'].
    destruct (set_asked _ Hs _ _ _ Hh Ht Hi Hv) as [Hc1|Hc1]; [|by rewrite (Hcl _ _ Hi) in Hc1].
    rewrite Hl', (Hca Hc1) in Hph. done.
  - rewrite Er, El, Hq, Hf. intros Hr Hd Hu%moved_unharmed. split; [|done]. by apply set_stopped.
Qed.

(** The turn is answered and its snapshot goes out. *)
Lemma settled_publish id ev :
  phase l = Dispatching id -> l' = enter (Publishing id ev) l -> cancel_requested l = false ->
  _queue (inbox s') = _queue (inbox s) -> _in_flight (inbox s') = _in_flight (inbox s) ->
  (forall j, pending (inbox s') j -> pending (inbox s) j /\ j <> id) -> settled s'.
Proof.
  intros Hb Hl' Hca Hq Hf Hp. destruct Hsame as (Eh & Er & Eu & El). split.
  - rewrite Hf. intros x Hx%flight_here. exists i, l'. rewrite Hloops.
    split; [apply list_lookup_insert_eq; by eapply lookup_lt_Some|]. rewrite Hl'. unfold busy in *. simpl. by rewrite Hb in Hx.
  - intros j lj x ev' [[-> ->]|[Hj Hn]]%moved_lookup Hph; [try (rewrite Hl' in Hph; simpl in Hph); injection Hph as <- <-; by intros [_ ?]%Hp|].
    destruct Hn. unfold live. by rewrite Hph.
  - intros j lj x [[-> ->]|[Hj Hn]]%moved_lookup Hph; [try (rewrite Hl' in Hph; simpl in Hph); done|]. destruct Hn. unfold live. by rewrite Hph.
  - intros j lj [[-> ->]|[Hj Hn]]%moved_lookup Hlv Hcr; [try (rewrite Hl' in Hcr, Hlv; simpl in Hcr); simpl in Hcr; congruence|done].
  - intros j Hcl Hj. apply moved_clean in Hcl; [|by rewrite Hl']. rewrite El, Hq, Hf.
    apply (set_pending _ Hs j Hcl). by apply Hp.
  - rewrite Eh, Er, Hq. intros t lt Ht [[-> ->]|[Hj _]]%moved_lookup Hph; [try (rewrite Hl' in Hph; simpl in Hph); done|]. by eapply set_ended.
  - rewrite El, Eh. intros t lt saved Hh Ht [[-> ->]|[Hj Hn1]]%moved_lookup Hlv; [|done]. rewrite Hl'. simpl. by eapply set_asked.
  - rewrite El, Eh. intros t lt e saved Hcl%moved_clean Hh Ht [[-> ->]|[Hj Hn1]]%moved_lookup Hph; [|by eapply set_died|by rewrite Hl'].
    by rewrite Hl' in Hph.
  - rewrite Er, El, Hq, Hf. intros Hr Hd Hu%moved_unharmed. by apply set_stopped.
Qed.

(** The loop takes the head of the queue. *)
Lemma settled_get id q :
  phase l = Polling -> l' = enter (Dispatching id) l -> cancel_requested l = false ->
  _queue (inbox s) = id :: q -> _queue (inbox s') = q -> _in_flight (inbox s') = Some id ->
  envelopes (inbox s') = envelopes (inbox s) -> settled s'.
Proof.
  intros Hb Hl' Hca Hq Hq' Hf Henv. destruct Hsame as (Eh & Er & Eu & El).
  assert (Hp : forall j, pending (inbox s') j <-> pending (inbox s) j) by (intros j; unfold pending; by rewrite Henv).
  assert (Hn : _in_flight (inbox s) = None).
  { destruct (_in_flight (inbox s)) as [x|] eqn:Hx; [|done]. apply flight_here in Hx. unfold busy in Hx. by rewrite Hb in Hx. }
  split.
  - rewrite Hf. intros x [= <-]. exists i, l'. rewrite Hloops.
    split; [apply list_lookup_insert_eq; by eapply lookup_lt_Some|by rewrite Hl'].
  - intros j lj x ev' [[-> ->]|[Hj Hn']]%moved_lookup Hph; [try (rewrite Hl' in Hph; simpl in Hph); done|]. destruct Hn'. unfold live. by rewrite Hph.
  - intros j lj x [[-> ->]|[Hj Hn']]%moved_lookup Hph; [try (rewrite Hl' in Hph; simpl in Hph); by injection Hph as <-|]. destruct Hn'. unfold live. by rewrite Hph.
  - intros j lj [[-> ->]|[Hj Hn']]%moved_lookup Hlv Hcr; [try (rewrite Hl' in Hcr, Hlv; simpl in Hcr); simpl in Hcr; congruence|done].
  - intros j Hcl Hj%Hp. apply moved_clean in Hcl; [|by rewrite Hl']. rewrite El, Hq', Hf.
    destruct (set_pending _ Hs j Hcl Hj) as [Hin|[?|?]]; [|congruence|by auto].
    rewrite Hq in Hin. apply elem_of_cons in Hin as [->|?]; auto.
  - rewrite Eh, Er. intros t lt Ht [[-> ->]|[Hj _]]%moved_lookup Hph; [try (rewrite Hl' in Hph; simpl in Hph); done|].
    destruct (set_ended _ Hs _ _ Ht Hj Hph). congruence.
  - rewrite El, Eh. intros t lt saved Hh Ht [[-> ->]|[Hj Hn1]]%moved_lookup Hlv; [|done]. rewrite Hl'. simpl. by eapply set_asked.
  - rewrite El, Eh. intros t lt e saved Hcl%moved_clean Hh Ht [[-> ->]|[Hj Hn1]]%moved_lookup Hph; [|by eapply set_died|by rewrite Hl'].
    by rewrite Hl' in Hph.
  - rewrite Er, El. intros Hr Hd Hu%moved_unharmed. destruct (set_stopped _ Hs Hr Hd Hu). congruence.
Qed.

(** The loop ends between turns. *)
Lemma settled_end p :
  phase l = Polling -> l' = enter p l -> finished p = true -> (forall e, p <> Died e) -> inbox s' = inbox s ->
  (p = Ended -> _running (lifecycle s) = false /\ _queue (inbox s) = []) -> settled s'.
Proof.
  intros Hb Hl' Hfin Hnd Hin He. destruct Hsame as (Eh & Er & Eu & El).
  assert (Hn : _in_flight (inbox s) = None).
  { destruct (_in_flight (inbox s)) as [x|] eqn:Hx; [|done]. apply flight_here in Hx. unfold busy in Hx. by rewrite Hb in Hx. }
  split; rewrite ?Hin, ?El, ?Eh, ?Er.
  - by rewrite Hn.
  - intros j lj x ev' [[-> ->]|[Hj Hn']]%moved_lookup Hph; [try (rewrite Hl' in Hph; simpl in Hph); simpl in Hph; by rewrite Hph in Hfin|]. by eapply set_publishing.
  - intros j lj x [[-> ->]|[Hj Hn']]%moved_lookup Hph; [try (rewrite Hl' in Hph; simpl in Hph); simpl in Hph; by rewrite Hph in Hfin|]. by eapply set_dispatching.
  - intros j lj [[-> ->]|[Hj Hn']]%moved_lookup Hlv Hcr; [try (rewrite Hl' in Hcr, Hlv; simpl in Hcr); unfold live in Hlv; simpl in Hlv; congruence|done].
  - intros j Hcl Hj. apply moved_clean in Hcl; [|by rewrite Hl']. by apply set_pending.
  - intros t lt Ht [[-> ->]|[Hj _]]%moved_lookup Hph; [try (rewrite Hl' in Hph; simpl in Hph); by apply He|]. by eapply set_ended.
  - intros t lt saved Hh Ht [[-> ->]|[Hj Hn1]]%moved_lookup Hlv; [|done]. rewrite Hl'. simpl. by eapply set_asked.
  - intros t lt e saved Hcl%moved_clean Hh Ht [[-> ->]|[Hj Hn1]]%moved_lookup Hph; [|by eapply set_died|by rewrite Hl'].
    rewrite Hl' in Hph. simpl in Hph. by destruct (Hnd e).
  - intros Hr Hd Hu%moved_unharmed. by apply set_stopped.
Qed.

Lemma settled_swallow :
  l' = {| phase := phase l; cancel_requested := false; swallowed := true |} -> inbox s' = inbox s -> phase l <> Ended ->
  settled s'.
Proof.
  intros Hl' Hin Hne. destruct Hsame as (Eh & Er & Eu & El).
  split; rewrite ?Hin, ?El, ?Eh, ?Er.
  - intros x Hx%flight_here. exists i, l'. rewrite Hloops.
    split; [apply list_lookup_insert_eq; by eapply lookup_lt_Some|by rewrite Hl'].
  - intros j lj x ev' [[-> ->]|[Hj Hn']]%moved_lookup Hph; try (rewrite Hl' in Hph; simpl in Hph); by eapply set_publishing.
  - intros j lj x [[-> ->]|[Hj Hn']]%moved_lookup Hph; try (rewrite Hl' in Hph; simpl in Hph); by eapply set_dispatching.
  - intros j lj [[-> ->]|[Hj Hn']]%moved_lookup Hlv Hcr; [by rewrite Hl' in Hcr|by eapply set_cancel].
  - intros j Hcl. specialize (Hcl i). rewrite Hloops in Hcl. specialize (Hcl _ (list_lookup_insert_eq _ _ _ (lookup_lt_Some _ _ _ Hi))). by rewrite Hl' in Hcl.
  - intros t lt Ht [[-> ->]|[Hj _]]%moved_lookup Hph; [try (rewrite Hl' in Hph; simpl in Hph); done|]. by eapply set_ended.
  - intros t lt saved Hh Ht [[-> ->]|[Hj Hn1]]%moved_lookup Hlv; [|done]. rewrite Hl'. by right.
  - intros t lt e saved Hcl. specialize (Hcl i). rewrite Hloops in Hcl. specialize (Hcl _ (list_lookup_insert_eq _ _ _ (lookup_lt_Some _ _ _ Hi))). by rewrite Hl' in Hcl.
  - intros Hr Hd Hu%moved_unharmed. by apply set_stopped.
Qed.
End Move.

(** Nothing of loops, lifecycle or in-flight envelope, and no queue that grows. *)
Lemma settled_same (s s' : State) :
  settled s -> loops (writer s') = loops (writer s) -> same_control s s' ->
  _queue (inbox s') = _queue (inbox s) -> _in_flight (inbox s') = _in_flight (inbox s) ->
  (forall j, pending (inbox s') j -> pending (inbox s) j) -> settled s'.
Proof.
  intros [] Hl (Eh & Er & Eu & El) Hq Hf Hp. split; unfold clean, unharmed; rewrite ?Hl, ?Eh, ?Er, ?El, ?Hq, ?Hf; eauto.
  intros i l id ev Hi Hph Hx. by eapply set_publishing0; eauto.
Qed.

Lemma pending_answer id f (b : Inbox (obj:=obj)) j :
  pending (answer id f b) j -> pending b j /\ (j = id -> (forall x, f x <> Pending) -> False).
Proof. intros Hj. by apply (pending_resolve b id f j (envelopes b)). Qed.

Lemma loop_act_settled a (s s' : State) :
  internal_act config message_bus a s = Some s' -> control s -> settled s ->
  match a with
  | Drain_done | Drain_timeout | Drain_cancelled | Put_sentinel_done | Put_timeout | Observer_drained
  | Observer_timeout | Rolled_back => True
  | _ => settled s'
  end.
Proof.
  intros Hact Hc Hs. destruct a; try exact I; simpl in Hact; loop_cases Hact.
  all: try (by apply (settled_same s)).
  all: try match goal with Hc : control ?s, Hs : settled ?s, Hi : loops (writer ?s) !! ?i = Some ?l |- _ =>
    first [ eapply (settled_leave s _ i l _ Hc Hs Hi); [exact eq_refl|reflexivity|done|reflexivity|reflexivity|done|done|done|done|done| |]
          | eapply (settled_publish s _ i l _ Hc Hs Hi); [exact eq_refl|reflexivity|done|reflexivity|reflexivity|done|done|done|]
          | eapply (settled_get s _ i l _ Hc Hs Hi); [exact eq_refl|reflexivity|done|reflexivity|reflexivity|done|eassumption|done|done|done]
          | eapply (settled_end s _ i l _ Hc Hs Hi); [exact eq_refl|reflexivity|done|reflexivity|reflexivity|done|done|done|done]
          | eapply (settled_swallow s _ i l _ Hc Hs Hi); [exact eq_refl|reflexivity|done|reflexivity|done|done] ]
  end.
  all: try (intros j Hj; first [exact Hj|exact (proj1 (pending_answer _ _ (inbox s) _ Hj))]).
  all: try (intros j Hj; destruct (pending_answer _ _ (inbox s) j Hj) as [Hp Hne]; split; [exact Hp|]; intros ->; by apply Hne).
  all: try (intros Hp; exfalso; by apply (proj2 (pending_answer _ _ (inbox s) _ Hp))).
  all: try (intros Hp; exfalso; by eapply (set_publishing s Hs)).
  intros Hp Hcl. destruct (set_cancel _ Hs i _ H0 eq_refl eq_refl) as (saved & Hh & Hsw).
  rewrite (Hsw (Hcl _ _ H0)), (set_dispatching _ Hs _ _ _ H0 eq_refl Hp) in Hh. done.
Qed.

(** No loop is live once the awaited one has ended. *)
Lemma none_live (s : State) p :
  control s -> draining (holder (lifecycle s)) = true -> processing_phase s = Some p -> finished p = true ->
  forall i l, loops (writer s) !! i = Some l -> ~ live l.
Proof.
  intros Hc Hd Hp Hf i l Hi Hv. pose proof (ctl_phase _ Hc) as Hph.
  destruct (ctl_owner _ Hc i l Hi Hv) as [Ht|Hu].
  - by eapply phase_ended.
  - rewrite Hu in Hph. destruct (holder (lifecycle s)) as [[]|]; try done; by repeat case_match.
Qed.

(** The drain is left with its queue flushed; [live] loops only when the engine
    is unrestartable. *)
Lemma settled_flush (s s' : State) saved h :
  control s -> settled s -> holder (lifecycle s) = Some h -> draining (Some h) = true ->
  match h with Drain_cancel x => saved = x | _ => saved = _in_flight (inbox s) end ->
  loops (writer s') = loops (writer s) -> _processing_task (writer s') = None ->
  inbox s' = _fail_remaining_futures saved (inbox s) ->
  (forall x, holder (lifecycle s') <> Some (Drain_cancel x)) ->
  (h = Drain_wait \/ forall i l, loops (writer s) !! i = Some l -> ~ live l) -> settled s'.
Proof.
  intros Hc Hs Hh Hd Hsv Hl Ht Hb Hn Hlive.
  assert (Hp : forall id, pending (inbox s') id -> pending (inbox s) id /\ id ∉ _queue (inbox s) /\
    match saved with Some x => id <> x | None => _in_flight (inbox s) <> Some id end).
  { intros id. rewrite Hb. apply fail_remaining_pending. }
  split; unfold clean, unharmed; rewrite ?Hl, ?Ht; try done.
  - by rewrite Hb.
  - intros i l id ev Hi Hph Hx%Hp. by eapply set_publishing; naive_solver.
  - intros i l id Hi Hph Hx%Hp. destruct Hx as (Hx & _ & Hne). exfalso.
    destruct Hlive as [->|Hlive]; [|apply (Hlive i l Hi); unfold live; by rewrite Hph].
    pose proof (set_dispatching _ Hs _ _ _ Hi Hph Hx) as Hf. rewrite Hsv, Hf in Hne. done.
  - intros i l Hi Hv Hca. destruct (set_cancel _ Hs _ _ Hi Hv Hca) as (x & Hx & _). rewrite Hh in Hx. injection Hx as ->.
    destruct Hlive as [?|Hlive]; [done|by destruct (Hlive i l)].
  - intros id Hcl Hx%Hp. destruct Hx as (Hx & Hq & Hne). exfalso.
    destruct (set_pending _ Hs id Hcl Hx) as [?|[Hf|Hdc]]; [done| |].
    + destruct h; try done; [by rewrite Hsv, Hf in Hne|]. destruct Hlive as [?|Hlive]; [done|].
      destruct (set_flight _ Hs _ Hf) as (i & l & Hi & Hbu). by apply (Hlive i l Hi), (busy_live _ id).
    + rewrite Hh in Hdc. injection Hdc as ->. by rewrite Hsv in Hne.
  - by rewrite Hb.
Qed.


(** The lock passes from one stage to the next outside the processing drain. *)
Lemma settled_pass (s s' : State) :
  settled s -> writer s' = writer s \/ (exists t, writer s' = writer (set_processing_task t s) /\ t = None) ->
  inbox s' = inbox s -> _running (lifecycle s') = _running (lifecycle s) ->
  draining (holder (lifecycle s)) = false -> draining (holder (lifecycle s')) = false -> settled s'.
Proof.
  intros Hs Hw Hb Hr Hd Hd'.
  assert (loops (writer s') = loops (writer s) /\
    (_processing_task (writer s') = _processing_task (writer s) \/ _processing_task (writer s') = None)) as [Hl Ht].
  { destruct Hw as [->|(t & -> & ->)]; [by auto|]. split; [done|by right]. }
  assert (Hn : forall x, holder (lifecycle s) <> Some (Drain_cancel x)) by (intros x Hx; by rewrite Hx in Hd).
  destruct Hs. split; unfold clean, unharmed; rewrite ?Hl, ?Hb, ?Hr; eauto.
  - intros i l Hi Hv Hca. destruct (set_cancel0 _ _ Hi Hv Hca) as (x & Hx & _). by destruct (Hn x).
  - intros id Hcl Hp. destruct (set_pending0 id Hcl Hp) as [?|[?|Hx]]; [by auto..|]. by destruct (Hn (Some id)).
  - intros i l Hi. destruct Ht as [Ht|Ht]; rewrite Ht in Hi; [by eauto|done].
  - intros i l x Hx. by rewrite Hx in Hd'.
  - intros i l e x _ Hx. by rewrite Hx in Hd'.
Qed.

(** [Task.cancel] on the loop that the drain awaits. *)
Lemma settled_cancelling (s s' : State) saved :
  control s -> settled s ->
  (holder (lifecycle s) = Some Drain_wait /\ saved = _in_flight (inbox s) \/ holder (lifecycle s) = Some (Drain_cancel saved)) ->
  s' = set_holder (Some (Drain_cancel saved)) (cancel_processing s) -> settled s'.
Proof.
  intros Hc Hs Hh ->. pose proof (ctl_phase _ Hc) as Hph.
  assert (exists i, _processing_task (writer s) = Some i /\ _running (lifecycle s) = false /\ _unrestartable (lifecycle s) = false)
    as (i & Ht & Hr & Hu).
  { destruct Hh as [[Hh _]|Hh]; rewrite Hh in Hph; repeat case_match; by eauto. }
  destruct (lookup_lt_is_Some_2 _ _ (ctl_handle _ Hc i Ht)) as [l Hi].
  assert (Hdr : forall x, holder (lifecycle s) = Some (Drain_cancel x) -> x = saved) by (intros x Hx; destruct Hh as [[Hh _]|Hh]; congruence).
  assert (Hpend : forall id, clean s -> pending (inbox s) id -> id ∈ _queue (inbox s) \/ _in_flight (inbox s) = Some id \/ saved = Some id).
  { intros id Hcl Hp. destruct (set_pending _ Hs id Hcl Hp) as [?|[?|Hx]]; [by auto..|]. right; right. symmetry. by apply Hdr. }
  unfold cancel_processing, cancel_loop. rewrite Ht, Hi. destruct (finished (phase l)) eqn:Hfin.
  - destruct Hs. split; eauto; simpl.
    + intros j lj Hj Hv Hca. exists saved. split; [done|]. destruct (set_cancel0 j lj Hj Hv Hca) as (x & Hx & Hsw).
      by rewrite <-(Hdr x Hx).
    + intros id Hcl Hp. destruct (Hpend id Hcl Hp) as [?|[?| ->]]; auto.
    + intros j lj x [= <-] Hj Hlj Hv. rewrite Ht in Hj. injection Hj as <-. simplify_eq. unfold live in Hv. congruence.
    + intros j lj e x Hcl [= <-] Hj Hlj Hd. destruct Hh as [[Hh Hsv]|Hh]; [|by eapply (set_died0 j lj e)].
      destruct (_in_flight (inbox s)) as [id|] eqn:Hf; [|done]. exfalso.
      destruct (set_flight0 _ eq_refl) as (k & lk & Hk & Hb). destruct (ctl_owner _ Hc k lk Hk (busy_live _ _ Hb)); [|congruence].
      simplify_eq. pose proof (busy_live _ _ Hb). unfold live in *. congruence.
    + done.
  - set (l' := {| phase := phase l; cancel_requested := true; swallowed := swallowed l |}).
    assert (Hlk : forall j lj, <[i := l']> (loops (writer s)) !! j = Some lj -> (j = i /\ lj = l') \/ (loops (writer s) !! j = Some lj /\ j <> i)).
    { intros j lj [(-> & -> & _)|[? ?]]%list_lookup_insert_Some; auto. }
    assert (Hcl' : forall t, clean (set_holder t (set_loop i l' s)) -> clean s).
    { intros t Hcl j lj Hj. destruct (decide (j = i)) as [->|Hn].
      - simplify_eq. apply (Hcl i l'). apply list_lookup_insert_eq. by eapply lookup_lt_Some.
      - apply (Hcl j). simpl. by rewrite list_lookup_insert_ne. }
    split; simpl.
    + intros id (j & lj & Hj & Hb)%(set_flight _ Hs). destruct (decide (j = i)) as [->|Hn].
      * exists i, l'. split; [apply list_lookup_insert_eq; by eapply lookup_lt_Some|]. by simplify_eq.
      * exists j, lj. by rewrite list_lookup_insert_ne.
    + intros j lj id ev [[-> ->]|[Hj _]]%Hlk Hp; by eapply (set_publishing _ Hs).
    + intros j lj id [[-> ->]|[Hj _]]%Hlk Hp; by eapply (set_dispatching _ Hs).
    + intros j lj [[-> ->]|[Hj Hn]]%Hlk Hv Hca; exists saved; (split; [done|]).
      * simpl. intros Hsw. destruct Hh as [[_ ?]|Hh]; [done|].
        destruct (set_asked _ Hs _ _ _ Hh Ht Hi Hfin) as [Hca'|?]; [|congruence].
        destruct (set_cancel _ Hs _ _ Hi Hfin Hca') as (x & Hx & Hx'). rewrite <-(Hdr x Hx). auto.
      * destruct (set_cancel _ Hs _ _ Hj Hv Hca) as (x & Hx & Hx'). by rewrite <-(Hdr x Hx).
    + intros id Hcl%Hcl' Hp. destruct (Hpend id Hcl Hp) as [?|[?| ->]]; auto.
    + intros j lj Hj [[-> ->]|[Hlj _]]%Hlk Hp; [simpl in Hp; by rewrite Hp in Hfin|]. by eapply (set_ended _ Hs).
    + intros j lj x [= <-] Hj [[-> ->]|[Hlj Hn]]%Hlk Hv; [by left|]. congruence.
    + intros j lj e x Hcl [= <-] Hj [[-> ->]|[Hlj Hn]]%Hlk Hp; [simpl in Hp; by rewrite Hp in Hfin|congruence].
    + done.
Qed.

Lemma rolled_back_eq (s s' : State) : rolled_back s = Some s' ->
  exists p o, holder (lifecycle s) = Some (Rolling_back p o) /\
    s' = set_holder None (set_observer_task None (set_processing_task None s)).
Proof.
  unfold rolled_back. intros Hr. destruct (holder (lifecycle s)) as [[]|]; try done.
  match type of Hr with (if ?b then _ else _) = _ => destruct b; [|done] end. injection Hr as <-. by eexists _, _.
Qed.

Lemma drain_observer_pass (s s' : State) : settled s -> holder (lifecycle s) = Some Put_sentinel ->
  s' = drain_observer s \/ s' = drain_observer (push_event None s) -> settled s'.
Proof.
  intros Hs Hh Hd. apply (settled_pass s); try (by destruct Hd as [->| ->]); [by destruct Hd as [->| ->]; left|by rewrite Hh|].
  destruct Hd as [->| ->]; simpl; by destruct (_observer_task (observing s)).
Qed.

Lemma cancel_observing_pass (s s' : State) : settled s -> s' = cancel_observing s -> settled s'.
Proof.
  intros Hs ->. unfold cancel_observing, cancel_observer. repeat case_match; try done. by apply (settled_same s).
Qed.

(** The drain that finds its cancelled loop dead leaves the queue as it is. *)
Lemma settled_abandoned (s : State) saved e :
  control s -> settled s -> holder (lifecycle s) = Some (Drain_cancel saved) -> processing_phase s = Some (Died e) ->
  settled (processing_raised s).
Proof.
  intros Hc Hs Hh Hp. pose proof (none_live s _ Hc ltac:(by rewrite Hh) Hp eq_refl) as Hn.
  assert (exists i l, _processing_task (writer s) = Some i /\ loops (writer s) !! i = Some l /\ phase l = Died e)
    as (i & l & Ht & Hi & Hph).
  { unfold processing_phase in Hp. destruct (_processing_task (writer s)) as [t|]; [|done]. simpl in Hp.
    destruct (loops (writer s) !! t) as [l|] eqn:Hl; [|done]. injection Hp as Hp. by exists t, l. }
  pose proof (set_died _ Hs) as Hdied. destruct Hs. split; try done; simpl.
  - intros j lj Hj Hv. by destruct (Hn j lj).
  - intros id Hcl Hid. destruct (set_pending0 id Hcl Hid) as [?|[Hf|Hx]]; [by auto..|].
    rewrite (Hdied i l e _ Hcl Hx Ht Hi Hph) in *. pose proof (Hdied i l e (Some id) Hcl Hx Ht Hi Hph). done.
  - intros _ _ Hu. by destruct (Hu i l e Hi).
Qed.

Lemma stop_act_settled a (s s' : State) :
  internal_act config message_bus a s = Some s' -> control s -> settled s -> settled s'.
Proof.
  intros Hact Hc Hs. pose proof (loop_act_settled _ _ _ Hact Hc Hs) as Hm.
  destruct a; try exact Hm; clear Hm; simpl in Hact;
    first [apply rolled_back_eq in Hact as (p & o & Hh & ->)|stop_cases Hact].
  all: try match goal with Hd : holder (lifecycle ?s) = Some _ |- _ => by (apply (settled_pass s); rewrite ?Hd; auto) end.
  - destruct Hs as [? ? ? ? ? He ? ? ?]. split; try done; simpl.
    + intros i l Hi Hv. by destruct (none_live s _ Hc ltac:(by rewrite H0) H1 eq_refl i l).
    + intros id Hcl Hp. destruct (set_pending0 id Hcl Hp) as [?|[?|?]]; [by auto..|congruence].
    + intros _ _ _. unfold processing_phase in H1. destruct (_processing_task (writer s)) as [t|] eqn:Ht; [|done]. simpl in H1.
      destruct (loops (writer s) !! t) as [l|] eqn:Hl; [|done]. injection H1 as H1. split; [by apply (He t l)|].
      destruct (_in_flight (inbox s)) as [id|] eqn:Hf; [|done]. destruct (set_flight0 _ eq_refl) as (k & lk & Hk & Hb).
      destruct (none_live s Ended Hc) with k lk; [by rewrite H0|unfold processing_phase; rewrite Ht; simpl; rewrite Hl; simpl; by rewrite H1|done|done|by eapply busy_live].
  - by eapply (settled_flush s _ _ Drain_wait Hc Hs H0); try done; left.
  - by eapply (settled_flush s _ _ Drain_wait Hc Hs H0); try done; left.
  - eapply (settled_cancelling s); [done|done| |reflexivity]. by left.
  - eapply (settled_flush s _ _ (Drain_cancel _) Hc Hs H0); try done. right. by eapply none_live; rewrite ?H0.
  - eapply (settled_flush s _ _ (Drain_cancel _) Hc Hs H0); try done. right. by eapply none_live; rewrite ?H0.
  - by eapply settled_abandoned.
  - eapply drain_observer_pass; eauto.
  - eapply drain_observer_pass; eauto.
  - apply (settled_pass (cancel_observing s)); [by eapply cancel_observing_pass| | | |..]; try done.
    + by left.
    + unfold cancel_observing, cancel_observer. by repeat case_match; rewrite ?H0; simpl; rewrite ?H0.
  - apply (settled_pass s); try done; [right; by exists None|by rewrite Hh].
Qed.

(** What a loop is busy with was admitted. *)
Definition bounded (s : State) : Prop :=
  forall i l id, loops (writer s) !! i = Some l -> busy l = Some id -> id < length (envelopes (inbox s)).

Lemma bounded_same (s s' : State) :
  bounded s -> length (envelopes (inbox s)) <= length (envelopes (inbox s')) ->
  (forall i l id, loops (writer s') !! i = Some l -> busy l = Some id ->
     id < length (envelopes (inbox s)) \/ exists j l0, loops (writer s) !! j = Some l0 /\ busy l0 = Some id) -> bounded s'.
Proof.
  intros Hs Hn Hl i l id Hi Hb. destruct (Hl i l id Hi Hb) as [?|(j & l0 & Hj & Hb0)]; [lia|].
  specialize (Hs j l0 id Hj Hb0). lia.
Qed.

Lemma cancel_loop_busy j (s : State) i l id :
  loops (writer (cancel_loop j s)) !! i = Some l -> busy l = Some id ->
  exists k l0, loops (writer s) !! k = Some l0 /\ busy l0 = Some id.
Proof.
  unfold cancel_loop. destruct (loops (writer s) !! j) as [lj|] eqn:Hj; [|by eauto]. destruct (finished _); [by eauto|].
  simpl. intros [(-> & <- & _)|[_ Hi]]%list_lookup_insert_Some Hb; [by exists i, lj|by eauto].
Qed.

Lemma act_bounded a (s s' : State) :
  act config message_bus a s = Some s' -> control s -> ordered s -> bounded s -> bounded s'.
Proof.
  intros Hact Hc Ho Hs.
  assert (Hlen : length (envelopes (inbox s)) <= length (envelopes (inbox s'))).
  { destruct a as [a|a]; simpl in Hact.
    - destruct (external_pipeline _ _ _ _ Hact Hc) as [[_ ->]|(m & _ & _ & ->)]; [done|]. rewrite length_app. lia.
    - destruct (stop_act_pipeline _ _ _ _ _ Hact Hc) as [_ ->]. done. }
  apply (bounded_same s); [done|done|]. intros i l id Hi Hb. destruct a as [a|a]; simpl in Hact.
  - right. destruct a; simpl in Hact; unfold attempt in Hact.
    5: { unfold start, may_start, rbind in Hact. act_cases Hact; try by eauto.
      simpl in Hi. apply lookup_app_Some in Hi as [?|[_ Hi]]; [by eauto|]. by apply list_lookup_singleton_Some in Hi as [_ <-]. }
    5: { destruct (unlocked s); [|done]. injection Hact as <-. unfold start_fails, may_start, rbind in Hi.
      destruct (_unrestartable (lifecycle s)), (_running (lifecycle s)); simpl in Hi; try by eauto.
      set (p := if created =? 0 then _ else None) in *. set (o := if created <? 2 then _ else None) in *.
      assert (loops (writer (match p with Some i => cancel_loop i s | None => s end)) !! i = Some l) as Hi'.
      { unfold cancel_observer in Hi. by repeat case_match. }
      destruct p; [by eapply cancel_loop_busy|by eauto]. }
    6: { unfold stop_interrupted, cancel_processing in Hact. act_cases Hact; try by eauto.
      - by eapply cancel_loop_busy.
      - unfold cancel_observing, cancel_observer in Hi. repeat case_match; by eauto. }
    all: unfold submit, set_max_queue_size, stop in Hact; act_cases Hact; by eauto.
  - destruct a; simpl in Hact; first [apply rolled_back_eq in Hact as (p & o & Hh & ->)|stop_cases Hact; try loop_cases Hact].
    all: try (right; by eauto).
    all: try (apply list_lookup_insert_Some in Hi as [(-> & <- & _)|[_ Hi]]; [|right; by eauto];
      first [done|right; eexists _, _; split; [eassumption|exact Hb]|injection Hb as <-; left;
        apply (proj1 (Forall_forall _ _) (ord_admitted _ Ho)); unfold pipeline; rewrite H1; set_solver]).
    + right. unfold cancel_processing in Hi. case_match; [by eapply cancel_loop_busy|by eauto].
    + right. unfold cancel_observing, cancel_observer in Hi. repeat case_match; by eauto.
Qed.

Lemma settled_submit (s : State) m :
  control s -> ordered s -> bounded s -> settled s -> _running (lifecycle s) = true ->
  settled (with_inbox {| _queue := _queue (inbox s) ++ [length (envelopes (inbox s))];
    envelopes := envelopes (inbox s) ++ [{| mutation := m; future := Pending |}]; _in_flight := _in_flight (inbox s) |} s).
Proof.
  intros Hc Ho Hb Hs Hr.
  assert (Hp : forall id, future <$> (envelopes (inbox s) ++ [{| mutation := m; future := Pending |}]) !! id = Some Pending ->
    pending (inbox s) id \/ id = length (envelopes (inbox s))).
  { intros id Hid. destruct (decide (id < length (envelopes (inbox s)))) as [Hlt|Hge].
    - left. by rewrite lookup_app_l in Hid.
    - right. rewrite lookup_app_r in Hid by lia. by destruct (id - length (envelopes (inbox s))) eqn:E; [lia|]. }
  destruct Hs as [Hfl Hpu Hdi Hca Hpe Hen Has Hdd Hst]. split; simpl; rewrite ?Hr; try done.
  - intros i l id ev Hi Hph [Hid|Hid]%Hp; [by eapply Hpu|].
    specialize (Hb i l id Hi). unfold busy in Hb. rewrite Hph in Hb. specialize (Hb eq_refl). lia.
  - intros i l id Hi Hph [Hid|Hid]%Hp; [by eapply Hdi|].
    specialize (Hb i l id Hi). unfold busy in Hb. rewrite Hph in Hb. specialize (Hb eq_refl). lia.
  - intros id Hcl [Hid| ->]%Hp; [destruct (Hpe id Hcl Hid) as [?|[?|?]]; [left; set_solver|by auto..]|left; set_solver].
  - intros i l Hi Hl Hph. destruct (Hen i l Hi Hl Hph). congruence.
Qed.

(** A new loop, when none is live. *)
Lemma settled_start (s : State) :
  control s -> settled s -> _running (lifecycle s) = false -> _unrestartable (lifecycle s) = false ->
  holder (lifecycle s) = None -> _processing_task (writer s) = None ->
  settled (set_running true (spawn_observer (spawn_processing s))).
Proof.
  intros Hc Hs Hr Hu Hh Ht.
  assert (Hd : forall i l, loops (writer s) !! i = Some l -> ~ live l).
  { intros i l Hi Hv. destruct (ctl_owner _ Hc i l Hi Hv); congruence. }
  assert (Hf : _in_flight (inbox s) = None).
  { destruct (_in_flight (inbox s)) as [x|] eqn:Hx; [|done]. destruct (set_flight _ Hs _ Hx) as (i & l & Hi & Hb).
    destruct (Hd i l Hi). by eapply busy_live. }
  assert (Hl : forall i l, (loops (writer s) ++ [fresh_loop Polling]) !! i = Some l ->
    loops (writer s) !! i = Some l \/ l = fresh_loop Polling).
  { intros i l [?|[_ Hi]]%lookup_app_Some; [by left|right]. by apply list_lookup_singleton_Some in Hi as [_ <-]. }
  destruct Hs as [Hfl Hpu Hdi Hca Hpe Hen Has Hdd Hst]. split; simpl; rewrite ?Hf, ?Hh; try done.
  - intros i l id ev [Hi| ->]%Hl Hph; [by eapply Hpu|done].
  - intros i l id [Hi| ->]%Hl Hph Hp; [|done]. rewrite <-Hf. by eapply Hdi.
  - intros i l [Hi| ->]%Hl Hv; [by destruct (Hd i l)|done].
  - intros id Hcl Hp. destruct (Hpe id) as [?|[?|?]]; [|done|by left|congruence|congruence].
    intros i l Hi. apply (Hcl i l). simpl. by apply lookup_app_l_Some.
  - intros i l [= <-] Hi Hph. rewrite lookup_app_r, Nat.sub_diag in Hi by lia. simpl in Hi. by injection Hi as <-.
Qed.

Lemma set_holder_id (s : State) h : holder (lifecycle s) = h -> set_holder h s = s.
Proof. intros <-. by destruct s as [? ? ? []]. Qed.

Lemma external_settled a (s s' : State) :
  external config a s = Some s' -> control s -> ordered s -> bounded s -> settled s -> settled s'.
Proof.
  intros Hact Hc Ho Hb Hs. pose proof (ctl_phase _ Hc) as Hph. destruct a; simpl in Hact; unfold attempt in Hact.
  - unfold submit in Hact. act_cases Hact; try done. by apply settled_submit.
  - injection Hact as <-. apply (settled_same s); try done. intros j Hj. exact (proj1 (pending_answer _ _ (inbox s) _ Hj)).
  - unfold set_max_queue_size in Hact. act_cases Hact; by apply (settled_same s).
  - injection Hact as <-. by apply (settled_same s).
  - unfold start, may_start, rbind, unlocked in Hact. act_cases Hact; try done.
    by apply settled_start.
  - unfold unlocked in Hact. case_bool_decide as Hl; [|done]. injection Hact as <-. unfold start_fails, may_start, rbind.
    destruct (_unrestartable (lifecycle s)) eqn:Hu, (_running (lifecycle s)) eqn:Hr; try done.
    rewrite Hl in Hph. destruct (_processing_task (writer s)) as [t|] eqn:Ht; [done|]. simpl.
    replace (if created =? 0 then None else None) with (@None nat) by by destruct (created =? 0).
    set (o := if created <? 2 then _ else None). destruct o as [j|]; simpl.
    + assert (Hj : settled (cancel_observer j s) /\ holder (lifecycle (cancel_observer j s)) = None).
      { unfold cancel_observer. repeat case_match; try done. split; [by apply (settled_same s)|done]. }
      destruct Hj as [Hj Hh].
      apply (settled_pass (cancel_observer j s)); try done; [by left|by rewrite Hh].
    + apply (settled_pass s); try done; [by left|by rewrite Hl].
  - destruct (unlocked s || _); [|done]. unfold stop in Hact. destruct (timeout_ok timeout); [|by injection Hact as <-].
    destruct (_running (lifecycle s)) eqn:Hr; injection Hact as <-; [|done].
    destruct (_unrestartable (lifecycle s)); [done|]. destruct (holder (lifecycle s)) eqn:Hl; [done|].
    destruct (_processing_task (writer s)) eqn:Ht; [|done]. destruct Hs as [Hfl Hpu Hdi Hca Hpe Hen Has Hdd Hst].
    split; try done; simpl.
    + intros i l Hi Hv Hx. destruct (Hca i l Hi Hv Hx) as (x & Hx' & _). congruence.
    + intros id Hcl Hid. destruct (Hpe id Hcl Hid) as [?|[?|?]]; [by auto..|congruence].
    + intros i l Hi Hl' Hp. destruct (Hen i l Hi Hl' Hp). congruence.
  - unfold stop_interrupted in Hact. destruct (holder (lifecycle s)) as [[]|] eqn:Hh; try done.
    + injection Hact as <-. by eapply (settled_flush s _ _ Drain_wait Hc Hs Hh); try done; left.
    + injection Hact as <-. eapply (settled_cancelling s); [done|done|by right|]. symmetry.
      apply set_holder_id. unfold cancel_processing, cancel_loop. by repeat case_match.
    + destruct (observer_queue_full config s); [|done]. injection Hact as <-. apply (settled_pass s); try done; [by left|by rewrite Hh].
    + injection Hact as <-. apply (settled_pass s); try done; [by left|by rewrite Hh].
    + injection Hact as <-. by eapply cancel_observing_pass.
Qed.

Record sound (e : Engine R) (s : State) : Prop := {
  sound_control : control s;
  sound_ordered : ordered s;
  sound_honest : state_honest e s;
  sound_bounded : bounded s;
  sound_settled : settled s;
}.

Lemma sound_init e : sound e (__init__ config e).
Proof.
  split.
  - apply control_init.
  - split; constructor.
  - split; [constructor|constructor|]. by intros id x r Hx.
  - by intros i l id Hi.
  - by split.
Qed.

Lemma act_sound e a (s s' : State) : act config message_bus a s = Some s' -> sound e s -> sound e s'.
Proof.
  intros Hact [Hc Ho Hh Hb Hs]. split; [by eapply act_control|by eapply act_ordered|by eapply act_honest|by eapply act_bounded|].
  destruct a as [a|a]; [by eapply external_settled|by eapply stop_act_settled].
Qed.

Lemma reachable_sound e (s : State) : reachable config message_bus e s -> sound e s.
Proof.
  intros Hr. assert (Hall : forall s0, rtc (step config message_bus) s0 s -> sound e s0 -> sound e s).
  { induction 1 as [|s0 s1 s2 [a Ha] _ IH]; [done|]. intros Hs. by eapply IH, act_sound. }
  eapply Hall; [exact Hr|apply sound_init].
Qed.

End Queue.
