(* ===== verification/EngineQueueEvents.v ===== *)
(** * EngineQueueEvents

    What observers hear: every event on its way to them tells of a turn of the
    log that succeeded. *)

From stdpp Require Import gmap strings list sorting relations.
From Stdlib Require Import ZArith QArith Lia.
From S2P Require Import Prelude StateMachine PlanTransitions TaskEnums TaskTransitions PlanUnits TaskModel TaskEngine EngineQueue EngineQueueProofs EngineQueueDrain.
From S2P Require TaskEngineProofs.
From S2P Require SecurityModel.
Import TaskStatus.
Import SecurityModel (Raised, Ordinary, Critical, Critical_group).
#[local] Open Scope nat_scope.

Section Queue.
Context {obj : Type} `{Runtime obj} {R : Type} `{!TaskRepository (obj:=obj) R}.
Context (config : TaskEngineConfig) (message_bus : bool).
#[local] Notation State := (EngineQueue.State (obj:=obj) (R:=R)).
#[local] Notation Event := (TaskStateChanged (obj:=obj)).
#[local] Notation act := (act config message_bus).
#[local] Notation internal_act := (internal_act config message_bus).

(** ** Events *)

(** [ev] tells of a turn of the log that succeeded. *)
Definition applied (e0 : Engine R) (s : State) (ev : Event) : Prop :=
  exists ts1 id env ts2 e m now, turns (writer s) = ts1 ++ (id, Whole env) :: ts2 /\
    performed (bodies (envelopes (inbox s))) e0 ts1 e /\ bodies (envelopes (inbox s)) !! id = Some m /\
    success (_process_one env m e).2 = true /\ ev = build_state_changed_event now m (_process_one env m e).2.

(** [ev] is on its way to the observers, or has reached one. *)
Definition carries (s : State) (ev : Event) : Prop :=
  (exists i l id, loops (writer s) !! i = Some l /\ phase l = Publishing id ev) \/
  Some ev ∈ _observer_queue (observing s) \/
  (exists j l k, observer_loops (observing s) !! j = Some l /\ obs_phase l = Notifying ev k) \/
  ev ∈ (notified (observing s)).*2.

Definition extends (s s' : State) : Prop :=
  (exists ts, turns (writer s') = turns (writer s) ++ ts) /\
  (forall id m, bodies (envelopes (inbox s)) !! id = Some m -> bodies (envelopes (inbox s')) !! id = Some m).

Lemma applied_extends e0 (s s' : State) ev : extends s s' -> applied e0 s ev -> applied e0 s' ev.
Proof.
  intros [[ts Ht] Hb] (ts1 & id & env & ts2 & e & m & now & Hts & Hp & Hm & Hok & Hev).
  exists ts1, id, env, (ts2 ++ ts), e, m, now. rewrite Ht, Hts, <-app_assoc. split_and!; auto. by eapply performed_prefix.
Qed.

Lemma extends_same (s s' : State) :
  turns (writer s') = turns (writer s) -> bodies (envelopes (inbox s')) = bodies (envelopes (inbox s)) -> extends s s'.
Proof. intros Ht Hb. split; [exists []; by rewrite app_nil_r|by rewrite Hb]. Qed.

Lemma extends_turn (s s' : State) t :
  turns (writer s') = turns (writer s) ++ [t] -> bodies (envelopes (inbox s')) = bodies (envelopes (inbox s)) -> extends s s'.
Proof. intros Ht Hb. split; [by exists [t]|by rewrite Hb]. Qed.

Lemma bodies_flush saved (b : Inbox (obj:=obj)) : bodies (envelopes (_fail_remaining_futures saved b)) = bodies (envelopes b).
Proof.
  simpl. assert (Hq : forall q (l : list (_MutationEnvelope (obj:=obj))), bodies (foldl (fun l id => shut_down id l) l q) = bodies l).
  { induction q as [|id q IH]; intros l; simpl; [done|]. rewrite IH. apply bodies_resolve. }
  rewrite Hq. unfold shut_down. repeat case_match; by rewrite ?bodies_resolve.
Qed.

Lemma act_extends a (s s' : State) : act a s = Some s' -> extends s s'.
Proof.
  intros Hact. destruct a as [a|a]; simpl in Hact.
  - destruct a; simpl in Hact; unfold attempt in Hact.
    + unfold submit in Hact. act_cases Hact; try (by apply extends_same). split; [exists []; simpl; by rewrite app_nil_r|].
      intros id m' Hm. simpl. unfold bodies in *. rewrite fmap_app. by apply lookup_app_l_Some.
    + injection Hact as <-. apply extends_same; [done|apply bodies_resolve].
    + unfold set_max_queue_size in Hact. act_cases Hact; by apply extends_same.
    + injection Hact as <-. by apply extends_same.
    + unfold start, may_start, rbind in Hact. act_cases Hact; by apply extends_same.
    + unfold start_fails, may_start, rbind, cancel_loop, cancel_observer in Hact. act_cases Hact; by apply extends_same.
    + unfold stop in Hact. act_cases Hact; by apply extends_same.
    + unfold stop_interrupted, cancel_processing, cancel_loop, cancel_observing, cancel_observer in Hact.
      act_cases Hact; try (by apply extends_same). apply extends_same; [done|apply bodies_flush].
  - destruct a; simpl in Hact; first [apply rolled_back_eq in Hact as (p & o & Hh & ->)|stop_cases Hact; try loop_cases Hact].
    all: try (by apply extends_same).
    all: try (apply extends_same; [done|first [apply bodies_flush|simpl; by rewrite ?bodies_resolve]]).
    all: try (eapply extends_turn; [reflexivity|simpl; by rewrite ?bodies_resolve]).
    + apply extends_same; unfold cancel_processing, cancel_loop; by repeat case_match.
    + apply extends_same; unfold cancel_observing, cancel_observer; by repeat case_match.
Qed.

Definition events_ok (e0 : Engine R) (s : State) : Prop :=
  (forall ev, carries s ev -> applied e0 s ev) /\ (forall o ev, (o, ev) ∈ notified (observing s) -> o ∈ _observers (observing s)).

Lemma events_kept e0 (s s' : State) :
  events_ok e0 s -> extends s s' -> (forall ev, carries s' ev -> carries s ev \/ applied e0 s' ev) ->
  (forall o ev, (o, ev) ∈ notified (observing s') -> (o, ev) ∈ notified (observing s) \/ o ∈ _observers (observing s)) ->
  (forall o, o ∈ _observers (observing s) -> o ∈ _observers (observing s')) -> events_ok e0 s'.
Proof.
  intros [Hev Ho] Hx Hc Hn Hobs. split.
  - intros ev [Hs|?]%Hc; [|done]. by eapply applied_extends, Hev.
  - intros o ev [Hs|?]%Hn; eauto.
Qed.

(** Where an event of the next state can come from. *)
Lemma carries_same (s s' : State) ev :
  (forall i l, loops (writer s') !! i = Some l -> (exists j l0, loops (writer s) !! j = Some l0 /\ phase l0 = phase l) \/
     forall id e, phase l <> Publishing id e) ->
  _observer_queue (observing s') = _observer_queue (observing s) \/ _observer_queue (observing s') = _observer_queue (observing s) ++ [None] ->
  (forall j l, observer_loops (observing s') !! j = Some l ->
     (exists k l0, observer_loops (observing s) !! k = Some l0 /\ obs_phase l0 = obs_phase l) \/
     forall e k, obs_phase l <> Notifying e k) ->
  notified (observing s') = notified (observing s) -> carries s' ev -> carries s ev.
Proof.
  intros Hl Hq Ho Hn [(i & l & id & Hi & Hp)|[Hin|[(j & l & k & Hj & Hp)|Hin]]].
  - left. destruct (Hl i l Hi) as [(j & l0 & Hj & Hp0)|Hno]; [exists j, l0, id; by rewrite Hp0|by destruct (Hno id ev)].
  - right; left. destruct Hq as [Hq|Hq]; rewrite Hq in Hin; [done|]. set_solver.
  - right; right; left. destruct (Ho j l Hj) as [(k' & l0 & Hk & Hp0)|Hno]; [exists k', l0, k; by rewrite Hp0|by destruct (Hno ev k)].
  - right; right; right. by rewrite <-Hn.
Qed.

(** Moves of the processing loop, the drains and the users. *)
Lemma events_quiet e0 (s s' : State) :
  events_ok e0 s -> extends s s' ->
  (forall i l, loops (writer s') !! i = Some l -> (exists j l0, loops (writer s) !! j = Some l0 /\ phase l0 = phase l) \/
     forall id e, phase l <> Publishing id e) ->
  _observer_queue (observing s') = _observer_queue (observing s) \/ _observer_queue (observing s') = _observer_queue (observing s) ++ [None] ->
  (forall j l, observer_loops (observing s') !! j = Some l ->
     (exists k l0, observer_loops (observing s) !! k = Some l0 /\ obs_phase l0 = obs_phase l) \/
     forall e k, obs_phase l <> Notifying e k) ->
  notified (observing s') = notified (observing s) ->
  (forall o, o ∈ _observers (observing s) -> o ∈ _observers (observing s')) -> events_ok e0 s'.
Proof.
  intros Hs Hx Hl Hq Ho Hn Hobs. apply (events_kept _ s); try done.
  - intros ev Hc. left. by eapply carries_same.
  - intros o ev. rewrite Hn. by left.
Qed.

Lemma quiet_loop (s : State) i l l' :
  loops (writer s) !! i = Some l -> (phase l' = phase l \/ forall id e, phase l' <> Publishing id e) ->
  forall j lj, <[i := l']> (loops (writer s)) !! j = Some lj ->
    (exists k l0, loops (writer s) !! k = Some l0 /\ phase l0 = phase lj) \/ forall id e, phase lj <> Publishing id e.
Proof. intros Hi Hp j lj [(-> & <- & _)|[_ Hj]]%list_lookup_insert_Some; [destruct Hp as [Hp|]; [left; by exists j, l|by right]|by eauto]. Qed.

Lemma quiet_observer (s : State) j l l' :
  observer_loops (observing s) !! j = Some l -> (obs_phase l' = obs_phase l \/ forall e k, obs_phase l' <> Notifying e k) ->
  forall i li, <[j := l']> (observer_loops (observing s)) !! i = Some li ->
    (exists k l0, observer_loops (observing s) !! k = Some l0 /\ obs_phase l0 = obs_phase li) \/
    forall e k, obs_phase li <> Notifying e k.
Proof. intros Hi Hp i li [(-> & <- & _)|[_ Hj]]%list_lookup_insert_Some; [destruct Hp as [Hp|]; [left; by exists i, l|by right]|by eauto]. Qed.

Lemma quiet_cancel_loop i (s : State) : forall j lj, loops (writer (cancel_loop i s)) !! j = Some lj ->
    (exists k l0, loops (writer s) !! k = Some l0 /\ phase l0 = phase lj) \/ forall id e, phase lj <> Publishing id e.
Proof.
  unfold cancel_loop. destruct (loops (writer s) !! i) as [l|] eqn:Hl; [|by eauto]. destruct (finished _); [by eauto|].
  eapply quiet_loop; [done|by left].
Qed.

Lemma quiet_cancel_observer i (s : State) : forall j lj, observer_loops (observing (cancel_observer i s)) !! j = Some lj ->
    (exists k l0, observer_loops (observing s) !! k = Some l0 /\ obs_phase l0 = obs_phase lj) \/ forall e k, obs_phase lj <> Notifying e k.
Proof.
  unfold cancel_observer. destruct (observer_loops (observing s) !! i) as [l|] eqn:Hl; [|by eauto].
  destruct (obs_finished _); [by eauto|]. eapply quiet_observer; [done|by left].
Qed.

Lemma events_cancel_observing e0 (s : State) :
  events_ok e0 s -> extends s (cancel_observing s) -> events_ok e0 (cancel_observing s).
Proof.
  intros Hs Hx. unfold cancel_observing in *. case_match; [|done]. apply (events_quiet _ s); try done.
  - unfold cancel_observer. repeat case_match; by eauto.
  - left. unfold cancel_observer. by repeat case_match.
  - apply quiet_cancel_observer.
  - unfold cancel_observer. by repeat case_match.
  - unfold cancel_observer. by repeat case_match.
Qed.

Lemma external_events e0 a (s s' : State) : external config a s = Some s' -> events_ok e0 s -> events_ok e0 s'.
Proof.
  intros Hact Hs. pose proof (act_extends (inl a) _ _ Hact) as Hx. destruct a; simpl in Hact; unfold attempt in Hact.
  - unfold submit in Hact. act_cases Hact; try done; apply (events_quiet _ s); simpl; eauto.
  - injection Hact as <-. apply (events_quiet _ s); simpl; eauto.
  - unfold set_max_queue_size in Hact. act_cases Hact; apply (events_quiet _ s); simpl; eauto.
  - injection Hact as <-. apply (events_quiet _ s); simpl; eauto. set_solver.
  - unfold start, may_start, rbind in Hact. act_cases Hact; try done. apply (events_quiet _ s); simpl; eauto.
    + intros i l [Hi|[_ Hi]]%lookup_app_Some; [by eauto|]. apply list_lookup_singleton_Some in Hi as [_ <-]. by right.
    + intros i l [Hi|[_ Hi]]%lookup_app_Some; [by eauto|]. apply list_lookup_singleton_Some in Hi as [_ <-]. by right.
  - destruct (unlocked s); [|done]. injection Hact as <-. unfold start_fails, may_start, rbind in *.
    destruct (_unrestartable (lifecycle s)), (_running (lifecycle s)); try done. simpl in *.
    set (p := if created =? 0 then _ else None) in *. set (o := if created <? 2 then _ else None) in *.
    set (s1 := match p with Some i => cancel_loop i s | None => s end) in *.
    assert (H1 : observing s1 = observing s) by (unfold s1, cancel_loop; by repeat case_match).
    assert (H2 : forall t : State, writer (match o with Some j => cancel_observer j t | None => t end) = writer t)
      by (intros t; unfold cancel_observer; by repeat case_match).
    apply (events_quiet _ s); simpl; try done.
    + rewrite H2. unfold s1. destruct p; [apply quiet_cancel_loop|by eauto].
    + left. unfold cancel_observer. repeat case_match; simpl; by rewrite ?H1.
    + destruct o as [j|]; [|rewrite H1; by eauto]. intros k l Hk. apply quiet_cancel_observer in Hk. by rewrite H1 in Hk.
    + unfold cancel_observer. repeat case_match; simpl; by rewrite ?H1.
    + unfold cancel_observer. repeat case_match; simpl; by rewrite ?H1.
  - unfold stop in Hact. act_cases Hact; apply (events_quiet _ s); simpl; eauto.
  - unfold stop_interrupted in Hact. destruct (holder (lifecycle s)) as [[]|]; try done.
    + injection Hact as <-. apply (events_quiet _ s); simpl; eauto.
    + injection Hact as <-. unfold cancel_processing in *. case_match; [|done]. apply (events_quiet _ s); try done.
      * apply quiet_cancel_loop.
      * left. unfold cancel_loop. by repeat case_match.
      * unfold cancel_loop. repeat case_match; by eauto.
      * unfold cancel_loop. by repeat case_match.
      * unfold cancel_loop. by repeat case_match.
    + destruct (observer_queue_full config s); [|done]. injection Hact as <-. apply (events_quiet _ s); simpl; eauto.
    + injection Hact as <-. apply (events_quiet _ s); simpl; eauto.
    + injection Hact as <-. by apply events_cancel_observing.
Qed.

(** The event of a turn just taken. *)
Lemma applied_new e0 (s s' : State) id env x now :
  state_honest e0 s -> envelopes (inbox s) !! id = Some x ->
  turns (writer s') = turns (writer s) ++ [(id, Whole env)] ->
  bodies (envelopes (inbox s')) = bodies (envelopes (inbox s)) ->
  success (_process_one env (mutation x) (engine (writer s))).2 = true ->
  applied e0 s' (build_state_changed_event now (mutation x) (_process_one env (mutation x) (engine (writer s))).2).
Proof.
  intros [_ Hp _] Hx Ht Hb Hok. exists (turns (writer s)), id, env, [], (engine (writer s)), (mutation x), now.
  rewrite Ht, Hb. split_and!; try done. unfold bodies. by rewrite list_lookup_fmap, Hx.
Qed.

(** One event comes in, by the loop's phase or by the queue. *)
Lemma events_with e0 (s s' : State) new :
  events_ok e0 s -> extends s s' ->
  (forall i l, loops (writer s') !! i = Some l -> (exists j l0, loops (writer s) !! j = Some l0 /\ phase l0 = phase l) \/
     forall id e, phase l = Publishing id e -> e = new) ->
  _observer_queue (observing s') = _observer_queue (observing s) \/
    _observer_queue (observing s') = _observer_queue (observing s) ++ [Some new] ->
  observer_loops (observing s') = observer_loops (observing s) -> notified (observing s') = notified (observing s) ->
  _observers (observing s') = _observers (observing s) -> carries s new \/ applied e0 s' new -> events_ok e0 s'.
Proof.
  intros Hs Hx Hl Hq Ho Hn Hobs Hnew. apply (events_kept _ s); try done; [|intros o ev; rewrite Hn; by left|intros o; by rewrite Hobs].
  assert (Hc : forall ev, carries s' ev -> carries s ev \/ ev = new).
  { intros ev [(i & l & id & Hi & Hp)|[Hin|[(j & l & k & Hj & Hp)|Hin]]].
    - destruct (Hl i l Hi) as [(j & l0 & Hj & Hp0)|Hno]; [left; left; exists j, l0, id; by rewrite Hp0|right; by eapply Hno].
    - destruct Hq as [Hq|Hq]; rewrite Hq in Hin; [by left; right; left|].
      apply elem_of_app in Hin as [Hin|Hin]; [by left; right; left|right]. apply list_elem_of_singleton in Hin. congruence.
    - left; right; right; left. rewrite Ho in Hj. by exists j, l, k.
    - left; right; right; right. by rewrite <-Hn. }
  intros ev [?| ->]%Hc; [by left|done].
Qed.

Lemma quiet_loop_with (s : State) i l l' new :
  loops (writer s) !! i = Some l -> (forall id e, phase l' = Publishing id e -> e = new) ->
  forall j lj, <[i := l']> (loops (writer s)) !! j = Some lj ->
    (exists k l0, loops (writer s) !! k = Some l0 /\ phase l0 = phase lj) \/ forall id e, phase lj = Publishing id e -> e = new.
Proof. intros Hi Hp j lj [(-> & <- & _)|[_ Hj]]%list_lookup_insert_Some; [by right|by eauto]. Qed.

Lemma loop_events e0 a (s s' : State) :
  internal_act a s = Some s' -> state_honest e0 s -> events_ok e0 s ->
  match a with
  | Loop_get _ | Loop_exit _ | Loop_raises _ _ _ _ _ | Loop_cut _ _ _ _ | Loop_cancel _ | Loop_swallow _
  | Loop_dispatch _ _ _ | Loop_published _ _ => events_ok e0 s'
  | _ => True
  end.
Proof.
  intros Hact Hh Hs. pose proof (act_extends (inr a) _ _ Hact) as Hx. destruct a; try exact I; simpl in Hact; loop_cases Hact.
  all: try (apply (events_quiet _ s); simpl; eauto; eapply quiet_loop; [eassumption|by first [left; reflexivity|right]]).
  - apply (events_with _ s _ (build_state_changed_event now (mutation H1) (_process_one env (mutation H1) (engine (writer s))).2));
      try done; [by apply quiet_loop_with with (1 := H0); intros ? ? [= _ <-]|by left|].
    right. apply andb_prop in H3 as [H3 _]. eapply (applied_new _ s); try done. simpl. by rewrite bodies_resolve.
  - apply (events_with _ s _ (build_state_changed_event now (mutation H1) (_process_one env (mutation H1) (engine (writer s))).2));
      try done; [by apply quiet_loop_with with (1 := H0)|by right|].
    right. apply andb_prop in H3 as [H3 _]. eapply (applied_new _ s); try done. simpl. by rewrite bodies_resolve.
  - apply (events_with _ s _ ev); try done; [by apply quiet_loop_with with (1 := H0)|by right|].
    left. left. by eexists _, _, _.
Qed.

(** An observer loop moves. *)
Lemma events_observer e0 (s s' : State) j l' :
  events_ok e0 s -> extends s s' -> loops (writer s') = loops (writer s) ->
  (forall x, x ∈ _observer_queue (observing s') -> x ∈ _observer_queue (observing s)) ->
  observer_loops (observing s') = <[j := l']> (observer_loops (observing s)) ->
  _observers (observing s') = _observers (observing s) ->
  (forall e k, obs_phase l' = Notifying e k -> carries s e) ->
  (forall o e, (o, e) ∈ notified (observing s') -> (o, e) ∈ notified (observing s) \/ (o ∈ _observers (observing s) /\ carries s e)) ->
  events_ok e0 s'.
Proof.
  intros Hs Hx Hl Hq Ho Hobs Hp Hn. apply (events_kept _ s); [done|done| | |intros o; by rewrite Hobs].
  - intros ev [(i & l & id & Hi & Hph)|[Hin|[(i & l & k & Hi & Hph)|Hin]]].
    + left; left. rewrite Hl in Hi. by exists i, l, id.
    + left; right; left. by apply Hq.
    + rewrite Ho in Hi. apply list_lookup_insert_Some in Hi as [(-> & <- & _)|[_ Hi]]; [left; by eapply Hp|].
      left; right; right; left. by exists i, l, k.
    + left. apply list_elem_of_fmap in Hin as ([o e] & -> & Hin). destruct (Hn o e Hin) as [Hold|[_ Hc]]; [|done].
      right; right; right. by apply (list_elem_of_fmap_2 snd).
  - intros o e Hin. destruct (Hn o e Hin) as [?|[? _]]; auto.
Qed.

Lemma internal_events e0 a (s s' : State) :
  internal_act a s = Some s' -> state_honest e0 s -> events_ok e0 s -> events_ok e0 s'.
Proof.
  intros Hact Hh Hs. pose proof (act_extends (inr a) _ _ Hact) as Hx. pose proof (loop_events _ _ _ _ Hact Hh Hs) as Hl.
  destruct a; try exact Hl; clear Hl; simpl in Hact;
    first [apply rolled_back_eq in Hact as (p & o & Hr & ->)|stop_cases Hact; try loop_cases Hact].
  all: try (apply (events_quiet _ s); simpl; eauto; eapply quiet_observer; [eassumption|by first [left; reflexivity|right]]).
  - eapply (events_observer _ s); [done|done|done| |reflexivity|done| |by left].
    + intros x Hxi. rewrite H1. by right.
    + intros e k Hp. unfold next_observer in Hp. simpl in Hp. case_match; [|done]. injection Hp as <- <-.
      right; left. rewrite H1. by left.
  - eapply (events_observer _ s); [done|done|done| |reflexivity|done|done|by left].
    intros x Hxi. rewrite H1. by right.
  - assert (carries s ev) by (right; right; left; by eexists _, _, _).
    eapply (events_observer _ s); [done|done|done|done|reflexivity|done| |].
    + intros e k' Hp. unfold next_observer in Hp. simpl in Hp. case_match; [|done]. by injection Hp as <- <-.
    + intros o e [Hin|[= -> ->]%list_elem_of_singleton]%elem_of_app; [by left|right]. split; [by eapply list_elem_of_lookup_2|done].
  - assert (carries s ev) by (right; right; left; by eexists _, _, _).
    eapply (events_observer _ s); [done|done|done|done|reflexivity|done|done|].
    intros o e' [Hin|[= -> ->]%list_elem_of_singleton]%elem_of_app; [by left|right]. split; [by eapply list_elem_of_lookup_2|done].
  - apply (events_quiet _ s); simpl; eauto.
  - apply (events_quiet _ s); simpl; eauto.
  - unfold cancel_processing in *. case_match; [|by apply (events_quiet _ s); simpl; eauto].
    apply (events_quiet _ s); try done; [apply quiet_cancel_loop|left|unfold cancel_loop..];
      simpl; unfold cancel_loop; repeat case_match; by eauto.
  - apply (events_quiet _ s); simpl; eauto.
  - apply (events_quiet _ s); simpl; eauto.
  - apply (events_quiet _ s); simpl; eauto.
  - assert (Hx' : extends s (cancel_observing s)) by exact Hx.
    pose proof (events_cancel_observing e0 s Hs Hx') as Hs'. exact Hs'.
  - apply (events_quiet _ s); simpl; eauto.
Qed.

Lemma reachable_events e0 (s : State) : reachable config message_bus e0 s -> events_ok e0 s.
Proof.
  intros Hr. assert (Hall : forall s0, rtc (step config message_bus) s0 s -> sound e0 s0 -> events_ok e0 s0 -> events_ok e0 s).
  { clear Hr. induction 1 as [|s0 s1 s2 [a Ha] _ IH]; [done|]. intros Hs He. apply IH; [by eapply act_sound|].
    destruct a as [a|a]; [by eapply external_events|eapply internal_events; [done|apply Hs|done]]. }
  eapply Hall; [exact Hr|apply sound_init|]. split; [|intros ? ? []%elem_of_nil].
  intros ev [(i & l & id & Hi & _)|[[]%elem_of_nil|[(i & l & k & Hi & _)|[]%elem_of_nil]]]; done.
Qed.




End Queue.
