(* ===== verification/EngineQueueSpec.v ===== *)
(** * EngineQueueSpec

    What the queue promises: one writer in the order of admission, truthful
    answers, nobody left waiting, stops that end, bounded queues, observers that
    hear only of changes; and the runs in which it goes wrong. *)

From stdpp Require Import gmap strings list sorting relations.
From Stdlib Require Import ZArith QArith Lia.
From S2P Require Import Prelude StateMachine PlanTransitions TaskEnums TaskTransitions PlanUnits TaskModel TaskEngine EngineQueue EngineQueueProofs EngineQueueDrain EngineQueueEvents.
From S2P Require TaskEngineProofs.
From S2P Require SecurityModel.
Import TaskStatus.
Import SecurityModel (Raised, Ordinary, Critical, Critical_group).
#[local] Open Scope nat_scope.

Section Queue.
Context {obj : Type} `{Runtime obj} {R : Type} `{!TaskRepository (obj:=obj) R}.
Context (config : TaskEngineConfig) (message_bus : bool).
#[local] Notation State := (EngineQueue.State (obj:=obj) (R:=R)).
#[local] Notation act := (act config message_bus).
#[local] Notation internal_act := (internal_act config message_bus).

(** ** Runs *)

Fixpoint run (acts : list (External + Internal)) (s : State) : option State :=
  match acts with
  | [] => Some s
  | a :: acts => match act a s with Some s => run acts s | None => None end
  end.

Lemma run_rtc acts (s s' : State) : run acts s = Some s' -> rtc (step config message_bus) s s'.
Proof.
  revert s. induction acts as [|a acts IH]; intros s Hr; simpl in Hr; [by injection Hr as <-|].
  destruct (act a s) as [s1|] eqn:Ha; [|done]. econstructor; [by exists a|by apply IH].
Qed.

(** ** How long the queues get *)

(** The admission cap never rises above [c] nor is it switched off. *)
Definition caps_within (c : Z) (acts : list (External (obj:=obj) + Internal)) : Prop :=
  forall n, inl (Set_max_queue_size n) ∈ acts -> (n < 0 \/ 0 < n <= c)%Z.

Definition within (c : Z) (s : State) : Prop :=
  (0 < _max_queue_size (lifecycle s) <= c)%Z /\ (Z.of_nat (length (_queue (inbox s))) <= c)%Z.

Definition observer_queue_bounded (s : State) : Prop :=
  (0 < effective_observer_queue_size config ->
   Z.of_nat (length (_observer_queue (observing s))) <= effective_observer_queue_size config)%Z.

Lemma within_same c (s s' : State) :
  within c s -> _max_queue_size (lifecycle s') = _max_queue_size (lifecycle s) ->
  length (_queue (inbox s')) <= length (_queue (inbox s)) -> within c s'.
Proof. unfold within. intros [Hm Hq] -> Hl. split; [done|lia]. Qed.

Lemma act_within c a (s s' : State) :
  act a s = Some s' -> within c s -> (forall n, a = inl (Set_max_queue_size n) -> (n < 0 \/ 0 < n <= c)%Z) -> within c s'.
Proof.
  intros Hact Hw Hn. destruct a as [a|a]; simpl in Hact.
  - destruct a; simpl in Hact; unfold attempt in Hact.
    + destruct (mutation_ok m && admitting s); [|done]. unfold submit in Hact. destruct (_running (lifecycle s)); [|by injection Hact as <-].
      destruct (negb _) eqn:Hfull in Hact; injection Hact as <-; [|done]. destruct Hw as [Hm Hq]. split; [done|]. simpl.
      rewrite length_app. simpl. apply negb_true_iff, andb_false_iff in Hfull as [?%Z.ltb_ge|?%Z.leb_gt]; lia.
    + injection Hact as <-. by apply (within_same c s).
    + unfold set_max_queue_size in Hact. destruct Hw as [Hm Hq]. destruct (n <? 0)%Z eqn:Hneg; simpl in Hact; injection Hact as <-; [by split|].
      apply Z.ltb_ge in Hneg. split; [|done]. simpl. destruct (Hn n eq_refl); lia.
    + injection Hact as <-. by apply (within_same c s).
    + unfold start, may_start, rbind in Hact. act_cases Hact; by apply (within_same c s).
    + unfold start_fails, may_start, rbind, cancel_loop, cancel_observer in Hact. act_cases Hact; by apply (within_same c s).
    + unfold stop in Hact. act_cases Hact; by apply (within_same c s).
    + unfold stop_interrupted, cancel_processing, cancel_loop, cancel_observing, cancel_observer in Hact.
      act_cases Hact; apply (within_same c s); simpl; done || lia.
  - destruct a; simpl in Hact; first [apply rolled_back_eq in Hact as (p & o & Hr & ->)|stop_cases Hact; try loop_cases Hact].
    all: try (apply (within_same c s); [done|done|simpl; lia]).
    all: try (apply (within_same c s); [done|done|simpl; rewrite H1; simpl; lia]).
    + apply (within_same c s); [done|..]; unfold cancel_processing, cancel_loop; by repeat case_match.
    + apply (within_same c s); [done|..]; unfold cancel_observing, cancel_observer; by repeat case_match.
Qed.

Lemma bounded_push x (s s' : State) :
  observer_queue_bounded s -> observer_queue_full config s = false ->
  _observer_queue (observing s') = _observer_queue (observing s) ++ [x] -> observer_queue_bounded s'.
Proof.
  unfold observer_queue_bounded, observer_queue_full. intros Hb Hf -> Hn. rewrite length_app. simpl.
  apply andb_false_iff in Hf as [?%Z.ltb_ge|?%Z.leb_gt]; lia.
Qed.

Lemma bounded_shorter (s s' : State) :
  observer_queue_bounded s -> length (_observer_queue (observing s')) <= length (_observer_queue (observing s)) ->
  observer_queue_bounded s'.
Proof. unfold observer_queue_bounded. intros Hb Hl Hn. specialize (Hb Hn). lia. Qed.

Lemma act_observer_queue a (s s' : State) : act a s = Some s' -> observer_queue_bounded s -> observer_queue_bounded s'.
Proof.
  intros Hact Hs. destruct a as [a|a]; simpl in Hact.
  - destruct a; simpl in Hact; unfold attempt, submit, set_max_queue_size, start, start_fails, may_start, rbind, stop, stop_interrupted,
      cancel_processing, cancel_loop, cancel_observing, cancel_observer in Hact.
    all: act_cases Hact; apply (bounded_shorter s); simpl; done || lia.
  - destruct a; simpl in Hact; first [apply rolled_back_eq in Hact as (p & o & Hr & ->)|stop_cases Hact; try loop_cases Hact].
    all: try (apply (bounded_shorter s); [done|simpl; lia]).
    all: try (apply (bounded_shorter s); [done|simpl; rewrite H1; simpl; lia]).
    + apply orb_false_elim in H5 as [_ Hf]. by eapply (bounded_push _ s).
    + apply orb_false_elim in H2 as [_ Hf]. by eapply (bounded_push _ s).
    + apply (bounded_shorter s); [done|]. unfold cancel_processing, cancel_loop. by repeat case_match.
    + by eapply (bounded_push None s).
    + apply (bounded_shorter s); [done|]. unfold cancel_observing, cancel_observer. by repeat case_match.
Qed.


Lemma run_within c acts (s s' : State) :
  run acts s = Some s' -> caps_within c acts -> within c s -> within c s'.
Proof.
  revert s. induction acts as [|a acts IH]; intros s Hr Hc Hw; simpl in Hr; [by injection Hr as <-|].
  destruct (act a s) as [s1|] eqn:Ha; [|done]. apply (IH s1); [done|intros n Hn; apply Hc; by right|].
  eapply act_within; [done..|]. intros n ->. apply Hc. by left.
Qed.

Lemma run_observer_queue acts (s s' : State) :
  run acts s = Some s' -> observer_queue_bounded s -> observer_queue_bounded s'.
Proof.
  revert s. induction acts as [|a acts IH]; intros s Hr Hs; simpl in Hr; [by injection Hr as <-|].
  destruct (act a s) as [s1|] eqn:Ha; [|done]. apply (IH s1); [done|]. by eapply act_observer_queue.
Qed.

(** ** The observer stage *)

Definition asked (l : ObserverLoop (obj:=obj)) : Prop :=
  obs_finished (obs_phase l) = true \/ obs_cancel_requested l = true \/ obs_swallowed l = true.

Record observed (s : State) : Prop := {
  obs_handle j : _observer_task (observing s) = Some j -> j < length (observer_loops (observing s));
  obs_stage : match holder (lifecycle s) with Some (Observer_wait | Observer_cancel) => _observer_task (observing s) <> None | _ => True end;
  obs_asked j l : holder (lifecycle s) = Some Observer_cancel -> _observer_task (observing s) = Some j ->
    observer_loops (observing s) !! j = Some l -> asked l;
  obs_rollback p j l : holder (lifecycle s) = Some (Rolling_back p (Some j)) ->
    observer_loops (observing s) !! j = Some l -> asked l;
}.

(** Observer loops keep what was asked of them. *)
Definition keeps_asked (s s' : State) : Prop :=
  _observer_task (observing s') = _observer_task (observing s) /\
  length (observer_loops (observing s')) = length (observer_loops (observing s)) /\
  forall j l', observer_loops (observing s') !! j = Some l' ->
    exists l, observer_loops (observing s) !! j = Some l /\ (asked l -> asked l').

Lemma observed_keeps (s s' : State) :
  observed s -> keeps_asked s s' ->
  holder (lifecycle s') = holder (lifecycle s) \/ match holder (lifecycle s') with
    | Some (Observer_wait | Observer_cancel | Rolling_back _ _) => False | _ => True end -> observed s'.
Proof.
  intros [Hh Hst Ha Hr] (Et & En & El) Hl. split.
  - intros j. rewrite Et, En. apply Hh.
  - rewrite Et. destruct Hl as [->|Hl]; [done|]. by destruct (holder (lifecycle s')) as [[]|].
  - intros j l Hho Ht Hj. destruct (El j l Hj) as (l0 & Hj0 & Himp). rewrite Et in Ht. destruct Hl as [Hl|Hl]; [|by rewrite Hho in Hl].
    apply Himp. apply (Ha j); congruence.
  - intros p j l Hho Hj. destruct (El j l Hj) as (l0 & Hj0 & Himp). destruct Hl as [Hl|Hl]; [|by rewrite Hho in Hl].
    apply Himp. apply (Hr p j); congruence.
Qed.

Lemma keeps_same (s s' : State) : observer_loops (observing s') = observer_loops (observing s) ->
  _observer_task (observing s') = _observer_task (observing s) -> keeps_asked s s'.
Proof. intros El Et. split_and!; [done|by rewrite El|]. rewrite El. by eauto. Qed.

Lemma keeps_set (s s' : State) j l l' : observer_loops (observing s) !! j = Some l ->
  observer_loops (observing s') = <[j := l']> (observer_loops (observing s)) ->
  _observer_task (observing s') = _observer_task (observing s) -> (asked l -> asked l') -> keeps_asked s s'.
Proof.
  intros Hj El Et Ha. split_and!; [done|by rewrite El, length_insert|].
  intros i li. rewrite El. intros [(-> & <- & _)|[_ Hi]]%list_lookup_insert_Some; by eauto.
Qed.

Lemma cancel_observer_keeps j (s : State) :
  keeps_asked s (cancel_observer j s) /\ forall l, observer_loops (observing (cancel_observer j s)) !! j = Some l -> asked l.
Proof.
  unfold cancel_observer. destruct (observer_loops (observing s) !! j) as [l|] eqn:Hl; [|split; [by apply keeps_same|congruence]].
  destruct (obs_finished (obs_phase l)) eqn:Hf.
  - split; [by apply keeps_same|]. intros l0 Hl0. left. congruence.
  - split; [eapply keeps_set; [done|reflexivity|done|]; intros _; right; by left|]. simpl.
    intros l0. rewrite list_lookup_insert_eq by (by eapply lookup_lt_Some). intros [= <-]. right; by left.
Qed.

(** The last stage begins. *)
Lemma observed_drain (s s' : State) :
  observed s -> (s' = drain_observer s \/ s' = drain_observer (push_event None s)) -> observed s'.
Proof.
  intros [Hh Hst Ha Hr] Hd. assert (Et : _observer_task (observing s') = _observer_task (observing s) /\
    observer_loops (observing s') = observer_loops (observing s) /\
    holder (lifecycle s') = match _observer_task (observing s) with Some _ => Some Observer_wait | None => None end)
    by (by destruct Hd as [->| ->]).
  destruct Et as (Et & El & Eho). split.
  - rewrite Et, El. apply Hh.
  - rewrite Eho, Et. by destruct (_observer_task (observing s)).
  - rewrite Eho. by destruct (_observer_task (observing s)).
  - rewrite Eho. by destruct (_observer_task (observing s)).
Qed.

Lemma internal_observed a (s s' : State) : internal_act a s = Some s' -> control s -> observed s -> observed s'.
Proof.
  intros Hact Hc Hs. destruct a; simpl in Hact;
    first [apply rolled_back_eq in Hact as (p & o & Hr & ->)|stop_cases Hact; try loop_cases Hact].
  all: try (apply (observed_keeps s); [done|by apply keeps_same|first [by left|by right]]).
  all: try (apply (observed_keeps s); [done|eapply keeps_set; [eassumption|reflexivity|done|]|by left];
    unfold asked; simpl; intros [?|[?|?]]; by auto).
  - apply (observed_keeps s); [done| |by right]. unfold cancel_processing, cancel_loop. repeat case_match; by apply keeps_same.
  - eapply observed_drain; [done|by right].
  - eapply observed_drain; [done|by left].
  - assert (Hk : observed (cancel_observing s) /\ forall j l, _observer_task (observing s) = Some j ->
      observer_loops (observing (cancel_observing s)) !! j = Some l -> asked l).
    { unfold cancel_observing. destruct (_observer_task (observing s)) as [j|]; [|done].
      destruct (cancel_observer_keeps j s) as [Hk Hj]. split; [|intros ? ? [= <-]; apply Hj].
      apply (observed_keeps s); [done|done|]. left. unfold cancel_observer. by repeat case_match. }
    destruct Hk as [[Hh Hst Ha Hr] Hk].
    assert (Et : _observer_task (observing (cancel_observing s)) = _observer_task (observing s))
      by (unfold cancel_observing, cancel_observer; by repeat case_match).
    split; simpl; try done.
    + pose proof (obs_stage _ Hs) as Hst'. rewrite H0 in Hst'. by rewrite Et.
    + intros j l _ Hj. rewrite Et in Hj. by apply Hk.
  - by split.
Qed.

Lemma external_observed a (s s' : State) : external config a s = Some s' -> control s -> observed s -> observed s'.
Proof.
  intros Hact Hc Hs. pose proof (ctl_phase _ Hc) as Hph. destruct a; simpl in Hact; unfold attempt in Hact.
  - unfold submit in Hact. act_cases Hact; try done; (apply (observed_keeps s); [done|by apply keeps_same|by left]).
  - injection Hact as <-. apply (observed_keeps s); [done|by apply keeps_same|by left].
  - unfold set_max_queue_size in Hact. act_cases Hact; try done; (apply (observed_keeps s); [done|by apply keeps_same|by left]).
  - injection Hact as <-. apply (observed_keeps s); [done|by apply keeps_same|by left].
  - unfold start, may_start, rbind, unlocked in Hact. act_cases Hact; try done. split; simpl; rewrite ?H2; try done.
    intros j [= <-]. rewrite length_app. simpl. lia.
  - unfold unlocked in Hact. case_bool_decide as Hl; [|done]. injection Hact as <-. unfold start_fails, may_start, rbind.
    destruct (_unrestartable (lifecycle s)) eqn:Hu, (_running (lifecycle s)) eqn:Hr; try done.
    rewrite Hl in Hph. destruct (_processing_task (writer s)) as [t|] eqn:Ht; [done|]. simpl.
    replace (if created =? 0 then None else None) with (@None nat) by by destruct (created =? 0).
    set (o := if created <? 2 then _ else None). destruct o as [j|]; simpl.
    + destruct (cancel_observer_keeps j s) as [(Et & En & El) Hj]. split; simpl; try done.
      * intros i. rewrite Et, En. apply (obs_handle _ Hs).
      * intros p i l [= <- <-]. apply Hj.
    + split; simpl; try done. apply (obs_handle _ Hs).
  - unfold stop in Hact. act_cases Hact; try done; (apply (observed_keeps s); [done|by apply keeps_same|by first [by left|right]]).
  - unfold stop_interrupted in Hact. destruct (holder (lifecycle s)) as [[]|] eqn:Hh; try done.
    + injection Hact as <-. apply (observed_keeps s); [done|by apply keeps_same|by right].
    + injection Hact as <-. apply (observed_keeps s); [done| |left]; unfold cancel_processing, cancel_loop;
        repeat case_match; first [by apply keeps_same|done].
    + destruct (observer_queue_full config s); [|done]. injection Hact as <-. split; try done. apply (obs_handle _ Hs).
    + injection Hact as <-. by split.
    + injection Hact as <-. unfold cancel_observing. destruct (_observer_task (observing s)) as [j|]; [|done].
      destruct (cancel_observer_keeps j s) as [Hk Hj]. apply (observed_keeps s); [done|done|].
      left. unfold cancel_observer. by repeat case_match.
Qed.


(** ** Every schedule of the loops and the drains is finite *)

Definition flag (asked over : bool) : nat := if asked && negb over then 1 else 0.

Definition loop_weight (w : nat) (l : Loop (obj:=obj)) : nat :=
  match phase l with Polling => 1 | Dispatching _ => w + 3 | Publishing _ _ => w + 2 | _ => 0 end +
  flag (cancel_requested l) (finished (phase l)).

Definition observer_weight (n : nat) (l : ObserverLoop (obj:=obj)) : nat :=
  match obs_phase l with Waiting => 1 | Notifying _ k => 1 + (n - k) | _ => 0 end +
  flag (obs_cancel_requested l) (obs_finished (obs_phase l)).

Definition holder_weight (w : nat) (h : option Holder) : nat :=
  match h with
  | None => 0
  | Some Drain_wait => w + 7
  | Some (Drain_cancel _) => w + 5
  | Some Put_sentinel => w + 4
  | Some Observer_wait => 3
  | Some Observer_cancel => 1
  | Some (Rolling_back _ _) => 1
  end.

(** How many steps the loops and the drains have left: an event costs one step
    and one call per observer, an envelope that and three steps. *)
Definition remaining (s : State) : nat :=
  let n := length (_observers (observing s)) in
  let w := n + 1 in
  sum_list_with (loop_weight w) (loops (writer s)) + (w + 3) * length (_queue (inbox s)) +
  w * length (_observer_queue (observing s)) + sum_list_with (observer_weight n) (observer_loops (observing s)) +
  holder_weight w (holder (lifecycle s)).

Lemma sum_insert {A} (f : A -> nat) l i x x' :
  l !! i = Some x -> sum_list_with f (<[i := x']> l) + f x = sum_list_with f l + f x'.
Proof.
  revert i. induction l as [|a l IH]; intros [|i] Hi; simpl in *; try done; [injection Hi as ->; lia|]. specialize (IH i Hi). lia.
Qed.

Lemma sum_insert_le {A} (f : A -> nat) l i x x' :
  l !! i = Some x -> f x' <= f x + 1 -> sum_list_with f (<[i := x']> l) <= sum_list_with f l + 1.
Proof. intros Hi Hf. pose proof (sum_insert f l i x x' Hi). lia. Qed.

Lemma cancel_loop_weight w i (s : State) :
  sum_list_with (loop_weight w) (loops (writer (cancel_loop i s))) <= sum_list_with (loop_weight w) (loops (writer s)) + 1 /\
  inbox (cancel_loop i s) = inbox s /\ observing (cancel_loop i s) = observing s.
Proof.
  unfold cancel_loop. destruct (loops (writer s) !! i) as [l|] eqn:Hl; [|split; [lia|done]].
  destruct (finished (phase l)) eqn:Hf; [split; [lia|done]|]. split; [|done]. simpl. eapply sum_insert_le; [exact Hl|].
  unfold loop_weight, flag. simpl. rewrite Hf. simpl. destruct (cancel_requested l); simpl; lia.
Qed.

Lemma cancel_observer_weight n j (s : State) :
  sum_list_with (observer_weight n) (observer_loops (observing (cancel_observer j s))) <=
    sum_list_with (observer_weight n) (observer_loops (observing s)) + 1 /\
  inbox (cancel_observer j s) = inbox s /\ writer (cancel_observer j s) = writer s /\
  _observers (observing (cancel_observer j s)) = _observers (observing s) /\
  _observer_queue (observing (cancel_observer j s)) = _observer_queue (observing s).
Proof.
  unfold cancel_observer. destruct (observer_loops (observing s) !! j) as [l|] eqn:Hl; [|split_and!; [lia|done..]].
  destruct (obs_finished (obs_phase l)) eqn:Hf; [split_and!; [lia|done..]|]. split_and!; [|done..]. simpl.
  eapply sum_insert_le; [exact Hl|].
  unfold observer_weight, flag. simpl. rewrite Hf. simpl. destruct (obs_cancel_requested l); simpl; lia.
Qed.

(** A move of the processing loop. *)
Lemma loop_lighter (s s' : State) i l l' :
  loops (writer s) !! i = Some l -> loops (writer s') = <[i := l']> (loops (writer s)) ->
  observer_loops (observing s') = observer_loops (observing s) -> _observers (observing s') = _observers (observing s) ->
  lifecycle s' = lifecycle s ->
  (let w := length (_observers (observing s)) + 1 in
   loop_weight w l' + (w + 3) * length (_queue (inbox s')) + w * length (_observer_queue (observing s')) <
   loop_weight w l + (w + 3) * length (_queue (inbox s)) + w * length (_observer_queue (observing s))) ->
  remaining s' < remaining s.
Proof.
  intros Hl El Eo En Eh Hw. unfold remaining. rewrite El, Eo, En, Eh. simpl in Hw |- *.
  pose proof (sum_insert (loop_weight (length (_observers (observing s)) + 1)) _ _ _ l' Hl). lia.
Qed.

(** A move of an observer loop. *)
Lemma observer_lighter (s s' : State) j l l' :
  observer_loops (observing s) !! j = Some l -> observer_loops (observing s') = <[j := l']> (observer_loops (observing s)) ->
  writer s' = writer s -> inbox s' = inbox s -> _observers (observing s') = _observers (observing s) ->
  lifecycle s' = lifecycle s ->
  (let n := length (_observers (observing s)) in
   observer_weight n l' + (n + 1) * length (_observer_queue (observing s')) <
   observer_weight n l + (n + 1) * length (_observer_queue (observing s))) ->
  remaining s' < remaining s.
Proof.
  intros Hl El Ew Eb En Eh Hw. unfold remaining. rewrite El, Ew, Eb, En, Eh. simpl in Hw |- *.
  pose proof (sum_insert (observer_weight (length (_observers (observing s)))) _ _ _ l' Hl). lia.
Qed.

(** A move of the drains. *)
Lemma stage_lighter (s s' : State) :
  loops (writer s') = loops (writer s) -> observer_loops (observing s') = observer_loops (observing s) ->
  _observers (observing s') = _observers (observing s) -> length (_queue (inbox s')) <= length (_queue (inbox s)) ->
  (let w := length (_observers (observing s)) + 1 in
   w * length (_observer_queue (observing s')) + holder_weight w (holder (lifecycle s')) <
   w * length (_observer_queue (observing s)) + holder_weight w (holder (lifecycle s))) ->
  remaining s' < remaining s.
Proof. intros El Eo En Hq Hw. unfold remaining. rewrite El, Eo, En. simpl in Hw |- *. nia. Qed.

Lemma internal_lighter a (s s' : State) : internal_act a s = Some s' -> remaining s' < remaining s.
Proof.
  intros Hact. destruct a; simpl in Hact;
    first [apply rolled_back_eq in Hact as (p & o & Hr & ->)|stop_cases Hact; try loop_cases Hact].
  all: try (eapply loop_lighter; [eassumption|reflexivity|done|done|done|]; unfold loop_weight, flag; simpl;
    rewrite ?length_app; repeat match goal with E : _queue _ = _ |- _ => rewrite E end; simpl; lia).
  all: try (apply (stage_lighter s); [done|done|done|simpl; lia|]; simpl;
    repeat match goal with E : holder _ = _ |- _ => rewrite E end; simpl; rewrite ?length_app; simpl; lia).
  all: try match goal with Hk : _observers _ !! _ = Some _ |- _ => apply lookup_lt_Some in Hk end.
  all: try (eapply observer_lighter; [eassumption|reflexivity|done|done|done|done|];
    unfold next_observer, observer_weight, flag; simpl; repeat match goal with E : _observer_queue _ = _ |- _ => rewrite E end;
    simpl; try (destruct (_ <? _) eqn:Hk; [apply Nat.ltb_lt in Hk|apply Nat.ltb_ge in Hk]); simpl; lia).
  - unfold remaining, cancel_processing. simpl. rewrite H0. destruct (_processing_task (writer s)) as [i|]; simpl; [|lia].
    destruct (cancel_loop_weight (length (_observers (observing s)) + 1) i s) as (Hw & Eb & Eo). rewrite Eb, Eo. lia.
  - apply (stage_lighter s); try done. simpl. rewrite H0, length_app. simpl. case_match; simpl; lia.
  - apply (stage_lighter s); try done. simpl. rewrite H0. case_match; simpl; lia.
  - unfold remaining, cancel_observing. simpl. rewrite H0. destruct (_observer_task (observing s)) as [j|]; simpl; [|lia].
    destruct (cancel_observer_weight (length (_observers (observing s))) j s) as (Hw & Eb & Ew & Eo & Eq).
    rewrite Eb, Ew, Eo, Eq. lia.
Qed.

(** ** While the lock is held, somebody can move *)

(** A store in which every task id is taken does not exist. *)
Definition ids_left : Prop := forall e : Engine R, exists i, repo_get (tasks e) i = None.

Definition patient (s : State) : Prop :=
  forall j l, observer_loops (observing s) !! j = Some l -> obs_swallowed l = false.

Lemma asked_moves (s : State) j l :
  observer_loops (observing s) !! j = Some l -> asked l -> obs_swallowed l = false -> obs_finished (obs_phase l) = false ->
  is_Some (internal_act (Observer_cancelled j) s).
Proof.
  intros Hj Ha Hsw Hf. simpl. unfold observer_cancelled. rewrite Hj. destruct l as [ph ca sw]. unfold asked in Ha. simpl in *.
  destruct ca; [|naive_solver congruence]. destruct ph; done || by eexists.
Qed.

Definition idle_env (i : string) : Env := {|
  factories := {| uuid4 := i; utc_now := 0 |};
  call_fails := fun _ => false; plans_preflight := []; plans_at_delete := []; plans_reread := []; other_constraint := false |}.

Lemma live_moves e0 (s : State) i l :
  ids_left -> sound e0 s -> loops (writer s) !! i = Some l -> live l -> _running (lifecycle s) = false ->
  exists a, is_Some (internal_act a s).
Proof.
  intros Hids Hs Hi Hv Hr. destruct l as [ph ca sw]. unfold live in Hv. simpl in Hv. destruct ph; try done; destruct ca.
  - exists (Loop_cancel i). simpl. unfold loop_cancel. rewrite Hi. by eexists.
  - destruct (_queue (inbox s)) as [|id q] eqn:Hq.
    + exists (Loop_exit i). simpl. unfold loop_exit. rewrite Hi, Hq, Hr. by eexists.
    + exists (Loop_get i). simpl. unfold loop_get. rewrite Hi, Hq. by eexists.
  - exists (Loop_swallow i). simpl. unfold loop_swallow. rewrite Hi. by eexists.
  - destruct (Hids (engine (writer s))) as [k Hk]. exists (Loop_dispatch i (idle_env k) 0). simpl. unfold loop_dispatch. rewrite Hi.
    destruct (lookup_lt_is_Some_2 (envelopes (inbox s)) id) as [x Hx].
    { eapply (sound_bounded _ _ Hs); [exact Hi|done]. }
    rewrite Hx. simpl. unfold fresh_env. rewrite bool_decide_eq_true_2 by exact Hk. by eexists.
  - exists (Loop_cancel i). simpl. unfold loop_cancel. rewrite Hi. by eexists.
  - exists (Loop_published i (Ok tt)). simpl. unfold loop_published. rewrite Hi. by eexists.
Qed.

Lemma drain_moves e0 (s : State) saved :
  ids_left -> sound e0 s -> holder (lifecycle s) = Some (Drain_cancel saved) -> exists a, is_Some (internal_act a s).
Proof.
  intros Hids Hs Hh. pose proof (ctl_phase _ (sound_control _ _ Hs)) as Hph. rewrite Hh in Hph.
  destruct (_running (lifecycle s)) eqn:Hr, (_unrestartable (lifecycle s)), (_processing_task (writer s)) as [i|] eqn:Ht; try done.
  destruct (lookup_lt_is_Some_2 _ _ (ctl_handle _ (sound_control _ _ Hs) i Ht)) as [l Hi].
  destruct (finished (phase l)) eqn:Hf; [|by eapply live_moves].
  exists Drain_cancelled. simpl. unfold drain_cancelled, processing_phase. rewrite Hh, Ht. simpl. rewrite Hi. simpl.
  destruct (phase l); try done; by eexists.
Qed.

Lemma stop_moves e0 (s : State) :
  ids_left -> sound e0 s -> observed s -> patient s -> holder (lifecycle s) <> None -> exists a, is_Some (internal_act a s).
Proof.
  intros Hids Hs Ho Hp Hn. destruct (holder (lifecycle s)) as [h|] eqn:Hh; [|done]. clear Hn. destruct h as [|saved| | | |p o].
  - exists Drain_timeout. simpl. unfold drain_timeout. rewrite Hh. by eexists.
  - by eapply drain_moves.
  - destruct (observer_queue_full config s) eqn:Hf.
    + exists Put_timeout. simpl. unfold put_timeout. rewrite Hh, Hf. by eexists.
    + exists Put_sentinel_done. simpl. unfold put_sentinel. rewrite Hh, Hf. by eexists.
  - exists Observer_timeout. simpl. unfold observer_timeout. rewrite Hh. by eexists.
  - pose proof (obs_stage _ Ho) as Hst. rewrite Hh in Hst. destruct (_observer_task (observing s)) as [j|] eqn:Ht; [|done].
    destruct (lookup_lt_is_Some_2 _ _ (obs_handle _ Ho j Ht)) as [l Hj].
    destruct (obs_finished (obs_phase l)) eqn:Hf.
    + exists Observer_drained. simpl. unfold observer_drained, observer_phase. rewrite Hh, Ht. simpl. rewrite Hj. simpl.
      destruct (obs_phase l); try done; by eexists.
    + exists (Observer_cancelled j). eapply asked_moves; [done|by eapply (obs_asked _ Ho)|by eapply Hp|done].
  - pose proof (ctl_phase _ (sound_control _ _ Hs)) as Hph. rewrite Hh in Hph.
    assert (p = None) as -> by (destruct (_running (lifecycle s)), (_unrestartable (lifecycle s)), p; done).
    destruct o as [j|]; [|exists Rolled_back; simpl; unfold rolled_back; rewrite Hh; by eexists].
    destruct (observer_loops (observing s) !! j) as [l|] eqn:Hj;
      [|exists Rolled_back; simpl; unfold rolled_back; rewrite Hh, Hj; by eexists].
    destruct (obs_finished (obs_phase l)) eqn:Hf.
    + exists Rolled_back. simpl. unfold rolled_back. rewrite Hh, Hj, Hf. by eexists.
    + exists (Observer_cancelled j). eapply asked_moves; [done|by eapply (obs_rollback _ Ho)|by eapply Hp|done].
Qed.

Lemma reachable_observed e (s : State) : reachable config message_bus e s -> observed s.
Proof.
  intros Hr. assert (Hall : forall s0, rtc (step config message_bus) s0 s -> sound e s0 -> observed s0 -> observed s).
  { clear Hr. induction 1 as [|s0 s1 s2 [a Ha] _ IH]; [done|]. intros Hs Ho. apply IH; [by eapply act_sound|].
    destruct a as [a|a]; [eapply external_observed|eapply internal_observed]; eauto using sound_control. }
  eapply Hall; [exact Hr|apply sound_init|by split].
Qed.


(** ** What the queue promises *)

Lemma sorted_nodup (l : list nat) : StronglySorted lt l -> NoDup l.
Proof.
  induction 1 as [|x l Hl IH Hx]; constructor; [|done]. intros Hin. rewrite Forall_forall in Hx. specialize (Hx x Hin). lia.
Qed.

Lemma steps_snoc e tr e1 env m e2 r :
  TaskEngineProofs.steps e tr e1 -> mutation_ok m = true -> repo_get (tasks e1) (uuid4 (factories env)) = None ->
  _process_one env m e1 = (e2, r) -> TaskEngineProofs.steps (obj:=obj) (R:=R) e (tr ++ [(m, r)]) e2.
Proof. induction 1; intros Hok Hf Hp; simpl; econstructor; eauto. constructor. Qed.

Lemma performed_steps ms e0 ts (e : Engine R) :
  performed ms e0 ts e -> (forall id t, (id, t) ∈ ts -> exists env, t = Whole env) ->
  exists tr, TaskEngineProofs.steps (obj:=obj) e0 tr e /\ Forall2 (fun t mr => ms !! t.1 = Some mr.1) ts tr.
Proof.
  induction 1 as [|ts e id m t Hp IH Hm Ht]; intros Hw; [exists []; split; constructor|].
  destruct IH as (tr & Hs & Hf); [intros id' t' Hin; apply (Hw id'); set_solver|].
  destruct (Hw id t) as [env ->]; [set_solver|]. simpl in *. destruct Ht as [Hok Hfr%bool_decide_eq_true].
  exists (tr ++ [(m, (_process_one env m e).2)]). split; [|by apply Forall2_app; [done|repeat constructor]].
  eapply steps_snoc; [done..|]. by destruct (_process_one env m e).
Qed.

(** C8: one writer at a time, in the order of admission: at most one processing
    loop is live, no envelope has two turns and turns follow the order in which
    their envelopes were admitted; the engine's state is what these turns make
    of the first one, one after the other, so that a log of whole turns is a
    run of the single writer and has all its invariants. *)
Theorem one_writer_in_order (e : Engine R) (s : State) :
  reachable config message_bus e s ->
  (forall i j li lj, loops (writer s) !! i = Some li -> loops (writer s) !! j = Some lj -> live li -> live lj -> i = j) /\
  StronglySorted lt (turns (writer s)).*1 /\
  performed (bodies (envelopes (inbox s))) e (turns (writer s)) (engine (writer s)) /\
  ((forall id t, (id, t) ∈ turns (writer s) -> exists env, t = Whole env) ->
   exists tr, TaskEngineProofs.steps (obj:=obj) e tr (engine (writer s)) /\
     Forall2 (fun t mr => bodies (envelopes (inbox s)) !! t.1 = Some mr.1) (turns (writer s)) tr).
Proof.
  intros [Hc Ho Hh _ _]%reachable_sound. split_and!.
  - apply (ctl_single _ Hc).
  - eapply sorted_sublist; [|apply (ord_sorted _ Ho)]. unfold pipeline. by apply sublist_inserts_r.
  - apply Hh.
  - apply performed_steps, Hh.
Qed.

(** C9: no caller is told of a change that did not happen: the answer to an
    envelope is the result of its one turn, at the state which the turns before
    it produced, or it says that the engine shut down or that the loop failed;
    a success is always the first. *)
Theorem answers_truthful (e : Engine R) (s : State) (id : nat) (x : _MutationEnvelope) (r : TaskMutationResult obj) :
  reachable config message_bus e s -> envelopes (inbox s) !! id = Some x -> future x = Answered r ->
  let told := exists before env after e1, turns (writer s) = before ++ (id, Whole env) :: after /\
      id ∉ before.*1 ++ after.*1 /\ performed (bodies (envelopes (inbox s))) e before e1 /\
      r = (_process_one env (mutation x) e1).2 in
  (success r = true -> told) /\ (told \/ r = _shutdown_result x \/ r = loop_error_result x).
Proof.
  intros [Hc Ho Hh _ _]%reachable_sound Hx Hr. cbv zeta.
  assert (Hu : forall before t after, turns (writer s) = before ++ (id, t) :: after -> id ∉ before.*1 ++ after.*1).
  { intros before t after Ht. assert (Hnd : NoDup (turns (writer s)).*1).
    { apply sorted_nodup. eapply sorted_sublist; [|apply (ord_sorted _ Ho)]. unfold pipeline. by apply sublist_inserts_r. }
    rewrite Ht, fmap_app in Hnd. simpl in Hnd. apply NoDup_app in Hnd as (Hn1 & Hd & Hn2).
    apply NoDup_cons in Hn2 as [Hn2 _]. apply not_elem_of_app. split; [|done].
    intros Hin. apply (Hd id Hin). by left. }
  destruct (hon_answers _ _ _ _ Hh id x r Hx Hr) as [(ts1 & env & ts2 & e1 & Ht & Hp & Hres)|Hfail].
  - assert (Htold : exists before env after e1, turns (writer s) = before ++ (id, Whole env) :: after /\
      id ∉ before.*1 ++ after.*1 /\ performed (bodies (envelopes (inbox s))) e before e1 /\
      r = (_process_one env (mutation x) e1).2) by (exists ts1, env, ts2, e1; split_and!; eauto).
    by split; [|left].
  - split; [intros Hok; destruct Hfail as [->| ->]; done|by right].
Qed.

(** C10: nobody is left waiting: unless awaited code has absorbed a cancellation,
    every unanswered envelope is in the queue, in flight, or the one that the
    drain under way has interrupted and will answer; and once the engine has
    stopped, with no loop dead of a critical error, none is unanswered. *)
Theorem nobody_left_waiting (e : Engine R) (s : State) :
  reachable config message_bus e s -> clean s ->
  (forall id, pending (inbox s) id ->
     id ∈ _queue (inbox s) \/ _in_flight (inbox s) = Some id \/ holder (lifecycle s) = Some (Drain_cancel (Some id))) /\
  (_running (lifecycle s) = false -> holder (lifecycle s) = None -> unharmed s -> forall id, ~ pending (inbox s) id).
Proof.
  intros [Hc Ho Hh _ Hs]%reachable_sound Hcl. split; [intros id; by apply (set_pending _ Hs)|].
  intros Hr Hn Hu id Hp. destruct (set_stopped _ Hs Hr ltac:(by rewrite Hn) Hu) as [Hq Hf].
  destruct (set_pending _ Hs id Hcl Hp) as [Hin|[?|?]]; [|congruence..]. rewrite Hq in Hin. by apply elem_of_nil in Hin.
Qed.

(** A schedule of the loops and the drains alone. *)
Definition settle (acts : list Internal) : State -> option State := run (inr <$> acts).

(** C11: every stop ends: left to themselves, the loops and the drains take at
    most [remaining] steps from any state, and as long as somebody holds the
    lifecycle lock, and no observer has absorbed a cancellation, one of them
    can take a step; so every schedule carried to its end frees the lock. *)
Theorem stop_ends (e : Engine R) (s s' : State) (acts : list Internal) :
  ids_left -> reachable config message_bus e s -> settle acts s = Some s' ->
  length acts + remaining s' <= remaining s /\
  (patient s' -> (forall a, internal_act a s' = None) -> holder (lifecycle s') = None).
Proof.
  intros Hids Hr Hrun. split.
  - clear Hr. revert s Hrun. induction acts as [|a acts IH]; intros s Hrun; [by injection Hrun as <-|].
    unfold settle in Hrun. simpl in Hrun. destruct (internal_act a s) as [s1|] eqn:Ha; [|done].
    specialize (IH s1 Hrun). apply internal_lighter in Ha. simpl. lia.
  - assert (Hr' : reachable config message_bus e s') by (unfold reachable in *; etrans; [exact Hr|by eapply run_rtc]).
    intros Hp Hno. destruct (decide (holder (lifecycle s') = None)) as [|Hn]; [done|].
    destruct (stop_moves e s' Hids (reachable_sound _ _ _ _ Hr') (reachable_observed _ _ Hr') Hp Hn) as [a [s2 Ha]].
    by rewrite Hno in Ha.
Qed.

(** C34: the queues stay bounded: while the admission cap stays between 1 and
    [c] the queue never holds more than [c] envelopes, whatever is submitted;
    and with a bound on the observer queue it never holds more than that. *)
Theorem queues_bounded (e : Engine R) (s : State) (c : Z) (acts : list (External + Internal)) :
  run acts (__init__ config e) = Some s ->
  ((0 < cfg_max_queue_size config <= c)%Z -> caps_within c acts -> (Z.of_nat (length (_queue (inbox s))) <= c)%Z) /\
  ((0 < effective_observer_queue_size config)%Z ->
   (Z.of_nat (length (_observer_queue (observing s))) <= effective_observer_queue_size config)%Z).
Proof.
  intros Hr. split.
  - intros Hm Hc. apply (run_within c _ _ _ Hr Hc). split; [done|simpl; lia].
  - apply (run_observer_queue _ _ _ Hr). intros Hn. simpl. lia.
Qed.

(** C28: observers hear only of changes that were made: every call of an observer
    is a call of a registered one, and its event is that of a turn of the log
    that succeeded, built from that turn's mutation and result. *)
Theorem observers_hear_applied_changes (e : Engine R) (s : State) (callback : string) (ev : TaskStateChanged) :
  reachable config message_bus e s -> (callback, ev) ∈ notified (observing s) ->
  callback ∈ _observers (observing s) /\
  exists before id env after e1 m now, turns (writer s) = before ++ (id, Whole env) :: after /\
    performed (bodies (envelopes (inbox s))) e before e1 /\ bodies (envelopes (inbox s)) !! id = Some m /\
    let r := (_process_one env m e1).2 in success r = true /\ ev = build_state_changed_event now m r.
Proof.
  intros [Hev Ho]%reachable_events Hin. split; [by eapply Ho|]. apply Hev. right; right; right.
  change ev with (snd (callback, ev)). by apply list_elem_of_fmap_2.
Qed.

(** The hard deadline does not end a stop that awaits a task it has cancelled:
    the cancellation goes to that task. *)
Lemma deadline_passes_on (s s' : State) saved :
  holder (lifecycle s) = Some (Drain_cancel saved) -> stop_interrupted config s = Some s' ->
  holder (lifecycle s') = holder (lifecycle s) /\ _unrestartable (lifecycle s') = _unrestartable (lifecycle s).
Proof.
  unfold stop_interrupted. intros Hh Hs. rewrite Hh in Hs. injection Hs as <-.
  unfold cancel_processing, cancel_loop. by repeat case_match.
Qed.

End Queue.

(** ** Runs on plain objects *)

Module QueueDemo.
Import TaskModel.Plain.
Import TaskEngineProofs (fresh_engine).
#[local] Existing Instance TaskEngineProofs.map_repository.

Definition config : TaskEngineConfig :=
  {| cfg_max_queue_size := 2; observer_queue_size := None; drain_timeout_seconds := 10; publish_snapshots := false |}.

Notation State := (EngineQueue.State (obj:=pyobj) (R:=gmap string (Task pyobj))).

Definition new : State := __init__ config fresh_engine.
Definition demo (acts : list (External (obj:=pyobj) + Internal)) (s : State) : option State := run config true acts s.

Notation user a := (inl a) (only parsing).
Notation loop a := (inr a) (only parsing).

Definition env (i : string) : Env := TaskEngineProofs.Demo.env_of i 1.

(** A task is filed, an observer hears of it, the engine stops. *)
Definition whole_run : list (External (obj:=pyobj) + Internal) :=
  [user (Register_observer "board"); user Start; user (Submit TaskEngineProofs.Demo.create); user (Submit TaskEngineProofs.Demo.cancel);
   user (Submit TaskEngineProofs.Demo.cancel); loop (Loop_get 0); loop (Loop_dispatch 0 (env "u1") 5); loop (Observer_get 0);
   loop (Observer_call 0 (Ok tt)); user (Stop None)].
Definition rest_run : list Internal :=
  [Loop_get 0; Loop_dispatch 0 (env "u2") 6; Loop_exit 0; Drain_done; Put_sentinel_done; Observer_get 0; Observer_drained].

Definition midway := demo whole_run new.
Definition ended := demo (whole_run ++ (inr <$> rest_run)) new.

(** What a run shows: who is admitted and accepted, and how the loops stand. *)
Definition is_live (l : Loop (obj:=pyobj)) : bool := negb (finished (phase l)).
Definition is_pending (x : _MutationEnvelope (obj:=pyobj)) : bool := negb (is_done (future x)).
Definition shows (s : State) : bool * nat * nat * list bool :=
  (_running (lifecycle s), length (List.filter is_live (loops (writer s))),
   length (List.filter (fun l => negb (obs_finished (obs_phase l))) (observer_loops (observing s))),
   is_pending <$> envelopes (inbox s)).

Lemma midway_view :
  option_map (fun s => (_queue (inbox s), length (envelopes (inbox s)), (notified (observing s)).*1, _max_queue_size (lifecycle s))) midway
  = Some ([1], 2, ["board"%string], 2%Z).
Proof. vm_compute. reflexivity. Qed.

Lemma ended_view :
  option_map (fun s => (shows s, (fun t => match t.2 with Whole _ => true | Part _ _ _ => false end) <$> turns (writer s),
    holder (lifecycle s), loops (writer s))) ended
  = Some ((false, 0, 0, [false; false]), [true; true], None, [enter Ended (fresh_loop Polling)]).
Proof. vm_compute. reflexivity. Qed.

Lemma first_answer :
  match midway with
  | Some s => match envelopes (inbox s) !! 0 with
      | Some x => match future x with Answered r => success r = true | _ => False end
      | None => False end
  | None => False end.
Proof. vm_compute. reflexivity. Qed.

Lemma demo_reachable acts s : demo acts new = Some s -> reachable config true fresh_engine s.
Proof. apply run_rtc. Qed.

Lemma map_ids_left : ids_left (obj:=pyobj) (R:=gmap string (Task pyobj)).
Proof. intros e. exists (fresh (dom (tasks e))). apply not_elem_of_dom, is_fresh. Qed.

(** ** What goes wrong

    A critical error out of a mutation kills the processing loop; the engine
    goes on accepting work that no loop will take. *)
Definition dies : list (External (obj:=pyobj) + Internal) :=
  [user Start; user (Submit TaskEngineProofs.Demo.create); loop (Loop_get 0); loop (Loop_raises 0 (env "u1") Call_save false Critical)].

Lemma accepted_without_a_loop :
  option_map shows (demo (dies ++ [user (Submit TaskEngineProofs.Demo.create)]) new) = Some (true, 0, 1, [false; true]).
Proof. vm_compute. reflexivity. Qed.

(** The stop that meets the dead loop leaves the observer loop running, and the
    next start adds a second one on the same queue. *)
Lemma two_observer_loops :
  option_map shows (demo (dies ++ [user (Stop None); loop Drain_done; user Start]) new) = Some (true, 1, 2, [false]).
Proof. vm_compute. reflexivity. Qed.

(** A stop that cancels a slow observer leaves its sentinel in the queue: the
    next start's observer loop takes it and ends, the engine running. *)
Lemma stale_sentinel :
  option_map shows (demo ([user Start; user (Stop None); loop (Loop_exit 0); loop Drain_done; loop Put_sentinel_done;
    loop Observer_timeout; loop (Observer_cancelled 0); loop Observer_drained; user Start; loop (Observer_get 1)]) new)
  = Some (true, 1, 0, []).
Proof. vm_compute. reflexivity. Qed.

(** A critical error while the drain cancels the loop: the stop ends without
    answering the queue. *)
Lemma queue_left_unanswered :
  option_map (fun s => (shows s, holder (lifecycle s))) (demo ([user Start; user (Submit TaskEngineProofs.Demo.create); user (Submit TaskEngineProofs.Demo.cancel);
    loop (Loop_get 0); user (Stop None); loop Drain_timeout; loop (Loop_swallow 0);
    loop (Loop_raises 0 (env "u1") Call_save false Critical); loop Drain_cancelled]) new)
  = Some ((false, 0, 1, [false; true]), None).
Proof. vm_compute. reflexivity. Qed.

(** A group that nests a critical error is answered like any failure. *)
Lemma critical_group_swallowed :
  option_map (fun s => (shows s, (fun x => match future x with Answered r => error_code r | _ => None end) <$> envelopes (inbox s)))
    (demo [user Start; user (Submit TaskEngineProofs.Demo.create); loop (Loop_get 0); loop (Loop_raises 0 (env "u1") Call_save false Critical_group)] new)
  = Some ((true, 1, 1, [false]), [Some internal]).
Proof. vm_compute. reflexivity. Qed.

(** The caller reads that the engine shut down before processing a mutation
    whose write is in the store. *)
Lemma shut_down_after_the_write :
  option_map (fun s => ((fun x => match future x with Answered r => error r | _ => None end) <$> envelopes (inbox s),
      bool_decide (is_Some (tasks (engine (writer s)) !! "u1"%string))))
    (demo [user Start; user (Submit TaskEngineProofs.Demo.create); loop (Loop_get 0); user (Stop None); loop Drain_timeout;
      loop (Loop_cut 0 (env "u1") Call_save true); loop Drain_cancelled] new)
  = Some ([Some Shut_down], true).
Proof. vm_compute. reflexivity. Qed.

End QueueDemo.

Import TaskModel.Plain.
#[local] Existing Instance TaskEngineProofs.map_repository.
#[local] Notation fresh_engine := (TaskEngineProofs.fresh_engine (obj:=pyobj)).

Lemma one_writer_in_order_witness :
  match QueueDemo.ended with
  | Some s => exists tr, TaskEngineProofs.steps fresh_engine tr (engine (writer s)) /\ length tr = 2
  | None => False
  end.
Proof.
  pose proof QueueDemo.ended_view as Hv. destruct QueueDemo.ended as [s|] eqn:E; [|discriminate Hv].
  apply QueueDemo.demo_reachable in E. injection Hv as _ _ _ _ Hw _ _.
  destruct (one_writer_in_order QueueDemo.config true fresh_engine s E) as (_ & _ & _ & Ht).
  assert (Hall : forall id t, (id, t) ∈ turns (writer s) -> exists env, t = Whole env).
  { intros id t Hin. apply (list_elem_of_fmap_2 (fun t => match t.2 with Whole _ => true | Part _ _ _ => false end)) in Hin.
    rewrite Hw in Hin. destruct t; [by eexists|simpl in Hin; set_solver]. }
  destruct (Ht Hall) as (tr & Hs & Hf). exists tr. split; [exact Hs|]. apply Forall2_length in Hf. rewrite <-Hf.
  apply (f_equal length) in Hw. by rewrite length_fmap in Hw.
Defined.

Lemma answers_truthful_witness :
  match QueueDemo.midway with
  | Some s => exists before env after, turns (writer s) = before ++ (0, Whole env) :: after
  | None => False
  end.
Proof.
  pose proof QueueDemo.first_answer as Hv. destruct QueueDemo.midway as [s|] eqn:E; [|destruct Hv].
  apply QueueDemo.demo_reachable in E. destruct (envelopes (inbox s) !! 0) as [x|] eqn:Hx; [|destruct Hv].
  destruct (future x) as [|r| |] eqn:Hr; try done.
  destruct (answers_truthful QueueDemo.config true fresh_engine s 0 x r E Hx Hr) as [Ht _].
  destruct (Ht Hv) as (before & env & after & _ & Hts & _). by exists before, env, after.
Defined.

Lemma nobody_left_waiting_witness :
  match QueueDemo.ended with Some s => ~ pending (inbox s) 1 | None => False end.
Proof.
  pose proof QueueDemo.ended_view as Hv. destruct QueueDemo.ended as [s|] eqn:E; [|discriminate Hv].
  apply QueueDemo.demo_reachable in E. injection Hv as Hr _ _ _ _ Hh Hl.
  apply (nobody_left_waiting QueueDemo.config true fresh_engine s E); [|exact Hr|exact Hh|].
  - intros i l. rewrite Hl. by destruct i as [|[]]; intros [= <-].
  - intros i l e. rewrite Hl. by destruct i as [|[]]; intros [= <-].
Defined.

Lemma stop_ends_witness :
  match QueueDemo.midway with
  | Some s => match settle QueueDemo.config true QueueDemo.rest_run s with
      | Some s' => length QueueDemo.rest_run + remaining s' <= remaining s
      | None => False end
  | None => False
  end.
Proof.
  assert (Hv : match QueueDemo.midway with
    | Some s => is_Some (settle QueueDemo.config true QueueDemo.rest_run s) | None => False end) by (vm_compute; by eexists).
  destruct QueueDemo.midway as [s|] eqn:E; [|destruct Hv]. apply QueueDemo.demo_reachable in E.
  destruct (settle _ _ _ s) as [s'|] eqn:Es; [|by destruct Hv].
  exact (proj1 (stop_ends QueueDemo.config true fresh_engine s s' QueueDemo.rest_run QueueDemo.map_ids_left E Es)).
Defined.

Lemma queues_bounded_witness :
  match QueueDemo.midway with Some s => (Z.of_nat (length (_queue (inbox s))) <= 2)%Z | None => False end.
Proof.
  pose proof QueueDemo.midway_view as Hv. destruct QueueDemo.midway as [s|] eqn:E; [|discriminate Hv]. clear Hv.
  unfold QueueDemo.midway, QueueDemo.demo, QueueDemo.new in E.
  assert (Hc : caps_within 2 QueueDemo.whole_run).
  { intros n Hin. exfalso. unfold QueueDemo.whole_run in Hin.
    repeat (apply elem_of_cons in Hin as [Hin|Hin]; [discriminate Hin|]). by apply elem_of_nil in Hin. }
  destruct (queues_bounded QueueDemo.config true fresh_engine s 2 QueueDemo.whole_run E) as [Hb _].
  apply Hb; [by split|exact Hc].
Defined.

Lemma observers_hear_applied_changes_witness :
  match QueueDemo.midway with
  | Some s => match notified (observing s) with
      | (o, _) :: _ => o ∈ _observers (observing s)
      | [] => False end
  | None => False
  end.
Proof.
  pose proof QueueDemo.midway_view as Hv. destruct QueueDemo.midway as [s|] eqn:E; [|discriminate Hv].
  apply QueueDemo.demo_reachable in E. injection Hv as _ _ Hn _.
  destruct (notified (observing s)) as [|[o ev] l] eqn:Hl; [discriminate Hn|].
  apply (observers_hear_applied_changes QueueDemo.config true fresh_engine s o ev E). rewrite Hl. by left.
Defined.
