(* ===== verification/EngineApi.v ===== *)
(** * EngineApi

    The task engine as its callers see it ([engine/task_engine.py]): the five
    convenience methods with their typed errors, the reads that bypass the queue
    with their pagination, and the filing of pre-built tasks. What the queue
    answers to a submitted mutation is an argument; the theorems use the turn of
    the single writer for it. *)

From stdpp Require Import gmap strings list sorting.
From Stdlib Require Import ZArith QArith Lia.
From S2P Require Import Prelude StateMachine PlanTransitions TaskEnums TaskTransitions PlanUnits TaskModel TaskEngine TaskEngineProofs EngineQueue.
From S2P Require SecurityModel.
Import TaskStatus.
Import SecurityModel (Raised, Ordinary, Critical, Critical_group).
#[local] Open Scope nat_scope.

(** ** Errors *)

Inductive ErrorDetail :=
| From_result (e : ErrorText)
| Mutation_failed
| Model_rejected
| No_task
| Failed_to_read
| Failed_to_list
| Failed_to_count
| Failed_to_file.

Inductive ApiError :=
| Not_admitted (e : EngineError)
| Passed_on (e : Raised)
| TaskMutationError (d : ErrorDetail)
| TaskNotFoundError (d : ErrorDetail)
| TaskVersionConflictError (d : ErrorDetail)
| TaskInternalError (d : ErrorDetail)
| PlanParentTaskInUseError (d : ErrorDetail)
| TaskOrphanedPlanError (missing : list string)
| Invalid_limit (limit : Z)
| Invalid_offset (offset : Z)
| Offset_without_limit (offset : Z).

(** [except Exception as exc: reraise_critical(exc); raise TaskInternalError]. *)
Definition wrapped {A} (d : ErrorDetail) (r : result Raised A) : result ApiError A :=
  match r with
  | Ok a => Ok a
  | Err e => if SecurityModel._contains_critical e then Err (Passed_on e) else Err (TaskInternalError d)
  end.

Section Api.
Context {obj : Type} `{Runtime obj}.
#[local] Open Scope py_scope.
#[local] Notation TaskMutation := (TaskEngine.TaskMutation obj).
#[local] Notation TaskMutationResult := (TaskEngine.TaskMutationResult obj).

Definition _raise_typed_error (r : TaskMutationResult) : ApiError :=
  let d := match error r with Some e => From_result e | None => Mutation_failed end in
  match error_code r with
  | Some not_found => TaskNotFoundError d
  | Some version_conflict => TaskVersionConflictError d
  | Some internal => TaskInternalError d
  | Some parent_of_plan => PlanParentTaskInUseError d
  | _ => TaskMutationError d
  end.

Section Methods.
(** What [submit] answers. *)
Context (submit : TaskMutation -> result ApiError TaskMutationResult).

(** A mutation its model refuses is never submitted. *)
Definition submit_built (m : TaskMutation) : result ApiError TaskMutationResult :=
  ensure mutation_ok m else TaskMutationError Model_rejected in
  let* r := submit m in
  ensure success r else _raise_typed_error r in
  Ok r.

Definition task_of_result (r : TaskMutationResult) : result ApiError (Task obj) :=
  match result_task r with Some t => Ok t | None => Err (TaskInternalError No_task) end.

Definition create_task (uuid : string) (data : CreateTaskData) (by_ : string) : result ApiError (Task obj) :=
  let* r := submit_built (Create {| create_request_id := uuid; create_requested_by := by_; create_task_data := data |}) in
  task_of_result r.

Definition update_task (uuid task_id : string) (ups : gmap string obj) (by_ : string) (expected : option Z)
    : result ApiError (Task obj) :=
  let* r := submit_built (Update {| update_request_id := uuid; update_requested_by := by_; update_task_id := task_id;
    updates := ups; update_expected_version := expected |}) in
  task_of_result r.

(** [reason or f"Transition to {target_status.value}"]. *)
Definition effective_reason (reason : string) (target : TaskStatus) : string :=
  match reason with EmptyString => String.append "Transition to " (task_status_value target) | _ => reason end.

Definition transition_task (uuid task_id : string) (target : TaskStatus) (by_ reason : string) (expected : option Z)
    (ov : gmap string obj) : result ApiError (Task obj * option TaskStatus) :=
  let* r := submit_built (Transition {| transition_request_id := uuid; transition_requested_by := by_;
    transition_task_id := task_id; target_status := target; transition_reason := effective_reason reason target;
    overrides := ov; transition_expected_version := expected |}) in
  let* t := task_of_result r in
  Ok (t, previous_status r).

Definition delete_task (uuid task_id by_ : string) : result ApiError unit :=
  let* _ := submit_built (Delete {| delete_request_id := uuid; delete_requested_by := by_; delete_task_id := task_id |}) in
  Ok tt.

Definition cancel_task (uuid task_id by_ reason : string) : result ApiError (Task obj * option TaskStatus) :=
  let* r := submit_built (Cancel {| cancel_request_id := uuid; cancel_requested_by := by_; cancel_task_id := task_id;
    cancel_reason := reason |}) in
  let* t := task_of_result r in
  Ok (t, previous_status r).
End Methods.

(** ** Reads *)

Definition get_task (answer : result Raised (option (Task obj))) : result ApiError (option (Task obj)) :=
  wrapped Failed_to_read answer.

Definition _MAX_LIST_RESULTS : Z := 10000.

(** The part of [TaskFilterSpec] that [list_tasks] sets. *)
Record TaskFilter := { filter_status : option TaskStatus; filter_assigned_to : option string; filter_project : option string }.

Definition _validate_pagination (limit : option Z) (offset : Z) : result ApiError unit :=
  ensure negb match limit with Some l => (l <? 0)%Z | None => false end else Invalid_limit (default 0%Z limit) in
  ensure negb (offset <? 0)%Z else Invalid_offset offset in
  ensure negb (match limit with None => true | Some _ => false end && (0 <? offset)%Z) else Offset_without_limit offset in
  Ok tt.

Section Reads.
Context (query : TaskFilter -> Z -> Z -> result Raised (list (Task obj))) (count : TaskFilter -> result Raised Z).

Definition _fetch_tasks (f : TaskFilter) (limit : option Z) (offset : Z) : result ApiError (list (Task obj)) :=
  wrapped Failed_to_list (query f (default _MAX_LIST_RESULTS limit) offset).

Definition _count_tasks_filtered (f : TaskFilter) : result ApiError Z := wrapped Failed_to_count (count f).

Definition cap_list (true_total : Z) (tasks : list (Task obj)) : list (Task obj) :=
  if (_MAX_LIST_RESULTS <? true_total)%Z then take (Z.to_nat _MAX_LIST_RESULTS) tasks else tasks.

Definition list_tasks (f : TaskFilter) (limit : option Z) (offset : Z) (include_total : bool)
    : result ApiError (list (Task obj) * option Z) :=
  let* _ := _validate_pagination limit offset in
  let* tasks := _fetch_tasks f limit offset in
  match limit with
  | None =>
      if include_total then
        let* count_total := _count_tasks_filtered f in
        let true_total := Z.max count_total (Z.of_nat (length tasks)) in
        Ok (cap_list true_total tasks, Some true_total)
      else Ok (cap_list (Z.of_nat (length tasks)) tasks, None)
  | Some _ =>
      if include_total then let* total := _count_tasks_filtered f in Ok (tasks, Some total)
      else Ok (tasks, None)
  end.
End Reads.

(** ** Filing *)

Section Filing.
Context {R : Type} `{!TaskRepository (obj:=obj) R}.
#[local] Notation Engine := (TaskEngine.Engine R).
(** [persistence.plans.get] finds the plan, and how [save_many] ends. *)
Context (plan_found : string -> result Raised bool) (saving : result Raised unit).

(** [[plan_id for plan_id in sorted(plan_ids) if await plans.get(plan_id) is None]]. *)
Fixpoint missing_plans (ids : list string) : result ApiError (list string) :=
  match ids with
  | [] => Ok []
  | i :: ids =>
      match plan_found i with
      | Err e => Err (Passed_on e)
      | Ok found => let* rest := missing_plans ids in Ok (if found then rest else i :: rest)
      end
  end.

Definition named_plans (tasks : list (Task obj)) : gset string := list_to_set (omap task_plan_id tasks).

Definition _reject_orphaned_plans (tasks : list (Task obj)) : result ApiError unit :=
  let* missing := missing_plans (sort_str (elements (named_plans tasks))) in
  ensure bool_decide (missing = []) else TaskOrphanedPlanError missing in
  Ok tt.

(** One transaction: all rows or none. *)
Definition save_many (tasks : list (Task obj)) (e : Engine) : Engine :=
  set_tasks (foldl repo_save (TaskEngine.tasks e) tasks) e.

Definition file_tasks (tasks : list (Task obj)) (e : Engine) : Engine * result ApiError unit :=
  match tasks with
  | [] => (e, Ok tt)
  | _ =>
      match _reject_orphaned_plans tasks with
      | Err err => (e, Err err)
      | Ok _ =>
          match wrapped Failed_to_file saving with
          | Ok _ => (save_many tasks e, Ok tt)
          | Err err => (e, Err err)
          end
      end
  end.
End Filing.

(** ** What callers get *)

(** The class of an error, whatever its text. *)
Inductive ErrorClass := Mutation | Not_found | Conflict | Internal | Plan_in_use | Elsewhere.

#[export] Instance error_class_eq_dec : EqDecision ErrorClass.
Proof. solve_decision. Defined.

Definition class_of (e : ApiError) : ErrorClass :=
  match e with
  | TaskMutationError _ => Mutation
  | TaskNotFoundError _ => Not_found
  | TaskVersionConflictError _ => Conflict
  | TaskInternalError _ => Internal
  | PlanParentTaskInUseError _ => Plan_in_use
  | _ => Elsewhere
  end.

Definition failure {A} (r : result ApiError A) : option ErrorClass :=
  match r with Ok _ => None | Err e => Some (class_of e) end.

Definition class_of_code (c : TaskErrorCode) : ErrorClass :=
  match c with
  | not_found => Not_found | version_conflict => Conflict | internal => Internal | parent_of_plan => Plan_in_use
  | validation => Mutation
  end.

Section Contract.
Context {R : Type} `{!TaskRepository (obj:=obj) R} (env : Env) (e : TaskEngine.Engine R).

(** The queue answers with the turn of the single writer. *)
Definition turn_answer (m : TaskMutation) : result ApiError TaskMutationResult := Ok (snd (_process_one env m e)).

(** How a call ends: a mutation its model refuses, or the refusal of the store,
    the versions and the lifecycle. *)
Definition call_failure (m : TaskMutation) : option ErrorClass :=
  if mutation_ok m then class_of_code <$> refusal env m e else Some Mutation.

Hypothesis Hok : engine_ok e.
Hypothesis Hfresh : stored e (uuid4 (factories env)) = None.

Lemma submit_built_failure m : failure (submit_built turn_answer m) = call_failure m.
Proof.
  unfold submit_built, call_failure. destruct (mutation_ok m) eqn:Hm; [|done]. simpl.
  destruct (_process_one env m e) as [e1 r] eqn:Hp. simpl.
  assert (Hc : error_code r = refusal env m e) by (rewrite <-(refusal_exact env e (ok_store _ Hok) m Hm), Hp; done).
  destruct (result_consistent env m e e1 r Hok Hm Hfresh Hp) as (_ & _ & Hs & _).
  rewrite <-Hc. rewrite Hs. unfold _raise_typed_error.
  destruct (error_code r) as [[]|]; done.
Qed.
(** What a successful mutation returns is the row now stored. *)
Lemma success_returns_row m :
  mutation_ok m = true -> success (_process_one env m e).2 = true -> (forall x, m <> Delete x) ->
  exists t, result_task (_process_one env m e).2 = Some t /\ stored (_process_one env m e).1 (task_id t) = Some t.
Proof.
  intros Hm. destruct (_process_one env m e) as [e1 r] eqn:Hp. simpl. intros Hs Hd.
  destruct (step_view env m e e1 r Hok Hm Hfresh Hp) as (c & Hc & Ha & _ & _ & _).
  destruct c as [|t|u t|u t|k]; simpl in Ha, Hc.
  - destruct Ha as [(err & code & ->)|(x & t & _ & _ & Hst & ->)]; [done|]. exists t. split; [done|].
    destruct Hc as [Hf _]. rewrite (follows_stored _ _ _ _ _ Hf).
    destruct (ok_store _ Hok _ _ Hst) as [-> _]. done.
  - destruct Ha as (x & _ & _ & _ & ->). exists t. split; [done|]. destruct Hc as [Hf _].
    rewrite (follows_stored _ _ _ _ _ Hf). unfold put, upd. by rewrite decide_True.
  - destruct Ha as (x & _ & _ & _ & _ & ->). exists t. split; [done|]. destruct Hc as [Hf _].
    rewrite (follows_stored _ _ _ _ _ Hf). unfold put, upd. by rewrite decide_True.
  - destruct Ha as (x & tg & ov & _ & _ & _ & _ & ->). exists t. split; [done|]. destruct Hc as [Hf _].
    rewrite (follows_stored _ _ _ _ _ Hf). unfold put, upd. by rewrite decide_True.
  - destruct Ha as (x & -> & _). by destruct (Hd x).
Qed.

(** A call that wants a task back gets the row now stored, or fails as its
    mutation does. *)
Lemma row_call {A} m (k : Task obj -> TaskMutationResult -> A) (f : result ApiError A) :
  (forall x, m <> Delete x) ->
  f = (let* r := submit_built turn_answer m in let* t := task_of_result r in Ok (k t r)) ->
  failure f = call_failure m /\
  (forall a, f = Ok a -> exists t, a = k t (_process_one env m e).2 /\ stored (_process_one env m e).1 (task_id t) = Some t).
Proof.
  intros Hd ->. rewrite <-submit_built_failure. unfold submit_built, turn_answer.
  destruct (mutation_ok m) eqn:Hm; simpl; [|done].
  destruct (success (_process_one env m e).2) eqn:Hs; simpl; [|done].
  destruct (success_returns_row m Hm Hs Hd) as (t & Ht & Hst). unfold task_of_result. rewrite Ht. simpl.
  split; [done|]. intros a [= <-]. by exists t.
Qed.
End Contract.
End Api.

#[local] Open Scope py_scope.

(** C29: the errors the engine's callers get: each of the five calls fails exactly
    when its mutation's model or the turn refuses it, with the error class of
    that refusal (404 for a missing task, 409 for a stale version or a plan in
    the way, 422 for an invalid change, 500 for a failure inside), and otherwise
    returns the row that is now stored; the internal error for a success
    without a task is never raised. *)
Theorem api_calls_exact {obj} `{Runtime obj} {R} `{!TaskRepository (obj:=obj) R} (env : Env) (e : TaskEngine.Engine R)
    (uuid i by_ reason : string) (data : CreateTaskData) (ups : gmap string obj) (expected : option Z)
    (target : TaskStatus) :
  engine_ok e -> stored e (uuid4 (factories env)) = None ->
  let submit := turn_answer env e in
  let state m := (_process_one env m e).1 in
  let c := Create {| create_request_id := uuid; create_requested_by := by_; create_task_data := data |} in
  let u := Update {| update_request_id := uuid; update_requested_by := by_; update_task_id := i; updates := ups;
    update_expected_version := expected |} in
  let t := Transition {| transition_request_id := uuid; transition_requested_by := by_; transition_task_id := i;
    target_status := target; transition_reason := effective_reason reason target; overrides := ups;
    transition_expected_version := expected |} in
  let d := Delete {| delete_request_id := uuid; delete_requested_by := by_; delete_task_id := i |} in
  let x := Cancel {| cancel_request_id := uuid; cancel_requested_by := by_; cancel_task_id := i; cancel_reason := reason |} in
  (failure (create_task submit uuid data by_) = call_failure env e c /\
   forall row, create_task submit uuid data by_ = Ok row -> stored (state c) (task_id row) = Some row) /\
  (failure (update_task submit uuid i ups by_ expected) = call_failure env e u /\
   forall row, update_task submit uuid i ups by_ expected = Ok row -> stored (state u) (task_id row) = Some row) /\
  (failure (transition_task submit uuid i target by_ reason expected ups) = call_failure env e t /\
   forall row prev, transition_task submit uuid i target by_ reason expected ups = Ok (row, prev) ->
     stored (state t) (task_id row) = Some row) /\
  failure (delete_task submit uuid i by_) = call_failure env e d /\
  (failure (cancel_task submit uuid i by_ reason) = call_failure env e x /\
   forall row prev, cancel_task submit uuid i by_ reason = Ok (row, prev) -> stored (state x) (task_id row) = Some row).
Proof.
  intros Hok Hfresh submit state c u t d x.
  assert (Hplain : forall (m : TaskEngine.TaskMutation obj) f, (forall y, m <> Delete y) ->
    f = (let* r := submit_built submit m in task_of_result r) ->
    failure f = call_failure env e m /\ forall row, f = Ok row -> stored (state m) (task_id row) = Some row).
  { intros m f Hd Hf. destruct (row_call env e Hok Hfresh m (fun t _ => t) f Hd) as [H1 H2].
    - rewrite Hf. unfold rbind. destruct (submit_built _ _) as [r|]; [|done]. by destruct (task_of_result r).
    - split; [done|]. intros row Hr. by destruct (H2 row Hr) as (? & -> & ?). }
  assert (Hpair : forall (m : TaskEngine.TaskMutation obj) f, (forall y, m <> Delete y) ->
    f = (let* r := submit_built submit m in let* t := task_of_result r in Ok (t, previous_status r)) ->
    failure f = call_failure env e m /\ forall row prev, f = Ok (row, prev) -> stored (state m) (task_id row) = Some row).
  { intros m f Hd Hf. destruct (row_call env e Hok Hfresh m (fun t r => (t, previous_status r)) f Hd Hf) as [H1 H2].
    split; [done|]. intros row prev Hr. by destruct (H2 _ Hr) as (? & [= -> ->] & ?). }
  split; [by apply (Hplain c)|]. split; [by apply (Hplain u)|]. split; [by apply (Hpair t)|].
  split; [|by apply (Hpair x)].
  rewrite <-(submit_built_failure env e Hok Hfresh d). unfold delete_task, rbind. by destruct (submit_built _ _).
Qed.

(** ** Lists *)

Section ListTasks.
Context {obj : Type} `{Runtime obj}.
Context (query : TaskFilter -> Z -> Z -> result Raised (list (Task obj))) (count : TaskFilter -> result Raised Z)
  (rows : TaskFilter -> list (Task obj)).
(** [query] returns the matching rows ordered by id, windowed; [count] how many
    match. *)
Hypothesis query_windows : forall f l o, (0 <= l)%Z -> (0 <= o)%Z ->
  query f l o = Ok (take (Z.to_nat l) (drop (Z.to_nat o) (rows f))).
Hypothesis count_rows : forall f, count f = Ok (Z.of_nat (length (rows f))).

Lemma max_list_positive : (0 <= _MAX_LIST_RESULTS)%Z.
Proof. done. Qed.
#[local] Opaque _MAX_LIST_RESULTS.

Lemma pagination_ok limit offset :
  _validate_pagination limit offset = Ok tt <->
  (0 <= offset)%Z /\ match limit with Some l => (0 <= l)%Z | None => offset = 0%Z end.
Proof.
  unfold _validate_pagination. destruct limit as [l|]; simpl.
  - destruct (l <? 0)%Z eqn:Hl; simpl; [apply Z.ltb_lt in Hl; split; [done|lia]|apply Z.ltb_ge in Hl].
    destruct (offset <? 0)%Z eqn:Ho; simpl; [apply Z.ltb_lt in Ho; split; [done|lia]|apply Z.ltb_ge in Ho].
    split; [lia|done].
  - destruct (offset <? 0)%Z eqn:Ho; simpl; [apply Z.ltb_lt in Ho; split; [done|lia]|apply Z.ltb_ge in Ho].
    destruct (0 <? offset)%Z eqn:Hp; simpl; [apply Z.ltb_lt in Hp; split; [done|lia]|apply Z.ltb_ge in Hp].
    split; [lia|done].
Qed.

Lemma cap_clamped (l : list (Task obj)) n :
  cap_list n (take (Z.to_nat _MAX_LIST_RESULTS) l) = take (Z.to_nat _MAX_LIST_RESULTS) l.
Proof. unfold cap_list. case_match; [|done]. by rewrite take_take, Nat.min_id. Qed.

(** [list_tasks]: a window asked for is the repository's window; without a limit
    all rows, at most 10,000 of them; the total, when asked for, counts every
    matching row, also those past the cap; ill-composed pagination is refused. *)
Lemma list_tasks_exact f limit offset (include_total : bool) :
  let total := if include_total then Some (Z.of_nat (length (rows f))) else None in
  match list_tasks query count f limit offset include_total with
  | Ok (tasks, n) => _validate_pagination limit offset = Ok tt /\ n = total /\
      tasks = take (Z.to_nat (default _MAX_LIST_RESULTS limit)) (drop (Z.to_nat offset) (rows f))
  | Err err => _validate_pagination limit offset = Err err
  end.
Proof.
  intros total. unfold list_tasks. destruct (_validate_pagination limit offset) as [[]|err] eqn:Hv; [|done].
  simpl. apply pagination_ok in Hv as [Ho Hl]. unfold _fetch_tasks.
  rewrite query_windows by (pose proof max_list_positive; destruct limit; simpl in *; lia). simpl. unfold _count_tasks_filtered. rewrite count_rows. simpl.
  destruct limit as [l|]; simpl in *; [by destruct include_total|]. subst offset. rewrite drop_0.
  destruct include_total; simpl; rewrite cap_clamped; split_and!; try done.
  unfold total. f_equal. rewrite length_take. lia.
Qed.
End ListTasks.

(** ** Filing *)

Section FileTasks.
Context {obj : Type} `{Runtime obj} {R : Type} `{!TaskRepository (obj:=obj) R}.
Context (plan_found : string -> result Raised bool) (saving : result Raised unit).

Definition plan_gone (i : string) : bool := match plan_found i with Ok false => true | _ => false end.

Lemma missing_plans_spec ids :
  match missing_plans plan_found ids with
  | Ok missing => (forall i, i ∈ ids -> exists found, plan_found i = Ok found) /\
      missing = filter (fun i => plan_gone i = true) ids
  | Err err => exists i e, i ∈ ids /\ plan_found i = Err e /\ err = Passed_on e
  end.
Proof.
  induction ids as [|i ids IH]; simpl; [split; [by intros i ?%elem_of_nil|done]|].
  destruct (plan_found i) as [found|e] eqn:Hf; [|exists i, e; split_and!; [by left|done|done]].
  destruct (missing_plans plan_found ids) as [missing|err]; simpl.
  - destruct IH as [Hall ->]. split.
    + intros j [->|Hj]%elem_of_cons; [by exists found|by apply Hall].
    + rewrite filter_cons. destruct found; [rewrite decide_False|rewrite decide_True]; try (unfold plan_gone; by rewrite Hf); done.
  - destruct IH as (j & e & Hj & He & ->). exists j, e. split_and!; [by right|done|done].
Qed.

Lemma repo_get_saved (l : list (Task obj)) (r : R) i :
  repo_get (foldl repo_save r l) i =
  match list_find (fun t => i = task_id t) (reverse l) with Some (_, t) => Some t | None => repo_get r i end.
Proof.
  induction l as [|t l IH] using rev_ind; [done|].
  rewrite foldl_app, reverse_app. simpl. rewrite repo_get_save. case_decide as Hi; [done|].
  rewrite IH. by destruct (list_find _ (reverse l)) as [[]|].
Qed.

(** Every plan the tasks name is found. *)
Definition plans_found (tasks : list (Task obj)) : Prop :=
  forall t i, t ∈ tasks -> task_plan_id t = Some i -> plan_found i = Ok true.

Lemma reject_orphaned_plans_spec tasks :
  match _reject_orphaned_plans plan_found tasks with
  | Ok _ => plans_found tasks
  | Err (TaskOrphanedPlanError missing) => missing <> [] /\
      forall i, i ∈ missing <-> plan_found i = Ok false /\ exists t, t ∈ tasks /\ task_plan_id t = Some i
  | Err err => exists t i e, t ∈ tasks /\ task_plan_id t = Some i /\ plan_found i = Err e /\ err = Passed_on e
  end.
Proof.
  assert (Hids : forall i, i ∈ sort_str (elements (named_plans tasks)) <-> exists t, t ∈ tasks /\ task_plan_id t = Some i).
  { intros i. rewrite sort_str_perm, elem_of_elements. unfold named_plans. rewrite elem_of_list_to_set, list_elem_of_omap. naive_solver. }
  unfold _reject_orphaned_plans. pose proof (missing_plans_spec (sort_str (elements (named_plans tasks)))) as Hm.
  destruct (missing_plans plan_found _) as [missing|err]; simpl.
  - destruct Hm as [Hall Hmiss]. case_bool_decide as Hn; simpl.
    + intros t i Ht Hi. destruct (Hall i) as [found Hf]; [apply Hids; eauto|]. destruct found; [done|].
      rewrite Hn in Hmiss. exfalso. symmetry in Hmiss. apply (proj1 (filter_nil_iff _ _) Hmiss i); [apply Hids; eauto|].
      unfold plan_gone. by rewrite Hf.
    + split; [done|]. intros i. rewrite Hmiss, list_elem_of_filter, Hids. unfold plan_gone.
      destruct (plan_found i) as [[]|]; naive_solver.
  - destruct Hm as (i & e & (t & Ht & Hti)%Hids & He & ->). by exists t, i, e.
Qed.

End FileTasks.

(** C30: filing is all or nothing and never orphans work: [file_tasks] succeeds
    exactly when every plan the tasks name is found and the transaction commits,
    and then each task is stored under its id, the last of equal ids winning,
    every other row, all versions, spans and metrics as they were; when it
    fails nothing has changed, and a refusal lists exactly the named plans that
    are gone. *)
Theorem file_tasks_exact {obj} `{Runtime obj} {R} `{!TaskRepository (obj:=obj) R} (plan_found : string -> result Raised bool)
    (saving : result Raised unit) (tasks : list (Task obj)) (e : TaskEngine.Engine R) :
  tasks <> [] ->
  let '(e', r) := file_tasks plan_found saving tasks e in
  (is_ok r = true <-> plans_found plan_found tasks /\ saving = Ok tt) /\
  versions e' = versions e /\ spans e' = spans e /\ task_transitions e' = task_transitions e /\ task_runs e' = task_runs e /\
  match r with
  | Ok _ => forall i, stored e' i = match list_find (fun t => i = task_id t) (reverse tasks) with
      Some (_, t) => Some t | None => stored e i end
  | Err (TaskOrphanedPlanError missing) => e' = e /\
      forall i, i ∈ missing <-> plan_found i = Ok false /\ exists t, t ∈ tasks /\ task_plan_id t = Some i
  | Err _ => e' = e
  end.
Proof.
  intros Hne. unfold file_tasks. destruct tasks as [|t0 ts] eqn:Hts; [done|]. rewrite <-Hts. clear Hne.
  pose proof (reject_orphaned_plans_spec plan_found tasks) as Hrej.
  destruct (_reject_orphaned_plans plan_found tasks) as [u|err] eqn:Hr.
  - destruct saving as [[]|se]; simpl.
    + split_and!; try done. intros i. apply repo_get_saved.
    + destruct (SecurityModel._contains_critical se); (split_and!; [split; [done|by intros [_ ?]]|done..]).
  - assert (Hbad : ~ plans_found plan_found tasks).
    { intros Hp. destruct err as [| | | | | | |missing| | |]; try (destruct Hrej as (t & i & re & Ht & Hi & He & _); specialize (Hp t i Ht Hi); congruence).
      destruct Hrej as [Hn Hm]. destruct missing as [|i missing]; [done|].
      destruct (proj1 (Hm i)) as (Hg & t & Ht & Hi); [by left|]. specialize (Hp t i Ht Hi). congruence. }
    split_and!; [split; [done|by intros [? _]]|done..|].
    destruct err; try done. destruct Hrej as [_ Hm]. by split.
Qed.

(** ** The calls at concrete inputs *)

Section ApiDemo.
Import TaskModel.Plain.
#[local] Notation fresh_engine := (TaskEngineProofs.fresh_engine (obj:=pyobj)).
#[local] Notation env := (TaskEngineProofs.Demo.env_of "u1" 1).

Lemma api_calls_exact_witness :
  failure (cancel_task (turn_answer env fresh_engine) "r1" "u9" "ada" "moot") = Some Not_found /\
  exists row, create_task (turn_answer env fresh_engine) "r1" TaskEngineProofs.Demo.data "ada" = Ok row /\
    stored (_process_one (obj:=pyobj) env TaskEngineProofs.Demo.create fresh_engine).1 (task_id row) = Some row.
Proof.
  destruct (api_calls_exact env fresh_engine "r1" "u9" "ada" "moot" TaskEngineProofs.Demo.data ∅ None CANCELLED
    (proj1 TaskEngineProofs.fresh_engine_ok) eq_refl) as ([Hc Hrow] & _ & _ & _ & [Hx _]).
  split; [exact Hx|]. destruct (create_task _ _ _ _) as [row|] eqn:E; [|vm_compute in E; discriminate E].
  exists row. split; [reflexivity|]. by apply Hrow.
Defined.

(** A task to file, under a plan. *)
Definition filed_row : option (Task pyobj) :=
  match create_task (turn_answer env fresh_engine) "r1" TaskEngineProofs.Demo.data "ada" with Ok t => Some t | Err _ => None end.

Lemma file_tasks_exact_witness :
  match filed_row with
  | Some t => let '(e', r) := file_tasks (fun _ => Ok true) (Ok tt) [t] fresh_engine in
      is_ok r = true /\ stored e' "u1" = Some t
  | None => False
  end.
Proof.
  destruct filed_row as [t|] eqn:E; [|vm_compute in E; discriminate E].
  assert (Hid : task_id t = "u1"%string) by (vm_compute in E; injection E as <-; reflexivity).
  pose proof (file_tasks_exact (fun _ => Ok true) (Ok tt) [t] fresh_engine ltac:(discriminate)) as Hf.
  destruct (file_tasks _ _ [t] fresh_engine) as [e' r]. destruct Hf as (Hok & _ & _ & _ & _ & Hst).
  assert (is_ok r = true) as Hr by (apply Hok; by split; [intros ? ? _ _|]).
  split; [exact Hr|]. destruct r as [u|]; [|discriminate Hr]. rewrite (Hst "u1"%string). simpl. by rewrite decide_True.
Defined.
End ApiDemo.
