(* ===== verification/Capability.v ===== *)
(** * Capability

    What a piece of work demands of a model and who may take it: the rungs of
    [core/types.py], the bands of [core/capability_fit.py], the configuration
    and the policy of [engine/routing_policy/], and the dispatch gate of
    [engine/_agent_engine_run.py]. The model catalogue is an argument. *)

From stdpp Require Import gmap strings list sorting relations.
From Stdlib Require Import ZArith Lia QArith.
From S2P Require Import Prelude TaskEnums PlanUnits.
#[local] Open Scope Z_scope.
#[local] Open Scope py_scope.

(** ** Rungs *)

Inductive CapabilityLevel := basic | capable | expert.

#[export] Instance capability_level_eq_dec : EqDecision CapabilityLevel.
Proof. solve_decision. Defined.

Definition CAPABILITY_LADDER : list CapabilityLevel := [basic; capable; expert].

Definition capability_rank (level : CapabilityLevel) : Z := Z.of_nat (index_of level CAPABILITY_LADDER).

Definition capability_meets (candidate required : CapabilityLevel) : bool :=
  capability_rank required <=? capability_rank candidate.

Definition capability_below (level : CapabilityLevel) : option CapabilityLevel :=
  let idx := capability_rank level - 1 in
  if idx <? 0 then None else CAPABILITY_LADDER !! Z.to_nat idx.

(** The next rung up; the index never leaves the ladder ([bump_one_spec]). *)
Definition bump_one (level : CapabilityLevel) : CapabilityLevel :=
  let idx := Z.min (capability_rank level + 1) (Z.of_nat (length CAPABILITY_LADDER) - 1) in
  default level (CAPABILITY_LADDER !! Z.to_nat idx).

Definition SUBSTANTIAL_COMPLEXITIES : list Complexity.Complexity := [Complexity.COMPLEX; Complexity.EPIC].

(** An ungraded pair ranks below every rung. *)
Definition rank_of (c : option CapabilityLevel) : Z :=
  match c with None => -1 | Some c => capability_rank c end.

Inductive ReasoningEffort := MINIMAL | LOW | MEDIUM | HIGH.

#[export] Instance reasoning_effort_eq_dec : EqDecision ReasoningEffort.
Proof. solve_decision. Defined.

Definition REASONING_EFFORT_ORDER : list ReasoningEffort := [MINIMAL; LOW; MEDIUM; HIGH].

Definition reasoning_effort_rank (e : ReasoningEffort) : Z := Z.of_nat (index_of e REASONING_EFFORT_ORDER).

(** ** Configuration *)

(** A value per stakes level. *)
Record PerStakes (A : Type) := { for_low : A; for_normal : A; for_high : A; for_critical : A }.
Arguments for_low {A}. Arguments for_normal {A}. Arguments for_high {A}. Arguments for_critical {A}.

Definition for_stakes {A} (m : PerStakes A) (s : Stakes.Stakes) : A :=
  match s with
  | Stakes.LOW => for_low m | Stakes.NORMAL => for_normal m
  | Stakes.HIGH => for_high m | Stakes.CRITICAL => for_critical m
  end.

Definition non_decreasing (rank : Stakes.Stakes -> Z) : bool :=
  (rank Stakes.LOW <=? rank Stakes.NORMAL) && (rank Stakes.NORMAL <=? rank Stakes.HIGH) &&
  (rank Stakes.HIGH <=? rank Stakes.CRITICAL).

Inductive PolicyError :=
| Floors_decrease (floors : PerStakes CapabilityLevel)
| Reasoning_decreases (efforts : PerStakes (option ReasoningEffort)).

Definition StakesCapabilityFloor : Type := PerStakes CapabilityLevel.
Definition StakesReasoning : Type := PerStakes (option ReasoningEffort).

Definition _validate_floors_ordered (floors : StakesCapabilityFloor) : result PolicyError unit :=
  ensure non_decreasing (fun s => capability_rank (for_stakes floors s)) else Floors_decrease floors in Ok tt.

Definition effort_rank (e : option ReasoningEffort) : Z :=
  match e with None => -1 | Some e => reasoning_effort_rank e end.

Definition _validate_reasoning_ordered (efforts : StakesReasoning) : result PolicyError unit :=
  ensure non_decreasing (fun s => effort_rank (for_stakes efforts s)) else Reasoning_decreases efforts in Ok tt.

Record CapabilityPolicyConfig := {
  capability_floors : StakesCapabilityFloor;
  reasoning : StakesReasoning;
  red_team_min_stakes : Stakes.Stakes;
  park_min_stakes : Stakes.Stakes;
}.

Definition new_policy_config (c : CapabilityPolicyConfig) : result PolicyError CapabilityPolicyConfig :=
  let* _ := _validate_floors_ordered (capability_floors c) in
  let* _ := _validate_reasoning_ordered (reasoning c) in
  Ok c.

Definition default_policy_config : CapabilityPolicyConfig := {|
  capability_floors := {| for_low := basic; for_normal := capable; for_high := expert; for_critical := expert |};
  reasoning := {| for_low := None; for_normal := Some LOW; for_high := Some MEDIUM; for_critical := Some HIGH |};
  red_team_min_stakes := Stakes.HIGH;
  park_min_stakes := Stakes.HIGH;
|}.

(** ** The policy *)

(** The pair an agent is bound to. *)
Record ModelConfig := {
  provider : string;
  model_id : string;
  temperature : Q;
  top_p : option Q;
  reasoning_effort_of : option ReasoningEffort;
  max_tokens : option Z;
  claimed_capability : option CapabilityLevel;
}.

Definition capability_value (c : CapabilityLevel) : string :=
  match c with basic => "basic" | capable => "capable" | expert => "expert" end.

(** [_reject_capability_literal_as_model]. *)
Definition model_id_ok (m : ModelConfig) : bool :=
  negb (bool_decide (model_id m ∈ capability_value <$> CAPABILITY_LADDER)).

Inductive CapabilityFit := fit_match | fit_higher | fit_lower.

#[export] Instance capability_fit_eq_dec : EqDecision CapabilityFit.
Proof. solve_decision. Defined.

Record CapabilityVerdict := {
  verdict_required : CapabilityLevel;
  verdict_agent : option CapabilityLevel;
  verdict_fit : CapabilityFit;
  sanctioned : bool;
  unresolved : bool;
}.

(** What the catalogue says of a pair: not served, served, or graded. *)
Definition PairResolver : Type := string -> string -> option (option CapabilityLevel).

(** [ResolvedAgentCapabilityReader]. *)
Definition capability_for_pair (resolve_for_pair : PairResolver) (provider model_id : string)
    (claimed : option CapabilityLevel) : option CapabilityLevel :=
  match resolve_for_pair provider model_id with
  | Some (Some c) => Some c
  | _ => claimed
  end.

Record CapabilityPolicy := { _config : CapabilityPolicyConfig; _reader : PairResolver }.

Definition set_config (c : CapabilityPolicyConfig) (p : CapabilityPolicy) : CapabilityPolicy :=
  {| _config := c; _reader := _reader p |}.

Definition required_for (p : CapabilityPolicy) (stakes : Stakes.Stakes) (complexity : Complexity.Complexity)
    : CapabilityLevel :=
  let floor := for_stakes (capability_floors (_config p)) stakes in
  if bool_decide (complexity ∈ SUBSTANTIAL_COMPLEXITIES) then bump_one floor else floor.

Definition capability_of_pair (p : CapabilityPolicy) (provider model_id : string)
    (claimed : option CapabilityLevel) : option CapabilityLevel :=
  capability_for_pair (_reader p) provider model_id claimed.

Definition capability_of (p : CapabilityPolicy) (m : ModelConfig) : option CapabilityLevel :=
  capability_of_pair p (provider m) (model_id m) (claimed_capability m).

Definition parks_when_lower (p : CapabilityPolicy) (stakes : Stakes.Stakes) : bool :=
  0 <=? compare_stakes stakes (park_min_stakes (_config p)).

Definition _fit (agent required : CapabilityLevel) : CapabilityFit :=
  if bool_decide (agent = required) then fit_match
  else if capability_meets agent required then fit_higher else fit_lower.

Definition judge (p : CapabilityPolicy) (m : ModelConfig) (stakes : Stakes.Stakes)
    (complexity : Complexity.Complexity) : CapabilityVerdict :=
  let required := required_for p stakes complexity in
  match capability_of p m with
  | None => {| verdict_required := required; verdict_agent := None; verdict_fit := fit_lower;
               sanctioned := false; unresolved := true |}
  | Some agent =>
      let fit := _fit agent required in
      {| verdict_required := required; verdict_agent := Some agent; verdict_fit := fit;
         sanctioned := negb (bool_decide (fit = fit_lower)) || negb (parks_when_lower p stakes);
         unresolved := false |}
  end.

Definition reasoning_effort (p : CapabilityPolicy) (stakes : Stakes.Stakes) : option ReasoningEffort :=
  for_stakes (reasoning (_config p)) stakes.

Definition red_team_required (p : CapabilityPolicy) (stakes : Stakes.Stakes) : bool :=
  0 <=? compare_stakes stakes (red_team_min_stakes (_config p)).

Definition is_blank (s : string) : bool := bool_decide (strip s = ""%string).

Definition described_pair_capability (p : option CapabilityPolicy) (provider model_id : string)
    (claimed : option CapabilityLevel) : option CapabilityLevel :=
  if is_blank provider || is_blank model_id then None
  else match p with
       | None => claimed
       | Some p => capability_of_pair p provider model_id claimed
       end.

Definition described_capability (p : option CapabilityPolicy) (m : ModelConfig) : option CapabilityLevel :=
  described_pair_capability p (provider m) (model_id m) (claimed_capability m).

(** The gate of a run: refuse, or say how hard to think. *)
Inductive RunRefusal :=
| StakesModelUnavailableError (stakes : Stakes.Stakes) (required : CapabilityLevel) (was_unresolved : bool).

Definition _check_capability (p : CapabilityPolicy) (m : ModelConfig) (stakes : Stakes.Stakes)
    (complexity : Complexity.Complexity) : result RunRefusal (option ReasoningEffort) :=
  let verdict := judge p m stakes complexity in
  ensure sanctioned verdict
    else StakesModelUnavailableError stakes (verdict_required verdict) (unresolved verdict) in
  Ok (reasoning_effort p stakes).

(** ** Bands *)

Section Bands.
Context {T : Type} (rank : T -> Z) (required_rank : Z).

(** [sorted({...})] and [sorted({...}, reverse=True)] on ranks. *)
Definition ascending_ranks (l : list Z) : list Z := sort_by Z.leb (remove_dups l).
Definition descending_ranks (l : list Z) : list Z := sort_by Z.geb (remove_dups l).

Definition bands_by_fit (candidates : list T) : list (list T * CapabilityFit) :=
  let ranked := (fun c => (rank c, c)) <$> candidates in
  let band r := (filter (fun e => e.1 = r) ranked).*2 in
  let exact := band required_rank in
  (match exact with [] => [] | _ => [(exact, fit_match)] end) ++
  ((fun r => (band r, fit_higher)) <$> ascending_ranks (filter (fun r => required_rank < r) ranked.*1)) ++
  ((fun r => (band r, fit_lower)) <$> descending_ranks (filter (fun r => r < required_rank) ranked.*1)).

Definition partition_by_fit (candidates : list T) : option (list T * CapabilityFit) :=
  head (bands_by_fit candidates).

(** [min(band, key=tie_break)]: the first of the least. *)
Definition best_by_fit (tie_break : T -> string) (candidates : list T) : option (T * CapabilityFit) :=
  match partition_by_fit candidates with
  | None => None
  | Some (band, fit) =>
      match sort_by (fun a b => String.leb (tie_break a) (tie_break b)) band with
      | c :: _ => Some (c, fit)
      | [] => None
      end
  end.
End Bands.

(** ** What the ladder promises *)

Lemma capability_rank_range c : 0 <= capability_rank c <= 2.
Proof. destruct c; vm_compute; by split. Qed.

Lemma capability_rank_inj c c' : capability_rank c = capability_rank c' -> c = c'.
Proof. destruct c, c'; vm_compute; congruence. Qed.

Lemma rank_of_inj c c' : rank_of c = rank_of c' -> c = c'.
Proof.
  destruct c as [c|], c' as [c'|]; simpl; try done.
  - by intros ->%capability_rank_inj.
  - pose proof (capability_rank_range c). lia.
  - pose proof (capability_rank_range c'). lia.
Qed.

Lemma bump_one_spec c : capability_rank (bump_one c) = Z.min (capability_rank c + 1) 2.
Proof. by destruct c. Qed.

Lemma capability_below_spec c :
  match capability_below c with
  | Some c' => capability_rank c' = capability_rank c - 1
  | None => capability_rank c = 0
  end.
Proof. by destruct c. Qed.

(** Work of higher stakes never demands less. *)
Lemma required_for_monotone p s s' complexity :
  _validate_floors_ordered (capability_floors (_config p)) = Ok tt -> compare_stakes s s' <= 0 ->
  capability_rank (required_for p s complexity) <= capability_rank (required_for p s' complexity).
Proof.
  unfold _validate_floors_ordered, non_decreasing. intros Hv Hs.
  apply ensure_ok in Hv as [Hv _]. bool_to_prop. simpl in *.
  assert (Hf : capability_rank (for_stakes (capability_floors (_config p)) s) <=
    capability_rank (for_stakes (capability_floors (_config p)) s')).
  { destruct s, s'; simpl; try lia; vm_compute in Hs; by destruct Hs. }
  unfold required_for. case_bool_decide; [|done]. rewrite !bump_one_spec. lia.
Qed.

(** Who may take work: a graded model, at the rung demanded or above unless the
    stakes allow less. *)
Lemma judge_sanctioned p m s complexity :
  sanctioned (judge p m s complexity) = true <->
  exists c, capability_of p m = Some c /\
    (capability_rank (required_for p s complexity) <= capability_rank c \/ parks_when_lower p s = false).
Proof.
  unfold judge. destruct (capability_of p m) as [c|] eqn:Hc; simpl; [|split; [done|by intros (? & ? & _)]].
  rewrite orb_true_iff, !negb_true_iff, bool_decide_eq_false. unfold _fit, capability_meets.
  case_bool_decide as Heq; simpl.
  - split; [|by left]. intros _. exists c. split; [done|]. left. subst. lia.
  - destruct (capability_rank _ <=? capability_rank c) eqn:Hr; [apply Z.leb_le in Hr|apply Z.leb_gt in Hr].
    + split; [|by left]. intros _. exists c. by split; [|left].
    + split; [intros [?|?]; [done|exists c; by split; [|right]]|]. intros (c' & [= ->] & [?|?]); [lia|by right].
Qed.

Lemma check_capability_exact p m s complexity :
  is_ok (_check_capability p m s complexity) = sanctioned (judge p m s complexity).
Proof. unfold _check_capability. by destruct (sanctioned _). Qed.

Definition fit_of (required r : Z) : CapabilityFit :=
  if r =? required then fit_match else if required <? r then fit_higher else fit_lower.

Definition tier (f : CapabilityFit) : Z := match f with fit_match => 0 | fit_higher => 1 | fit_lower => 2 end.

(** One rung suits work that demands [required] better than another: an exact
    match, else one above, else one below, the nearer the better. *)
Definition suits_better (required a b : Z) : Prop :=
  tier (fit_of required a) < tier (fit_of required b) \/
  tier (fit_of required a) = tier (fit_of required b) /\ Z.abs (a - required) < Z.abs (b - required).

Lemma suits_better_spec required a b :
  suits_better required a b <->
  a = required /\ b <> required \/ required < a /\ (b < required \/ a < b) /\ b <> required \/
  b < a /\ a < required.
Proof.
  unfold suits_better, fit_of.
  destruct (Z.eqb_spec a required), (Z.eqb_spec b required), (Z.ltb_spec required a), (Z.ltb_spec required b);
    simpl; lia.
Qed.

#[export] Instance suits_better_trans required : Transitive (suits_better required).
Proof. intros a b c. unfold suits_better. lia. Qed.

Lemma suits_better_total required a b : a = b \/ suits_better required a b \/ suits_better required b a.
Proof. rewrite !suits_better_spec. lia. Qed.

Section BandLemmas.
Context {T : Type} (rank : T -> Z) (required : Z).
Implicit Types (cs : list T).

Definition rungs cs : list Z :=
  (if bool_decide (required ∈ rank <$> cs) then [required] else []) ++
  ascending_ranks (filter (fun r => required < r) (rank <$> cs)) ++
  descending_ranks (filter (fun r => r < required) (rank <$> cs)).

Definition band_at cs (r : Z) : list T := filter (fun c => rank c = r) cs.

Lemma ascending_elem l r : r ∈ ascending_ranks l <-> r ∈ l.
Proof. unfold ascending_ranks. by rewrite sort_by_elem, elem_of_remove_dups. Qed.

Lemma descending_elem l r : r ∈ descending_ranks l <-> r ∈ l.
Proof. unfold descending_ranks. by rewrite sort_by_elem, elem_of_remove_dups. Qed.

Lemma strictly_sorted (le : Z -> Z -> bool) (lt : Z -> Z -> Prop) l :
  (forall x y, le x y = true -> x <> y -> lt x y) -> NoDup l ->
  StronglySorted (fun x y => le x y = true) l -> StronglySorted lt l.
Proof.
  intros Hlt Hnd. induction 1 as [|x l Hs IH Hx]; [constructor|]. apply NoDup_cons in Hnd as [Hn Hnd].
  constructor; [by apply IH|]. rewrite Forall_forall in *. intros y Hy. apply Hlt; [by apply Hx|congruence].
Qed.

Lemma ascending_sorted l : StronglySorted Z.lt (ascending_ranks l).
Proof.
  apply (strictly_sorted Z.leb); [lia| |apply sort_by_sorted; lia].
  unfold ascending_ranks. rewrite sort_by_perm. apply NoDup_remove_dups.
Qed.

Lemma descending_sorted l : StronglySorted Z.gt (descending_ranks l).
Proof.
  apply (strictly_sorted Z.geb); [lia| |apply sort_by_sorted; lia].
  unfold descending_ranks. rewrite sort_by_perm. apply NoDup_remove_dups.
Qed.

Lemma sorted_app {A} (R : A -> A -> Prop) l1 l2 :
  StronglySorted R l1 -> StronglySorted R l2 -> (forall x y, x ∈ l1 -> y ∈ l2 -> R x y) ->
  StronglySorted R (l1 ++ l2).
Proof.
  induction 1 as [|x l1 Hs IH Hx]; intros H2 Hc; [done|]. simpl. constructor.
  - apply IH; [done|]. intros a b Ha Hb. apply Hc; [by right|done].
  - apply Forall_app. split; [done|]. apply Forall_forall. intros y Hy. apply Hc; [by left|done].
Qed.

Lemma sorted_impl {A} (R R' : A -> A -> Prop) l :
  (forall x y, x ∈ l -> y ∈ l -> R x y -> R' x y) -> StronglySorted R l -> StronglySorted R' l.
Proof.
  intros Himp. induction 1 as [|x l Hs IH Hx]; [constructor|]. constructor.
  - apply IH. intros a b Ha Hb. apply Himp; by right.
  - rewrite Forall_forall in *. intros y Hy. apply Himp; [by left|by right|by apply Hx].
Qed.

Lemma rungs_elem cs r : r ∈ rungs cs <-> exists c, c ∈ cs /\ rank c = r.
Proof.
  transitivity (r ∈ rank <$> cs); [|rewrite list_elem_of_fmap; naive_solver].
  unfold rungs. rewrite !elem_of_app, ascending_elem, descending_elem, !list_elem_of_filter.
  destruct (Z.lt_trichotomy required r) as [?|[<-|?]]; case_bool_decide; rewrite ?list_elem_of_singleton, ?elem_of_nil;
    intuition (try lia; subst; try done).
Qed.

Lemma rungs_sorted cs : StronglySorted (suits_better required) (rungs cs).
Proof.
  apply sorted_app; [by case_bool_decide; repeat constructor|apply sorted_app|].
  - eapply sorted_impl; [|apply ascending_sorted]. intros x y Hx Hy ?.
    rewrite ascending_elem, list_elem_of_filter in Hx, Hy. apply suits_better_spec. lia.
  - eapply sorted_impl; [|apply descending_sorted]. intros x y Hx Hy ?.
    rewrite descending_elem, list_elem_of_filter in Hx, Hy. apply suits_better_spec. lia.
  - intros x y. rewrite ascending_elem, descending_elem, !list_elem_of_filter, suits_better_spec. lia.
  - intros x y Hx. rewrite elem_of_app, ascending_elem, descending_elem, !list_elem_of_filter, suits_better_spec.
    case_bool_decide; [apply list_elem_of_singleton in Hx as ->|by apply elem_of_nil in Hx]. lia.
Qed.

Lemma ranked_band cs r : (filter (fun e => e.1 = r) ((fun c => (rank c, c)) <$> cs)).*2 = band_at cs r.
Proof.
  unfold band_at. induction cs as [|c cs IH]; [done|]. rewrite fmap_cons, !filter_cons. cbn [fst].
  by case_decide; rewrite ?fmap_cons; cbn [snd]; rewrite IH.
Qed.

Lemma band_at_nonempty cs r : band_at cs r <> [] <-> exists c, c ∈ cs /\ rank c = r.
Proof.
  unfold band_at. rewrite filter_nil_iff. split; [|naive_solver]. intros Hn.
  destruct (decide (Exists (fun c => rank c = r) cs)) as [(c & ? & ?)%Exists_exists|Hne]; [eauto|].
  destruct Hn. intros c Hc Hr. apply Hne, Exists_exists. eauto.
Qed.

(** The bands are the rungs at which somebody is, best first. *)
Lemma bands_by_fit_rungs cs :
  bands_by_fit rank required cs = (fun r => (band_at cs r, fit_of required r)) <$> rungs cs.
Proof.
  unfold bands_by_fit, rungs. rewrite !fmap_app, <-!list_fmap_compose.
  assert (Hids : (fst ∘ (fun c => (rank c, c))) <$> cs = rank <$> cs) by (by apply list_fmap_ext).
  rewrite Hids. f_equal; [|f_equal].
  - rewrite ranked_band. case_bool_decide as Hr.
    + apply list_elem_of_fmap in Hr as (c & Hc & Hin). unfold fit_of. simpl. rewrite Z.eqb_refl.
      assert (band_at cs required <> []) by (apply band_at_nonempty; eauto). by destruct (band_at cs required).
    + destruct (band_at cs required) as [|c l] eqn:Hb; [done|]. destruct Hr.
      assert (band_at cs required <> []) as (c' & Hc & <-)%band_at_nonempty by by rewrite Hb.
      by apply list_elem_of_fmap_2.
  - apply list_fmap_ext. intros i r Hr%list_elem_of_lookup_2. rewrite ascending_elem, list_elem_of_filter in Hr.
    rewrite ranked_band. unfold fit_of. by destruct (Z.eqb_spec r required), (Z.ltb_spec required r); try lia.
  - apply list_fmap_ext. intros i r Hr%list_elem_of_lookup_2. rewrite descending_elem, list_elem_of_filter in Hr.
    rewrite ranked_band. unfold fit_of. by destruct (Z.eqb_spec r required), (Z.ltb_spec required r); try lia.
Qed.

(** The head of the ladder is the best rung anybody is at. *)
Lemma partition_by_fit_best cs :
  match partition_by_fit rank required cs with
  | None => cs = []
  | Some (band, fit) => exists r, band = band_at cs r /\ fit = fit_of required r /\ band <> [] /\
      forall c, c ∈ cs -> rank c = r \/ suits_better required r (rank c)
  end.
Proof.
  unfold partition_by_fit. rewrite bands_by_fit_rungs. pose proof (rungs_sorted cs) as Hs.
  pose proof (rungs_elem cs) as He. destruct (rungs cs) as [|r rs]; simpl.
  - destruct cs as [|c cs]; [done|]. assert (Hn : rank c ∈ []) by (apply He; exists c; by split; [left|]). by apply elem_of_nil in Hn.
  - apply StronglySorted_inv in Hs as [_ Hr]. rewrite Forall_forall in Hr. exists r. split; [done|]. split; [done|]. split.
    + apply band_at_nonempty, He. by left.
    + intros c Hc. assert (rank c ∈ r :: rs) as [->|?]%elem_of_cons by (apply He; eauto); [by left|].
      right. by apply Hr.
Qed.
End BandLemmas.
