(* ===== verification/Hierarchy.v ===== *)
(** * Hierarchy

    [communication/hierarchy.py]: the reporting lines of a company, resolved
    from departments, teams and explicit lines of [core/company_departments.py],
    the cycle check, and the walks up the hierarchy. A department is what the
    resolver reads of it. *)

From stdpp Require Import gmap strings list sorting relations.
From Stdlib Require Import ZArith Lia.
From S2P Require Import Prelude Graphs ToolPermissions.
#[local] Open Scope nat_scope.
#[local] Open Scope py_scope.

(** ** Departments *)

Record Team := { team_name : string; lead : string; members : list string }.

Record ReportingLine := {
  subordinate : string;
  supervisor : string;
  subordinate_id : option string;
  supervisor_id : option string;
}.

Record Department := {
  department_name : string;
  department_head : option string;
  head_id : option string;
  teams : list Team;
  reporting_lines : list ReportingLine;
}.

Definition subordinate_key (l : ReportingLine) : string :=
  match subordinate_id l with Some i => i | None => subordinate l end.

Definition supervisor_key (l : ReportingLine) : string :=
  match supervisor_id l with Some i => i | None => supervisor l end.

(** [("id", ...)] or [("name", ...)]. *)
Definition _identity_key (name : string) (id_ : option string) : bool * string :=
  match id_ with
  | Some i => (true, normalize_identifier i)
  | None => (false, normalize_identifier name)
  end.

(** [_validate_not_self_report]. *)
Definition line_ok (l : ReportingLine) : bool :=
  negb (bool_decide (_identity_key (subordinate l) (subordinate_id l) =
    _identity_key (supervisor l) (supervisor_id l))).

(** [_validate_no_duplicate_members]. *)
Definition team_ok (t : Team) : bool := bool_decide (NoDup (normalize_identifier <$> members t)).

(** [_validate_head_id_requires_head], [_validate_unique_team_names],
    [_validate_unique_subordinates]. *)
Definition department_ok (d : Department) : bool :=
  (bool_decide (head_id d = None) || bool_decide (is_Some (department_head d))) &&
  bool_decide (NoDup (normalize_identifier <$> (team_name <$> teams d))) &&
  bool_decide (NoDup ((fun l => _identity_key (subordinate l) (subordinate_id l)) <$> reporting_lines d)) &&
  forallb team_ok (teams d) && forallb line_ok (reporting_lines d).

(** ** The resolver *)

Record HierarchyResolver := {
  _supervisor_of : list (string * string);
  _reports_of : list (string * list string);
}.

Inductive HierarchyError := HierarchyResolutionError (agent cycle_at : string).

(** [supervisor_of[sub] = sup; reports_of.setdefault(sup, []).append(sub)]. *)
Definition link (sub sup : string) (h : HierarchyResolver) : HierarchyResolver := {|
  _supervisor_of := dict_set sub sup (_supervisor_of h);
  _reports_of := dict_set sup (default [] (dict_get sup (_reports_of h)) ++ [sub]) (_reports_of h);
|}.

Definition known_sub (sub : string) (h : HierarchyResolver) : bool :=
  bool_decide (is_Some (dict_get sub (_supervisor_of h))).

Definition add_lead (head : option string) (t : Team) (h : HierarchyResolver) : HierarchyResolver :=
  match head with
  | Some head =>
      if negb (bool_decide (head = ""%string)) && negb (bool_decide (lead t = head)) && negb (known_sub (lead t) h)
      then link (lead t) head h else h
  | None => h
  end.

Definition add_member (t : Team) (h : HierarchyResolver) (member : string) : HierarchyResolver :=
  if bool_decide (member = lead t) then h
  else if known_sub member h then h else link member (lead t) h.

Definition add_team (head : option string) (h : HierarchyResolver) (t : Team) : HierarchyResolver :=
  foldl (add_member t) (add_lead head t h) (members t).

Definition add_line (h : HierarchyResolver) (l : ReportingLine) : HierarchyResolver :=
  let sub := subordinate_key l in
  let sup := supervisor_key l in
  let old_sup := dict_get sub (_supervisor_of h) in
  if bool_decide (old_sup = Some sup) then h
  else link sub sup
    match old_sup with
    | Some old =>
        let old_reports := default [] (dict_get old (_reports_of h)) in
        {| _supervisor_of := _supervisor_of h;
           _reports_of := dict_set old (filter (fun r => r <> sub) old_reports) (_reports_of h) |}
    | None => h
    end.

Definition add_department (h : HierarchyResolver) (d : Department) : HierarchyResolver :=
  foldl add_line (foldl (add_team (department_head d)) h (teams d)) (reporting_lines d).

Definition add_departments (ds : list Department) : HierarchyResolver :=
  foldl add_department {| _supervisor_of := []; _reports_of := [] |} ds.

(** The [while] of [_detect_cycles]: the names on the way, or where it closes. *)
Fixpoint chase (fuel : nat) (supervisor_of : list (string * string)) (agent : string) (visited in_stack : gset string)
    (current : option string) : result HierarchyError (gset string) :=
  match fuel, current with
  | S fuel, Some c =>
      if bool_decide (c ∈ visited) then Ok in_stack
      else if bool_decide (c ∈ in_stack) then Err (HierarchyResolutionError agent c)
      else chase fuel supervisor_of agent visited ({[c]} ∪ in_stack) (dict_get c supervisor_of)
  | _, _ => Ok in_stack
  end.

(** Every turn of the [while] puts a new name on the stack. *)
Definition walk_fuel (supervisor_of : list (string * string)) : nat := 2 + length supervisor_of.

Fixpoint detect_loop (supervisor_of : list (string * string)) (visited : gset string) (agents : list string)
    : result HierarchyError unit :=
  match agents with
  | [] => Ok tt
  | a :: agents =>
      if bool_decide (a ∈ visited) then detect_loop supervisor_of visited agents
      else let* in_stack := chase (walk_fuel supervisor_of) supervisor_of a visited ∅ (Some a) in
           detect_loop supervisor_of (visited ∪ in_stack) agents
  end.

Definition _detect_cycles (supervisor_of : list (string * string)) : result HierarchyError unit :=
  detect_loop supervisor_of ∅ supervisor_of.*1.

Definition new_resolver (departments : list Department) : result HierarchyError HierarchyResolver :=
  let h := add_departments departments in
  let* _ := _detect_cycles (_supervisor_of h) in
  Ok h.

Definition _known_agents (h : HierarchyResolver) : gset string :=
  list_to_set ((_supervisor_of h).*1 ++ (_supervisor_of h).*2 ++ (_reports_of h).*1).

Definition get_supervisor (h : HierarchyResolver) (agent : string) : option string := dict_get agent (_supervisor_of h).

Definition get_direct_reports (h : HierarchyResolver) (agent : string) : list string :=
  default [] (dict_get agent (_reports_of h)).

Definition is_direct_report (h : HierarchyResolver) (sup sub : string) : bool :=
  bool_decide (sub ∈ get_direct_reports h sup).

(** The walks go up until the top; the names on the way are distinct. *)
Fixpoint climb (fuel : nat) (h : HierarchyResolver) (current : string) : list string :=
  match fuel, dict_get current (_supervisor_of h) with
  | S fuel, Some up => up :: climb fuel h up
  | _, _ => []
  end.

Definition get_ancestors (h : HierarchyResolver) (agent : string) : list string :=
  climb (walk_fuel (_supervisor_of h)) h agent.

Fixpoint is_above (fuel : nat) (h : HierarchyResolver) (sup current : string) : bool :=
  match fuel, dict_get current (_supervisor_of h) with
  | S fuel, Some up => if bool_decide (up = sup) then true else is_above fuel h sup up
  | _, _ => false
  end.

Definition is_subordinate (h : HierarchyResolver) (sup sub : string) : bool :=
  is_above (walk_fuel (_supervisor_of h)) h sup sub.

Fixpoint depth_loop (fuel : nat) (h : HierarchyResolver) (from current : string) (depth : nat) : option nat :=
  match fuel, dict_get current (_supervisor_of h) with
  | S fuel, Some up => if bool_decide (up = from) then Some (S depth) else depth_loop fuel h from up (S depth)
  | _, _ => None
  end.

Definition get_delegation_depth (h : HierarchyResolver) (from to : string) : option nat :=
  depth_loop (walk_fuel (_supervisor_of h)) h from to 0.

Definition get_lowest_common_manager (h : HierarchyResolver) (a b : string) : option string :=
  if bool_decide (a = b) then (if bool_decide (a ∈ _known_agents h) then Some a else None)
  else
    let ancestors_a := get_ancestors h a in
    let ancestors_b := get_ancestors h b in
    if bool_decide (a ∈ ancestors_b) then Some a
    else if bool_decide (b ∈ ancestors_a) then Some b
    else head (filter (fun x => x ∈ ancestors_b) ancestors_a).

(** ** Both directions agree *)

Record links_ok (h : HierarchyResolver) : Prop := {
  links_keys : NoDup (_supervisor_of h).*1;
  links_agree sub sup : get_supervisor h sub = Some sup <-> sub ∈ get_direct_reports h sup;
  links_once sup : NoDup (get_direct_reports h sup);
}.

Lemma get_supervisor_link sub sup h x :
  get_supervisor (link sub sup h) x = if decide (x = sub) then Some sup else get_supervisor h x.
Proof. unfold get_supervisor. simpl. case_decide; [subst; apply dict_get_set_eq|by apply dict_get_set_ne]. Qed.

Lemma get_direct_reports_link sub sup h s :
  get_direct_reports (link sub sup h) s =
  if decide (s = sup) then get_direct_reports h s ++ [sub] else get_direct_reports h s.
Proof.
  unfold get_direct_reports. simpl. case_decide; [subst; by rewrite dict_get_set_eq|by rewrite dict_get_set_ne].
Qed.

Lemma link_ok sub sup h : links_ok h -> get_supervisor h sub = None -> links_ok (link sub sup h).
Proof.
  intros [Hk Ha Ho] Hn. split.
  - by apply dict_set_NoDup.
  - intros x s. rewrite get_supervisor_link, get_direct_reports_link. repeat case_decide; subst.
    + rewrite elem_of_app, list_elem_of_singleton. naive_solver.
    + rewrite <-Ha. naive_solver.
    + rewrite elem_of_app, list_elem_of_singleton, Ha. naive_solver.
    + apply Ha.
  - intros s. rewrite get_direct_reports_link. case_decide; [subst|apply Ho]. apply NoDup_app.
    split_and!; [apply Ho| |apply NoDup_singleton]. intros x Hx ->%list_elem_of_singleton.
    apply Ha in Hx. congruence.
Qed.

Lemma known_sub_false sub h : known_sub sub h = false <-> get_supervisor h sub = None.
Proof.
  unfold known_sub, get_supervisor. rewrite bool_decide_eq_false. destruct (dict_get _ _); [|naive_solver].
  split; [intros []; eauto|done].
Qed.

Lemma add_team_ok head h t : links_ok h -> links_ok (add_team head h t).
Proof.
  intros Hh. unfold add_team. assert (H1 : links_ok (add_lead head t h)).
  { unfold add_lead. destruct head as [hd|]; [|done]. destruct (_ && _) eqn:Hc; [|done].
    apply andb_prop in Hc as [_ Hc]. apply negb_true_iff, known_sub_false in Hc. by apply link_ok. }
  revert H1. generalize (add_lead head t h). induction (members t) as [|m ms IH]; intros h' H'; simpl; [done|].
  apply IH. unfold add_member. case_bool_decide; [done|]. destruct (known_sub m h') eqn:Hk; [done|].
  apply link_ok; [done|by apply known_sub_false].
Qed.

(** A line first takes the subordinate away from whom it reported to. *)
Lemma add_line_ok h l : links_ok h -> links_ok (add_line h l).
Proof.
  intros [Hk Ha Ho]. unfold add_line. set (sub := subordinate_key l). set (sup := supervisor_key l).
  change (dict_get sub (_supervisor_of h)) with (get_supervisor h sub).
  case_bool_decide as Hs; [by split|]. destruct (get_supervisor h sub) as [old|] eqn:Hold; [|by apply link_ok].
  split; simpl.
  - by apply dict_set_NoDup.
  - intros x s. rewrite get_supervisor_link, get_direct_reports_link. unfold get_supervisor at 1, get_direct_reports. simpl.
    destruct (decide (s = old)) as [->|Hne].
    + rewrite dict_get_set_eq. simpl. fold (get_direct_reports h old). rewrite (decide_False (P:=old = sup)) by congruence.
      rewrite list_elem_of_filter, <-Ha. unfold get_supervisor. case_decide; naive_solver.
    + rewrite dict_get_set_ne by done. fold (get_direct_reports h s). fold (get_supervisor h x).
      repeat case_decide; subst; rewrite ?elem_of_app, ?list_elem_of_singleton, <-?Ha; naive_solver.
  - intros s. rewrite get_direct_reports_link. unfold get_direct_reports. simpl.
    destruct (decide (s = old)) as [->|Hne].
    + rewrite dict_get_set_eq. simpl. fold (get_direct_reports h old). rewrite decide_False by congruence.
      apply NoDup_filter, Ho.
    + rewrite dict_get_set_ne by done. fold (get_direct_reports h s). case_decide; [subst|apply Ho].
      apply NoDup_app. split_and!; [apply Ho| |apply NoDup_singleton]. intros x Hx ->%list_elem_of_singleton.
      apply Ha in Hx. congruence.
Qed.

Lemma foldl_keeps {A B} (P : A -> Prop) (f : A -> B -> A) l a :
  (forall a b, P a -> P (f a b)) -> P a -> P (foldl f a l).
Proof. intros Hf. revert a. induction l as [|b l IH]; intros a Ha; [done|]. by apply IH, Hf. Qed.

Lemma add_departments_ok ds : links_ok (add_departments ds).
Proof.
  unfold add_departments. apply (foldl_keeps links_ok).
  - intros h d Hh. unfold add_department. apply (foldl_keeps links_ok); [by intros; apply add_line_ok|].
    apply (foldl_keeps links_ok); [by intros; apply add_team_ok|done].
  - split; [constructor|intros sub sup; split; [done|by intros ?%elem_of_nil]|intros sup; constructor].
Qed.

(** ** Up the hierarchy *)

Definition above (h : HierarchyResolver) (x : string) : list string := option_list (get_supervisor h x).

Lemma above_edge h x y : edge (above h) x y <-> get_supervisor h x = Some y.
Proof. unfold edge, above. destruct (get_supervisor h x); simpl; set_solver. Qed.

Section Walks.
Context (h : HierarchyResolver).
#[local] Notation up := (edge (above h)).

(** All the names above one, the nearest first. *)
Inductive chain : string -> list string -> Prop :=
| chain_top x : get_supervisor h x = None -> chain x []
| chain_up x y l : get_supervisor h x = Some y -> chain y l -> chain x (y :: l).

Lemma chain_sn x l : chain x l -> sn up x.
Proof. induction 1 as [x Hx|x y l Hx _ IH]; constructor; intros z Hz%above_edge; congruence. Qed.

Lemma chain_lookup x l n y : chain x l -> l !! n = Some y <-> nsteps up (S n) x y.
Proof.
  intros Hc. revert n. induction Hc as [x Hx|x u l Hx Hc IH]; intros n.
  - split; [done|]. intros Hs. inversion Hs as [|? ? z ? Hz]; subst. apply above_edge in Hz. congruence.
  - destruct n as [|n]; simpl.
    + split; [intros [= ->]; apply nsteps_once, above_edge, Hx|]. intros Hs%nsteps_once_inv%above_edge. congruence.
    + rewrite IH. split; [intros Hs; econstructor; [by apply above_edge|done]|].
      intros Hs. inversion Hs as [|? ? z ? Hz]; subst. apply above_edge in Hz. congruence.
Qed.

Lemma chain_elem x l y : chain x l -> y ∈ l <-> tc up x y.
Proof.
  intros Hc. split.
  - intros (n & Hn)%list_elem_of_lookup. apply (chain_lookup _ _ _ _ Hc) in Hn. apply tc_nsteps. exists (S n). by split; [lia|].
  - intros (n & Hn & Hs)%tc_nsteps. destruct n as [|n]; [lia|]. apply (chain_lookup _ _ _ _ Hc) in Hs.
    by eapply list_elem_of_lookup_2.
Qed.

Lemma climb_above fuel x y : y ∈ climb fuel h x -> tc up x y.
Proof.
  revert x. induction fuel as [|fuel IH]; intros x; simpl; [by intros ?%elem_of_nil|].
  fold (get_supervisor h x). destruct (get_supervisor h x) as [u|] eqn:Hu; [|by intros ?%elem_of_nil].
  assert (up x u) by by apply above_edge.
  intros [->|Hy]%elem_of_cons; [by apply tc_once|]. eapply tc_l; [done|by apply IH].
Qed.

Lemma climb_keys fuel x : exists l z, x :: climb fuel h x = l ++ [z] /\ l ⊆ (_supervisor_of h).*1.
Proof.
  revert x. induction fuel as [|fuel IH]; intros x; simpl; [exists [], x; by split; [|set_solver]|].
  destruct (dict_get x _) as [u|] eqn:Hu; [|exists [], x; by split; [|set_solver]].
  destruct (IH u) as (l & z & Hl & Hs). exists (x :: l), z. split; [by rewrite Hl|].
  intros y [->|Hy]%elem_of_cons; [|by apply Hs]. apply dict_get_elem, (list_elem_of_fmap_2 fst) in Hu. done.
Qed.

Lemma climb_chain fuel x : chain x (climb fuel h x) \/ length (climb fuel h x) = fuel.
Proof.
  revert x. induction fuel as [|fuel IH]; intros x; [by right|]. simpl. fold (get_supervisor h x).
  destruct (get_supervisor h x) as [u|] eqn:Hu; [|left; by constructor].
  destruct (IH u) as [Hc|Hc]; [left; by constructor|right; simpl; lia].
Qed.

Context (Hac : acyclic (above h)).

(** Without a cycle the fuel is enough. *)
Lemma ancestors_chain x : chain x (get_ancestors h x).
Proof.
  assert (Hnd : forall fuel y, NoDup (y :: climb fuel h y)).
  { induction fuel as [|fuel IH]; intros y; simpl; [apply NoDup_singleton|].
    destruct (dict_get y _) as [u|] eqn:Hu; [|apply NoDup_singleton].
    constructor; [|apply IH]. intros Hy. apply (Hac y). apply (climb_above (S fuel)). simpl. by rewrite Hu. }
  unfold get_ancestors. assert (Hf : length (_supervisor_of h) < walk_fuel (_supervisor_of h)) by (unfold walk_fuel; lia).
  revert Hf. generalize (walk_fuel (_supervisor_of h)) as fuel. intros fuel Hf.
  destruct (climb_chain fuel x) as [|Hlen]; [done|exfalso].
  destruct (climb_keys fuel x) as (l & z & Hl & Hs). specialize (Hnd fuel x).
  rewrite Hl in Hnd. apply NoDup_app in Hnd as [Hnd _]. apply (f_equal length) in Hl.
  rewrite length_app, length_cons in Hl. simpl in Hl. apply NoDup_submseteq, submseteq_length in Hs; [|done].
  rewrite length_fmap in Hs. lia.
Qed.

Lemma is_above_climb fuel s x : is_above fuel h s x = bool_decide (s ∈ climb fuel h x).
Proof.
  revert x. induction fuel as [|fuel IH]; intros x; simpl; [done|]. destruct (dict_get x _) as [u|]; [|done].
  case_bool_decide as Hu; subst; [symmetry; apply bool_decide_eq_true; by left|]. rewrite IH.
  apply bool_decide_ext. rewrite elem_of_cons. naive_solver.
Qed.

Lemma is_subordinate_tc s x : is_subordinate h s x = true <-> tc up x s.
Proof.
  unfold is_subordinate. rewrite is_above_climb, bool_decide_eq_true. apply chain_elem, ancestors_chain.
Qed.

(** Names above one are apart, so a depth is the only one. *)
Lemma depth_loop_spec fuel s x d :
  depth_loop fuel h s x d =
  (if bool_decide (s ∈ climb fuel h x) then Some (S (d + index_of s (climb fuel h x))) else None).
Proof.
  revert x d. induction fuel as [|fuel IH]; intros x d; simpl; [done|]. destruct (dict_get x _) as [u|]; [|done].
  case_bool_decide as Hu; subst.
  - rewrite bool_decide_true by by left. simpl. rewrite decide_True by done. f_equal. lia.
  - rewrite IH. simpl. rewrite decide_False by congruence. case_bool_decide as Hin.
    + rewrite bool_decide_true by by right. f_equal. lia.
    + rewrite bool_decide_false; [done|]. rewrite elem_of_cons. naive_solver.
Qed.

Lemma chain_nodup x l : chain x l -> NoDup l.
Proof.
  induction 1 as [|x y l Hx Hc IH]; constructor; [|done].
  intros Hy. apply (Hac y). by apply (chain_elem y l).
Qed.

Lemma delegation_depth_exact s x n :
  get_delegation_depth h s x = Some n <-> 0 < n /\ nsteps up n x s.
Proof.
  unfold get_delegation_depth. rewrite depth_loop_spec. fold (get_ancestors h x). pose proof (ancestors_chain x) as Hc.
  split.
  - case_bool_decide as Hin; [|done]. intros [= <-]. split; [lia|]. apply (chain_lookup _ _ _ _ Hc). by apply index_of_lookup.
  - intros [Hn Hs]. destruct n as [|n]; [lia|]. apply (chain_lookup _ _ _ _ Hc) in Hs.
    assert (Hin : s ∈ get_ancestors h x) by by eapply list_elem_of_lookup_2. rewrite bool_decide_true by done.
    do 2 f_equal. eapply NoDup_lookup; [by eapply chain_nodup| |done]. by apply index_of_lookup.
Qed.

(** The lowest manager of two: above or at both, and below every other. *)
Definition lowest_common (a b m : string) : Prop :=
  rtc up a m /\ rtc up b m /\ forall m', rtc up a m' -> rtc up b m' -> rtc up m m'.

Lemma chain_after x l1 y l2 z : chain x (l1 ++ y :: l2) -> z ∈ l2 -> tc up y z.
Proof.
  revert x. induction l1 as [|u l1 IH]; intros x Hc Hz; simpl in Hc; inversion Hc; subst.
  - by apply (chain_elem y l2).
  - by eapply IH.
Qed.

Lemma rtc_above x y : rtc up x y <-> y = x \/ y ∈ get_ancestors h x.
Proof.
  rewrite (chain_elem _ _ _ (ancestors_chain x)). split.
  - intros [->|Ht]%rtc_tc; [by left|by right].
  - intros [->|Ht]; [done|by apply tc_rtc].
Qed.

Lemma common_manager_exact a b :
  a <> b ->
  match get_lowest_common_manager h a b with
  | Some m => lowest_common a b m
  | None => forall m, ~ (rtc up a m /\ rtc up b m)
  end.
Proof.
  intros Hne. unfold get_lowest_common_manager. rewrite bool_decide_false by done.
  case_bool_decide as Ha; [split_and!; [done|by apply rtc_above; right|by intros]|].
  case_bool_decide as Hb; [split_and!; [by apply rtc_above; right|done|by intros]|].
  assert (Hboth : forall m, rtc up a m -> rtc up b m -> m ∈ get_ancestors h a /\ m ∈ get_ancestors h b).
  { intros m. rewrite !rtc_above. intros [->|H1] [->|H2]; naive_solver. }
  destruct (head _) as [m|] eqn:Hm.
  - destruct (filter _ _) as [|m' ms] eqn:Hf; [done|]. injection Hm as ->.
    assert (Hin : m ∈ filter (fun x => x ∈ get_ancestors h b) (get_ancestors h a)) by (rewrite Hf; by left).
    apply list_elem_of_filter in Hin as [Hmb Hma]. split_and!; [by apply rtc_above; right|by apply rtc_above; right|].
    intros m' H1 H2. destruct (Hboth m' H1 H2) as [Ha' Hb'].
    assert (Hx : m' ∈ m :: ms) by (rewrite <-Hf; by apply list_elem_of_filter).
    apply elem_of_cons in Hx as [->|Hx]; [done|].
    pose proof (ancestors_chain a) as Hc. apply list_elem_of_split in Hma as (l1 & l2 & Hl). rewrite Hl in Hf, Hc, Ha'.
    apply tc_rtc. eapply (chain_after a l1 m l2); [done|].
    rewrite filter_app, filter_cons, decide_True in Hf by done.
    assert (Hl1 : filter (fun x => x ∈ get_ancestors h b) l1 = []).
    { destruct (filter _ l1) as [|x l] eqn:Hf1; [done|]. simpl in Hf. injection Hf as -> _.
      pose proof (chain_nodup _ _ Hc) as (_ & Hd & _)%NoDup_app. exfalso. apply (Hd m); [|by left].
      assert (m ∈ filter (fun x => x ∈ get_ancestors h b) l1) as [_ ?]%list_elem_of_filter by (rewrite Hf1; by left). done. }
    rewrite Hl1 in Hf. simpl in Hf. injection Hf as Hf. rewrite <-Hf in Hx. by apply list_elem_of_filter in Hx as [_ ?].
  - intros m [H1 H2]. destruct (Hboth m H1 H2) as [Ha' Hb'].
    assert (Hx : m ∈ filter (fun x => x ∈ get_ancestors h b) (get_ancestors h a)) by by apply list_elem_of_filter.
    destruct (filter _ _); [by apply elem_of_nil in Hx|done].
Qed.
End Walks.

(** ** The cycle check *)

Section Detect.
Context (h : HierarchyResolver).
#[local] Notation up := (edge (above h)).
#[local] Notation sups := (_supervisor_of h).
#[local] Notation keys := (list_to_set sups.*1 : gset string).

Definition ends (x : string) : Prop := exists l, chain h x l.

Lemma ends_up x : ends x <-> match get_supervisor h x with Some y => ends y | None => True end.
Proof.
  split.
  - intros (l & Hl). destruct Hl as [x Hx|x y l Hx Hl]; rewrite Hx; [done|by exists l].
  - destruct (get_supervisor h x) as [y|] eqn:Hx; [intros (l & Hl); exists (y :: l)|intros _; exists []]; by constructor.
Qed.

(** Who has no supervisor is not a key. *)
Lemma key_iff x : x ∈ keys <-> is_Some (get_supervisor h x).
Proof.
  rewrite elem_of_list_to_set. unfold get_supervisor. pose proof (dict_get_None x sups) as Hn.
  destruct (dict_get x sups) as [y|]; [|split; [intros Hx|intros []; done]].
  - split; [eauto|]. intros _. destruct (decide (x ∈ sups.*1)); [done|]. by apply Hn in n.
  - by destruct (proj1 Hn eq_refl).
Qed.

Lemma chase_ok fuel agent visited stack current :
  (forall x, x ∈ visited -> ends x) ->
  (forall s c, s ∈ stack -> current = Some c -> tc up s c) ->
  (current <> None -> stack ⊆ keys /\ S (size keys) < fuel + size stack) ->
  ((match current with Some c => ends c | None => True end) -> forall s, s ∈ stack -> ends s) ->
  match chase fuel sups agent visited stack current with
  | Ok stack' => stack ⊆ stack' /\ (forall s, s ∈ stack' -> ends s) /\
      match current with Some c => c ∈ visited ∪ stack' | None => True end
  | Err (HierarchyResolutionError _ c) => tc up c c
  end.
Proof.
  intros Hv. revert stack current. induction fuel as [|fuel IH]; intros stack current Hpath Hfuel Hends; simpl.
  - destruct current as [c|]; [|by split_and!; [|apply Hends|]]. destruct Hfuel as [Hsub Hsize]; [done|].
    apply subseteq_size in Hsub. lia.
  - destruct current as [c|]; [|by split_and!; [|apply Hends|]].
    case_bool_decide as Hcv.
    { split_and!; [done|apply Hends; by apply Hv|set_solver]. }
    case_bool_decide as Hcs; [by apply (Hpath c c)|].
    fold (get_supervisor h c). specialize (IH ({[c]} ∪ stack) (get_supervisor h c)).
    destruct (chase _ _ _ _ _ _) as [st|[ag c']].
    + destruct IH as (Hs & He & _); [..|by split_and!; set_solver].
      * intros s c' Hs Hc'. assert (up c c') by by apply above_edge.
        apply elem_of_union in Hs as [->%elem_of_singleton|Hs]; [by apply tc_once|].
        eapply tc_r; [by apply Hpath|done].
      * intros Hn. destruct Hfuel as [Hsub Hsize]; [done|]. split.
        -- apply union_subseteq. split; [|done]. apply singleton_subseteq_l, key_iff.
           by destruct (get_supervisor h c).
        -- rewrite size_union, size_singleton by set_solver. lia.
      * intros Hc s Hs. apply ends_up in Hc. apply elem_of_union in Hs as [->%elem_of_singleton|Hs]; [done|].
        by apply Hends.
    + apply IH.
      * intros s c'' Hs Hc'. assert (up c c'') by by apply above_edge.
        apply elem_of_union in Hs as [->%elem_of_singleton|Hs]; [by apply tc_once|].
        eapply tc_r; [by apply Hpath|done].
      * intros Hn. destruct Hfuel as [Hsub Hsize]; [done|]. split.
        -- apply union_subseteq. split; [|done]. apply singleton_subseteq_l, key_iff.
           by destruct (get_supervisor h c).
        -- rewrite size_union, size_singleton by set_solver. lia.
      * intros Hc s Hs. apply ends_up in Hc. apply elem_of_union in Hs as [->%elem_of_singleton|Hs]; [done|].
        by apply Hends.
Qed.

Lemma keys_size (l : list string) : size (list_to_set l : gset string) <= length l.
Proof.
  induction l as [|x l IH]; [done|]. simpl. rewrite union_comm_L.
  pose proof (size_union_singleton (list_to_set l : gset string) x). lia.
Qed.

Lemma walk_fuel_enough : S (size keys) < walk_fuel sups + size (∅ : gset string).
Proof.
  unfold walk_fuel. pose proof (keys_size sups.*1) as Hs. rewrite length_fmap in Hs. lia.
Qed.

Lemma detect_loop_ok visited agents :
  (forall x, x ∈ visited -> ends x) ->
  match detect_loop sups visited agents with
  | Ok _ => forall x, x ∈ agents -> ends x
  | Err (HierarchyResolutionError _ c) => tc up c c
  end.
Proof.
  revert visited. induction agents as [|a agents IH]; intros visited Hv; cbn [detect_loop]; [by intros x ?%elem_of_nil|].
  case_bool_decide as Ha.
  - specialize (IH visited Hv). destruct (detect_loop _ _ _) as [u|[ag c]]; [|done].
    intros x [->|Hx]%elem_of_cons; [by apply Hv|by apply IH].
  - pose proof (chase_ok (walk_fuel sups) a visited ∅ (Some a) Hv) as Hc.
    destruct (chase _ _ _ _ _ _) as [st|[ag c]]; cbn [rbind].
    + destruct Hc as (_ & Hst & Hin); [set_solver|split; [set_solver|apply walk_fuel_enough]|set_solver|].
      assert (Hv' : forall x, x ∈ visited ∪ st -> ends x) by (intros x [?|?]%elem_of_union; auto).
      specialize (IH (visited ∪ st) Hv'). destruct (detect_loop _ _ _) as [u|[ag c]]; [|done].
      intros x [->|Hx]%elem_of_cons; [by apply Hv'|by apply IH].
    + apply Hc; [set_solver|split; [set_solver|apply walk_fuel_enough]|set_solver].
Qed.

Lemma detect_cycles_exact :
  match _detect_cycles sups with
  | Ok _ => acyclic (above h)
  | Err (HierarchyResolutionError _ c) => tc up c c
  end.
Proof.
  unfold _detect_cycles. assert (Hv : forall x, x ∈ (∅ : gset string) -> ends x) by (intros x Hx; by apply elem_of_empty in Hx).
  pose proof (detect_loop_ok ∅ sups.*1 Hv) as Hd. clear Hv. destruct (detect_loop _ _ _) as [u|[ag c]]; [|done].
  intros x Hx. assert (Hk : x ∈ keys).
  { apply key_iff. assert (exists y, up x y) as [y Hy] by (inversion Hx; eauto).
    apply above_edge in Hy. by exists y. }
  apply elem_of_list_to_set in Hk. destruct (Hd x Hk) as (l & Hl).
  by eapply sn_no_cycle; [by eapply chain_sn|].
Qed.
End Detect.

(** A hierarchy that is built answers from the links. *)
Lemma resolver_laws departments h :
  new_resolver departments = Ok h ->
  (forall sub sup, get_supervisor h sub = Some sup <-> sub ∈ get_direct_reports h sup) /\
  (forall sup sub, is_subordinate h sup sub = true <-> tc (edge (above h)) sub sup).
Proof.
  unfold new_resolver. pose proof (detect_cycles_exact (add_departments departments)) as Hd.
  pose proof (add_departments_ok departments) as [_ Ha _]. destruct (_detect_cycles _) as [u|[ag c]]; simpl; [|done].
  intros [= <-]. split; [done|]. by intros; apply is_subordinate_tc.
Qed.

(** C31: the hierarchy is a forest: departments whose lines close a cycle are
    refused with a name on one, and no others; in the hierarchy that is built
    both directions agree, the walks up end, subordinates are those below at any
    depth, a delegation depth is the number of steps and the only one, and the
    lowest common manager of two names is above or at both and below every other
    that is. *)
Theorem hierarchy_exact (departments : list Department) :
  match new_resolver departments with
  | Err (HierarchyResolutionError _ c) => tc (edge (above (add_departments departments))) c c
  | Ok h =>
      let up := edge (above h) in
      acyclic (above h) /\
      (forall sub sup, get_supervisor h sub = Some sup <-> sub ∈ get_direct_reports h sup) /\
      (forall sup, NoDup (get_direct_reports h sup)) /\
      (forall sup sub, is_subordinate h sup sub = true <-> tc up sub sup) /\
      (forall x, (forall y, y ∈ get_ancestors h x <-> tc up x y) /\ NoDup (get_ancestors h x)) /\
      (forall from to n, get_delegation_depth h from to = Some n <-> 0 < n /\ nsteps up n to from) /\
      (forall a b, a <> b ->
        match get_lowest_common_manager h a b with
        | Some m => lowest_common h a b m
        | None => forall m, ~ (rtc up a m /\ rtc up b m)
        end)
  end.
Proof.
  unfold new_resolver. pose proof (detect_cycles_exact (add_departments departments)) as Hd.
  pose proof (add_departments_ok departments) as [_ Ha Ho]. destruct (_detect_cycles _) as [u|[ag c]]; simpl; [|done].
  split_and!; [done|done|done|by intros; apply is_subordinate_tc| |by intros; apply delegation_depth_exact|].
  - intros x. split; [intros y; by apply chain_elem, ancestors_chain|by eapply chain_nodup, ancestors_chain].
  - intros a b Hne. by apply common_manager_exact.
Qed.

(** ** A company *)

Module Org.

Definition team (n l : string) (ms : list string) : Team := {| team_name := n; lead := l; members := ms |}.
Definition line (sub sup : string) (sub_id : option string) : ReportingLine :=
  {| subordinate := sub; supervisor := sup; subordinate_id := sub_id; supervisor_id := None |}.
Definition dept (head : string) (ts : list Team) (ls : list ReportingLine) : Department :=
  {| department_name := "engineering"; department_head := Some head; head_id := None; teams := ts; reporting_lines := ls |}.

Definition platform : Department :=
  dept "cto" [team "core" "ada" ["bob"; "cyd"]; team "web" "dan" ["eve"]] [line "cyd" "dan" None].

Example platform_resolved :
  match new_resolver [platform] with
  | Ok h => (get_direct_reports h "ada", get_direct_reports h "dan", get_ancestors h "cyd",
             get_lowest_common_manager h "bob" "cyd", get_delegation_depth h "cto" "eve", is_subordinate h "ada" "cyd")
  | Err _ => ([], [], [], None, None, true)
  end = (["bob"], ["eve"; "cyd"], ["dan"; "cto"], Some "cto", Some 2, false).
Proof. vm_compute. reflexivity. Qed.

Example circle_refused :
  new_resolver [dept "cto" [] [line "ada" "bob" None; line "bob" "ada" None]]
  = Err (HierarchyResolutionError "ada" "ada").
Proof. vm_compute. reflexivity. Qed.

(** The lead of one team who is a member of another reports to the head or to
    the other lead, whichever team is listed first. *)
Example lead_order_matters :
  let core := team "core" "ada" ["dan"] in let web := team "web" "dan" [] in
  let supervisor_in ts := match new_resolver [dept "cto" ts []] with Ok h => get_supervisor h "dan" | Err _ => None end in
  department_ok (dept "cto" [core; web] []) = true /\
  supervisor_in [core; web] = Some "ada" /\ supervisor_in [web; core] = Some "cto".
Proof. vm_compute. done. Qed.

(** A line that names its subordinate by id leaves the line the team gave them. *)
Example line_by_id_keeps_team_lead :
  let d := dept "cto" [team "core" "ada" ["cyd"]] [line "cyd" "dan" (Some "agent-7")] in
  department_ok d = true /\
  match new_resolver [d] with
  | Ok h => (get_supervisor h "cyd", get_supervisor h "agent-7")
  | Err _ => (None, None)
  end = (Some "ada", Some "dan").
Proof. vm_compute. done. Qed.

End Org.
