(* ===== verification/Routing.v ===== *)
(** * Routing

    Who gets which unit of a decomposed task: agents and their skills
    ([core/agent.py], [core/role.py]), the scorer ([engine/routing/scorer.py]),
    the topology ([topology_selector.py]) and the router ([service.py],
    [models.py]). Of an agent's identity the fields that selection reads; weights
    and proficiencies are exact rationals. *)

From stdpp Require Import gmap strings list sorting relations.
From Stdlib Require Import ZArith QArith Lia.
From S2P Require Import Prelude TaskEnums PlanUnits DecompTree TaskModel ToolPermissions Capability.
From S2P Require Waves.
#[local] Open Scope nat_scope.
#[local] Open Scope py_scope.

(** ** Agents *)

Module AgentStatus.

Inductive AgentStatus :=
| ACTIVE | ONBOARDING | ON_LEAVE | TERMINATED.

#[export] Instance agent_status_eq_dec : EqDecision AgentStatus.
Proof. solve_decision. Defined.

Definition members : list AgentStatus :=
  [ACTIVE; ONBOARDING; ON_LEAVE; TERMINATED].

Lemma agent_status_members_all s : s ∈ members.
Proof. revert s. enum_elem. Qed.

#[export] Instance agent_status_countable : Countable AgentStatus :=
  enum_countable members agent_status_members_all.

Definition agent_status_value (s : AgentStatus) : string :=
  match s with
  | ACTIVE => "active"
  | ONBOARDING => "onboarding"
  | ON_LEAVE => "on_leave"
  | TERMINATED => "terminated"
  end.

#[export] Instance agent_status_value_inj : Inj (=) (=) agent_status_value.
Proof. intros [] []; simpl; congruence. Qed.

End AgentStatus.
Export (hints) AgentStatus.

Record Skill := {
  skill_id : string;
  skill_name : string;
  skill_description : string;
  skill_tags : list string;
  input_modes : list string;
  output_modes : list string;
  proficiency : Q;
}.

Record SkillSet := { primary : list Skill; secondary : list Skill }.

Inductive SkillError :=
| Duplicate_primary (dupes : list string)
| Duplicate_secondary (dupes : list string)
| In_both_tiers (ids : list string).

Definition _validate_unique_ids (s : SkillSet) : result SkillError unit :=
  let primary_ids := skill_id <$> primary s in
  let secondary_ids := skill_id <$> secondary s in
  ensure bool_decide (duplicates primary_ids = []) else Duplicate_primary (duplicates primary_ids) in
  ensure bool_decide (duplicates secondary_ids = []) else Duplicate_secondary (duplicates secondary_ids) in
  let overlap : gset string := list_to_set primary_ids ∩ list_to_set secondary_ids in
  ensure bool_decide (overlap = ∅) else In_both_tiers (sorted_set overlap) in
  Ok tt.

Definition unit_interval (q : Q) : bool := Qle_bool 0 q && Qle_bool q 1.

Definition skill_ok (s : Skill) : bool := unit_interval (proficiency s).

Record AgentIdentity := {
  agent_id : string;
  agent_name : string;
  agent_role : string;
  agent_status : AgentStatus.AgentStatus;
  agent_skills : SkillSet;
  agent_model : ModelConfig;
}.

Definition agent_ok (a : AgentIdentity) : bool :=
  is_ok (_validate_unique_ids (agent_skills a)) && forallb skill_ok (primary (agent_skills a)) &&
  forallb skill_ok (secondary (agent_skills a)).

(** ** The scorer *)

Record RoutingScorerConfig := {
  primary_skill_weight : Q;
  secondary_skill_weight : Q;
  tag_match_bonus : Q;
  role_match_bonus : Q;
  cfg_min_score : Q;
  cfg_low_confidence_score : Q;
}.

Definition scorer_config_ok (c : RoutingScorerConfig) : bool :=
  forallb unit_interval [primary_skill_weight c; secondary_skill_weight c; tag_match_bonus c; role_match_bonus c;
    cfg_min_score c; cfg_low_confidence_score c].

Definition default_scorer_config : RoutingScorerConfig := {|
  primary_skill_weight := 2 # 5; secondary_skill_weight := 1 # 5; tag_match_bonus := 1 # 10;
  role_match_bonus := 1 # 5; cfg_min_score := 1 # 10; cfg_low_confidence_score := 7 # 20 |}.

Inductive ScorerError := Min_score_out_of_range (q : Q).

Record AgentTaskScorer := { scorer_config : RoutingScorerConfig; _min_score : Q }.

Definition new_scorer (min_score : option Q) (config : option RoutingScorerConfig) : result ScorerError AgentTaskScorer :=
  let config := default default_scorer_config config in
  let effective_min := default (cfg_min_score config) min_score in
  ensure unit_interval effective_min else Min_score_out_of_range effective_min in
  Ok {| scorer_config := config; _min_score := effective_min |}.

Definition Qmax_py (a b : Q) : Q := if Qle_bool b a then a else b.
Definition Qmin_py (a b : Q) : Q := if Qle_bool a b then a else b.

Definition low_confidence_score (s : AgentTaskScorer) : Q :=
  Qmax_py (cfg_low_confidence_score (scorer_config s)) (_min_score s).

Inductive MatchReason :=
| No_skills_required
| Primary_skills (ids : list string)
| Secondary_skills (ids : list string)
| Tag_match (tags : list string)
| Role_match.

Inductive CandidateReason :=
| Not_active (s : AgentStatus.AgentStatus)
| No_matching_criteria
| Matched (reasons : list MatchReason)
| Manually_assigned.

Record RoutingCandidate := {
  agent_identity : AgentIdentity;
  score : Q;
  matched_skills : list string;
  reason : CandidateReason;
}.

Definition by_id (skills : list Skill) : gmap string Skill := dict_of ((fun s => (skill_id s, s)) <$> skills).

Definition proficiency_of (skills : gmap string Skill) (sid : string) : Q :=
  match skills !! sid with Some s => proficiency s | None => 0%Q end.

(** [sum(proficiency) / len(required) * weight]. *)
Definition tier_score (skills : gmap string Skill) (matched : list string) (required : nat) (weight : Q) : Q :=
  (foldl Qplus 0 (proficiency_of skills <$> matched) / inject_Z (Z.of_nat required) * weight)%Q.

Definition tags_of (skills : gmap string Skill) (sid : string) : list string :=
  match skills !! sid with Some s => skill_tags s | None => [] end.

Definition when {A} (b : bool) (x : A) : list A := if b then [x] else [].

Definition _score_skill_tiers (a : AgentIdentity) (u : SubtaskDefinition) (c : RoutingScorerConfig)
    : Q * list string * list MatchReason :=
  let required : gset string := list_to_set (sub_required_skills u) in
  if bool_decide (required = ∅) then (0%Q, [], [No_skills_required])
  else
    let primary_by_id := by_id (primary (agent_skills a)) in
    let secondary_by_id := by_id (secondary (agent_skills a)) in
    let primary_matched := sorted_set (required ∩ dom primary_by_id) in
    let secondary_matched := sorted_set ((required ∩ dom secondary_by_id) ∖ list_to_set primary_matched) in
    let required_tags : gset string := list_to_set (sub_required_tags u) in
    let matched_tags : gset string := list_to_set (flat_map (tags_of primary_by_id) primary_matched ++
      flat_map (tags_of secondary_by_id) secondary_matched) in
    let tagged := negb (bool_decide (required_tags = ∅)) && bool_decide (required_tags ⊆ matched_tags) in
    ((tier_score primary_by_id primary_matched (size required) (primary_skill_weight c) +
      tier_score secondary_by_id secondary_matched (size required) (secondary_skill_weight c) +
      (if tagged then tag_match_bonus c else 0))%Q,
     primary_matched ++ secondary_matched,
     when (negb (bool_decide (primary_matched = []))) (Primary_skills primary_matched) ++
     when (negb (bool_decide (secondary_matched = []))) (Secondary_skills secondary_matched) ++
     when tagged (Tag_match (sorted_set required_tags))).

Definition compare_ci (a b : string) : bool := bool_decide (normalize_identifier a = normalize_identifier b).

Definition _score_role (a : AgentIdentity) (u : SubtaskDefinition) (c : RoutingScorerConfig) : Q * option MatchReason :=
  match sub_required_role u with
  | Some role => if compare_ci (agent_role a) role then (role_match_bonus c, Some Role_match) else (0%Q, None)
  | None => (0%Q, None)
  end.

Definition _inactive_candidate (a : AgentIdentity) : RoutingCandidate :=
  {| agent_identity := a; score := 0%Q; matched_skills := []; reason := Not_active (agent_status a) |}.

Definition score_agent (s : AgentTaskScorer) (a : AgentIdentity) (u : SubtaskDefinition) : RoutingCandidate :=
  if negb (bool_decide (agent_status a = AgentStatus.ACTIVE)) then _inactive_candidate a
  else
    let '(skill_score, all_matched, skill_reasons) := _score_skill_tiers a u (scorer_config s) in
    let '(role_score, role_reason) := _score_role a u (scorer_config s) in
    let reasons := skill_reasons ++ option_list role_reason in
    {| agent_identity := a; score := Qmin_py (skill_score + role_score)%Q 1%Q; matched_skills := all_matched;
       reason := match reasons with [] => No_matching_criteria | _ => Matched reasons end |}.

(** ** Topology *)

Record AutoTopologyConfig := {
  sequential_override : CoordinationTopology.CoordinationTopology;
  parallel_default : CoordinationTopology.CoordinationTopology;
  mixed_default : CoordinationTopology.CoordinationTopology;
  parallel_artifact_threshold : Z;
}.

Definition topology_config_ok (c : AutoTopologyConfig) : bool :=
  (1 <=? parallel_artifact_threshold c)%Z &&
  forallb (fun t => negb (bool_decide (t = CoordinationTopology.AUTO)))
    [sequential_override c; parallel_default c; mixed_default c].

Definition default_topology_config : AutoTopologyConfig := {|
  sequential_override := CoordinationTopology.SAS; parallel_default := CoordinationTopology.CENTRALIZED;
  mixed_default := CoordinationTopology.CONTEXT_DEPENDENT; parallel_artifact_threshold := 4 |}.

(** ** Decisions *)

Record RoutingDecision := {
  decided_id : string;
  selected_candidate : RoutingCandidate;
  alternatives : list RoutingCandidate;
  topology : CoordinationTopology.CoordinationTopology;
}.

Record RoutingResult := {
  routed_parent : string;
  decisions : list RoutingDecision;
  unroutable : list string;
}.

Inductive RoutingError :=
| Parent_mismatch (task_id plan_parent : string)
| Unresolved_structure
| Selected_in_alternatives (name : string)
| Bad_result (e : Waves.RoutingError).

(** What the execution waves read of a result. *)
Definition wave_view (r : RoutingResult) : Waves.RoutingResult := {|
  Waves.decisions := (fun d => {| Waves.subtask_id := decided_id d;
    Waves.selected_candidate := agent_id (agent_identity (selected_candidate d)) |}) <$> decisions r;
  Waves.unroutable := unroutable r |}.

Definition candidate_id (c : RoutingCandidate) : string := agent_id (agent_identity c).

(** [_validate_selected_not_in_alternatives]. *)
Definition new_decision (d : RoutingDecision) : result RoutingError RoutingDecision :=
  ensure negb (bool_decide (candidate_id (selected_candidate d) ∈ candidate_id <$> alternatives d))
    else Selected_in_alternatives (agent_name (agent_identity (selected_candidate d))) in
  Ok d.

Definition new_routing_result (r : RoutingResult) : result RoutingError RoutingResult :=
  match Waves._validate_unique_subtask_ids (wave_view r) with
  | Ok _ => Ok r
  | Err e => Err (Bad_result e)
  end.

(** ** The router *)

(** [sorted(..., key=score, reverse=True)]. *)
Definition by_score : list RoutingCandidate -> list RoutingCandidate :=
  sort_by (fun a b => Qle_bool (score b) (score a)).

Section Router.
Context (scorer : AgentTaskScorer) (topology_config : AutoTopologyConfig) (capability : option CapabilityPolicy).

Definition select {obj} (t : TaskModel.Task obj) (p : DecompositionPlan)
    : result RoutingError CoordinationTopology.CoordinationTopology :=
  let structure := dp_task_structure p in
  ensure negb (bool_decide (structure = TaskStructure.AUTO)) else Unresolved_structure in
  if negb (bool_decide (task_coordination_topology t = CoordinationTopology.AUTO)) then Ok (task_coordination_topology t)
  else
    let artifact_count := Z.of_nat (length (task_artifacts_expected t)) in
    Ok match structure with
       | TaskStructure.PARALLEL =>
           if (parallel_artifact_threshold topology_config <? artifact_count)%Z then CoordinationTopology.DECENTRALIZED
           else parallel_default topology_config
       | TaskStructure.MIXED => mixed_default topology_config
       | _ => sequential_override topology_config
       end.

(** Who may take the unit, and whose binding nothing grades. *)
Definition _sanctioned (u : SubtaskDefinition) (agents : list AgentIdentity) : list AgentIdentity * list AgentIdentity :=
  match capability with
  | None => (agents, [])
  | Some p =>
      let verdict a := judge p (agent_model a) (sub_stakes u) (sub_estimated_complexity u) in
      (List.filter (fun a => sanctioned (verdict a)) agents,
       List.filter (fun a => negb (sanctioned (verdict a)) && unresolved (verdict a)) agents)
  end.

Definition _score_band (band : list AgentIdentity) (u : SubtaskDefinition) : list RoutingCandidate :=
  by_score (List.filter (fun c => Qle_bool (_min_score scorer) (score c)) ((fun a => score_agent scorer a u) <$> band)).

(** The first band that yields a candidate. *)
Fixpoint first_viable (u : SubtaskDefinition) (bands : list (list AgentIdentity * CapabilityFit)) : list RoutingCandidate :=
  match bands with
  | [] => []
  | (band, fit) :: bands =>
      match _score_band band u with
      | [] => first_viable u bands
      | viable => viable
      end
  end.

Definition _viable_candidates (u : SubtaskDefinition) (agents : list AgentIdentity) : list RoutingCandidate :=
  let admitted := fst (_sanctioned u agents) in
  match capability with
  | None => _score_band admitted u
  | Some p =>
      let required := required_for p (sub_stakes u) (sub_estimated_complexity u) in
      first_viable u (bands_by_fit (fun a => rank_of (capability_of p (agent_model a))) (rank_of (Some required)) admitted)
  end.

(** The loop over [all_subtasks]. *)
Fixpoint route_loop (t : CoordinationTopology.CoordinationTopology) (agents : list AgentIdentity)
    (units : list SubtaskDefinition) (ds : list RoutingDecision) (un : list string)
    : result RoutingError (list RoutingDecision * list string) :=
  match units with
  | [] => Ok (ds, un)
  | u :: units =>
      match _viable_candidates u agents with
      | [] => route_loop t agents units ds (un ++ [sub_id u])
      | selected :: rest =>
          let* d := new_decision {| decided_id := sub_id u; selected_candidate := selected; alternatives := rest;
                                    topology := t |} in
          route_loop t agents units (ds ++ [d]) un
      end
  end.

Definition _do_route {obj} (r : DecompositionResult) (agents : list AgentIdentity) (t : TaskModel.Task obj)
    : result RoutingError RoutingResult :=
  let* topology := select t (plan r) in
  let* found := route_loop topology agents (all_subtasks r) [] [] in
  new_routing_result {| routed_parent := dp_parent_task_id (plan r); decisions := fst found; unroutable := snd found |}.

Definition route {obj} (r : DecompositionResult) (agents : list AgentIdentity) (t : TaskModel.Task obj)
    : result RoutingError RoutingResult :=
  ensure bool_decide (TaskModel.task_id t = dp_parent_task_id (plan r))
    else Parent_mismatch (TaskModel.task_id t) (dp_parent_task_id (plan r)) in
  match agents with
  | [] => new_routing_result {| routed_parent := dp_parent_task_id (plan r); decisions := [];
                                unroutable := sub_id <$> all_subtasks r |}
  | _ => _do_route r agents t
  end.
End Router.

(** ** Scores *)

Lemma Qmin_py_spec a b : (Qmin_py a b <= a /\ Qmin_py a b <= b /\ (Qmin_py a b = a \/ Qmin_py a b = b))%Q.
Proof.
  unfold Qmin_py. destruct (Qle_bool a b) eqn:Hab.
  - apply Qle_bool_iff in Hab. split_and!; [apply Qle_refl|done|by left].
  - assert (Hba : (b <= a)%Q).
    { destruct (Qlt_le_dec a b) as [Hlt|?]; [|done]. apply Qlt_le_weak, Qle_bool_iff in Hlt. congruence. }
    split_and!; [done|apply Qle_refl|by right].
Qed.

Lemma unit_interval_iff q : unit_interval q = true <-> (0 <= q <= 1)%Q.
Proof. unfold unit_interval. by rewrite andb_true_iff, !Qle_bool_iff. Qed.

Lemma sum_nonneg (l : list Q) x : (0 <= x)%Q -> Forall (fun q => 0 <= q)%Q l -> (0 <= foldl Qplus x l)%Q.
Proof.
  intros Hx Hl. revert x Hx. induction Hl as [|q l Hq _ IH]; intros x Hx; simpl; [done|].
  apply IH. change 0%Q with (0 + 0)%Q. by apply Qplus_le_compat.
Qed.

Lemma tier_score_nonneg skills matched n weight :
  (forall s, s ∈ (map_to_list skills).*2 -> skill_ok s = true) -> (0 <= weight)%Q ->
  (0 <= tier_score skills matched n weight)%Q.
Proof.
  intros Hs Hw. unfold tier_score. apply Qmult_le_0_compat; [|done]. unfold Qdiv. apply Qmult_le_0_compat.
  - apply sum_nonneg; [apply Qle_refl|]. apply Forall_fmap, Forall_true. intros sid. simpl. unfold proficiency_of.
    destruct (skills !! sid) as [s|] eqn:E; [|apply Qle_refl].
    assert (Hok : skill_ok s = true).
    { apply Hs. apply elem_of_map_to_list in E. by apply (list_elem_of_fmap_2 snd) in E. }
    by apply unit_interval_iff in Hok as [? _].
  - apply Qinv_le_0_compat. change 0%Q with (inject_Z 0). rewrite <-Zle_Qle. lia.
Qed.

Lemma by_id_ok l s : forallb skill_ok l = true -> s ∈ (map_to_list (by_id l)).*2 -> skill_ok s = true.
Proof.
  intros Hl ([k s'] & -> & Hin)%list_elem_of_fmap. simpl. apply elem_of_map_to_list in Hin.
  unfold by_id, dict_of in Hin. apply elem_of_list_to_map_2 in Hin. rewrite elem_of_reverse in Hin.
  apply list_elem_of_fmap in Hin as (x & [= -> ->] & Hx). rewrite forallb_forall in Hl.
  apply Hl. by apply list_elem_of_In.
Qed.

(** The score a candidate may carry: the field's bounds never refuse it. *)
Lemma score_in_range s a u :
  scorer_config_ok (scorer_config s) = true -> agent_ok a = true -> unit_interval (score (score_agent s a u)) = true.
Proof.
  unfold scorer_config_ok, agent_ok. simpl. intros Hc Ha. bool_to_prop. apply unit_interval_iff.
  unfold score_agent. destruct (negb _); [by simpl; split|].
  assert (Hrole : (0 <= fst (_score_role a u (scorer_config s)))%Q).
  { unfold _score_role. destruct (sub_required_role u); [|by simpl]. destruct (compare_ci _ _); simpl; [|done].
    by apply unit_interval_iff. }
  assert (Hskill : (0 <= fst (fst (_score_skill_tiers a u (scorer_config s))))%Q).
  { unfold _score_skill_tiers. case_bool_decide; [by simpl|]. simpl.
    repeat match goal with H : unit_interval _ = true |- _ => apply unit_interval_iff in H as [? ?] end.
    change 0%Q with (0 + 0 + 0)%Q. apply Qplus_le_compat; [apply Qplus_le_compat|].
    - apply tier_score_nonneg; [|done]. intros x. by apply by_id_ok.
    - apply tier_score_nonneg; [|done]. intros x. by apply by_id_ok.
    - destruct (negb _ && _); [done|apply Qle_refl]. }
  destruct (_score_skill_tiers a u _) as [[x ids] rs], (_score_role a u _) as [y ro]. simpl in *.
  destruct (Qmin_py_spec (x + y) 1) as (_ & Hle & [Heq|Heq]); split; try done; rewrite Heq; [|done].
  change 0%Q with (0 + 0)%Q. by apply Qplus_le_compat.
Qed.

Lemma scored_identity s a u : agent_identity (score_agent s a u) = a.
Proof.
  unfold score_agent. destruct (negb _); [done|].
  by destruct (_score_skill_tiers _ _ _) as [[] ?], (_score_role _ _ _).
Qed.

(** ** The order of candidates *)

Definition score_le (a b : RoutingCandidate) : bool := Qle_bool (score b) (score a).

Lemma score_le_total a b : score_le a b = true \/ score_le b a = true.
Proof.
  unfold score_le. rewrite !Qle_bool_iff. destruct (Qlt_le_dec (score a) (score b)) as [?%Qlt_le_weak|?]; auto.
Qed.

Lemma score_le_trans a b c : score_le a b = true -> score_le b c = true -> score_le a c = true.
Proof. unfold score_le. rewrite !Qle_bool_iff. intros H1 H2. by eapply Qle_trans. Qed.

Lemma bool_filter_elem {A} (f : A -> bool) l x : x ∈ List.filter f l <-> x ∈ l /\ f x = true.
Proof. rewrite !list_elem_of_In. apply filter_In. Qed.

Lemma bool_filter_fmap {A B} (f : B -> bool) (g : A -> B) l :
  List.filter f (g <$> l) = g <$> List.filter (fun x => f (g x)) l.
Proof. induction l as [|x l IH]; [done|]. rewrite fmap_cons. simpl. rewrite IH. by destruct (f (g x)). Qed.

Lemma bool_filter_filter {A} (f g : A -> bool) l :
  List.filter f (List.filter g l) = List.filter (fun x => g x && f x) l.
Proof.
  induction l as [|x l IH]; [done|]. simpl. destruct (g x); simpl; [|done]. by destruct (f x); rewrite IH.
Qed.

Lemma bool_filter_nil {A} (f : A -> bool) l : List.filter f l = [] <-> forall x, x ∈ l -> f x = false.
Proof.
  split.
  - intros Hf x Hx. destruct (f x) eqn:E; [|done]. exfalso. apply (not_elem_of_nil x). rewrite <-Hf. by apply bool_filter_elem.
  - intros Hn. destruct (List.filter f l) as [|x l'] eqn:E; [done|].
    assert (x ∈ List.filter f l) as [Hx Hfx]%bool_filter_elem by (rewrite E; by left). rewrite (Hn x Hx) in Hfx. done.
Qed.

Lemma bool_filter_split {A} (f : A -> bool) l p1 x p2 :
  List.filter f l = p1 ++ x :: p2 ->
  exists l1 l2, l = l1 ++ x :: l2 /\ List.filter f l1 = p1 /\ List.filter f l2 = p2.
Proof.
  revert p1. induction l as [|y l IH]; intros p1; simpl; [by destruct p1|]. destruct (f y) eqn:Hy.
  - destruct p1 as [|z p1]; intros [= -> Hl]; [by exists [], l|].
    destruct (IH p1 Hl) as (l1 & l2 & -> & <- & <-). exists (z :: l1), l2. simpl. by rewrite Hy.
  - intros Hl. destruct (IH p1 Hl) as (l1 & l2 & -> & <- & <-). exists (y :: l1), l2. simpl. by rewrite Hy.
Qed.

Lemma bool_filter_sublist {A} (f : A -> bool) l : List.filter f l `sublist_of` l.
Proof. induction l as [|x l IH]; simpl; [done|]. by destruct (f x); constructor. Qed.

Lemma fmap_app_cons_inv {A B} (f : A -> B) l l1 y l2 :
  f <$> l = l1 ++ y :: l2 -> exists k1 x k2, l = k1 ++ x :: k2 /\ f <$> k1 = l1 /\ f x = y /\ f <$> k2 = l2.
Proof.
  intros Hl. apply fmap_app_inv in Hl as (k1 & k & H1 & H2 & ->). destruct k as [|x k2]; [done|].
  injection H2 as H2 H3. by exists k1, x, k2.
Qed.

Section Choice.
Context (scorer : AgentTaskScorer) (capability : option CapabilityPolicy).

(** May take the unit, and clears the floor. *)
Definition admitted (u : SubtaskDefinition) (a : AgentIdentity) : bool :=
  match capability with
  | None => true
  | Some p => sanctioned (judge p (agent_model a) (sub_stakes u) (sub_estimated_complexity u))
  end.

Definition clears (u : SubtaskDefinition) (a : AgentIdentity) : bool :=
  Qle_bool (_min_score scorer) (score (score_agent scorer a u)).

Definition viable (u : SubtaskDefinition) (a : AgentIdentity) : bool := admitted u a && clears u a.

(** The rung an agent is at, and the one the unit demands; all the same without
    a policy. *)
Definition rung (a : AgentIdentity) : Z :=
  match capability with None => 0%Z | Some p => rank_of (capability_of p (agent_model a)) end.

Definition demanded (u : SubtaskDefinition) : Z :=
  match capability with
  | None => 0%Z
  | Some p => rank_of (Some (required_for p (sub_stakes u) (sub_estimated_complexity u)))
  end.

(** Rung first, then score. *)
Definition preferred (u : SubtaskDefinition) (a b : AgentIdentity) : Prop :=
  suits_better (demanded u) (rung a) (rung b) \/
  rung a = rung b /\ (score (score_agent scorer b u) < score (score_agent scorer a u))%Q.

Definition pool_at (u : SubtaskDefinition) (agents : list AgentIdentity) (r : Z) : list AgentIdentity :=
  List.filter (fun a => viable u a && (rung a =? r)%Z) agents.

Lemma score_band_pool u band :
  _score_band scorer band u = by_score ((fun a => score_agent scorer a u) <$> List.filter (clears u) band).
Proof. unfold _score_band. by rewrite bool_filter_fmap. Qed.

Lemma score_band_nil u band : _score_band scorer band u = [] <-> forall a, a ∈ band -> clears u a = false.
Proof.
  rewrite score_band_pool. unfold by_score. by rewrite sort_by_nil, fmap_nil_iff, bool_filter_nil.
Qed.

Lemma first_viable_spec u (band : Z -> list AgentIdentity * CapabilityFit) rs :
  match first_viable scorer u (band <$> rs) with
  | [] => forall r, r ∈ rs -> _score_band scorer (fst (band r)) u = []
  | l => exists rs1 r rs2, rs = rs1 ++ r :: rs2 /\ l = _score_band scorer (fst (band r)) u /\
      forall r', r' ∈ rs1 -> _score_band scorer (fst (band r')) u = []
  end.
Proof.
  induction rs as [|r rs IH]; [by intros r ?%elem_of_nil|]. rewrite fmap_cons. cbn [first_viable].
  destruct (band r) as [b fit] eqn:Hb. destruct (_score_band scorer b u) as [|c l] eqn:Hs.
  - destruct (first_viable scorer u (band <$> rs)) as [|c l].
    + intros r' [->|Hr]%elem_of_cons; [by rewrite Hb|by apply IH].
    + destruct IH as (rs1 & r' & rs2 & -> & Hl & Hn). exists (r :: rs1), r', rs2. split_and!; [done|done|].
      intros r'' [->|Hr]%elem_of_cons; [by rewrite Hb|by apply Hn].
  - exists [], r, rs. split_and!; [done|by rewrite Hb|by intros r' ?%elem_of_nil].
Qed.

(** The candidates are those of the best rung at which somebody is viable. *)
Lemma viable_candidates_spec u agents :
  match _viable_candidates scorer capability u agents with
  | [] => forall a, a ∈ agents -> viable u a = false
  | l => exists r, l = by_score ((fun a => score_agent scorer a u) <$> pool_at u agents r) /\
      forall a, a ∈ agents -> viable u a = true -> rung a = r \/ suits_better (demanded u) r (rung a)
  end.
Proof.
  unfold _viable_candidates, _sanctioned, viable, admitted, pool_at, rung, demanded, viable, admitted, rung.
  destruct capability as [p|]; cbn [fst].
  - set (adm := fun a => sanctioned (judge p (agent_model a) (sub_stakes u) (sub_estimated_complexity u))).
    set (rk := fun a => rank_of (capability_of p (agent_model a))). set (req := rank_of (Some (required_for p (sub_stakes u) (sub_estimated_complexity u)))).
    rewrite bands_by_fit_rungs.
    assert (Hband : forall r a, a ∈ band_at rk (List.filter adm agents) r <-> a ∈ agents /\ adm a = true /\ rk a = r).
    { intros r a. unfold band_at. rewrite list_elem_of_filter, bool_filter_elem. tauto. }
    pose proof (first_viable_spec u (fun r => (band_at rk (List.filter adm agents) r, fit_of req r))
      (rungs rk req (List.filter adm agents))) as Hf.
    assert (Hall : forall a, a ∈ agents -> adm a = true -> rk a ∈ rungs rk req (List.filter adm agents)).
    { intros a Ha Hadm. apply rungs_elem. exists a. by rewrite bool_filter_elem. }
    destruct (first_viable scorer u _) as [|c l].
    + intros a Ha. change (adm a && clears u a = false). destruct (adm a) eqn:Hadm; [|done]. simpl. specialize (Hf (rk a) (Hall a Ha Hadm)).
      apply (proj1 (score_band_nil u _) Hf). by apply Hband.
    + destruct Hf as (rs1 & r & rs2 & Hrs & -> & Hn). exists r. split.
      * cbn [fst]. rewrite score_band_pool. unfold band_at. do 2 f_equal.
        transitivity (List.filter (clears u) (List.filter (fun a => (rk a =? r)%Z) (List.filter adm agents))).
        { f_equal. generalize (List.filter adm agents). intros xs. induction xs as [|x xs IH]; [done|].
          rewrite filter_cons. simpl. destruct (Z.eqb_spec (rk x) r); [rewrite decide_True by done|rewrite decide_False by done];
            by rewrite IH. }
        rewrite !bool_filter_filter. apply filter_ext. intros a. unfold adm, rk. destruct (sanctioned _), (_ =? r)%Z, (clears u a); done.
      * intros a Ha [Hadm Hcl]%andb_prop. pose proof (Hall a Ha Hadm) as Hin. rewrite Hrs in Hin.
        pose proof (rungs_sorted rk req (List.filter adm agents)) as Hs. rewrite Hrs in Hs.
        change (rk a = r \/ suits_better req r (rk a)).
        apply elem_of_app in Hin as [Hin|[Heq|Hin]%elem_of_cons]; [|by left|].
        -- exfalso. specialize (Hn _ Hin). pose proof (proj1 (score_band_nil u _) Hn a) as Hc.
           rewrite Hc in Hcl; [done|]. by apply Hband.
        -- right. clear -Hs Hin. induction rs1 as [|x rs1 IH]; apply StronglySorted_inv in Hs as [Hs Hx]; [|by apply IH].
           rewrite Forall_forall in Hx. by apply Hx.
  - destruct (_score_band scorer agents u) as [|c l] eqn:Hs.
    + by apply score_band_nil.
    + exists 0%Z. split; [|by left]. rewrite <-Hs, score_band_pool. do 2 f_equal. apply filter_ext.
      intros a. simpl. by rewrite andb_true_r.
Qed.

(** The choice: nobody viable before it in the roster is as good, and nobody
    after it is better. *)
Definition best_for (u : SubtaskDefinition) (agents : list AgentIdentity) (a : AgentIdentity) : Prop :=
  viable u a = true /\ exists l1 l2, agents = l1 ++ a :: l2 /\
    (forall b, b ∈ l1 -> viable u b = true -> preferred u a b) /\
    (forall b, b ∈ l2 -> viable u b = true -> ~ preferred u b a).

Lemma selected_best u agents c rest :
  NoDup (agent_id <$> agents) -> _viable_candidates scorer capability u agents = c :: rest ->
  exists a, c = score_agent scorer a u /\ a ∈ agents /\ best_for u agents a /\
    (forall c', c' ∈ rest <-> exists b, b ∈ agents /\ c' = score_agent scorer b u /\ viable u b = true /\ rung b = rung a /\ b <> a) /\
    StronglySorted (fun a b => score_le a b = true) rest.
Proof.
  intros Hnd Hv. pose proof (viable_candidates_spec u agents) as Hs. rewrite Hv in Hs.
  destruct Hs as (r & Hl & Hbest). symmetry in Hl.
  pose proof (sort_by_sorted score_le score_le_total score_le_trans
    ((fun a => score_agent scorer a u) <$> pool_at u agents r)) as Hsort.
  change (sort_by score_le) with by_score in Hsort. rewrite Hl in Hsort. apply StronglySorted_inv in Hsort as [Hsort _].
  apply (sort_by_cons _ score_le_total score_le_trans) in Hl as (c1 & c2 & Hc & -> & Hbefore & Hleast).
  apply fmap_app_cons_inv in Hc as (p1 & a & p2 & Hp & <- & <- & <-). pose proof Hp as Hsplit.
  unfold pool_at in Hsplit. apply bool_filter_split in Hsplit as (l1 & l2 & -> & Hp1 & Hp2).
  assert (Hpool : forall b, b ∈ pool_at u (l1 ++ a :: l2) r <-> b ∈ l1 ++ a :: l2 /\ viable u b = true /\ rung b = r).
  { intros b. unfold pool_at. rewrite bool_filter_elem, andb_true_iff, Z.eqb_eq. done. }
  assert (Ha : viable u a = true /\ rung a = r).
  { apply (Hpool a). rewrite Hp. set_solver. }
  destruct Ha as [Hva Hra]. exists a. split; [done|]. split; [set_solver|]. split; [split; [done|exists l1, l2; split; [done|split]]|split].
  - intros b Hb Hvb. destruct (Hbest b) as [Hr|Hr]; [set_solver|done| |left; by rewrite Hra]. right. split; [congruence|].
    assert (Hin : b ∈ p1) by (rewrite <-Hp1; apply bool_filter_elem; by rewrite Hvb, Hr, Z.eqb_refl).
    specialize (Hbefore (score_agent scorer b u)). unfold score_le in Hbefore.
    apply Qnot_le_lt. intros Hle%Qle_bool_iff. rewrite Hbefore in Hle; [done|].
    by apply (list_elem_of_fmap_2 (fun a => score_agent scorer a u)).
  - intros b Hb Hvb. destruct (Hbest b) as [Hr|Hr]; [set_solver|done| |].
    + intros [Hsb|[_ Hlt]]; [rewrite suits_better_spec in Hsb; lia|].
      assert (Hin : score_agent scorer b u ∈ (fun a => score_agent scorer a u) <$> pool_at u (l1 ++ a :: l2) r).
      { apply (list_elem_of_fmap_2 (fun a => score_agent scorer a u)), Hpool. split; [set_solver|done]. }
      apply Hleast, Qle_bool_iff in Hin. by apply Qle_not_lt in Hin.
    + rewrite <-Hra in Hr. intros [Hsb|[He _]]; rewrite suits_better_spec in *; lia.
  - assert (Hnd' : a ∉ p1 ++ p2).
    { assert (NoDup (p1 ++ a :: p2)) as Hn.
      { rewrite <-Hp. eapply sublist_NoDup; [|apply bool_filter_sublist]. by eapply NoDup_fmap_1. }
      apply NoDup_app in Hn as (_ & Hd & [Hn2 _]%NoDup_cons). rewrite not_elem_of_app. split; [|done].
      intros Hin. apply (Hd a Hin). by left. }
    intros c'. unfold by_score. rewrite sort_by_elem, <-fmap_app, list_elem_of_fmap. rewrite Hra. split.
    + intros (b & -> & Hb). exists b. assert (b ∈ pool_at u (l1 ++ a :: l2) r) as (? & ? & ?)%Hpool by (rewrite Hp; set_solver).
      split_and!; try done. congruence.
    + intros (b & Hb & -> & Hvb & Hrb & Hne). exists b. split; [done|].
      assert (Hin : b ∈ pool_at u (l1 ++ a :: l2) r) by by apply Hpool. rewrite Hp in Hin. set_solver.
  - exact Hsort.
Qed.
End Choice.

(** ** The route *)

Section Route.
Context (scorer : AgentTaskScorer) (topology_config : AutoTopologyConfig) (capability : option CapabilityPolicy).
#[local] Notation _viable_candidates := (_viable_candidates scorer capability).
#[local] Notation viable := (viable scorer capability).
#[local] Notation best_for := (best_for scorer capability).

Lemma route_loop_spec t agents units ds un :
  NoDup (agent_id <$> agents) ->
  exists ds' un', route_loop scorer capability t agents units ds un = Ok (ds ++ ds', un ++ un') /\
    (decided_id <$> ds') ++ un' ≡ₚ sub_id <$> units /\
    (forall i, i ∈ un' -> exists u, u ∈ units /\ i = sub_id u /\ _viable_candidates u agents = []) /\
    (forall d, d ∈ ds' -> exists u, u ∈ units /\ decided_id d = sub_id u /\ topology d = t /\
       _viable_candidates u agents = selected_candidate d :: alternatives d).
Proof.
  intros Hnd. revert ds un. induction units as [|u units IH]; intros ds un; cbn [route_loop].
  - exists [], []. rewrite !app_nil_r. split_and!; try done; by intros ? ?%elem_of_nil.
  - destruct (_viable_candidates u agents) as [|c rest] eqn:Hv.
    + destruct (IH ds (un ++ [sub_id u])) as (ds' & un' & Hr & Hp & Hu & Hd). exists ds', (sub_id u :: un').
      rewrite Hr, <-app_assoc. split_and!; [done|by rewrite <-Permutation_middle, Hp| |].
      * intros i [->|Hi]%elem_of_cons; [exists u; by split; [left|]|].
        destruct (Hu i Hi) as (v & ? & ?). exists v. by split; [right|].
      * intros d Hi. destruct (Hd d Hi) as (v & ? & ?). exists v. by split; [right|].
    + destruct (selected_best scorer capability u agents c rest Hnd Hv) as (a & Hc & Ha & _ & Hrest & _).
      unfold new_decision. cbn [selected_candidate alternatives]. rewrite bool_decide_false; cbn [negb rbind].
      2:{ intros (c' & He & (b & Hb & -> & _ & _ & Hne)%Hrest)%list_elem_of_fmap. apply Hne.
          unfold candidate_id in He. rewrite Hc, !scored_identity in He. apply list_elem_of_lookup in Ha as [i Hi], Hb as [j Hj].
          assert (i = j) as ->; [|congruence]. apply (NoDup_lookup (agent_id <$> agents) i j (agent_id a)); [done| |];
            rewrite list_lookup_fmap; [by rewrite Hi|by rewrite Hj, He]. }
      edestruct IH as (ds' & un' & Hr & Hp & Hu & Hd). rewrite Hr.
      eexists (_ :: ds'), un'. rewrite <-app_assoc. split_and!; [done| | |].
      * rewrite fmap_cons, fmap_cons. simpl. by rewrite Hp.
      * intros i Hi. destruct (Hu i Hi) as (v & ? & ?). exists v. by split; [right|].
      * intros d [->|Hi]%elem_of_cons; [exists u; simpl; by split; [left|]|].
        destruct (Hd d Hi) as (v & ? & ?). exists v. by split; [right|].
Qed.

Lemma routing_result_ok rr : NoDup ((decided_id <$> decisions rr) ++ unroutable rr) -> new_routing_result rr = Ok rr.
Proof.
  intros (Hd & Hx & Hu)%NoDup_app. unfold new_routing_result, Waves._validate_unique_subtask_ids, wave_view. simpl.
  rewrite <-list_fmap_compose. change (Waves.subtask_id ∘ _) with decided_id.
  apply duplicates_nil in Hd as ->. apply duplicates_nil in Hu as ->. rewrite !bool_decide_true; try done.
  apply set_eq. intros x. rewrite elem_of_intersection, !elem_of_list_to_set. set_solver.
Qed.

Context {obj : Type}.
Implicit Types (t : TaskModel.Task obj).

(** Every unit is decided or unroutable, once. *)
Lemma route_spec r agents t :
  NoDup (agent_id <$> agents) -> NoDup (tree_ids r) -> TaskModel.task_id t = parent r ->
  dp_task_structure (plan r) <> TaskStructure.AUTO ->
  exists rr, route scorer topology_config capability r agents t = Ok rr /\
    (decided_id <$> decisions rr) ++ unroutable rr ≡ₚ tree_ids r /\
    (forall i, i ∈ unroutable rr -> exists u, u ∈ all_subtasks r /\ i = sub_id u /\ forall a, a ∈ agents -> viable u a = false) /\
    (forall d, d ∈ decisions rr -> exists u, u ∈ all_subtasks r /\ decided_id d = sub_id u /\
       select topology_config t (plan r) = Ok (topology d) /\
       _viable_candidates u agents = selected_candidate d :: alternatives d).
Proof.
  intros Hag Hid Ht Hs. unfold route. rewrite bool_decide_true by done.
  assert (Hsel : exists tp, select topology_config t (plan r) = Ok tp).
  { unfold select. rewrite bool_decide_false by done. cbn [negb]. destruct (negb _); eauto. }
  destruct Hsel as [tp Hsel]. destruct agents as [|a0 agents0] eqn:Hagents.
  - eexists. rewrite routing_result_ok by done. split; [done|]. simpl. split_and!; [done| |by intros d ?%elem_of_nil].
    intros i (u & -> & Hu)%list_elem_of_fmap. exists u. split_and!; [done|done|by intros a ?%elem_of_nil].
  - rewrite <-Hagents in *. clear Hagents a0 agents0. unfold _do_route. rewrite Hsel. cbn [rbind].
    destruct (route_loop_spec tp agents (all_subtasks r) [] [] Hag) as (ds & un & Hr & Hp & Hu & Hd).
    rewrite Hr. cbn [rbind fst snd]. eexists. rewrite routing_result_ok; [split; [done|]|]; simpl.
    + split_and!; [done| |].
      * intros i Hi. destruct (Hu i Hi) as (u & Hin & -> & Hv). exists u. split_and!; [done|done|].
        pose proof (viable_candidates_spec scorer capability u agents) as Hsp. by rewrite Hv in Hsp.
      * intros d Hi. destruct (Hd d Hi) as (u & Hin & Hdi & <- & Hv). by exists u.
    + by rewrite Hp.
Qed.

Lemma unique_unit r u v : NoDup (tree_ids r) -> u ∈ all_subtasks r -> v ∈ all_subtasks r -> sub_id u = sub_id v -> u = v.
Proof.
  intros Hnd [i Hi]%list_elem_of_lookup [j Hj]%list_elem_of_lookup He.
  assert (i = j) as ->; [|congruence]. apply (NoDup_lookup (tree_ids r) i j (sub_id u)); [done| |];
    unfold tree_ids; rewrite list_lookup_fmap; [by rewrite Hi|by rewrite Hj, He].
Qed.

(** The selected agent clears the gate of its run: the same policy answers. *)
Lemma best_clears_gate u agents a p :
  capability = Some p -> best_for u agents a ->
  is_ok (_check_capability p (agent_model a) (sub_stakes u) (sub_estimated_complexity u)) = true.
Proof.
  intros Hp [[Ha _]%andb_prop _]. unfold admitted in Ha. rewrite Hp in Ha. by rewrite check_capability_exact.
Qed.
End Route.

(** C18: the router decides every unit of a tree once: it answers for a parent
    that is the plan's and a resolved structure, whatever the agents; a unit is
    unroutable exactly when nobody admitted by its stakes clears the floor, and
    otherwise goes to the best of those: at the rung it demands, else at the
    nearest above, else the nearest below, with the highest score there and
    first in the roster among equals; the alternatives are the others of that
    rung by falling score. *)
Theorem route_exact {obj} (scorer : AgentTaskScorer) (topology_config : AutoTopologyConfig)
    (capability : option CapabilityPolicy) (r : DecompositionResult) (agents : list AgentIdentity) (t : TaskModel.Task obj) :
  NoDup (agent_id <$> agents) -> NoDup (tree_ids r) -> TaskModel.task_id t = parent r ->
  dp_task_structure (plan r) <> TaskStructure.AUTO ->
  exists rr, route scorer topology_config capability r agents t = Ok rr /\
    (decided_id <$> decisions rr) ++ unroutable rr ≡ₚ tree_ids r /\
    forall u, u ∈ all_subtasks r ->
      (sub_id u ∈ unroutable rr <-> forall a, a ∈ agents -> viable scorer capability u a = false) /\
      (forall d, d ∈ decisions rr -> decided_id d = sub_id u ->
        exists a, selected_candidate d = score_agent scorer a u /\ best_for scorer capability u agents a /\
          (forall c, c ∈ alternatives d <-> exists b, b ∈ agents /\ c = score_agent scorer b u /\
             viable scorer capability u b = true /\ rung capability b = rung capability a /\ b <> a) /\
          StronglySorted (fun c c' => score_le c c' = true) (alternatives d)).
Proof.
  intros Hag Hid Ht Hs. destruct (route_spec scorer topology_config capability r agents t Hag Hid Ht Hs)
    as (rr & Hr & Hp & Hu & Hd). exists rr. split_and!; [done|done|]. intros u Hin.
  assert (Hsel : forall d, d ∈ decisions rr -> decided_id d = sub_id u ->
    _viable_candidates scorer capability u agents = selected_candidate d :: alternatives d).
  { intros d Hdin He. destruct (Hd d Hdin) as (v & Hv & Hdv & _ & Hc).
    rewrite (unique_unit r u v Hid Hin Hv); [done|congruence]. }
  split; [split|].
  - intros Hun. destruct (Hu _ Hun) as (v & Hv & He & Hn). by rewrite (unique_unit r u v Hid Hin Hv He).
  - intros Hn. assert (Hx : sub_id u ∈ (decided_id <$> decisions rr) ++ unroutable rr).
    { rewrite Hp. unfold tree_ids. by apply list_elem_of_fmap_2. }
    apply elem_of_app in Hx as [(d & He & Hdin)%list_elem_of_fmap|]; [|done]. exfalso.
    destruct (selected_best scorer capability u agents _ _ Hag (Hsel d Hdin (eq_sym He))) as (a & _ & Ha & [Hv _] & _).
    rewrite (Hn a Ha) in Hv. done.
  - intros d Hdin He. destruct (selected_best scorer capability u agents _ _ Hag (Hsel d Hdin He)) as (a & Hc & _ & Hb & Halt & Hso).
    by exists a.
Qed.

(** C16: from the roster to the waves: routing a built tree and building its
    execution groups always succeeds; a unit is scheduled, and then once,
    exactly when it and everything it waits for, directly or through others,
    has an agent who may take it and clears the floor, in a later group than
    what it waits for; and whoever it is given
    to is the best of those and passes the gate of the run, which asks the same
    policy. *)
Theorem routed_work_dispatched {obj} (scorer : AgentTaskScorer) (topology_config : AutoTopologyConfig)
    (capability : option CapabilityPolicy) (r : DecompositionResult) (agents : list AgentIdentity) (t : TaskModel.Task obj)
    (config : Waves.CoordinationConfig) (workspaces : list Waves.Workspace) :
  built r -> NoDup (tree_ids r) -> NoDup (agent_id <$> agents) -> TaskModel.task_id t = parent r ->
  dp_task_structure (plan r) <> TaskStructure.AUTO ->
  exists rr groups, route scorer topology_config capability r agents t = Ok rr /\
    Waves.build_execution_waves r (wave_view rr) config workspaces = Ok groups /\
    NoDup (Waves.scheduled groups) /\
    (forall x, x ∈ Waves.scheduled groups <->
       x ∈ tree_ids r /\ forall y, rtc (Graphs.edge (Dag.declared (dispatch_subtasks r))) x y ->
         exists u a, u ∈ all_subtasks r /\ sub_id u = y /\ a ∈ agents /\ viable scorer capability u a = true) /\
    (forall g s, g ∈ groups -> s ∈ Waves.assignments g ->
       exists u a, u ∈ all_subtasks r /\ Waves.assigned_id s = sub_id u /\ Waves.identity s = agent_id a /\
         best_for scorer capability u agents a /\
         forall p, capability = Some p ->
           is_ok (_check_capability p (agent_model a) (sub_stakes u) (sub_estimated_complexity u)) = true) /\
    (forall i g x y, groups !! i = Some g -> x ∈ Waves.ids_of g -> y ∈ Dag.declared (dispatch_subtasks r) x ->
       exists j g', j < i /\ groups !! j = Some g' /\ y ∈ Waves.ids_of g').
Proof.
  intros Hb Hid Hag Ht Hs. destruct (route_spec scorer topology_config capability r agents t Hag Hid Ht Hs)
    as (rr & Hr & Hp & Hu & Hd).
  destruct (Waves.execution_waves_exact r (wave_view rr) config workspaces Hb Hid) as (groups & Hg & Hok & Hnd & Hsch & Hord).
  exists rr, groups. split_and!; [done|done|done| | |].
  - intros x. rewrite Hsch. apply and_iff_compat_l. split; intros Hall y Hy; specialize (Hall y Hy).
    + simpl in Hall. apply list_elem_of_fmap in Hall as (wd & -> & (d & -> & Hdin)%list_elem_of_fmap).
      destruct (Hd d Hdin) as (u & Huin & He & _ & Hc).
      destruct (selected_best scorer capability u agents _ _ Hag Hc) as (a & _ & Ha & [Hv _] & _). by exists u, a.
    + destruct Hall as (u & a & Huin & <- & Ha & Hv).
      assert (Hx : sub_id u ∈ (decided_id <$> decisions rr) ++ unroutable rr).
      { rewrite Hp. unfold tree_ids. by apply list_elem_of_fmap_2. }
      apply elem_of_app in Hx as [Hx|Hx].
      * simpl. rewrite <-list_fmap_compose. exact Hx.
      * destruct (Hu _ Hx) as (v & Hvin & He & Hn). rewrite (unique_unit r u v Hid Huin Hvin He) in Hv. by rewrite (Hn a Ha) in Hv.
  - intros g s Hgin Hsin. destruct (Hok g Hgin) as [_ Hh]. rewrite Forall_forall in Hh.
    destruct (Hh s Hsin) as (tk & wd & _ & Hlook & Hident & _).
    unfold Waves._build_routing_lookup, dict_of in Hlook. apply elem_of_list_to_map_2 in Hlook.
    rewrite elem_of_reverse in Hlook. apply list_elem_of_fmap in Hlook as (wd' & [= He ->] & (d & -> & Hdin)%list_elem_of_fmap).
    destruct (Hd d Hdin) as (u & Huin & Hdi & _ & Hc).
    destruct (selected_best scorer capability u agents _ _ Hag Hc) as (a & Hca & Ha & Hbest & _). exists u, a.
    simpl in *. split_and!; [done|congruence| |done|].
    + by rewrite Hident, Hca, scored_identity.
    + intros p Hcp. by eapply best_clears_gate.
  - intros i g x y Hi Hx Hy. destruct (Hord i g x y Hi Hx Hy) as (j & g' & ? & ? & ? & _). by exists j, g'.
Qed.

(** ** A roster *)

Module Roster.

Definition skill (i : string) (p : Q) : Skill := {| skill_id := i; skill_name := i; skill_description := "";
  skill_tags := []; input_modes := ["text/plain"]; output_modes := ["text/plain"]; proficiency := p |}.

Definition binding (c : option CapabilityLevel) : ModelConfig := {| provider := "local"; model_id := "m-1";
  temperature := 7 # 10; top_p := None; reasoning_effort_of := None; max_tokens := None; claimed_capability := c |}.

Definition agent (i role : string) (skills : list Skill) (c : option CapabilityLevel) : AgentIdentity := {|
  agent_id := i; agent_name := i; agent_role := role; agent_status := AgentStatus.ACTIVE;
  agent_skills := {| primary := skills; secondary := [] |}; agent_model := binding c |}.

Definition ada : AgentIdentity := agent "ada" "architect" [skill "ux" 1] (Some expert).
Definition bob : AgentIdentity := agent "bob" "engineer" [skill "go" (4 # 5)] (Some capable).
Definition cyd : AgentIdentity := agent "cyd" "engineer" [skill "go" 1] (Some basic).
Definition dan : AgentIdentity := agent "dan" "engineer" [skill "go" 1] None.

Definition roster : list AgentIdentity := [cyd; bob; ada; dan].

Definition needs (u : SubtaskDefinition) (skills : list string) (s : Stakes.Stakes) : SubtaskDefinition := {|
  sub_id := sub_id u; sub_title := sub_title u; sub_description := sub_description u;
  sub_dependencies := sub_dependencies u; sub_required_skills := skills; sub_required_tags := [];
  sub_required_role := None; sub_expected_artifacts := sub_expected_artifacts u;
  sub_acceptance_criteria := []; sub_satisfies := []; sub_estimated_complexity := sub_estimated_complexity u;
  sub_stakes := s; sub_kind := sub_kind u; sub_options := []; sub_unsplit_reason := None |}.

Definition work : DecompositionResult := level "u1" 0
  [needs (Dag.unit_subtask "design" []) ["ux"] Stakes.HIGH; needs (Dag.unit_subtask "api" ["design"]) ["go"] Stakes.NORMAL;
   needs (Dag.unit_subtask "docs" ["api"]) ["latin"] Stakes.LOW] [].

Definition objective : TaskModel.Task Plain.pyobj := Plain.task.
Definition policy : CapabilityPolicy := {| _config := default_policy_config; _reader := fun _ _ => None |}.
Definition scorer : AgentTaskScorer := {| scorer_config := default_scorer_config; _min_score := 1 # 10 |}.

Definition routed : result RoutingError RoutingResult :=
  route scorer default_topology_config (Some policy) work roster objective.

Definition chosen (r : result RoutingError RoutingResult) : list (string * string) * list string :=
  match r with
  | Ok r => ((fun d => (decided_id d, candidate_id (selected_candidate d))) <$> decisions r, unroutable r)
  | Err _ => ([], [])
  end.

(** A capable model takes the work that demands one, although a basic one
    scores higher; nobody speaks Latin. *)
Example work_routed : chosen routed = ([("design", "ada"); ("api", "bob")], ["docs"]).
Proof. vm_compute. reflexivity. Qed.

Lemma work_built : built work.
Proof. constructor; [vm_compute; reflexivity..|]. constructor. Qed.

Lemma work_nodup : NoDup (tree_ids work).
Proof. apply (bool_decide_unpack _). vm_compute. exact I. Qed.

Lemma roster_nodup : NoDup (agent_id <$> roster).
Proof. apply (bool_decide_unpack _). vm_compute. exact I. Qed.

(** With the floor at its lowest an agent on leave is selected. *)
Definition away : AgentIdentity := {| agent_id := "eve"; agent_name := "eve"; agent_role := "engineer";
  agent_status := AgentStatus.ON_LEAVE; agent_skills := {| primary := []; secondary := [] |}; agent_model := binding (Some expert) |}.

Lemma inactive_selected_at_zero :
  new_scorer (Some 0%Q) None = Ok {| scorer_config := default_scorer_config; _min_score := 0 |} /\
  chosen (route {| scorer_config := default_scorer_config; _min_score := 0 |} default_topology_config (Some policy)
    work [away] objective) = ([("design", "eve"); ("api", "eve"); ("docs", "eve")], []).
Proof. split; vm_compute; reflexivity. Qed.

(** A unit that asks for no skill and no role gets nobody, with an expert idle. *)
Lemma undemanding_unroutable :
  chosen (route scorer default_topology_config (Some policy) (level "u1" 0 [Dag.unit_subtask "notes" []] []) [ada] objective)
  = ([], ["notes"]).
Proof. vm_compute. reflexivity. Qed.

End Roster.

Lemma route_exact_witness :
  match Roster.routed with
  | Ok rr => "docs" ∈ unroutable rr /\
      forall a, a ∈ Roster.roster -> viable Roster.scorer (Some Roster.policy) (Roster.needs (Dag.unit_subtask "docs" ["api"]) ["latin"] Stakes.LOW) a = false
  | Err _ => False
  end.
Proof.
  destruct (route_exact Roster.scorer default_topology_config (Some Roster.policy) Roster.work Roster.roster Roster.objective
    Roster.roster_nodup Roster.work_nodup eq_refl ltac:(discriminate)) as (rr & Hr & _ & Hu).
  unfold Roster.routed. rewrite Hr.
  destruct (Hu (Roster.needs (Dag.unit_subtask "docs" ["api"]) ["latin"] Stakes.LOW)) as [Hun _].
  { apply list_elem_of_In. right; right; left. reflexivity. }
  assert (Hin : "docs" ∈ unroutable rr).
  { pose proof Roster.work_routed as Hw. unfold Roster.routed in Hw. rewrite Hr in Hw. injection Hw as _ ->. by left. }
  split; [exact Hin|]. by apply Hun.
Defined.

Lemma routed_work_dispatched_witness :
  exists groups, "api" ∈ Waves.scheduled groups /\ "docs" ∉ Waves.scheduled groups.
Proof.
  destruct (routed_work_dispatched Roster.scorer default_topology_config (Some Roster.policy) Roster.work Roster.roster
    Roster.objective Waves.portal_config [] Roster.work_built Roster.work_nodup Roster.roster_nodup eq_refl ltac:(discriminate))
    as (rr & groups & Hr & Hg & _ & Hs & _).
  assert (Hrr : Roster.routed = Ok rr) by exact Hr.
  exists groups.
  assert (Hids : match Roster.routed with
    | Ok rr => match Waves.build_execution_waves Roster.work (wave_view rr) Waves.portal_config [] with
        | Ok gs => Waves.scheduled gs = ["design"; "api"] | Err _ => False end
    | Err _ => False end) by (vm_compute; reflexivity).
  rewrite Hrr, Hg in Hids. rewrite Hids. split; apply (bool_decide_unpack _); vm_compute; exact I.
Defined.
