(* ===== verification/Assignment.v ===== *)
(** * Assignment

    Who gets a task that is not split: the requests and results of
    [engine/assignment/models.py], the pool filters, the rankers, the scoring
    strategy, the manual one, the registry and the service of
    [engine/assignment/], and the pick of [engine/pipeline/_solo_selection.py].
    The message of a reason is its constructor. *)

From stdpp Require Import gmap strings list sorting relations.
From Stdlib Require Import ZArith QArith Lia.
From S2P Require Import Prelude TaskEnums TaskTransitions PlanUnits TaskModel Capability Hierarchy Routing.
From S2P Require SecurityModel.
Import SecurityModel (Raised, Ordinary, Critical, Critical_group).
#[local] Open Scope nat_scope.
#[local] Open Scope py_scope.

(** ** Requests *)

Record AgentWorkload := { wl_agent_id : string; active_task_count : Z; total_cost : Q }.

(** [AssignmentCandidate] has the fields of a routing candidate, copied. *)
Definition AssignmentCandidate : Type := RoutingCandidate.

Record AssignmentRequest {obj : Type} := {
  request_task : TaskModel.Task obj;
  available_agents : list AgentIdentity;
  workloads : list AgentWorkload;
  min_score : Q;
  request_low_confidence_score : Q;
  required_skills : list string;
  required_role : option string;
  max_concurrent_tasks : option Z;
  required_capability : option CapabilityLevel;
}.
Arguments AssignmentRequest : clear implicits.

Inductive RequestError :=
| No_available_agents
| Duplicate_agents (dupes : list string)
| Duplicate_workloads (dupes : list string).

(** The reasons of results without a selection, and of those with one. *)
Inductive AssignmentReason :=
| Best_match (name : string)
| Least_loaded (name : string)
| Best_match_without_workloads (name : string)
| Cheapest (name : string)
| Best_match_without_costs (name : string)
| Auction_winner (name : string)
| Manually_assigned_to (name : string)
| Delegated_from (delegator name : string)
| No_agents_for_task
| No_candidates
| Delegator_unknown (delegator : string)
| No_subordinates (delegator : string)
| Hierarchy_lookup_failed (delegator stage : string)
| Below_capability (required : option CapabilityLevel) (stakes : Stakes.Stakes)
| None_above_threshold (min : Q).

Inductive AssignError :=
| Bad_request (e : RequestError)
| Not_assignable (s : TaskStatus.TaskStatus)
| No_assigned_to
| Designated_not_found (designated : string)
| Designated_not_active (name : string) (s : AgentStatus.AgentStatus)
| Ranking_selected_twice (name : string)
| Result_selected_twice (name : string)
| Empty_pool_without_reason
| Nothing_to_rank
| Pool_with_reason
| Passed_on (e : Raised).

Record AssignmentResult := {
  result_task_id : string;
  strategy_used : string;
  selected : option AssignmentCandidate;
  low_confidence : bool;
  result_alternatives : list AssignmentCandidate;
  result_reason : AssignmentReason;
}.

Definition name_of (c : AssignmentCandidate) : string := agent_name (agent_identity c).

(** [AssignmentResult._validate_selected_not_in_alternatives]. *)
Definition new_assignment_result (r : AssignmentResult) : result AssignError AssignmentResult :=
  match selected r with
  | None => Ok r
  | Some c =>
      ensure negb (bool_decide (candidate_id c ∈ candidate_id <$> result_alternatives r))
        else Result_selected_twice (name_of c) in
      Ok r
  end.

Section Assignment.
Context {obj : Type}.
#[local] Notation AssignmentRequest := (AssignmentRequest obj).

Definition _validate_collections (r : AssignmentRequest) : result RequestError unit :=
  ensure negb (bool_decide (available_agents r = [])) else No_available_agents in
  let agent_ids := agent_id <$> available_agents r in
  ensure bool_decide (duplicates agent_ids = []) else Duplicate_agents (duplicates agent_ids) in
  let wl_ids := wl_agent_id <$> workloads r in
  ensure bool_decide (duplicates wl_ids = []) else Duplicate_workloads (duplicates wl_ids) in
  Ok tt.

Definition stakes (r : AssignmentRequest) : Stakes.Stakes := task_stakes (request_task r).

Definition effective_low_confidence_score (r : AssignmentRequest) : Q :=
  Qmax_py (request_low_confidence_score r) (min_score r).

(** [model_copy(update={...})]. *)
Definition with_agents (agents : list AgentIdentity) (r : AssignmentRequest) : AssignmentRequest := {|
  request_task := request_task r; available_agents := agents; workloads := workloads r; min_score := min_score r;
  request_low_confidence_score := request_low_confidence_score r; required_skills := required_skills r;
  required_role := required_role r; max_concurrent_tasks := max_concurrent_tasks r;
  required_capability := required_capability r |}.

Definition with_capability (c : CapabilityLevel) (r : AssignmentRequest) : AssignmentRequest := {|
  request_task := request_task r; available_agents := available_agents r; workloads := workloads r;
  min_score := min_score r; request_low_confidence_score := request_low_confidence_score r;
  required_skills := required_skills r; required_role := required_role r;
  max_concurrent_tasks := max_concurrent_tasks r; required_capability := Some c |}.

(** ** Scoring *)

Definition build_subtask_definition (r : AssignmentRequest) : SubtaskDefinition := {|
  sub_id := task_id (request_task r); sub_title := task_title (request_task r);
  sub_description := task_description (request_task r); sub_dependencies := [];
  sub_required_skills := required_skills r; sub_required_tags := []; sub_required_role := required_role r;
  sub_expected_artifacts := []; sub_acceptance_criteria := []; sub_satisfies := [];
  sub_estimated_complexity := task_estimated_complexity (request_task r); sub_stakes := Stakes.NORMAL;
  sub_kind := PlanItemKind.WORK; sub_options := []; sub_unsplit_reason := None |}.

Definition workload_map (r : AssignmentRequest) : gmap string Z :=
  dict_of ((fun w => (wl_agent_id w, active_task_count w)) <$> workloads r).

Definition cost_map (r : AssignmentRequest) : gmap string Q :=
  dict_of ((fun w => (wl_agent_id w, total_cost w)) <$> workloads r).

(** Who is missing from the workloads has no active task. *)
Definition at_capacity (r : AssignmentRequest) (a : AgentIdentity) : bool :=
  match max_concurrent_tasks r with
  | None => false
  | Some m =>
      negb (bool_decide (workloads r = [])) && (m <=? default 0%Z (workload_map r !! agent_id a))%Z
  end.

Definition is_active (a : AgentIdentity) : bool := bool_decide (agent_status a = AgentStatus.ACTIVE).

(** [not subtask.required_role and not subtask.required_skills]; a role is not
    blank. *)
Definition unconstrained (r : AssignmentRequest) : bool :=
  match required_role r with Some (String _ _) => false | _ => true end && bool_decide (required_skills r = []).

Definition score_and_filter_candidates (scorer : AgentTaskScorer) (r : AssignmentRequest) (u : SubtaskDefinition)
    : list AssignmentCandidate :=
  let open := List.filter (fun a => is_active a && negb (at_capacity r a)) (available_agents r) in
  let scored := (fun a => score_agent scorer a u) <$> open in
  let above_min := List.filter (fun c => Qle_bool (min_score r) (score c)) scored in
  by_score (if unconstrained r && bool_decide (above_min = []) then scored else above_min).

(** ** Pool filters *)

Record PoolFilterResult := {
  pool_agents : list AgentIdentity;
  pool_reason : option AssignmentReason;
  rewrite_success_reason : option (AssignmentCandidate -> result Raised AssignmentReason);
}.

(** [PoolFilterResult.__post_init__]. *)
Definition new_pool_result (p : PoolFilterResult) : result AssignError PoolFilterResult :=
  match pool_agents p, pool_reason p with
  | [], None => Err Empty_pool_without_reason
  | _ :: _, Some _ => Err Pool_with_reason
  | _, _ => Ok p
  end.

(** What the hierarchical filter asks of a hierarchy; a lookup may fail. *)
Record HierarchyLookup := {
  ask_supervisor : string -> result Raised (option string);
  ask_direct_reports : string -> result Raised (list string);
  ask_is_subordinate : string -> string -> result Raised bool;
}.

(** The resolver answers from its dictionaries. *)
Definition lookup_in (h : HierarchyResolver) : HierarchyLookup := {|
  ask_supervisor a := Ok (get_supervisor h a);
  ask_direct_reports a := Ok (get_direct_reports h a);
  ask_is_subordinate s x := Ok (is_subordinate h s x) |}.

Inductive CandidatePoolFilter := IdentityPoolFilter | HierarchicalPoolFilter (h : HierarchyLookup).

Definition _resolve_delegator (r : AssignmentRequest) : string :=
  default (task_created_by (request_task r)) (last (task_delegation_chain (request_task r))).

Section Hierarchical.
Context (h : HierarchyLookup).

Definition _is_known_delegator (delegator : string) : result Raised bool :=
  let* reports := ask_direct_reports h delegator in
  let* supervisor := ask_supervisor h delegator in
  Ok (negb (bool_decide (reports = [])) || bool_decide (is_Some supervisor)).

(** The generator over the pool: the name is asked first, the id only if the
    name is not below. *)
Fixpoint subordinates_of (delegator : string) (agents : list AgentIdentity) : result Raised (list AgentIdentity) :=
  match agents with
  | [] => Ok []
  | a :: agents =>
      let* by_name := ask_is_subordinate h delegator (agent_name a) in
      let* below := if by_name then Ok true else ask_is_subordinate h delegator (agent_id a) in
      let* rest := subordinates_of delegator agents in
      Ok (if below then a :: rest else rest)
  end.

Definition _filter_by_hierarchy (r : AssignmentRequest) (delegator : string) : result Raised (list AgentIdentity) :=
  let* reports := ask_direct_reports h delegator in
  let direct := List.filter (fun a => bool_decide (agent_name a ∈ reports) || bool_decide (agent_id a ∈ reports))
    (available_agents r) in
  match direct with
  | [] => subordinates_of delegator (available_agents r)
  | _ => Ok direct
  end.

Definition empty_pool (reason : AssignmentReason) : result AssignError PoolFilterResult :=
  new_pool_result {| pool_agents := []; pool_reason := Some reason; rewrite_success_reason := None |}.

(** [except Exception]: an ordinary failure is an empty pool. *)
Definition looked_up {A} (delegator stage : string) (r : result Raised A) (k : A -> result AssignError PoolFilterResult)
    : result AssignError PoolFilterResult :=
  match r with
  | Ok a => k a
  | Err e => if SecurityModel._contains_critical e then Err (Passed_on e)
             else empty_pool (Hierarchy_lookup_failed delegator stage)
  end.

Definition hierarchical_filter (r : AssignmentRequest) : result AssignError PoolFilterResult :=
  let delegator := _resolve_delegator r in
  looked_up delegator "is_known_delegator" (_is_known_delegator delegator) (fun known =>
    if negb known then empty_pool (Delegator_unknown delegator)
    else looked_up delegator "filter_by_hierarchy" (_filter_by_hierarchy r delegator) (fun subordinates =>
      match subordinates with
      | [] => empty_pool (No_subordinates delegator)
      | _ => new_pool_result {| pool_agents := subordinates; pool_reason := None;
               rewrite_success_reason := Some (fun c => Ok (Delegated_from delegator (name_of c))) |}
      end)).
End Hierarchical.

Definition pool_filter (f : CandidatePoolFilter) (r : AssignmentRequest) : result AssignError PoolFilterResult :=
  match f with
  | IdentityPoolFilter =>
      match available_agents r with
      | [] => empty_pool No_agents_for_task
      | agents => new_pool_result {| pool_agents := agents; pool_reason := None; rewrite_success_reason := None |}
      end
  | HierarchicalPoolFilter h => hierarchical_filter h r
  end.

(** ** Rankers *)

Inductive CandidateRanker := ScoreDescendingRanker | WorkloadAscendingRanker | CostDescendingRanker | AuctionBidRanker.

Record RankingResult := {
  ranking_selected : AssignmentCandidate;
  ranking_alternatives : list AssignmentCandidate;
  ranking_reason : AssignmentReason;
}.

(** [RankingResult.__post_init__]. *)
Definition new_ranking_result (k : RankingResult) : result AssignError RankingResult :=
  ensure negb (bool_decide (candidate_id (ranking_selected k) ∈ candidate_id <$> ranking_alternatives k))
    else Ranking_selected_twice (name_of (ranking_selected k)) in
  Ok k.

Definition _candidates_covered_by {V} (candidates : list AssignmentCandidate) (m : gmap string V) : bool :=
  forallb (fun c => bool_decide (is_Some (m !! candidate_id c))) candidates.

Definition has_complete_data {V} (candidates : list AssignmentCandidate) (m : gmap string V) : bool :=
  negb (bool_decide (m = ∅)) && _candidates_covered_by candidates m.

Definition _score_ordered_alternatives (candidates : list AssignmentCandidate) (selected_agent_id : string)
    : list AssignmentCandidate :=
  List.filter (fun c => negb (bool_decide (candidate_id c = selected_agent_id))) candidates.

(** [<=] on pairs of numbers. *)
Definition key_le (p q : Q * Q) : bool :=
  negb (Qle_bool q.1 p.1) || (Qeq_bool p.1 q.1 && Qle_bool p.2 q.2).

(** [candidates[0]], the rest in order. *)
Definition take_first (candidates : list AssignmentCandidate) (reason : string -> AssignmentReason)
    : result AssignError RankingResult :=
  match candidates with
  | [] => Err Nothing_to_rank
  | c :: rest => new_ranking_result {| ranking_selected := c; ranking_alternatives := rest;
                                       ranking_reason := reason (name_of c) |}
  end.

(** The first of the candidates sorted by [le]. *)
Definition take_least (le : AssignmentCandidate -> AssignmentCandidate -> bool) (candidates : list AssignmentCandidate)
    (reason : string -> AssignmentReason) : result AssignError RankingResult :=
  match sort_by le candidates with
  | [] => Err Nothing_to_rank
  | c :: _ => new_ranking_result {| ranking_selected := c;
                ranking_alternatives := _score_ordered_alternatives candidates (candidate_id c);
                ranking_reason := reason (name_of c) |}
  end.

Section Rankers.
Context (r : AssignmentRequest).

Definition load_of (c : AssignmentCandidate) : Q := inject_Z (default 0%Z (workload_map r !! candidate_id c)).
Definition cost_of (c : AssignmentCandidate) : Q := default 0%Q (cost_map r !! candidate_id c).

Definition availability (complete : bool) (c : AssignmentCandidate) : Q :=
  if complete then (1 / (1 + load_of c))%Q else 1%Q.

Definition bid (complete : bool) (c : AssignmentCandidate) : Q := (score c * availability complete c)%Q.

Definition workload_key (c : AssignmentCandidate) : Q * Q := (load_of c, - score c)%Q.
Definition cost_key (c : AssignmentCandidate) : Q * Q := (cost_of c, - score c)%Q.
Definition bid_key (complete : bool) (c : AssignmentCandidate) : Q * Q := (bid complete c, score c).

Definition rank (k : CandidateRanker) (candidates : list AssignmentCandidate) : result AssignError RankingResult :=
  match k with
  | ScoreDescendingRanker => take_first candidates Best_match
  | WorkloadAscendingRanker =>
      if has_complete_data candidates (workload_map r)
      then take_least (fun a b => key_le (workload_key a) (workload_key b)) candidates Least_loaded
      else take_first candidates Best_match_without_workloads
  | CostDescendingRanker =>
      if has_complete_data candidates (cost_map r)
      then take_least (fun a b => key_le (cost_key a) (cost_key b)) candidates Cheapest
      else take_first candidates Best_match_without_costs
  | AuctionBidRanker =>
      let complete := has_complete_data candidates (workload_map r) in
      take_least (fun a b => key_le (bid_key complete b) (bid_key complete a)) candidates Auction_winner
  end.
End Rankers.

(** ** Strategies *)

Record ScoringBasedAssignmentStrategy := {
  st_name : string;
  st_scorer : AgentTaskScorer;
  st_pool_filter : CandidatePoolFilter;
  st_ranker : CandidateRanker;
  st_capability : option CapabilityPolicy;
}.

Definition may_take (p : CapabilityPolicy) (r : AssignmentRequest) (a : AgentIdentity) : bool :=
  sanctioned (judge p (agent_model a) (stakes r) (task_estimated_complexity (request_task r))).

Definition _best_fitting_band (s : ScoringBasedAssignmentStrategy) (r : AssignmentRequest) (agents : list AgentIdentity)
    : list AgentIdentity :=
  match required_capability r, st_capability s with
  | Some required, Some p =>
      match partition_by_fit (fun a => rank_of (capability_of p (agent_model a))) (rank_of (Some required))
              (List.filter (may_take p r) agents) with
      | None => []
      | Some (band, _) => band
      end
  | _, _ => agents
  end.

(** [_effective_request] is [with_agents]: an unchanged pool gives the request
    back. *)
Definition _compose_reason (rewriter : option (AssignmentCandidate -> result Raised AssignmentReason)) (k : RankingResult)
    : result AssignError AssignmentReason :=
  match rewriter with
  | None => Ok (ranking_reason k)
  | Some f =>
      match f (ranking_selected k) with
      | Ok reason => Ok reason
      | Err e => if SecurityModel._contains_critical e then Err (Passed_on e) else Ok (ranking_reason k)
      end
  end.

(** A result without a selection. *)
Definition nobody (r : AssignmentRequest) (strategy : string) (reason : AssignmentReason) : AssignmentResult := {|
  result_task_id := task_id (request_task r); strategy_used := strategy; selected := None; low_confidence := false;
  result_alternatives := []; result_reason := reason |}.

(** A pool that is empty carries its reason ([new_pool_result]), so the generic
    one is not reached. *)
Definition _empty_pool_result (s : ScoringBasedAssignmentStrategy) (r : AssignmentRequest)
    (reason : option AssignmentReason) : AssignmentResult :=
  nobody r (st_name s) (default No_candidates reason).

Definition scoring_assign (s : ScoringBasedAssignmentStrategy) (r : AssignmentRequest) : result AssignError AssignmentResult :=
  let* pool := pool_filter (st_pool_filter s) r in
  if bool_decide (pool_agents pool = []) then new_assignment_result (_empty_pool_result s r (pool_reason pool))
  else
    let capable := _best_fitting_band s r (pool_agents pool) in
    if bool_decide (capable = [])
    then new_assignment_result (nobody r (st_name s) (Below_capability (required_capability r) (stakes r)))
    else
      let effective := with_agents capable r in
      let candidates := score_and_filter_candidates (st_scorer s) effective (build_subtask_definition effective) in
      if bool_decide (candidates = [])
      then new_assignment_result (nobody effective (st_name s) (None_above_threshold (min_score effective)))
      else
        let* ranking := rank effective (st_ranker s) candidates in
        let low := negb (Qle_bool (effective_low_confidence_score effective) (score (ranking_selected ranking))) in
        let* reason := _compose_reason (rewrite_success_reason pool) ranking in
        new_assignment_result {| result_task_id := task_id (request_task r); strategy_used := st_name s;
          selected := Some (ranking_selected ranking); low_confidence := low;
          result_alternatives := ranking_alternatives ranking; result_reason := reason |}.

Definition agent_named (by_key : AgentIdentity -> string) (designated : string) (agents : list AgentIdentity)
    : option AgentIdentity :=
  List.find (fun a => bool_decide (by_key a = designated)) agents.

(** The id takes precedence over the name. *)
Definition _find_designated_agent (r : AssignmentRequest) : result AssignError AgentIdentity :=
  match task_assigned_to (request_task r) with
  | None => Err No_assigned_to
  | Some designated =>
      let found := match agent_named agent_id designated (available_agents r) with
                   | Some a => Some a
                   | None => agent_named agent_name designated (available_agents r)
                   end in
      match found with
      | None => Err (Designated_not_found designated)
      | Some a =>
          ensure bool_decide (agent_status a = AgentStatus.ACTIVE)
            else Designated_not_active (agent_name a) (agent_status a) in
          Ok a
      end
  end.

Definition STRATEGY_NAME_MANUAL : string := "manual".
Definition STRATEGY_NAME_ROLE_BASED : string := "role_based".
Definition STRATEGY_NAME_LOAD_BALANCED : string := "load_balanced".
Definition STRATEGY_NAME_COST_OPTIMIZED : string := "cost_optimized".
Definition STRATEGY_NAME_HIERARCHICAL : string := "hierarchical".
Definition STRATEGY_NAME_AUCTION : string := "auction".

Definition manual_assign (r : AssignmentRequest) : result AssignError AssignmentResult :=
  let* a := _find_designated_agent r in
  new_assignment_result {| result_task_id := task_id (request_task r); strategy_used := STRATEGY_NAME_MANUAL;
    selected := Some {| agent_identity := a; score := 1; matched_skills := []; reason := Manually_assigned |};
    low_confidence := false; result_alternatives := []; result_reason := Manually_assigned_to (agent_name a) |}.

Inductive TaskAssignmentStrategy :=
| ManualAssignmentStrategy
| ScoringBased (s : ScoringBasedAssignmentStrategy).

Definition strategy_name (s : TaskAssignmentStrategy) : string :=
  match s with ManualAssignmentStrategy => STRATEGY_NAME_MANUAL | ScoringBased s => st_name s end.

Definition strategy_assign (s : TaskAssignmentStrategy) (r : AssignmentRequest) : result AssignError AssignmentResult :=
  match s with ManualAssignmentStrategy => manual_assign r | ScoringBased s => scoring_assign s r end.

Definition _SCORING_STRATEGY_SPECS : list (string * CandidateRanker) :=
  [(STRATEGY_NAME_ROLE_BASED, ScoreDescendingRanker); (STRATEGY_NAME_LOAD_BALANCED, WorkloadAscendingRanker);
   (STRATEGY_NAME_COST_OPTIMIZED, CostDescendingRanker); (STRATEGY_NAME_AUCTION, AuctionBidRanker)].

Definition _build_scoring_strategies (scorer : AgentTaskScorer) (capability : option CapabilityPolicy)
    : list (string * TaskAssignmentStrategy) :=
  (fun '(name, ranker) => (name, ScoringBased {| st_name := name; st_scorer := scorer;
     st_pool_filter := IdentityPoolFilter; st_ranker := ranker; st_capability := capability |})) <$>
  _SCORING_STRATEGY_SPECS.

Definition _DEFAULT_SCORER : AgentTaskScorer :=
  {| scorer_config := default_scorer_config; _min_score := cfg_min_score default_scorer_config |}.

Definition build_strategy_map (hierarchy : option HierarchyLookup) (scorer : option AgentTaskScorer)
    (capability : option CapabilityPolicy) : gmap string TaskAssignmentStrategy :=
  let effective_scorer := default _DEFAULT_SCORER scorer in
  let strategies := dict_of ((STRATEGY_NAME_MANUAL, ManualAssignmentStrategy) ::
    _build_scoring_strategies effective_scorer capability) in
  match hierarchy with
  | None => strategies
  | Some h => <[STRATEGY_NAME_HIERARCHICAL := ScoringBased {| st_name := STRATEGY_NAME_HIERARCHICAL;
      st_scorer := effective_scorer; st_pool_filter := HierarchicalPoolFilter h; st_ranker := ScoreDescendingRanker;
      st_capability := capability |}]> strategies
  end.

(** ** The service *)

Record TaskAssignmentService := { _strategy : TaskAssignmentStrategy; sv_capability : option CapabilityPolicy }.

Definition _ASSIGNABLE_STATUSES : list TaskStatus.TaskStatus :=
  [TaskStatus.CREATED; TaskStatus.FAILED; TaskStatus.INTERRUPTED; TaskStatus.SUSPENDED].

(** The requirement the service stamps on a request. *)
Definition stamp (p : CapabilityPolicy) (r : AssignmentRequest) : AssignmentRequest :=
  with_capability (required_for p (task_stakes (request_task r)) (task_estimated_complexity (request_task r))) r.

Definition stamped (sv : TaskAssignmentService) (r : AssignmentRequest) : AssignmentRequest :=
  match sv_capability sv with Some p => stamp p r | None => r end.

Definition _refuse_unsanctioned (p : CapabilityPolicy) (name : string) (r : AssignmentRequest) : option AssignmentResult :=
  match required_capability r with
  | None => None
  | Some required =>
      if existsb (may_take p r) (available_agents r) then None
      else Some (nobody r name (Below_capability (Some required) (stakes r)))
  end.

Definition service_assign (sv : TaskAssignmentService) (r : AssignmentRequest) : result AssignError AssignmentResult :=
  let r := stamped sv r in
  let status := task_status (request_task r) in
  ensure bool_decide (status ∈ _ASSIGNABLE_STATUSES) else Not_assignable status in
  match (p ← sv_capability sv; _refuse_unsanctioned p (strategy_name (_strategy sv)) r) with
  | Some refusal => new_assignment_result refusal
  | None => strategy_assign (_strategy sv) r
  end.

(** ** The pick of the pipeline *)

Inductive SoloError :=
| No_active_agents
| None_above_routing_threshold (min : Q)
| Service_selected_nobody (reason : AssignmentReason)
| Solo_assign_error (e : AssignError)
| Unknown_strategy (name : string).

Definition solo_request (t : TaskModel.Task obj) (agents : list AgentIdentity) (scorer : AgentTaskScorer)
    : AssignmentRequest := {|
  request_task := t; available_agents := agents; workloads := []; min_score := _min_score scorer;
  request_low_confidence_score := low_confidence_score scorer; required_skills := []; required_role := None;
  max_concurrent_tasks := None; required_capability := None |}.

Definition _select_via_service (t : TaskModel.Task obj) (agents : list AgentIdentity) (scorer : AgentTaskScorer)
    (service : TaskAssignmentService) : result SoloError string :=
  let request := solo_request t agents scorer in
  match _validate_collections request with
  | Err e => Err (Solo_assign_error (Bad_request e))
  | Ok _ =>
      match service_assign service request with
      | Err e => Err (Solo_assign_error e)
      | Ok res =>
          match selected res with
          | None => Err (Service_selected_nobody (result_reason res))
          | Some c => Ok (candidate_id c)
          end
      end
  end.

(** [(score, id)], the greatest first. *)
Definition best_scored_first (a b : RoutingCandidate) : bool :=
  negb (Qle_bool (score a) (score b)) ||
  (Qeq_bool (score a) (score b) && String.leb (candidate_id b) (candidate_id a)).

Definition select_solo_agent (t : TaskModel.Task obj) (agents : list AgentIdentity) (scorer : AgentTaskScorer)
    (assignment_service : option TaskAssignmentService) : result SoloError string :=
  ensure negb (bool_decide (agents = [])) else No_active_agents in
  match assignment_service with
  | Some service => _select_via_service t agents scorer service
  | None =>
      let proxy := build_subtask_definition (solo_request t agents scorer) in
      let candidates := (fun a => score_agent scorer a proxy) <$> agents in
      let viable := List.filter (fun c => Qle_bool (_min_score scorer) (score c)) candidates in
      match sort_by best_scored_first viable with
      | [] => Err (None_above_routing_threshold (_min_score scorer))
      | best :: _ => Ok (candidate_id best)
      end
  end.

Definition build_solo_assignment_service (assignment_strategy : string) (scorer : AgentTaskScorer)
    (capability : option CapabilityPolicy) : result SoloError TaskAssignmentService :=
  let strategies := build_strategy_map None (Some scorer) capability in
  match strategies !! assignment_strategy with
  | Some s => Ok {| _strategy := s; sv_capability := capability |}
  | None =>
      ensure bool_decide (assignment_strategy = STRATEGY_NAME_HIERARCHICAL) else Unknown_strategy assignment_strategy in
      match strategies !! STRATEGY_NAME_ROLE_BASED with
      | Some s => Ok {| _strategy := s; sv_capability := capability |}
      | None => Err (Unknown_strategy STRATEGY_NAME_ROLE_BASED)
      end
  end.
End Assignment.
