(* ===== verification/AssignmentSpec.v ===== *)
(** * What assignment promises

    Who is eligible for a task and which of those a ranker prefers, stated
    without the code's lists, and the assignment service of Assignment.v against
    it: somebody is selected exactly when somebody is eligible, and it is the
    first in the roster of those nobody eligible is preferred to. The pick of
    the pipeline for a task that is not split follows. *)

From stdpp Require Import gmap strings list sorting relations.
From Stdlib Require Import ZArith QArith Lia Lqa.
From S2P Require Import Prelude TaskEnums TaskTransitions PlanUnits TaskModel Graphs Capability Hierarchy Routing Assignment.
From S2P Require SecurityModel.
Import SecurityModel (Raised, Ordinary, Critical, Critical_group).
#[local] Open Scope nat_scope.
#[local] Open Scope py_scope.

(** ** The choice of a ranker *)

(** A stable sort keeps the order of equals. *)
Lemma insert_by_sublist {A} (le : A -> A -> bool) x l : l `sublist_of` insert_by le x l.
Proof.
  induction l as [|y l IH]; simpl; [by constructor|]. case_match; [by constructor|by constructor].
Qed.

Lemma insert_by_before {A} (le : A -> A -> bool) x y l :
  y ∈ l -> le x y = true -> [x; y] `sublist_of` insert_by le x l.
Proof.
  intros Hy Hle. induction l as [|z l IH]; [by apply elem_of_nil in Hy|]. simpl. destruct (le x z) eqn:Hz.
  - by apply sublist_skip, singleton_sublist_l.
  - apply elem_of_cons in Hy as [->|Hy]; [congruence|]. apply sublist_cons. by apply IH.
Qed.

Lemma sort_by_stable {A} (le : A -> A -> bool) x y l :
  [x; y] `sublist_of` l -> le x y = true -> [x; y] `sublist_of` sort_by le l.
Proof.
  intros Hl Hle. induction l as [|z l IH]; [by inversion Hl|]. simpl. inversion Hl; subst.
  - apply insert_by_before; [|done]. apply sort_by_elem. by apply singleton_sublist_l.
  - etransitivity; [by apply IH|]. apply insert_by_sublist.
Qed.

Lemma key_le_iff p q : key_le p q = true <-> (p.1 < q.1 \/ p.1 == q.1 /\ p.2 <= q.2)%Q.
Proof.
  unfold key_le. rewrite orb_true_iff, andb_true_iff, negb_true_iff, Qeq_bool_iff, Qle_bool_iff, <-not_true_iff_false, Qle_bool_iff.
  split; (intros [H|H]; [left|right; done]); lra.
Qed.

Lemma key_le_total p q : key_le p q = true \/ key_le q p = true.
Proof.
  rewrite !key_le_iff. destruct (Q_dec p.1 q.1) as [[?|?]|?]; [by left; left|by right; left|].
  destruct (Qlt_le_dec p.2 q.2); [left|right]; right; split; lra.
Qed.

Lemma key_le_trans p q r : key_le p q = true -> key_le q r = true -> key_le p r = true.
Proof. rewrite !key_le_iff. intros [?|[? ?]] [?|[? ?]]; lra. Qed.

Lemma key_lt_iff p q : key_le q p = false <-> (p.1 < q.1 \/ p.1 == q.1 /\ p.2 < q.2)%Q.
Proof.
  rewrite <-not_true_iff_false, key_le_iff. split; [|intros [?|[? ?]] [?|[? ?]]; lra].
  intros Hn. destruct (Q_dec p.1 q.1) as [[?|?]|?]; [by left|exfalso; apply Hn; by left|right].
  split; [done|]. apply Qnot_le_lt. intros ?. apply Hn. right. split; lra.
Qed.

(** The key a ranker sorts by, the least first; without data on everybody it
    is the score. *)
Section RankKey.
Context {obj : Type} (r : AssignmentRequest obj).

Definition informed (k : CandidateRanker) (cs : list AssignmentCandidate) : bool :=
  match k with
  | CostDescendingRanker => has_complete_data cs (cost_map r)
  | _ => has_complete_data cs (workload_map r)
  end.

Definition rank_key (k : CandidateRanker) (full : bool) (c : AssignmentCandidate) : Q * Q :=
  match k, full with
  | WorkloadAscendingRanker, true => workload_key r c
  | CostDescendingRanker, true => cost_key r c
  | AuctionBidRanker, _ => (- bid r full c, - score c)%Q
  | _, _ => (0, - score c)%Q
  end.

Definition ranked_le (k : CandidateRanker) (full : bool) (a b : AssignmentCandidate) : bool :=
  key_le (rank_key k full a) (rank_key k full b).

Lemma ranked_le_score k full a b : ranked_le k full a b = true -> ranked_le k full b a = true -> score_le a b = true.
Proof.
  unfold ranked_le, score_le. rewrite !key_le_iff, Qle_bool_iff.
  assert (Hk : forall c, (rank_key k full c).2 = (- score c)%Q) by (intros c; by destruct k, full).
  rewrite !Hk. intros [?|[? ?]] [?|[? ?]]; lra.
Qed.

Lemma alternatives_split l1 c l2 :
  NoDup (candidate_id <$> l1 ++ c :: l2) -> _score_ordered_alternatives (l1 ++ c :: l2) (candidate_id c) = l1 ++ l2.
Proof.
  intros Hnd. unfold _score_ordered_alternatives. rewrite List.filter_app. simpl. rewrite bool_decide_true by done. simpl.
  assert (Hkeep : forall l, (forall x, x ∈ l -> candidate_id x <> candidate_id c) ->
    List.filter (fun x => negb (bool_decide (candidate_id x = candidate_id c))) l = l).
  { intros l. induction l as [|x l IH]; [done|]. intros Hl. simpl. rewrite bool_decide_false by (apply Hl; by left).
    simpl. f_equal. apply IH. intros y Hy. apply Hl. by right. }
  rewrite fmap_app, fmap_cons in Hnd. apply NoDup_app in Hnd as (_ & Hd & [Hc _]%NoDup_cons).
  rewrite !Hkeep; [done| |]; intros x Hx He.
  - apply Hc. rewrite <-He. by apply list_elem_of_fmap_2.
  - apply (Hd (candidate_id x)); [by apply list_elem_of_fmap_2|rewrite He; by left].
Qed.

Lemma ranking_result_ok l1 c l2 reason :
  NoDup (candidate_id <$> l1 ++ c :: l2) ->
  let k := {| ranking_selected := c; ranking_alternatives := l1 ++ l2; ranking_reason := reason |} in
  new_ranking_result k = Ok k.
Proof.
  intros Hnd. unfold new_ranking_result. simpl. rewrite bool_decide_false; [done|].
  rewrite fmap_app, fmap_cons in Hnd. apply NoDup_app in Hnd as (_ & Hd & [Hc _]%NoDup_cons).
  rewrite fmap_app, elem_of_app. intros [Hin|Hin]; [|done]. apply (Hd _ Hin). by left.
Qed.

(** What a ranker picks from candidates sorted by score. *)
Definition picks (le : AssignmentCandidate -> AssignmentCandidate -> bool) (cs : list AssignmentCandidate)
    (k : RankingResult) : Prop :=
  exists l1 l2, cs = l1 ++ ranking_selected k :: l2 /\ ranking_alternatives k = l1 ++ l2 /\
    (forall x, x ∈ l1 -> le x (ranking_selected k) = false) /\ (forall x, x ∈ cs -> le (ranking_selected k) x = true).

Lemma take_least_picks le cs reason :
  (forall x y, le x y = true \/ le y x = true) ->
  (forall x y z, le x y = true -> le y z = true -> le x z = true) ->
  NoDup (candidate_id <$> cs) -> cs <> [] -> exists k, take_least le cs reason = Ok k /\ picks le cs k.
Proof.
  intros Ht Htr Hnd Hne. unfold take_least. destruct (sort_by le cs) as [|c rest] eqn:Hs; [by apply sort_by_nil in Hs|].
  apply (sort_by_cons le Ht Htr) in Hs as (l1 & l2 & -> & _ & Hb & Hm). rewrite alternatives_split by done.
  rewrite ranking_result_ok by done. eexists. split; [done|]. by exists l1, l2.
Qed.

Lemma take_first_picks le cs reason :
  StronglySorted (fun x y => le x y = true) cs -> (forall x, le x x = true) ->
  NoDup (candidate_id <$> cs) -> cs <> [] -> exists k, take_first cs reason = Ok k /\ picks le cs k.
Proof.
  intros Hs Hr Hnd Hne. unfold take_first. destruct cs as [|c rest]; [done|].
  rewrite (ranking_result_ok [] c rest) by done. eexists. split; [done|]. exists [], rest. split_and!; [done|done| |].
  - by intros x ?%elem_of_nil.
  - apply StronglySorted_inv in Hs as [_ Hs]. rewrite Forall_forall in Hs. intros x [->|Hx]%elem_of_cons; [apply Hr|by apply Hs].
Qed.
End RankKey.

Section Rank.
Context {obj : Type} (r : AssignmentRequest obj).

Lemma picks_ext le le' cs k : (forall x y, le x y = le' x y) -> picks le cs k -> picks le' cs k.
Proof.
  intros He (l1 & l2 & ? & ? & Hb & Hm). exists l1, l2. split_and!; [done|done| |].
  - intros x Hx. rewrite <-He. by apply Hb.
  - intros x Hx. rewrite <-He. by apply Hm.
Qed.

Lemma picks_score k full cs kk : (forall c, rank_key r k full c = (0, - score c)%Q) ->
  picks score_le cs kk -> picks (ranked_le r k full) cs kk.
Proof.
  intros Hk. apply picks_ext. intros x y. unfold ranked_le, score_le. rewrite !Hk. apply eq_true_iff_eq.
  rewrite key_le_iff, Qle_bool_iff. simpl. split; [right; split; lra|intros [?|[? ?]]; lra].
Qed.

Lemma rank_picks k cs :
  StronglySorted (fun x y => score_le x y = true) cs -> NoDup (candidate_id <$> cs) -> cs <> [] ->
  exists kk, rank r k cs = Ok kk /\ picks (ranked_le r k (informed r k cs)) cs kk.
Proof.
  intros Hs Hnd Hne.
  assert (Hfirst : forall full reason, (forall c, rank_key r k full c = (0, - score c)%Q) ->
    exists kk, take_first cs reason = Ok kk /\ picks (ranked_le r k full) cs kk).
  { intros full reason Hk. destruct (take_first_picks score_le cs reason) as (kk & Hkk & Hp); try done.
    - intros x. by destruct (score_le_total x x).
    - exists kk. split; [done|]. by apply picks_score. }
  assert (Hleast : forall full reason le, (forall x y, le x y = ranked_le r k full x y) ->
    exists kk, take_least le cs reason = Ok kk /\ picks (ranked_le r k full) cs kk).
  { intros full reason le He. destruct (take_least_picks le cs reason) as (kk & Hkk & Hp); try done.
    - intros x y. rewrite !He. apply key_le_total.
    - intros x y z. rewrite !He. apply key_le_trans.
    - exists kk. split; [done|]. by eapply picks_ext. }
  destruct k; cbn [rank informed].
  - by apply Hfirst.
  - destruct (has_complete_data cs (workload_map r)); [by apply Hleast|by apply Hfirst].
  - destruct (has_complete_data cs (cost_map r)); [by apply Hleast|by apply Hfirst].
  - apply Hleast. intros x y. unfold ranked_le, bid_key. simpl. apply eq_true_iff_eq. rewrite !key_le_iff. simpl.
    split; (intros [?|[? ?]]; [left|right]; try split); lra.
Qed.
End Rank.

(** ** Who is eligible *)

Section Eligible.
Context {obj : Type} (s : ScoringBasedAssignmentStrategy) (r : AssignmentRequest obj) (pool : list AgentIdentity).

Definition scored (a : AgentIdentity) : AssignmentCandidate := score_agent (st_scorer s) a (build_subtask_definition r).

(** May the agent take work of these stakes; which rung is it at, which is
    wanted. *)
Definition may_be_given (a : AgentIdentity) : bool :=
  match required_capability r, st_capability s with Some _, Some p => may_take p r a | _, _ => true end.

Definition rung_for (a : AgentIdentity) : Z :=
  match required_capability r, st_capability s with
  | Some _, Some p => rank_of (capability_of p (agent_model a))
  | _, _ => 0%Z
  end.

Definition wanted : Z := rank_of (required_capability r).

(** Allowed, and nobody allowed is at a rung that suits the work better. *)
Definition in_reach (a : AgentIdentity) : Prop :=
  may_be_given a = true /\
  forall b, b ∈ pool -> may_be_given b = true -> rung_for b = rung_for a \/ suits_better wanted (rung_for a) (rung_for b).

Definition able (a : AgentIdentity) : bool := is_active a && negb (at_capacity r a).

Definition qualified (a : AgentIdentity) : bool := Qle_bool (min_score r) (score (scored a)).

(** Work without requirements is for anybody when nobody qualifies. *)
Definition eligible (a : AgentIdentity) : Prop :=
  a ∈ pool /\ in_reach a /\ able a = true /\
  (qualified a = true \/
   unconstrained r = true /\ forall b, b ∈ pool -> in_reach b -> able b = true -> qualified b = false).

(** The workloads tell of everybody eligible. *)
Definition loads_known : Prop :=
  workloads r <> [] /\ forall a, eligible a -> agent_id a ∈ wl_agent_id <$> workloads r.

Definition active_tasks (a : AgentIdentity) : Z := default 0%Z (workload_map r !! agent_id a).
Definition cost_so_far (a : AgentIdentity) : Q := default 0%Q (cost_map r !! agent_id a).
Definition auction_offer (a : AgentIdentity) : Q := (score (scored a) * (1 / (1 + inject_Z (active_tasks a))))%Q.
Definition scores_above (a b : AgentIdentity) : Prop := (score (scored b) < score (scored a))%Q.

Definition prefers (k : CandidateRanker) (a b : AgentIdentity) : Prop :=
  let with_data (p : Prop) := loads_known /\ p \/ ~ loads_known /\ scores_above a b in
  match k with
  | ScoreDescendingRanker => scores_above a b
  | WorkloadAscendingRanker =>
      with_data ((active_tasks a < active_tasks b)%Z \/ active_tasks a = active_tasks b /\ scores_above a b)
  | CostDescendingRanker =>
      with_data ((cost_so_far a < cost_so_far b)%Q \/ (cost_so_far a == cost_so_far b)%Q /\ scores_above a b)
  | AuctionBidRanker =>
      with_data ((auction_offer b < auction_offer a)%Q \/ (auction_offer b == auction_offer a)%Q /\ scores_above a b)
  end.

(** Preferred to everybody eligible before it in the roster; nobody after it is
    preferred. *)
Definition chosen (a : AgentIdentity) : Prop :=
  eligible a /\ exists l1 l2, pool = l1 ++ a :: l2 /\
    (forall b, b ∈ l1 -> eligible b -> prefers (st_ranker s) a b) /\
    (forall b, b ∈ l2 -> eligible b -> ~ prefers (st_ranker s) b a).

(** ** The candidates are the eligible *)

Lemma best_fitting_band_reach :
  exists f, _best_fitting_band s r pool = List.filter f pool /\
    forall a, a ∈ pool -> f a = true <-> in_reach a.
Proof.
  unfold _best_fitting_band, in_reach, may_be_given, rung_for, wanted.
  destruct (required_capability r) as [c|]; [|exists (fun _ => true); split; [by rewrite filter_true|by split; eauto]].
  destruct (st_capability s) as [p|]; [|exists (fun _ => true); split; [by rewrite filter_true|by split; eauto]].
  set (rk := fun a => rank_of (capability_of p (agent_model a))).
  pose proof (partition_by_fit_best rk (rank_of (Some c)) (List.filter (may_take p r) pool)) as Hb.
  destruct (partition_by_fit _ _ _) as [[band fit]|].
  - destruct Hb as (q & -> & _ & Hne & Hbest). exists (fun a => may_take p r a && (rk a =? q)%Z). split.
    + unfold band_at. rewrite <-bool_filter_filter. generalize (List.filter (may_take p r) pool). intros xs.
      induction xs as [|x xs IH]; [done|]. rewrite filter_cons. simpl.
      destruct (Z.eqb_spec (rk x) q); [rewrite decide_True by done|rewrite decide_False by done]; by rewrite IH.
    + apply band_at_nonempty in Hne as (a0 & [Ha0 Hm0]%bool_filter_elem & Hq0).
      intros a Ha. rewrite andb_true_iff, Z.eqb_eq. split.
      * intros [Hm Hr]. split; [done|]. intros b Hb Hmb.
        assert (Hin : b ∈ List.filter (may_take p r) pool) by by apply bool_filter_elem.
        change (rk b = rk a \/ suits_better (rank_of (Some c)) (rk a) (rk b)).
        destruct (Hbest b Hin) as [?|?]; [left; congruence|right; by rewrite Hr].
      * intros [Hm Hr]. split; [done|]. assert (Hin : a ∈ List.filter (may_take p r) pool) by by apply bool_filter_elem.
        destruct (Hbest a Hin) as [?|Hs1]; [done|]. destruct (Hr a0 Ha0 Hm0) as [He|Hs2].
        -- change (rk a0 = rk a) in He. congruence.
        -- change (suits_better (rank_of (Some c)) (rk a) (rk a0)) in Hs2. rewrite Hq0 in Hs2.
           rewrite suits_better_spec in Hs1, Hs2. lia.
  - exists (may_take p r). split; [done|]. intros a Ha. split; [|by intros []]. intros Hm.
    assert (Hin : a ∈ List.filter (may_take p r) pool) by by apply bool_filter_elem.
    rewrite Hb in Hin. by apply elem_of_nil in Hin.
Qed.

Lemma candidates_eligible band :
  band = _best_fitting_band s r pool ->
  exists f, score_and_filter_candidates (st_scorer s) (with_agents band r) (build_subtask_definition (with_agents band r))
      = by_score (scored <$> List.filter f pool) /\
    forall a, a ∈ pool -> f a = true <-> eligible a.
Proof.
  intros ->. destruct best_fitting_band_reach as (g & Hb & Hg). rewrite Hb. unfold score_and_filter_candidates.
  change (fun a => is_active a && negb (at_capacity (with_agents _ r) a)) with able. cbn [available_agents with_agents].
  change (unconstrained (with_agents _ r)) with (unconstrained r). change (min_score (with_agents _ r)) with (min_score r).
  change (fun a => score_agent (st_scorer s) a (build_subtask_definition (with_agents _ r))) with scored.
  rewrite bool_filter_fmap. change (fun x => Qle_bool (min_score r) (score (scored x))) with qualified.
  rewrite !bool_filter_filter.
  set (h := fun a => g a && (able a && qualified a)).
  assert (Hopen : forall a, a ∈ pool -> g a && able a = true <-> in_reach a /\ able a = true).
  { intros a Ha. by rewrite andb_true_iff, Hg. }
  assert (Hh : forall a, a ∈ pool -> h a = true <-> (in_reach a /\ able a = true) /\ qualified a = true).
  { intros a Ha. unfold h. by rewrite andb_assoc, andb_true_iff, Hopen. }
  change (fun x : AgentIdentity => g x && (able x && qualified x)) with h.
  case_bool_decide as Hnone; [destruct (unconstrained r) eqn:Hu; cbn [andb]|rewrite andb_false_r].
  - apply fmap_nil_inv in Hnone. rewrite bool_filter_nil in Hnone. eexists. split; [done|].
    intros a Ha. rewrite Hopen by done. unfold eligible. rewrite Hu. split; [|tauto]. intros [Hr Hab]. split_and!; [done..|].
    right. split; [done|]. intros b Hbin Hbr Hbab. apply not_true_iff_false. intros Hq.
    assert (Hhb : h b = true) by by apply Hh.
    pose proof (Hnone b Hbin) as Hc. change (h b = false) in Hc. congruence.
  - exists h. split; [done|]. intros a Ha. rewrite Hh by done. unfold eligible. rewrite Hu. naive_solver.
  - exists h. split; [done|]. intros a Ha. rewrite Hh by done. unfold eligible. split; [tauto|].
    intros (_ & Hr & Hab & [Hq|[_ Hq]]); [done|]. exfalso. apply Hnone, fmap_nil_iff, bool_filter_nil. intros b Hbin.
    apply not_true_iff_false. intros [[Hbr Hbab] Hbq]%Hh; [|done]. by rewrite Hq in Hbq.
Qed.

(** ** The choice is the preferred *)

Lemma scored_id a : candidate_id (scored a) = agent_id a.
Proof. unfold candidate_id, scored. by rewrite scored_identity. Qed.

Lemma complete_known {V} (cs : list AssignmentCandidate) (f : AgentWorkload -> V) :
  (forall c, c ∈ cs <-> exists a, c = scored a /\ eligible a) ->
  has_complete_data cs (dict_of ((fun w => (wl_agent_id w, f w)) <$> workloads r)) = true <-> loads_known.
Proof.
  intros Hcs. unfold has_complete_data, _candidates_covered_by, loads_known.
  assert (Hids : ((fun w => (wl_agent_id w, f w)) <$> workloads r).*1 = wl_agent_id <$> workloads r)
    by by rewrite <-list_fmap_compose.
  rewrite andb_true_iff, negb_true_iff, bool_decide_eq_false, forallb_forall. f_equiv.
  - destruct (workloads r) as [|w l] eqn:E; [split; intros []; done|]. split; [done|]. intros _ Hm.
    assert (Hsome : is_Some (dict_of ((fun w => (wl_agent_id w, f w)) <$> w :: l) !! wl_agent_id w)).
    { apply dict_of_is_Some. rewrite Hids. by left. }
    rewrite Hm, lookup_empty in Hsome. by destruct Hsome.
  - split.
    + intros Hall a Ha. assert (Hc : scored a ∈ cs) by (apply Hcs; eauto). apply list_elem_of_In, Hall in Hc.
      apply bool_decide_eq_true in Hc. by rewrite scored_id, dict_of_is_Some, Hids in Hc.
    + intros Hall c (a & -> & Ha)%list_elem_of_In%Hcs. apply bool_decide_eq_true.
      rewrite scored_id, dict_of_is_Some, Hids. by apply Hall.
Qed.

Lemma prefers_ranked k cs a b :
  (forall c, c ∈ cs <-> exists a, c = scored a /\ eligible a) ->
  prefers k a b <-> ranked_le r k (informed r k cs) (scored b) (scored a) = false.
Proof.
  intros Hcs. unfold prefers, ranked_le, scores_above. rewrite key_lt_iff.
  pose proof (complete_known cs active_task_count Hcs) as Hw. pose proof (complete_known cs total_cost Hcs) as Hc.
  assert (Hplain : forall x : Q, (x < x \/ x == x /\ - score (scored a) < - score (scored b))%Q <->
    (score (scored b) < score (scored a))%Q) by (intros x; split; [intros [?|[? ?]]; lra|right; split; lra]).
  assert (Hneg : forall x y, (- x < - y)%Q <-> (y < x)%Q) by (intros; split; lra).
  destruct k; cbn [informed]; unfold workload_map, cost_map.
  - simpl. by rewrite Hplain.
  - clear Hc. destruct (has_complete_data _ _); cbn [rank_key workload_key cost_key fst snd]; [|rewrite Hplain; naive_solver].
    unfold load_of. rewrite !scored_id. fold (active_tasks a) (active_tasks b). rewrite <-Zlt_Qlt, inject_Z_injective.
    rewrite Hneg. naive_solver.
  - clear Hw. destruct (has_complete_data _ _); cbn [rank_key workload_key cost_key fst snd]; [|rewrite Hplain; naive_solver].
    unfold cost_of. rewrite !scored_id. fold (cost_so_far a) (cost_so_far b).
    rewrite Hneg. naive_solver.
  - assert (Heq : forall x y, (- x == - y)%Q <-> (y == x)%Q) by (intros; split; lra).
    clear Hc. destruct (has_complete_data _ _); cbn [rank_key fst snd]; rewrite !Hneg, Heq; unfold bid, availability, load_of.
    + rewrite !scored_id. fold (active_tasks a) (active_tasks b). fold (auction_offer a) (auction_offer b). naive_solver.
    + rewrite !Qmult_1_r. transitivity (score (scored b) < score (scored a))%Q; [naive_solver|].
      split; [by left|intros [?|[? ?]]; lra].
Qed.

Lemma scored_nodup l : NoDup (agent_id <$> l) -> NoDup (candidate_id <$> (scored <$> l)).
Proof.
  intros Hl. rewrite <-list_fmap_compose. erewrite list_fmap_ext; [exact Hl|]. intros i a _. apply scored_id.
Qed.

Lemma by_score_nodup l : NoDup (agent_id <$> l) -> NoDup (candidate_id <$> by_score (scored <$> l)).
Proof. intros Hl. unfold by_score. rewrite sort_by_perm. by apply scored_nodup. Qed.

Lemma sublist_pair_app {A} (x y : A) l1 l2 : [x; y] `sublist_of` l1 ++ y :: l2 -> NoDup (l1 ++ y :: l2) -> x ∈ l1.
Proof.
  induction l1 as [|z l1 IH]; simpl; intros Hs Hnd.
  - exfalso. apply NoDup_cons in Hnd as [Hy _]. inversion Hs as [|? ? ? Hs'|? ? ? Hs']; subst.
    + by apply Hy, singleton_sublist_l.
    + apply Hy. apply sublist_cons_l in Hs' as (k1 & k2 & -> & Hs'). apply elem_of_app. right. right. by apply singleton_sublist_l.
  - apply NoDup_cons in Hnd as [_ Hnd]. inversion Hs as [|? ? ? Hs'|? ? ? Hs']; subst; [by left|right; by apply IH].
Qed.

Lemma sorted_remove {A} (R : A -> A -> Prop) l1 x l2 : StronglySorted R (l1 ++ x :: l2) -> StronglySorted R (l1 ++ l2).
Proof.
  induction l1 as [|y l1 IH]; simpl; intros [Hs Hy]%StronglySorted_inv; [done|]. constructor; [by apply IH|].
  apply Forall_app in Hy as [? [_ ?]%Forall_cons]. by apply Forall_app.
Qed.

(** The pick of the ranker among the candidates, told of the roster. *)
Lemma picked_chosen f kk :
  NoDup (agent_id <$> pool) -> (forall a, a ∈ pool -> f a = true <-> eligible a) ->
  let cs := by_score (scored <$> List.filter f pool) in
  picks (ranked_le r (st_ranker s) (informed r (st_ranker s) cs)) cs kk ->
  exists a, ranking_selected kk = scored a /\ chosen a /\
    (forall c, c ∈ ranking_alternatives kk <-> exists b, eligible b /\ b <> a /\ c = scored b) /\
    StronglySorted (fun x y => score_le x y = true) (ranking_alternatives kk).
Proof.
  intros Hnd Hf cs (l1 & l2 & Hcs & Halt & Hb & Hm).
  set (le := ranked_le r (st_ranker s) (informed r (st_ranker s) cs)) in *.
  assert (Hin : forall c, c ∈ cs <-> exists a, c = scored a /\ eligible a).
  { intros c. unfold cs, by_score. rewrite sort_by_elem, list_elem_of_fmap. f_equiv. intros a. f_equiv.
    rewrite bool_filter_elem. split; [intros [Ha He]; by apply Hf|]. intros He. assert (Ha : a ∈ pool) by apply He.
    split; [done|by apply Hf]. }
  assert (Hids : NoDup (candidate_id <$> cs)).
  { apply by_score_nodup. eapply sublist_NoDup; [exact Hnd|]. apply fmap_sublist, bool_filter_sublist. }
  assert (Hcnd : NoDup cs) by by eapply NoDup_fmap_1.
  assert (Hsorted : StronglySorted (fun x y => score_le x y = true) cs)
    by apply (sort_by_sorted _ score_le_total score_le_trans).
  assert (Hsel : ranking_selected kk ∈ cs) by (rewrite Hcs; apply elem_of_app; right; by left).
  apply Hin in Hsel as (a & Hsa & He). rewrite Hsa in *. exists a. split; [done|].
  assert (Hinj : forall b, b ∈ pool -> scored b = scored a -> b = a).
  { intros b Hbp Heq. assert (Hid : agent_id b = agent_id a) by (by rewrite <-!scored_id, Heq).
    by apply (f_equal agent_identity) in Heq; unfold scored in Heq; rewrite !scored_identity in Heq. }
  assert (Hpref : forall x y, prefers (st_ranker s) x y <-> le (scored y) (scored x) = false)
    by (intros; by apply prefers_ranked).
  assert (Hap : a ∈ pool) by apply He. split; [split; [done|]|split].
  - apply list_elem_of_split in Hap as (p1 & p2 & Hp). exists p1, p2. split_and!; [done| |].
    + intros b Hbin Hbe. apply Hpref. apply not_true_iff_false. intros Hle.
      assert (Hle' : le (scored a) (scored b) = true) by (apply Hm, Hin; by exists b).
      assert (Hsub : [scored b; scored a] `sublist_of` cs).
      { apply sort_by_stable; [|by eapply ranked_le_score].
        change [scored b; scored a] with (scored <$> [b; a]). apply fmap_sublist. rewrite Hp, List.filter_app.
        assert (Hfa : f a = true) by (apply Hf; [rewrite Hp; set_solver|done]).
        assert (Hfb : f b = true) by (apply Hf; [rewrite Hp; set_solver|done]).
        cbn [List.filter]. rewrite Hfa. apply (sublist_app [b] _ [a]); apply singleton_sublist_l.
        - by apply bool_filter_elem.
        - by left. }
      rewrite Hcs in Hsub, Hcnd. apply sublist_pair_app in Hsub; [|done]. by rewrite (Hb _ Hsub) in Hle.
    + intros b Hbin Hbe Hp'%Hpref. rewrite (Hm (scored b)) in Hp'; [done|]. apply Hin. by exists b.
  - intros c. rewrite Halt. transitivity (c ∈ cs /\ c <> scored a).
    + rewrite Hcs in *. rewrite !elem_of_app, elem_of_cons. apply NoDup_app in Hcnd as (_ & Hd & [Hc2 _]%NoDup_cons).
      split; [|tauto]. intros [Hc|Hc]; (split; [tauto|]); intros ->; [|done]. apply (Hd _ Hc). by left.
    + rewrite Hin. split.
      * intros [(b & -> & Hbe) Hne]. exists b. split_and!; [done|congruence|done].
      * intros (b & Hbe & Hne & ->). split; [by exists b|]. intros Heq. apply Hne. apply Hinj; [apply Hbe|done].
  - rewrite Halt. rewrite Hcs in Hsorted. by eapply sorted_remove.
Qed.

(** ** The strategy *)

Lemma assignment_result_ok res c kk :
  selected res = Some c -> result_alternatives res = ranking_alternatives kk -> c = ranking_selected kk ->
  candidate_id c ∉ candidate_id <$> ranking_alternatives kk -> new_assignment_result res = Ok res.
Proof.
  intros Hs Ha -> Hn. unfold new_assignment_result. rewrite Hs, Ha. by rewrite bool_decide_false.
Qed.

(** What a result promises about the pool. *)
Definition fair (res : AssignmentResult) : Prop :=
  (selected res = None <-> forall a, ~ eligible a) /\
  (forall c, selected res = Some c -> exists a, c = scored a /\ chosen a /\
     (low_confidence res = true <->
        (score c < request_low_confidence_score r)%Q \/ (score c < min_score r)%Q) /\
     (forall c', c' ∈ result_alternatives res <-> exists b, eligible b /\ b <> a /\ c' = scored b) /\
     StronglySorted (fun x y => score_le x y = true) (result_alternatives res)).

Lemma nobody_fair name why : (forall a, ~ eligible a) -> fair (nobody r name why).
Proof. intros Hn. by split. Qed.

Lemma low_confidence_iff q :
  negb (Qle_bool (effective_low_confidence_score r) q) = true <->
  (q < request_low_confidence_score r)%Q \/ (q < min_score r)%Q.
Proof.
  rewrite negb_true_iff, <-not_true_iff_false, Qle_bool_iff. unfold effective_low_confidence_score, Qmax_py.
  destruct (Qle_bool (min_score r) (request_low_confidence_score r)) eqn:E;
    rewrite <-?not_true_iff_false, Qle_bool_iff in E; (split; [|intros [?|?]; lra]); intros ?%Qnot_le_lt; [by left|by right].
Qed.
End Eligible.

(** The rewriters of the filters answer. *)
Lemma pool_rewriter {obj} f (r : AssignmentRequest obj) p g c :
  pool_filter f r = Ok p -> rewrite_success_reason p = Some g -> exists reason, g c = Ok reason.
Proof.
  assert (Hempty : forall why, (exists q, empty_pool why = Ok q /\ rewrite_success_reason q = None)) by (intros; by eexists).
  assert (Hlooked : forall A d st (x : result Raised A) k, looked_up d st x k = Ok p ->
    rewrite_success_reason p = None \/ exists a, x = Ok a /\ k a = Ok p).
  { intros A d st [a|e] k; cbn [looked_up]; [by right; exists a|]. destruct (SecurityModel._contains_critical e); [done|].
    intros [= <-]. by left. }
  destruct f as [|h]; simpl.
  - destruct (available_agents r); intros [= <-]; done.
  - unfold hierarchical_filter. intros [?|(known & _ & Hk)]%Hlooked Hg; [congruence|].
    destruct (negb known); [injection Hk as <-; done|].
    apply Hlooked in Hk as [?|(subs & _ & Hk)]; [congruence|]. destruct subs as [|a subs]; injection Hk as <-; [done|].
    injection Hg as <-. by eexists.
Qed.

Section Strategy.
Context {obj : Type} (s : ScoringBasedAssignmentStrategy) (r : AssignmentRequest obj) (p : PoolFilterResult).
#[local] Notation eligible := (eligible s r (pool_agents p)).

Lemma scoring_assign_fair :
  pool_filter (st_pool_filter s) r = Ok p -> NoDup (agent_id <$> pool_agents p) ->
  exists res, scoring_assign s r = Ok res /\ fair s r (pool_agents p) res.
Proof.
  intros Hp Hnd. unfold scoring_assign. rewrite Hp. cbn [rbind].
  case_bool_decide as Hpool; [|case_bool_decide as Hband; [|]].
  - eexists. split; [done|]. apply nobody_fair. intros a [Ha _]. rewrite Hpool in Ha. by apply elem_of_nil in Ha.
  - eexists. split; [done|]. apply nobody_fair. intros a (Ha & Hr & _).
    destruct (best_fitting_band_reach s r (pool_agents p)) as (f & Hf & Hfr). rewrite Hf, bool_filter_nil in Hband.
    apply (Hfr a Ha) in Hr. by rewrite (Hband a Ha) in Hr.
  - destruct (candidates_eligible s r (pool_agents p) _ eq_refl) as (f & Hc & Hf). rewrite Hc.
    set (cs := by_score (scored s r <$> List.filter f (pool_agents p))). case_bool_decide as Hcs.
    + eexists. split; [done|]. apply (nobody_fair s r). intros a Ha. unfold cs, by_score in Hcs.
      rewrite sort_by_nil, fmap_nil_iff, bool_filter_nil in Hcs. assert (Hin : a ∈ pool_agents p) by apply Ha.
      apply (Hf a Hin) in Ha. by rewrite (Hcs a Hin) in Ha.
    + change (rank (with_agents _ r)) with (rank r).
      assert (Hids : NoDup (candidate_id <$> cs)).
      { apply by_score_nodup. eapply sublist_NoDup; [exact Hnd|]. apply fmap_sublist, bool_filter_sublist. }
      destruct (rank_picks r (st_ranker s) cs) as (kk & Hk & Hpick); [|done|done|].
      { by apply (sort_by_sorted _ score_le_total score_le_trans). }
      rewrite Hk. cbn [rbind].
      assert (Hreason : exists why, _compose_reason (rewrite_success_reason p) kk = Ok why).
      { unfold _compose_reason. destruct (rewrite_success_reason p) as [g|] eqn:Hg; [|by eexists].
        destruct (pool_rewriter _ r p g (ranking_selected kk) Hp Hg) as (why & ->). by exists why. }
      destruct Hreason as (why & ->). cbn [rbind].
      assert (Hfresh : candidate_id (ranking_selected kk) ∉ candidate_id <$> ranking_alternatives kk).
      { destruct Hpick as (l1 & l2 & Hl & -> & _). rewrite Hl, fmap_app, fmap_cons in Hids.
        apply NoDup_app in Hids as (_ & Hd & [Hn _]%NoDup_cons). rewrite fmap_app, elem_of_app.
        intros [Hin|Hin]; [|done]. apply (Hd _ Hin). by left. }
      erewrite assignment_result_ok by done. eexists. split; [done|].
      destruct (picked_chosen s r (pool_agents p) f kk Hnd Hf Hpick) as (a & Ha & Hch & Halt & Hso). split; cbn.
      * split; [done|]. intros Hn. destruct Hch as [He _]. by destruct (Hn a).
      * intros c [= <-]. exists a. split_and!; [done|done|exact (low_confidence_iff r _)|done|done].
Qed.
End Strategy.

(** ** Delegation *)

Section Delegation.
Context {obj : Type} (departments : list Department) (h : HierarchyResolver).
Context (Hh : new_resolver departments = Ok h).
Implicit Types (r : AssignmentRequest obj) (d : string).

Definition reports_to d (a : AgentIdentity) : Prop :=
  get_supervisor h (agent_name a) = Some d \/ get_supervisor h (agent_id a) = Some d.

Definition below d (a : AgentIdentity) : Prop :=
  tc (edge (above h)) (agent_name a) d \/ tc (edge (above h)) (agent_id a) d.

(** Those who report to the delegator, or if nobody in the roster does those
    below at any depth. *)
Definition delegable r (a : AgentIdentity) : Prop :=
  a ∈ available_agents r /\
  (reports_to (_resolve_delegator r) a \/
   (forall b, b ∈ available_agents r -> ~ reports_to (_resolve_delegator r) b) /\ below (_resolve_delegator r) a).

Lemma reports_below d a : reports_to d a -> below d a.
Proof. intros [H|H]; [left|right]; by apply tc_once, above_edge. Qed.

Lemma below_known d a : below d a -> exists x, get_supervisor h x = Some d.
Proof.
  assert (Hx : forall x, tc (edge (above h)) x d -> exists y, get_supervisor h y = Some d).
  { intros x. induction 1 as [x y He|x y z He _ IH]; [|done]. exists x. by apply above_edge. }
  intros [H|H]; by eapply Hx.
Qed.

Lemma subordinates_of_spec d l :
  exists l', subordinates_of (lookup_in h) d l = Ok l' /\ l' `sublist_of` l /\
    forall a, a ∈ l' <-> a ∈ l /\ below d a.
Proof.
  destruct (resolver_laws departments h Hh) as [_ Hsub].
  induction l as [|a l (l' & IH & Hs & Hl)]; cbn [subordinates_of].
  - exists []. split_and!; [done|done|]. intros a. split; [by intros ?%elem_of_nil|by intros [?%elem_of_nil _]].
  - unfold below. cbn [ask_is_subordinate lookup_in rbind].
    assert (Hb : (if is_subordinate h d (agent_name a) then Ok true else Ok (is_subordinate h d (agent_id a))) =
      @Ok Raised _ (is_subordinate h d (agent_name a) || is_subordinate h d (agent_id a)))
      by by destruct (is_subordinate h d (agent_name a)).
    rewrite Hb. cbn [rbind]. rewrite IH. cbn [rbind].
    assert (Ha : is_subordinate h d (agent_name a) || is_subordinate h d (agent_id a) = true <-> below d a)
      by (unfold below; by rewrite orb_true_iff, !Hsub).
    destruct (_ || _); (eexists; split_and!; [done|by constructor|]); intros b; rewrite ?elem_of_cons, Hl.
    + split; [intros [->|[? ?]]; [split; [by left|by apply Ha]|auto]|intros [[->|?] ?]; auto].
    + split; [intros [? ?]; auto|]. intros [[->|?] Hbe]; [|auto]. apply Ha in Hbe. done.
Qed.

Lemma direct_spec d (l : list AgentIdentity) a :
  a ∈ List.filter (fun a => bool_decide (agent_name a ∈ get_direct_reports h d) ||
    bool_decide (agent_id a ∈ get_direct_reports h d)) l <-> a ∈ l /\ reports_to d a.
Proof.
  destruct (resolver_laws departments h Hh) as [Hd _].
  rewrite bool_filter_elem, orb_true_iff, !bool_decide_eq_true. unfold reports_to. by rewrite !Hd.
Qed.

Lemma filter_by_hierarchy_spec r :
  exists l, _filter_by_hierarchy (lookup_in h) r (_resolve_delegator r) = Ok l /\ l `sublist_of` available_agents r /\
    forall a, a ∈ l <-> delegable r a.
Proof.
  unfold _filter_by_hierarchy, delegable. cbn [ask_direct_reports lookup_in rbind]. set (d := _resolve_delegator r).
  pose proof (direct_spec d (available_agents r)) as Hd.
  pose proof (bool_filter_sublist (fun a => bool_decide (agent_name a ∈ get_direct_reports h d) ||
    bool_decide (agent_id a ∈ get_direct_reports h d)) (available_agents r)) as Hs.
  destruct (List.filter _ _) as [|a0 l].
  - destruct (subordinates_of_spec d (available_agents r)) as (l & -> & Hl & Hb). exists l. split_and!; [done|done|].
    assert (Hn : forall b, b ∈ available_agents r -> ~ reports_to d b).
    { intros b Hin Hr. apply (not_elem_of_nil b). by apply Hd. }
    intros a. rewrite Hb. split; [tauto|]. intros [Ha [Hr|[_ Hbe]]]; [by destruct (Hn a Ha)|done].
  - exists (a0 :: l). split_and!; [done|done|]. intros a. rewrite Hd. split; [tauto|].
    intros [Ha [Hr|[Hn _]]]; [done|]. destruct (proj1 (Hd a0)) as [Ha0 Hr0]; [by left|]. by destruct (Hn a0 Ha0).
Qed.

Lemma known_delegator d : _is_known_delegator (lookup_in h) d = Ok false -> forall a, ~ below d a.
Proof.
  destruct (resolver_laws departments h Hh) as [Hd _].
  unfold _is_known_delegator. cbn [ask_direct_reports ask_supervisor lookup_in rbind]. intros [= Hk] a Hb.
  apply orb_false_iff in Hk as [Hk _]. apply negb_false_iff, bool_decide_eq_true in Hk.
  destruct (below_known d a Hb) as (x & Hx%Hd). rewrite Hk in Hx. by apply elem_of_nil in Hx.
Qed.

(** The filter answers, with the agents work may be handed down to. *)
Lemma delegated_pool r :
  exists p, pool_filter (HierarchicalPoolFilter (lookup_in h)) r = Ok p /\ pool_agents p `sublist_of` available_agents r /\
    forall a, a ∈ pool_agents p <-> delegable r a.
Proof.
  simpl. unfold hierarchical_filter. destruct (_is_known_delegator (lookup_in h) (_resolve_delegator r)) as [k|e] eqn:Hk; [|done].
  cbn [looked_up]. destruct k; cbn [negb].
  - destruct (filter_by_hierarchy_spec r) as (l & -> & Hs & Hl). cbn [looked_up].
    destruct l as [|a l]; eexists; (split; [done|]); split; done.
  - eexists. split; [done|]. split; [apply sublist_nil_l|]. intros a. split; [by intros ?%elem_of_nil|].
    pose proof (known_delegator _ Hk) as Hn. intros [_ [Hr|[_ Hb]]]; exfalso; [|by eapply Hn].
    by apply (Hn a), reports_below.
Qed.
End Delegation.
