(* ===== verification/AssignmentService.v ===== *)
(** * The assignment service

    The service of [engine/assignment/service.py] with the strategies its
    registry builds, against the specification of AssignmentSpec.v; the pick of
    the pipeline for work that is not split, whatever strategy is configured;
    and where a task handed down a hierarchy may land. *)

From stdpp Require Import gmap strings list sorting relations.
From Stdlib Require Import ZArith QArith Lia Lqa.
From S2P Require Import Prelude TaskEnums TaskTransitions PlanUnits TaskModel Graphs Capability Hierarchy Routing Assignment AssignmentSpec.
#[local] Open Scope nat_scope.
#[local] Open Scope py_scope.

Lemma stamped_task {obj} sv (r : AssignmentRequest obj) : request_task (stamped sv r) = request_task r.
Proof. unfold stamped. by destruct (sv_capability sv). Qed.

Lemma stamped_agents {obj} sv (r : AssignmentRequest obj) : available_agents (stamped sv r) = available_agents r.
Proof. unfold stamped. by destruct (sv_capability sv). Qed.

Section Service.
Context {obj : Type} (sv : TaskAssignmentService) (s : ScoringBasedAssignmentStrategy).
Context (Hs : _strategy sv = ScoringBased s) (Hc : sv_capability sv = st_capability s).
Implicit Types (r : AssignmentRequest obj) (p : PoolFilterResult) (a : AgentIdentity).

(** Clears the gate of a run under the service's policy, if it has one. *)
Definition passes_gate r a : Prop :=
  forall q, sv_capability sv = Some q ->
    is_ok (_check_capability q (agent_model a) (task_stakes (request_task r)) (task_estimated_complexity (request_task r))) = true.

Lemma allowed_gate r a : may_be_given s (stamped sv r) a = true <-> passes_gate r a.
Proof.
  unfold may_be_given, passes_gate, stamped. rewrite <-Hc. destruct (sv_capability sv) as [q|].
  - unfold may_take, stakes. simpl. split; [intros Ha q' [= <-]|intros Ha]; [by rewrite check_capability_exact|].
    specialize (Ha q eq_refl). by rewrite check_capability_exact in Ha.
  - split; [done|]. by destruct (required_capability r).
Qed.

Lemma service_assign_fair r p :
  NoDup (agent_id <$> available_agents r) ->
  pool_filter (st_pool_filter s) (stamped sv r) = Ok p -> pool_agents p `sublist_of` available_agents r ->
  task_status (request_task r) ∈ _ASSIGNABLE_STATUSES ->
  exists res, service_assign sv r = Ok res /\ fair s (stamped sv r) (pool_agents p) res.
Proof.
  intros Hnd Hp Hsub Hst. unfold service_assign.
  rewrite stamped_task, bool_decide_true by done.
  destruct (sv_capability sv ≫= _) as [refusal|] eqn:Href.
  - apply bind_Some in Href as (q & Hq & Href). unfold _refuse_unsanctioned in Href.
    destruct (required_capability (stamped sv r)) eqn:Hreq; [|done]. destruct (existsb _ _) eqn:Hex; [done|].
    injection Href as <-. eexists. split; [done|]. apply nobody_fair. intros a (Ha & [Hal _] & _).
    unfold may_be_given in Hal. rewrite Hreq, <-Hc, Hq in Hal.
    apply not_true_iff_false in Hex. apply Hex, existsb_exists. exists a. split; [|done].
    apply list_elem_of_In. unfold stamped. rewrite Hq. simpl. by eapply elem_of_submseteq, sublist_submseteq.
  - rewrite Hs. simpl. apply scoring_assign_fair; [done|]. eapply sublist_NoDup; [exact Hnd|]. by apply fmap_sublist.
Qed.
End Service.

Lemma collections_unique {obj} (r : AssignmentRequest obj) :
  _validate_collections r = Ok tt -> available_agents r <> [] /\ NoDup (agent_id <$> available_agents r).
Proof.
  unfold _validate_collections. intros (Hne & H)%ensure_ok. apply ensure_ok in H as (Hd & _).
  apply negb_true_iff, bool_decide_eq_false in Hne. apply bool_decide_eq_true, duplicates_nil in Hd. done.
Qed.

Lemma subordinates_sublist h d l l' : subordinates_of h d l = Ok l' -> l' `sublist_of` l.
Proof.
  revert l'. induction l as [|a l IH]; intros l'; cbn [subordinates_of]; [by intros [= <-]|].
  destruct (ask_is_subordinate h d (agent_name a)) as [b|]; cbn [rbind]; [|done].
  destruct (if b then Ok true else ask_is_subordinate h d (agent_id a)) as [b'|]; cbn [rbind]; [|done].
  destruct (subordinates_of h d l) as [l0|]; cbn [rbind]; [|done]. specialize (IH l0 eq_refl).
  destruct b'; intros [= <-]; by constructor.
Qed.

(** A filter narrows the pool. *)
Lemma pool_filter_sublist {obj} f (r : AssignmentRequest obj) p :
  pool_filter f r = Ok p -> pool_agents p `sublist_of` available_agents r.
Proof.
  destruct f as [|h]; simpl.
  - destruct (available_agents r); intros [= <-]; done.
  - unfold hierarchical_filter, looked_up. destruct (_is_known_delegator _ _) as [k|e].
    2:{ destruct (SecurityModel._contains_critical e); [done|]. intros [= <-]. apply sublist_nil_l. }
    destruct k; cbn [negb]; [|intros [= <-]; apply sublist_nil_l].
    destruct (_filter_by_hierarchy h r _) as [l|e] eqn:Hl.
    2:{ destruct (SecurityModel._contains_critical e); [done|]. intros [= <-]. apply sublist_nil_l. }
    assert (Hs : l `sublist_of` available_agents r).
    { unfold _filter_by_hierarchy in Hl. destruct (ask_direct_reports h _) as [reports|]; cbn [rbind] in Hl; [|done].
      destruct (List.filter _ _) as [|a l0] eqn:Hf; [by eapply subordinates_sublist|]. injection Hl as <-.
      rewrite <-Hf. apply bool_filter_sublist. }
    destruct l; intros [= <-]; [apply sublist_nil_l|done].
Qed.

(** C17: the assignment service, with a scoring strategy that asks the same
    policy: a request of an unassignable task is refused, and any other gets an
    answer. Somebody is selected exactly when somebody is eligible: in the pool
    the filter leaves, allowed by the stakes with nobody allowed at a rung that
    suits the work better, active, below capacity, and clearing the score floor
    unless the work has no requirement and nobody clears it. It is the first in
    the roster of those nobody eligible is preferred to (by score, load, cost or
    bid, as the ranker goes), the alternatives are the other eligible agents by
    falling score, the result is flagged exactly when the score is below the
    band or the floor, and the selected passes the gate of its run. *)
Theorem assignment_exact {obj} (sv : TaskAssignmentService) (s : ScoringBasedAssignmentStrategy)
    (r : AssignmentRequest obj) (p : PoolFilterResult) :
  _strategy sv = ScoringBased s -> sv_capability sv = st_capability s ->
  _validate_collections r = Ok tt ->
  pool_filter (st_pool_filter s) (stamped sv r) = Ok p ->
  if bool_decide (task_status (request_task r) ∈ _ASSIGNABLE_STATUSES)
  then exists res, service_assign sv r = Ok res /\ fair s (stamped sv r) (pool_agents p) res /\
    forall c, selected res = Some c -> passes_gate sv r (agent_identity c)
  else service_assign sv r = Err (Not_assignable (task_status (request_task r))).
Proof.
  intros Hs Hc [_ Hnd]%collections_unique Hp. pose proof (pool_filter_sublist _ _ _ Hp) as Hsub.
  rewrite stamped_agents in Hsub. case_bool_decide as Hst.
  - destruct (service_assign_fair sv s Hs Hc r p Hnd Hp Hsub Hst) as (res & Hr & Hf). exists res. split_and!; [done|done|].
    intros c Hsel. destruct Hf as [_ Hf]. destruct (Hf c Hsel) as (a & -> & [(_ & [Ha _] & _) _] & _).
    unfold scored. rewrite scored_identity. by apply (allowed_gate sv s Hc).
  - unfold service_assign. rewrite stamped_task. by rewrite bool_decide_false.
Qed.

(** C32: a task handed down a hierarchy goes down it: for a resolver that was
    built, the hierarchical strategy of the registry always gets an answer out
    of the service; its pool is those who report to the last delegator (the
    creator when nobody delegated), or if nobody in the roster does those below
    at any depth, and the selection is fair in that pool. *)
Theorem delegation_exact {obj} (departments : list Department) (h : HierarchyResolver) (scorer : option AgentTaskScorer)
    (capability : option CapabilityPolicy) (r : AssignmentRequest obj) :
  new_resolver departments = Ok h -> _validate_collections r = Ok tt ->
  task_status (request_task r) ∈ _ASSIGNABLE_STATUSES ->
  exists s res pool,
    build_strategy_map (Some (lookup_in h)) scorer capability !! STRATEGY_NAME_HIERARCHICAL = Some (ScoringBased s) /\
    let sv := {| _strategy := ScoringBased s; sv_capability := capability |} in
    service_assign sv r = Ok res /\ (forall a, a ∈ pool <-> delegable h r a) /\ fair s (stamped sv r) pool res /\
    forall c, selected res = Some c -> below h (_resolve_delegator r) (agent_identity c).
Proof.
  intros Hh [_ Hnd]%collections_unique Hst. unfold build_strategy_map. rewrite lookup_insert_eq.
  eexists. set (s := Build_ScoringBasedAssignmentStrategy _ _ _ _ _).
  set (sv := {| _strategy := ScoringBased s; sv_capability := capability |}).
  destruct (delegated_pool departments h Hh (stamped sv r)) as (p & Hp & Hsub & Hin).
  assert (Hdel : forall a, a ∈ pool_agents p <-> delegable h r a).
  { intros a. rewrite Hin. unfold delegable, _resolve_delegator. by rewrite stamped_task, stamped_agents. }
  rewrite stamped_agents in Hsub.
  destruct (service_assign_fair sv s eq_refl eq_refl r p Hnd Hp Hsub Hst) as (res & Hr & Hf).
  exists res, (pool_agents p). split_and!; [done|done|done|done|].
  intros c Hsel. destruct Hf as [_ Hf]. destruct (Hf c Hsel) as (a & -> & [(Ha & _) _] & _).
  unfold scored. rewrite scored_identity. apply Hdel in Ha as [_ [Ha|[_ Ha]]]; [by apply reports_below|done].
Qed.

(** ** The pick of the pipeline *)

Lemma undemanding_score scorer a u :
  sub_required_skills u = [] -> sub_required_role u = None -> (score (score_agent scorer a u) == 0)%Q.
Proof.
  intros Hk Hr. unfold score_agent, _score_skill_tiers, _score_role. rewrite Hk, Hr.
  destruct (negb _); [done|]. by rewrite bool_decide_true.
Qed.

Definition solo_strategies : list string :=
  [STRATEGY_NAME_ROLE_BASED; STRATEGY_NAME_LOAD_BALANCED; STRATEGY_NAME_COST_OPTIMIZED; STRATEGY_NAME_AUCTION;
   STRATEGY_NAME_HIERARCHICAL].

Lemma solo_service_built name scorer capability :
  name ∈ solo_strategies ->
  exists s, build_solo_assignment_service name scorer capability = Ok {| _strategy := ScoringBased s; sv_capability := capability |} /\
    st_scorer s = scorer /\ st_pool_filter s = IdentityPoolFilter /\ st_capability s = capability.
Proof.
  unfold solo_strategies. rewrite !elem_of_cons. intros [->|[->|[->|[->|[->|[]%elem_of_nil]]]]];
    by (eexists; split; [reflexivity|]).
Qed.

Section Solo.
Context {obj : Type} (t : TaskModel.Task obj) (agents : list AgentIdentity) (scorer : AgentTaskScorer)
  (capability : option CapabilityPolicy).

(** Passes the gate of the task's run. *)
Definition cleared (a : AgentIdentity) : Prop :=
  forall q, capability = Some q ->
    is_ok (_check_capability q (agent_model a) (task_stakes t) (task_estimated_complexity t)) = true.

(** The rung the task demands. *)
Definition demands : Z :=
  match capability with
  | None => rank_of None
  | Some q => rank_of (Some (required_for q (task_stakes t) (task_estimated_complexity t)))
  end.

(** Active, cleared, and nobody cleared is at a rung that suits better. *)
Definition ready (a : AgentIdentity) : Prop :=
  agent_status a = AgentStatus.ACTIVE /\ cleared a /\
  forall b, b ∈ agents -> cleared b -> rung capability b = rung capability a \/
    suits_better demands (rung capability a) (rung capability b).

Lemma solo_eligible s a :
  st_scorer s = scorer -> st_capability s = capability -> a ∈ agents ->
  let sv := {| _strategy := ScoringBased s; sv_capability := capability |} in
  eligible s (stamped sv (solo_request t agents scorer)) agents a <-> ready a.
Proof.
  intros Hsc Hcap Ha sv. set (r := solo_request t agents scorer). set (rs := stamped sv r).
  assert (Hscore : forall b, (score (scored s rs b) == 0)%Q).
  { intros b. apply undemanding_score; unfold rs, stamped; by destruct (sv_capability sv). }
  assert (Hq : forall b b', qualified s rs b = qualified s rs b').
  { intros b b'. unfold qualified. apply eq_true_iff_eq. rewrite !Qle_bool_iff. by rewrite !Hscore. }
  assert (Hun : unconstrained rs = true) by (unfold rs, stamped; by destruct (sv_capability sv)).
  assert (Hcap' : forall b, at_capacity rs b = false) by (intros; unfold rs, stamped; by destruct (sv_capability sv)).
  assert (Hal : forall b, may_be_given s rs b = true <-> cleared b).
  { intros b. unfold rs. rewrite (allowed_gate sv s (eq_sym Hcap)). done. }
  assert (Hstep : forall b, rung_for s rs b = rung capability b).
  { intros b. unfold rung_for, rung. rewrite Hcap. unfold rs, stamped. simpl. by destruct capability. }
  assert (Hw : wanted rs = demands) by (unfold wanted, demands, rs, stamped; simpl; by destruct capability).
  assert (Hreach : forall b, in_reach s rs agents b <-> cleared b /\ forall c, c ∈ agents -> cleared c ->
      rung capability c = rung capability b \/ suits_better demands (rung capability b) (rung capability c)).
  { intros b. unfold in_reach. rewrite Hal, Hw. f_equiv. split; intros H c Hc Hcl; specialize (H c Hc);
      rewrite !Hstep in *; by apply H, Hal. }
  unfold eligible, ready. rewrite Hreach. unfold able, is_active. rewrite Hcap'. cbn [negb]. rewrite andb_true_r, bool_decide_eq_true.
  split; [tauto|]. intros (Hact & Hcl & Hbest). split_and!; [done..|].
  destruct (qualified s rs a) eqn:E; [by left|right]. split; [done|]. intros b _ _ _. by rewrite (Hq b a).
Qed.

Lemma nobody_preferred s k a b :
  let sv := {| _strategy := ScoringBased s; sv_capability := capability |} in
  ~ prefers s (stamped sv (solo_request t agents scorer)) agents k a b.
Proof.
  intros sv. set (rs := stamped sv _).
  assert (Hscore : forall b, (score (scored s rs b) == 0)%Q).
  { intros c. apply undemanding_score; unfold rs, stamped; by destruct (sv_capability sv). }
  assert (Hno : ~ loads_known s rs agents) by (unfold loads_known, rs, stamped; by destruct (sv_capability sv); intros [? _]).
  assert (Hab : ~ scores_above s rs a b) by (unfold scores_above; rewrite !Hscore; lra).
  destruct k; simpl; tauto.
Qed.
End Solo.

(** The key [(score, id)] is a total order on candidates. *)
Lemma best_scored_first_total a b : best_scored_first a b = true \/ best_scored_first b a = true.
Proof.
  unfold best_scored_first. rewrite !orb_true_iff, !andb_true_iff, !negb_true_iff, <-!not_true_iff_false,
    !Qle_bool_iff, !Qeq_bool_iff.
  destruct (Q_dec (score a) (score b)) as [[Hlt|Hlt]|Heq]; [right; left; lra|left; left; lra|].
  destruct (str_le_total_order.(total_order_trichotomy) (candidate_id a) (candidate_id b)) as [[Hl _]|[->|[Hl _]]];
    [right; right; split; [lra|done]|left; right; split; [lra|apply (reflexivity (R:=str_le))]|left; right; split; [lra|done]].
Qed.

Lemma best_scored_first_trans a b c :
  best_scored_first a b = true -> best_scored_first b c = true -> best_scored_first a c = true.
Proof.
  unfold best_scored_first. rewrite !orb_true_iff, !andb_true_iff, !negb_true_iff, <-!not_true_iff_false,
    !Qle_bool_iff, !Qeq_bool_iff.
  intros [Hab|[Hab Hl]] [Hbc|[Hbc Hl']]; [left; lra..|].
  right. split; [lra|]. exact (transitivity (R:=str_le) Hl' Hl).
Qed.

(** Without a service nothing is asked of the agents: every score is 0. *)
Lemma select_directly {obj} (t : TaskModel.Task obj) agents scorer :
  agents <> [] ->
  match select_solo_agent t agents scorer None with
  | Ok i => (_min_score scorer <= 0)%Q /\
      exists a, a ∈ agents /\ i = agent_id a /\ forall b, b ∈ agents -> str_le (agent_id b) (agent_id a)
  | Err e => (0 < _min_score scorer)%Q /\ e = None_above_routing_threshold (_min_score scorer)
  end.
Proof.
  intros Hne. unfold select_solo_agent. rewrite bool_decide_false by done. cbn [negb].
  set (u := build_subtask_definition _). set (f := fun c => Qle_bool _ _). set (cs := _ <$> agents).
  assert (Hzero : forall a, (score (score_agent scorer a u) == 0)%Q) by (intros; by apply undemanding_score).
  assert (Hf : forall c, c ∈ List.filter f cs <-> exists a, c = score_agent scorer a u /\ a ∈ agents /\ (_min_score scorer <= 0)%Q).
  { intros c. rewrite list_elem_of_In, filter_In, <-list_elem_of_In. unfold cs. rewrite list_elem_of_fmap.
    unfold f. rewrite Qle_bool_iff. split.
    - intros [(a & -> & Ha) Hc]. exists a. rewrite Hzero in Hc. by split_and!.
    - intros (a & -> & Ha & Hm). split; [by exists a|]. by rewrite Hzero. }
  destruct (sort_by best_scored_first (List.filter f cs)) as [|c r] eqn:Hs.
  - split; [|done]. apply sort_by_nil in Hs. destruct (Qlt_le_dec 0 (_min_score scorer)) as [|Hm]; [done|].
    destruct agents as [|a agents']; [done|]. exfalso. apply (not_elem_of_nil (score_agent scorer a u)).
    rewrite <-Hs. apply Hf. exists a. split_and!; [done|left|done].
  - destruct (sort_by_cons _ best_scored_first_total best_scored_first_trans _ _ _ Hs) as (l1 & l2 & Hl & _ & _ & Hmin).
    assert (Hc : c ∈ List.filter f cs) by (rewrite Hl; set_solver).
    apply Hf in Hc as (a & -> & Ha & Hm). split; [done|]. exists a.
    split_and!; [done|unfold candidate_id; by rewrite scored_identity|].
    intros b Hb. specialize (Hmin (score_agent scorer b u) ltac:(apply Hf; by exists b)).
    unfold best_scored_first in Hmin. rewrite orb_true_iff, andb_true_iff, negb_true_iff, <-not_true_iff_false, Qle_bool_iff, !Hzero in Hmin.
    destruct Hmin as [Hmin|[_ Hmin]]; [by destruct Hmin|]. unfold candidate_id in Hmin. by rewrite !scored_identity in Hmin.
Qed.

(** C33: the agent that gets work that is not split, for a task whose status
    allows assignment and a roster, not empty, of agents with distinct ids. It is
    asked for without skills or role, so every score is 0 and the scores decide
    nothing: whichever of the five scoring strategies is configured, and whatever
    the minimum score, the service picks the first ready agent of the roster (active, cleared for the task, with
    nobody cleared at a rung that suits better), and the pick fails exactly when
    nobody is ready. Without a service there is nobody when the minimum score is
    positive, and otherwise it is the agent of the whole roster with the greatest
    id, active and cleared or not. The docstring promises the highest score with
    ties broken by id on both paths: on the first, the tie goes by the order of
    the roster ([solo_first_not_least]). *)
Theorem solo_pick_exact {obj} (t : TaskModel.Task obj) (agents : list AgentIdentity) (scorer : AgentTaskScorer)
    (capability : option CapabilityPolicy) (name : string) :
  agents <> [] -> NoDup (agent_id <$> agents) -> task_status t ∈ _ASSIGNABLE_STATUSES -> name ∈ solo_strategies ->
  (exists sv, build_solo_assignment_service name scorer capability = Ok sv /\
     match select_solo_agent t agents scorer (Some sv) with
     | Ok i => exists l1 a l2, agents = l1 ++ a :: l2 /\ i = agent_id a /\ ready t agents capability a /\
         forall b, b ∈ l1 -> ~ ready t agents capability b
     | Err e => (exists why, e = Service_selected_nobody why) /\ forall a, a ∈ agents -> ~ ready t agents capability a
     end) /\
  match select_solo_agent t agents scorer None with
  | Ok i => (_min_score scorer <= 0)%Q /\
      exists a, a ∈ agents /\ i = agent_id a /\ forall b, b ∈ agents -> str_le (agent_id b) (agent_id a)
  | Err e => (0 < _min_score scorer)%Q /\ e = None_above_routing_threshold (_min_score scorer)
  end.
Proof.
  intros Hne Hnd Hst Hname. split; [|by apply select_directly]. unfold select_solo_agent. rewrite bool_decide_false by done. cbn [negb].
  destruct (solo_service_built name scorer capability Hname) as (s & -> & Hsc & Hpf & Hcap). eexists. split; [done|].
  set (sv := {| _strategy := ScoringBased s; sv_capability := capability |}). set (r := solo_request t agents scorer).
  unfold _select_via_service. fold r.
  assert (Hvalid : _validate_collections r = Ok tt).
  { unfold _validate_collections. simpl. rewrite bool_decide_false by done. apply duplicates_nil in Hnd as ->. done. }
  rewrite Hvalid.
  assert (Hpool : exists p, pool_filter (st_pool_filter s) (stamped sv r) = Ok p /\ pool_agents p = agents).
  { rewrite Hpf. cbn [pool_filter]. rewrite stamped_agents. simpl. destruct agents; [done|]. eexists. by split. }
  destruct Hpool as (p & Hp & Hpa).
  destruct (service_assign_fair sv s eq_refl (eq_sym Hcap) r p Hnd Hp) as (res & -> & Hf); [by rewrite Hpa|done|].
  rewrite Hpa in Hf. destruct Hf as [Hnone Hsome].
  pose proof (fun a => solo_eligible t agents scorer capability s a Hsc Hcap) as He. destruct (selected res) as [c|].
  - destruct (Hsome c eq_refl) as (a & -> & [Hel (l1 & l2 & Hl & Hb & _)] & _). exists l1, a, l2. split_and!; [done| | |].
    + unfold candidate_id, scored. by rewrite scored_identity.
    + apply (He a); [apply Hel|done].
    + intros b Hbin Hbr. apply (He b) in Hbr; [|rewrite Hl; set_solver]. exact (nobody_preferred t agents scorer capability s _ a b (Hb b Hbin Hbr)).
  - split; [by eexists|]. intros a Ha Hr. apply (proj1 Hnone eq_refl a). by apply (He a).
Qed.

(** ** A staff *)

Module Staff.
Import Roster.

Definition fay : AgentIdentity := agent "fay" "engineer" [skill "go" (1 # 2)] (Some capable).

Definition load (i : string) (n : Z) (c : Q) : AgentWorkload := {| wl_agent_id := i; active_task_count := n; total_cost := c |}.

Definition ask (t : TaskModel.Task Plain.pyobj) (agents : list AgentIdentity) (loads : list AgentWorkload) (skills : list string)
    : AssignmentRequest Plain.pyobj := {|
  request_task := t; available_agents := agents; workloads := loads; min_score := 1 # 10;
  request_low_confidence_score := 7 # 20; required_skills := skills; required_role := None;
  max_concurrent_tasks := Some 5%Z; required_capability := None |}.

Definition staff : list AgentIdentity := [cyd; bob; fay; ada; dan].

Definition request : AssignmentRequest Plain.pyobj :=
  ask objective staff [load "bob" 2 (9 # 10); load "fay" 1 (3 # 10)] ["go"].

Definition strategy (k : CandidateRanker) : ScoringBasedAssignmentStrategy := {|
  st_name := "x"; st_scorer := scorer; st_pool_filter := IdentityPoolFilter; st_ranker := k; st_capability := Some policy |}.

Definition service (k : CandidateRanker) : TaskAssignmentService :=
  {| _strategy := ScoringBased (strategy k); sv_capability := Some policy |}.

Definition taken (res : result AssignError AssignmentResult) : option (option string * list string * bool) :=
  match res with
  | Ok res => Some (candidate_id <$> selected res, candidate_id <$> result_alternatives res, low_confidence res)
  | Err _ => None
  end.

(** By score Bob is better, by load and by cost Fay; the bids say Bob again. *)
Example rankers_differ :
  (fun k => taken (service_assign (service k) request)) <$>
    [ScoreDescendingRanker; WorkloadAscendingRanker; CostDescendingRanker; AuctionBidRanker] =
  [Some (Some "bob", ["fay"], true); Some (Some "fay", ["bob"], true); Some (Some "fay", ["bob"], true);
   Some (Some "bob", ["fay"], true)].
Proof. vm_compute. reflexivity. Qed.

(** The best rung is settled before who is active: an idle expert is passed over
    for work a capable model on leave fits exactly, and nobody gets it. *)
Definition bob_away : AgentIdentity := {| agent_id := "bob"; agent_name := "bob"; agent_role := "engineer";
  agent_status := AgentStatus.ON_LEAVE; agent_skills := agent_skills bob; agent_model := agent_model bob |}.

Example idle_expert_passed_over :
  taken (service_assign (service ScoreDescendingRanker) (ask objective [bob_away; ada] [] [])) = Some (None, [], false) /\
  taken (service_assign (service ScoreDescendingRanker) (ask objective [ada] [] [])) = Some (Some "ada", [], true).
Proof. split; vm_compute; reflexivity. Qed.

(** The service asks whether anybody may take the work, the manual strategy not
    whether the designated may: an ungraded model is assigned, and refused when
    it runs. *)
Definition failed_args : gmap string Plain.pyobj :=
  <["status"%string := Plain.PStr "failed"]> (<["assigned_to"%string := Plain.PSome (Plain.PStr "dan")]> Plain.minimal).

Lemma failed_ok : is_ok (TaskModel.model_validate Plain.env failed_args) = true.
Proof. vm_compute. reflexivity. Qed.

Definition failed_task : TaskModel.Task Plain.pyobj := unwrap (TaskModel.model_validate Plain.env failed_args) failed_ok.

Example manual_ungraded :
  taken (service_assign {| _strategy := ManualAssignmentStrategy; sv_capability := Some policy |} (ask failed_task [dan; bob] [] []))
    = Some (Some "dan", [], false) /\
  is_ok (_check_capability policy (agent_model dan) (task_stakes failed_task) (task_estimated_complexity failed_task)) = false.
Proof. split; vm_compute; reflexivity. Qed.

(** The pick among equals is the first in the roster: neither the least id nor,
    as without a service, the greatest. *)
Example solo_first_not_least :
  select_solo_agent objective [fay; bob] scorer (Some (service ScoreDescendingRanker)) = Ok "fay" /\
  select_solo_agent objective [bob; fay] scorer (Some (service ScoreDescendingRanker)) = Ok "bob".
Proof. split; vm_compute; reflexivity. Qed.

(** With a minimum of 0 an agent on leave is picked when there is no service. *)
Example solo_floor_zero :
  select_solo_agent objective [ada; bob_away]
    {| scorer_config := scorer_config scorer; _min_score := 0 |} None = Ok "bob".
Proof. vm_compute. reflexivity. Qed.

End Staff.


Lemma assignment_exact_witness :
  exists res a, service_assign (Staff.service WorkloadAscendingRanker) Staff.request = Ok res /\
    selected res = Some (scored (Staff.strategy WorkloadAscendingRanker) (stamped (Staff.service WorkloadAscendingRanker) Staff.request) a) /\
    agent_id a = "fay" /\
    chosen (Staff.strategy WorkloadAscendingRanker) (stamped (Staff.service WorkloadAscendingRanker) Staff.request) Staff.staff a.
Proof.
  assert (Hp : pool_filter IdentityPoolFilter (stamped (Staff.service WorkloadAscendingRanker) Staff.request) =
    Ok {| pool_agents := Staff.staff; pool_reason := None; rewrite_success_reason := None |}) by reflexivity.
  assert (Hv : _validate_collections Staff.request = Ok tt) by (vm_compute; reflexivity).
  pose proof (assignment_exact (Staff.service WorkloadAscendingRanker) (Staff.strategy WorkloadAscendingRanker) Staff.request
    _ eq_refl eq_refl Hv Hp) as He. rewrite bool_decide_true in He by (vm_compute; left).
  destruct He as (res & Hres & [_ Hsel] & _).
  assert (Hfay : match service_assign (Staff.service WorkloadAscendingRanker) Staff.request with
    | Ok res => candidate_id <$> selected res = Some "fay" | Err _ => False end) by (vm_compute; reflexivity).
  rewrite Hres in Hfay. destruct (selected res) as [c|] eqn:Hc; [|discriminate Hfay]. injection Hfay as Hfay.
  destruct (Hsel c eq_refl) as (a & -> & Ha & _). exists res, a. unfold candidate_id, scored in Hfay.
  rewrite scored_identity in Hfay. rewrite Hc. by split_and!.
Defined.

Lemma delegation_exact_witness :
  exists res c, selected res = Some c /\ agent_id (agent_identity c) = "bob" /\
    match new_resolver [Org.platform] with
    | Ok h => tc (edge (above h)) "bob" "ada"
    | Err _ => False
    end.
Proof.
  destruct (new_resolver [Org.platform]) as [h|] eqn:Hh; [|vm_compute in Hh; discriminate Hh].
  destruct (delegation_exact [Org.platform] h (Some Roster.scorer) (Some Roster.policy) Staff.request Hh
    ltac:(vm_compute; reflexivity) ltac:(left)) as (s & res & pool & Hs & Hr & _ & _ & Hbelow).
  assert (Hbob : match new_resolver [Org.platform] with
    | Ok h => match build_strategy_map (Some (lookup_in h)) (Some Roster.scorer) (Some Roster.policy) !! STRATEGY_NAME_HIERARCHICAL with
        | Some st => match service_assign {| _strategy := st; sv_capability := Some Roster.policy |} Staff.request with
            | Ok res => agent_identity <$> selected res = Some Roster.bob | Err _ => False end
        | None => False end
    | Err _ => False end) by (vm_compute; reflexivity).
  rewrite Hh, Hs in Hbob.
  cbv iota zeta in Hbob. rewrite Hr in Hbob. cbv iota in Hbob. apply fmap_Some in Hbob as (c & Hc & Hbob).
  exists res, c. specialize (Hbelow c Hc). rewrite <-Hbob in *. split_and!; [exact Hc|reflexivity|].
  destruct Hbelow as [Hb|Hb]; exact Hb.
Defined.

Lemma solo_pick_exact_witness :
  match build_solo_assignment_service STRATEGY_NAME_AUCTION Roster.scorer (Some Roster.policy) with
  | Ok sv => select_solo_agent Roster.objective Staff.staff Roster.scorer (Some sv) = Ok "bob" /\
      forall b, b ∈ [Roster.cyd] -> ~ ready Roster.objective Staff.staff (Some Roster.policy) b
  | Err _ => False
  end.
Proof.
  destruct (solo_pick_exact Roster.objective Staff.staff Roster.scorer (Some Roster.policy) STRATEGY_NAME_AUCTION
    ltac:(discriminate) ltac:(apply (bool_decide_unpack _); vm_compute; exact I) ltac:(left)
    ltac:(apply (bool_decide_unpack _); vm_compute; exact I)) as [(sv & Hsv & Hpick) _].
  rewrite Hsv. assert (Hbob : match build_solo_assignment_service STRATEGY_NAME_AUCTION Roster.scorer (Some Roster.policy) with
    | Ok sv => select_solo_agent Roster.objective Staff.staff Roster.scorer (Some sv) = Ok "bob" | Err _ => False end)
    by (vm_compute; reflexivity).
  rewrite Hsv in Hbob. rewrite Hbob in Hpick. split; [done|]. destruct Hpick as (l1 & a & l2 & Hl & Hi & _ & Hn).
  destruct l1 as [|x [|y l1]]; [injection Hl as <- _; discriminate Hi|injection Hl as <- _; exact Hn|].
  injection Hl as <- _. intros b ->%list_elem_of_singleton. apply Hn. left.
Defined.
